(* ===== verification/_CoqProject ===== *)
-Q . S2P
Prelude.v
Text.v
Errors.v
Json.v
Amount.v
AmountSpec.v
TxSize.v
Pools.v
Network.v
Pacing.v
Operations.v
OperationsSpec.v
Engine.v
EngineSpec.v
Spend.v
SpendSpec.v
Keys.v
KeysSpec.v
Sends.v
SendsSpec.v
Upstream.v
UpstreamSpec.v
Enhance.v
EnhanceSpec.v
Status.v
Health.v
HealthSpec.v
Rpc.v
RpcSpec.v
Auth.v
AuthSpec.v
ChainRpc.v
ChainRpcSpec.v
Address.v
Reads.v
ReadsSpec.v
Ownership.v
History.v
HistorySpec.v
WalletInfo.v
SendRpc.v
SendRpcSpec.v
Shard.v
Fleet.v
FleetSpec.v
OnboardSpec.v
WalletRpc.v
WalletRpcSpec.v
Issue.v
IssueSpec.v
Endpoint.v
EndpointSpec.v
Hub.v
HubSpec.v
Zebra.v
Lwd.v
SourceSpec.v
Settings.v
Config.v
ConfigSpec.v
Show.v
ShowSpec.v
ReloadSpec.v
Migrate.v
MigrateSpec.v
Check.v
CheckSpec.v
Init.v
InitSpec.v
Derive.v
DeriveSpec.v
RawTx.v
RawTxSpec.v
SignMessage.v
SignMessageSpec.v
ChainProbe.v
Window.v
WindowSpec.v
Actor.v
ActorSpec.v
