(* ===== verification/Prelude.v ===== *)
(** * zecd: a verification development

    zecd is a Zcash wallet daemon with Bitcoin Core's RPC dialect. A client's HTTP request is
    authenticated, framed as JSON-RPC and dispatched to a method; a method reads the wallet
    database directly or hands a command to the wallet's actor; the actor - one per wallet
    database - owns the keys and the only writer, follows the chain through an upstream node, and
    builds, proves, stores and broadcasts the sends. View wallets share databases (shards) and are
    onboarded at run time (the fleet). Nothing is kept that the seed and the chain cannot rebuild.

    ** How it is modelled

    The definitions are executable functions named after the code's, on the code's data; a
    fallible one returns [result] (Rust's [Result]), one that changes state returns the new state
    beside its answer. Machine integers are [Z], with wrap-around, saturation and range checks
    written where the code has them ([Prelude]). Strings are byte strings in UTF-8 ([Text]), JSON
    numbers their literals ([Json]). Concurrency is explicit: interleaved steps of the actor, its
    handles and the proving task ([KeysSpec], [SendsSpec], [OperationsSpec]), runs of a fleet
    ([OnboardSpec]), answers of the world indexed by time ([ChainRpc]'s waits).
    Code outside [src/] - the wallet library and its SQLite database, the key and address crates,
    cryptography, TOML, HTTP, the upstream node, the operating system - is a type class or an
    argument, with laws only where a theorem needs documented behaviour, and each such theorem has
    a witness at a concrete instance.

    ** The files, and the code they model

    Foundations.
    - [Prelude], [Text], [Errors] (src/error.rs), [Json]: results, machine integers, strings, the
      error taxonomy, JSON values.
    - [Amount], [AmountSpec] (src/amount.rs): decimal amounts; the parser accepts exactly the
      numerals whose value is a whole number of zatoshi in range.
    - [TxSize] (src/tx_size.rs), [Pools] (src/pools.rs), [Network] (src/coin.rs, src/network.rs),
      [Pacing] (src/backoff.rs, src/progress.rs, src/sync/memcache.rs, src/state.rs), [Address]
      (src/address.rs).

    Following the chain.
    - [Engine], [EngineSpec] (src/sync/engine.rs): one sync batch - selection, resumable download,
      transparent matching, rewind. A flaky download gives what an uninterrupted one would; spends
      found are exactly the wallet's; a rewind clears the conflict.
    - [Window], [WindowSpec] (src/wallet/actor.rs): the transparent addresses a wallet watches. Its
      restore window is exposed in boundedly many passes, and what it hands out it watches; the
      mempool is matched as the scan matches.
    - [Actor], [ActorSpec] (src/wallet/actor.rs): the loop that owns a wallet - connecting, the tip,
      a pass, commands, backoff. But for the checks themselves and a mempool stream still open, its
      connection is used only while its node can be trusted; a wallet that cannot rewind stops
      scanning; failures are paced, and only a tip taken starts the backoff over.
    - [Upstream], [UpstreamSpec] (src/chain/mod.rs, src/wallet/actor.rs): broadcasts, the guard
      against a wrong or outdated node, what a failed pass reports.
    - [Enhance], [EnhanceSpec] (src/wallet/actor.rs): the drain of enhancement requests; it ends,
      and its watermark never passes pending work.
    - [Hub], [HubSpec] (src/chain/hub.rs): the connection the wallets share, its caches and the
      fan-out of the mempool. Whatever is cached was the upstream's answer, on this connection or,
      for a transaction, an earlier one; a reader that joined before the replay buffer was full
      misses nothing it was not told it missed; the cache is a recency list.
    - [Zebra], [Lwd], [SourceSpec] (src/chain/zebra.rs, src/chain/lwd.rs): the two upstream clients
      call by call. They agree on a block; a broadcast counts as accepted exactly when the node took
      it; a split address query finds what one query would; blocks arrive whole and in order.
    - [Endpoint], [EndpointSpec] (src/backend.rs, src/socks.rs, the gate and credentials of
      src/chain/zebra.rs, the backend settings of src/config.rs): which upstream a wallet dials and
      how. No credential, and no unencrypted lightwalletd query, leaves for a host the policy does
      not allow; the configuration check agrees with a dial; a proxy's text reads back.

    Keys and sends.
    - [Keys], [KeysSpec] (src/wallet/store.rs, keys.rs, binding.rs, actor.rs): the keys file, the
      seed in memory, unlock, lock and relock. Spending refines an abstract authority; the account
      served stays bound to the keys file and the seed.
    - [Spend], [SpendSpec] (src/wallet/actor.rs, src/config.rs): privacy policy, routing, limits,
      checks on a proposal, transparent selection.
    - [Sends], [SendsSpec] (src/wallet/actor.rs): the pipeline from gate to broadcast, its queue
      and its drain. Each send is answered once; no note is spent by two transactions that have
      not expired, while nothing else commits the notes of a proof in flight.
    - [Operations], [OperationsSpec] (src/operations.rs): the asynchronous operations.

    The RPC surface.
    - [Status], [Health], [HealthSpec] (src/wallet/mod.rs, src/wallet/actor.rs, src/health.rs):
      what a wallet publishes, and the probes over it.
    - [Rpc], [RpcSpec] (src/server/jsonrpc.rs, src/server/mod.rs, src/rpc/mod.rs), [Auth],
      [AuthSpec] (src/server/auth.rs): framing, gates, dispatch, the HTTP contract, who logs in.
    - [ChainRpc], [ChainRpcSpec] (src/rpc/blockchain.rs, control.rs, network.rs, util.rs): the
      chain methods and the waits, which end on time.
    - [Reads], [ReadsSpec], [Ownership] (src/wallet/read.rs): every query of the wallet database;
      the transactions of an account list no other's outputs; an address is ours only whole.
    - [History], [HistorySpec], [WalletInfo] (src/rpc/wallet_methods.rs): pages equal to a full
      scan's, a poller that comes back with its cursor misses nothing, the received-by sums,
      balances and information.
    - [SendRpc], [SendRpcSpec] (src/rpc/wallet_methods.rs): the spending methods; what reaches the
      actor passed every gate, and is built and routed to reveal no more than its policy allows.
    - [Issue], [IssueSpec] (src/rpc/wallet_methods.rs, src/wallet/actor.rs): handing out addresses,
      within the wallet's pools and recovery horizon.
    - [RawTx], [RawTxSpec] (src/rpc/rawtx.rs), [SignMessage], [SignMessageSpec]
      (src/rpc/signmessage.rs), with their parts of src/wallet/actor.rs: raw transactions, whose
      bytes pass whole, and signed messages, which verify for the signer's address alone.

    The fleet.
    - [Shard] (src/wallet/shard.rs, src/wallet/actor.rs), [Fleet], [FleetSpec] (src/fleet.rs,
      src/node.rs): placement, manifests, starting the fleet; the layout is exact, a manifest is
      written whole or not at all.
    - [OnboardSpec] (src/fleet.rs): onboarding is all or nothing, and the invariant of every fleet
      that can be reached.
    - [WalletRpc], [WalletRpcSpec] (src/rpc/wallet_methods.rs): the methods that manage wallets.

    The configuration.
    - [Settings], [Config], [ConfigSpec] (src/config.rs): the file as a TOML document, and the
      command line, the environment, the file and the defaults resolved with every refusal. What
      resolves is coherent.
    - [Show], [ShowSpec], [ReloadSpec] (src/config_show.rs, the reload of src/config.rs): the
      effective configuration printed, compared and reloaded. What is printed reads back to what
      runs, when it is text TOML reads and its directories are absolute; a reload moves what it
      reports and names the rest.
    - [Migrate], [MigrateSpec] (src/migrate.rs): the move of the databases into the current layout;
      no file is lost or doubled wherever it stops, and the next run finishes it.
    - [Check], [CheckSpec] (src/config_check.rs, the start of src/daemon.rs and src/node.rs): the
      findings about a configuration, and the daemon's start on it: the lock, the cookie, the
      layout, the wallets, the fleet. Without an error found the daemon starts, unless what it opens
      refuses; with one, it does not, or cannot dial what it names.

    The commands beside the daemon.
    - [Init], [InitSpec] (src/init.rs, src/lock.rs): [zecd init], [export-ufvk] and
      [rescan], as actions on a file system that may fail part way, lock and layout included. [init] sets a
      wallet up whole or leaves what the next start can set up; a rescan deletes only the database,
      which a start rebuilds from the seed or the pinned key, if it decodes.
    - [Derive], [DeriveSpec] (src/derive_address.rs): addresses without a daemon; they are those the
      daemon hands out.
    - [ChainProbe] (src/chain_probe.rs): the probe of an upstream, its verdict compared
      with the guards of the daemon.

    ** Bounds and fuel

    A loop that is not structural runs on fuel that is proved, or shown beside it, to be enough:
    - [TxSize.bisect_fuel] halves a 64-bit interval (64 rounds; [TxSize.bisect_spec]);
    - [Engine.download_fuel] gives a download four rounds per block of its range, the most the
      retry budget allows between two blocks of progress ([EngineSpec.download_loop_spec]);
    - [History.HISTORY_PAGES] doublings of a page reach past every count a database can hold
      ([HistorySpec.paginate_loop_spec]);
    - [Zebra.address_fuel] is one more than twice the length of the heights queried, which a
      halving split never exceeds ([SourceSpec.split_query_exact]);
    - [Fleet.next_free_shard_dir] looks at one directory more than exist
      ([OnboardSpec.next_free_exists]).
    The catch-up of [Actor] before a send makes the passes it is given: more change nothing once it
    is done, and enough are there when each that works leaves less to do
    ([ActorSpec.catch_up_ends]); what is proved of the loop holds for any number.
    The waits of [ChainRpc] run against a schedule of answers; with a timeout they end
    ([ChainRpcSpec.waits_end]). A step of the drain of [Enhance] is structural in its requests, and
    the drain takes at most a turn more than there are requests for each clean slate
    ([EnhanceSpec.drain_ends]).

    ** Not modelled

    Logging and metrics; sockets, HTTP and TLS; SQLite and files beyond the states a write can
    leave; the bodies of the wallet library's calls; TOML's syntax; the prompts of the commands.
    Among the sources: the SOCKS5 handshake, the options a SQLite connection is opened with
    (src/wallet/open.rs), the building of shielding and merging proposals in the actor, the typed
    client (src/typed/), process start (src/main.rs, daemon.rs, hardening.rs, licenses.rs) and the
    regtest harness, which drives nodes for tests. *)

From stdpp Require Export base list strings gmap sorting fin_map_dom.
From Stdlib Require Export ZArith Lia.

#[global] Set Default Goal Selector "!".
#[export] Set Warnings "-clear-no-such-hyp,-level-tolerance".

(** ** Notation scope *)

Declare Scope zecd_scope.
Delimit Scope zecd_scope with zecd.
#[global] Open Scope Z_scope.

(** ** Results: Rust's [Result<A, E>] *)

Inductive result (E A : Type) : Type :=
  | Ok (a : A)
  | Err (e : E).
Arguments Ok {E A} a.
Arguments Err {E A} e.

#[global] Instance result_ret {E} : MRet (result E) := λ A a, Ok a.
#[global] Instance result_bind {E} : MBind (result E) := λ A B f m,
  match m with Ok a => f a | Err e => Err e end.
#[global] Instance result_fmap {E} : FMap (result E) := λ A B f m,
  match m with Ok a => Ok (f a) | Err e => Err e end.

#[global] Instance result_eq_dec {E A} `{EqDecision E, EqDecision A} :
  EqDecision (result E A).
Proof. solve_decision. Defined.

Definition is_Ok {E A} (r : result E A) : Prop := ∃ a, r = Ok a.
Definition is_Err {E A} (r : result E A) : Prop := ∃ e, r = Err e.

(** [Option::ok_or]. *)
Definition ok_or {E A} (o : option A) (e : E) : result E A :=
  match o with Some a => Ok a | None => Err e end.

(** [Result::ok]. *)
Definition result_ok {E A} (r : result E A) : option A :=
  match r with Ok a => Some a | Err _ => None end.

(** [Option::is_some]. *)
Definition is_some {A} (o : option A) : bool := match o with Some _ => true | None => false end.

(** [Result::map_err]. *)
Definition map_err {E F A} (f : E → F) (r : result E A) : result F A :=
  match r with Ok a => Ok a | Err e => Err (f e) end.

Lemma bind_Ok_inv {E A B} (f : A → result E B) (m : result E A) b :
  m ≫= f = Ok b → ∃ a, m = Ok a ∧ f a = Ok b.
Proof. destruct m; simpl; naive_solver. Qed.

Lemma ok_or_Ok {E A} (o : option A) (e : E) a : ok_or o e = Ok a ↔ o = Some a.
Proof. destruct o; naive_solver. Qed.

(** ** Machine integers: a w-bit integer is a [Z] in range *)

Definition u16_max : Z := 2 ^ 16 - 1.
Definition u32_max : Z := 2 ^ 32 - 1.
Definition u64_max : Z := 2 ^ 64 - 1.
Definition i32_max : Z := 2 ^ 31 - 1.
Definition i64_max : Z := 2 ^ 63 - 1.
Definition i64_min : Z := - 2 ^ 63.
(** zecd is built for 64-bit targets: [usize] is 64 bits wide. *)
Definition usize_max : Z := u64_max.

Definition is_u32 (z : Z) : Prop := 0 ≤ z ≤ u32_max.
Definition is_u64 (z : Z) : Prop := 0 ≤ z ≤ u64_max.
Definition is_i64 (z : Z) : Prop := i64_min ≤ z ≤ i64_max.
Definition is_usize (z : Z) : Prop := 0 ≤ z ≤ usize_max.

#[global] Instance is_u32_dec z : Decision (is_u32 z).
Proof. unfold is_u32. apply _. Defined.
#[global] Instance is_u64_dec z : Decision (is_u64 z).
Proof. unfold is_u64. apply _. Defined.
#[global] Instance is_i64_dec z : Decision (is_i64 z).
Proof. unfold is_i64. apply _. Defined.
#[global] Instance is_usize_dec z : Decision (is_usize z).
Proof. unfold is_usize. apply _. Defined.

(** The release build has no [overflow-checks]: plain [+], [-] and [*] wrap. *)
Definition wrap_u32 (z : Z) : Z := z mod 2 ^ 32.
Definition wrap_u64 (z : Z) : Z := z mod 2 ^ 64.
Definition wrap_usize (z : Z) : Z := z mod 2 ^ 64.

Definition u32_sat_add (a b : Z) : Z := Z.min (a + b) u32_max.
Definition u64_sat_add (a b : Z) : Z := Z.min (a + b) u64_max.
(** [saturating_sub] on any unsigned width. *)
Definition sat_sub (a b : Z) : Z := Z.max (a - b) 0.

(** [div_ceil] on unsigned integers, for a positive divisor. *)
Definition div_ceil (a b : Z) : Z := (a + b - 1) / b.

Lemma wrap_u64_small z : is_u64 z → wrap_u64 z = z.
Proof. unfold is_u64, u64_max, wrap_u64. intros. apply Z.mod_small. lia. Qed.
Lemma wrap_u32_small z : is_u32 z → wrap_u32 z = z.
Proof. unfold is_u32, u32_max, wrap_u32. intros. apply Z.mod_small. lia. Qed.
Lemma wrap_usize_small z : is_usize z → wrap_usize z = z.
Proof. unfold is_usize, usize_max, u64_max, wrap_usize. intros. apply Z.mod_small. lia. Qed.

Lemma div_ceil_spec a b : 0 < b → b * (div_ceil a b - 1) < a ≤ b * div_ceil a b.
Proof.
  unfold div_ceil. intros Hb.
  pose proof (Z.div_mod (a + b - 1) b ltac:(lia)).
  pose proof (Z.mod_pos_bound (a + b - 1) b Hb). lia.
Qed.

Lemma div_ceil_mono a a' b : 0 < b → a ≤ a' → div_ceil a b ≤ div_ceil a' b.
Proof. unfold div_ceil. intros. apply Z.div_le_mono; lia. Qed.

Lemma div_ceil_nonneg a b : 0 < b → 0 ≤ a → 0 ≤ div_ceil a b.
Proof. unfold div_ceil. intros. apply Z.div_pos; lia. Qed.

Lemma sat_sub_zero a b : sat_sub a b = 0 ↔ a ≤ b.
Proof. unfold sat_sub. lia. Qed.

(** ** Stable sorting: Rust's [sort_by_key] *)

Section sort_by_key.
Context {A : Type} (key : A → Z).

Fixpoint insert_by_key (x : A) (l : list A) : list A :=
  match l with
  | [] => [x]
  | y :: l' => if key x <=? key y then x :: l else y :: insert_by_key x l'
  end.

(** Equal keys keep their order: the sort is stable. *)
Definition sort_by_key (l : list A) : list A := foldr insert_by_key [] l.

Definition key_le (x y : A) : Prop := key x ≤ key y.

Lemma insert_by_key_perm x l : insert_by_key x l ≡ₚ x :: l.
Proof.
  induction l as [|y l IH]; simpl; [done|]. destruct (key x <=? key y); [done|].
  rewrite IH. by rewrite Permutation_swap.
Qed.

Lemma sort_by_key_perm l : sort_by_key l ≡ₚ l.
Proof. induction l as [|x l IH]; simpl; [done|]. by rewrite insert_by_key_perm, IH. Qed.

Lemma insert_by_key_sorted x l :
  StronglySorted key_le l → StronglySorted key_le (insert_by_key x l).
Proof.
  induction 1 as [|y l Hs IH Hall]; simpl; [by repeat constructor|].
  destruct (Z.leb_spec (key x) (key y)) as [Hxy|Hxy].
  - constructor; [by constructor|]. constructor; [done|].
    eapply Forall_impl; [exact Hall|]. unfold key_le. intros z Hz. lia.
  - constructor; [done|]. rewrite insert_by_key_perm. constructor; [|done]. unfold key_le. lia.
Qed.

Lemma sort_by_key_sorted l : StronglySorted key_le (sort_by_key l).
Proof. induction l; simpl; [constructor|]. by apply insert_by_key_sorted. Qed.
End sort_by_key.

Lemma elem_of_sort_by_key {A} (key : A → Z) l x : x ∈ sort_by_key key l ↔ x ∈ l.
Proof. by rewrite sort_by_key_perm. Qed.

(** In a strongly sorted list what is taken precedes what is left. *)
Lemma sorted_take_drop {A} (R : A → A → Prop) n l x y :
  StronglySorted R l → x ∈ take n l → y ∈ drop n l → R x y.
Proof.
  intros Hs. revert n. induction Hs as [|z l Hs IH Hall]; intros [|n]; simpl; try set_solver.
  intros [->|Hx]%elem_of_cons Hy; [|by eapply IH].
  rewrite Forall_forall in Hall. apply Hall. apply (subseteq_drop n l). exact Hy.
Qed.

Create HintDb zecd.
Create Rewrite HintDb zecd.
#[export] Hint Resolve wrap_u64_small wrap_u32_small wrap_usize_small : zecd.
#[export] Hint Resolve div_ceil_nonneg div_ceil_mono : zecd.
#[export] Hint Unfold u16_max u32_max u64_max usize_max i32_max i64_max i64_min
  is_u32 is_u64 is_i64 is_usize sat_sub u32_sat_add u64_sat_add : zecd.

(** [width] unfolds the machine-integer vocabulary and calls [lia]. *)
Ltac width :=
  unfold is_u32, is_u64, is_i64, is_usize, sat_sub, u32_sat_add, u64_sat_add, usize_max,
    u16_max, u32_max, u64_max, i32_max, i64_max, i64_min in *; lia.

(** [bool_lia] turns boolean comparisons in the context into propositions. *)
Ltac bool_lia :=
  repeat match goal with
  | H : context [Z.leb _ _] |- _ => revert H
  | H : context [Z.ltb _ _] |- _ => revert H
  | H : context [Z.eqb _ _] |- _ => revert H
  end;
  intros; lia.

(** *** Boolean filters *)

Lemma elem_of_filter_bool {A} (f : A → bool) l x : x ∈ List.filter f l ↔ f x = true ∧ x ∈ l.
Proof. rewrite !list_elem_of_In, filter_In. tauto. Qed.
