(* ===== verification/Text.v ===== *)
(** * Text: Rust's [&str] operations on UTF-8 byte strings

    A Rust [&str] is modelled by its UTF-8 encoding, a [string] of bytes ([ascii] is a byte).
    The operations below are the standard library's, restricted to what the sources call. *)

From S2P Require Export Prelude.
From Stdlib Require Export Ascii.

Open Scope string_scope.
Open Scope list_scope.
Open Scope Z_scope.

#[global] Arguments String.append !_ _ / : simpl nomatch.

(** ** Bytes and characters *)

Definition byte_of (c : ascii) : Z := Z.of_nat (nat_of_ascii c).

(** A UTF-8 continuation byte [10xxxxxx]: not a character boundary. *)
Definition is_continuation (c : ascii) : bool := (128 <=? byte_of c) && (byte_of c <? 192).

Definition is_ascii_digit (c : ascii) : bool := (48 <=? byte_of c) && (byte_of c <=? 57).

(** [char::to_digit(10)] of an ASCII digit. *)
Definition digit_val (c : ascii) : Z := byte_of c - 48.

Definition digit_char (d : Z) : ascii := ascii_of_nat (Z.to_nat (d + 48)).

(** The byte offset 0 of [s] is a boundary: [s] is empty or starts a character. *)
Definition at_boundary (s : string) : bool :=
  match s with "" => true | String c _ => negb (is_continuation c) end.

(** [str::split_at_checked(1)]: the first byte and the rest, when byte 1 is a boundary. *)
Definition split_at_checked_1 (s : string) : option (ascii * string) :=
  match s with
  | "" => None
  | String c rest => if at_boundary rest then Some (c, rest) else None
  end.

(** [str::chars]: the characters, each as its UTF-8 bytes. *)
Fixpoint chars_aux (cur : string) (s : string) : list string :=
  match s with
  | "" => match cur with "" => [] | _ => [cur] end
  | String c rest =>
      if is_continuation c then chars_aux (cur +:+ String c "") rest
      else match cur with
           | "" => chars_aux (String c "") rest
           | _ => cur :: chars_aux (String c "") rest
           end
  end.
Definition chars (s : string) : list string := chars_aux "" s.

Fixpoint concat_str (l : list string) : string :=
  match l with [] => "" | x :: l => x +:+ concat_str l end.

(** [char::is_control]: the Unicode category Cc, U+0000..U+001F and U+007F..U+009F. *)
Definition is_control (ch : string) : bool :=
  match ch with
  | String c "" => (byte_of c <? 32) || (byte_of c =? 127)
  | String c (String d "") => (byte_of c =? 194) && (128 <=? byte_of d) && (byte_of d <=? 159)
  | _ => false
  end.

(** [char::is_whitespace]: the Unicode [White_Space] property. *)
Definition is_whitespace (ch : string) : bool :=
  match ch with
  | String c "" => ((9 <=? byte_of c) && (byte_of c <=? 13)) || (byte_of c =? 32)
  | String c (String d "") =>
      (byte_of c =? 194) && ((byte_of d =? 133) || (byte_of d =? 160))
  | String c (String d (String e "")) =>
      ((byte_of c =? 225) && (byte_of d =? 154) && (byte_of e =? 128)) ||
      ((byte_of c =? 226) && (byte_of d =? 128) &&
         (((128 <=? byte_of e) && (byte_of e <=? 138)) || (byte_of e =? 168)
          || (byte_of e =? 169) || (byte_of e =? 175))) ||
      ((byte_of c =? 226) && (byte_of d =? 129) && (byte_of e =? 159)) ||
      ((byte_of c =? 227) && (byte_of d =? 128) && (byte_of e =? 128))
  | _ => false
  end.

Fixpoint drop_while {A} (p : A → bool) (l : list A) : list A :=
  match l with [] => [] | x :: l' => if p x then drop_while p l' else l end.

(** [str::trim]. *)
Definition trim (s : string) : string :=
  concat_str (reverse (drop_while is_whitespace (reverse (drop_while is_whitespace (chars s))))).

(** The double quote. *)
Definition dquote : string := String (ascii_of_nat 34) "".
Definition quoted (s : string) : string := dquote +:+ s +:+ dquote.

(** ** Case *)

Definition lower_byte (c : ascii) : ascii :=
  if (65 <=? byte_of c) && (byte_of c <=? 90)
  then ascii_of_nat (nat_of_ascii c + 32) else c.

Fixpoint map_bytes (f : ascii → ascii) (s : string) : string :=
  match s with "" => "" | String c s' => String (f c) (map_bytes f s') end.

(** [str::to_ascii_lowercase]. *)
Definition to_ascii_lowercase (s : string) : string := map_bytes lower_byte s.

(** ** Searching *)

Fixpoint strip_prefix (p s : string) : option string :=
  match p, s with
  | "", _ => Some s
  | String a p', String b s' => if bool_decide (a = b) then strip_prefix p' s' else None
  | String _ _, "" => None
  end.

Definition starts_with (p s : string) : bool :=
  match strip_prefix p s with Some _ => true | None => false end.

(** [str::split_once(pat)]: at the first occurrence. *)
Fixpoint split_once (pat s : string) : option (string * string) :=
  match strip_prefix pat s with
  | Some rest => Some ("", rest)
  | None =>
      match s with
      | "" => None
      | String c s' =>
          match split_once pat s' with
          | Some (a, b) => Some (String c a, b)
          | None => None
          end
      end
  end.

(** [str::contains(pat)]. *)
Definition contains (pat s : string) : bool :=
  match split_once pat s with Some _ => true | None => false end.

(** [str::rsplit_once(c)] for an ASCII character: at the last occurrence. *)
Fixpoint rsplit_once (c : ascii) (s : string) : option (string * string) :=
  match s with
  | "" => None
  | String d s' =>
      match rsplit_once c s' with
      | Some (a, b) => Some (String d a, b)
      | None => if bool_decide (c = d) then Some ("", s') else None
      end
  end.

(** [str::strip_suffix(c)] for an ASCII character. *)
Definition strip_suffix_char (c : ascii) (s : string) : option string :=
  match rsplit_once c s with
  | Some (a, "") => Some a
  | _ => None
  end.

(** [str::find(&[char])] for ASCII characters: the first byte of the set. *)
Fixpoint find_byte (p : ascii → bool) (s : string) : option ascii :=
  match s with
  | "" => None
  | String c s' => if p c then Some c else find_byte p s'
  end.

Fixpoint join (sep : string) (l : list string) : string :=
  match l with
  | [] => ""
  | [x] => x
  | x :: l' => x +:+ sep +:+ join sep l'
  end.

(** ** Decimal and hexadecimal integers *)

Fixpoint all_bytes (p : ascii → bool) (s : string) : bool :=
  match s with "" => true | String c s' => p c && all_bytes p s' end.

(** The value of a string of decimal digits, continuing from [acc]. *)
Fixpoint dec_val (acc : Z) (s : string) : Z :=
  match s with "" => acc | String c s' => dec_val (acc * 10 + digit_val c) s' end.

Fixpoint dec_aux (fuel : nat) (n : Z) : string :=
  match fuel with
  | O => ""
  | S f => if n <? 10 then String (digit_char n) ""
           else dec_aux f (n / 10) +:+ String (digit_char (n mod 10)) ""
  end.

(** [format!("{}", n)] of an unsigned integer. *)
Definition dec (n : Z) : string := dec_aux (S (Z.to_nat (Z.log2 n))) n.

Definition zeros (n : nat) : string := Nat.iter n (String "0") "".

(** [format!("{:0w$}", n)]. *)
Definition dec_pad (w : nat) (n : Z) : string :=
  let s := dec n in zeros (w - String.length s) +:+ s.

(** [format!("{}", z)] of a signed integer. *)
Definition dec_signed (z : Z) : string := if z <? 0 then "-" +:+ dec (- z) else dec z.

Definition hex_digit (d : Z) : ascii :=
  ascii_of_nat (Z.to_nat (if d <? 10 then d + 48 else d + 87)).
Fixpoint hex_aux (fuel : nat) (n : Z) : string :=
  match fuel with
  | O => ""
  | S f => if n <? 16 then String (hex_digit n) ""
           else hex_aux f (n / 16) +:+ String (hex_digit (n mod 16)) ""
  end.
(** [format!("{:0w$x}", n)]. *)
Definition hex_pad (w : nat) (n : Z) : string :=
  let s := hex_aux (S (Z.to_nat (Z.log2 n))) n in zeros (w - String.length s) +:+ s.

(** [str::parse::<uN>()]: an optional [+], at least one digit, nothing else, no overflow. *)
Definition parse_unsigned (max : Z) (s : string) : option Z :=
  let digits := match s with String "+" rest => rest | _ => s end in
  match digits with
  | "" => None
  | _ => if all_bytes is_ascii_digit digits && (dec_val 0 digits <=? max)
         then Some (dec_val 0 digits) else None
  end.

(** ** Bytes as hexadecimal *)

(** The [hex] crate. *)
Class HexCodec := { hex_encode : string → string; hex_decode : string → option string }.

Definition string_rev (s : string) : string := String.string_of_list_ascii (rev (String.list_ascii_of_string s)).

(** The display form of a transaction id or a block hash: its bytes reversed. *)
Definition txid_display `{HexCodec} (bytes : string) : string := hex_encode (string_rev bytes).

(** ** Lemmas *)

Lemma append_nil_r (s : string) : s +:+ "" = s.
Proof. induction s as [|c s IH]; [done|]. simpl. by rewrite IH. Qed.

Lemma append_assoc (a b c : string) : (a +:+ b) +:+ c = a +:+ (b +:+ c).
Proof. induction a as [|x a IH]; [done|]. simpl. by rewrite IH. Qed.

Lemma append_inj_l (a b c : string) : a +:+ b = a +:+ c → b = c.
Proof. induction a as [|x a IH]; simpl; [done|]. intros [= H]. by apply IH. Qed.

Lemma length_append (a b : string) :
  String.length (a +:+ b) = (String.length a + String.length b)%nat.
Proof. induction a as [|x a IH]; [done|]. simpl. by rewrite IH. Qed.

Lemma all_bytes_append p a b : all_bytes p (a +:+ b) = all_bytes p a && all_bytes p b.
Proof. induction a as [|x a IH]; [done|]. simpl. by rewrite IH, andb_assoc. Qed.

Lemma dec_val_append acc a b : dec_val acc (a +:+ b) = dec_val (dec_val acc a) b.
Proof. revert acc. induction a as [|x a IH]; intros acc; [done|]. apply IH. Qed.

Lemma byte_of_range c : 0 ≤ byte_of c < 256.
Proof. unfold byte_of. pose proof (nat_ascii_bounded c). lia. Qed.

Lemma digit_char_byte d : 0 ≤ d < 10 → byte_of (digit_char d) = d + 48.
Proof. intros. unfold byte_of, digit_char. rewrite nat_ascii_embedding; lia. Qed.

Lemma digit_char_val d : 0 ≤ d < 10 → digit_val (digit_char d) = d.
Proof. intros. unfold digit_val. rewrite digit_char_byte; lia. Qed.

Lemma digit_char_is_digit d : 0 ≤ d < 10 → is_ascii_digit (digit_char d) = true.
Proof. intros. unfold is_ascii_digit. rewrite digit_char_byte by done. lia. Qed.

Lemma digit_val_range c : is_ascii_digit c = true → 0 ≤ digit_val c < 10.
Proof. unfold is_ascii_digit, digit_val. lia. Qed.

(** A string of decimal digits, as a proposition. *)
Definition digits (s : string) : Prop := all_bytes is_ascii_digit s = true.

Lemma digits_cons c s : digits (String c s) ↔ is_ascii_digit c = true ∧ digits s.
Proof. unfold digits. simpl. by rewrite andb_true_iff. Qed.

Lemma digits_append a b : digits (a +:+ b) ↔ digits a ∧ digits b.
Proof. unfold digits. by rewrite all_bytes_append, andb_true_iff. Qed.

Lemma digit_not_continuation c : is_ascii_digit c = true → is_continuation c = false.
Proof. unfold is_ascii_digit, is_continuation. lia. Qed.

Lemma dec_aux_digits f n : 0 ≤ n → digits (dec_aux f n).
Proof.
  revert n. induction f as [|f IH]; intros n Hn; [done|].
  simpl. destruct (Z.ltb_spec n 10).
  - apply digits_cons. split; [|done]. apply digit_char_is_digit. lia.
  - apply digits_append. split.
    + apply IH. by apply Z.div_pos.
    + apply digits_cons. split; [|done]. apply digit_char_is_digit. by apply Z.mod_pos_bound.
Qed.

Lemma dec_aux_val f n : 0 ≤ n < 10 ^ Z.of_nat f → dec_val 0 (dec_aux f n) = n.
Proof.
  revert n. induction f as [|f IH]; intros n Hn; [simpl in *; lia|].
  simpl. destruct (Z.ltb_spec n 10); simpl.
  - rewrite digit_char_val; lia.
  - rewrite dec_val_append. simpl. rewrite IH.
    + rewrite digit_char_val by (by apply Z.mod_pos_bound).
      pose proof (Z.div_mod n 10). lia.
    + rewrite Nat2Z.inj_succ, Z.pow_succ_r in Hn by lia.
      split; [apply Z.div_pos; lia|]. apply Z.div_lt_upper_bound; lia.
Qed.

Lemma log2_fuel n : 0 ≤ n → n < 10 ^ Z.of_nat (S (Z.to_nat (Z.log2 n))).
Proof.
  intros. destruct (decide (n = 0)) as [->|]; [done|].
  pose proof (Z.log2_spec n ltac:(lia)) as [_ Hlt].
  pose proof (Z.log2_nonneg n).
  rewrite Nat2Z.inj_succ, Z2Nat.id by done.
  eapply Z.lt_le_trans; [done|]. apply Z.pow_le_mono_l. lia.
Qed.

Lemma dec_digits n : 0 ≤ n → digits (dec n).
Proof. apply dec_aux_digits. Qed.

Lemma dec_value n : 0 ≤ n → dec_val 0 (dec n) = n.
Proof. intros. apply dec_aux_val. split; [done|]. by apply log2_fuel. Qed.

Lemma dec_aux_nonempty f n : f ≠ O → dec_aux f n ≠ "".
Proof.
  destruct f as [|f]; [done|]. intros _. simpl.
  destruct (n <? 10); [done|]. by destruct (dec_aux f (n / 10)).
Qed.

Lemma dec_nonempty n : dec n ≠ "".
Proof. by apply dec_aux_nonempty. Qed.

(** The first digit of a positive number is not [0]. *)
Lemma dec_aux_head f n c s :
  0 < n < 10 ^ Z.of_nat f → dec_aux f n = String c s → digit_val c ≠ 0.
Proof.
  revert n c s. induction f as [|f IH]; intros n c s Hn; [done|].
  simpl. destruct (Z.ltb_spec n 10).
  - intros [= <- <-]. rewrite digit_char_val; lia.
  - rewrite Nat2Z.inj_succ, Z.pow_succ_r in Hn by lia.
    assert (0 < n / 10 < 10 ^ Z.of_nat f) as Hd.
    { split; [apply Z.div_str_pos; lia|]. apply Z.div_lt_upper_bound; lia. }
    destruct (dec_aux f (n / 10)) as [|c' s'] eqn:E; simpl.
    + destruct f; [simpl in Hd; lia|]. by apply dec_aux_nonempty in E.
    + intros [= <- <-]. by eapply IH.
Qed.

Lemma dec_head n c s : 0 < n → dec n = String c s → digit_val c ≠ 0.
Proof.
  intros Hn. apply dec_aux_head. split; [done|]. apply log2_fuel. lia.
Qed.

Lemma dec_zero : dec 0 = "0".
Proof. reflexivity. Qed.

Lemma zeros_digits n : digits (zeros n).
Proof. induction n as [|n IH]; [done|]. apply digits_cons. split; [reflexivity|exact IH]. Qed.

Lemma dec_val_zeros n : dec_val 0 (zeros n) = 0.
Proof. induction n as [|n IH]; [done|]. exact IH. Qed.

Lemma length_zeros n : String.length (zeros n) = n.
Proof. induction n as [|n IH]; [done|]. simpl. by f_equal. Qed.

Lemma dec_pad_digits w n : 0 ≤ n → digits (dec_pad w n).
Proof. intros. apply digits_append. auto using zeros_digits, dec_digits. Qed.

Lemma dec_pad_value w n : 0 ≤ n → dec_val 0 (dec_pad w n) = n.
Proof.
  intros. unfold dec_pad. rewrite dec_val_append, dec_val_zeros. by apply dec_value.
Qed.

Lemma dec_val_lower acc s :
  digits s → 0 ≤ acc → acc * 10 ^ Z.of_nat (String.length s) ≤ dec_val acc s.
Proof.
  revert acc. induction s as [|c s IH]; intros acc Hs Hacc.
  - simpl. change (10 ^ Z.of_nat 0) with 1. lia.
  - apply digits_cons in Hs as [Hc Hs]. pose proof (digit_val_range _ Hc). cbn [dec_val String.length].
    rewrite Nat2Z.inj_succ, Z.pow_succ_r by lia.
    specialize (IH (acc * 10 + digit_val c) Hs ltac:(lia)). nia.
Qed.

Lemma dec_aux_length f n w :
  (1 ≤ w)%nat → 0 ≤ n < 10 ^ Z.of_nat w → (String.length (dec_aux f n) ≤ w)%nat.
Proof.
  revert n w. induction f as [|f IH]; intros n w Hw Hn; [simpl; lia|].
  simpl. destruct (Z.ltb_spec n 10); [simpl; lia|].
  rewrite length_append. cbn [String.length].
  destruct w as [|w]; [lia|]. destruct w as [|w].
  { change (10 ^ Z.of_nat 1) with 10 in Hn. lia. }
  rewrite Nat2Z.inj_succ, Z.pow_succ_r in Hn by lia.
  specialize (IH (n / 10) (S w) ltac:(lia)).
  assert (0 ≤ n / 10 < 10 ^ Z.of_nat (S w)) as Hd.
  { split; [apply Z.div_pos; lia|]. apply Z.div_lt_upper_bound; lia. }
  specialize (IH Hd). lia.
Qed.

Lemma dec_pad_length w n :
  (1 ≤ w)%nat → 0 ≤ n < 10 ^ Z.of_nat w → String.length (dec_pad w n) = w.
Proof.
  intros Hw Hn. unfold dec_pad. rewrite length_append, length_zeros.
  pose proof (dec_aux_length (S (Z.to_nat (Z.log2 n))) n w Hw Hn). unfold dec. lia.
Qed.

(** *** Splitting at a byte *)

Lemma rsplit_none c s : all_bytes (λ d, negb (bool_decide (c = d))) s = true → rsplit_once c s = None.
Proof.
  induction s as [|d s IH]; [done|]. cbn. intros [Hd Hs]%andb_true_iff. rewrite IH by done.
  apply negb_true_iff in Hd. by rewrite Hd.
Qed.
Lemma rsplit_append c a b :
  all_bytes (λ d, negb (bool_decide (c = d))) b = true → rsplit_once c (a +:+ String c b) = Some (a, b).
Proof.
  intros Hb. induction a as [|d a IH]; cbn.
  - rewrite rsplit_none by done. by rewrite bool_decide_eq_true_2.
  - by rewrite IH.
Qed.
Lemma rsplit_inv c s : ∀ a b, rsplit_once c s = Some (a, b) → s = a +:+ String c b.
Proof.
  induction s as [|d s IH]; intros a b; [done|]. cbn. destruct (rsplit_once c s) as [[a' b']|].
  - intros [= <- <-]. by rewrite (IH a' b').
  - case_bool_decide; [|done]. intros [= <- <-]. by subst.
Qed.

(** *** Bytes of a string, trimming, and numbers read back *)

Lemma contains_byte c s : contains (String c "") s = negb (all_bytes (λ d, negb (bool_decide (c = d))) s).
Proof.
  unfold contains. induction s as [|d s IH]; [done|]. cbn. case_bool_decide; [done|]. cbn. rewrite <- IH.
  by destruct (split_once _ s) as [[]|].
Qed.
Lemma find_byte_none p s : find_byte p s = None ↔ all_bytes (λ c, negb (p c)) s = true.
Proof. induction s as [|c s IH]; [done|]. cbn. by destruct (p c). Qed.
Lemma all_bytes_impl (p q : ascii → bool) s :
  (∀ c, p c = true → q c = true) → all_bytes p s = true → all_bytes q s = true.
Proof. intros H. induction s as [|c s IH]; [done|]. cbn. intros [? ?]%andb_true_iff. by rewrite H, IH. Qed.
Lemma strip_prefix_byte c s h : strip_prefix (String c "") s = Some h → s = String c h.
Proof. destruct s as [|d s]; [done|]. cbn. case_bool_decide; [|done]. intros [= ->]. by subst. Qed.
Lemma strip_suffix_append c s : strip_suffix_char c (s +:+ String c "") = Some s.
Proof. unfold strip_suffix_char. by rewrite rsplit_append. Qed.
Lemma strip_suffix_inv c s h : strip_suffix_char c s = Some h → s = h +:+ String c "".
Proof.
  unfold strip_suffix_char. destruct (rsplit_once c s) as [[a [|]]|] eqn:E; [|done..].
  intros [= ->]. by apply rsplit_inv in E.
Qed.

Lemma concat_chars_aux cur s : concat_str (chars_aux cur s) = cur +:+ s.
Proof.
  revert cur. induction s as [|c s IH]; intros cur; cbn.
  - destruct cur; cbn; by rewrite ?append_nil_r.
  - destruct (is_continuation c); [by rewrite IH, append_assoc|].
    destruct cur; cbn; by rewrite IH.
Qed.
Lemma chars_aux_last cur s c :
  is_continuation c = false → chars_aux cur (s +:+ String c "") = chars_aux cur s ++ [String c ""].
Proof.
  intros Hc. revert cur. induction s as [|d s IH]; intros cur; cbn.
  - rewrite Hc. by destruct cur.
  - destruct (is_continuation d); [apply IH|]. destruct cur; cbn; by rewrite IH.
Qed.
(** Nothing is trimmed between two characters that are not white space. *)
Lemma trim_id s x l y l' :
  chars s = x :: l → is_whitespace x = false → chars s = l' ++ [y] → is_whitespace y = false → trim s = s.
Proof.
  intros Hx Hwx Hy Hwy. unfold trim.
  assert (drop_while is_whitespace (chars s) = chars s) as -> by (rewrite Hx; cbn; by rewrite Hwx).
  assert (drop_while is_whitespace (reverse (chars s)) = reverse (chars s)) as ->
    by (rewrite Hy, reverse_app; cbn; by rewrite Hwy).
  rewrite reverse_involutive. apply concat_chars_aux.
Qed.

Lemma digits_last s : digits s → s ≠ "" → ∃ p d, s = p +:+ String d "" ∧ is_ascii_digit d = true.
Proof.
  induction s as [|c s IH]; [done|]. intros [Hc Hs]%digits_cons _. destruct s as [|c' s].
  - exists "", c. done.
  - destruct IH as (p & d & Heq & Hd); [done..|]. exists (String c p), d. rewrite Heq. done.
Qed.
Lemma digit_not_whitespace c : is_ascii_digit c = true → is_whitespace (String c "") = false.
Proof. unfold is_ascii_digit. cbn. intros. bool_lia. Qed.
Lemma parse_unsigned_dec max n : 0 ≤ n ≤ max → parse_unsigned max (dec n) = Some n.
Proof.
  intros [Hn Hmax]. pose proof (dec_digits n Hn) as Hd. pose proof (dec_value n Hn) as Hv.
  pose proof (dec_nonempty n). unfold parse_unsigned. destruct (dec n) as [|c s]; [done|].
  pose proof Hd as [Hc _]%digits_cons.
  assert (match c with "+"%char => s | _ => String c s end = String c s) as ->
    by (destruct c as [[][][][][][][][]]; done).
  unfold digits in Hd. by rewrite Hd, Hv, (proj2 (Z.leb_le _ _) Hmax).
Qed.
Lemma parse_unsigned_range max s n : parse_unsigned max s = Some n → 0 ≤ n ≤ max.
Proof.
  unfold parse_unsigned. set (d := match s with String "+" rest => rest | _ => s end). clearbody d.
  destruct d as [|c d]; [done|]. destruct (all_bytes is_ascii_digit (String c d) && _) eqn:E; [|done].
  apply andb_true_iff in E as [Hd Hmax]. intros [= <-]. split; [|by apply Z.leb_le].
  pose proof (dec_val_lower 0 _ Hd ltac:(lia)) as Hlow. by rewrite Z.mul_0_l in Hlow.
Qed.

#[export] Hint Resolve dec_digits dec_pad_digits zeros_digits dec_nonempty : zecd.
#[export] Hint Rewrite append_nil_r append_assoc length_append dec_val_append : zecd.
