(* ===== verification/Errors.v ===== *)
(** * Errors: the RPC error taxonomy ([src/src/error.rs])

    The numeric codes, the HTTP status they map to, and the error value every fallible
    operation of the model returns. *)

From S2P Require Export Text.

(** ** [pub mod codes] *)

Definition RPC_INVALID_REQUEST : Z := -32600.
Definition RPC_METHOD_NOT_FOUND : Z := -32601.
Definition RPC_INVALID_PARAMS : Z := -32602.
Definition RPC_PARSE_ERROR : Z := -32700.
Definition RPC_MISC_ERROR : Z := -1.
Definition RPC_TYPE_ERROR : Z := -3.
Definition RPC_INVALID_ADDRESS_OR_KEY : Z := -5.
Definition RPC_INVALID_PARAMETER : Z := -8.
Definition RPC_DATABASE_ERROR : Z := -20.
Definition RPC_DESERIALIZATION_ERROR : Z := -22.
Definition RPC_VERIFY_REJECTED : Z := -26.
Definition RPC_VERIFY_ALREADY_IN_UTXO_SET : Z := -27.
Definition RPC_METHOD_DEPRECATED : Z := -32.
Definition RPC_CLIENT_IN_INITIAL_DOWNLOAD : Z := -10.
Definition RPC_WALLET_ERROR : Z := -4.
Definition RPC_WALLET_INSUFFICIENT_FUNDS : Z := -6.
Definition RPC_WALLET_INVALID_LABEL_NAME : Z := -11.
Definition RPC_WALLET_UNLOCK_NEEDED : Z := -13.
Definition RPC_WALLET_PASSPHRASE_INCORRECT : Z := -14.
Definition RPC_WALLET_WRONG_ENC_STATE : Z := -15.
Definition RPC_WALLET_NOT_FOUND : Z := -18.

(** [http_status_for_code]. *)
Definition http_status_for_code (code : Z) : Z :=
  if code =? RPC_INVALID_REQUEST then 400
  else if code =? RPC_METHOD_NOT_FOUND then 404
  else 500.

(** ** The error value *)

Record InsufficientFunds := {
  if_available : option Z;
  if_required : option Z;
  if_pending_incoming : Z;
  if_pending_change : Z;
  if_mature_coinbase : Z;
}.

Inductive ErrorDetails :=
  | InsufficientFundsDetails (d : InsufficientFunds).

Record RpcError := mk_error {
  err_code : Z;
  err_message : string;
  err_details : option ErrorDetails;
}.

#[global] Instance InsufficientFunds_eq_dec : EqDecision InsufficientFunds.
Proof. solve_decision. Defined.
#[global] Instance ErrorDetails_eq_dec : EqDecision ErrorDetails.
Proof. solve_decision. Defined.
#[global] Instance RpcError_eq_dec : EqDecision RpcError.
Proof. solve_decision. Defined.

(** [impl RpcError]. *)
Module RpcError.
Definition new (code : Z) (message : string) : RpcError :=
  {| err_code := code; err_message := message; err_details := None |}.

Definition with_details (e : RpcError) (d : ErrorDetails) : RpcError :=
  {| err_code := err_code e; err_message := err_message e; err_details := Some d |}.

Definition insufficient_funds_details (e : RpcError) : option InsufficientFunds :=
  match err_details e with
  | Some (InsufficientFundsDetails d) => Some d
  | None => None
  end.

Definition misc (m : string) : RpcError := new RPC_MISC_ERROR m.
Definition missing_param (m : string) : RpcError := new RPC_MISC_ERROR m.
Definition invalid_parameter (m : string) : RpcError := new RPC_INVALID_PARAMETER m.
Definition type_error (m : string) : RpcError := new RPC_TYPE_ERROR m.
Definition invalid_address_or_key (m : string) : RpcError := new RPC_INVALID_ADDRESS_OR_KEY m.
Definition method_not_found (method : string) : RpcError :=
  new RPC_METHOD_NOT_FOUND ("Method not found: " +:+ method).
Definition wallet (m : string) : RpcError := new RPC_WALLET_ERROR m.
Definition insufficient_funds (m : string) : RpcError := new RPC_WALLET_INSUFFICIENT_FUNDS m.
Definition database (m : string) : RpcError := new RPC_DATABASE_ERROR m.
(** The internal detail is logged, never returned. *)
Definition database_internal (detail : string) : RpcError := database "Database error".
Definition wallet_not_found (m : string) : RpcError := new RPC_WALLET_NOT_FOUND m.
Definition unlock_needed : RpcError :=
  new RPC_WALLET_UNLOCK_NEEDED
    "Error: Please enter the wallet passphrase with walletpassphrase first.".
(** [impl From<anyhow::Error>]: the detail is logged, never returned. *)
Definition from_anyhow (detail : string) : RpcError := misc "Internal error".

(** [impl fmt::Display]. *)
Definition display (e : RpcError) : string :=
  err_message e +:+ " (code " +:+ dec_signed (err_code e) +:+ ")".
End RpcError.

Abbreviation rpc := (result RpcError).
