(* ===== verification/Json.v ===== *)
(** * Json: the JSON values the RPC surface exchanges

    [serde_json::Value] with the [arbitrary_precision] feature the sources enable: a number is
    its decimal literal. Objects are association lists in insertion order. *)

From S2P Require Export Errors.

#[local] Unset Elimination Schemes.
Inductive json : Type :=
  | JNull
  | JBool (b : bool)
  | JNumber (literal : string)
  | JString (s : string)
  | JArray (l : list json)
  | JObject (fields : list (string * json)).
#[local] Set Elimination Schemes.

Definition json_is_null (v : json) : bool := match v with JNull => true | _ => false end.
(** [Value::as_str]. *)
Definition json_as_str (v : json) : option string :=
  match v with JString s => Some s | _ => None end.
(** [Value::as_bool]. *)
Definition json_as_bool (v : json) : option bool :=
  match v with JBool b => Some b | _ => None end.
(** [Value::as_array]. *)
Definition json_as_array (v : json) : option (list json) :=
  match v with JArray l => Some l | _ => None end.

Fixpoint assoc (key : string) (fields : list (string * json)) : option json :=
  match fields with
  | [] => None
  | (k, v) :: rest => if bool_decide (k = key) then Some v else assoc key rest
  end.

(** [Value::get] on an object field. *)
Definition json_get (key : string) (v : json) : option json :=
  match v with JObject fields => assoc key fields | _ => None end.

(** ** Integers ([Value::as_i64], [Value::as_u64]) *)

(** [str::parse::<i64>()]. *)
Definition parse_signed (min max : Z) (s : string) : option Z :=
  match s with
  | String "-" rest =>
      match rest with
      | "" => None
      | _ => if all_bytes is_ascii_digit rest && (min <=? - dec_val 0 rest)
             then Some (- dec_val 0 rest) else None
      end
  | _ => parse_unsigned max s
  end.
Definition json_as_i64 (v : json) : option Z :=
  match v with JNumber lit => parse_signed i64_min i64_max lit | _ => None end.
Definition json_as_u64 (v : json) : option Z :=
  match v with JNumber lit => parse_unsigned u64_max lit | _ => None end.

(** ** The JSON number grammar (RFC 8259) *)

(** [take_digits s]: the leading digits of [s] and what follows. *)
Fixpoint take_digits (s : string) : string * string :=
  match s with
  | "" => ("", "")
  | String c rest =>
      if is_ascii_digit c then let '(ds, r) := take_digits rest in (String c ds, r)
      else ("", s)
  end.

(** The unsigned integer part: [0], or a non-zero digit followed by digits. *)
Definition json_int_part (s : string) : option string :=
  match s with
  | String c rest =>
      if bool_decide (c = "0"%char) then Some rest
      else if is_ascii_digit c then Some (take_digits rest).2 else None
  | "" => None
  end.

(** At least one digit. *)
Definition json_digits1 (s : string) : option string :=
  match take_digits s with ("", _) => None | (_, rest) => Some rest end.

Definition json_frac (s : string) : option string :=
  match s with String "." rest => json_digits1 rest | _ => Some s end.

Definition json_exp (s : string) : option string :=
  match s with
  | String "e" rest | String "E" rest =>
      match rest with
      | String "+" r | String "-" r => json_digits1 r
      | _ => json_digits1 rest
      end
  | _ => Some s
  end.

Definition json_minus (s : string) : string :=
  match s with String "-" rest => rest | _ => s end.

(** A string is a JSON number when the grammar consumes all of it. *)
Definition is_json_number (s : string) : bool :=
  match json_int_part (json_minus s) with
  | Some r1 =>
      match json_frac r1 with
      | Some r2 => match json_exp r2 with Some "" => true | _ => false end
      | None => false
      end
  | None => false
  end.

(** What the sources rely on of [serde_json::from_str] under [arbitrary_precision]: a JSON
    number parses to a [Value::Number] whose [Display] is that literal. *)
Class JsonNumberParser (from_str : string → option json) : Prop :=
  from_str_number : ∀ s, is_json_number s = true → from_str s = Some (JNumber s).

(** A concrete parser of numeric documents, for instantiating the interface. *)
Definition number_from_str (s : string) : option json :=
  if is_json_number s then Some (JNumber s) else None.

#[export] Instance number_from_str_parser : JsonNumberParser number_from_str.
Proof. intros s H. unfold number_from_str. by rewrite H. Qed.
