(* ===== verification/Amount.v ===== *)
(** * Amount: decimal amounts on the wire ([src/src/amount.rs])

    Base units are integers; the wire form is a decimal literal with eight places. The parser
    is the port of Bitcoin Core's [ParseFixedPoint], with its deferred runs of zeros and its
    overflow checks, on the 64-bit mantissa and exponent it uses. *)

From S2P Require Export Json.

(** ** Constants *)

Definition COIN : Z := 100000000.
Definition MAX_MONEY : Z := 21000000 * COIN.
Definition UPPER_BOUND : Z := 1000000000000000000 - 1.

(** ** Formatting *)

Definition zats_literal (zats : Z) : string :=
  dec (zats / COIN) +:+ "." +:+ dec_pad 8 (zats mod COIN).

Definition signed_zats_literal (zats : Z) : string :=
  let neg := zats <? 0 in
  let abs := Z.abs zats in
  (if neg then "-" else "") +:+ dec (abs / COIN) +:+ "." +:+ dec_pad 8 (abs mod COIN).

(** ** Parsing *)

(** The inner [for _ in 0..=*mantissa_tzeros] of [process_mantissa_digit]: [n] more
    iterations; [false] reports the overflow return, with the mantissa as it is then. *)
Fixpoint mantissa_shift (n : nat) (mantissa : Z) : bool * Z :=
  match n with
  | O => (true, mantissa)
  | S n' =>
      if UPPER_BOUND / 10 <? mantissa then (false, mantissa)
      else mantissa_shift n' (mantissa * 10)
  end.

(** [process_mantissa_digit]: the verdict, and [mantissa] and [mantissa_tzeros] after it. *)
Definition process_mantissa_digit (ch : ascii) (mantissa mantissa_tzeros : Z) :
    bool * (Z * Z) :=
  if bool_decide (ch = "0"%char) then (true, (mantissa, mantissa_tzeros + 1))
  else match mantissa_shift (Z.to_nat (mantissa_tzeros + 1)) mantissa with
       | (false, m) => (false, (m, mantissa_tzeros))
       | (true, m) => (true, (m + digit_val ch, 0))
       end.

(** The two mantissa loops of [parse_fixed_point]: [inc] is what a digit adds to [point_ofs]
    (0 before the point, 1 after it). [None] is the overflow return; otherwise the rest of the
    input, the mantissa, its deferred zeros and the point offset. *)
Fixpoint mantissa_loop (inc : Z) (val : string) (mantissa tzeros point_ofs : Z) :
    option (string * (Z * Z * Z)) :=
  match val with
  | "" => Some ("", (mantissa, tzeros, point_ofs))
  | String ch rest =>
      if is_ascii_digit ch then
        match process_mantissa_digit ch mantissa tzeros with
        | (false, _) => None
        | (true, (m, t)) => mantissa_loop inc rest m t (point_ofs + inc)
        end
      else Some (val, (mantissa, tzeros, point_ofs))
  end.

(** The exponent loop of [parse_fixed_point]. *)
Fixpoint exponent_loop (val : string) (exponent : Z) : option (string * Z) :=
  match val with
  | "" => Some ("", exponent)
  | String ch rest =>
      if is_ascii_digit ch then
        if UPPER_BOUND / 10 <? exponent then None
        else exponent_loop rest (exponent * 10 + digit_val ch)
      else Some (val, exponent)
  end.

(** The closing [for _ in 0..exponent]. *)
Fixpoint scale_loop (n : nat) (mantissa : Z) : option Z :=
  match n with
  | O => Some mantissa
  | S n' =>
      if (- (UPPER_BOUND / 10) <=? mantissa) && (mantissa <=? UPPER_BOUND / 10)
      then scale_loop n' (mantissa * 10) else None
  end.

(** The digits before the point: a single [0], or a run starting with [1]..[9]. *)
Definition parse_int_part (val : string) : option (string * (Z * Z * Z)) :=
  match split_at_checked_1 val with
  | Some (c, rest) =>
      if bool_decide (c = "0"%char) then Some (rest, (0, 0, 0))
      else if is_ascii_digit c then mantissa_loop 0 val 0 0 0
      else None
  | None => None
  end.

(** The optional [.] and its digits. *)
Definition parse_frac_part (val : string) (st : Z * Z * Z) : option (string * (Z * Z * Z)) :=
  let '(mantissa, tzeros, point_ofs) := st in
  match split_at_checked_1 val with
  | Some (".", rest) =>
      match split_at_checked_1 rest with
      | Some (c, _) =>
          if is_ascii_digit c then mantissa_loop 1 rest mantissa tzeros point_ofs else None
      | None => None
      end
  | _ => Some (val, st)
  end%char.

(** The sign of the exponent, and what follows it. *)
Definition parse_exp_sign (val : string) : bool * string :=
  match split_at_checked_1 val with
  | Some ("+", rest) => (false, rest)
  | Some ("-", rest) => (true, rest)
  | _ => (false, val)
  end%char.

(** The optional exponent: the rest, its sign and its magnitude. *)
Definition parse_exp_part (val : string) : option (string * (bool * Z)) :=
  match split_at_checked_1 val with
  | Some (("e" | "E"), rest) =>
      let '(exponent_sign, rest) := parse_exp_sign rest in
      match split_at_checked_1 rest with
      | Some (c, _) =>
          if is_ascii_digit c then
            match exponent_loop rest 0 with
            | Some (rest', e) => Some (rest', (exponent_sign, e))
            | None => None
            end
          else None
      | None => None
      end
  | _ => Some (val, (false, 0))
  end%char.

(** The exponent and mantissa range checks, and the conversion to fixed point. *)
Definition finalize (mantissa_sign exponent_sign : bool)
    (mantissa tzeros point_ofs exponent decimals : Z) : option Z :=
  let exponent := if exponent_sign then - exponent else exponent in
  let exponent := exponent - point_ofs + tzeros in
  let mantissa := if mantissa_sign then - mantissa else mantissa in
  let exponent := exponent + decimals in
  if exponent <? 0 then None
  else if 18 <=? exponent then None
  else match scale_loop (Z.to_nat exponent) mantissa with
       | Some m => if (- UPPER_BOUND <=? m) && (m <=? UPPER_BOUND) then Some m else None
       | None => None
       end.

Definition parse_mantissa_sign (val : string) : bool * string :=
  match split_at_checked_1 val with
  | Some ("-", rest) => (true, rest)
  | _ => (false, val)
  end%char.

(** [parse_fixed_point]. *)
Definition parse_fixed_point (val : string) (decimals : Z) : option Z :=
  let '(mantissa_sign, val) := parse_mantissa_sign val in
  match parse_int_part val with
  | None => None
  | Some (val, st) =>
      match parse_frac_part val st with
      | None => None
      | Some (val, (mantissa, tzeros, point_ofs)) =>
          match parse_exp_part val with
          | None => None
          | Some (val, (exponent_sign, exponent)) =>
              match val with
              | "" => finalize mantissa_sign exponent_sign mantissa tzeros point_ofs
                        exponent decimals
              | _ => None
              end
          end
      end
  end.

(** [value_to_zats]. *)
Definition value_to_zats (v : json) : rpc Z :=
  literal ← match v with
            | JNumber n => Ok n
            | JString s => Ok s
            | _ => Err (RpcError.type_error "Amount is not a number or string")
            end;
  zats ← ok_or (parse_fixed_point literal 8) (RpcError.type_error "Invalid amount");
  if zats <? 0 then Err (RpcError.type_error "Amount out of range")
  else if MAX_MONEY <? zats then Err (RpcError.type_error "Amount out of range")
  else Ok zats.

(** The deserializer of [SignedAmount]; the serde error carries the message alone. *)
Definition signed_value_to_zats (v : json) : result string Z :=
  match v with
  | JNumber literal | JString literal => ok_or (parse_fixed_point literal 8) "Invalid amount"
  | _ => Err "Amount is not a number or string"
  end.

(** The deserializer of [Amount]. *)
Definition amount_deserialize (v : json) : result string Z :=
  map_err err_message (value_to_zats v).

(** [zats_to_value] and [signed_zats_to_value]: [None] is the [expect] panic. *)
Definition zats_to_value (from_str : string → option json) (zats : Z) : option json :=
  from_str (zats_literal zats).
Definition signed_zats_to_value (from_str : string → option json) (zats : Z) : option json :=
  from_str (signed_zats_literal zats).

(** The source's test vectors. *)
Example fmt_1 : zats_literal 150000000 = "1.50000000". Proof. reflexivity. Qed.
Example fmt_2 : signed_zats_literal (-10000000) = "-0.10000000". Proof. reflexivity. Qed.
Example fmt_3 : zats_literal 2099999999999990 = "20999999.99999990". Proof. reflexivity. Qed.
Example parse_1 : parse_fixed_point "1.1e-1" 8 = Some 11000000. Proof. reflexivity. Qed.
Example parse_2 : parse_fixed_point "-0.1" 8 = Some (-10000000). Proof. reflexivity. Qed.
Example parse_3 : parse_fixed_point "1e-9" 8 = None. Proof. reflexivity. Qed.
Example parse_4 : parse_fixed_point "0.00000001000000" 8 = Some 1. Proof. reflexivity. Qed.
Example parse_5 : parse_fixed_point "92233720368.54775808" 8 = None. Proof. reflexivity. Qed.
