(* ===== verification/AmountSpec.v ===== *)
(** * AmountSpec: what the amount parser and printer compute

    The reference for [Amount]: decimal numerals as an abstract grammar with the number they
    denote, the decomposition the parser makes of its input, and the theorems that relate the
    two - exactness of the parser, round trips through the JSON layer, the outcome of every
    parameter. *)

From S2P Require Export Amount.

(** ** Reference: numerals and the number they denote *)

(** The grammar: an optional minus, [0] or digits not starting with [0], an optional point
    followed by digits, an optional [e] or [E] with an optional sign and digits. *)
Record numeral := {
  n_neg : bool;
  n_int : string;
  n_frac : option string;
  n_exp : option (ascii * string * string);
}.

Definition render_frac (f : option string) : string :=
  match f with Some ds => "." +:+ ds | None => "" end.
Definition render_exp (e : option (ascii * string * string)) : string :=
  match e with Some (c, sgn, ds) => String c (sgn +:+ ds) | None => "" end.
Definition render (n : numeral) : string :=
  (if n_neg n then "-" else "") +:+ n_int n +:+ render_frac (n_frac n) +:+ render_exp (n_exp n).

Definition wf_int (i : string) : Prop :=
  match i with
  | "" => False
  | String c rest => (c = "0"%char ∧ rest = "") ∨ (c ≠ "0"%char ∧ digits i)
  end.
Definition wf_frac (f : option string) : Prop :=
  match f with Some ds => digits ds ∧ ds ≠ "" | None => True end.
Definition wf_exp (e : option (ascii * string * string)) : Prop :=
  match e with
  | Some (c, sgn, ds) =>
      (c = "e"%char ∨ c = "E"%char) ∧ (sgn = "" ∨ sgn = "+" ∨ sgn = "-") ∧ digits ds ∧ ds ≠ ""
  | None => True
  end.
Definition wf_numeral (n : numeral) : Prop :=
  wf_int (n_int n) ∧ wf_frac (n_frac n) ∧ wf_exp (n_exp n).

(** The digits of the mantissa, read as one integer. *)
Definition num_mantissa (n : numeral) : Z := dec_val 0 (n_int n +:+ default "" (n_frac n)).
Definition num_exp_magnitude (n : numeral) : Z :=
  match n_exp n with Some (_, _, ds) => dec_val 0 ds | None => 0 end.
Definition num_exp (n : numeral) : Z :=
  match n_exp n with
  | Some (_, sgn, _) => if bool_decide (sgn = "-") then - num_exp_magnitude n else num_exp_magnitude n
  | None => 0
  end.
Definition num_frac_digits (n : numeral) : Z :=
  Z.of_nat (String.length (default "" (n_frac n))).

(** [n], in units of [10^-decimals], is exactly the integer [z]. *)
Definition denotes (n : numeral) (decimals z : Z) : Prop :=
  let k := num_exp n - num_frac_digits n + decimals in
  z * 10 ^ (Z.max 0 (- k)) =
    (if n_neg n then - num_mantissa n else num_mantissa n) * 10 ^ (Z.max 0 k).

(** The decomposition the parser makes of its input, as a numeral. *)
Definition scan_int (val : string) : option (string * string) :=
  match split_at_checked_1 val with
  | Some (c, rest) =>
      if bool_decide (c = "0"%char) then Some ("0", rest)
      else if is_ascii_digit c then Some (take_digits val) else None
  | None => None
  end.
Definition scan_digits1 (val : string) : option (string * string) :=
  match split_at_checked_1 val with
  | Some (c, _) => if is_ascii_digit c then Some (take_digits val) else None
  | None => None
  end.
Definition scan_frac (val : string) : option (option string * string) :=
  match split_at_checked_1 val with
  | Some (".", rest) =>
      match scan_digits1 rest with Some (ds, r) => Some (Some ds, r) | None => None end
  | _ => Some (None, val)
  end%char.
Definition scan_sign (val : string) : string * string :=
  match split_at_checked_1 val with
  | Some ("+", rest) => ("+"%string, rest)
  | Some ("-", rest) => ("-"%string, rest)
  | _ => (""%string, val)
  end%char.
Definition scan_exp (val : string) : option (option (ascii * string * string) * string) :=
  match split_at_checked_1 val with
  | Some (("e" | "E") as c, rest) =>
      let '(sgn, rest) := scan_sign rest in
      match scan_digits1 rest with Some (ds, r) => Some (Some (c, sgn, ds), r) | None => None end
  | _ => Some (None, val)
  end%char.
Definition scan (val : string) : option numeral :=
  let '(neg, val) := parse_mantissa_sign val in
  match scan_int val with
  | None => None
  | Some (i, val) =>
      match scan_frac val with
      | None => None
      | Some (f, val) =>
          match scan_exp val with
          | Some (e, "") => Some {| n_neg := neg; n_int := i; n_frac := f; n_exp := e |}
          | _ => None
          end
      end
  end.

(** The digit folds without the overflow checks. *)
Fixpoint digits_fold (ds : string) (m t : Z) : option (Z * Z) :=
  match ds with
  | "" => Some (m, t)
  | String c r =>
      match process_mantissa_digit c m t with
      | (false, _) => None
      | (true, (m', t')) => digits_fold r m' t'
      end
  end.
Fixpoint ideal_fold (ds : string) (m t : Z) : Z * Z :=
  match ds with
  | "" => (m, t)
  | String c r =>
      if bool_decide (c = "0"%char) then ideal_fold r m (t + 1)
      else ideal_fold r (m * 10 ^ (t + 1) + digit_val c) 0
  end.

(** The arithmetic the parser does on a scanned numeral. *)
Definition evaluate (n : numeral) (decimals : Z) : option Z :=
  match (if bool_decide (n_int n = "0") then Some (0, 0) else digits_fold (n_int n) 0 0) with
  | None => None
  | Some (m, t) =>
      match digits_fold (default "" (n_frac n)) m t with
      | None => None
      | Some (m, t) =>
          match (match n_exp n with
                 | Some (_, sgn, ds) =>
                     match exponent_loop ds 0 with
                     | Some (_, e) => Some (bool_decide (sgn = "-"), e) | None => None end
                 | None => Some (false, 0) end) with
          | None => None
          | Some (es, e) => finalize (n_neg n) es m t (num_frac_digits n) e decimals
          end
      end
  end.

(** ** The digit folds *)

Lemma take_digits_spec s ds r :
  take_digits s = (ds, r) →
  s = ds +:+ r ∧ digits ds ∧ (∀ c r', r = String c r' → is_ascii_digit c = false).
Proof.
  revert ds r. induction s as [|c s IH]; intros ds r; simpl.
  - intros [= <- <-]. done.
  - destruct (is_ascii_digit c) eqn:Hc.
    + destruct (take_digits s) as [ds' r'] eqn:E. intros [= <- <-].
      destruct (IH _ _ eq_refl) as (-> & ? & ?). split_and!; [done| |done].
      by apply digits_cons.
    + intros [= <- <-]. split_and!; [done|done|]. by intros ?? [= <- <-].
Qed.

Lemma take_digits_app ds r :
  digits ds → (∀ c r', r = String c r' → is_ascii_digit c = false) →
  take_digits (ds +:+ r) = (ds, r).
Proof.
  intros Hds Hr. induction ds as [|c ds IH]; simpl.
  - destruct r as [|c r]; [done|]. simpl. by rewrite (Hr c r eq_refl).
  - apply digits_cons in Hds as [Hc Hds]. rewrite Hc. by rewrite IH.
Qed.

Lemma mantissa_loop_fold inc s m t p :
  mantissa_loop inc s m t p =
  let '(ds, r) := take_digits s in
  match digits_fold ds m t with
  | Some (m', t') => Some (r, (m', t', p + inc * Z.of_nat (String.length ds)))
  | None => None
  end.
Proof.
  revert m t p. induction s as [|c s IH]; intros m t p; simpl.
  - do 3 f_equal. lia.
  - destruct (is_ascii_digit c); [|simpl; do 3 f_equal; lia].
    destruct (take_digits s) as [ds r]. simpl.
    destruct (process_mantissa_digit c m t) as [[] [m' t']]; [|done].
    rewrite IH. destruct (digits_fold ds m' t') as [[m'' t'']|]; [|done].
    do 3 f_equal. lia.
Qed.

Lemma exponent_loop_fold s e :
  exponent_loop s e =
  let '(ds, r) := take_digits s in
  match exponent_loop ds e with Some (_, e') => Some (r, e') | None => None end.
Proof.
  revert e. induction s as [|c s IH]; intros e; simpl; [done|].
  destruct (is_ascii_digit c) eqn:Hc; [|done].
  destruct (take_digits s) as [ds r]. simpl. rewrite Hc.
  destruct (UPPER_BOUND / 10 <? e); [done|]. by rewrite IH.
Qed.

Lemma mantissa_shift_true n m m' :
  mantissa_shift n m = (true, m') → m' = m * 10 ^ Z.of_nat n.
Proof.
  revert m. induction n as [|n IH]; intros m; simpl.
  - intros [= <-]. change (10 ^ Z.of_nat 0) with 1. lia.
  - destruct (Z.ltb_spec (UPPER_BOUND / 10) m); [done|]. intros ->%IH.
    change (Z.pos (Pos.of_succ_nat n)) with (Z.of_nat (S n)).
    rewrite Nat2Z.inj_succ, Z.pow_succ_r by lia. lia.
Qed.

Lemma mantissa_shift_bound n m m' :
  mantissa_shift (S n) m = (true, m') → m' ≤ UPPER_BOUND - 9.
Proof.
  revert m. induction n as [|n IH]; intros m; cbn [mantissa_shift].
  - destruct (Z.ltb_spec (UPPER_BOUND / 10) m); [done|]. intros [= <-].
    unfold UPPER_BOUND in *. change ((1000000000000000000 - 1) / 10) with 99999999999999999 in *. lia.
  - destruct (Z.ltb_spec (UPPER_BOUND / 10) m); [done|]. apply IH.
Qed.

Lemma mantissa_shift_ok n m :
  0 ≤ m → m * 10 ^ Z.of_nat n ≤ UPPER_BOUND → mantissa_shift n m = (true, m * 10 ^ Z.of_nat n).
Proof.
  revert m. induction n as [|n IH]; intros m Hm Hb.
  - simpl. f_equal. change (10 ^ Z.of_nat 0) with 1. lia.
  - rewrite Nat2Z.inj_succ, Z.pow_succ_r in * by lia.
    assert (1 ≤ 10 ^ Z.of_nat n) by (pose proof (Z.pow_pos_nonneg 10 (Z.of_nat n)); lia).
    assert (m * 10 ≤ UPPER_BOUND) by nia.
    cbn [mantissa_shift]. destruct (Z.ltb_spec (UPPER_BOUND / 10) m) as [Hlt|_].
    + pose proof (Z.div_le_lower_bound UPPER_BOUND 10 m ltac:(lia) ltac:(lia)). lia.
    + rewrite IH; [f_equal; lia|lia|lia].
Qed.

Lemma ideal_mono ds m t :
  digits ds → 0 ≤ m → 0 ≤ t → m ≤ (ideal_fold ds m t).1 ∧ 0 ≤ (ideal_fold ds m t).2.
Proof.
  revert m t. induction ds as [|c ds IH]; intros m t Hds Hm Ht; simpl; [done|].
  apply digits_cons in Hds as [Hc Hds]. pose proof (digit_val_range _ Hc).
  case_bool_decide.
  - apply IH; lia || done.
  - assert (1 ≤ 10 ^ (t + 1)) by (pose proof (Z.pow_pos_nonneg 10 (t + 1)); lia).
    destruct (IH (m * 10 ^ (t + 1) + digit_val c) 0 Hds ltac:(nia) ltac:(lia)). split; [nia|done].
Qed.

Lemma digits_fold_bounds ds m t m' t' :
  digits ds → 0 ≤ m ≤ UPPER_BOUND → 0 ≤ t →
  digits_fold ds m t = Some (m', t') → ideal_fold ds m t = (m', t') ∧ 0 ≤ m' ≤ UPPER_BOUND ∧ 0 ≤ t'.
Proof.
  revert m t. induction ds as [|c ds IH]; intros m t Hds Hm Ht; simpl.
  - intros [= -> ->]. done.
  - apply digits_cons in Hds as [Hc Hds]. pose proof (digit_val_range _ Hc).
    unfold process_mantissa_digit. case_bool_decide.
    + apply IH; lia || done.
    + destruct (mantissa_shift (Z.to_nat (t + 1)) m) as [[] m1] eqn:E; [|done].
      pose proof (mantissa_shift_true _ _ _ E) as Hm1. rewrite Z2Nat.id in Hm1 by lia.
      replace (Z.to_nat (t + 1)) with (S (Z.to_nat t)) in E by lia.
      apply mantissa_shift_bound in E.
      assert (0 ≤ 10 ^ (t + 1)) by (apply Z.pow_nonneg; lia).
      rewrite <- Hm1. apply IH; nia || done.
Qed.

Lemma digits_fold_complete ds m t :
  digits ds → 0 ≤ m → 0 ≤ t → (ideal_fold ds m t).1 ≤ UPPER_BOUND →
  digits_fold ds m t = Some (ideal_fold ds m t).
Proof.
  revert m t. induction ds as [|c ds IH]; intros m t Hds Hm Ht; simpl; [done|].
  apply digits_cons in Hds as [Hc Hds]. pose proof (digit_val_range _ Hc).
  unfold process_mantissa_digit. case_bool_decide.
  - apply IH; lia || done.
  - intros Hb. assert (0 ≤ 10 ^ (t + 1)) by (apply Z.pow_nonneg; lia).
    pose proof (ideal_mono ds (m * 10 ^ (t + 1) + digit_val c) 0 Hds ltac:(nia) ltac:(lia)).
    rewrite mantissa_shift_ok by (rewrite ?Z2Nat.id by lia; lia).
    rewrite Z2Nat.id by lia. apply IH; nia || done.
Qed.

(** The fold computes the number the digits denote. *)
Lemma ideal_value ds m t m' t' :
  digits ds → 0 ≤ t → ideal_fold ds m t = (m', t') →
  m' * 10 ^ t' = dec_val (m * 10 ^ t) ds.
Proof.
  revert m t. induction ds as [|c ds IH]; intros m t Hds Ht; simpl.
  - by intros [= -> ->].
  - apply digits_cons in Hds as [Hc Hds]. case_bool_decide as Hz.
    + intros ->%IH; [|done|lia]. subst c. change (digit_val "0") with 0.
      rewrite Z.pow_add_r by lia. f_equal. lia.
    + intros ->%IH; [|done|lia]. rewrite Z.pow_add_r by lia. f_equal. lia.
Qed.

(** No zero is left at the end of the mantissa. *)
Definition normal (m : Z) : Prop := m = 0 ∨ m mod 10 ≠ 0.

Lemma digit_nonzero c : is_ascii_digit c = true → c ≠ "0"%char → digit_val c ≠ 0.
Proof.
  intros Hc Hne Hz. apply Hne. unfold digit_val, byte_of in Hz.
  rewrite <- (ascii_nat_embedding c). replace (nat_of_ascii c) with 48%nat by lia. reflexivity.
Qed.

Lemma ideal_normal ds m t :
  digits ds → 0 ≤ t → normal m → normal (ideal_fold ds m t).1.
Proof.
  revert m t. induction ds as [|c ds IH]; intros m t Hds Ht Hm; simpl; [done|].
  apply digits_cons in Hds as [Hc Hds]. case_bool_decide as Hz.
  - apply IH; lia || done.
  - apply IH; [done|lia|]. right. pose proof (digit_val_range _ Hc). pose proof (digit_nonzero _ Hc Hz).
    rewrite Z.pow_add_r by lia. change (10 ^ 1) with 10.
    rewrite Z.mul_assoc, Z.add_comm, Z.mod_add by lia. rewrite Z.mod_small; lia.
Qed.

Lemma ideal_zero ds m t :
  digits ds → 0 ≤ m → 0 ≤ t → (ideal_fold ds m t).1 = 0 →
  m = 0 ∧ (ideal_fold ds m t).2 = t + Z.of_nat (String.length ds).
Proof.
  revert m t. induction ds as [|c ds IH]; intros m t Hds Hm Ht; simpl; [lia|].
  apply digits_cons in Hds as [Hc Hds]. case_bool_decide as Hz.
  - intros H0. destruct (IH m (t + 1) Hds Hm ltac:(lia) H0). split; [done|lia].
  - intros H0. pose proof (digit_val_range _ Hc). pose proof (digit_nonzero _ Hc Hz).
    assert (0 ≤ 10 ^ (t + 1)) by (apply Z.pow_nonneg; lia).
    destruct (IH (m * 10 ^ (t + 1) + digit_val c) 0 Hds ltac:(nia) ltac:(lia) H0). nia.
Qed.

(** ** The closing conversion *)

Lemma scale_loop_some n m m' : scale_loop n m = Some m' → m' = m * 10 ^ Z.of_nat n.
Proof.
  revert m. induction n as [|n IH]; intros m; simpl.
  - intros [= ->]. change (10 ^ Z.of_nat 0) with 1. lia.
  - destruct (_ && _); [|done]. intros ->%IH.
    change (Z.pos (Pos.of_succ_nat n)) with (Z.of_nat (S n)).
    rewrite Nat2Z.inj_succ, Z.pow_succ_r by lia. lia.
Qed.

Lemma scale_loop_ok n m :
  Z.abs m * 10 ^ Z.of_nat n ≤ UPPER_BOUND → scale_loop n m = Some (m * 10 ^ Z.of_nat n).
Proof.
  revert m. induction n as [|n IH]; intros m Hb.
  - simpl. f_equal. change (10 ^ Z.of_nat 0) with 1. lia.
  - rewrite Nat2Z.inj_succ, Z.pow_succ_r in * by lia.
    assert (1 ≤ 10 ^ Z.of_nat n) by (pose proof (Z.pow_pos_nonneg 10 (Z.of_nat n)); lia).
    assert (Z.abs m * 10 ≤ UPPER_BOUND) by nia.
    pose proof (Z.div_le_lower_bound UPPER_BOUND 10 (Z.abs m) ltac:(lia) ltac:(lia)).
    cbn [scale_loop]. replace (_ && _) with true by lia.
    rewrite IH; [f_equal; lia|]. rewrite Z.abs_mul. change (Z.abs 10) with 10. lia.
Qed.

Lemma finalize_spec ms es m t p e d z :
  finalize ms es m t p e d = Some z ↔
  let k := (if es then - e else e) - p + t + d in
  0 ≤ k < 18 ∧ z = (if ms then - m else m) * 10 ^ k ∧ Z.abs z ≤ UPPER_BOUND.
Proof.
  unfold finalize. cbv zeta. set (k := (if es then - e else e) - p + t + d).
  set (sm := if ms then - m else m).
  destruct (Z.ltb_spec k 0); [split; [done|lia]|].
  destruct (Z.leb_spec 18 k); [split; [done|lia]|]. split.
  - destruct (scale_loop _ _) as [m'|] eqn:E; [|done].
    apply scale_loop_some in E. rewrite Z2Nat.id in E by lia.
    destruct (_ && _) eqn:Eb; [|done]. intros [= <-]. split_and!; [lia|lia|done|lia].
  - intros (_ & -> & Hb). rewrite scale_loop_ok; rewrite Z2Nat.id by lia.
    + replace (_ && _) with true by lia. done.
    + rewrite Z.abs_mul, (Z.abs_eq (10 ^ k)) in Hb by (apply Z.pow_nonneg; lia). done.
Qed.

(** ** The parser is the scan followed by the arithmetic *)

Lemma parse_int_scan val :
  parse_int_part val =
  match scan_int val with
  | None => None
  | Some (i, r) =>
      match (if bool_decide (i = "0") then Some (0, 0) else digits_fold i 0 0) with
      | Some (m, t) => Some (r, (m, t, 0))
      | None => None
      end
  end.
Proof.
  unfold parse_int_part, scan_int.
  destruct val as [|c0 rest0]; [done|]. cbn [split_at_checked_1].
  destruct (at_boundary rest0); [|done].
  case_bool_decide as Hz; [by rewrite bool_decide_true|].
  destruct (is_ascii_digit c0) eqn:Hc; [|done].
  rewrite mantissa_loop_fold. cbn [take_digits]. rewrite Hc.
  destruct (take_digits rest0) as [ds r].
  rewrite bool_decide_false by (intros [= ? ?]; done).
  destruct (digits_fold (String c0 ds) 0 0) as [[m t]|]; [|done]. done.
Qed.

Lemma parse_frac_scan val m t :
  parse_frac_part val (m, t, 0) =
  match scan_frac val with
  | None => None
  | Some (f, r) =>
      match digits_fold (default "" f) m t with
      | Some (m', t') => Some (r, (m', t', Z.of_nat (String.length (default "" f))))
      | None => None
      end
  end.
Proof.
  unfold parse_frac_part, scan_frac, scan_digits1.
  destruct (split_at_checked_1 val) as [[c rest]|]; [|done].
  destruct (decide (c = "."%char)) as [->|Hne].
  2:{ destruct c as [[] [] [] [] [] [] [] []]; first [done | by destruct Hne]. }
  destruct (split_at_checked_1 rest) as [[c1 ?]|]; [|done].
  destruct (is_ascii_digit c1); [|done].
  rewrite mantissa_loop_fold. destruct (take_digits rest) as [ds r]. simpl.
  destruct (digits_fold ds m t) as [[m' t']|]; [|done]. do 3 f_equal. lia.
Qed.

Lemma scan_sign_parse val :
  parse_exp_sign val = (bool_decide ((scan_sign val).1 = "-"), (scan_sign val).2).
Proof.
  unfold parse_exp_sign, scan_sign. destruct (split_at_checked_1 val) as [[c rest]|]; [|done].
  by destruct c as [[] [] [] [] [] [] [] []].
Qed.

Lemma parse_exp_scan val :
  parse_exp_part val =
  match scan_exp val with
  | None => None
  | Some (e, r) =>
      match (match e with
             | Some (_, sgn, ds) =>
                 match exponent_loop ds 0 with
                 | Some (_, e) => Some (bool_decide (sgn = "-"), e) | None => None end
             | None => Some (false, 0) end) with
      | Some se => Some (r, se)
      | None => None
      end
  end.
Proof.
  assert (∀ rest, (let '(exponent_sign, rest) := parse_exp_sign rest in
      match split_at_checked_1 rest with
      | Some (c, _) =>
          if is_ascii_digit c then
            match exponent_loop rest 0 with
            | Some (rest', e) => Some (rest', (exponent_sign, e))
            | None => None
            end
          else None
      | None => None
      end) = (let '(sgn, rest) := scan_sign rest in
      match scan_digits1 rest with
      | Some (ds, r) =>
          match exponent_loop ds 0 with
          | Some (_, e) => Some (r, (bool_decide (sgn = "-"), e)) | None => None end
      | None => None end)) as Hmain.
  { intros rest. rewrite scan_sign_parse. destruct (scan_sign rest) as [sgn rest']. simpl.
    unfold scan_digits1. destruct (split_at_checked_1 rest') as [[c1 ?]|]; [|done].
    destruct (is_ascii_digit c1); [|done].
    rewrite exponent_loop_fold. destruct (take_digits rest') as [ds r].
    by destruct (exponent_loop ds 0) as [[]|]. }
  unfold parse_exp_part, scan_exp.
  destruct (split_at_checked_1 val) as [[c rest]|]; [|done].
  specialize (Hmain rest).
  destruct (decide (c = "e"%char)) as [->|He]; [|destruct (decide (c = "E"%char)) as [->|HE]].
  3:{ destruct c as [[] [] [] [] [] [] [] []]; first [done | by destruct He | by destruct HE]. }
  all: rewrite Hmain; destruct (scan_sign rest) as [sgn rest'];
    destruct (scan_digits1 rest') as [[ds r]|]; [|done];
    by destruct (exponent_loop ds 0) as [[]|].
Qed.

Lemma parse_scan val d :
  parse_fixed_point val d =
  match scan val with Some n => evaluate n d | None => None end.
Proof.
  unfold parse_fixed_point, scan, evaluate.
  destruct (parse_mantissa_sign val) as [neg v0].
  rewrite parse_int_scan. destruct (scan_int v0) as [[i v1]|]; [|done].
  transitivity (match (if bool_decide (i = "0") then Some (0, 0) else digits_fold i 0 0) with
    | Some (m, t) =>
      match parse_frac_part v1 (m, t, 0) with
      | None => None
      | Some (val, (mantissa, tzeros, point_ofs)) =>
          match parse_exp_part val with
          | None => None
          | Some (val, (exponent_sign, exponent)) =>
              match val with
              | "" => finalize neg exponent_sign mantissa tzeros point_ofs exponent d
              | _ => None
              end
          end
      end
    | None => None end).
  { by destruct (if bool_decide (i = "0") then _ else _) as [[m t]|]. }
  destruct (if bool_decide (i = "0") then _ else _) as [[m t]|] eqn:Ei.
  2:{ destruct (scan_frac v1) as [[f v2]|]; [|done].
      destruct (scan_exp v2) as [[e [|]]|]; try done. simpl. by rewrite Ei. }
  rewrite parse_frac_scan. destruct (scan_frac v1) as [[f v2]|]; [|done].
  destruct (digits_fold (default "" f) m t) as [[m' t']|] eqn:Ef.
  2:{ destruct (scan_exp v2) as [[e [|]]|]; try done. simpl. by rewrite Ei, Ef. }
  rewrite parse_exp_scan. destruct (scan_exp v2) as [[e v3]|]; [|done].
  destruct v3 as [|c3 v3]; simpl; [rewrite Ei, Ef; unfold num_frac_digits; simpl|].
  - by destruct (match e with Some _ => _ | None => _ end) as [[]|].
  - by destruct (match e with Some _ => _ | None => _ end) as [[]|].
Qed.

(** ** The scan decides the grammar *)

Lemma split_at_checked_inv val c r : split_at_checked_1 val = Some (c, r) → val = String c r.
Proof. destruct val as [|c' r']; simpl; [done|]. destruct (at_boundary r'); naive_solver. Qed.

Lemma split_at_checked_some c r :
  at_boundary r = true → split_at_checked_1 (String c r) = Some (c, r).
Proof. simpl. by intros ->. Qed.

Lemma split_digit ds r :
  digits ds → ds ≠ "" → at_boundary r = true →
  ∃ c r', split_at_checked_1 (ds +:+ r) = Some (c, r') ∧ is_ascii_digit c = true ∧
          ds +:+ r = String c r'.
Proof.
  intros Hds Hne Hr. destruct ds as [|c ds]; [done|]. apply digits_cons in Hds as [Hc Hds].
  exists c, (ds +:+ r). simpl. split_and!; [|done|done].
  destruct ds as [|c' ds]; simpl; [by rewrite Hr|].
  apply digits_cons in Hds as [Hc' _]. by rewrite (digit_not_continuation _ Hc').
Qed.

Lemma scan_digits1_sound val ds r :
  scan_digits1 val = Some (ds, r) → val = ds +:+ r ∧ digits ds ∧ ds ≠ "".
Proof.
  unfold scan_digits1. destruct (split_at_checked_1 val) as [[c rest]|] eqn:E; [|done].
  destruct (is_ascii_digit c) eqn:Hc; [|done]. intros Ht%(inj Some).
  apply split_at_checked_inv in E as ->.
  pose proof (take_digits_spec _ _ _ Ht) as (-> & ? & Hr). split_and!; [done|done|].
  intros ->. simpl in Ht. rewrite Hc in Ht. by destruct (take_digits rest).
Qed.

(** A continuation of the input that no digit run absorbs and no character straddles. *)
Definition stop (r : string) : Prop :=
  match r with "" => True | String c _ => is_ascii_digit c = false ∧ is_continuation c = false end.

Lemma stop_boundary r : stop r → at_boundary r = true.
Proof. destruct r as [|c r]; [done|]. simpl. by intros [_ ->]. Qed.

Lemma stop_take ds r : digits ds → stop r → take_digits (ds +:+ r) = (ds, r).
Proof. intros. apply take_digits_app; [done|]. intros c r' ->. by destruct H0. Qed.

Lemma scan_digits1_complete ds r :
  digits ds → ds ≠ "" → stop r → scan_digits1 (ds +:+ r) = Some (ds, r).
Proof.
  intros Hds Hne Hr. unfold scan_digits1.
  destruct (split_digit ds r Hds Hne (stop_boundary _ Hr)) as (c & r' & -> & -> & _).
  by rewrite stop_take.
Qed.

Lemma scan_int_sound val i r :
  scan_int val = Some (i, r) → val = i +:+ r ∧ wf_int i.
Proof.
  unfold scan_int. destruct (split_at_checked_1 val) as [[c rest]|] eqn:E; [|done].
  apply split_at_checked_inv in E as ->. case_bool_decide as Hz.
  - intros [= <- <-]. subst. simpl. split; [done|]. by left.
  - destruct (is_ascii_digit c) eqn:Hc; [|done]. intros Ht%(inj Some).
    pose proof (take_digits_spec _ _ _ Ht) as (-> & ? & _). split; [done|].
    simpl in Ht. rewrite Hc in Ht. destruct (take_digits rest). injection Ht as <- _.
    right. done.
Qed.

Lemma scan_int_complete i r : wf_int i → stop r → scan_int (i +:+ r) = Some (i, r).
Proof.
  intros Hi Hr. unfold scan_int. destruct i as [|c i]; [done|].
  destruct Hi as [[-> ->]|[Hne Hds]].
  - simpl. by rewrite (stop_boundary _ Hr).
  - destruct (split_digit (String c i) r Hds ltac:(done) (stop_boundary _ Hr)) as (c' & r' & E & Hc & Heq).
    rewrite E. injection Heq as <- _. rewrite bool_decide_false by done. rewrite Hc.
    by rewrite stop_take.
Qed.

Lemma scan_frac_sound val f r :
  scan_frac val = Some (f, r) → val = render_frac f +:+ r ∧ wf_frac f.
Proof.
  unfold scan_frac. destruct (split_at_checked_1 val) as [[c rest]|] eqn:E.
  2:{ by intros [= <- <-]. }
  apply split_at_checked_inv in E as ->.
  destruct (decide (c = "."%char)) as [->|Hne].
  - destruct (scan_digits1 rest) as [[ds r']|] eqn:Ed; [|done]. intros [= <- <-].
    apply scan_digits1_sound in Ed as (-> & ? & ?). done.
  - intros H. assert (Some (None, String c rest) = Some (f, r)) as [= <- <-]; [|done].
    destruct c as [[] [] [] [] [] [] [] []]; first [exact H | by destruct Hne].
Qed.

Lemma scan_sign_sound val sgn r :
  scan_sign val = (sgn, r) → val = sgn +:+ r ∧ (sgn = "" ∨ sgn = "+" ∨ sgn = "-").
Proof.
  unfold scan_sign. destruct (split_at_checked_1 val) as [[c rest]|] eqn:E.
  2:{ intros [= <- <-]. naive_solver. }
  apply split_at_checked_inv in E as ->.
  destruct c as [[] [] [] [] [] [] [] []]; intros [= <- <-]; naive_solver.
Qed.

Lemma scan_exp_sound val e r :
  scan_exp val = Some (e, r) → val = render_exp e +:+ r ∧ wf_exp e.
Proof.
  unfold scan_exp. destruct (split_at_checked_1 val) as [[c rest]|] eqn:E.
  2:{ by intros [= <- <-]. }
  apply split_at_checked_inv in E as ->.
  destruct (decide (c = "e"%char ∨ c = "E"%char)) as [Hc|Hc].
  - intros H. assert ((let '(sgn, rest) := scan_sign rest in
      match scan_digits1 rest with Some (ds, r) => Some (Some (c, sgn, ds), r) | None => None end)
        = Some (e, r)) as H' by (destruct Hc as [-> | ->]; exact H).
    clear H. destruct (scan_sign rest) as [sgn rest'] eqn:Es.
    destruct (scan_digits1 rest') as [[ds r']|] eqn:Ed; [|done]. injection H' as <- <-.
    apply scan_sign_sound in Es as (-> & ?). apply scan_digits1_sound in Ed as (-> & ? & ?).
    simpl. by rewrite append_assoc.
  - intros H. assert (Some (None, String c rest) = Some (e, r)) as [= <- <-]; [|done].
    destruct c as [[] [] [] [] [] [] [] []]; first [exact H | destruct Hc; by auto].
Qed.

Lemma scan_sound val n : scan val = Some n → wf_numeral n ∧ val = render n.
Proof.
  unfold scan. destruct (parse_mantissa_sign val) as [neg v0] eqn:E0.
  assert (val = (if neg then "-" else "") +:+ v0) as ->.
  { revert E0. unfold parse_mantissa_sign.
    destruct (split_at_checked_1 val) as [[c rest]|] eqn:E; [|by intros [= <- <-]].
    apply split_at_checked_inv in E as ->.
    destruct c as [[] [] [] [] [] [] [] []]; by intros [= <- <-]. }
  destruct (scan_int v0) as [[i v1]|] eqn:E1; [|done].
  destruct (scan_frac v1) as [[f v2]|] eqn:E2; [|done].
  destruct (scan_exp v2) as [[e [|]]|] eqn:E3; try done. intros [= <-].
  apply scan_int_sound in E1 as [-> ?]. apply scan_frac_sound in E2 as [-> ?].
  apply scan_exp_sound in E3 as [-> ?]. unfold render; simpl. by rewrite append_nil_r.
Qed.

Lemma exp_stop e : wf_exp e → stop (render_exp e).
Proof. destruct e as [[[c sgn] ds]|]; [|done]. intros ([-> | ->] & _); done. Qed.

Lemma frac_exp_stop f e : wf_exp e → stop (render_frac f +:+ render_exp e).
Proof. destruct f; [done|]. apply exp_stop. Qed.

Lemma scan_exp_complete e : wf_exp e → scan_exp (render_exp e) = Some (e, "").
Proof.
  destruct e as [[[c sgn] ds]|]; [|done]. intros (Hc & Hs & Hds & Hne). simpl.
  assert (scan_sign (sgn +:+ ds) = (sgn, ds) ∧ at_boundary (sgn +:+ ds) = true) as [Hsg Hb].
  { destruct (split_digit ds "" Hds Hne ltac:(done)) as (c1 & r1 & E1 & Hc1 & Heq).
    rewrite append_nil_r in *. subst ds.
    pose proof (digit_not_continuation _ Hc1) as Hk.
    destruct Hs as [-> | [-> | ->]]; simpl; rewrite ?Hk; simpl.
    - split; [|done]. unfold scan_sign. rewrite E1.
      destruct c1 as [[] [] [] [] [] [] [] []]; first [done | discriminate Hc1].
    - split; [|done]. unfold scan_sign. simpl. by rewrite Hk.
    - split; [|done]. unfold scan_sign. simpl. by rewrite Hk. }
  unfold scan_exp. rewrite split_at_checked_some by done.
  assert (scan_digits1 ds = Some (ds, "")) as Hd.
  { rewrite <- (append_nil_r ds) at 1. by apply scan_digits1_complete. }
  destruct Hc as [-> | ->]; by rewrite Hsg, Hd.
Qed.

Lemma scan_frac_complete f e :
  wf_frac f → wf_exp e → scan_frac (render_frac f +:+ render_exp e) = Some (f, render_exp e).
Proof.
  intros Hf He. pose proof (exp_stop e He) as Hstop. destruct f as [ds|]; simpl.
  - destruct Hf as [Hds Hne]. unfold scan_frac.
    destruct (split_digit ds (render_exp e) Hds Hne (stop_boundary _ Hstop)) as (c & r & E & Hc & Heq).
    rewrite split_at_checked_some.
    + by rewrite scan_digits1_complete.
    + rewrite Heq. simpl. by rewrite (digit_not_continuation _ Hc).
  - unfold scan_frac. destruct e as [[[c sgn] ds]|]; [|done]. simpl.
    destruct (at_boundary (sgn +:+ ds)); [|done]. by destruct He as ([-> | ->] & _).
Qed.

Lemma scan_complete n : wf_numeral n → scan (render n) = Some n.
Proof.
  destruct n as [neg i f e]. intros (Hi & Hf & He). simpl in *.
  unfold scan, render; simpl.
  assert (parse_mantissa_sign ((if neg then "-" else "") +:+ i +:+ render_frac f +:+ render_exp e)
    = (neg, i +:+ render_frac f +:+ render_exp e)) as ->.
  { destruct i as [|c i]; [done|]. assert (is_ascii_digit c = true) as Hc.
    { destruct Hi as [[-> ->]|[_ Hds]]; [done|]. by apply digits_cons in Hds as [? _]. }
    destruct neg; simpl.
    - unfold parse_mantissa_sign. simpl. by rewrite (digit_not_continuation _ Hc).
    - unfold parse_mantissa_sign. destruct (split_at_checked_1 _) as [[c' r']|] eqn:E; [|done].
      apply split_at_checked_inv in E as [= <- _].
      destruct c as [[] [] [] [] [] [] [] []]; first [done | discriminate Hc]. }
  rewrite scan_int_complete by (done || by apply frac_exp_stop).
  rewrite scan_frac_complete by done. by rewrite scan_exp_complete.
Qed.

(** ** What the arithmetic computes *)

(** The mantissa without its trailing zeros, and how many zeros were dropped. *)
Definition ideal (n : numeral) : Z * Z :=
  let '(m, t) := if bool_decide (n_int n = "0") then (0, 0) else ideal_fold (n_int n) 0 0 in
  ideal_fold (default "" (n_frac n)) m t.

Definition signed_mantissa (n : numeral) (m : Z) : Z := if n_neg n then - m else m.

Lemma exponent_loop_spec ds e r e' :
  digits ds → 0 ≤ e ≤ UPPER_BOUND →
  exponent_loop ds e = Some (r, e') ↔ r = "" ∧ e' = dec_val e ds ∧ dec_val e ds ≤ UPPER_BOUND.
Proof.
  revert e. induction ds as [|c ds IH]; intros e Hds He; simpl.
  { split; [intros [= <- <-]; split_and!; [done|done|lia]|by intros (-> & -> & _)]. }
  apply digits_cons in Hds as [Hc Hds]. rewrite Hc. pose proof (digit_val_range _ Hc).
  pose proof (dec_val_lower (e * 10 + digit_val c) ds Hds ltac:(lia)).
  assert (1 ≤ 10 ^ Z.of_nat (String.length ds)) by (pose proof (Z.pow_pos_nonneg 10 (Z.of_nat (String.length ds))); lia).
  assert (UPPER_BOUND = 999999999999999999) as HU by done.
  assert (UPPER_BOUND / 10 = 99999999999999999) as HU10 by done.
  destruct (Z.ltb_spec (UPPER_BOUND / 10) e).
  - split; [done|]. intros (_ & _ & ?). nia.
  - apply IH; [done|lia].
Qed.

Lemma exponent_part_spec n :
  wf_exp (n_exp n) →
  ∀ se, (match n_exp n with
   | Some (_, sgn, ds) =>
       match exponent_loop ds 0 with
       | Some (_, e) => Some (bool_decide (sgn = "-"), e) | None => None end
   | None => Some (false, 0) end) = Some se ↔
  (num_exp_magnitude n ≤ UPPER_BOUND ∧
   se = (match n_exp n with Some (_, sgn, _) => bool_decide (sgn = "-") | None => false end,
         num_exp_magnitude n)).
Proof.
  intros He se. unfold num_exp_magnitude. destruct (n_exp n) as [[[c sgn] ds]|].
  - destruct He as (_ & _ & Hds & _).
    destruct (exponent_loop ds 0) as [[r e]|] eqn:E.
    + apply exponent_loop_spec in E as (-> & -> & ?); [|done|done].
      split; [by intros [= <-]|by intros [_ ->]].
    + split; [done|]. intros [Hb _].
      assert (exponent_loop ds 0 = Some ("", dec_val 0 ds)) by (by apply exponent_loop_spec).
      congruence.
  - split; [by intros [= <-]|by intros [_ ->]].
Qed.

Lemma ideal_start n :
  wf_numeral n →
  ∃ m t, (if bool_decide (n_int n = "0") then (0, 0) else ideal_fold (n_int n) 0 0) = (m, t) ∧
    0 ≤ m ∧ 0 ≤ t ∧ normal m ∧ m * 10 ^ t = dec_val 0 (n_int n) ∧
    (m = 0 → n_int n = "0" ∧ t = 0).
Proof.
  intros (Hi & _ & _). case_bool_decide as Hz.
  - exists 0, 0. rewrite Hz. split_and!; done || by left.
  - destruct (n_int n) as [|c i] eqn:En; [done|]. destruct Hi as [[-> ->]|[Hne Hds]]; [done|].
    destruct (ideal_fold (String c i) 0 0) as [m t] eqn:E. exists m, t.
    pose proof (ideal_mono (String c i) 0 0 Hds ltac:(lia) ltac:(lia)) as [? ?].
    pose proof (ideal_normal (String c i) 0 0 Hds ltac:(lia) ltac:(by left)) as Hn.
    pose proof (ideal_value (String c i) 0 0 m t Hds ltac:(lia) E) as Hv.
    rewrite E in *. simpl fst in *. simpl snd in *.
    split_and!; [done|done|done|done|done|].
    intros ->. exfalso. cbn [dec_val] in Hv. replace (0 * 10 ^ 0) with 0 in Hv by done.
    apply digits_cons in Hds as [Hc Hds].
    pose proof (digit_nonzero _ Hc Hne). pose proof (digit_val_range _ Hc).
    pose proof (dec_val_lower (0 * 10 + digit_val c) i Hds ltac:(lia)).
    assert (0 < 10 ^ Z.of_nat (String.length i)) by (apply Z.pow_pos_nonneg; lia). nia.
Qed.

Lemma ideal_spec n m t :
  wf_numeral n → ideal n = (m, t) →
  0 ≤ m ∧ 0 ≤ t ∧ normal m ∧ m * 10 ^ t = num_mantissa n ∧
  (m = 0 → t = num_frac_digits n).
Proof.
  intros Hwf. destruct (ideal_start n Hwf) as (m0 & t0 & E0 & Hm0 & Ht0 & Hn0 & Hv0 & Hz0).
  unfold ideal, num_mantissa, num_frac_digits. rewrite E0. intros E.
  destruct Hwf as (_ & Hf & _).
  assert (digits (default "" (n_frac n))) as Hds by (destruct (n_frac n); [by destruct Hf|done]).
  pose proof (ideal_mono _ m0 t0 Hds Hm0 Ht0) as [? ?].
  pose proof (ideal_normal _ m0 t0 Hds Ht0 Hn0).
  pose proof (ideal_value _ m0 t0 m t Hds Ht0 E).
  pose proof (ideal_zero _ m0 t0 Hds Hm0 Ht0) as Hzero.
  rewrite E in *. simpl in *. split_and!; [lia|lia|done| |].
  - rewrite dec_val_append. congruence.
  - intros ->. destruct (Hzero eq_refl) as [-> ->]. destruct (Hz0 eq_refl) as [_ ->]. lia.
Qed.

Lemma evaluate_spec n d z :
  wf_numeral n →
  evaluate n d = Some z ↔
  let '(m, t) := ideal n in
  let k := num_exp n - num_frac_digits n + t + d in
  m ≤ UPPER_BOUND ∧ num_exp_magnitude n ≤ UPPER_BOUND ∧ 0 ≤ k < 18 ∧
  z = signed_mantissa n m * 10 ^ k ∧ Z.abs z ≤ UPPER_BOUND.
Proof.
  intros Hwf. destruct (ideal n) as [m t] eqn:Ei.
  pose proof (ideal_start n Hwf) as (m0 & t0 & E0 & Hm0 & Ht0 & _).
  assert (digits (default "" (n_frac n))) as Hds.
  { destruct Hwf as (_ & Hf & _). destruct (n_frac n); [by destruct Hf|done]. }
  assert (n_int n ≠ "0" → digits (n_int n)) as Hdi.
  { destruct Hwf as (Hi & _). intros Hne. destruct (n_int n) as [|c i]; [done|].
    destruct Hi as [[-> ->]|[_ ?]]; done. }
  assert (∀ p, (if bool_decide (n_int n = "0") then Some (0, 0) else digits_fold (n_int n) 0 0) = Some p
    ↔ p = (m0, t0) ∧ m0 ≤ UPPER_BOUND) as Hstart.
  { intros p. case_bool_decide as Hz.
    - injection E0 as <- <-. split; [by intros [= <-]|by intros [-> _]].
    - specialize (Hdi Hz). split.
      + destruct p as [m1 t1]. intros H.
        apply digits_fold_bounds in H as (H & ? & ?); [|done|done|done].
        rewrite E0 in H. injection H as <- <-. split; [done|lia].
      + intros [-> Hb]. rewrite digits_fold_complete; rewrite ?E0; done || lia. }
  assert (∀ p, digits_fold (default "" (n_frac n)) m0 t0 = Some p ∧ m0 ≤ UPPER_BOUND
    ↔ p = (m, t) ∧ m ≤ UPPER_BOUND) as Hfrac.
  { unfold ideal in Ei. rewrite E0 in Ei. intros [m1 t1]. split.
    - intros [H Hb]. apply digits_fold_bounds in H as (H & ? & ?); [|done|lia|done].
      rewrite Ei in H. injection H as <- <-. split; [done|lia].
    - intros [[= -> ->] Hb]. pose proof (ideal_mono _ m0 t0 Hds Hm0 Ht0) as [Hmono _].
      rewrite Ei in Hmono. simpl in Hmono. split; [|lia].
      rewrite digits_fold_complete; rewrite ?Ei; done || lia. }
  unfold evaluate. cbv zeta.
  destruct (if bool_decide (n_int n = "0") then Some _ else _) as [[m1 t1]|].
  2:{ split; [done|]. intros (Hb & _). destruct (proj2 (Hfrac (m, t)) (conj eq_refl Hb)) as [_ Hb0].
      by pose proof (proj2 (Hstart (m0, t0)) (conj eq_refl Hb0)). }
  destruct (proj1 (Hstart _) eq_refl) as [[= -> ->] Hb0].
  destruct (digits_fold (default "" (n_frac n)) m0 t0) as [[m1 t1]|].
  2:{ split; [done|]. intros (Hb & _). by destruct (proj2 (Hfrac (m, t)) (conj eq_refl Hb)). }
  destruct (proj1 (Hfrac (m1, t1)) (conj eq_refl Hb0)) as [[= -> ->] Hb].
  pose proof (exponent_part_spec n (proj2 (proj2 Hwf))) as Hexp.
  destruct (match n_exp n with Some _ => _ | None => _ end) as [[es e]|].
  2:{ split; [done|]. intros (_ & He & _).
      by pose proof (proj2 (Hexp _) (conj He eq_refl)). }
  destruct (proj1 (Hexp (es, e)) eq_refl) as [He [= -> ->]].
  rewrite finalize_spec. cbv zeta.
  assert ((if match n_exp n with Some (_, sgn, _) => bool_decide (sgn = "-") | None => false end
    then - num_exp_magnitude n else num_exp_magnitude n) = num_exp n) as ->.
  { unfold num_exp, num_exp_magnitude. by destruct (n_exp n) as [[[]]|]. }
  unfold signed_mantissa. split.
  - intros (Hk & Hz & Hb'). split_and!; [done|done|apply Hk|apply Hk|done|done].
  - intros (_ & _ & Hk & Hz & Hb'). split_and!; [apply Hk|apply Hk|done|done].
Qed.

(** Writing the exponent at the normalised mantissa. *)
Lemma denotes_normal n d z m t :
  wf_numeral n → ideal n = (m, t) →
  let k := num_exp n - num_frac_digits n + t + d in
  0 ≤ k → (denotes n d z ↔ z = signed_mantissa n m * 10 ^ k).
Proof.
  intros Hwf Hi k Hk. destruct (ideal_spec n m t Hwf Hi) as (Hm & Ht & _ & Hv & _).
  unfold denotes. cbv zeta. rewrite <- Hv.
  set (K := num_exp n - num_frac_digits n + d). assert (k = K + t) as Hkt by (unfold k, K; lia).
  assert ((if n_neg n then - (m * 10 ^ t) else m * 10 ^ t) = signed_mantissa n m * 10 ^ t) as ->.
  { unfold signed_mantissa. destruct (n_neg n); lia. }
  assert (0 < 10 ^ Z.max 0 (- K)) by (apply Z.pow_pos_nonneg; lia).
  assert (10 ^ t * 10 ^ Z.max 0 K = 10 ^ k * 10 ^ Z.max 0 (- K)) as Hpow.
  { rewrite <- !Z.pow_add_r by lia. f_equal. lia. }
  rewrite <- Z.mul_assoc, Hpow, Z.mul_assoc. split; [|by intros ->].
  intros Heq. apply Z.mul_cancel_r in Heq; [done|lia].
Qed.

Lemma denotes_exponent n d z m t :
  wf_numeral n → ideal n = (m, t) → m ≠ 0 → denotes n d z →
  0 ≤ num_exp n - num_frac_digits n + t + d.
Proof.
  intros Hwf Hi Hm0 Hd. destruct (ideal_spec n m t Hwf Hi) as (Hm & Ht & Hn & Hv & _).
  destruct Hn as [|Hn]; [done|]. apply Z.nlt_ge. intros Hk. apply Hn.
  unfold denotes in Hd. cbv zeta in Hd. rewrite <- Hv in Hd.
  set (K := num_exp n - num_frac_digits n + d) in *.
  rewrite (Z.max_l 0 K) in Hd by lia. rewrite (Z.max_r 0 (- K)) in Hd by lia.
  change (10 ^ 0) with 1 in Hd.
  replace (- K) with (1 + (- K - t - 1) + t) in Hd by lia.
  rewrite !Z.pow_add_r in Hd by lia. change (10 ^ 1) with 10 in Hd.
  set (a := 10 ^ (- K - t - 1)) in *. set (b := 10 ^ t) in *.
  assert (0 < b) by (apply Z.pow_pos_nonneg; lia).
  assert (m = 10 * ((if n_neg n then - z else z) * a)) as ->; [|by rewrite Z.mul_comm, Z.mod_mul].
  destruct (n_neg n); apply (Z.mul_cancel_r _ _ b); lia.
Qed.

(** ** Formatted amounts are numerals *)

Lemma dec_val_shift acc s :
  dec_val acc s = acc * 10 ^ Z.of_nat (String.length s) + dec_val 0 s.
Proof.
  revert acc. induction s as [|c s IH]; intros acc.
  - simpl. change (10 ^ Z.of_nat 0) with 1. lia.
  - cbn [dec_val String.length]. rewrite IH, (IH (0 * 10 + digit_val c)).
    rewrite Nat2Z.inj_succ, Z.pow_succ_r by lia. lia.
Qed.

Definition literal_numeral (zats : Z) : numeral :=
  {| n_neg := zats <? 0; n_int := dec (Z.abs zats / COIN);
     n_frac := Some (dec_pad 8 (Z.abs zats mod COIN)); n_exp := None |}.

Lemma literal_render zats : render (literal_numeral zats) = signed_zats_literal zats.
Proof. unfold render, signed_zats_literal. simpl. by rewrite append_nil_r. Qed.

Lemma literal_unsigned zats : 0 ≤ zats → signed_zats_literal zats = zats_literal zats.
Proof.
  intros. unfold signed_zats_literal, zats_literal.
  destruct (Z.ltb_spec zats 0); [lia|]. by rewrite Z.abs_eq.
Qed.

Lemma wf_int_dec n : 0 ≤ n → wf_int (dec n).
Proof.
  intros Hn. destruct (decide (n = 0)) as [->|]; [by left|].
  destruct (dec n) as [|c s] eqn:E; [by apply dec_nonempty in E|]. right. split.
  - intros ->. apply (dec_head n "0" s); [lia|done|reflexivity].
  - rewrite <- E. by apply dec_digits.
Qed.

Lemma pad8_nonempty n : 0 ≤ n < COIN → dec_pad 8 n ≠ "" ∧ String.length (dec_pad 8 n) = 8%nat.
Proof.
  intros Hn. assert (String.length (dec_pad 8 n) = 8%nat) as Hl.
  { apply dec_pad_length; [lia|]. change (10 ^ Z.of_nat 8) with COIN. done. }
  split; [|done]. intros Heq. by rewrite Heq in Hl.
Qed.

Lemma literal_wf zats : wf_numeral (literal_numeral zats).
Proof.
  assert (0 ≤ Z.abs zats mod COIN < COIN) by (apply Z.mod_pos_bound; done).
  split_and!; simpl; [|split; [|by apply pad8_nonempty]|done].
  - apply wf_int_dec. apply Z.div_pos; [lia|done].
  - apply dec_pad_digits. lia.
Qed.

Lemma literal_mantissa zats : num_mantissa (literal_numeral zats) = Z.abs zats.
Proof.
  assert (0 ≤ Z.abs zats mod COIN < COIN) as Hr by (apply Z.mod_pos_bound; done).
  unfold num_mantissa. simpl. rewrite dec_val_append, dec_val_shift.
  rewrite (proj2 (pad8_nonempty _ Hr)), dec_pad_value by apply Hr.
  rewrite dec_value by (apply Z.div_pos; [lia|done]).
  change (10 ^ Z.of_nat 8) with COIN. pose proof (Z.div_mod (Z.abs zats) COIN ltac:(done)). lia.
Qed.

Lemma literal_denotes zats : denotes (literal_numeral zats) 8 zats.
Proof.
  assert (0 ≤ Z.abs zats mod COIN < COIN) as Hr by (apply Z.mod_pos_bound; done).
  assert (num_exp (literal_numeral zats) - num_frac_digits (literal_numeral zats) + 8 = 0) as Hk.
  { change (num_frac_digits (literal_numeral zats))
      with (Z.of_nat (String.length (dec_pad 8 (Z.abs zats mod COIN)))).
    by rewrite (proj2 (pad8_nonempty _ Hr)). }
  unfold denotes. rewrite literal_mantissa, Hk. change (10 ^ Z.max 0 (- 0)) with 1.
  change (10 ^ Z.max 0 0) with 1. cbn [literal_numeral n_neg].
  destruct (Z.ltb_spec zats 0); lia.
Qed.

(** A rendered numeral is a JSON number. *)
Lemma json_digits1_render ds r :
  digits ds → ds ≠ "" → stop r → json_digits1 (ds +:+ r) = Some r.
Proof.
  intros Hds Hne Hr. unfold json_digits1. rewrite stop_take by done. by destruct ds.
Qed.

Lemma render_json_number n : wf_numeral n → is_json_number (render n) = true.
Proof.
  destruct n as [neg i f e]. intros (Hi & Hf & He). simpl in *.
  assert (json_exp (render_exp e) = Some "") as Hexp.
  { destruct e as [[[c sgn] ds]|]; [|done]. destruct He as (Hc & Hs & Hds & Hne).
    assert (json_digits1 ds = Some "") as Hd.
    { rewrite <- (append_nil_r ds). by apply json_digits1_render. }
    destruct ds as [|c1 ds]; [done|]. apply digits_cons in Hds as [Hc1 _].
    destruct Hc as [-> | ->]; destruct Hs as [-> | [-> | ->]]; simpl; try done;
      destruct c1 as [[] [] [] [] [] [] [] []]; first [exact Hd | discriminate Hc1]. }
  assert (json_frac (render_frac f +:+ render_exp e) = Some (render_exp e)) as Hfrac.
  { destruct f as [ds|]; simpl.
    - destruct Hf. apply json_digits1_render; [done|done|by apply exp_stop].
    - destruct e as [[[c sgn] ds]|]; [|done]. by destruct He as ([-> | ->] & _). }
  assert (json_int_part (i +:+ render_frac f +:+ render_exp e)
    = Some (render_frac f +:+ render_exp e)) as Hint.
  { pose proof (frac_exp_stop f e He) as Hstop. destruct i as [|c i]; [done|].
    destruct Hi as [[-> ->]|[Hne Hds]]; [done|].
    cbn [json_int_part String.append]. rewrite bool_decide_false by done.
    pose proof (proj1 (digits_cons c i) Hds) as [Hc Hi']. rewrite Hc. by rewrite stop_take. }
  unfold is_json_number, render; simpl.
  assert (json_minus ((if neg then "-" else "") +:+ i +:+ render_frac f +:+ render_exp e)
    = i +:+ render_frac f +:+ render_exp e) as ->.
  { destruct neg; [done|]. destruct i as [|c i]; [done|].
    assert (is_ascii_digit c = true) as Hc.
    { destruct Hi as [[-> ->]|[_ Hds]]; [done|]. by apply digits_cons in Hds as [? _]. }
    simpl. destruct c as [[] [] [] [] [] [] [] []]; first [done | discriminate Hc]. }
  by rewrite Hint, Hfrac, Hexp.
Qed.

(** ** Properties *)

(** [parse_fixed_point] is exact: it returns [z] precisely when its input is a numeral of the
    grammar that denotes the integer [z] in units of [10^-decimals] - never a rounded value -
    with [z] at most [10^18 - 1] in magnitude, an exponent magnitude in that range too, and, for
    a zero mantissa, an exponent the fixed-point range accepts. *)
Theorem parse_fixed_point_exact (val : string) (decimals z : Z) :
  parse_fixed_point val decimals = Some z ↔
  ∃ n, wf_numeral n ∧ val = render n ∧ denotes n decimals z ∧ Z.abs z ≤ UPPER_BOUND ∧
       num_exp_magnitude n ≤ UPPER_BOUND ∧
       (num_mantissa n = 0 → 0 ≤ num_exp n + decimals < 18).
Proof.
  rewrite parse_scan. split.
  - destruct (scan val) as [n|] eqn:Es; [|done]. apply scan_sound in Es as [Hwf ->].
    intros He%evaluate_spec; [|done]. destruct (ideal n) as [m t] eqn:Ei.
    destruct He as (Hm & Hmag & Hk & Hz & Hb). exists n.
    destruct (ideal_spec n m t Hwf Ei) as (? & ? & _ & Hv & H0).
    split_and!; [done|done| |done|done|].
    + apply (denotes_normal n decimals z m t Hwf Ei); [lia|done].
    + intros HN. assert (m = 0) as ->.
      { apply (Z.eq_mul_0_l m (10 ^ t)); [lia|]. apply Z.pow_nonzero; lia. }
      specialize (H0 eq_refl). lia.
  - intros (n & Hwf & -> & Hd & Hb & Hmag & Hzero). rewrite scan_complete by done.
    apply evaluate_spec; [done|]. destruct (ideal n) as [m t] eqn:Ei.
    destruct (ideal_spec n m t Hwf Ei) as (Hm0 & Ht & _ & Hv & H0).
    destruct (decide (m = 0)) as [->|Hm].
    + rewrite Z.mul_0_l in Hv. specialize (Hzero (eq_sym Hv)). specialize (H0 eq_refl).
      apply (denotes_normal n decimals z 0 t Hwf Ei) in Hd; [|lia].
      split_and!; [done|done|lia|lia|done|done].
    + pose proof (denotes_exponent n decimals z m t Hwf Ei Hm Hd) as Hk.
      apply (denotes_normal n decimals z m t Hwf Ei) in Hd; [|done].
      set (k := num_exp n - num_frac_digits n + t + decimals) in *.
      assert (Z.abs z = m * 10 ^ k) as Hz.
      { subst z. rewrite Z.abs_mul, (Z.abs_eq (10 ^ k)) by (apply Z.pow_nonneg; lia).
        f_equal. unfold signed_mantissa. destruct (n_neg n); lia. }
      assert (0 < 10 ^ k) by (apply Z.pow_pos_nonneg; lia).
      split_and!; [nia|done|lia| |done|done].
      apply Z.nle_gt. intros Hk18. assert (10 ^ 18 ≤ 10 ^ k) by (apply Z.pow_le_mono_r; lia).
      unfold UPPER_BOUND in Hb. change (10 ^ 18) with 1000000000000000000 in *. nia.
Qed.

Lemma literal_parse zats :
  Z.abs zats ≤ UPPER_BOUND → parse_fixed_point (signed_zats_literal zats) 8 = Some zats.
Proof.
  intros Hb. apply parse_fixed_point_exact. exists (literal_numeral zats).
  split_and!; [apply literal_wf|by rewrite literal_render|apply literal_denotes|done|done|done].
Qed.

(** Round trip: an unsigned amount up to the supply cap, written with eight decimals and
    parsed back by the JSON layer and [value_to_zats], is the same amount - whatever numeric
    parser the JSON layer is, as long as it keeps literals. *)
Theorem amount_round_trip (from_str : string → option json) `{!JsonNumberParser from_str} (zats : Z) :
  0 ≤ zats ≤ MAX_MONEY →
  ∃ v, zats_to_value from_str zats = Some v ∧ value_to_zats v = Ok zats.
Proof.
  intros Hz. assert (MAX_MONEY ≤ UPPER_BOUND) by done.
  exists (JNumber (zats_literal zats)). split.
  - apply (from_str_number (from_str:=from_str)). rewrite <- literal_unsigned, <- literal_render by lia.
    apply render_json_number, literal_wf.
  - unfold value_to_zats. simpl. rewrite <- literal_unsigned, literal_parse by lia. simpl.
    destruct (Z.ltb_spec zats 0); [lia|]. by destruct (Z.ltb_spec MAX_MONEY zats); [lia|].
Qed.

Lemma amount_round_trip_witness :
  0 ≤ 2099999999999999 ≤ MAX_MONEY ∧
  ∃ v, zats_to_value number_from_str 2099999999999999 = Some v ∧ value_to_zats v = Ok 2099999999999999.
Proof.
  split; [by vm_compute|]. apply (amount_round_trip number_from_str). by vm_compute.
Defined.

(** The signed form round-trips for every balance delta of magnitude up to [10^18 - 1]. *)
Theorem signed_amount_round_trip (from_str : string → option json) `{!JsonNumberParser from_str}
    (zats : Z) :
  Z.abs zats ≤ UPPER_BOUND →
  ∃ v, signed_zats_to_value from_str zats = Some v ∧ signed_value_to_zats v = Ok zats.
Proof.
  intros Hz. exists (JNumber (signed_zats_literal zats)). split.
  - apply (from_str_number (from_str:=from_str)). rewrite <- literal_render. apply render_json_number, literal_wf.
  - simpl. by rewrite literal_parse.
Qed.

Lemma signed_amount_round_trip_witness :
  Z.abs (-10000000) ≤ UPPER_BOUND ∧
  ∃ v, signed_zats_to_value number_from_str (-10000000) = Some v ∧
       signed_value_to_zats v = Ok (-10000000).
Proof.
  split; [by vm_compute|]. apply (signed_amount_round_trip number_from_str). by vm_compute.
Defined.

(** [value_to_zats] accepts exactly the literals of amounts in [0, MAX_MONEY], carried by a
    number or a string; every refusal is a type error (-3). *)
Theorem value_to_zats_outcome (v : json) :
  match value_to_zats v with
  | Ok zats => 0 ≤ zats ≤ MAX_MONEY ∧
      ∃ lit, (v = JNumber lit ∨ v = JString lit) ∧ parse_fixed_point lit 8 = Some zats
  | Err e => err_code e = RPC_TYPE_ERROR ∧
      ∀ lit zats, v = JNumber lit ∨ v = JString lit →
        parse_fixed_point lit 8 = Some zats → zats < 0 ∨ MAX_MONEY < zats
  end.
Proof.
  assert (∀ lit, v = JNumber lit ∨ v = JString lit →
    value_to_zats v = (zats ← ok_or (parse_fixed_point lit 8) (RpcError.type_error "Invalid amount");
      if zats <? 0 then Err (RpcError.type_error "Amount out of range")
      else if MAX_MONEY <? zats then Err (RpcError.type_error "Amount out of range")
      else Ok zats)) as Hlit by (by intros lit [-> | ->]).
  destruct v as [|b|lit|lit|l|fs]; try (split; [done|by intros ?? [?|?]]).
  all: rewrite (Hlit lit) by auto; destruct (parse_fixed_point lit 8) as [zats|] eqn:E; simpl;
    [|split; [done|intros ? ? [[= <-]|[= <-]] ?; congruence]].
  all: destruct (Z.ltb_spec zats 0); [split; [done|intros ? ? [[= <-]|[= <-]] ?; simplify_eq; lia]|].
  all: destruct (Z.ltb_spec MAX_MONEY zats); [split; [done|intros ? ? [[= <-]|[= <-]] ?; simplify_eq; lia]|].
  all: split; [lia|eauto].
Qed.

