(* ===== verification/TxSize.v ===== *)
(** * TxSize: the size a proposal will serialize to ([src/src/tx_size.rs])

    The byte estimate of a transaction from its per-pool counts, the ZIP 218 budget check, and
    the bisection that finds the largest count fitting a byte ceiling. Counts and sizes are
    [usize]: [estimate_in_range] bounds the shapes for which no addition or product wraps. *)

From S2P Require Export Prelude Text.

(** ** Field widths *)

Definition ORCHARD_ACTION_BYTES : Z := 820 + 64.
Definition ORCHARD_PROOF_BASE_BYTES : Z := 2720.
Definition ORCHARD_PROOF_PER_ACTION_BYTES : Z := 2272.
Definition ORCHARD_BUNDLE_FIXED_BYTES : Z := 1 + 8 + 32 + 64.
Definition SAPLING_SPEND_BYTES : Z := 96 + 192 + 64.
Definition SAPLING_OUTPUT_BYTES : Z := 756 + 192.
Definition SAPLING_BUNDLE_FIXED_BYTES : Z := 8 + 32 + 64.
Definition TRANSPARENT_INPUT_BYTES : Z := 32 + 4 + 1 + (1 + 72 + 1 + 33) + 4.
Definition TRANSPARENT_OUTPUT_BYTES : Z := 8 + 1 + 25.
Definition HEADER_BYTES : Z := 4 * 5.
Definition SAPLING_MIN_OUTPUTS : Z := 2.

(** [compact_size_bytes]. *)
Definition compact_size_bytes (n : Z) : Z :=
  if n <=? 252 then 1
  else if n <=? 65535 then 3
  else if n <=? 4294967295 then 5
  else 9.

Record TxShape := {
  orchard_actions : Z;
  ironwood_actions : Z;
  sapling_spends : Z;
  sapling_outputs : Z;
  transparent_inputs : Z;
  transparent_outputs : Z;
}.

#[global] Instance TxShape_eq_dec : EqDecision TxShape.
Proof. solve_decision. Defined.

Definition TxShape_default : TxShape :=
  {| orchard_actions := 0; ironwood_actions := 0; sapling_spends := 0; sapling_outputs := 0;
     transparent_inputs := 0; transparent_outputs := 0 |}.

Definition orchard_family_actions (s : TxShape) : Z := orchard_actions s + ironwood_actions s.

(** One pass of the bundle loop in [estimate_bytes]. *)
Definition orchard_bundle_bytes (actions : Z) : Z :=
  compact_size_bytes actions +
  if 0 <? actions then
    let proof := ORCHARD_PROOF_BASE_BYTES + actions * ORCHARD_PROOF_PER_ACTION_BYTES in
    ORCHARD_BUNDLE_FIXED_BYTES + actions * ORCHARD_ACTION_BYTES
      + compact_size_bytes proof + proof
  else 0.

(** [estimate_bytes]. *)
Definition estimate_bytes (s : TxShape) : Z :=
  let bytes := HEADER_BYTES in
  let bytes := bytes +
    (compact_size_bytes (transparent_inputs s)
     + transparent_inputs s * TRANSPARENT_INPUT_BYTES
     + compact_size_bytes (transparent_outputs s)
     + transparent_outputs s * TRANSPARENT_OUTPUT_BYTES) in
  let bytes := bytes +
    (compact_size_bytes (sapling_spends s) + compact_size_bytes (sapling_outputs s)) in
  let bytes := bytes +
    (if (0 <? sapling_spends s) || (0 <? sapling_outputs s)
     then SAPLING_BUNDLE_FIXED_BYTES
          + sapling_spends s * SAPLING_SPEND_BYTES
          + sapling_outputs s * SAPLING_OUTPUT_BYTES
     else 0) in
  foldl (λ bytes actions, bytes + orchard_bundle_bytes actions) bytes
    [orchard_actions s; ironwood_actions s].

(** ** The shape of a proposal step

    [Step], the bundle padding and the bundle versions are the wallet crate's: a step is seen
    through the counts [step_shape] reads from it. *)

Inductive PoolType := PoolTransparent | PoolSapling | PoolOrchard | PoolIronwood.
#[global] Instance PoolType_eq_dec : EqDecision PoolType.
Proof. solve_decision. Defined.

Inductive ValuePool := VOrchard | VIronwood.

Section step_shape.
Context {padding version branch_id : Type}.
(** [BundlePadding::DEFAULT] and [bundle_version_for_branch]. *)
Context (padding_default : padding)
        (bundle_version_for_branch : branch_id → ValuePool → option version).

Record Step := {
  input_count_in_pool : PoolType → Z;
  output_count_in_pool : PoolType → Z;
  change_count_in_pool : PoolType → Z;
  orchard_action_count : padding → version → option Z;
  ironwood_action_count : padding → version → option Z;
  ironwood_bundle_padding : padding;
}.

Definition pool_actions (step : Step) (branch : branch_id)
    (pool : PoolType) (pad : padding) (value_pool : ValuePool) : Z :=
  let spends := input_count_in_pool step pool in
  let outputs := output_count_in_pool step pool + change_count_in_pool step pool in
  let ceiling := spends + outputs in
  if ceiling =? 0 then 0
  else
    let counted :=
      match bundle_version_for_branch branch value_pool with
      | Some version =>
          match value_pool with
          | VOrchard => orchard_action_count step pad version
          | VIronwood => ironwood_action_count step pad version
          end
      | None => None
      end in
    default ceiling counted.

Definition step_shape (step : Step) (branch : branch_id) : TxShape :=
  {| orchard_actions := pool_actions step branch PoolOrchard padding_default VOrchard;
     ironwood_actions :=
       pool_actions step branch PoolIronwood (ironwood_bundle_padding step) VIronwood;
     sapling_spends := input_count_in_pool step PoolSapling;
     sapling_outputs := output_count_in_pool step PoolSapling
                        + change_count_in_pool step PoolSapling;
     transparent_inputs := input_count_in_pool step PoolTransparent;
     transparent_outputs := output_count_in_pool step PoolTransparent
                            + change_count_in_pool step PoolTransparent |}.
End step_shape.

(** ** The largest count that fits *)

Definition set_ironwood_actions (s : TxShape) (n : Z) : TxShape :=
  {| orchard_actions := orchard_actions s; ironwood_actions := n;
     sapling_spends := sapling_spends s; sapling_outputs := sapling_outputs s;
     transparent_inputs := transparent_inputs s; transparent_outputs := transparent_outputs s |}.
Definition set_sapling_spends (s : TxShape) (n : Z) : TxShape :=
  {| orchard_actions := orchard_actions s; ironwood_actions := ironwood_actions s;
     sapling_spends := n; sapling_outputs := sapling_outputs s;
     transparent_inputs := transparent_inputs s; transparent_outputs := transparent_outputs s |}.
Definition set_transparent_inputs (s : TxShape) (n : Z) : TxShape :=
  {| orchard_actions := orchard_actions s; ironwood_actions := ironwood_actions s;
     sapling_spends := sapling_spends s; sapling_outputs := sapling_outputs s;
     transparent_inputs := n; transparent_outputs := transparent_outputs s |}.

(** The [while lo < hi] loop of [largest_fitting]; [None] when the fuel runs out. *)
Fixpoint bisect (fuel : nat) (fits : Z → bool) (lo hi : Z) : option Z :=
  if lo <? hi then
    match fuel with
    | O => None
    | S fuel' =>
        let mid := lo + div_ceil (hi - lo) 2 in
        if fits mid then bisect fuel' fits mid hi else bisect fuel' fits lo (mid - 1)
    end
  else Some lo.

(** The interval is a [usize] range and each pass halves it: 64 passes are enough. *)
Definition bisect_fuel : nat := 64.

(** [largest_fitting]. *)
Definition largest_fitting (max_bytes : Z) (shape : TxShape) (set : TxShape → Z → TxShape) :
    option Z :=
  if max_bytes =? 0 then Some usize_max
  else
    let fits n := estimate_bytes (set shape n) <=? max_bytes in
    if negb (fits 0) then Some 0 else bisect bisect_fuel fits 0 max_bytes.

Definition max_orchard_family_actions_alongside (max_bytes : Z) (alongside : TxShape) : option Z :=
  largest_fitting max_bytes alongside set_ironwood_actions.
Definition max_orchard_family_actions (max_bytes : Z) : option Z :=
  max_orchard_family_actions_alongside max_bytes TxShape_default.
Definition max_sapling_spends (max_bytes : Z) (alongside : TxShape) : option Z :=
  largest_fitting max_bytes alongside set_sapling_spends.
Definition max_transparent_inputs (max_bytes : Z) (alongside : TxShape) : option Z :=
  largest_fitting max_bytes alongside set_transparent_inputs.

(** ** ZIP 218 *)

Record Zip218Overflow := {
  overflow_cost : Z;
  overflow_cap : Z;
  overflow_what : string;
}.

(** The two caps are the protocol crate's constants. *)
Definition zip218_overflow (ZIP218_SAPLING_LIMIT ZIP218_SHIELDED_BUDGET : Z) (shape : TxShape) :
    option Zip218Overflow :=
  let sapling :=
    if 0 <? sapling_spends shape + sapling_outputs shape
    then sapling_spends shape + Z.max (sapling_outputs shape) SAPLING_MIN_OUTPUTS
    else 0 in
  if ZIP218_SAPLING_LIMIT <? sapling then
    Some {| overflow_cost := sapling; overflow_cap := ZIP218_SAPLING_LIMIT;
            overflow_what := "Sapling spends and outputs" |}
  else
    let cost := orchard_family_actions shape + sapling in
    if ZIP218_SHIELDED_BUDGET <? cost then
      Some {| overflow_cost := cost; overflow_cap := ZIP218_SHIELDED_BUDGET;
              overflow_what := "shielded actions, spends and outputs" |}
    else None.

(** ** Facts *)

(** A shape of [usize] counts. *)
Definition shape_ok (s : TxShape) : Prop :=
  0 ≤ orchard_actions s ∧ 0 ≤ ironwood_actions s ∧ 0 ≤ sapling_spends s ∧
  0 ≤ sapling_outputs s ∧ 0 ≤ transparent_inputs s ∧ 0 ≤ transparent_outputs s.

(** Componentwise order on shapes. *)
Definition shape_le (s s' : TxShape) : Prop :=
  orchard_actions s ≤ orchard_actions s' ∧ ironwood_actions s ≤ ironwood_actions s' ∧
  sapling_spends s ≤ sapling_spends s' ∧ sapling_outputs s ≤ sapling_outputs s' ∧
  transparent_inputs s ≤ transparent_inputs s' ∧ transparent_outputs s ≤ transparent_outputs s'.

Lemma compact_size_mono n m : n ≤ m → compact_size_bytes n ≤ compact_size_bytes m.
Proof.
  unfold compact_size_bytes. intros.
  repeat match goal with |- context [?a <=? ?b] => destruct (Z.leb_spec a b) end; lia.
Qed.

Lemma compact_size_bounds n : 1 ≤ compact_size_bytes n ≤ 9.
Proof. unfold compact_size_bytes. repeat case_match; lia. Qed.

Lemma orchard_bundle_mono n m :
  0 ≤ n ≤ m → orchard_bundle_bytes n ≤ orchard_bundle_bytes m.
Proof.
  intros Hnm. unfold orchard_bundle_bytes.
  pose proof (compact_size_mono n m ltac:(lia)).
  pose proof (compact_size_mono (ORCHARD_PROOF_BASE_BYTES + n * ORCHARD_PROOF_PER_ACTION_BYTES)
    (ORCHARD_PROOF_BASE_BYTES + m * ORCHARD_PROOF_PER_ACTION_BYTES)
    ltac:(unfold ORCHARD_PROOF_PER_ACTION_BYTES; lia)).
  pose proof (compact_size_bounds (ORCHARD_PROOF_BASE_BYTES + m * ORCHARD_PROOF_PER_ACTION_BYTES)).
  unfold ORCHARD_PROOF_BASE_BYTES, ORCHARD_PROOF_PER_ACTION_BYTES, ORCHARD_BUNDLE_FIXED_BYTES,
    ORCHARD_ACTION_BYTES in *.
  destruct (Z.ltb_spec 0 n), (Z.ltb_spec 0 m); lia.
Qed.

Lemma orchard_bundle_lower n : 0 ≤ n → n < orchard_bundle_bytes n.
Proof.
  intros Hn. unfold orchard_bundle_bytes. pose proof (compact_size_bounds n).
  pose proof (compact_size_bounds (ORCHARD_PROOF_BASE_BYTES + n * ORCHARD_PROOF_PER_ACTION_BYTES)).
  unfold ORCHARD_PROOF_BASE_BYTES, ORCHARD_PROOF_PER_ACTION_BYTES, ORCHARD_BUNDLE_FIXED_BYTES,
    ORCHARD_ACTION_BYTES in *.
  destruct (Z.ltb_spec 0 n); lia.
Qed.

Lemma orchard_bundle_upper n : 0 ≤ n → orchard_bundle_bytes n ≤ 2843 + 3156 * n.
Proof.
  intros Hn. unfold orchard_bundle_bytes. pose proof (compact_size_bounds n).
  pose proof (compact_size_bounds (ORCHARD_PROOF_BASE_BYTES + n * ORCHARD_PROOF_PER_ACTION_BYTES)).
  unfold ORCHARD_PROOF_BASE_BYTES, ORCHARD_PROOF_PER_ACTION_BYTES, ORCHARD_BUNDLE_FIXED_BYTES,
    ORCHARD_ACTION_BYTES in *.
  destruct (Z.ltb_spec 0 n); lia.
Qed.

(** The Sapling part of the estimate. *)
Definition sapling_bytes (spends outputs : Z) : Z :=
  compact_size_bytes spends + compact_size_bytes outputs +
  if (0 <? spends) || (0 <? outputs)
  then SAPLING_BUNDLE_FIXED_BYTES + spends * SAPLING_SPEND_BYTES + outputs * SAPLING_OUTPUT_BYTES
  else 0.

Lemma sapling_bytes_mono a b a' b' :
  0 ≤ a ≤ a' → 0 ≤ b ≤ b' → sapling_bytes a b ≤ sapling_bytes a' b'.
Proof.
  intros Ha Hb. unfold sapling_bytes.
  pose proof (compact_size_mono a a' ltac:(lia)). pose proof (compact_size_mono b b' ltac:(lia)).
  unfold SAPLING_BUNDLE_FIXED_BYTES, SAPLING_SPEND_BYTES, SAPLING_OUTPUT_BYTES.
  destruct (Z.ltb_spec 0 a), (Z.ltb_spec 0 b), (Z.ltb_spec 0 a'), (Z.ltb_spec 0 b'); simpl; lia.
Qed.

Lemma sapling_bytes_bounds a b :
  0 ≤ a → 0 ≤ b → a + b < sapling_bytes a b ≤ 122 + 352 * a + 948 * b.
Proof.
  intros Ha Hb. unfold sapling_bytes.
  pose proof (compact_size_bounds a). pose proof (compact_size_bounds b).
  unfold SAPLING_BUNDLE_FIXED_BYTES, SAPLING_SPEND_BYTES, SAPLING_OUTPUT_BYTES.
  destruct (Z.ltb_spec 0 a), (Z.ltb_spec 0 b); simpl; lia.
Qed.

Definition transparent_bytes (ins outs : Z) : Z :=
  compact_size_bytes ins + ins * TRANSPARENT_INPUT_BYTES
  + compact_size_bytes outs + outs * TRANSPARENT_OUTPUT_BYTES.

Lemma estimate_parts s :
  estimate_bytes s =
  HEADER_BYTES + transparent_bytes (transparent_inputs s) (transparent_outputs s)
  + sapling_bytes (sapling_spends s) (sapling_outputs s)
  + orchard_bundle_bytes (orchard_actions s) + orchard_bundle_bytes (ironwood_actions s).
Proof. unfold estimate_bytes, transparent_bytes, sapling_bytes. simpl. lia. Qed.

Lemma estimate_mono s s' :
  shape_ok s → shape_le s s' → estimate_bytes s ≤ estimate_bytes s'.
Proof.
  intros (? & ? & ? & ? & ? & ?) (? & ? & ? & ? & ? & ?). rewrite !estimate_parts.
  pose proof (orchard_bundle_mono (orchard_actions s) (orchard_actions s') ltac:(lia)).
  pose proof (orchard_bundle_mono (ironwood_actions s) (ironwood_actions s') ltac:(lia)).
  pose proof (sapling_bytes_mono (sapling_spends s) (sapling_outputs s)
    (sapling_spends s') (sapling_outputs s') ltac:(lia) ltac:(lia)).
  pose proof (compact_size_mono (transparent_inputs s) (transparent_inputs s') ltac:(lia)).
  pose proof (compact_size_mono (transparent_outputs s) (transparent_outputs s') ltac:(lia)).
  unfold transparent_bytes, TRANSPARENT_INPUT_BYTES, TRANSPARENT_OUTPUT_BYTES. lia.
Qed.

(** Every counted object costs at least a byte. *)
Lemma estimate_lower s :
  shape_ok s →
  orchard_family_actions s + sapling_spends s + sapling_outputs s
    + transparent_inputs s + transparent_outputs s < estimate_bytes s.
Proof.
  intros (? & ? & ? & ? & ? & ?). rewrite estimate_parts.
  pose proof (orchard_bundle_lower (orchard_actions s) ltac:(lia)).
  pose proof (orchard_bundle_lower (ironwood_actions s) ltac:(lia)).
  pose proof (sapling_bytes_bounds (sapling_spends s) (sapling_outputs s) ltac:(lia) ltac:(lia)).
  pose proof (compact_size_bounds (transparent_inputs s)).
  pose proof (compact_size_bounds (transparent_outputs s)).
  unfold orchard_family_actions, transparent_bytes, TRANSPARENT_INPUT_BYTES,
    TRANSPARENT_OUTPUT_BYTES, HEADER_BYTES. lia.
Qed.

Lemma div_ceil_half n : 0 < n → 1 ≤ div_ceil n 2 ≤ n ∧ n ≤ 2 * div_ceil n 2 ≤ n + 1.
Proof. intros. pose proof (div_ceil_spec n 2 ltac:(lia)). lia. Qed.

(** The loop, for a predicate that holds on an initial segment. *)
Lemma bisect_spec fuel fits lo hi :
  lo ≤ hi → hi - lo < 2 ^ Z.of_nat fuel → fits lo = true →
  (∀ n m, lo ≤ n ≤ m → fits m = true → fits n = true) →
  ∃ n, bisect fuel fits lo hi = Some n ∧ lo ≤ n ≤ hi ∧ fits n = true ∧
       (∀ m, n < m ≤ hi → fits m = false).
Proof.
  revert lo hi. induction fuel as [|fuel IH]; intros lo hi Hle Hfuel Hlo Hmono; cbn [bisect].
  - change (2 ^ Z.of_nat 0) with 1 in Hfuel. destruct (Z.ltb_spec lo hi); [lia|].
    exists lo. split_and!; [done|lia|lia|done|lia].
  - destruct (Z.ltb_spec lo hi) as [Hlt|Hge].
    2:{ exists lo. split_and!; [done|lia|lia|done|lia]. }
    pose proof (div_ceil_half (hi - lo) ltac:(lia)) as [? ?].
    rewrite Nat2Z.inj_succ, Z.pow_succ_r in Hfuel by lia.
    set (mid := lo + div_ceil (hi - lo) 2) in *.
    destruct (fits mid) eqn:Hmid.
    + destruct (IH mid hi) as (n & -> & ? & ? & Hn); [lia|lia|done| |].
      { intros a b ?. apply Hmono. lia. }
      exists n. split_and!; [done|lia|lia|done|done].
    + destruct (IH lo (mid - 1)) as (n & -> & ? & ? & Hn); [lia|lia|done|done|].
      exists n. split_and!; [done|lia|lia|done|].
      intros m Hm. destruct (decide (m ≤ mid - 1)); [apply Hn; lia|].
      apply not_true_iff_false. intros Hfm.
      rewrite (Hmono mid m) in Hmid; [done|lia|done].
Qed.

(** The interval of [largest_fitting]: from 0 to a [usize]. *)
Lemma bisect_usize fits hi :
  is_usize hi → fits 0 = true →
  (∀ n m, 0 ≤ n ≤ m → fits m = true → fits n = true) →
  ∃ n, bisect bisect_fuel fits 0 hi = Some n ∧ 0 ≤ n ≤ hi ∧ fits n = true ∧
       ∀ m, n < m ≤ hi → fits m = false.
Proof.
  intros [H0 Hhi] Hf Hmono. apply bisect_spec; [done| |done|].
  - change (2 ^ Z.of_nat bisect_fuel) with (usize_max + 1). lia.
  - intros n m Hnm. apply Hmono. lia.
Qed.

(** What [largest_fitting] needs of its setter: the count it sets costs at least a byte each
    and more of it never makes the transaction smaller. *)
Class CountSetter (set : TxShape → Z → TxShape) : Prop := {
  setter_ok : ∀ s n, shape_ok s → 0 ≤ n → shape_ok (set s n);
  setter_mono : ∀ s n m, n ≤ m → shape_le (set s n) (set s m);
  setter_counted : ∀ s n, shape_ok s → 0 ≤ n → n < estimate_bytes (set s n);
}.

Ltac solve_setter :=
  split;
  [ unfold shape_ok; simpl; intros; lia
  | unfold shape_le; simpl; intros; lia
  | intros s n Hs Hn;
    match goal with |- _ < estimate_bytes ?x =>
      assert (shape_ok x) as Hok by (unfold shape_ok in *; simpl; lia);
      pose proof (estimate_lower x Hok) as Hl end;
    unfold orchard_family_actions, shape_ok in *; simpl in *; lia ].

#[export] Instance set_ironwood_setter : CountSetter set_ironwood_actions.
Proof. solve_setter. Qed.
#[export] Instance set_sapling_setter : CountSetter set_sapling_spends.
Proof. solve_setter. Qed.
#[export] Instance set_transparent_setter : CountSetter set_transparent_inputs.
Proof. solve_setter. Qed.

(** ** Properties *)

(** The bisection terminates within its 64 passes and is optimal: for a ceiling other than
    0 the count returned is the largest whose estimate fits (0 when not even 0 fits), and for
    the disabled ceiling 0 it is [usize::MAX]. The ceiling is at most [2^48], the range in which
    [estimate_in_range] shows that no [usize] operation of the estimate wraps. *)
Theorem largest_fitting_optimal (set : TxShape → Z → TxShape) `{!CountSetter set}
    (max_bytes : Z) (shape : TxShape) :
  0 ≤ max_bytes ≤ 2 ^ 48 → shape_ok shape →
  ∃ n, largest_fitting max_bytes shape set = Some n ∧
    (max_bytes = 0 → n = usize_max) ∧
    (max_bytes ≠ 0 →
       (n = 0 ∨ estimate_bytes (set shape n) ≤ max_bytes) ∧
       ∀ m, n < m → max_bytes < estimate_bytes (set shape m)).
Proof.
  intros Hmax Hs. unfold largest_fitting.
  destruct (Z.eqb_spec max_bytes 0) as [->|Hne].
  { exists usize_max. split_and!; [reflexivity|reflexivity|intros Hz; by destruct Hz]. }
  assert (∀ n m, 0 ≤ n ≤ m → estimate_bytes (set shape n) ≤ estimate_bytes (set shape m)) as Hmono.
  { intros n m Hnm. apply estimate_mono.
    - apply (setter_ok shape n Hs). lia.
    - apply (setter_mono shape n m). lia. }
  destruct (Z.leb_spec (estimate_bytes (set shape 0)) max_bytes) as [H0|H0]; cbn [negb].
  - destruct (bisect_usize (λ n, estimate_bytes (set shape n) <=? max_bytes) max_bytes)
      as (n & E & Hn & Hfit & Hopt); [by destruct Hmax; split; [|etrans]|by apply Z.leb_le| |].
    { intros n m Hnm. rewrite !Z.leb_le. intros Hm. etrans; [by apply Hmono|done]. }
    exists n. split_and!; [done|done|]. intros _. split; [right; by apply Z.leb_le|].
    intros m Hm. destruct (decide (m ≤ max_bytes)).
    + apply Z.leb_gt, Hopt. lia.
    + pose proof (setter_counted shape m Hs ltac:(lia)). lia.
  - exists 0. split_and!; [done|done|]. intros _. split; [by left|].
    intros m Hm. specialize (Hmono 0 m ltac:(lia)). lia.
Qed.

Lemma largest_fitting_optimal_witness :
  0 ≤ 250000 ≤ 2 ^ 48 ∧ shape_ok TxShape_default ∧
  ∃ n, largest_fitting 250000 TxShape_default set_ironwood_actions = Some n ∧
    (250000 = 0 → n = usize_max) ∧
    (250000 ≠ 0 →
       (n = 0 ∨ estimate_bytes (set_ironwood_actions TxShape_default n) ≤ 250000) ∧
       ∀ m, n < m → 250000 < estimate_bytes (set_ironwood_actions TxShape_default m)).
Proof.
  assert (0 ≤ 250000 ≤ 2 ^ 48) as H1 by (by vm_compute).
  assert (shape_ok TxShape_default) as H2 by (unfold shape_ok; by vm_compute).
  split; [exact H1|]. split; [exact H2|].
  exact (largest_fitting_optimal set_ironwood_actions 250000 TxShape_default H1 H2).
Defined.

(** The estimate is an increasing function of every count, exceeds the number of objects
    counted, and stays within [usize] - no addition or product of the computation wraps - for
    every shape of counts below [2^48]. *)
Theorem estimate_in_range (s s' : TxShape) :
  shape_ok s → shape_le s s' → shape_le s' {| orchard_actions := 2 ^ 48; ironwood_actions := 2 ^ 48;
    sapling_spends := 2 ^ 48; sapling_outputs := 2 ^ 48; transparent_inputs := 2 ^ 48;
    transparent_outputs := 2 ^ 48 |} →
  HEADER_BYTES < estimate_bytes s ≤ estimate_bytes s' ∧ estimate_bytes s' ≤ usize_max.
Proof.
  intros Hs Hle Hmax. split.
  - split; [|by apply estimate_mono]. rewrite estimate_parts.
    destruct Hs as (? & ? & ? & ? & ? & ?).
    pose proof (orchard_bundle_lower (orchard_actions s) ltac:(lia)).
    pose proof (orchard_bundle_lower (ironwood_actions s) ltac:(lia)).
    pose proof (sapling_bytes_bounds (sapling_spends s) (sapling_outputs s) ltac:(lia) ltac:(lia)).
    pose proof (compact_size_bounds (transparent_inputs s)).
    pose proof (compact_size_bounds (transparent_outputs s)).
    unfold transparent_bytes, TRANSPARENT_INPUT_BYTES, TRANSPARENT_OUTPUT_BYTES. lia.
  - etrans; [apply estimate_mono; [|exact Hmax]|by vm_compute].
    unfold shape_ok, shape_le in *. lia.
Qed.

Lemma estimate_in_range_witness :
  let s := {| orchard_actions := 99; ironwood_actions := 2; sapling_spends := 0;
    sapling_outputs := 0; transparent_inputs := 3; transparent_outputs := 1 |} in
  HEADER_BYTES < estimate_bytes s ≤ estimate_bytes s ∧ estimate_bytes s ≤ usize_max.
Proof.
  intros s. apply estimate_in_range; unfold shape_ok, shape_le, s; simpl; lia.
Defined.

(** The ZIP 218 check refuses exactly the shapes over a cap: [None] means that the Sapling
    count, padded the way the builder pads a present bundle, and the shared shielded cost both
    fit; [Some] carries the cost that exceeds the cap it names, the Sapling cap first. *)
Theorem zip218_overflow_exact (sapling_limit budget : Z) (s : TxShape) :
  shape_ok s →
  let sapling := if decide (sapling_spends s + sapling_outputs s = 0) then 0
                 else sapling_spends s + Z.max (sapling_outputs s) SAPLING_MIN_OUTPUTS in
  match zip218_overflow sapling_limit budget s with
  | None => sapling ≤ sapling_limit ∧ orchard_family_actions s + sapling ≤ budget
  | Some o => overflow_cap o < overflow_cost o ∧
      ((overflow_cap o = sapling_limit ∧ overflow_cost o = sapling) ∨
       (sapling ≤ sapling_limit ∧ overflow_cap o = budget ∧
        overflow_cost o = orchard_family_actions s + sapling))
  end.
Proof.
  intros (? & ? & ? & ? & _). cbv zeta. unfold zip218_overflow.
  set (sap := if decide _ then 0 else _).
  replace (if 0 <? _ then _ else 0) with sap; cycle 1.
  { unfold sap. case_decide; destruct (Z.ltb_spec 0 (sapling_spends s + sapling_outputs s)); lia. }
  destruct (Z.ltb_spec sapling_limit sap); simpl; [lia|].
  destruct (Z.ltb_spec budget (orchard_family_actions s + sap)); simpl; lia.
Qed.

Lemma zip218_overflow_exact_witness :
  let s := {| orchard_actions := 0; ironwood_actions := 600; sapling_spends := 300;
    sapling_outputs := 1; transparent_inputs := 0; transparent_outputs := 0 |} in
  match zip218_overflow 400 800 s with
  | None => 302 ≤ 400 ∧ orchard_family_actions s + 302 ≤ 800
  | Some o => overflow_cap o < overflow_cost o ∧
      ((overflow_cap o = 400 ∧ overflow_cost o = 302) ∨
       (302 ≤ 400 ∧ overflow_cap o = 800 ∧ overflow_cost o = orchard_family_actions s + 302))
  end.
Proof.
  intros s. apply (zip218_overflow_exact 400 800 s). unfold shape_ok, s; simpl; lia.
Defined.

(** The transaction a node measured in the source's tests. *)
Example max_actions_250k : max_orchard_family_actions 250000 = Some 78.
Proof. reflexivity. Qed.
Example disabled_ceiling : max_transparent_inputs 0 TxShape_default = Some usize_max.
Proof. reflexivity. Qed.
