(* ===== verification/Pools.v ===== *)
(** * Pools: receivers and receiver sets ([src/src/pools.rs])

    The receivers a wallet's addresses carry, the tokens that name them, and the ordered
    de-duplicated set the configuration builds from a list of tokens. *)

From S2P Require Export Text.

(** ** Receivers *)

Inductive Receiver := Transparent | Sapling | Orchard.
#[global] Instance Receiver_eq_dec : EqDecision Receiver.
Proof. solve_decision. Defined.

(** [zcash_protocol::ShieldedPool], the variants the sources name. *)
Inductive ShieldedPool := SP_Sapling | SP_Orchard | SP_Ironwood.
#[global] Instance ShieldedPool_eq_dec : EqDecision ShieldedPool.
Proof. solve_decision. Defined.

Inductive ReceiverParseError :=
  | IronwoodToken
  | UnknownToken (token : string).
#[global] Instance ReceiverParseError_eq_dec : EqDecision ReceiverParseError.
Proof. solve_decision. Defined.

Definition SUPPORTED : list Receiver := [Sapling; Orchard].

Definition from_config_str (s : string) : result ReceiverParseError Receiver :=
  let token := trim s in
  let lower := to_ascii_lowercase token in
  if bool_decide (lower = "sapling") then Ok Sapling
  else if bool_decide (lower = "orchard") then Ok Orchard
  else if bool_decide (lower = "transparent") then Ok Transparent
  else if bool_decide (lower = "ironwood") then Err IronwoodToken
  else Err (UnknownToken token).

Definition as_str (r : Receiver) : string :=
  match r with
  | Transparent => "transparent"
  | Sapling => "sapling"
  | Orchard => "orchard"
  end.

Definition shielded_protocol (r : Receiver) : option ShieldedPool :=
  match r with
  | Transparent => None
  | Sapling => Some SP_Sapling
  | Orchard => Some SP_Orchard
  end.

Definition output_pool_code (r : Receiver) : Z :=
  match r with Transparent => 0 | Sapling => 2 | Orchard => 3 end.

Definition is_transparent (r : Receiver) : bool :=
  match r with Transparent => true | _ => false end.

(** [ReceiverParseError::received_at]. *)
Definition received_at (e : ReceiverParseError) : option Receiver :=
  match e with IronwoodToken => Some Orchard | UnknownToken _ => None end.

(** ** Errors as text

    The Debug form of a string ([{token:?}]) is an argument. *)

Definition supported_names : string := join ", " (as_str <$> SUPPORTED).

Definition parse_error_display (debug_str : string → string) (e : ReceiverParseError) : string :=
  match e with
  | IronwoodToken =>
      debug_str "ironwood" +:+ " is a value pool, not a receiver: ironwood notes are Orchard V3 "
      +:+ "notes received at ordinary " +:+ debug_str "orchard"
      +:+ " addresses, so there is no ironwood "
      +:+ "receiver to name here. Name " +:+ debug_str "orchard"
      +:+ " instead - on a NU6.3-active chain an "
      +:+ "orchard receiver is already holding ironwood notes. See the [pools] notes in "
      +:+ "zecd.example.toml"
  | UnknownToken token =>
      "unknown receiver " +:+ debug_str token +:+ "; receivers are " +:+ supported_names
      +:+ ", transparent"
  end.

(** ** Receiver sets *)

Record ReceiverSet := { pools : list Receiver }.
#[global] Instance ReceiverSet_eq_dec : EqDecision ReceiverSet.
Proof. solve_decision. Defined.

Inductive ReceiverSetError :=
  | TransparentNotShielded
  | NoShieldedPool
  | BadToken (e : ReceiverParseError).

Definition receiver_mem (r : Receiver) (l : list Receiver) : bool := bool_decide (r ∈ l).

(** [ReceiverSet::new]. *)
Definition receiver_set_new (given : list Receiver) : result ReceiverSetError ReceiverSet :=
  if existsb is_transparent given then Err TransparentNotShielded
  else
    let ordered := List.filter (λ p, receiver_mem p given) SUPPORTED in
    match ordered with
    | [] => Err NoShieldedPool
    | _ => Ok {| pools := ordered |}
    end.

(** The token loop of [ReceiverSet::parse]. *)
Fixpoint parse_tokens (tokens : list string) : result ReceiverSetError (list Receiver) :=
  match tokens with
  | [] => Ok []
  | t :: rest =>
      p ← map_err BadToken (from_config_str t);
      ps ← parse_tokens rest;
      Ok (p :: ps)
  end.

(** [ReceiverSet::parse]. *)
Definition receiver_set_parse (tokens : list string) : result ReceiverSetError ReceiverSet :=
  match tokens with
  | [] => Err NoShieldedPool
  | _ => ps ← parse_tokens tokens; receiver_set_new ps
  end.

Definition single (pool : Receiver) : ReceiverSet := {| pools := [pool] |}.
Definition set_contains (s : ReceiverSet) (pool : Receiver) : bool := receiver_mem pool (pools s).
Definition is_multi_receiver (s : ReceiverSet) : bool := (1 <? length (pools s))%nat.
Definition is_subset_of (s other : ReceiverSet) : bool := forallb (set_contains other) (pools s).
Definition names (s : ReceiverSet) : list string := as_str <$> pools s.
Definition display_names (s : ReceiverSet) : string := join ", " (as_str <$> pools s).

Inductive Requirement := Require_ | Omit_.

(** [UnifiedAddressRequest::unsafe_custom(orchard, sapling, p2pkh)]: the request's three
    requirements. *)
Record UnifiedAddressRequest := {
  req_orchard : Requirement;
  req_sapling : Requirement;
  req_p2pkh : Requirement;
}.

Definition to_unified_address_request (s : ReceiverSet) : UnifiedAddressRequest :=
  let req p := if set_contains s p then Require_ else Omit_ in
  {| req_orchard := req Orchard; req_sapling := req Sapling; req_p2pkh := Omit_ |}.

Definition transparent_extraction_request : UnifiedAddressRequest :=
  {| req_orchard := Require_; req_sapling := Omit_; req_p2pkh := Require_ |}.

(** [ReceiverSet::change_pool]. *)
Definition change_pool (s : ReceiverSet) : ShieldedPool :=
  if set_contains s Orchard then SP_Orchard
  else default SP_Orchard (head (pools s) ≫= shielded_protocol).

(** ** Well-formed sets *)

(** Ordered as [SUPPORTED], without duplicates, shielded only and not empty. *)
Definition wf_set (s : ReceiverSet) : Prop := pools s ≠ [] ∧ (pools s) `sublist_of` SUPPORTED.

Lemma wf_set_cases s :
  wf_set s ↔ s = single Sapling ∨ s = single Orchard ∨ s = {| pools := SUPPORTED |}.
Proof.
  destruct s as [l]. unfold wf_set, single, SUPPORTED. simpl. split.
  - intros [Hne Hsub]. apply sublist_cons_r in Hsub as [Hs|(l' & -> & Hs)].
    + apply sublist_cons_r in Hs as [Hs|(l'' & -> & Hs)]; apply sublist_nil_r in Hs; subst; auto.
      done.
    + apply sublist_cons_r in Hs as [Hs|(l'' & -> & Hs)]; apply sublist_nil_r in Hs; subst; auto.
  - intros [[= ->]|[[= ->]|[= ->]]]; (split; [done|]); repeat constructor.
Qed.

Lemma receiver_mem_spec r l : receiver_mem r l = true ↔ r ∈ l.
Proof. apply bool_decide_eq_true. Qed.

Lemma existsb_transparent l : existsb is_transparent l = true ↔ Transparent ∈ l.
Proof.
  rewrite existsb_exists. split.
  - intros ([] & Hin & ?); try done. by apply list_elem_of_In.
  - intros Hin. exists Transparent. split; [by apply list_elem_of_In|done].
Qed.

Lemma set_new_filter given s :
  receiver_set_new given = Ok s ↔
  Transparent ∉ given ∧ List.filter (λ p, receiver_mem p given) SUPPORTED ≠ [] ∧
  s = {| pools := List.filter (λ p, receiver_mem p given) SUPPORTED |}.
Proof.
  unfold receiver_set_new. destruct (existsb is_transparent given) eqn:He.
  - apply existsb_transparent in He. naive_solver.
  - assert (Transparent ∉ given) by (rewrite <- existsb_transparent; by rewrite He).
    case_match; naive_solver.
Qed.

(** ** Properties *)

(** [ReceiverSet::new] succeeds exactly on a non-empty list of shielded receivers; the set
    is then non-empty, in canonical order, without duplicates, has exactly the given members,
    and its change pool is a member's pool, Orchard whenever Orchard is a member. *)
Theorem receiver_set_new_spec (given : list Receiver) :
  match receiver_set_new given with
  | Ok s => given ≠ [] ∧ wf_set s ∧ (∀ r, set_contains s r = true ↔ r ∈ given) ∧
            (∃ r, r ∈ given ∧ shielded_protocol r = Some (change_pool s)) ∧
            (change_pool s = SP_Orchard ↔ Orchard ∈ given)
  | Err TransparentNotShielded => Transparent ∈ given
  | Err NoShieldedPool => given = []
  | Err (BadToken _) => False
  end.
Proof.
  unfold receiver_set_new. destruct (existsb is_transparent given) eqn:He.
  { by apply existsb_transparent. }
  assert (Transparent ∉ given) as Ht by (rewrite <- existsb_transparent; by rewrite He).
  unfold SUPPORTED. simpl. unfold receiver_mem.
  case_bool_decide as Hs; case_bool_decide as Ho; simpl.
  1-3: split; [intros ->; set_solver|].
  1-3: split; [apply wf_set_cases; unfold single, SUPPORTED; auto|].
  1-3: unfold set_contains, change_pool; simpl; split; [|by naive_solver].
  1-3: intros r; rewrite receiver_mem_spec; destruct r; set_solver.
  destruct given as [|[] ?]; set_solver.
Qed.

(** The names a set renders to parse back to the same set, so the configuration a running
    daemon prints is one it reads: for every well-formed set, [parse (names s) = Ok s]. *)
Theorem receiver_set_round_trip (s : ReceiverSet) :
  wf_set s → receiver_set_parse (names s) = Ok s.
Proof. intros [->|[->| ->]]%wf_set_cases; reflexivity. Qed.

Lemma receiver_set_round_trip_witness :
  receiver_set_parse (names {| pools := SUPPORTED |}) = Ok {| pools := SUPPORTED |}.
Proof. apply receiver_set_round_trip, wf_set_cases. auto. Defined.

Example tokens_trimmed : from_config_str " Orchard " = Ok Orchard. Proof. reflexivity. Qed.
Example ironwood_rejected : from_config_str "IRONWOOD" = Err IronwoodToken.
Proof. reflexivity. Qed.
