(* ===== verification/Network.v ===== *)
(** * Network: coins, networks and upgrade schedules ([src/src/coin.rs], [src/src/network.rs])

    The currency and chain a wallet serves, the network's name, the schedule of upgrades it
    follows and the protocol version derived from it, and the regtest chain built from the
    environment. *)

From S2P Require Export Text.

(** ** Networks *)

Inductive NetworkUpgrade :=
  | Overwinter | Sapling_ | Blossom | Heartwood | Canopy | Nu5 | Nu6 | Nu6_1 | Nu6_2 | Nu6_3 | Nu7.
#[global] Instance NetworkUpgrade_eq_dec : EqDecision NetworkUpgrade.
Proof. solve_decision. Defined.

(** [zcash_protocol::local_consensus::LocalNetwork], the struct [regtest] fills in. *)
Record LocalNetwork := {
  overwinter : option Z; sapling : option Z; blossom : option Z; heartwood : option Z;
  canopy : option Z; nu5 : option Z; nu6 : option Z; nu6_1 : option Z; nu6_2 : option Z;
  nu6_3 : option Z; nu7 : option Z;
}.
#[global] Instance LocalNetwork_eq_dec : EqDecision LocalNetwork.
Proof. solve_decision. Defined.

Inductive ZNetwork := Main | Test | Regtest (local : LocalNetwork).
#[global] Instance ZNetwork_eq_dec : EqDecision ZNetwork.
Proof. solve_decision. Defined.

Definition network_name (n : ZNetwork) : string :=
  match n with Main => "main" | Test => "test" | Regtest _ => "regtest" end.

Definition is_regtest (n : ZNetwork) : bool :=
  match n with Regtest _ => true | _ => false end.

(** ** The environment's regtest heights *)

(** The two panics of [regtest]. *)
Inductive RegtestPanic :=
  | BadHeight (var value upgrade : string)
  | Nu7WithoutNu63 (nu7 : Z) (nu63 : option Z).

(** [regtest_height_from_env], in an environment [env]. *)
Definition regtest_height_from_env (env : string → option string) (var upgrade : string) :
    result RegtestPanic (option Z) :=
  match env var with
  | None => Ok None
  | Some s =>
      match parse_unsigned u32_max (trim s) with
      | Some h => Ok (Some h)
      | None => Err (BadHeight var s upgrade)
      end
  end.

(** The guard of [regtest]: NU7 needs NU6.3 strictly below it. *)
Definition nu7_above_nu63 (nu63 nu7 : option Z) : result RegtestPanic () :=
  match nu7 with
  | None => Ok ()
  | Some h7 =>
      match nu63 with
      | Some h63 => if h63 <? h7 then Ok () else Err (Nu7WithoutNu63 h7 nu63)
      | None => Err (Nu7WithoutNu63 h7 nu63)
      end
  end.

(** [regtest]. *)
Definition regtest (env : string → option string) : result RegtestPanic ZNetwork :=
  let h := Some 1 in
  let nu62 := Some 4 in
  nu63 ← regtest_height_from_env env "ZECD_REGTEST_NU63_HEIGHT" "NU6.3";
  nu7 ← regtest_height_from_env env "ZECD_REGTEST_NU7_HEIGHT" "NU7";
  _ ← nu7_above_nu63 nu63 nu7;
  Ok (Regtest {| overwinter := h; sapling := h; blossom := h; heartwood := h; canopy := h;
                 nu5 := h; nu6 := h; nu6_1 := nu62; nu6_2 := nu62; nu6_3 := nu63; nu7 := nu7 |}).

(** [ZNetwork::parse]: [None] is the unsupported-network error, [Some] what the arm evaluates
    to (the regtest arm may panic). *)
Definition network_parse (env : string → option string) (s : string) :
    option (result RegtestPanic ZNetwork) :=
  let t := trim s in
  if bool_decide (t = "main") || bool_decide (t = "mainnet") then Some (Ok Main)
  else if bool_decide (t = "test") || bool_decide (t = "testnet") then Some (Ok Test)
  else if bool_decide (t = "regtest") then Some (regtest env)
  else None.

(** ** Upgrade schedules *)

Definition NETWORK_UPGRADES : list NetworkUpgrade :=
  [Overwinter; Sapling_; Blossom; Heartwood; Canopy; Nu5; Nu6; Nu6_1; Nu6_2; Nu6_3; Nu7].

Definition upgrade_name (nu : NetworkUpgrade) : string :=
  match nu with
  | Overwinter => "Overwinter" | Sapling_ => "Sapling" | Blossom => "Blossom"
  | Heartwood => "Heartwood" | Canopy => "Canopy" | Nu5 => "NU5" | Nu6 => "NU6"
  | Nu6_1 => "NU6.1" | Nu6_2 => "NU6.2" | Nu6_3 => "NU6.3" | Nu7 => "NU7"
  end.

Record ScheduledUpgrade := {
  su_upgrade : NetworkUpgrade;
  su_name : string;
  su_branch_id : Z;
  su_activation_height : Z;
}.

(** The match of [protocol_version]: the versions assigned on mainnet and on testnet. *)
Definition upgrade_versions (nu : NetworkUpgrade) : Z * Z :=
  match nu with
  | Nu7 => (170190, 170180)
  | Nu6_3 => (170160, 170160)
  | Nu6_2 => (170150, 170150)
  | Nu6_1 => (170140, 170130)
  | Nu6 => (170120, 170110)
  | Nu5 => (170100, 170050)
  | Canopy => (170013, 170012)
  | Heartwood => (170011, 170010)
  | Blossom => (170009, 170008)
  | Sapling_ => (170007, 170007)
  | Overwinter => (170005, 170003)
  end.

Definition NEWEST_FIRST : list NetworkUpgrade :=
  [Nu7; Nu6_3; Nu6_2; Nu6_1; Nu6; Nu5; Canopy; Heartwood; Blossom; Sapling_; Overwinter].

(** [Iterator::find]. *)
Fixpoint find_first {A} (p : A → bool) (l : list A) : option A :=
  match l with [] => None | x :: l' => if p x then Some x else find_first p l' end.


Section schedule.
(** The protocol crate's constants: the activation heights of the two public networks and of a
    local network, and the branch ids. *)
Context (main_activation test_activation : NetworkUpgrade → option Z)
        (local_activation : LocalNetwork → NetworkUpgrade → option Z)
        (branch_id : NetworkUpgrade → Z).

Definition activation_height (n : ZNetwork) (nu : NetworkUpgrade) : option Z :=
  match n with
  | Main => main_activation nu
  | Test => test_activation nu
  | Regtest local => local_activation local nu
  end.

Definition protocol_version (n : ZNetwork) : Z :=
  let mainnet := bool_decide (n = Main) in
  match find_first (λ nu, is_some (activation_height n nu)) NEWEST_FIRST with
  | None => 170002
  | Some newest =>
      let '(main, test) := upgrade_versions newest in
      if mainnet then main else test
  end.

Definition scheduled_upgrades (activation : NetworkUpgrade → option Z) : list ScheduledUpgrade :=
  omap (λ nu, h ← activation nu;
              Some {| su_upgrade := nu; su_name := upgrade_name nu;
                      su_branch_id := branch_id nu; su_activation_height := h |})
       NETWORK_UPGRADES.
End schedule.

(** ** Coins *)

Inductive Coin := Zcash.
#[global] Instance Coin_eq_dec : EqDecision Coin.
Proof. solve_decision. Defined.

Inductive CoinNetwork := CN_Zcash (env : ZNetwork).

Definition COIN_SUPPORTED : list Coin := [Zcash].
Definition coin_name (c : Coin) : string := match c with Zcash => "zcash" end.
Definition coin_display_name (c : Coin) : string := match c with Zcash => "Zcash" end.
Definition coin_data_dir (c : Coin) : string := match c with Zcash => "zec" end.
Definition coin_engine_dir (c : Coin) : string := match c with Zcash => "lrz" end.
Definition coin_parse (s : string) : option Coin :=
  find_first (λ c, bool_decide (coin_name c = s)) COIN_SUPPORTED.
Definition coin_supported_names : string := join ", " (coin_name <$> COIN_SUPPORTED).
Definition coin_chain (c : Coin) (env : ZNetwork) : CoinNetwork :=
  match c with Zcash => CN_Zcash env end.
Definition coin_of (n : CoinNetwork) : Coin := match n with CN_Zcash _ => Zcash end.

(** ** Facts *)

Lemma find_first_rev {A} (p : A → bool) (l : list A) :
  find_first p (reverse l) = last (List.filter p l).
Proof.
  induction l as [|x l IH] using rev_ind; [done|].
  rewrite reverse_snoc, List.filter_app. simpl. destruct (p x) eqn:E; simpl.
  - by rewrite last_snoc.
  - by rewrite app_nil_r.
Qed.

Lemma last_omap_filter {A B} (f : A → option B) (l : list A) :
  last (omap f l) = last (List.filter (λ x, is_some (f x)) l) ≫= f.
Proof.
  induction l as [|x l IH] using rev_ind; [done|].
  rewrite omap_app, List.filter_app. simpl. destruct (f x) as [y|] eqn:E; simpl.
  - by rewrite !last_snoc.
  - by rewrite !app_nil_r.
Qed.

Lemma filter_ext' {A} (p q : A → bool) (l : list A) :
  (∀ x, p x = q x) → List.filter p l = List.filter q l.
Proof. intros H. induction l as [|x l IH]; simpl; [done|]. by rewrite H, IH. Qed.

Lemma newest_first_rev : NEWEST_FIRST = reverse NETWORK_UPGRADES.
Proof. reflexivity. Qed.

(** ** Properties *)

(** The protocol version is that of the newest upgrade of the schedule: the last entry of
    [scheduled_upgrades] decides it, with the version assigned on mainnet or on the test networks,
    and a network that schedules none gets 170002. *)
Theorem protocol_version_newest main_act test_act local_act branch_id (n : ZNetwork) :
  let act := activation_height main_act test_act local_act in
  protocol_version main_act test_act local_act n =
    match last (scheduled_upgrades branch_id (act n)) with
    | None => 170002
    | Some u => (if decide (n = Main) then fst else snd) (upgrade_versions (su_upgrade u))
    end.
Proof.
  intros act. unfold protocol_version, scheduled_upgrades.
  rewrite newest_first_rev, find_first_rev, last_omap_filter.
  fold act. rewrite (filter_ext' (λ x, is_some (act n x ≫= _)) (λ nu, is_some (act n nu))); cycle 1.
  { intros x. by destruct (act n x). }
  destruct (last _) as [nu|] eqn:E; [|done].
  assert (nu ∈ List.filter (λ nu, is_some (act n nu)) NETWORK_UPGRADES) as Hin.
  { apply last_Some in E as [l' ->]. set_solver. }
  apply list_elem_of_In, filter_In in Hin as [_ Hs]. simpl.
  destruct (act n nu) as [h|]; [simpl|done].
  destruct (upgrade_versions nu). by destruct (decide (n = Main)) as [->|Hn];
    [|rewrite bool_decide_false by done].
Qed.

(** The heights a schedule lists, oldest upgrade first. *)
Definition schedule_heights (l : LocalNetwork) : list Z :=
  omap id [overwinter l; sapling l; blossom l; heartwood l; canopy l; nu5 l; nu6 l; nu6_1 l;
           nu6_2 l; nu6_3 l; nu7 l].

(** The regtest chain built from the environment activates its upgrades in order: when
    NU6.3 is not put below NU6.2's height 4, the scheduled heights never decrease from one
    upgrade to the next, and NU7, when set, is strictly above NU6.3. *)
Theorem regtest_in_order (env : string → option string) (l : LocalNetwork) :
  regtest env = Ok (Regtest l) →
  (∀ h, nu6_3 l = Some h → 4 ≤ h) →
  Sorted Z.le (schedule_heights l) ∧
  (∀ h7, nu7 l = Some h7 → ∃ h63, nu6_3 l = Some h63 ∧ h63 < h7).
Proof.
  unfold regtest. intros H H4.
  apply bind_Ok_inv in H as (nu63 & _ & H). apply bind_Ok_inv in H as (n7 & _ & H).
  apply bind_Ok_inv in H as ([] & Hg & H). injection H as <-. simpl in *.
  unfold schedule_heights. simpl. unfold nu7_above_nu63 in Hg.
  destruct n7 as [h7|], nu63 as [h63|]; simpl in *; try done.
  - destruct (Z.ltb_spec h63 h7); [|done]. specialize (H4 h63 eq_refl).
    split; [repeat constructor; lia|]. intros ? [= <-]. eauto.
  - specialize (H4 h63 eq_refl). split; [repeat constructor; lia|done].
  - split; [repeat constructor; lia|done].
Qed.

Definition harness_env (var : string) : option string :=
  if bool_decide (var = "ZECD_REGTEST_NU63_HEIGHT") then Some "8" else None.

Lemma regtest_in_order_witness :
  ∃ l, regtest harness_env = Ok (Regtest l) ∧ Sorted Z.le (schedule_heights l).
Proof.
  eexists. split; [vm_compute; reflexivity|].
  apply (regtest_in_order harness_env); [vm_compute; reflexivity|].
  simpl. intros h Hh. assert (h = 8) as -> by congruence. lia.
Defined.

Example coin_round_trip : coin_parse (coin_name Zcash) = Some Zcash. Proof. reflexivity. Qed.
