(* ===== verification/Pacing.v ===== *)
(** * Pacing: reconnect backoff, progress heartbeats, the batch cache, live commands

    [src/src/backoff.rs], [src/src/progress.rs], [src/src/sync/memcache.rs] and the in-flight
    command tracker of [src/src/state.rs]. Durations and instants are nanosecond counts. *)

From S2P Require Export Text.

(** ** Exponential backoff *)

Module Backoff.

(** [Duration::MAX]: [u64::MAX] seconds and 999,999,999 nanoseconds. *)
Definition duration_max : Z := u64_max * 1000000000 + 999999999.

(** [Duration::checked_mul]. *)
Definition checked_mul (d n : Z) : option Z := if d * n <=? duration_max then Some (d * n) else None.

Record t := mk { base : Z; max : Z; attempt : Z }.

Definition new (base max : Z) : t := {| base := base; max := max; attempt := 0 |}.

Definition cap (b : t) : Z :=
  match checked_mul (base b) (Z.shiftl 1 (Z.min (attempt b) 31)) with
  | Some d => Z.min d (max b)
  | None => max b
  end.

(** [as_millis() as u64]. *)
Definition cap_millis (b : t) : Z := wrap_u64 (cap b / 1000000).

(** [next_delay], for the draw [r] of the generator from [0..=cap_millis]. *)
Definition next_delay (b : t) (r : Z) : t * Z :=
  ({| base := base b; max := max b; attempt := Z.min (attempt b + 1) u32_max |}, r * 1000000).

Definition reset (b : t) : t := {| base := base b; max := max b; attempt := 0 |}.

(** What a caller does with it: a failed connection waits, a successful one resets. *)
Inductive event := Failed (r : Z) | Connected.

(** The delays of a sequence of events; each draw is within the range it is made from. *)
Inductive runs : t → list event → list Z → t → Prop :=
  | runs_nil b : runs b [] [] b
  | runs_failed b r b' ds es b'' d :
      0 ≤ r ≤ cap_millis b → next_delay b r = (b', d) → runs b' es ds b'' →
      runs b (Failed r :: es) (d :: ds) b''
  | runs_connected b es ds b'' :
      runs (reset b) es ds b'' → runs b (Connected :: es) ds b''.

(** The failures since the last connection. *)
Fixpoint consecutive (n : Z) (es : list event) : Z :=
  match es with
  | [] => n
  | Failed _ :: es => consecutive (n + 1) es
  | Connected :: es => consecutive 0 es
  end.

Definition wf (b : t) : Prop :=
  0 ≤ base b ∧ 0 ≤ max b ≤ duration_max ∧ 0 ≤ attempt b ≤ u32_max.

Lemma pow31 n : 0 ≤ n ≤ 31 → 1 ≤ 2 ^ n ≤ 2 ^ 31.
Proof. intros. split; [apply Z.pow_le_mono_r with (b := 0)|apply Z.pow_le_mono_r]; lia. Qed.

Lemma cap_value b : wf b → cap b = Z.min (base b * 2 ^ Z.min (attempt b) 31) (max b).
Proof.
  intros (Hb & Hm & Ha). unfold cap, checked_mul.
  rewrite Z.shiftl_mul_pow2, Z.mul_1_l by lia.
  destruct (Z.leb_spec (base b * 2 ^ Z.min (attempt b) 31) duration_max); lia.
Qed.

Lemma cap_range b : wf b → 0 ≤ cap b ≤ max b.
Proof.
  intros Hwf. rewrite cap_value by done. destruct Hwf as (? & ? & ?).
  pose proof (pow31 (Z.min (attempt b) 31) ltac:(lia)). nia.
Qed.

Lemma cap_millis_le b : wf b → 0 ≤ cap_millis b ∧ cap_millis b * 1000000 ≤ cap b.
Proof.
  intros Hwf. pose proof (cap_range b Hwf). unfold cap_millis, wrap_u64.
  pose proof (Z.mod_pos_bound (cap b / 1000000) (2 ^ 64) ltac:(lia)).
  pose proof (Z.mod_le (cap b / 1000000) (2 ^ 64) ltac:(apply Z.div_pos; lia) ltac:(lia)).
  pose proof (Z.mul_div_le (cap b) 1000000 ltac:(lia)). lia.
Qed.

Lemma wf_step b r : wf b → wf (next_delay b r).1.
Proof. unfold wf. simpl. intros. width. Qed.
Lemma wf_reset b : wf b → wf (reset b).
Proof. unfold wf. simpl. intros. width. Qed.

(** Backoff over any history: whatever the jitter draws, every delay is between 0 and the
    configured maximum, and the ceiling for the next one is [min (base * 2^n, max)] where [n]
    is the number of failures since the last connection, capped at 31. *)
Theorem backoff_history (base0 max0 : Z) (es : list event) (ds : list Z) (b : t) :
  0 ≤ base0 → 0 ≤ max0 ≤ duration_max → Z.of_nat (length es) ≤ u32_max →
  runs (new base0 max0) es ds b →
  (∀ d, d ∈ ds → 0 ≤ d ≤ max0) ∧
  cap b = Z.min (base0 * 2 ^ Z.min (consecutive 0 es) 31) max0.
Proof.
  intros Hb Hm Hlen Hruns.
  assert (∀ b0, runs b0 es ds b → wf b0 → base b0 = base0 → max b0 = max0 →
            attempt b0 + Z.of_nat (length es) ≤ u32_max →
            (∀ d, d ∈ ds → 0 ≤ d ≤ max0) ∧ wf b ∧ base b = base0 ∧ max b = max0 ∧
            attempt b = consecutive (attempt b0) es) as Hgen.
  { clear Hlen Hruns. intros b0 Hruns. induction Hruns as
      [b|b r b' ds es b'' d Hr Hn _ IH|b es ds b'' _ IH]; intros Hwf Eb Em Hl.
    - split; [set_solver|done].
    - pose proof (wf_step b r Hwf) as Hwf'. rewrite Hn in Hwf'.
      unfold next_delay in Hn. injection Hn as <- <-. cbn [fst] in *.
      cbn [length] in Hl. destruct IH as (Hds & H1 & H2 & H3 & H4); [done|done|done| |].
      { simpl. width. }
      split; [|split_and!; [done|done|done|]].
      + intros d [->|Hd]%elem_of_cons; [|by apply Hds].
        pose proof (cap_millis_le b Hwf). pose proof (cap_range b Hwf). lia.
      + rewrite H4. simpl. f_equal. destruct Hwf as (_ & _ & ?). width.
    - destruct IH as (Hds & H1 & H2 & H3 & H4); [by apply wf_reset|done|done| |done].
      cbn [length] in Hl. simpl. destruct Hwf as (_ & _ & ?). lia. }
  destruct (Hgen (new base0 max0) Hruns) as (Hds & Hwf & E1 & E2 & E3).
  - unfold wf. simpl. width.
  - done.
  - done.
  - simpl. lia.
  - split; [done|]. rewrite cap_value, E1, E2, E3 by done. done.
Qed.

Lemma backoff_history_witness :
  (∀ d, d ∈ [500000000; 2000000000] → 0 ≤ d ≤ 60000000000) ∧
  cap {| base := 1000000000; max := 60000000000; attempt := 2 |} = 4000000000.
Proof.
  apply (backoff_history 1000000000 60000000000 [Failed 500; Failed 2000] [500000000; 2000000000]
    {| base := 1000000000; max := 60000000000; attempt := 2 |}).
  - lia.
  - vm_compute. split; discriminate.
  - vm_compute. discriminate.
  - eapply runs_failed; [vm_compute; split; discriminate|reflexivity|].
    eapply runs_failed; [vm_compute; split; discriminate|reflexivity|]. apply runs_nil.
Defined.

End Backoff.

(** ** Progress heartbeats *)

Module Progress.

Record ProgressThrottle := {
  interval : Z;
  started : Z;
  last_report : Z;
  last_count : Z;
}.

(** The stats of a due heartbeat. The float fields of the source are quotients of these:
    [window_secs] and [elapsed_secs] are the two durations in seconds, and [rate] is [did] per
    second of [window], or 0 when [window] is 0. *)
Record ProgressWindow := { did : Z; window : Z; elapsed : Z }.

Definition new_at (interval initial_count now : Z) : ProgressThrottle :=
  {| interval := interval; started := now; last_report := now; last_count := initial_count |}.

Definition tick_at (p : ProgressThrottle) (count now : Z) : ProgressThrottle * option ProgressWindow :=
  let w := sat_sub now (last_report p) in
  if w <? interval p then (p, None)
  else
    ({| interval := interval p; started := started p; last_report := now; last_count := count |},
     Some {| did := sat_sub count (last_count p); window := w;
             elapsed := sat_sub now (started p) |}).

(** The reports of a sequence of ticks [(count, now)]. *)
Fixpoint ticks (p : ProgressThrottle) (cs : list (Z * Z)) : ProgressThrottle * list ProgressWindow :=
  match cs with
  | [] => (p, [])
  | (count, now) :: cs =>
      let '(p, w) := tick_at p count now in
      let '(p, ws) := ticks p cs in
      (p, match w with Some w => w :: ws | None => ws end)
  end.

Definition sum_did (ws : list ProgressWindow) : Z := foldr (λ w acc, did w + acc) 0 ws.
Definition sum_window (ws : list ProgressWindow) : Z := foldr (λ w acc, window w + acc) 0 ws.

Lemma sorted_skip a b l : Sorted Z.le (a :: b :: l) → Sorted Z.le (a :: l).
Proof.
  intros H. apply Sorted_inv in H as [H Hab]. apply HdRel_inv in Hab.
  apply Sorted_inv in H as [Hl Hb]. constructor; [done|].
  destruct l; constructor. apply HdRel_inv in Hb. lia.
Qed.

(** Heartbeats lose and repeat nothing: over any ticks with growing counts and clocks, the
    work reported by the windows is exactly the work done up to the last report, their lengths
    add up to the time covered, and no two reports are closer than the interval. *)
Theorem ticks_accounting p cs p' ws :
  Sorted Z.le (last_count p :: (fst <$> cs)) →
  Sorted Z.le (last_report p :: (snd <$> cs)) →
  ticks p cs = (p', ws) →
  sum_did ws = last_count p' - last_count p ∧
  sum_window ws = last_report p' - last_report p ∧
  (∀ w, w ∈ ws → interval p ≤ window w).
Proof.
  revert p ws. induction cs as [|[c t] cs IH]; intros p ws Hc Ht; simpl.
  { intros [= -> <-]. simpl. split_and!; [lia|lia|set_solver]. }
  simpl in Hc, Ht. unfold tick_at.
  destruct (Z.ltb_spec (sat_sub t (last_report p)) (interval p)) as [Hw|Hw].
  - destruct (ticks p cs) as [p2 ws2] eqn:E. intros [= <- <-].
    by apply IH; [eapply sorted_skip|eapply sorted_skip|].
  - destruct (ticks _ cs) as [p2 ws2] eqn:E. intros [= <- <-].
    apply Sorted_inv in Hc as [Hc Hc0%HdRel_inv]. apply Sorted_inv in Ht as [Ht Ht0%HdRel_inv].
    apply IH in E as (H1 & H2 & H3); [|exact Hc|exact Ht]. simpl in *.
    split_and!; [width|width|]. intros w [->|Hin]%elem_of_cons; [done|by apply H3].
Qed.

Lemma ticks_accounting_witness :
  let p := new_at 30 1000 0 in
  ticks p [(1005, 10); (1010, 30); (1010, 40); (1050, 65)] =
    ({| interval := 30; started := 0; last_report := 65; last_count := 1050 |},
     [{| did := 10; window := 30; elapsed := 30 |}; {| did := 40; window := 35; elapsed := 65 |}]) ∧
  sum_did [{| did := 10; window := 30; elapsed := 30 |}; {| did := 40; window := 35; elapsed := 65 |}]
    = 1050 - 1000.
Proof.
  intros p. split; [reflexivity|].
  apply (ticks_accounting p [(1005, 10); (1010, 30); (1010, 40); (1050, 65)]
    {| interval := 30; started := 0; last_report := 65; last_count := 1050 |}).
  - repeat constructor; simpl; lia.
  - repeat constructor; simpl; lia.
  - reflexivity.
Defined.

End Progress.

(** ** The batch being scanned *)

Module MemCache.
Section memcache.
(** A compact block and its decoder are the protocol crates'. *)
Context {encoded block : Type} (decode : encoded → option block).

Record MemBlockCache := { blocks : list encoded; heights : list Z }.

Definition empty_cache : MemBlockCache := {| blocks := []; heights := [] |}.

(** [push]; [None] is the ascending-order assertion. *)
Definition push (c : MemBlockCache) (height : Z) (e : encoded) : option MemBlockCache :=
  match last (heights c) with
  | Some l =>
      if l <? height then Some {| blocks := blocks c ++ [e]; heights := heights c ++ [height] |}
      else None
  | None => Some {| blocks := blocks c ++ [e]; heights := heights c ++ [height] |}
  end.

Definition cache_len (c : MemBlockCache) : nat := length (blocks c).
Definition last_height (c : MemBlockCache) : option Z := last (heights c).
Definition byte_len (size : encoded → Z) (c : MemBlockCache) : Z := foldl (λ acc e, wrap_u64 (acc + size e)) 0 (blocks c).

(** [slice::partition_point] on a slice the predicate partitions. *)
Fixpoint partition_point (p : Z → bool) (l : list Z) : nat :=
  match l with [] => O | x :: l' => if p x then S (partition_point p l') else O end.

(** The serving loop: the callback's state and its error, or [None] for the decode panic. *)
Fixpoint serve {S E} (with_block : S → block → result E S) (st : S) (l : list encoded) :
    option (result E S) :=
  match l with
  | [] => Some (Ok st)
  | e :: l' =>
      match decode e with
      | None => None
      | Some b => match with_block st b with
                  | Ok st' => serve with_block st' l'
                  | Err err => Some (Err err)
                  end
      end
  end.

(** [with_blocks]. *)
Definition with_blocks {S E} (c : MemBlockCache) (from_height : option Z) (limit : option nat)
    (with_block : S → block → result E S) (st : S) : option (result E S) :=
  let from := default 0 from_height in
  let start := partition_point (λ h, h <? from) (heights c) in
  let served := drop start (blocks c) in
  let served := match limit with Some n => take n served | None => served end in
  serve with_block st served.

(** The cache a download builds: pushes in order, [None] when one is refused. *)
Definition push_all (c : MemBlockCache) (l : list (Z * encoded)) : option MemBlockCache :=
  foldl (λ oc he, oc ≫= λ c, push c he.1 he.2) (Some c) l.

Lemma push_all_none l : foldl (λ oc he, oc ≫= λ c, push c he.1 he.2) None l = None.
Proof. by induction l. Qed.

Lemma push_all_app c l c' :
  push_all c l = Some c' →
  blocks c' = blocks c ++ l.*2 ∧ heights c' = heights c ++ l.*1.
Proof.
  revert c. induction l as [|[h e] l IH]; intros c; simpl.
  - intros [= ->]. by rewrite !app_nil_r.
  - unfold push_all. simpl. destruct (push c h e) as [c1|] eqn:E; [|by rewrite push_all_none].
    intros H. apply IH in H as [-> ->].
    assert (blocks c1 = blocks c ++ [e] ∧ heights c1 = heights c ++ [h]) as [-> ->].
    { unfold push in E. repeat case_match; simplify_eq; done. }
    by rewrite <- !(assoc_L (++)).
Qed.

Lemma push_ok c h e :
  (∀ x, last (heights c) = Some x → x < h) →
  push c h e = Some {| blocks := blocks c ++ [e]; heights := heights c ++ [h] |}.
Proof.
  unfold push. destruct (last (heights c)) as [l|]; [|done]. intros H.
  specialize (H l eq_refl). destruct (Z.ltb_spec l h); [done|lia].
Qed.

Lemma push_all_ok l c :
  StronglySorted Z.lt l.*1 → (∀ x h, last (heights c) = Some x → h ∈ l.*1 → x < h) →
  ∃ c', push_all c l = Some c'.
Proof.
  revert c. induction l as [|[h e] l IH]; intros c Hs Hlast; [by eexists|].
  simpl in *. apply StronglySorted_inv in Hs as [Hs Hall]. unfold push_all. simpl.
  rewrite push_ok by (intros x Hx; eapply Hlast; [done|set_solver]).
  apply IH; [done|]. simpl. intros x k. rewrite last_snoc. intros [= <-] Hk.
  rewrite Forall_forall in Hall. by apply Hall.
Qed.

Lemma partition_point_filter from (l : list (Z * encoded)) :
  StronglySorted Z.lt l.*1 →
  drop (partition_point (λ h, h <? from) l.*1) l.*2 =
  (List.filter (λ he, from <=? he.1) l).*2.
Proof.
  induction l as [|[h e] l IH]; intros Hs; [done|]. simpl in *.
  apply StronglySorted_inv in Hs as [Hs Hall].
  destruct (Z.ltb_spec h from), (Z.leb_spec from h); try lia; simpl; [by apply IH|].
  f_equal. clear IH Hs. induction l as [|[h' e'] l IH]; [done|]. simpl in *.
  apply Forall_cons in Hall as [? Hall]. destruct (Z.leb_spec from h'); [|lia].
  simpl. f_equal. by apply IH.
Qed.

Definition collect (st : list block) (b : block) : result Empty_set (list block) := Ok (st ++ [b]).

Lemma serve_collect l bs st :
  mapM decode l = Some bs → serve collect st l = Some (Ok (st ++ bs)).
Proof.
  revert bs st. induction l as [|e l IH]; intros bs st; simpl.
  - intros [= <-]. by rewrite app_nil_r.
  - destruct (decode e) as [b|]; [|done]. simpl. destruct (mapM decode l) as [bs'|]; [|done].
    simpl. intros [= <-]. rewrite (IH bs') by done. by rewrite <- (assoc_L (++)).
Qed.

(** The contract the scanner relies on: blocks downloaded in ascending order are all
    accepted, and serving them calls back exactly the blocks at or above the requested height,
    in ascending order, up to the limit - on every pass. *)
Theorem serves_in_order (l : list (Z * encoded)) (from : option Z) (limit : option nat)
    (bs : list block) :
  StronglySorted Z.lt l.*1 →
  mapM decode ((λ s, match limit with Some n => take n s | None => s end)
                 (List.filter (λ he, default 0 from <=? he.1) l).*2) = Some bs →
  ∃ c, push_all empty_cache l = Some c ∧ last_height c = last l.*1 ∧
       with_blocks c from limit collect [] = Some (Ok bs).
Proof.
  intros Hs Hd. destruct (push_all_ok l empty_cache Hs) as [c Hc]; [done|].
  exists c. split; [done|]. destruct (push_all_app _ _ _ Hc) as [Eb Eh]. simpl in *.
  split; [by unfold last_height; rewrite Eh|].
  unfold with_blocks. rewrite Eb, Eh, partition_point_filter by done.
  rewrite (serve_collect _ bs); [done|]. by destruct limit.
Qed.

End memcache.

Lemma serves_in_order_witness :
  ∃ c, push_all empty_cache [(100, 1); (101, 2); (103, 3); (104, 4)] = Some c ∧
       last_height c = Some 104 ∧
       with_blocks (λ e, Some (e * 10)) c (Some 101) (Some 2%nat) collect [] = Some (Ok [20; 30]).
Proof.
  apply (serves_in_order (λ e, Some (e * 10)) [(100, 1); (101, 2); (103, 3); (104, 4)]).
  - repeat constructor; lia.
  - reflexivity.
Defined.
End MemCache.

(** ** In-flight commands ([ActiveCommands]) *)

Module Active.

Record ActiveCommands := { inner : gmap Z (string * Z); next_id : Z }.

Definition initial : ActiveCommands := {| inner := ∅; next_id := 0 |}.

(** [begin], at the instant [now]: the guard is its id. *)
Definition begin (a : ActiveCommands) (method : string) (now : Z) : ActiveCommands * Z :=
  let id := next_id a in
  ({| inner := <[id := (method, now)]> (inner a); next_id := wrap_u64 (id + 1) |}, id).

(** Dropping the guard. *)
Definition drop_guard (a : ActiveCommands) (id : Z) : ActiveCommands :=
  {| inner := delete id (inner a); next_id := next_id a |}.

(** [snapshot], at the instant [now], in the map's own order. *)
Definition snapshot (a : ActiveCommands) (now : Z) : list (string * Z) :=
  (λ '(_, (name, start)), (name, (now - start) / 1000)) <$> map_to_list (inner a).

Inductive command_event := Begin (method : string) (now : Z) | Drop (id : Z).

(** Any interleaving of begins and drops of guards still held; [live] lists the guards. *)
Inductive reach : list command_event → ActiveCommands → gmap Z (string * Z) → Prop :=
  | reach_nil : reach [] initial ∅
  | reach_begin es a live method now a' id :
      reach es a live → begin a method now = (a', id) →
      reach (es ++ [Begin method now]) a' (<[id := (method, now)]> live)
  | reach_drop es a live id :
      reach es a live → is_Some (live !! id) →
      reach (es ++ [Drop id]) (drop_guard a id) (delete id live).

Definition begins (es : list command_event) : Z :=
  Z.of_nat (length (List.filter (λ e, match e with Begin _ _ => true | Drop _ => false end) es)).

Lemma begins_begin es m now : begins (es ++ [Begin m now]) = begins es + 1.
Proof. unfold begins. rewrite List.filter_app, length_app. simpl. lia. Qed.
Lemma begins_drop es id : begins (es ++ [Drop id]) = begins es.
Proof. unfold begins. rewrite List.filter_app, length_app. simpl. lia. Qed.
Lemma begins_nonneg es : 0 ≤ begins es.
Proof. unfold begins. lia. Qed.

(** The tracker holds exactly the commands whose guards are alive, each under an id of its
    own: over any interleaving of up to [u64::MAX] begins, the map equals the live guards, no
    new command takes a live id, and a snapshot names as many commands as there are guards. *)
Theorem active_exact es a live :
  reach es a live → begins es ≤ u64_max →
  inner a = live ∧ next_id a = begins es ∧
  (∀ id, is_Some (live !! id) → 0 ≤ id < next_id a) ∧
  (∀ now, length (snapshot a now) = size live).
Proof.
  induction 1 as [|es a live m now a' id Hr IH Hb|es a live id Hr IH Hin]; intros Hlen.
  - split_and!; [done|done|intros id [? ?]; by rewrite lookup_empty in *|done].
  - rewrite begins_begin in *. pose proof (begins_nonneg es).
    destruct IH as (E1 & E2 & E3 & _); [lia|]. unfold begin in Hb. injection Hb as <- <-.
    simpl. rewrite E1.
    assert (wrap_u64 (next_id a + 1) = next_id a + 1) as Ew by (apply wrap_u64_small; width).
    rewrite Ew. split_and!; [done|lia| |].
    + intros i. rewrite lookup_insert_is_Some. intros [<-|[_ Hi]]; [lia|]. specialize (E3 i Hi). lia.
    + intros t. unfold snapshot. simpl. by rewrite length_fmap, ?E1, length_map_to_list.
  - rewrite begins_drop in *. destruct IH as (E1 & E2 & E3 & _); [done|]. simpl. rewrite E1.
    split_and!; [done|lia| |].
    + intros i [? Hi]. apply lookup_delete_Some in Hi as [_ Hi]. by apply E3.
    + intros t. unfold snapshot. simpl. by rewrite length_fmap, ?E1, length_map_to_list.
Qed.

Lemma active_exact_witness :
  let es := [Begin "getinfo" 5; Begin "z_sendmany" 7; Drop 0] in
  let a := drop_guard (begin (begin initial "getinfo" 5).1 "z_sendmany" 7).1 0 in
  inner a = delete 0 (<[1 := ("z_sendmany", 7)]> (<[0 := ("getinfo", 5)]> ∅)) ∧
  next_id a = begins es.
Proof.
  intros es a.
  assert (reach es a (delete 0 (<[1 := ("z_sendmany", 7)]> (<[0 := ("getinfo", 5)]> ∅)))) as Hr.
  { apply (reach_drop [Begin "getinfo" 5; Begin "z_sendmany" 7] _ _ 0); [|by eexists].
    apply (reach_begin [Begin "getinfo" 5] (begin initial "getinfo" 5).1 _ "z_sendmany" 7);
      [|reflexivity].
    apply (reach_begin [] initial ∅ "getinfo" 5); [constructor|reflexivity]. }
  destruct (active_exact es a _ Hr) as (H1 & H2 & _); [by vm_compute|]. by split.
Defined.

End Active.
