(* ===== verification/Operations.v ===== *)
(** * Operations: the registry of asynchronous operations ([src/src/operations.rs])

    The [z_*] operations: their lifecycle, driven by a detached task; the per-wallet in-flight
    cap and the cap on retained operations with its eviction; the tracking calls. Instants are
    nanoseconds since the Unix epoch. *)

From S2P Require Export Json.

(** ** Limits and states *)

Definition MAX_OPERATIONS : nat := 1024.
Definition MAX_INFLIGHT_OPERATIONS_PER_WALLET : nat := 16.

Inductive OperationState := Ready | Executing | Cancelled | Failed | Success.
#[global] Instance OperationState_eq_dec : EqDecision OperationState.
Proof. solve_decision. Defined.

Definition state_str (s : OperationState) : string :=
  match s with
  | Ready => "queued" | Executing => "executing" | Cancelled => "cancelled"
  | Failed => "failed" | Success => "success"
  end.

Definition is_finished (s : OperationState) : bool :=
  match s with Cancelled | Failed | Success => true | _ => false end.

(** [OperationId::from_str]; [uuid_try_parse] is the uuid crate's. *)
Definition opid_from_str (uuid_try_parse : string → bool) (value : string) : rpc string :=
  uuid ← ok_or (strip_prefix "opid-" value) (RpcError.invalid_parameter "Invalid operation ID");
  if uuid_try_parse uuid then Ok value
  else Err (RpcError.invalid_parameter "Invalid operation ID").

(** ** One operation *)

Record ContextInfo := { ctx_method : string; ctx_params : json }.

Record OperationData := {
  od_state : OperationState;
  start_time : option Z;
  end_time : option Z;
  od_result : option (rpc json);
}.

(** Where the detached task is: before its first lock, awaiting the future, between storing
    the result and publishing, or done. *)
Inductive Task := Spawned | Awaiting | Publishing | Ended.

Record AsyncOperation := {
  operation_id : string;
  context : option ContextInfo;
  creation_time : Z;
  data : OperationData;
  finished_tx : bool;
  task : Task;
}.

(** [AsyncOperation::new]: the task is spawned but has not run yet. *)
Definition op_new (id : string) (ctx : option ContextInfo) (now : Z) : AsyncOperation :=
  {| operation_id := id; context := ctx; creation_time := now;
     data := {| od_state := Ready; start_time := None; end_time := None; od_result := None |};
     finished_tx := false; task := Spawned |}.

Definition with_data (op : AsyncOperation) (d : OperationData) (fin : bool) (t : Task) :
    AsyncOperation :=
  {| operation_id := operation_id op; context := context op; creation_time := creation_time op;
     data := d; finished_tx := fin; task := t |}.

(** The first critical section of the task. *)
Definition task_start (op : AsyncOperation) (now : Z) : AsyncOperation :=
  match od_state (data op) with
  | Cancelled => with_data op (data op) true Ended
  | _ =>
      with_data op
        {| od_state := Executing; start_time := Some now; end_time := end_time (data op);
           od_result := od_result (data op) |} (finished_tx op) Awaiting
  end.

(** The second one, when the future has returned [res]. *)
Definition task_store (op : AsyncOperation) (end_ : Z) (res : rpc json) : AsyncOperation :=
  with_data op
    {| od_state := match res with Ok _ => Success | Err _ => Failed end;
       start_time := start_time (data op); end_time := Some end_; od_result := Some res |}
    (finished_tx op) Publishing.

(** [done.send_replace(true)]. *)
Definition task_publish (op : AsyncOperation) : AsyncOperation :=
  with_data op (data op) true Ended.

Definition op_state (op : AsyncOperation) : OperationState := od_state (data op).

Record OperationStatus := {
  os_id : string;
  os_method : option string;
  os_params : option json;
  os_status : OperationState;
  os_creation_time : Z;
  os_error : option (Z * string);
  os_result : option json;
  os_execution_secs : option Z;
}.

(** [SystemTime::duration_since(..).map(|x| x.as_secs()).unwrap_or(0)]. *)
Definition secs_since (t earlier : Z) : Z :=
  if earlier <=? t then (t - earlier) / 1000000000 else 0.

Definition to_status (op : AsyncOperation) : OperationStatus :=
  let d := data op in
  let '(error, res, execution_secs) :=
    match od_result d with
    | None => (None, None, None)
    | Some (Err e) => (Some (err_code e, err_message e), None, None)
    | Some (Ok v) =>
        (None, Some v,
         match end_time d, start_time d with
         | Some e, Some s => Some (secs_since e s)
         | _, _ => None
         end)
    end in
  {| os_id := operation_id op; os_method := ctx_method <$> context op;
     os_params := ctx_params <$> context op; os_status := od_state d;
     os_creation_time := secs_since (creation_time op) 0;
     os_error := error; os_result := res; os_execution_secs := execution_secs |}.

(** ** The registry

    A [HashMap] from ids to entries. Its iteration order is unspecified: [iter] is any listing
    of the entries. *)

Record OperationEntry := { wallet : string; op : AsyncOperation }.

Abbreviation registry := (gmap string OperationEntry).

Class IterationOrder (iter : registry → list (string * OperationEntry)) : Prop :=
  iter_perm : ∀ m, iter m ≡ₚ map_to_list m.

Definition entry_finished (e : OperationEntry) : bool := is_finished (op_state (op e)).
Definition entry_of (w : string) (e : OperationEntry) : bool := bool_decide (wallet e = w).

Section registry.
Context (iter : registry → list (string * OperationEntry)).

Definition values (m : registry) : list OperationEntry := (iter m).*2.

(** [evict_if_over_cap]. *)
Definition evict_if_over_cap (m : registry) : registry :=
  if bool_decide (size m ≤ MAX_OPERATIONS)%nat then m
  else
    let finished :=
      (λ '(id, e), (creation_time (op e), id)) <$>
        List.filter (λ '(_, e), entry_finished e) (iter m) in
    let finished := sort_by_key fst finished in
    let excess := (size m - MAX_OPERATIONS)%nat in
    foldl (λ m '(_, id), delete id m) m (take excess finished).

(** [insert_op]. *)
Definition insert_op (m : registry) (w : string) (o : AsyncOperation) : registry * string :=
  let id := operation_id o in
  (evict_if_over_cap (<[id := {| wallet := w; op := o |}]> m), id).

Definition inflight (m : registry) (w : string) : nat :=
  length (List.filter (λ e, entry_of w e && negb (entry_finished e)) (values m)).

Definition too_many_message (n : nat) : string :=
  "Too many operations already in progress (" +:+ dec (Z.of_nat n) +:+ "); the limit is "
  +:+ dec (Z.of_nat MAX_INFLIGHT_OPERATIONS_PER_WALLET)
  +:+ ". Wait for in-flight operations to finish before starting another.".

(** [try_insert]; [id] is the fresh opid and [now] the clock. *)
Definition try_insert (m : registry) (w : string) (ctx : option ContextInfo) (id : string)
    (now : Z) : registry * rpc string :=
  let n := inflight m w in
  if bool_decide (MAX_INFLIGHT_OPERATIONS_PER_WALLET ≤ n)%nat
  then (m, Err (RpcError.wallet (too_many_message n)))
  else let '(m', opid) := insert_op m w (op_new id ctx now) in (m', Ok opid).

(** [collect]. *)
Definition collect (m : registry) (w : string) (ids : option (list string))
    (extra : AsyncOperation → bool) : list OperationStatus :=
  let statuses :=
    (λ e, (creation_time (op e), to_status (op e))) <$>
      List.filter (λ e, extra (op e))
        (List.filter (λ e, match ids with
                           | None => true
                           | Some ids => bool_decide (operation_id (op e) ∈ ids)
                           end)
          (List.filter (entry_of w) (values m))) in
  snd <$> sort_by_key fst statuses.

Definition status (m : registry) (w : string) (ids : option (list string)) :
    list OperationStatus :=
  collect m w ids (λ _, true).

Definition status_of (m : registry) (w id : string) : option OperationStatus :=
  e ← m !! id; if entry_of w e then Some (to_status (op e)) else None.

(** [subscribe]: what the receiver reads at once. *)
Definition subscribe (m : registry) (w id : string) : option bool :=
  e ← m !! id; if entry_of w e then Some (finished_tx (op e)) else None.

(** [take_results]. *)
Definition take_results (m : registry) (w : string) (ids : option (list string)) :
    registry * list OperationStatus :=
  let statuses := collect m w ids (λ o, is_finished (op_state o)) in
  let returned := os_id <$> statuses in
  (filter (λ '(id, _), id ∉ returned) m, statuses).

(** [unfinished], before its sort. *)
Definition unfinished (m : registry) : list (string * string) :=
  (λ e, (wallet e, operation_id (op e))) <$>
    List.filter (λ e, negb (entry_finished e)) (values m).

(** [list_ids]. *)
Definition list_ids (m : registry) (w : string) (status_filter : option string) : list string :=
  let out :=
    (λ e, (creation_time (op e), operation_id (op e))) <$>
      List.filter (λ e, match status_filter with
                        | None => true
                        | Some f => bool_decide (state_str (op_state (op e)) = f)
                        end)
        (List.filter (entry_of w) (values m)) in
  snd <$> sort_by_key fst out.

End registry.

(** ** Interleavings

    The calls of the RPC handlers and the three atomic actions of each operation's task. *)

Definition on_op (f : AsyncOperation → AsyncOperation) (e : OperationEntry) : OperationEntry :=
  {| wallet := wallet e; op := f (op e) |}.

Inductive step (iter : registry → list (string * OperationEntry)) (wallets : gset string) :
    registry → registry → Prop :=
  | step_insert m w ctx id now m' r :
      w ∈ wallets → m !! id = None → try_insert iter m w ctx id now = (m', r) →
      step iter wallets m m'
  | step_start m id e now :
      m !! id = Some e → task (op e) = Spawned →
      step iter wallets m (<[id := on_op (λ o, task_start o now) e]> m)
  | step_store m id e end_ res :
      m !! id = Some e → task (op e) = Awaiting →
      step iter wallets m (<[id := on_op (λ o, task_store o end_ res) e]> m)
  | step_publish m id e :
      m !! id = Some e → task (op e) = Publishing →
      step iter wallets m (<[id := on_op task_publish e]> m)
  | step_take m w ids m' out :
      take_results iter m w ids = (m', out) → step iter wallets m m'.

Definition reachable (iter : registry → list (string * OperationEntry)) (wallets : gset string) :
    registry → Prop := rtc (step iter wallets) ∅.
