(* ===== verification/OperationsSpec.v ===== *)
(** * OperationsSpec: what the operation registry guarantees

    Counting entries independently of the iteration order, the eviction, the two caps over
    every interleaving, the one-shot results and the publication order of a task. *)

From S2P Require Export Operations.

Section registry.
Context (iter : registry → list (string * OperationEntry)) `{!IterationOrder iter}.

(** ** Counting *)

(** The number of entries satisfying [p], whatever the iteration order. *)
Definition count (p : OperationEntry → bool) (m : registry) : nat :=
  size (filter (λ kv : string * OperationEntry, p kv.2 = true) m).

Lemma elem_of_iter m id e : (id, e) ∈ iter m ↔ m !! id = Some e.
Proof. rewrite (iter_perm m). apply elem_of_map_to_list. Qed.

Lemma elem_of_values m e : e ∈ values iter m ↔ ∃ id, m !! id = Some e.
Proof.
  unfold values. rewrite list_elem_of_fmap. split.
  - intros ([id e'] & -> & Hin). exists id. by apply elem_of_iter.
  - intros [id Hin]. exists (id, e). by rewrite elem_of_iter.
Qed.

Lemma filter_length_perm {A} (p : A → bool) l l' :
  l ≡ₚ l' → length (List.filter p l) = length (List.filter p l').
Proof.
  induction 1; simpl; try lia; repeat case_match; simpl; lia.
Qed.

Lemma length_filter_values p m : length (List.filter p (values iter m)) = count p m.
Proof.
  unfold values, count. rewrite (filter_length_perm p _ (map_to_list m).*2)
    by (by rewrite (iter_perm m)).
  induction m as [|id e m Hid IH] using map_ind.
  { by rewrite map_filter_empty, map_to_list_empty. }
  rewrite (filter_length_perm p _ ((id, e) :: map_to_list m).*2)
    by (by rewrite map_to_list_insert).
  simpl. destruct (p e) eqn:Hp; simpl.
  - rewrite map_filter_insert_True by done. rewrite map_size_insert_None; [by f_equal|].
    apply map_lookup_filter_None. auto.
  - rewrite map_filter_insert_False by (simpl; congruence).
    rewrite delete_id by done. exact IH.
Qed.

Lemma count_le p q (m m' : registry) :
  (∀ id e', m' !! id = Some e' → p e' = true → ∃ e, m !! id = Some e ∧ q e = true) →
  (count p m' ≤ count q m)%nat.
Proof.
  intros H. unfold count. apply dom_subseteq_size. intros id.
  rewrite !elem_of_dom. intros [e' He']. apply map_lookup_filter_Some in He' as [He' Hp].
  destruct (H _ _ He' Hp) as (e & He & Hq). exists e. by apply map_lookup_filter_Some.
Qed.

Lemma count_insert p (m : registry) id e :
  m !! id = None →
  count p (<[id := e]> m) = ((if p e then 1 else 0) + count p m)%nat.
Proof.
  intros Hid. unfold count. destruct (p e) eqn:Hp.
  - rewrite map_filter_insert_True by done. rewrite map_size_insert_None; [done|].
    apply map_lookup_filter_None. auto.
  - rewrite map_filter_insert_False by (simpl; congruence). by rewrite delete_id.
Qed.

(** If the entries fall into the classes [ks] and no class has more than [b], there are at most
    [b] per class. *)
Lemma count_classes p (ks : gset string) b (m : registry) :
  (∀ id e, m !! id = Some e → p e = true → wallet e ∈ ks) →
  (∀ w, count (λ e, entry_of w e && p e) m ≤ b)%nat →
  (count p m ≤ b * size ks)%nat.
Proof.
  intros Hks Hb. revert p Hks Hb.
  induction ks as [|w ks Hw IH] using set_ind_L; intros p Hks Hb.
  { assert (count p m ≤ count (λ _, false) m)%nat as Hle.
    { apply count_le. intros id e He Hp. specialize (Hks id e He Hp). set_solver. }
    assert (count (λ _, false) m = 0)%nat as E0.
    { unfold count. apply map_size_empty_iff, map_empty. intros id.
      apply map_lookup_filter_None. by right. }
    lia. }
  rewrite size_union, size_singleton by set_solver.
  assert (count p m ≤ count (λ e, entry_of w e && p e) m
            + count (λ e, negb (entry_of w e) && p e) m)%nat as Hsplit.
  { unfold count. rewrite <- map_size_disj_union.
    - apply map_subseteq_size, map_subseteq_spec. intros id e He.
      apply map_lookup_filter_Some in He as [He Hp]. simpl in Hp.
      destruct (entry_of w e) eqn:Ew.
      + apply lookup_union_Some_l, map_lookup_filter_Some. simpl. by rewrite Ew, Hp.
      + apply lookup_union_Some_raw. right. split.
        * apply map_lookup_filter_None. right. intros e' He'. simplify_eq. simpl. by rewrite Ew.
        * apply map_lookup_filter_Some. simpl. by rewrite Ew, Hp.
    - apply map_disjoint_spec. intros id e1 e2 H1 H2.
      apply map_lookup_filter_Some in H1 as [H1 P1]. apply map_lookup_filter_Some in H2 as [H2 P2].
      simplify_eq. simpl in *. by destruct (entry_of w e1). }
  specialize (IH (λ e, negb (entry_of w e) && p e)).
  assert (count (λ e, negb (entry_of w e) && p e) m ≤ b * size ks)%nat as Hrest.
  { apply IH.
    - intros id e He Hp. apply andb_true_iff in Hp as [Hn Hp].
      specialize (Hks id e He Hp). unfold entry_of in Hn. case_bool_decide; [done|]. set_solver.
    - intros w'. etrans; [|apply (Hb w')]. apply count_le. intros id e He Hp.
      exists e. split; [done|]. rewrite !andb_true_iff in *. tauto. }
  specialize (Hb w). lia.
Qed.

Lemma inflight_count m w :
  inflight iter m w = count (λ e, entry_of w e && negb (entry_finished e)) m.
Proof. apply length_filter_values. Qed.

(** ** Eviction *)

Definition deletes (m : registry) (l : list (Z * string)) : registry :=
  foldl (λ m '(_, id), delete id m) m l.

Lemma deletes_lookup l m id :
  deletes m l !! id = if decide (id ∈ l.*2) then None else m !! id.
Proof.
  revert m. induction l as [|[t k] l IH]; intros m; [done|]. simpl. rewrite IH.
  destruct (decide (id ∈ l.*2)) as [Hl|Hl].
  { by rewrite decide_True by set_solver. }
  destruct (decide (id = k)) as [->|Hk].
  - rewrite decide_True by set_solver. apply lookup_delete_eq.
  - rewrite decide_False by set_solver. by apply lookup_delete_ne.
Qed.

Lemma deletes_size l m :
  NoDup l.*2 → (∀ id, id ∈ l.*2 → is_Some (m !! id)) →
  (size (deletes m l) + length l = size m)%nat.
Proof.
  revert m. induction l as [|[t k] l IH]; intros m Hnd Hin; [simpl; lia|].
  simpl in *. apply NoDup_cons in Hnd as [Hk Hnd].
  destruct (Hin k ltac:(set_solver)) as [e He].
  assert (size (delete k m) = pred (size m)) as Hd by (apply map_size_delete_Some; by eexists).
  assert (size m ≠ 0)%nat by (intros E; apply map_size_empty_inv in E; subst; done).
  specialize (IH (delete k m) Hnd).
  assert (∀ id, id ∈ l.*2 → is_Some (delete k m !! id)) as Hin'.
  { intros id Hid. rewrite lookup_delete_ne by set_solver. apply Hin. set_solver. }
  specialize (IH Hin'). lia.
Qed.

(** The candidates of an eviction, oldest first. *)
Definition candidates (m : registry) : list (Z * string) :=
  sort_by_key fst ((λ '(id, e), (creation_time (op e), id)) <$>
    List.filter (λ '(_, e), entry_finished e) (iter m)).

Lemma elem_of_candidates m t id :
  (t, id) ∈ candidates m ↔
  ∃ e, m !! id = Some e ∧ entry_finished e = true ∧ t = creation_time (op e).
Proof.
  unfold candidates. rewrite elem_of_sort_by_key, list_elem_of_fmap. split.
  - intros ([k e] & [= -> ->] & Hin). apply list_elem_of_In, filter_In in Hin as [Hin Hf].
    apply list_elem_of_In, elem_of_iter in Hin. eauto.
  - intros (e & He & Hf & ->). exists (id, e). split; [done|].
    apply list_elem_of_In, filter_In. split; [|done]. by apply list_elem_of_In, elem_of_iter.
Qed.

Lemma candidates_NoDup m : NoDup (candidates m).*2.
Proof.
  unfold candidates. rewrite sort_by_key_perm, <- list_fmap_compose.
  assert (∀ l : list (string * OperationEntry), NoDup l.*1 →
    NoDup ((snd ∘ (λ '(id, e), (creation_time (op e), id))) <$>
             List.filter (λ '(_, e), entry_finished e) l)) as H.
  { induction l as [|[id e] l IH]; intros Hnd; simpl; [constructor|].
    apply NoDup_cons in Hnd as [Hni Hnd]. destruct (entry_finished e); simpl; [|by apply IH].
    constructor; [|by apply IH]. rewrite list_elem_of_fmap. intros ([id' e'] & -> & Hin).
    apply list_elem_of_In, filter_In in Hin as [Hin _]. apply Hni.
    apply list_elem_of_fmap. exists (id', e'). split; [done|]. by apply list_elem_of_In. }
  apply H. rewrite (iter_perm m). apply NoDup_fst_map_to_list.
Qed.

Lemma evict_deletes m :
  evict_if_over_cap iter m =
  if bool_decide (size m ≤ MAX_OPERATIONS)%nat then m
  else deletes m (take (size m - MAX_OPERATIONS) (candidates m)).
Proof. reflexivity. Qed.

Lemma evict_subseteq m : evict_if_over_cap iter m ⊆ m.
Proof.
  rewrite evict_deletes. case_bool_decide; [done|]. apply map_subseteq_spec. intros id e.
  rewrite deletes_lookup. by case_decide.
Qed.

Lemma evict_lookup m id e :
  evict_if_over_cap iter m !! id = Some e → m !! id = Some e.
Proof. intros H. eapply lookup_weaken; [exact H|apply evict_subseteq]. Qed.

Lemma evict_lost m id e :
  m !! id = Some e → evict_if_over_cap iter m !! id = None →
  entry_finished e = true ∧
  ∀ id' e', evict_if_over_cap iter m !! id' = Some e' → entry_finished e' = true →
    creation_time (op e) ≤ creation_time (op e').
Proof.
  rewrite evict_deletes. case_bool_decide; [congruence|]. intros He.
  rewrite deletes_lookup. case_decide as Hin; [|congruence]. intros _.
  apply list_elem_of_fmap in Hin as ([t k] & -> & Hin). simpl in *.
  assert ((t, k) ∈ candidates m) as Hc.
  { apply elem_of_take in Hin as (i & Hi & _). by eapply list_elem_of_lookup_2. }
  apply elem_of_candidates in Hc as (e0 & He0 & Hf & ->). simplify_eq. split; [done|].
  intros id' e' He' Hf'. rewrite deletes_lookup in He'. case_decide as Hn; [done|].
  assert ((creation_time (op e'), id') ∈ candidates m) as Hc' by (apply elem_of_candidates; eauto).
  rewrite <- (take_drop (size m - MAX_OPERATIONS) (candidates m)) in Hc'.
  apply elem_of_app in Hc' as [Hc'|Hc'].
  - destruct Hn. apply list_elem_of_fmap. eexists. by split; [|exact Hc'].
  - apply (sorted_take_drop (key_le fst) _ (candidates m) _ _ (sort_by_key_sorted _ _) Hin Hc').
Qed.

Lemma evict_bound m :
  (size (evict_if_over_cap iter m) ≤ MAX_OPERATIONS)%nat ∨
  ∀ id e, evict_if_over_cap iter m !! id = Some e → entry_finished e = false.
Proof.
  rewrite evict_deletes. case_bool_decide as Hsz; [by left|].
  set (n := (size m - MAX_OPERATIONS)%nat).
  destruct (decide (n ≤ length (candidates m))%nat) as [Hn|Hn].
  - left. pose proof (deletes_size (take n (candidates m)) m) as Hd.
    rewrite length_take_le in Hd by done.
    assert (NoDup (take n (candidates m)).*2) as Hnd.
    { eapply sublist_NoDup; [apply (candidates_NoDup m)|]. apply fmap_sublist, sublist_take. }
    assert (∀ id, id ∈ (take n (candidates m)).*2 → is_Some (m !! id)) as Hin;
      [|specialize (Hd Hnd Hin); lia].
    intros id Hid. apply list_elem_of_fmap in Hid as ([t k] & -> & Hid).
    apply elem_of_take in Hid as (i & Hi & _). apply list_elem_of_lookup_2 in Hi.
    apply elem_of_candidates in Hi as (e & He & _). by eexists.
  - right. intros id e. rewrite take_ge, deletes_lookup by lia. case_decide as Hin; [done|].
    intros He. apply not_true_iff_false. intros Hf. destruct Hin.
    apply list_elem_of_fmap. exists (creation_time (op e), id). split; [done|].
    apply elem_of_candidates. eauto.
Qed.

(** ** Every interleaving *)

(** An entry is filed under its own id, its flag is up only once its result is stored, and its
    task is where its state says. *)
Record entry_ok (wallets : gset string) (id : string) (e : OperationEntry) : Prop := {
  ok_id : operation_id (op e) = id;
  ok_wallet : wallet e ∈ wallets;
  ok_published : finished_tx (op e) = true → task (op e) = Ended;
  ok_task : match task (op e) with
            | Spawned => op_state (op e) = Ready
            | Awaiting => op_state (op e) = Executing
            | Publishing | Ended =>
                match od_result (data (op e)) with
                | Some (Ok _) => op_state (op e) = Success
                | Some (Err _) => op_state (op e) = Failed
                | None => False
                end
            end;
}.

Definition total_unfinished (m : registry) : nat := count (λ e, negb (entry_finished e)) m.

Record registry_ok (wallets : gset string) (m : registry) : Prop := {
  rk_entries : ∀ id e, m !! id = Some e → entry_ok wallets id e;
  rk_inflight : ∀ w, (count (λ e, entry_of w e && negb (entry_finished e)) m
                      ≤ MAX_INFLIGHT_OPERATIONS_PER_WALLET)%nat;
  rk_size : (size m ≤ MAX_OPERATIONS `max` (MAX_INFLIGHT_OPERATIONS_PER_WALLET * size wallets))%nat;
}.

Lemma size_all_unfinished m :
  (∀ id e, m !! id = Some e → entry_finished e = false) → size m = total_unfinished m.
Proof.
  intros H. unfold total_unfinished, count. f_equal. symmetry. apply map_filter_id.
  intros id e He. simpl. by rewrite (H id e He).
Qed.

(** A step that only shrinks the registry or advances entries keeps the bounds. *)
Lemma registry_ok_shrink wallets m m' :
  registry_ok wallets m →
  (∀ id e', m' !! id = Some e' → entry_ok wallets id e') →
  (∀ id e', m' !! id = Some e' → ∃ e, m !! id = Some e ∧ wallet e = wallet e' ∧
     (entry_finished e' = false → entry_finished e = false)) →
  registry_ok wallets m'.
Proof.
  intros [He Hi Hs] Hok Hsub. split; [done| |].
  - intros w. etrans; [|apply (Hi w)]. apply count_le. intros id e' He' Hp.
    destruct (Hsub id e' He') as (e & Hm & Hw & Hf). exists e. split; [done|].
    unfold entry_of in *. rewrite Hw. destruct (entry_finished e'); [by rewrite andb_false_r in Hp|].
    by rewrite Hf.
  - etrans; [|exact Hs]. apply dom_subseteq_size. intros id. rewrite !elem_of_dom.
    intros [e' He']. destruct (Hsub id e' He') as (e & Hm & _). eauto.
Qed.

Lemma registry_ok_update wallets m id e e' :
  registry_ok wallets m → m !! id = Some e → entry_ok wallets id e' → wallet e = wallet e' →
  (entry_finished e' = false → entry_finished e = false) →
  registry_ok wallets (<[id := e']> m).
Proof.
  intros Hr He Hok Hw Hf. pose proof (rk_entries _ _ Hr) as Hall.
  eapply registry_ok_shrink; [done| |].
  - intros k x. rewrite lookup_insert_Some. intros [[<- <-]|[_ Hx]]; auto.
  - intros k x. rewrite lookup_insert_Some. intros [[<- <-]|[_ Hx]]; eauto.
Qed.

Lemma take_results_subseteq m w ids :
  (take_results iter m w ids).1 ⊆ m.
Proof. apply map_filter_subseteq. Qed.

Lemma insert_ok wallets m w ctx id now :
  registry_ok wallets m → w ∈ wallets → m !! id = None →
  registry_ok wallets (try_insert iter m w ctx id now).1.
Proof.
  intros [He Hi Hs] Hw Hid. unfold try_insert. case_bool_decide as Hfull; [done|].
  rewrite inflight_count in Hfull. simpl.
  set (e := {| wallet := w; op := op_new id ctx now |}).
  assert (∀ w', count (λ e, entry_of w' e && negb (entry_finished e)) (<[id := e]> m)
            ≤ MAX_INFLIGHT_OPERATIONS_PER_WALLET)%nat as Hi'.
  { intros w'. rewrite count_insert by done. specialize (Hi w').
    unfold entry_of at 1. unfold e at 1. simpl. case_bool_decide; subst; simpl; lia. }
  assert (∀ w', count (λ e, entry_of w' e && negb (entry_finished e))
            (evict_if_over_cap iter (<[id := e]> m)) ≤ MAX_INFLIGHT_OPERATIONS_PER_WALLET)%nat as Hi2.
  { intros w'. etrans; [|apply (Hi' w')]. apply count_le. intros k x Hx Hp.
    exists x. split; [by apply evict_lookup|done]. }
  assert (∀ k x, evict_if_over_cap iter (<[id := e]> m) !! k = Some x → entry_ok wallets k x) as Hok.
  { intros k x Hx. apply evict_lookup, lookup_insert_Some in Hx as [[<- <-]|[_ Hx]]; [|by apply He].
    by split. }
  split; [done|done|].
  destruct (evict_bound (<[id := e]> m)) as [Hb|Hb]; [lia|].
  rewrite (size_all_unfinished _ Hb).
  assert (total_unfinished (evict_if_over_cap iter (<[id := e]> m))
          ≤ MAX_INFLIGHT_OPERATIONS_PER_WALLET * size wallets)%nat; [|lia].
  apply count_classes; [|exact Hi2]. intros k x Hx _. by apply (ok_wallet _ _ _ (Hok k x Hx)).
Qed.

Lemma step_ok wallets m m' :
  registry_ok wallets m → step iter wallets m m' → registry_ok wallets m'.
Proof.
  intros Hr Hstep. pose proof (rk_entries _ _ Hr) as Hall.
  destruct Hstep as [m w ctx id now m' r Hw Hid E|m id e now He Ht|m id e end_ res He Ht
                    |m id e He Ht|m w ids m' out E].
  - apply (f_equal fst) in E. simpl in E. subst m'. by apply insert_ok.
  - destruct (Hall id e He) as [H1 H2 H3 H4]. rewrite Ht in H4.
    unfold op_state in H4. eapply registry_ok_update; [done|done| |done|].
    + unfold on_op, task_start. rewrite H4. split; simpl; [done|done| |done]. intros Hf.
      specialize (H3 Hf). congruence.
    + intros _. unfold entry_finished, op_state. by rewrite H4.
  - destruct (Hall id e He) as [H1 H2 H3 H4]. rewrite Ht in H4.
    eapply registry_ok_update; [done|done| |done|].
    + split; simpl; [done|done| |by destruct res]. intros Hf. specialize (H3 Hf). congruence.
    + unfold entry_finished, op_state. simpl. by destruct res.
  - destruct (Hall id e He) as [H1 H2 H3 H4]. rewrite Ht in H4.
    eapply registry_ok_update; [done|done| |done|done]. by split.
  - apply (f_equal fst) in E. simpl in E. subst m'.
    eapply registry_ok_shrink; [done| |]; intros k x Hx.
    + apply Hall. eapply lookup_weaken; [exact Hx|apply map_filter_subseteq].
    + exists x. split; [|done]. eapply lookup_weaken; [exact Hx|apply map_filter_subseteq].
Qed.

Lemma reachable_ok wallets m : reachable iter wallets m → registry_ok wallets m.
Proof.
  assert (registry_ok wallets ∅) as H0.
  { split; [done| |rewrite map_size_empty; lia]. intros w. unfold count.
    rewrite map_filter_empty, map_size_empty. lia. }
  intros H. unfold reachable in H. revert H0.
  induction H as [m|m m' m'' Hs _ IH]; intros H0; [done|]. apply IH. by eapply step_ok.
Qed.

End registry.

(** ** Properties *)

#[export] Instance map_to_list_order : IterationOrder map_to_list.
Proof. intros m. reflexivity. Qed.

(** Back-pressure and retention, over every interleaving of the RPC calls of a set of
    wallets with the operations' tasks and whatever the hash map's iteration order: no wallet
    ever has more than 16 unfinished operations, and the registry never holds more than 1024
    operations, or 16 per wallet where that is more. *)
Theorem registry_bounded (iter : registry → list (string * OperationEntry))
    `{!IterationOrder iter} (wallets : gset string) (m : registry) :
  reachable iter wallets m →
  (∀ w, inflight iter m w ≤ MAX_INFLIGHT_OPERATIONS_PER_WALLET)%nat ∧
  (size m ≤ MAX_OPERATIONS `max` (MAX_INFLIGHT_OPERATIONS_PER_WALLET * size wallets))%nat.
Proof.
  intros Hr. destruct (reachable_ok iter wallets m Hr) as [_ Hi Hs].
  split; [|done]. intros w. by rewrite inflight_count.
Qed.

Definition demo_registry : registry :=
  let m := (try_insert map_to_list ∅ "w" None "opid-1" 5).1 in
  <["opid-1" := on_op (λ o, task_start o 6) {| wallet := "w"; op := op_new "opid-1" None 5 |}]> m.

Lemma demo_reachable : reachable map_to_list {["w"]} demo_registry.
Proof.
  eapply rtc_l; [|eapply rtc_l; [|apply rtc_refl]].
  - eapply (step_insert _ _ ∅ "w" None "opid-1" 5); [set_solver|done|].
    vm_compute. reflexivity.
  - apply (step_start _ _ _ "opid-1" {| wallet := "w"; op := op_new "opid-1" None 5 |} 6);
      vm_compute; reflexivity.
Qed.

Lemma registry_bounded_witness :
  (inflight map_to_list demo_registry "w" ≤ 16)%nat ∧ (size demo_registry ≤ 1024)%nat.
Proof.
  destruct (registry_bounded map_to_list {["w"]} demo_registry demo_reachable) as [H1 H2].
  split; [apply H1|]. etrans; [exact H2|]. vm_compute. lia.
Defined.

(** Launching an operation discards nothing that is still pending: when [try_insert]
    accepts, the new operation is in the registry, every other entry it no longer holds was
    finished and no newer than any finished entry it still holds, and what remains is within
    the retention cap or entirely unfinished. When it refuses, it refuses with [-4] and changes
    nothing. *)
Theorem try_insert_evicts_oldest (iter : registry → list (string * OperationEntry))
    `{!IterationOrder iter} (m : registry) (w : string) ctx (id : string) (now : Z) :
  m !! id = None →
  match try_insert iter m w ctx id now with
  | (m', Ok opid) =>
      opid = id ∧ m' !! id = Some {| wallet := w; op := op_new id ctx now |} ∧
      (∀ k e, k ≠ id → m' !! k = Some e → m !! k = Some e) ∧
      (∀ k e, m !! k = Some e → m' !! k = None →
         entry_finished e = true ∧
         ∀ k' e', m' !! k' = Some e' → entry_finished e' = true →
           creation_time (op e) ≤ creation_time (op e')) ∧
      ((size m' ≤ MAX_OPERATIONS)%nat ∨ ∀ k e, m' !! k = Some e → entry_finished e = false)
  | (m', Err e) => m' = m ∧ err_code e = RPC_WALLET_ERROR ∧
                   (MAX_INFLIGHT_OPERATIONS_PER_WALLET ≤ inflight iter m w)%nat
  end.
Proof.
  intros Hid. unfold try_insert. case_bool_decide as Hfull; [done|]. simpl.
  set (e := {| wallet := w; op := op_new id ctx now |}). set (m1 := <[id := e]> m).
  assert (m1 !! id = Some e) as He by apply lookup_insert_eq.
  split; [done|]. split; [|split; [|split; [|by apply evict_bound]]].
  - destruct (evict_if_over_cap iter m1 !! id) as [e0|] eqn:E.
    + apply evict_lookup in E; [|done]. congruence.
    + by destruct (evict_lost iter m1 id e He E).
  - intros k x Hk Hx. apply evict_lookup in Hx; [|done]. unfold m1 in Hx.
    by rewrite lookup_insert_ne in Hx.
  - intros k x Hx Hn. apply evict_lost with (id := k); [done| |done].
    unfold m1. rewrite lookup_insert_ne; [done|]. intros <-. congruence.
Qed.

Lemma try_insert_evicts_oldest_witness :
  ∃ m', try_insert map_to_list ∅ "w" None "opid-1" 5 = (m', Ok "opid-1") ∧
        m' !! "opid-1" = Some {| wallet := "w"; op := op_new "opid-1" None 5 |}.
Proof.
  pose proof (try_insert_evicts_oldest map_to_list ∅ "w" None "opid-1" 5 eq_refl) as H.
  eexists. split; [vm_compute; reflexivity|].
  destruct (try_insert _ _ _ _ _ _) as [m' [opid|e]] eqn:E.
  - destruct H as (_ & H & _). by vm_compute in E; injection E as <- <-.
  - by vm_compute in E.
Defined.

Lemma elem_of_collect (iter : registry → list (string * OperationEntry)) `{!IterationOrder iter}
    m w ids extra s :
  s ∈ collect iter m w ids extra ↔
  ∃ id e, m !! id = Some e ∧ wallet e = w ∧
          (∀ l, ids = Some l → operation_id (op e) ∈ l) ∧ extra (op e) = true ∧
          s = to_status (op e).
Proof.
  unfold collect. rewrite list_elem_of_fmap. split.
  - intros ([t x] & -> & Hin). rewrite elem_of_sort_by_key, list_elem_of_fmap in Hin.
    destruct Hin as (e & [= -> ->] & Hin). apply list_elem_of_In, filter_In in Hin as [Hin Hx].
    apply filter_In in Hin as [Hin Hids]. apply filter_In in Hin as [Hin Hw].
    apply list_elem_of_In, elem_of_values in Hin as [id Hin]; [|done].
    unfold entry_of in Hw. apply bool_decide_eq_true in Hw.
    exists id, e. split_and!; try done. intros l ->. by apply bool_decide_eq_true in Hids.
  - intros (id & e & He & Hw & Hids & Hx & ->).
    exists (creation_time (op e), to_status (op e)). split; [done|].
    rewrite elem_of_sort_by_key, list_elem_of_fmap. exists e. split; [done|].
    apply list_elem_of_In, filter_In. split; [|done]. apply filter_In. split.
    + apply filter_In. split; [|by apply bool_decide_eq_true].
      apply list_elem_of_In, elem_of_values; eauto.
    + destruct ids as [l|]; [|done]. apply bool_decide_eq_true. by apply Hids.
Qed.

Lemma to_status_id o : os_id (to_status o) = operation_id o.
Proof. unfold to_status. by destruct (od_result (data o)) as [[]|]. Qed.

(** [z_getoperationresult] is one-shot and stays within its wallet: the statuses returned
    are exactly those of the wallet's finished (and requested) operations; exactly these leave
    the registry, every other entry, of this wallet or another, is as it was; and asking again
    returns nothing. *)
Theorem take_results_once (iter : registry → list (string * OperationEntry))
    `{!IterationOrder iter} (m : registry) (w : string) (ids : option (list string)) :
  (∀ id e, m !! id = Some e → operation_id (op e) = id) →
  let reaped id e := m !! id = Some e ∧ wallet e = w ∧ entry_finished e = true ∧
                     (∀ l, ids = Some l → id ∈ l) in
  let '(m', out) := take_results iter m w ids in
  (∀ s, s ∈ out ↔ ∃ id e, reaped id e ∧ s = to_status (op e)) ∧
  (∀ id e, m' !! id = Some e ↔ m !! id = Some e ∧ ¬ reaped id e) ∧
  (take_results iter m' w ids).2 = [].
Proof.
  intros Hid. cbv zeta. unfold take_results at 1.
  set (out := collect iter m w ids _). set (m' := filter _ m).
  assert (∀ s, s ∈ out ↔ ∃ id e, (m !! id = Some e ∧ wallet e = w ∧ entry_finished e = true ∧
            (∀ l, ids = Some l → id ∈ l)) ∧ s = to_status (op e)) as Hout.
  { intros s. unfold out. rewrite elem_of_collect by done. split.
    - intros (id & e & He & Hw & Hl & Hf & ->). exists id, e. rewrite (Hid _ _ He) in Hl. done.
    - intros (id & e & (He & Hw & Hf & Hl) & ->). exists id, e. by rewrite (Hid _ _ He). }
  assert (∀ id e, m' !! id = Some e ↔ m !! id = Some e ∧ ¬ (m !! id = Some e ∧ wallet e = w ∧
            entry_finished e = true ∧ (∀ l, ids = Some l → id ∈ l))) as Hm'.
  { intros id e. unfold m'. rewrite map_lookup_filter_Some. simpl.
    split; intros [He Hn]; (split; [done|]).
    - intros Hr. apply Hn, list_elem_of_fmap. exists (to_status (op e)).
      rewrite to_status_id, (Hid _ _ He). split; [done|]. apply Hout. eauto.
    - intros Hin. apply Hn. apply list_elem_of_fmap in Hin as (s & Es & Hin).
      apply Hout in Hin as (k & x & Hr & ->). rewrite to_status_id in Es.
      rewrite (Hid _ _ (proj1 Hr)) in Es. subst k. destruct Hr as (Hx & Hr). by simplify_eq. }
  split; [done|]. split; [done|]. unfold take_results. simpl.
  destruct (collect iter m' w ids _) as [|s l] eqn:E; [done|].
  assert (s ∈ s :: l) as Hin by set_solver. rewrite <- E in Hin.
  apply elem_of_collect in Hin as (id & e & He & Hw & Hl & Hf & ->); [|done].
  apply Hm' in He as [He Hn]. rewrite (Hid _ _ He) in Hl. by destruct Hn.
Qed.

Definition failed_op : AsyncOperation :=
  task_publish (task_store (task_start (op_new "opid-1" None 5) 6) 9 (Err (RpcError.misc "no"))).

Lemma take_results_once_witness :
  ∃ m', take_results map_to_list {["opid-1" := {| wallet := "w"; op := failed_op |}]} "w" None =
          (m', [to_status failed_op]) ∧ (take_results map_to_list m' "w" None).2 = [].
Proof.
  pose proof (take_results_once map_to_list {["opid-1" := {| wallet := "w"; op := failed_op |}]}
    "w" None) as H.
  eexists. split; [vm_compute; reflexivity|].
  apply (λ Hx, proj2 (proj2 (H Hx))). intros id e [<- <-]%lookup_singleton_Some. reflexivity.
Defined.

(** A waiter never sees "finished" without the result: in every reachable registry, when
    the finished flag of an operation reads true, its status is terminal - never cancelled,
    which nothing sets - and carries a result or an error, success exactly with a result. *)
Theorem published_with_result (iter : registry → list (string * OperationEntry))
    `{!IterationOrder iter} (wallets : gset string) (m : registry) (w id : string) :
  reachable iter wallets m → subscribe m w id = Some true →
  ∃ s, status_of m w id = Some s ∧ os_id s = id ∧ is_finished (os_status s) = true ∧
       ((os_status s = Success ∧ is_Some (os_result s) ∧ os_error s = None) ∨
        (os_status s = Failed ∧ os_result s = None ∧ is_Some (os_error s))).
Proof.
  intros Hr. unfold subscribe, status_of. destruct (m !! id) as [e|] eqn:He; [|done]. simpl.
  destruct (entry_of w e); [|done]. intros [= Hf].
  destruct (rk_entries _ _ (reachable_ok iter wallets m Hr) id e He) as [H1 _ H3 H4].
  rewrite (H3 Hf) in H4. eexists. split; [done|]. rewrite to_status_id. split; [done|].
  unfold to_status, op_state in *.
  destruct (od_result (data (op e))) as [[v|err]|]; simpl; rewrite ?H4; [| |done]; split; try done;
    [left|right]; eauto.
Qed.

Lemma published_with_result_witness :
  let m := <["opid-1" := {| wallet := "w"; op := failed_op |}]> demo_registry in
  reachable map_to_list {["w"]} m ∧
  ∃ s, status_of m "w" "opid-1" = Some s ∧ os_status s = Failed.
Proof.
  intros m.
  assert (reachable map_to_list {["w"]} m) as Hr.
  { eapply rtc_r; [eapply rtc_r; [exact demo_reachable|]|].
    - eapply (step_store _ _ _ "opid-1" _ 9 (Err (RpcError.misc "no"))); vm_compute; reflexivity.
    - assert (m = <["opid-1" := on_op task_publish {| wallet := "w"; op :=
        task_store (task_start (op_new "opid-1" None 5) 6) 9 (Err (RpcError.misc "no")) |}]>
        (<["opid-1" := on_op (λ o, task_store o 9 (Err (RpcError.misc "no")))
          {| wallet := "w"; op := task_start (op_new "opid-1" None 5) 6 |}]> demo_registry)) as ->
        by (unfold m; by rewrite insert_insert_eq).
      apply step_publish; vm_compute; reflexivity. }
  split; [exact Hr|].
  destruct (published_with_result map_to_list {["w"]} m "w" "opid-1" Hr) as (s & Hs & _ & _ & _).
  { vm_compute. reflexivity. }
  exists s. split; [exact Hs|]. vm_compute in Hs. by injection Hs as <-.
Defined.
