(* ===== verification/Engine.v ===== *)
(** * Engine: the compact-block sync engine ([src/src/sync/engine.rs])

    One batch of synchronisation: selecting the range, downloading it (resuming after client
    side load sheds), matching the wallet's transparent receives and spends in the stream,
    scanning it, rewinding on a reorg, and recording what was matched.

    The upstream connection and the wallet database are the libraries': [Backend] is the record
    of the calls the engine makes on them, each threading the state of its side. Heights are
    [u32]; the arithmetic of [BlockHeight] saturates. *)

From S2P Require Export Pacing.
Import MemCache.

(** ** Constants *)

Definition DEFAULT_BATCH_SIZE : Z := 10000.
Definition MAX_STALLED_STREAM_RESTARTS : Z := 3.
Definition REORG_BASE_MARGIN : Z := 10.
Definition REORG_MAX_MARGIN : Z := DEFAULT_BATCH_SIZE.

(** ** Scan ranges *)

(** The storage layer's scan priorities and its range split, of which the engine uses the
    [Verify] priority, the order and the split. *)
Class RangeOps := {
  prio : Type;
  prio_eq :: EqDecision prio;
  Verify : prio;
  prio_gt : prio → prio → bool;
  (** [ScanRange::split_at], on a range [start, end) of a priority. *)
  split_bounds : Z → Z → Z → option (Z * Z * (Z * Z));
}.

(** A [start..end] block range with its priority. *)
Record ScanRange `{RangeOps} := { range_start : Z; range_end : Z; priority : prio }.
#[global] Instance ScanRange_eq_dec `{RangeOps} : EqDecision ScanRange.
Proof. solve_decision. Defined.

(** [BlockHeight - BlockHeight]. *)
Definition range_len `{RangeOps} (r : ScanRange) : Z := sat_sub (range_end r) (range_start r).

(** Both halves keep the priority. *)
Definition split_at `{RangeOps} (r : ScanRange) (p : Z) : option (ScanRange * ScanRange) :=
  '(a, b, (c, d)) ← split_bounds (range_start r) (range_end r) p;
  Some ({| range_start := a; range_end := b; priority := priority r |},
        {| range_start := c; range_end := d; priority := priority r |}).

(** The documented contract: a range is split at a height strictly inside it. *)
Class RangeLaws `{RangeOps} : Prop :=
  split_bounds_spec : ∀ s e p,
    split_bounds s e p = if decide (s < p < e) then Some (s, p, (p, e)) else None.

(** The selection of [sync_one_batch]: a [Verify] range whole, else one batch of it. *)
Definition select_range `{RangeOps} (first : ScanRange) (batch_size : Z) : ScanRange :=
  if bool_decide (priority first = Verify) then first
  else match split_at first (u32_sat_add (range_start first) batch_size) with
       | Some (cur, _) => cur
       | None => first
       end.

(** [next_range_guess]. *)
Definition next_range_guess `{RangeOps} (scan_ranges : list ScanRange) (scanning : ScanRange)
    (batch_size : Z) : option ScanRange :=
  first ← head scan_ranges;
  if bool_decide (priority first = Verify) then None
  else
    '(_, rest) ← split_at first (range_end scanning);
    match split_at rest (u32_sat_add (range_start rest) batch_size) with
    | Some (next, _) => Some next
    | None => Some rest
    end.

(** [next_reorg_margin]. *)
Definition next_reorg_margin (current : Z) (reorged : bool) : Z :=
  if reorged then Z.min (Z.min (current * 2) u32_max) REORG_MAX_MARGIN else REORG_BASE_MARGIN.

(** [plan_load_shed_resume]: where to resume, and [stalled_restarts] after the call. *)
Definition plan_load_shed_resume (made_progress : bool) (last_received : option Z)
    (resume_from stalled_restarts : Z) : option Z * Z :=
  let resume_at := Some (match last_received with
                         | Some h => u32_sat_add h 1
                         | None => resume_from
                         end) in
  if made_progress then (resume_at, 0)
  else
    let stalled := stalled_restarts + 1 in
    if MAX_STALLED_STREAM_RESTARTS <? stalled then (None, stalled) else (resume_at, stalled).

(** ** Blocks and transparent matching *)

Abbreviation txid := string.
Abbreviation address := string.

(** A transparent output and an input as the stream carries them with their block. *)
Record BlockUtxo := {
  u_txid : txid; u_index : Z; u_value_zat : Z; u_script : string; u_height : option Z;
  u_coinbase_tx : option txid; u_coinbase : bool;
}.
Record BlockInput := {
  i_prevout_txid : txid; i_prevout_index : Z; i_spending_txid : txid; i_height : Z;
}.

(** A streamed compact block: its height, its wire encoding, the [(outputs, actions)] counts of
    its transactions, and its transparent outputs and inputs. *)
Record StreamItem := {
  it_height : Z; it_encoded : string; it_txs : list (Z * Z);
  it_outs : list BlockUtxo; it_ins : list BlockInput;
}.

Record WalletOutput := {
  wo_txid : txid; wo_index : Z; wo_value : Z; wo_script : string; wo_height : option Z;
  wo_recipient : address;
}.

Record MatchedTransparentReceive := {
  mr_output : WalletOutput; mr_coinbase_tx : option txid; mr_coinbase : bool;
}.
Record MatchedTransparentSpend := { ms_spending_txid : txid; ms_height : Z }.
#[global] Instance MatchedTransparentSpend_eq_dec : EqDecision MatchedTransparentSpend.
Proof. solve_decision. Defined.

Abbreviation outpoint := (string * Z)%type.

Record RangeShape := {
  sh_blocks : Z; sh_bytes : Z; sh_txs : Z; sh_sapling_outputs : Z; sh_orchard_actions : Z;
}.

Record DownloadProgress := {
  dp_blocks : MemBlockCache (encoded := string);
  dp_shape : RangeShape;
  dp_received : list MatchedTransparentReceive;
  dp_spent : list MatchedTransparentSpend;
  dp_watch : option (gset outpoint);
}.

Definition empty_shape : RangeShape :=
  {| sh_blocks := 0; sh_bytes := 0; sh_txs := 0; sh_sapling_outputs := 0;
     sh_orchard_actions := 0 |}.

Definition empty_progress (unspent : option (gset outpoint)) : DownloadProgress :=
  {| dp_blocks := empty_cache; dp_shape := empty_shape; dp_received := []; dp_spent := [];
     dp_watch := unspent |}.

Section matching.
(** [Zatoshis::from_u64] accepts up to [max_money]; [recipient_of] is the recipient a script
    pays, for the scripts the library recognizes. *)
Context (max_money : Z) (recipient_of : string → option address).

(** [owned_transparent_output]. *)
Definition owned_transparent_output (addresses : gset address) (tx : txid) (index value : Z)
    (script : string) (height : option Z) : option WalletOutput :=
  if max_money <? value then None
  else
    recipient ← recipient_of script;
    if bool_decide (recipient ∈ addresses) then
      Some {| wo_txid := tx; wo_index := index; wo_value := value; wo_script := script;
              wo_height := height; wo_recipient := recipient |}
    else None.

(** The output-matching step for one output of a block. *)
Definition match_output (addresses : gset address) (p : DownloadProgress) (u : BlockUtxo) :
    DownloadProgress :=
  match owned_transparent_output addresses (u_txid u) (u_index u) (u_value_zat u) (u_script u)
          (u_height u) with
  | None => p
  | Some output =>
      {| dp_blocks := dp_blocks p; dp_shape := dp_shape p;
         dp_received := dp_received p ++
           [{| mr_output := output; mr_coinbase_tx := u_coinbase_tx u;
               mr_coinbase := u_coinbase u |}];
         dp_spent := dp_spent p;
         dp_watch := (λ w, {[(wo_txid output, wo_index output)]} ∪ w) <$> dp_watch p |}
  end.

(** The input-matching step for one input of a block. *)
Definition match_input (p : DownloadProgress) (i : BlockInput) : DownloadProgress :=
  match dp_watch p with
  | None => p
  | Some w =>
      let op := (i_prevout_txid i, i_prevout_index i) in
      if bool_decide (op ∈ w) then
        let matched := {| ms_spending_txid := i_spending_txid i; ms_height := i_height i |} in
        {| dp_blocks := dp_blocks p; dp_shape := dp_shape p; dp_received := dp_received p;
           dp_spent := if bool_decide (matched ∈ dp_spent p) then dp_spent p
                       else dp_spent p ++ [matched];
           dp_watch := Some (w ∖ {[op]}) |}
      else p
  end.

Definition count_shape (s : RangeShape) (txs : list (Z * Z)) : RangeShape :=
  {| sh_blocks := sh_blocks s; sh_bytes := sh_bytes s;
     sh_txs := wrap_u64 (sh_txs s + Z.of_nat (length txs));
     sh_sapling_outputs := foldl (λ acc t, wrap_u64 (acc + t.1)) (sh_sapling_outputs s) txs;
     sh_orchard_actions := foldl (λ acc t, wrap_u64 (acc + t.2)) (sh_orchard_actions s) txs |}.

(** One block of the stream; [None] is the cache's ascending-order assertion. *)
Definition absorb_item (transparent : option (gset address)) (p : DownloadProgress)
    (it : StreamItem) : option DownloadProgress :=
  let p := {| dp_blocks := dp_blocks p; dp_shape := count_shape (dp_shape p) (it_txs it);
              dp_received := dp_received p; dp_spent := dp_spent p; dp_watch := dp_watch p |} in
  let p := match transparent with
           | Some addresses => foldl (match_output addresses) p (it_outs it)
           | None => p
           end in
  let p := foldl match_input p (it_ins it) in
  blocks ← push (dp_blocks p) (it_height it) (it_encoded it);
  Some {| dp_blocks := blocks; dp_shape := dp_shape p; dp_received := dp_received p;
          dp_spent := dp_spent p; dp_watch := dp_watch p |}.

Definition absorb_items (transparent : option (gset address)) (p : DownloadProgress)
    (items : list StreamItem) : option DownloadProgress :=
  foldl (λ op it, op ≫= λ p, absorb_item transparent p it) (Some p) items.

(** ** Downloading *)

Section download.
(** The upstream: its connection state, its errors, which of them are a client-side load shed,
    and the error with a context line. A range request answers the blocks streamed before the
    stream ended, or failed with the error. *)
Context `{RangeOps} {client error : Type}.
Context (compact_block_range : client → Z → Z → bool →
                               client * (list StreamItem * option error))
        (is_h2_load_shed : error → bool) (with_context : error → string → error).

Inductive outcome (A : Type) :=
  | Done (a : A)
  | Failed_ (e : error)
  | Panicked.
Arguments Done {A} a.
Arguments Failed_ {A} e.
Arguments Panicked {A}.

(** [download_range_once]: a failure leaves what was received so far. *)
Definition download_range_once (c : client) (next range_end : Z)
    (transparent : option (gset address)) (p : DownloadProgress) :
    client * option (DownloadProgress * option error) :=
  let '(c, (items, e)) :=
    compact_block_range c next range_end
      (match transparent with Some _ => true | None => false end) in
  (c, match absorb_items transparent p items with
      | None => None
      | Some p => Some (p, e)
      end).

(** The [while next <= range_end] loop of [download_blocks]; [None] when the fuel runs out. *)
Fixpoint download_loop (fuel : nat) (c : client) (next range_end stalled : Z)
    (transparent : option (gset address)) (p : DownloadProgress) :
    option (client * outcome DownloadProgress) :=
  if next <=? range_end then
    match fuel with
    | O => None
    | S fuel =>
        let before := cache_len (dp_blocks p) in
        match download_range_once c next range_end transparent p with
        | (c, None) => Some (c, Panicked)
        | (c, Some (p, None)) => Some (c, Done p)
        | (c, Some (p, Some e)) =>
            if is_h2_load_shed e then
              let made_progress := (before <? cache_len (dp_blocks p))%nat in
              match plan_load_shed_resume made_progress (last_height (dp_blocks p)) next stalled with
              | (None, _) =>
                  Some (c, Failed_ (with_context e
                    "block download made no progress across repeated h2 load-shed reconnects"))
              | (Some resume_at, stalled) =>
                  download_loop fuel c resume_at range_end stalled transparent p
              end
            else Some (c, Failed_ e)
        end
    end
  else Some (c, Done p).

Record DownloadedRange := {
  dr_blocks : MemBlockCache (encoded := string);
  dr_shape : RangeShape;
  dr_received : list MatchedTransparentReceive;
  dr_spent : list MatchedTransparentSpend;
}.

Definition encoded_len (e : string) : Z := Z.of_nat (String.length e).

Definition finish_download (p : DownloadProgress) : DownloadedRange :=
  {| dr_blocks := dp_blocks p;
     dr_shape := {| sh_blocks := wrap_u32 (Z.of_nat (cache_len (dp_blocks p)));
                    sh_bytes := byte_len encoded_len (dp_blocks p);
                    sh_txs := sh_txs (dp_shape p);
                    sh_sapling_outputs := sh_sapling_outputs (dp_shape p);
                    sh_orchard_actions := sh_orchard_actions (dp_shape p) |};
     dr_received := dp_received p; dr_spent := dp_spent p |}.

(** Every iteration holds a block more or is one of at most three in a row that do not. *)
Definition download_fuel (start range_end : Z) : nat := Z.to_nat (4 * (range_end - start + 2)).

(** [download_blocks]. *)
Definition download_blocks (c : client) (r : ScanRange) (transparent : option (gset address))
    (unspent : option (gset outpoint)) : option (client * outcome DownloadedRange) :=
  let last := sat_sub (range_end r) 1 in
  let next := range_start r in
  '(c, o) ← download_loop (download_fuel next last) c next last 0 transparent
              (empty_progress unspent);
  Some (c, match o with
           | Done p => Done (finish_download p)
           | Failed_ e => Failed_ e
           | Panicked => Panicked
           end).

Record Prefetched := { pf_range : ScanRange; pf_downloaded : DownloadedRange }.

(** [prefetch_range]; [None] for a short download, which is refused. *)
Definition prefetch_usable (r : ScanRange) (d : DownloadedRange) : option Prefetched :=
  if bool_decide (Z.of_nat (cache_len (dr_blocks d)) = range_len r)
  then Some {| pf_range := r; pf_downloaded := d |} else None.

End download.
End matching.

Arguments Done {error A} a.
Arguments Failed_ {error A} e.
Arguments Panicked {error A}.

(** ** Rewinding *)

(** The storage layer's errors: a refused rewind, or any other. *)
Inductive TruncateError (error : Type) :=
  | RequestedRewindInvalid (safe_rewind_height : option Z)
  | StorageError (e : error).
Arguments RequestedRewindInvalid {error} safe_rewind_height.
Arguments StorageError {error} e.

Inductive RewindError (error : Type) :=
  | UnrecoverableReorg (at_height requested : Z) (safe_rewind_height : option Z)
  | RewindStorage (e : error).
Arguments UnrecoverableReorg {error} at_height requested safe_rewind_height.
Arguments RewindStorage {error} e.

Section rewind.
Context {db error : Type}
        (truncate_to_height : db → Z → db * result (TruncateError error) Z).

(** The candidate loop: the first target accepted, or [None] when all are refused. *)
Fixpoint try_candidates (d : db) (targets : list Z) : db * result error (option Z) :=
  match targets with
  | [] => (d, Ok None)
  | t :: rest =>
      match truncate_to_height d t with
      | (d, Ok h) => (d, Ok (Some h))
      | (d, Err (RequestedRewindInvalid _)) => try_candidates d rest
      | (d, Err (StorageError e)) => (d, Err e)
      end
  end.

(** The targets after the requested one has been refused with [safe]. *)
Definition rewind_candidates (at_height requested base_requested : Z) (safe : option Z) : list Z :=
  let shallow := sat_sub at_height 2 in
  (if (base_requested <? at_height) && (requested <? base_requested)
   then [base_requested] else [])
  ++ [shallow]
  ++ match safe with
     | Some h => if (h <? requested) && (h <? shallow) then [h] else []
     | None => []
     end.

(** [perform_rewind]. *)
Definition perform_rewind (d : db) (at_height requested base_requested : Z) :
    db * result (RewindError error) Z :=
  match truncate_to_height d requested with
  | (d, Ok h) => (d, Ok h)
  | (d, Err (StorageError e)) => (d, Err (RewindStorage e))
  | (d, Err (RequestedRewindInvalid safe)) =>
      match try_candidates d (rewind_candidates at_height requested base_requested safe) with
      | (d, Ok (Some h)) => (d, Ok h)
      | (d, Ok None) => (d, Err (UnrecoverableReorg at_height requested safe))
      | (d, Err e) => (d, Err (RewindStorage e))
      end
  end.

End rewind.

(** ** One batch *)

Record TransparentMatcher (account : Type) := {
  tm_account : account; tm_all : gset address; tm_lookahead : gmap address Z;
}.
Arguments tm_account {account} _.
Arguments tm_all {account} _.
Arguments tm_lookahead {account} _.

(** [lookahead_index]. *)
Definition lookahead_index {account} (m : TransparentMatcher account) (a : address) : option Z :=
  tm_lookahead m !! a.

Record FetchedTx := { ft_data : string; ft_mined_height : option Z }.

Inductive ScanResult := ScanApplied | ScanContinuity (at_height : Z) | ScanFailed (debug : string).

(** The calls of a batch on the upstream and on the wallet database. *)
Class Backend `{RangeOps} (client db error account chain_state : Type) := {
  compact_block_range : client → Z → Z → bool → client * (list StreamItem * option error);
  tree_state : client → Z → client * result error chain_state;
  fetch_tx : client → txid → client * result error (option FetchedTx);
  is_h2_load_shed : error → bool;
  with_context : error → string → error;
  suggest_scan_ranges : db → result error (list ScanRange);
  scan_cached_blocks : db → MemBlockCache (encoded := string) → Z → chain_state → Z →
                       db * ScanResult;
  truncate_to_height : db → Z → db * result (TruncateError error) Z;
  put_received_transparent_utxo : db → WalletOutput → db * result error ();
  get_address_for_index : db → account → Z → db * result error ();
  (** [Transaction::read] at the consensus branch of a height, and storing it. *)
  read_transaction : string → Z → result error txid;
  decrypt_and_store_transaction : db → txid → option Z → db * result error ();
  max_money : Z;
  recipient_of : string → option address;
}.

Inductive BatchError (error : Type) :=
  | UpstreamOrStorage (e : error)
  | WalletApplyError (debug : string)
  | Reorg (e : RewindError error).
Arguments UpstreamOrStorage {error} e.
Arguments WalletApplyError {error} debug.
Arguments Reorg {error} e.

Section batch.
Context `{RangeOps} {client db error account chain_state : Type}
        `{B : !Backend client db error account chain_state}.

Record ScanOutcome := { ranges_changed : bool; so_reorged : bool }.

(** [scan_blocks]. *)
Definition scan_blocks (d : db) (blocks : MemBlockCache (encoded := string)) (cs : chain_state)
    (scan_range : ScanRange) (reorg_margin : Z) : db * result (BatchError error) ScanOutcome :=
  match scan_cached_blocks d blocks (range_start scan_range) cs (range_len scan_range) with
  | (d, ScanContinuity at_height) =>
      let margin := Z.max reorg_margin REORG_BASE_MARGIN in
      let requested := sat_sub at_height margin in
      let base := sat_sub at_height REORG_BASE_MARGIN in
      match perform_rewind truncate_to_height d at_height requested base with
      | (d, Ok _) => (d, Ok {| ranges_changed := true; so_reorged := true |})
      | (d, Err e) => (d, Err (Reorg e))
      end
  | (d, ScanApplied) =>
      match suggest_scan_ranges d with
      | Err e => (d, Err (UpstreamOrStorage e))
      | Ok latest =>
          (d, Ok {| ranges_changed := match head latest with
                                      | Some r => prio_gt (priority r) (priority scan_range)
                                      | None => false
                                      end;
                    so_reorged := false |})
      end
  | (d, ScanFailed debug) => (d, Err (WalletApplyError debug))
  end.

(** [store_fetched_tx]. *)
Definition store_fetched_tx (d : db) (fetched : FetchedTx) (height : Z) : db * result error () :=
  let mined := default height (ft_mined_height fetched) in
  match read_transaction (ft_data fetched) mined with
  | Err e => (d, Err e)
  | Ok tx => decrypt_and_store_transaction d tx (Some mined)
  end.

(** The state of the recording loops. *)
Record Recording := {
  rec_client : client; rec_db : db; rec_count : Z; rec_coinbase_stored : gset txid;
}.

Definition with_db (st : Recording) (d : db) : Recording :=
  {| rec_client := rec_client st; rec_db := d; rec_count := rec_count st;
     rec_coinbase_stored := rec_coinbase_stored st |}.

(** The coinbase part of one receive. *)
Definition record_coinbase (st : Recording) (mr : MatchedTransparentReceive) : Recording :=
  match mr_coinbase_tx mr with
  | Some tx =>
      if bool_decide (tx ∈ rec_coinbase_stored st) then st
      else
        {| rec_client := rec_client st;
           rec_db := (decrypt_and_store_transaction (rec_db st) tx (wo_height (mr_output mr))).1;
           rec_count := rec_count st; rec_coinbase_stored := {[tx]} ∪ rec_coinbase_stored st |}
  | None =>
      if mr_coinbase mr then
        match wo_height (mr_output mr) with
        | None => st
        | Some height =>
            let tx := wo_txid (mr_output mr) in
            if bool_decide (tx ∈ rec_coinbase_stored st) then st
            else
              let '(c, r) := fetch_tx (rec_client st) tx in
              {| rec_client := c;
                 rec_db := match r with
                           | Ok (Some fetched) => (store_fetched_tx (rec_db st) fetched height).1
                           | _ => rec_db st
                           end;
                 rec_count := rec_count st;
                 rec_coinbase_stored := {[tx]} ∪ rec_coinbase_stored st |}
        end
      else st
  end.

(** One pass of the receive loop; a failure skips to the next receive. *)
Definition record_receive (matcher : option (TransparentMatcher account)) (st : Recording)
    (mr : MatchedTransparentReceive) : Recording :=
  let output := mr_output mr in
  let '(st, exposed) :=
    match matcher with
    | Some m =>
        match lookahead_index m (wo_recipient output) with
        | Some index =>
            let '(d, r) := get_address_for_index (rec_db st) (tm_account m) index in
            (with_db st d, match r with Ok _ => true | Err _ => false end)
        | None => (st, true)
        end
    | None => (st, true)
    end in
  if negb exposed then st
  else
    match put_received_transparent_utxo (rec_db st) output with
    | (d, Err _) => with_db st d
    | (d, Ok _) =>
        record_coinbase
          {| rec_client := rec_client st; rec_db := d; rec_count := wrap_usize (rec_count st + 1);
             rec_coinbase_stored := rec_coinbase_stored st |} mr
    end.

(** One pass of the spend loop. *)
Definition record_spend (st : Recording) (ms : MatchedTransparentSpend) : Recording :=
  let '(c, r) := fetch_tx (rec_client st) (ms_spending_txid ms) in
  let st := {| rec_client := c; rec_db := rec_db st; rec_count := rec_count st;
               rec_coinbase_stored := rec_coinbase_stored st |} in
  match r with
  | Ok (Some fetched) =>
      match store_fetched_tx (rec_db st) fetched (ms_height ms) with
      | (d, Ok _) =>
          {| rec_client := rec_client st; rec_db := d; rec_count := wrap_usize (rec_count st + 1);
             rec_coinbase_stored := rec_coinbase_stored st |}
      | (d, Err _) => with_db st d
      end
  | _ => st
  end.

Record BatchOutcome := {
  worked : bool; bo_reorged : bool; transparent_recorded : Z; transparent_spends_recorded : Z;
  prefetch_hit : bool; bo_shape : RangeShape;
  (** The range whose download runs on for the next batch. *)
  next_prefetch : option ScanRange;
}.

Record BatchParams := {
  bp_transparent : option (TransparentMatcher account);
  bp_unspent : option (gset outpoint);
  bp_reorg_margin : Z;
  bp_batch_size : Z;
  bp_prefetched : option Prefetched;
  (** Whether the caller supplied a prefetch spawner. *)
  bp_prefetch : bool;
}.

Definition no_work : BatchOutcome :=
  {| worked := false; bo_reorged := false; transparent_recorded := 0;
     transparent_spends_recorded := 0; prefetch_hit := false; bo_shape := empty_shape;
     next_prefetch := None |}.

(** What follows the scan of a batch. *)
Definition finish_batch (batch : BatchParams) (c : client) (d : db) (downloaded : DownloadedRange)
    (hit : bool) (guess : option ScanRange) (outcome : ScanOutcome) :
    client * db * BatchOutcome :=
  let mk recorded spends pf :=
    {| worked := true; bo_reorged := so_reorged outcome; transparent_recorded := recorded;
       transparent_spends_recorded := spends; prefetch_hit := hit;
       bo_shape := dr_shape downloaded; next_prefetch := pf |} in
  if so_reorged outcome then (c, d, mk 0 0 None)
  else
    let st := foldl (record_receive (bp_transparent batch))
                {| rec_client := c; rec_db := d; rec_count := 0; rec_coinbase_stored := ∅ |}
                (dr_received downloaded) in
    let st2 := foldl record_spend
                {| rec_client := rec_client st; rec_db := rec_db st; rec_count := 0;
                   rec_coinbase_stored := ∅ |}
                (dr_spent downloaded) in
    (rec_client st2, rec_db st2, mk (rec_count st) (rec_count st2) guess).

(** The height whose tree state a batch starts from: the block below the range, at least 1. *)
Definition prior_height (scan_range : ScanRange) : Z :=
  Z.max (sat_sub (range_start scan_range) 1) 1.

(** The blocks of a batch: the prefetched ones when they cover exactly its range. *)
Definition take_range (batch : BatchParams) (c : client) (scan_range : ScanRange) :
    option (client * outcome (error := error) (bool * DownloadedRange)) :=
  match bp_prefetched batch with
  | Some p =>
      if bool_decide (pf_range p = scan_range) then Some (c, Done (true, pf_downloaded p))
      else
        '(c, o) ← download_blocks max_money recipient_of compact_block_range is_h2_load_shed
                    with_context c scan_range (tm_all <$> bp_transparent batch) (bp_unspent batch);
        Some (c, match o with Done x => Done (false, x) | Failed_ e => Failed_ e
                         | Panicked => Panicked end)
  | None =>
      '(c, o) ← download_blocks max_money recipient_of compact_block_range is_h2_load_shed
                  with_context c scan_range (tm_all <$> bp_transparent batch) (bp_unspent batch);
      Some (c, match o with Done x => Done (false, x) | Failed_ e => Failed_ e
                       | Panicked => Panicked end)
  end.

(** [sync_one_batch]; the outer option is the download loop's fuel. *)
Definition sync_one_batch (c : client) (d : db) (batch : BatchParams) :
    option (client * db * outcome (error := BatchError error) BatchOutcome) :=
  match suggest_scan_ranges d with
  | Err e => Some (c, d, Failed_ (UpstreamOrStorage e))
  | Ok [] => Some (c, d, Done no_work)
  | Ok ((first :: _) as scan_ranges) =>
      let scan_range := select_range first (bp_batch_size batch) in
      '(c, o) ← take_range batch c scan_range;
      match o with
      | Failed_ e => Some (c, d, Failed_ (UpstreamOrStorage e))
      | Panicked => Some (c, d, Panicked)
      | Done (hit, downloaded) =>
          let guess := if bp_prefetch batch
                       then next_range_guess scan_ranges scan_range (bp_batch_size batch)
                       else None in
          match tree_state c (prior_height scan_range) with
          | (c, Err e) => Some (c, d, Failed_ (UpstreamOrStorage e))
          | (c, Ok cs) =>
              match scan_blocks d (dr_blocks downloaded) cs scan_range (bp_reorg_margin batch) with
              | (d, Err e) => Some (c, d, Failed_ e)
              | (d, Ok outcome) =>
                  let '(c, d, bo) := finish_batch batch c d downloaded hit guess outcome in
                  Some (c, d, Done bo)
              end
          end
      end
  end.

End batch.
