(* ===== verification/EngineSpec.v ===== *)
(** * EngineSpec: what a sync batch guarantees

    An interrupted download gives the uninterrupted one's result; the matcher finds exactly the
    wallet's spends; the prefetch guess is the next selection; a rewind always removes the
    conflicting block and only gives up when nothing can; a reorged batch records nothing. *)

From S2P Require Export Engine.
Import MemCache.

(** ** Absorbing blocks *)

Section absorb.
Context (max_money : Z) (recipient_of : string → option address).
Abbreviation absorb_item := (absorb_item max_money recipient_of).
Abbreviation absorb_items := (absorb_items max_money recipient_of).

Lemma match_output_blocks addrs p u :
  dp_blocks (match_output max_money recipient_of addrs p u) = dp_blocks p.
Proof. unfold match_output. by case_match. Qed.

Lemma match_input_blocks p i : dp_blocks (match_input p i) = dp_blocks p.
Proof. unfold match_input. repeat case_match; done. Qed.

Lemma foldl_match_input_blocks p l : dp_blocks (foldl match_input p l) = dp_blocks p.
Proof.
  revert p. induction l as [|i l IH]; intros p; simpl; [done|].
  by rewrite IH, match_input_blocks.
Qed.

Lemma foldl_match_output_blocks addrs p l :
  dp_blocks (foldl (match_output max_money recipient_of addrs) p l) = dp_blocks p.
Proof.
  revert p. induction l as [|u l IH]; intros p; simpl; [done|].
  by rewrite IH, match_output_blocks.
Qed.

(** Absorbing a block above the last one succeeds and appends it. *)
Lemma absorb_item_ok transparent p it :
  (∀ x, last (heights (dp_blocks p)) = Some x → x < it_height it) →
  ∃ p', absorb_item transparent p it = Some p' ∧
        heights (dp_blocks p') = heights (dp_blocks p) ++ [it_height it] ∧
        blocks (dp_blocks p') = blocks (dp_blocks p) ++ [it_encoded it].
Proof.
  intros Hlast. unfold Engine.absorb_item. cbv zeta.
  rewrite foldl_match_input_blocks.
  assert (∀ p0, dp_blocks (match transparent with
      | Some a => foldl (match_output max_money recipient_of a) p0 (it_outs it)
      | None => p0 end) = dp_blocks p0) as E.
  { intros p0. destruct transparent; [apply foldl_match_output_blocks|done]. }
  rewrite E. simpl. rewrite push_ok by done. simpl. eexists. split; [reflexivity|]. done.
Qed.

Lemma absorb_items_none transparent l :
  foldl (λ op it, op ≫= λ p, absorb_item transparent p it) None l = None.
Proof. by induction l. Qed.

Lemma absorb_items_app transparent p l k :
  absorb_items transparent p (l ++ k) =
  absorb_items transparent p l ≫= λ p', absorb_items transparent p' k.
Proof.
  unfold Engine.absorb_items. rewrite foldl_app.
  destruct (foldl _ (Some p) l); simpl; [done|]. apply absorb_items_none.
Qed.

Lemma absorb_items_snoc transparent p l it :
  absorb_items transparent p (l ++ [it]) =
  absorb_items transparent p l ≫= λ p', absorb_item transparent p' it.
Proof. by rewrite absorb_items_app. Qed.

(** Consecutive blocks are all absorbed. *)
Lemma absorb_chain transparent (chain : Z → StreamItem) unspent start n :
  (∀ h, it_height (chain h) = h) →
  0 ≤ n →
  ∃ p, absorb_items transparent (empty_progress unspent) (chain <$> seqZ start n) = Some p ∧
       heights (dp_blocks p) = seqZ start n ∧ cache_len (dp_blocks p) = Z.to_nat n.
Proof.
  intros Hh Hn. pattern n. apply natlike_ind; [| |exact Hn].
  - by eexists.
  - clear n Hn. intros n Hn (p & E & Hhs & Hlen).
    unfold Z.succ. rewrite seqZ_app by lia. rewrite fmap_app, absorb_items_app, E. simpl.
    change (seqZ (start + n) 1) with [0 + (start + n)]. rewrite Z.add_0_l. simpl.
    destruct (absorb_item_ok transparent p (chain (start + n))) as (p' & E' & H1 & H2).
    { intros x. rewrite Hhs, Hh, last_lookup, length_seqZ.
      intros [-> Hx]%lookup_seqZ. lia. }
    exists p'. split; [exact E'|]. rewrite H1, Hhs, Hh. split; [done|].
    unfold cache_len in *. rewrite H2, length_app, Hlen. simpl. lia.
Qed.
End absorb.

(** ** Downloading *)

Section download.
Context `{RangeOps} {client error : Type}.
Context (max_money : Z) (recipient_of : string → option address)
        (cbr : client → Z → Z → bool → client * (list StreamItem * option error))
        (shed : error → bool) (ctx : error → string → error).
Context (chain : Z → StreamItem).

(** An upstream that serves the chain: an attempt streams a prefix of the range asked for, all
    of it unless it failed. *)
Record serves_chain : Prop := {
  chain_heights : ∀ h, it_height (chain h) = h;
  attempts : ∀ c n e t, n ≤ e → ∃ k c' err,
    cbr c n e t = (c', (chain <$> seqZ n k, err)) ∧
    0 ≤ k ≤ e - n + 1 ∧ (err = None → k = e - n + 1);
}.

(** Every failed attempt is a load shed that streamed something first. *)
Definition only_sheds_after_progress : Prop :=
  ∀ c n e t c' items err, n ≤ e → cbr c n e t = (c', (items, Some err)) →
    shed err = true ∧ items ≠ [].

Abbreviation loop := (download_loop max_money recipient_of cbr shed ctx).
Abbreviation absorbed transparent unspent start m :=
  (absorb_items max_money recipient_of transparent (empty_progress unspent)
     (chain <$> seqZ start m)).

Lemma last_seqZ start m : 0 < m → last (seqZ start m) = Some (start + m - 1).
Proof.
  intros Hm. rewrite last_lookup, length_seqZ. apply lookup_seqZ. lia.
Qed.

Lemma download_loop_spec (transparent : option (gset address)) unspent start last fuel :
  serves_chain → 0 ≤ start ≤ last + 1 → last < u32_max →
  ∀ c m p stalled,
  0 ≤ m ≤ last - start + 1 → absorbed transparent unspent start m = Some p →
  0 ≤ stalled ≤ 3 → 4 * (last - start + 1 - m) + (3 - stalled) < Z.of_nat fuel →
  ∃ c' o, loop fuel c (start + m) last stalled transparent p = Some (c', o) ∧
    match o with
    | Done p' => absorbed transparent unspent start (last - start + 1) = Some p'
    | Failed_ _ => ¬ only_sheds_after_progress
    | Panicked => False
    end.
Proof.
  intros Hserve Hstart Hlast. induction fuel as [|fuel IH]; intros c m p stalled Hm Hp Hst Hfuel;
    [lia|]. cbn [download_loop].
  destruct (Z.leb_spec (start + m) last) as [Hle|Hgt]; cycle 1.
  { exists c, (Done p). split; [done|]. by replace (last - start + 1) with m by lia. }
  destruct (attempts Hserve c (start + m) last (match transparent with Some _ => true | None => false end) Hle)
    as (k & c' & err & E & Hk & Hnone).
  unfold download_range_once. rewrite E.
  destruct (absorb_chain max_money recipient_of transparent chain unspent start (m + k)
    (chain_heights Hserve) ltac:(lia)) as (p' & Ep' & Hh & Hlen).
  destruct (absorb_chain max_money recipient_of transparent chain unspent start m
    (chain_heights Hserve) ltac:(lia)) as (p0 & Ep0 & _ & Hlen0).
  assert (p0 = p) as -> by congruence.
  assert (absorb_items max_money recipient_of transparent p (chain <$> seqZ (start + m) k) = Some p')
    as ->.
  { rewrite seqZ_app, fmap_app, absorb_items_app, Hp in Ep' by lia. exact Ep'. }
  destruct err as [e|]; cycle 1.
  { exists c', (Done p'). split; [done|]. rewrite Hnone in Ep' by done.
    by replace (last - start + 1) with (m + (last - (start + m) + 1)) by lia. }
  destruct (shed e) eqn:Hshed; cycle 1.
  { exists c', (Failed_ e). split; [done|]. intros Ho.
    destruct (Ho _ _ _ _ _ _ _ Hle E) as [? _]. congruence. }
  assert (last_height (dp_blocks p') = if decide (m + k = 0) then None else Some (start + (m + k) - 1))
    as Hlh.
  { unfold last_height. rewrite Hh. case_decide as Hmk; [by rewrite Hmk|]. apply last_seqZ. lia. }
  unfold plan_load_shed_resume. rewrite Hlh, Hlen, Hlen0.
  assert (match (if decide (m + k = 0) then None else Some (start + (m + k) - 1)) with
          | Some h => u32_sat_add h 1 | None => start + m end = start + (m + k)) as ->.
  { case_decide; width. }
  destruct (Nat.ltb_spec (Z.to_nat m) (Z.to_nat (m + k))) as [Hprog|Hstall].
  - apply IH; [lia|done|lia|lia].
  - assert (k = 0) as -> by lia.
    destruct (Z.ltb_spec MAX_STALLED_STREAM_RESTARTS (stalled + 1)) as [Hmax|Hmax].
    + eexists c', (Failed_ _). split; [done|]. intros Ho.
      by destruct (Ho _ _ _ _ _ _ _ Hle E) as [_ ?].
    + unfold MAX_STALLED_STREAM_RESTARTS in Hmax. apply IH; [lia|done|lia|lia].
Qed.

(** C26. An interrupted download is the uninterrupted one. Against an upstream that streams
    prefixes of the chain, however often the connection is shed in the middle, the download
    loop ends, never trips the cache's assertion, and what it returns - blocks, shape, matched
    receives and spends - is what one uninterrupted pass over the range gives; and it does not
    fail as long as every interruption is a load shed after some progress. *)
Theorem download_resumes_exactly (transparent : option (gset address))
    (unspent : option (gset outpoint)) (c : client) (r : ScanRange) :
  serves_chain → 0 ≤ range_start r < range_end r → range_end r ≤ u32_max →
  ∃ c' o, download_blocks max_money recipient_of cbr shed ctx c r transparent unspent = Some (c', o) ∧
    match o with
    | Done d => ∃ p,
        absorb_items max_money recipient_of transparent (empty_progress unspent)
          (chain <$> seqZ (range_start r) (range_len r)) = Some p ∧ d = finish_download p ∧
        heights (dr_blocks d) = seqZ (range_start r) (range_len r)
    | Failed_ _ => ¬ only_sheds_after_progress
    | Panicked => False
    end.
Proof.
  intros Hserve Hr Hmax. set (last := sat_sub (range_end r) 1).
  assert (last = range_end r - 1) as El by (unfold last; width).
  assert (range_len r = last - range_start r + 1) as Elen by (unfold range_len; rewrite El; width).
  destruct (download_loop_spec transparent unspent (range_start r) last
    (download_fuel (range_start r) last) Hserve ltac:(lia) ltac:(lia) c 0
    (empty_progress unspent) 0) as (c' & o & E & Ho).
  - lia.
  - done.
  - lia.
  - unfold download_fuel. lia.
  - rewrite Z.add_0_r in E. unfold download_blocks. fold last. rewrite E. simpl.
    destruct o as [p|e|]; [|by exists c', (Failed_ e)|done].
    eexists c', (Done _). split; [done|]. exists p. rewrite Elen. split; [done|]. split; [done|].
    destruct (absorb_chain max_money recipient_of transparent chain unspent (range_start r)
      (last - range_start r + 1) (chain_heights Hserve) ltac:(lia)) as (p' & E' & Hh & _).
    assert (p' = p) as -> by congruence. exact Hh.
Qed.
End download.

(** A concrete range interface and a flaky upstream: every attempt is shed after one block,
    until one block is left. *)
#[export] Instance demo_ranges : RangeOps := {|
  prio := Z;
  Verify := 60;
  prio_gt a b := b <? a;
  split_bounds s e p := if decide (s < p < e) then Some (s, p, (p, e)) else None;
|}.
#[export] Instance demo_range_laws : RangeLaws.
Proof. intros s e p. reflexivity. Qed.

Definition demo_chain (h : Z) : StreamItem :=
  {| it_height := h; it_encoded := "block"; it_txs := [(1, 2)]; it_outs := []; it_ins := [] |}.

Definition flaky (c : nat) (n e : Z) (t : bool) : nat * (list StreamItem * option ()) :=
  (S c, if n <? e then ([demo_chain n], Some tt) else (demo_chain <$> seqZ n (e - n + 1), None)).

Lemma flaky_serves : serves_chain flaky demo_chain.
Proof.
  split; [done|]. intros c n e t Hle. unfold flaky. destruct (Z.ltb_spec n e).
  - exists 1, (S c), (Some tt). split; [|split; [lia|done]].
    change (seqZ n 1) with [0 + n]. by rewrite Z.add_0_l.
  - exists (e - n + 1), (S c), None. split; [done|]. split; [lia|done].
Qed.

Lemma download_resumes_exactly_witness :
  let r := {| range_start := 5; range_end := 9; priority := 20 |} in
  ∃ c' p, download_blocks 21 Some flaky (λ _, true) (λ e _, e) 0%nat r None None =
            Some (c', Done (finish_download p)) ∧
          c' = 4%nat ∧ heights (dp_blocks p) = [5; 6; 7; 8].
Proof.
  intros r.
  destruct (download_resumes_exactly 21 Some flaky (λ _, true) (λ e _, e) demo_chain None None
    0%nat r flaky_serves) as (c' & o & E & Ho).
  { simpl. lia. }
  { by vm_compute. }
  assert (download_blocks 21 Some flaky (λ _, true) (λ e _, e) 0%nat r None None ≫=
            (λ '(c, o), match o with Done _ => Some c | _ => None end) = Some 4%nat) as Hc
    by (vm_compute; reflexivity).
  rewrite E in Hc. simpl in Hc. destruct o as [d|e|]; [|discriminate Hc|discriminate Hc].
  destruct Ho as (p & _ & -> & Hh). exists c', p. split; [exact E|].
  split; [congruence|exact Hh].
Defined.

(** ** Matching transparent spends *)

Definition prevout (i : BlockInput) : outpoint := (i_prevout_txid i, i_prevout_index i).
Definition spend_of (i : BlockInput) : MatchedTransparentSpend :=
  {| ms_spending_txid := i_spending_txid i; ms_height := i_height i |}.

Section spends.
Context (max_money : Z) (recipient_of : string → option address) (addresses : gset address).

Definition owned_outpoint (u : BlockUtxo) : option outpoint :=
  o ← owned_transparent_output max_money recipient_of addresses (u_txid u) (u_index u)
        (u_value_zat u) (u_script u) (u_height u);
  Some (wo_txid o, wo_index o).

Lemma match_output_watch p u w :
  dp_watch p = Some w →
  let p' := match_output max_money recipient_of addresses p u in
  dp_spent p' = dp_spent p ∧
  ∃ w', dp_watch p' = Some w' ∧ ∀ op, op ∈ w' ↔ op ∈ w ∨ owned_outpoint u = Some op.
Proof.
  intros Hw. unfold match_output, owned_outpoint.
  destruct (owned_transparent_output _ _ _ _ _ _ _ _) as [o|]; simpl.
  - split; [done|]. rewrite Hw. eexists. split; [done|]. set_solver.
  - split; [done|]. exists w. split; [done|]. naive_solver.
Qed.

Lemma match_outputs_watch l p w :
  dp_watch p = Some w →
  let p' := foldl (match_output max_money recipient_of addresses) p l in
  dp_spent p' = dp_spent p ∧
  ∃ w', dp_watch p' = Some w' ∧ ∀ op, op ∈ w' ↔ op ∈ w ∨ op ∈ omap owned_outpoint l.
Proof.
  revert p w. induction l as [|u l IH]; intros p w Hw; cbn [foldl].
  { split; [done|]. exists w. split; [done|]. set_solver. }
  destruct (match_output_watch p u w Hw) as (H1 & w1 & Hw1 & H2).
  destruct (IH _ w1 Hw1) as (H3 & w' & Hw' & H4). cbn zeta in *.
  split; [congruence|]. exists w'. split; [done|]. intros op.
  rewrite H4, H2, !list_elem_of_omap. setoid_rewrite elem_of_cons. naive_solver.
Qed.

Lemma match_input_spec p i w :
  dp_watch p = Some w →
  dp_watch (match_input p i) = Some (w ∖ {[prevout i]}) ∧
  (∀ ms, ms ∈ dp_spent (match_input p i) ↔
     ms ∈ dp_spent p ∨ (prevout i ∈ w ∧ ms = spend_of i)) ∧
  (NoDup (dp_spent p) → NoDup (dp_spent (match_input p i))).
Proof.
  intros Hw. unfold match_input. rewrite Hw. fold (prevout i) (spend_of i).
  case_bool_decide as Hin; simpl; cycle 1.
  { rewrite Hw. split; [f_equal; set_solver|]. split; [naive_solver|done]. }
  split; [done|]. case_bool_decide as Hs; simpl.
  - split; [naive_solver|done].
  - split; [intros ms; rewrite elem_of_app, list_elem_of_singleton; naive_solver|].
    intros Hnd. apply NoDup_app. split; [done|]. split; [set_solver|apply NoDup_singleton].
Qed.

Lemma match_inputs_spec l p w :
  dp_watch p = Some w → NoDup (prevout <$> l) →
  let p' := foldl match_input p l in
  (∃ w', dp_watch p' = Some w' ∧ ∀ op, op ∈ w' ↔ op ∈ w ∧ op ∉ prevout <$> l) ∧
  (∀ ms, ms ∈ dp_spent p' ↔ ms ∈ dp_spent p ∨ ∃ i, i ∈ l ∧ prevout i ∈ w ∧ ms = spend_of i) ∧
  (NoDup (dp_spent p) → NoDup (dp_spent p')).
Proof.
  revert p w. induction l as [|i l IH]; intros p w Hw Hnd; simpl.
  { split; [exists w; split; [done|set_solver]|]. split; [set_solver|done]. }
  simpl in Hnd. apply NoDup_cons in Hnd as [Hi Hnd].
  destruct (match_input_spec p i w Hw) as (H1 & H2 & H3).
  destruct (IH _ _ H1 Hnd) as ((w' & E & Hw') & H5 & H6). simpl in *. split; [|split].
  - exists w'. split; [done|]. intros op. rewrite Hw'. set_solver.
  - intros ms. rewrite H5, H2. split.
    + intros [[?|[??]]|(j & Hj & Hp & ->)]; [by left|right; exists i; set_solver|].
      right. exists j. set_solver.
    + intros [?|(j & Hj & Hp & ->)]; [by do 2 left|].
      apply elem_of_cons in Hj as [->|Hj]; [by left; right|]. right. exists j.
      split; [done|]. split; [|done]. apply elem_of_difference. split; [done|].
      rewrite elem_of_singleton. intros Hij. apply Hi. rewrite <- Hij.
      apply list_elem_of_fmap. eauto.
  - intros Hn. apply H6, H3, Hn.
Qed.

(** The outpoints of a block that pay the wallet. *)
Definition received_in (it : StreamItem) : list outpoint := omap owned_outpoint (it_outs it).

Definition inputs_of (items : list StreamItem) : list BlockInput := items ≫= it_ins.
Definition received_of (items : list StreamItem) : list outpoint := items ≫= received_in.

(** An input of the blocks that spends an output the wallet held at the start or received in
    the same or an earlier block. *)
Definition wallet_spend (held : gset outpoint) (items : list StreamItem) (i : BlockInput) : Prop :=
  ∃ pre it post, items = pre ++ it :: post ∧ i ∈ it_ins it ∧
    (prevout i ∈ held ∨ prevout i ∈ received_of (pre ++ [it])).

Lemma wallet_spend_snoc held items it i :
  wallet_spend held (items ++ [it]) i ↔
  wallet_spend held items i ∨
  (i ∈ it_ins it ∧ (prevout i ∈ held ∨ prevout i ∈ received_of (items ++ [it]))).
Proof.
  split.
  - intros (pre & x & post & E & Hi & Hp).
    destruct post as [|y post _] using rev_ind.
    + apply app_inj_tail in E as [-> ->]. by right.
    + rewrite app_comm_cons, app_assoc in E. apply app_inj_tail in E as [-> ->].
      left. by exists pre, x, post.
  - intros [(pre & x & post & -> & Hi & Hp)|[Hi Hp]].
    + exists pre, x, (post ++ [it]). rewrite <- app_assoc. done.
    + by exists items, it, [].
Qed.

(** C25. The scan finds exactly the wallet's own transparent spends: over a range of blocks
    that spends no outpoint twice, a spend is recorded if and only if some input consumes an
    output the wallet held when the batch started, or one that the same batch saw it receive
    in that block or an earlier one - and each spending transaction is recorded once. *)
Theorem spends_found_exactly (held : gset outpoint) (items : list StreamItem)
    (p : DownloadProgress) :
  absorb_items max_money recipient_of (Some addresses) (empty_progress (Some held)) items = Some p →
  NoDup (prevout <$> inputs_of items) →
  (∀ ms, ms ∈ dp_spent p ↔ ∃ i, wallet_spend held items i ∧ ms = spend_of i) ∧
  NoDup (dp_spent p).
Proof.
  intros E Hnd.
  cut ((∃ w, dp_watch p = Some w ∧ ∀ op, op ∉ prevout <$> inputs_of items →
          (op ∈ w ↔ op ∈ held ∨ op ∈ received_of items)) ∧
       (∀ ms, ms ∈ dp_spent p ↔ ∃ i, wallet_spend held items i ∧ ms = spend_of i) ∧
       NoDup (dp_spent p)); [tauto|].
  revert p E Hnd. induction items as [|it items IH] using rev_ind; intros p E Hnd.
  { injection E as <-. simpl. split; [exists held; split; [done|set_solver]|].
    split; [|constructor]. intros ms. split; [set_solver|].
    intros (i & (pre & x & post & Hx & _) & _). by destruct pre. }
  rewrite absorb_items_snoc in E.
  destruct (absorb_items _ _ _ _ items) as [p0|]; [simpl in E|done].
  unfold inputs_of in Hnd |- *. rewrite bind_app, fmap_app in Hnd |- *.
  fold (inputs_of items) in Hnd |- *. simpl in Hnd |- *. rewrite app_nil_r in Hnd |- *.
  apply NoDup_app in Hnd as (Hnd0 & Hdis & Hnd1).
  destruct (IH p0 eq_refl Hnd0) as ((w & Ew & Hw) & Hs & Hn). clear IH.
  unfold absorb_item in E. cbv zeta in E.
  set (p1 := {| dp_blocks := dp_blocks p0; dp_shape := _; dp_received := _; dp_spent := _;
                dp_watch := _ |}) in E.
  destruct (match_outputs_watch (it_outs it) p1 w Ew) as (Hs2 & w2 & Ew2 & Hw2).
  destruct (match_inputs_spec (it_ins it) _ w2 Ew2 Hnd1) as ((w3 & Ew3 & Hw3) & Hs3 & Hn3).
  set (p3 := foldl match_input _ (it_ins it)) in *.
  destruct (push (dp_blocks p3) _ _) as [bs|]; [simpl in E|done]. injection E as <-. simpl.
  rewrite Hs2 in Hs3, Hn3. simpl in Hs3, Hn3.
  assert (∀ op, op ∉ prevout <$> inputs_of items →
            (op ∈ w2 ↔ op ∈ held ∨ op ∈ received_of (items ++ [it]))) as Hlive.
  { intros op Hop. rewrite Hw2, (Hw op Hop). unfold received_of. rewrite bind_app, elem_of_app.
    simpl. rewrite app_nil_r. unfold received_in. tauto. }
  split; [|split; [|auto]].
  - exists w3. split; [done|]. intros op. rewrite elem_of_app. intros Hop.
    rewrite Hw3, Hlive by tauto. tauto.
  - intros ms. rewrite Hs3, Hs. split.
    + intros [(i & Hi & ->)|(i & Hi & Hp & ->)]; exists i; rewrite wallet_spend_snoc; [tauto|].
      split; [|done]. right. split; [done|]. apply Hlive; [|done].
      intros Hin. apply (Hdis _ Hin). apply list_elem_of_fmap. eauto.
    + intros (i & Hi & ->). apply wallet_spend_snoc in Hi as [Hi|[Hi Hp]]; [left; eauto|].
      right. exists i. split; [done|]. split; [|done]. apply Hlive; [|done].
      intros Hin. apply (Hdis _ Hin). apply list_elem_of_fmap. eauto.
Qed.
End spends.

Definition demo_receive : StreamItem :=
  {| it_height := 7; it_encoded := "b7"; it_txs := []; it_ins := [];
     it_outs := [{| u_txid := "t1"; u_index := 0; u_value_zat := 5; u_script := "addr";
                    u_height := Some 7; u_coinbase_tx := None; u_coinbase := false |}] |}.
Definition demo_spend : StreamItem :=
  {| it_height := 8; it_encoded := "b8"; it_txs := []; it_outs := [];
     it_ins := [{| i_prevout_txid := "t1"; i_prevout_index := 0; i_spending_txid := "t2";
                   i_height := 8 |};
                {| i_prevout_txid := "zz"; i_prevout_index := 3; i_spending_txid := "t3";
                   i_height := 8 |}] |}.

Lemma spends_found_exactly_witness :
  ∃ p, absorb_items 21 Some (Some {["addr"]}) (empty_progress (Some ∅)) [demo_receive; demo_spend]
         = Some p ∧ (∀ ms, ms ∈ dp_spent p ↔ ms = {| ms_spending_txid := "t2"; ms_height := 8 |}).
Proof.
  destruct (absorb_items 21 Some (Some {["addr"]}) (empty_progress (Some ∅))
    [demo_receive; demo_spend]) as [p|] eqn:E; [|vm_compute in E; discriminate E].
  exists p. split; [reflexivity|]. intros ms.
  assert (dp_spent p = [{| ms_spending_txid := "t2"; ms_height := 8 |}]) as Es.
  { assert ((dp_spent <$> absorb_items 21 Some (Some {["addr"]}) (empty_progress (Some ∅))
      [demo_receive; demo_spend]) = Some [{| ms_spending_txid := "t2"; ms_height := 8 |}]) as H
      by (vm_compute; reflexivity). rewrite E in H. simpl in H. congruence. }
  destruct (spends_found_exactly 21 Some {["addr"]} ∅ [demo_receive; demo_spend] p E) as [_ Hnd].
  { apply (bool_decide_unpack _). vm_compute. exact I. }
  rewrite Es. apply list_elem_of_singleton.
Defined.

(** ** The prefetch guess *)

Lemma split_at_inside `{RangeOps, !RangeLaws} (r : ScanRange) p :
  range_start r < p → p < range_end r →
  split_at r p = Some ({| range_start := range_start r; range_end := p; priority := priority r |},
                       {| range_start := p; range_end := range_end r; priority := priority r |}).
Proof. intros. unfold split_at. by rewrite split_bounds_spec, decide_True. Qed.

Lemma split_at_outside `{RangeOps, !RangeLaws} (r : ScanRange) p :
  range_end r ≤ p → split_at r p = None.
Proof. intros. unfold split_at. by rewrite split_bounds_spec, decide_False by lia. Qed.

(** The prefetch guess is right whenever the scan retires its range: for the range at the
    head of the queue, the guess made before the scan is exactly the selection the next batch
    makes from what the scan leaves of it; there is none exactly when nothing is left (or the
    range is a [Verify]); and the batches taken this way tile the range. *)
Theorem next_guess_exact `{RangeOps, !RangeLaws} (first : ScanRange) (others : list ScanRange)
    (batch_size : Z) :
  0 ≤ range_start first < range_end first → range_end first ≤ u32_max → 0 < batch_size →
  let scanning := select_range first batch_size in
  let rest := {| range_start := range_end scanning; range_end := range_end first;
                 priority := priority first |} in
  range_start scanning = range_start first ∧
  range_start first < range_end scanning ≤ range_end first ∧
  (priority first ≠ Verify → range_end scanning - range_start scanning ≤ batch_size) ∧
  next_range_guess (first :: others) scanning batch_size =
    if decide (priority first = Verify ∨ range_end scanning = range_end first) then None
    else Some (select_range rest batch_size).
Proof.
  intros Hr Hmax Hb. cbv zeta. unfold select_range, next_range_guess. cbn [head mbind option_bind].
  destruct (decide (priority first = Verify)) as [Hv|Hv].
  { rewrite !bool_decide_true by done. rewrite decide_True by auto.
    split_and!; [done|lia|lia|intros []; done|done]. }
  rewrite !(bool_decide_false (priority first = Verify)) by done.
  assert (range_start first < u32_sat_add (range_start first) batch_size ∧
          u32_sat_add (range_start first) batch_size - range_start first ≤ batch_size) as [Hlt Hle]
    by width.
  destruct (decide (u32_sat_add (range_start first) batch_size < range_end first)) as [Hin|Hout].
  - rewrite (split_at_inside first) by done. cbn [range_start range_end].
    rewrite decide_False by (intros [?|?]; [done|lia]).
    split_and!; [done|lia|lia|done|].
    rewrite (split_at_inside first) by done. cbn [mbind option_bind priority range_start].
    by destruct (split_at _ _) as [[]|].
  - rewrite split_at_outside by lia.
    rewrite decide_True by auto. split_and!; [done|lia|lia|intros _; lia|].
    rewrite split_at_outside by lia. done.
Qed.

Lemma next_guess_exact_witness :
  let first := {| range_start := 100; range_end := 25100; priority := 50 |} in
  next_range_guess [first] (select_range first 10000) 10000 =
    Some {| range_start := 10100; range_end := 20100; priority := 50 |}.
Proof.
  intros first.
  destruct (next_guess_exact first [] 10000) as (_ & _ & _ & E); [simpl; lia|by vm_compute|lia|].
  rewrite E. vm_compute. reflexivity.
Defined.

(** ** Rewinding *)

Section rewind.
Context {db error : Type} (trunc : db → Z → db * result (TruncateError error) Z).

(** A storage that can rewind to any height from [floor] up, lands at or below the target, and
    changes nothing when it refuses. *)
Record rewinds_from (floor : Z) : Prop := {
  rw_accepts : ∀ d t, floor ≤ t → ∃ d' h, trunc d t = (d', Ok h) ∧ floor ≤ h ≤ t;
  rw_refuses : ∀ d t, t < floor → ∃ safe, trunc d t = (d, Err (RequestedRewindInvalid safe));
}.

Lemma try_candidates_spec floor d targets :
  rewinds_from floor →
  match try_candidates trunc d targets with
  | (d', Ok (Some h)) => ∃ t, t ∈ targets ∧ floor ≤ h ≤ t
  | (d', Ok None) => d' = d ∧ ∀ t, t ∈ targets → t < floor
  | (_, Err _) => False
  end.
Proof.
  intros Hrw. revert d. induction targets as [|t targets IH]; intros d; simpl.
  { split; [done|]. set_solver. }
  destruct (decide (floor ≤ t)) as [Hle|Hgt].
  - destruct (rw_accepts floor Hrw d t Hle) as (d' & h & -> & Hh). exists t. split; [set_solver|done].
  - destruct (rw_refuses floor Hrw d t ltac:(lia)) as [safe ->]. specialize (IH d).
    destruct (try_candidates trunc d targets) as [d' [[h|]|e]].
    + destruct IH as (t' & Ht' & Hh). exists t'. split; [set_solver|done].
    + destruct IH as [-> Hall]. split; [done|]. intros t' [->|Ht']%elem_of_cons; [lia|by apply Hall].
    + done.
Qed.

Lemma rewind_candidates_below at_height requested base safe t :
  2 ≤ at_height → base ≤ at_height - 2 → requested ≤ at_height - 2 →
  t ∈ rewind_candidates at_height requested base safe → t ≤ at_height - 2.
Proof.
  intros Ha Hb Hreq. unfold rewind_candidates. cbv zeta.
  assert (sat_sub at_height 2 = at_height - 2) as -> by width.
  destruct ((base <? at_height) && (requested <? base)) eqn:E1;
    destruct safe as [h|]; try destruct ((h <? requested) && (h <? at_height - 2)) eqn:E2;
    simpl; rewrite ?elem_of_cons, ?elem_of_nil; bool_lia || (intros; lia).
Qed.

(** C12. A rewind removes the block in conflict, and only a wallet with nothing left to rewind
    to is given up: over any storage that can rewind from some floor height up, [perform_rewind]
    ends at a height at most two below the break - below the stale block - exactly when the
    floor is no higher than that, whatever the margin asked for; otherwise it reports the
    reorg as unrecoverable, and the wallet is as it was. *)
Theorem perform_rewind_recovers (d : db) (floor at_height margin : Z) :
  rewinds_from floor → 0 ≤ floor → 2 ≤ at_height → REORG_BASE_MARGIN ≤ margin →
  let requested := sat_sub at_height margin in
  let base := sat_sub at_height REORG_BASE_MARGIN in
  match perform_rewind trunc d at_height requested base with
  | (_, Ok h) => floor ≤ h ≤ at_height - 2
  | (d', Err (UnrecoverableReorg a r _)) =>
      d' = d ∧ a = at_height ∧ r = requested ∧ at_height - 2 < floor
  | (_, Err (RewindStorage _)) => False
  end.
Proof.
  intros Hrw Hf Ha Hm. cbv zeta. unfold REORG_BASE_MARGIN in *.
  set (requested := sat_sub at_height margin). set (base := sat_sub at_height 10).
  assert (requested ≤ at_height - 2 ∧ base ≤ at_height - 2) as [Hreq Hbase]
    by (unfold requested, base; width).
  unfold perform_rewind. destruct (decide (floor ≤ requested)) as [Hle|Hgt].
  { destruct (rw_accepts floor Hrw d requested Hle) as (d' & h & -> & Hh). lia. }
  destruct (rw_refuses floor Hrw d requested ltac:(lia)) as [safe ->].
  pose proof (try_candidates_spec floor d (rewind_candidates at_height requested base safe) Hrw)
    as Hc.
  destruct (try_candidates trunc d _) as [d' [[h|]|e]]; [| |done].
  - destruct Hc as (t & Ht & Hh). apply rewind_candidates_below in Ht; lia.
  - destruct Hc as [-> Hall]. split_and!; [done|done|done|].
    assert (sat_sub at_height 2 < floor) as Hs; [|revert Hs; unfold sat_sub; lia].
    apply Hall. unfold rewind_candidates. set_solver.
Qed.
End rewind.

(** A storage that remembers its tip and keeps blocks from height 50. *)
Definition demo_trunc (d t : Z) : Z * result (TruncateError ()) Z :=
  if 50 <=? t then (t, Ok t) else (d, Err (RequestedRewindInvalid (Some 50))).

Lemma demo_rewinds : rewinds_from demo_trunc 50.
Proof.
  split; intros d t Ht; unfold demo_trunc.
  - rewrite (proj2 (Z.leb_le _ _)) by done. exists t, t. split; [done|lia].
  - rewrite (proj2 (Z.leb_gt _ _)) by done. by exists (Some 50).
Qed.

Lemma perform_rewind_recovers_witness :
  ∃ h, perform_rewind demo_trunc 99 55 (sat_sub 55 20) (sat_sub 55 10) = (h, Ok h) ∧
       50 ≤ h ≤ 55 - 2.
Proof.
  pose proof (perform_rewind_recovers demo_trunc 99 50 55 20 demo_rewinds) as H.
  exists 53. split; [reflexivity|].
  specialize (H ltac:(lia) ltac:(lia) ltac:(unfold REORG_BASE_MARGIN; lia)). exact H.
Defined.

(** ** The batch *)

Section batch.
Context `{RangeOps} {client db error account chain_state : Type}
        `{B : !Backend client db error account chain_state}.
Implicit Types batch : BatchParams (account := account).

(** A reorged batch leaves nothing of the abandoned fork behind. Whenever
    [sync_one_batch] answers, the prefetched blocks were used only if they cover exactly the
    range it selected, and the tree state asked for is that of the block below the range, never
    of a height below 1; when the scan hit a reorg, no receive and no spend of the downloaded
    blocks was recorded, no prefetch is kept, and the database is what the rewind left. *)
Theorem reorged_batch_records_nothing (c c' : client) (d d' : db) batch (bo : BatchOutcome) :
  sync_one_batch c d batch = Some (c', d', Done bo) → worked bo = true →
  ∃ first rest downloaded c1 c2 cs,
    suggest_scan_ranges d = Ok (first :: rest) ∧
    (prefetch_hit bo = true →
       ∃ p, bp_prefetched batch = Some p ∧ pf_range p = select_range first (bp_batch_size batch) ∧
            downloaded = pf_downloaded p) ∧
    1 ≤ prior_height (select_range first (bp_batch_size batch)) ∧
    tree_state c1 (prior_height (select_range first (bp_batch_size batch))) = (c2, Ok cs) ∧
    (bo_reorged bo = true →
       transparent_recorded bo = 0 ∧ transparent_spends_recorded bo = 0 ∧
       next_prefetch bo = None ∧ c' = c2 ∧
       ∃ o, scan_blocks d (dr_blocks downloaded) cs (select_range first (bp_batch_size batch))
              (bp_reorg_margin batch) = (d', Ok o) ∧ so_reorged o = true) ∧
    (bo_reorged bo = false → next_prefetch bo =
       if bp_prefetch batch
       then next_range_guess (first :: rest) (select_range first (bp_batch_size batch))
              (bp_batch_size batch)
       else None).
Proof.
  unfold sync_one_batch. intros E Hw.
  destruct (suggest_scan_ranges d) as [[|first rest]|e]; [injection E as <- <- <-; done| |done].
  set (r := select_range first (bp_batch_size batch)) in *.
  destruct (take_range batch c r) as [[c1 o]|] eqn:Et; [simpl in E|done].
  destruct o as [[hit dl]|e|]; [|done|done].
  destruct (tree_state c1 (prior_height r)) as [c2 [cs|e]] eqn:Es; [|done].
  destruct (scan_blocks d (dr_blocks dl) cs r (bp_reorg_margin batch)) as [d2 [o|e]] eqn:Eb; [|done].
  unfold finish_batch in E. set (guess := if bp_prefetch batch then _ else _) in E.
  exists first, rest, dl, c1, c2, cs. split; [done|]. split; [|split; [unfold prior_height; lia|split; [done|]]].
  - intros Hhit. assert (hit = true) as ->.
    { destruct (so_reorged o); simpl in E; injection E as <- <- <-; exact Hhit. }
    unfold take_range in Et.
    destruct (bp_prefetched batch) as [p|]; [case_bool_decide as Hp|];
      [injection Et as <- <-; by exists p| |].
    all: destruct (download_blocks _ _ _ _ _ _ _ _ _) as [[c3 [x|x|]]|]; simpl in Et; by simplify_eq.
  - destruct (so_reorged o) eqn:Ho; simpl in E; injection E as <- <- <-; simpl.
    + split; [intros _|done]. split_and!; [done|done|done|done|]. by exists o.
    + split; [done|]. intros _. reflexivity.
Qed.
End batch.

(** A backend whose scan reports a continuity break. *)
#[export] Instance demo_backend : Backend nat Z () () () := {|
  compact_block_range := flaky;
  tree_state c h := (c, Ok tt);
  fetch_tx c _ := (c, Ok None);
  is_h2_load_shed _ := true;
  with_context e _ := e;
  suggest_scan_ranges d := Ok [{| range_start := 5; range_end := 9; priority := 20 |}];
  scan_cached_blocks d _ _ _ _ := (d, ScanContinuity 80);
  truncate_to_height := demo_trunc;
  put_received_transparent_utxo d _ := (d, Ok tt);
  get_address_for_index d _ _ := (d, Ok tt);
  read_transaction s _ := Ok s;
  decrypt_and_store_transaction d _ _ := (d, Ok tt);
  max_money := 21;
  recipient_of := Some;
|}.

Lemma reorged_batch_records_nothing_witness :
  let batch := {| bp_transparent := None; bp_unspent := None; bp_reorg_margin := 20;
                  bp_batch_size := 2; bp_prefetched := None; bp_prefetch := true |} in
  ∃ c' d' bo, sync_one_batch (B := demo_backend) 0%nat 99 batch = Some (c', d', Done bo) ∧
    bo_reorged bo = true ∧ d' = 60 ∧ transparent_recorded bo = 0 ∧ next_prefetch bo = None.
Proof.
  intros batch.
  assert ((sync_one_batch (B := demo_backend) 0%nat 99 batch ≫= λ '(c, d, o),
             match o with Done bo => Some (d, worked bo, bo_reorged bo) | _ => None end)
          = Some (60, true, true)) as Hrun by (vm_compute; reflexivity).
  destruct (sync_one_batch (B := demo_backend) 0%nat 99 batch) as [[[c' d'] o]|] eqn:E; [|done].
  simpl in Hrun. destruct o as [bo|e|]; [|done|done].
  assert (d' = 60 ∧ worked bo = true ∧ bo_reorged bo = true) as (-> & Hw & Hr)
    by (injection Hrun as -> -> ->; done).
  exists c', 60, bo. split; [reflexivity|].
  destruct (reorged_batch_records_nothing 0%nat c' 99 60 batch bo E Hw)
    as (first & rest & dl & c1 & c2 & cs & _ & _ & _ & _ & Hreorg & _).
  destruct (Hreorg Hr) as (H1 & H2 & H3 & _ & _). done.
Defined.

(** The margin over a run of reorgs. *)
Lemma reorg_margin_doubles (k : nat) :
  Nat.iter k (λ m, next_reorg_margin m true) REORG_BASE_MARGIN =
  Z.min (10 * 2 ^ Z.of_nat k) REORG_MAX_MARGIN.
Proof.
  induction k as [|k IH]; [done|]. rewrite Nat.iter_succ, IH. unfold next_reorg_margin.
  rewrite Nat2Z.inj_succ, Z.pow_succ_r by lia.
  pose proof (Z.pow_pos_nonneg 2 (Z.of_nat k) ltac:(lia) ltac:(lia)).
  unfold REORG_MAX_MARGIN, DEFAULT_BATCH_SIZE. width.
Qed.
