(* ===== verification/Spend.v ===== *)
(** * Spend: building a send ([src/src/wallet/actor.rs], [src/src/config.rs])

    The privacy ladder and the funding sources, the gates and the routing of a send, the checks
    on a built proposal, the fully transparent coin selection, and the transparent address
    windows. Proposals and addresses are the libraries'; what the code reads of them is given. *)

From S2P Require Export TxSize Pools Errors.

(** ** The privacy ladder *)

Inductive SendPrivacy :=
  | FullPrivacy | AllowRevealedAmounts | AllowRevealedRecipients | AllowRevealedSenders
  | AllowFullyTransparent.
#[global] Instance SendPrivacy_eq_dec : EqDecision SendPrivacy.
Proof. solve_decision. Defined.

Definition policy_name (p : SendPrivacy) : string :=
  match p with
  | FullPrivacy => "FullPrivacy"
  | AllowRevealedAmounts => "AllowRevealedAmounts"
  | AllowRevealedRecipients => "AllowRevealedRecipients"
  | AllowRevealedSenders => "AllowRevealedSenders"
  | AllowFullyTransparent => "AllowFullyTransparent"
  end.

Definition privacy_parse (s : string) : result string SendPrivacy :=
  if bool_decide (s = "FullPrivacy") then Ok FullPrivacy
  else if bool_decide (s = "AllowRevealedAmounts") then Ok AllowRevealedAmounts
  else if bool_decide (s = "AllowRevealedRecipients") then Ok AllowRevealedRecipients
  else if bool_decide (s = "AllowRevealedSenders") then Ok AllowRevealedSenders
  else if bool_decide (s = "AllowFullyTransparent") then Ok AllowFullyTransparent
  else Err ("[spend] privacy_policy must be " +:+ quoted "FullPrivacy" +:+ ", "
            +:+ quoted "AllowRevealedAmounts" +:+ ", " +:+ quoted "AllowRevealedRecipients"
            +:+ ", " +:+ quoted "AllowRevealedSenders" +:+ ", or "
            +:+ quoted "AllowFullyTransparent" +:+ " (got " +:+ quoted s +:+ ")").

Definition allows_transparent_recipient (p : SendPrivacy) : bool :=
  match p with
  | AllowRevealedRecipients | AllowRevealedSenders | AllowFullyTransparent => true
  | _ => false
  end.

Definition allows_transparent_inputs (p : SendPrivacy) : bool :=
  match p with AllowRevealedSenders | AllowFullyTransparent => true | _ => false end.

(** ** Funding sources *)

Inductive ShieldedFamily := FamilySapling | FamilyOrchard.

Definition family_pools (f : ShieldedFamily) : list ShieldedPool :=
  match f with
  | FamilySapling => [SP_Sapling]
  | FamilyOrchard => [SP_Orchard; SP_Ironwood]
  end.

(** Transparent addresses are opaque. *)
Inductive SendSource (taddr : Type) :=
  | Unspecified
  | ShieldedSource
  | ShieldedFamilySource (f : ShieldedFamily)
  | TransparentSource (from : option taddr).
Arguments Unspecified {taddr}.
Arguments ShieldedSource {taddr}.
Arguments ShieldedFamilySource {taddr} f.
Arguments TransparentSource {taddr} from.

Definition source_is_shielded {taddr} (s : SendSource taddr) : bool :=
  match s with ShieldedSource | ShieldedFamilySource _ => true | _ => false end.

Definition source_is_transparent {taddr} (s : SendSource taddr) : bool :=
  match s with TransparentSource _ => true | _ => false end.

(** The library's input policy, as the constructors the code calls: the default (every shielded
    pool, nothing transparent), or a set of shielded pools with an optional transparent part
    (every address of the account or one of them), non-coinbase only. *)
Inductive TransparentSpend (taddr : Type) := AnyAccountAddr | FromOneAddress (a : taddr).
Arguments AnyAccountAddr {taddr}.
Arguments FromOneAddress {taddr} a.
Inductive SpendPolicy (taddr : Type) :=
  | PolicyDefault
  | PolicyPools (pools : list ShieldedPool) (transparent : option (TransparentSpend taddr)).
Arguments PolicyDefault {taddr}.
Arguments PolicyPools {taddr} pools transparent.

Definition spend_policy_for_source {taddr} (source : SendSource taddr) : SpendPolicy taddr :=
  match source with
  | Unspecified | ShieldedSource => PolicyDefault
  | ShieldedFamilySource family => PolicyPools (family_pools family) None
  | TransparentSource None => PolicyPools [] (Some AnyAccountAddr)
  | TransparentSource (Some t) => PolicyPools [] (Some (FromOneAddress t))
  end.

(** ** Gates and routing *)

Definition private_keys_disabled : RpcError :=
  RpcError.wallet "Error: Private keys are disabled for this wallet".

Definition insufficient_privacy_for_transparent_sender (privacy : SendPrivacy) : RpcError :=
  RpcError.wallet
    ("Insufficient privacy policy to allow transparent sender: " +:+ policy_name privacy
     +:+ " does not permit funding a send from transparent UTXOs (which reveals the sender's "
     +:+ "addresses and amounts). Use privacyPolicy " +:+ quoted "AllowRevealedSenders"
     +:+ " or weaker to allow this transaction to proceed.").

Definition insufficient_privacy_for_fully_transparent : RpcError :=
  RpcError.wallet
    ("Insufficient privacy policy to allow a transparent recipient paid from transparent "
     +:+ "funds (a fully transparent transaction). Use privacyPolicy "
     +:+ quoted "AllowFullyTransparent" +:+ " or " +:+ quoted "NoPrivacy"
     +:+ " to allow this transaction to proceed.").

(** A payment: its recipient as the address codec reads it on this network - whether it has an
    Orchard receiver, whether it has a shielded one, and the transparent address when it is a
    bare one - or the codec's error; and its amount. *)
Record Recipient (taddr : Type) := {
  has_orchard_receiver : bool;
  has_shielded_receiver : bool;
  bare_transparent : option taddr;
}.
Arguments has_orchard_receiver {taddr} _.
Arguments has_shielded_receiver {taddr} _.
Arguments bare_transparent {taddr} _.

Record Payment (taddr : Type) := {
  pay_recipient : result string (Recipient taddr);
  pay_amount : option Z;
}.
Arguments pay_recipient {taddr} _.
Arguments pay_amount {taddr} _.

Definition request_pays_sapling_output {taddr} (payments : list (Payment taddr)) : bool :=
  existsb (λ p, match pay_recipient p with
                | Ok r => has_shielded_receiver r && negb (has_orchard_receiver r)
                | Err _ => false
                end) payments.

Definition request_pays_transparent_output {taddr} (payments : list (Payment taddr)) : bool :=
  existsb (λ p, match pay_recipient p with
                | Ok r => negb (has_shielded_receiver r)
                | Err _ => false
                end) payments.

(** The loop of [transparent_only_recipients]. *)
Fixpoint transparent_recipients_loop {taddr} (payments : list (Payment taddr))
    (out : list (taddr * Z)) : rpc (option (list (taddr * Z))) :=
  match payments with
  | [] => Ok (Some out)
  | p :: rest =>
      addr ← map_err (λ e, RpcError.invalid_parameter ("invalid recipient address: " +:+ e))
               (pay_recipient p);
      match bare_transparent addr with
      | Some t =>
          amount ← ok_or (pay_amount p)
                     (RpcError.invalid_parameter "a send amount is required for each recipient");
          transparent_recipients_loop rest (out ++ [(t, amount)])
      | None => Ok None
      end
  end.
Definition transparent_only_recipients {taddr} (payments : list (Payment taddr)) :
    rpc (option (list (taddr * Z))) :=
  match payments with [] => Ok None | _ => transparent_recipients_loop payments [] end.

(** The privacy gates at the head of [do_send]. *)
Definition send_gates {taddr} (privacy : SendPrivacy) (source : SendSource taddr)
    (payments : list (Payment taddr)) : rpc () :=
  if source_is_transparent source then
    if negb (allows_transparent_inputs privacy) then
      Err (insufficient_privacy_for_transparent_sender privacy)
    else if negb (bool_decide (privacy = AllowFullyTransparent))
            && request_pays_transparent_output payments then
      Err insufficient_privacy_for_fully_transparent
    else Ok tt
  else Ok tt.

(** The three ways a send is built. *)
Inductive SendRoute (taddr : Type) :=
  | FullyTransparent (recipients : list (taddr * Z)) (from : option taddr)
  | Fused (policy : SpendPolicy taddr)
  | CachedPczt (policy : SpendPolicy taddr).
Arguments FullyTransparent {taddr} recipients from.
Arguments Fused {taddr} policy.
Arguments CachedPczt {taddr} policy.

(** [cached_pczt_path]. *)
Definition cached_pczt_path (has_orchard_keys : bool) (enabled : ReceiverSet) : bool :=
  has_orchard_keys && negb (set_contains enabled Sapling).

(** The routing of [do_send], after its gates, the catch-up and the key derivation. *)
Definition send_route {taddr} (privacy : SendPrivacy) (source : SendSource taddr)
    (payments : list (Payment taddr)) (cached : bool) : rpc (SendRoute taddr) :=
  direct ← (if bool_decide (privacy = AllowFullyTransparent) && negb (source_is_shielded source)
            then transparent_only_recipients payments else Ok None);
  match direct with
  | Some recipients =>
      Ok (FullyTransparent recipients
            (match source with TransparentSource from => from | _ => None end))
  | None =>
      if negb cached || request_pays_sapling_output payments || source_is_transparent source
      then Ok (Fused (spend_policy_for_source source))
      else Ok (CachedPczt (spend_policy_for_source source))
  end.

(** Whether [begin_or_queue_send] runs the send inline. *)
Definition runs_inline {taddr} (privacy : SendPrivacy) (source : SendSource taddr)
    (payments : list (Payment taddr)) (pipeline_proving cached : bool) : bool :=
  bool_decide (privacy = AllowFullyTransparent) || source_is_transparent source
  || negb (pipeline_proving && cached) || request_pays_sapling_output payments.

(** [send_catchup_exceeded]. *)
Definition send_catchup_exceeded (tip : Z) (scanned : option Z) (limit : Z) : option Z :=
  if limit =? 0 then None
  else let lag := sat_sub tip (default 0 scanned) in if limit <? lag then Some lag else None.

(** ** The checks on a built proposal

    A step is seen through the counts of [TxSize.Step], the pools it involves, and the pools of
    its shielded inputs, its payments and its change. *)

Section proposal.
Context {padding version branch_id : Type} (padding_default : padding)
        (bundle_version_for_branch : branch_id → ValuePool → option version).

Record ProposalStep := {
  ps_counts : Step (padding := padding) (version := version);
  ps_involves : PoolType → bool;
  ps_input_notes : list ShieldedPool;
  ps_payment_pools : list PoolType;
  ps_change_pools : list PoolType;
}.

Definition shape_of (step : ProposalStep) (branch : branch_id) : TxShape :=
  step_shape padding_default bundle_version_for_branch (ps_counts step) branch.

Definition single_pool_violated (transparent sapling orchard ironwood : bool) : bool :=
  transparent || (1 <? length (List.filter id [sapling; orchard; ironwood]))%nat.

Definition full_privacy_message : string :=
  "Privacy policy FullPrivacy rejects this send: it would leave a single shielded "
  +:+ "pool (a transparent component, or a crossing between two shielded pools - "
  +:+ "Sapling, Orchard or Ironwood - that reveals the transferred amount on-chain). "
  +:+ "Set [spend] privacy_policy = " +:+ quoted "AllowRevealedRecipients" +:+ " to permit this.".

Fixpoint enforce_full_privacy (steps : list ProposalStep) : rpc () :=
  match steps with
  | [] => Ok tt
  | step :: rest =>
      if single_pool_violated (ps_involves step PoolTransparent) (ps_involves step PoolSapling)
           (ps_involves step PoolOrchard) (ps_involves step PoolIronwood)
      then Err (RpcError.invalid_parameter full_privacy_message)
      else enforce_full_privacy rest
  end.

Definition is_orchard_family (p : ShieldedPool) : bool :=
  match p with SP_Orchard | SP_Ironwood => true | SP_Sapling => false end.
Definition is_orchard_family_pooltype (p : PoolType) : bool :=
  match p with PoolOrchard | PoolIronwood => true | _ => false end.

Definition step_orchard_actions (step : ProposalStep) : Z * Z :=
  (Z.of_nat (length (List.filter is_orchard_family (ps_input_notes step))),
   Z.of_nat (length (List.filter is_orchard_family_pooltype (ps_payment_pools step))
             + length (List.filter is_orchard_family_pooltype (ps_change_pools step)))).

Definition orchard_action_overflow (shape : TxShape) (spends outputs limit : Z) :
    option (Z * string) :=
  let actions := orchard_family_actions shape in
  if actions <=? limit then None
  else
    let one_bundle := (orchard_actions shape =? 0) || (ironwood_actions shape =? 0) in
    Some (if one_bundle && (outputs <=? limit) && (limit <? spends) then (actions, "inputs")
          else if one_bundle && (spends <=? limit) && (limit <? outputs)
          then (actions, "outputs")
          else (actions, "actions")).

Definition two_bundles (shape : TxShape) (text : string → string → string) : string :=
  if (0 <? orchard_actions shape) && (0 <? ironwood_actions shape)
  then text (dec (orchard_actions shape)) (dec (ironwood_actions shape)) else "".

Definition action_limit_message (count : Z) (kind : string) (limit : Z) (shape : TxShape) : string :=
  "Including " +:+ dec count +:+ " Orchard " +:+ kind +:+ " would exceed the current limit of "
  +:+ dec limit +:+ " actions, which exists to bound this send's memory and proving cost."
  +:+ two_bundles shape (λ o i,
        " This send carries two shielded bundles that are proved separately and "
        +:+ "counted together: " +:+ o +:+ " Orchard actions spending legacy notes, and " +:+ i
        +:+ " Ironwood actions.")
  +:+ " Consolidate first with z_mergetoaddress ([" +:+ quoted "ANY_ORCHARD"
  +:+ "], your own address, "
  +:+ "repeatedly until remainingNotes is 0), which is usually what a wallet this "
  +:+ "fragmented wants. Or raise [spend] orchard_action_limit (0 disables the cap) "
  +:+ "and send SIGHUP to reload it without restarting.".

Fixpoint action_limit_loop (steps : list ProposalStep) (branch : branch_id) (limit : Z) : rpc () :=
  match steps with
  | [] => Ok tt
  | step :: rest =>
      let shape := shape_of step branch in
      let '(spends, outputs) := step_orchard_actions step in
      match orchard_action_overflow shape spends outputs limit with
      | Some (count, kind) =>
          Err (RpcError.invalid_parameter (action_limit_message count kind limit shape))
      | None => action_limit_loop rest branch limit
      end
  end.
Definition enforce_orchard_action_limit (steps : list ProposalStep) (branch : branch_id)
    (limit : Z) : rpc () :=
  if limit =? 0 then Ok tt else action_limit_loop steps branch limit.

Definition max_tx_bytes_message (bytes max_bytes : Z) : string :=
  "This send would build a transaction of about " +:+ dec bytes +:+ " bytes, over the current "
  +:+ "limit of " +:+ dec max_bytes +:+ ", which exists because a node will not relay a transaction "
  +:+ "larger than its own mempool policy - such a transaction is proved at full cost "
  +:+ "and then never mined. Send to fewer recipients, or consolidate first with "
  +:+ "z_mergetoaddress ([" +:+ quoted "ANY_ORCHARD" +:+ "], your own address, repeatedly until "
  +:+ "remainingNotes is 0), which spends fewer, larger notes. Or raise [spend] "
  +:+ "max_tx_bytes (0 disables the ceiling) and send SIGHUP to reload it without "
  +:+ "restarting - but only if every node between this wallet and a miner accepts "
  +:+ "the larger size.".

Fixpoint max_tx_bytes_loop (steps : list ProposalStep) (branch : branch_id) (max_bytes : Z) :
    rpc () :=
  match steps with
  | [] => Ok tt
  | step :: rest =>
      let bytes := estimate_bytes (shape_of step branch) in
      if max_bytes <? bytes
      then Err (RpcError.invalid_parameter (max_tx_bytes_message bytes max_bytes))
      else max_tx_bytes_loop rest branch max_bytes
  end.
Definition enforce_max_tx_bytes (steps : list ProposalStep) (branch : branch_id)
    (max_bytes : Z) : rpc () :=
  if max_bytes =? 0 then Ok tt else max_tx_bytes_loop steps branch max_bytes.

Definition zip218_message (over : Zip218Overflow) (shape : TxShape) : string :=
  "This transaction would carry " +:+ dec (overflow_cost over) +:+ " " +:+ overflow_what over
  +:+ ", over the " +:+ dec (overflow_cap over) +:+ " that ZIP 218 allows in a whole "
  +:+ "block from NU7 on, so no node would mine it."
  +:+ two_bundles shape (λ o i,
        " It carries two shielded bundles, counted together: " +:+ o +:+ " Orchard actions "
        +:+ "spending legacy notes, and " +:+ i +:+ " Ironwood actions.")
  +:+ " This is a consensus rule, "
  +:+ "not a setting. Send to fewer recipients, or consolidate first with "
  +:+ "z_mergetoaddress, which sizes each round to fit.".

(** [enforce_zip218_budget]: [applies] is whether NU7 is active at the target height. *)
Fixpoint zip218_loop (sapling_limit budget : Z) (steps : list ProposalStep) (branch : branch_id) :
    rpc () :=
  match steps with
  | [] => Ok tt
  | step :: rest =>
      let shape := shape_of step branch in
      match zip218_overflow sapling_limit budget shape with
      | Some over => Err (RpcError.invalid_parameter (zip218_message over shape))
      | None => zip218_loop sapling_limit budget rest branch
      end
  end.
Definition enforce_zip218_budget (sapling_limit budget : Z) (applies : bool)
    (steps : list ProposalStep) (branch : branch_id) : rpc () :=
  if applies then zip218_loop sapling_limit budget steps branch else Ok tt.

Definition enforce_single_step (steps : list ProposalStep) : rpc () :=
  if (1 <? length steps)%nat then
    Err (RpcError.wallet
      ("multi-transaction proposals are not supported (this send would need "
       +:+ dec (Z.of_nat (length steps)) +:+ " transactions)"))
  else Ok tt.

(** The sequence of checks [build_proposal_and_pczt] and [do_send_fused] run on a proposal
    before anything is built from it. *)
Definition check_proposal (sapling_limit budget : Z) (applies : bool) (privacy : SendPrivacy)
    (orchard_action_limit max_tx_bytes : Z) (steps : list ProposalStep) (branch : branch_id) :
    rpc () :=
  _ ← enforce_single_step steps;
  _ ← (if bool_decide (privacy = FullPrivacy) then enforce_full_privacy steps else Ok tt);
  _ ← enforce_orchard_action_limit steps branch orchard_action_limit;
  _ ← enforce_max_tx_bytes steps branch max_tx_bytes;
  enforce_zip218_budget sapling_limit budget applies steps branch.

(** [proposal_shape]. *)
Record SendShape := { ss_inputs : Z; ss_orchard_actions : Z; ss_est_tx_bytes : Z }.
Definition proposal_shape (steps : list ProposalStep) (branch : branch_id) : SendShape :=
  foldl (λ acc step,
    let shape := shape_of step branch in
    {| ss_inputs := ss_inputs acc + (step_orchard_actions step).1;
       ss_orchard_actions := ss_orchard_actions acc + orchard_family_actions shape;
       ss_est_tx_bytes := Z.max (ss_est_tx_bytes acc) (estimate_bytes shape) |})
    {| ss_inputs := 0; ss_orchard_actions := 0; ss_est_tx_bytes := 0 |} steps.
End proposal.

(** ** Fully transparent selection *)

Inductive TransparentAddressKind := PublicKeyHash | ScriptHash.

Definition transparent_txout_size (addr : TransparentAddressKind) : Z :=
  match addr with PublicKeyHash => 8 + 1 + 25 | ScriptHash => 8 + 1 + 23 end.

(** [merge_transparent_fee]; the fee closure of [select_transparent_inputs] is the same. *)
Definition merge_transparent_fee (n_in out_bytes p2pkh_out_size marginal grace : Z) : Z :=
  wrap_u64 (marginal * Z.max grace (Z.max n_in (div_ceil out_bytes p2pkh_out_size))).

Section select.
Context (recipients_total recip_out_size change_out_size p2pkh_out_size marginal grace : Z).

Definition fee_for (n_in out_bytes : Z) : Z :=
  let out_actions := div_ceil out_bytes p2pkh_out_size in
  wrap_u64 (marginal * Z.max grace (Z.max n_in out_actions)).

(** The selection loop; [i] is the index and [total] the sum so far. *)
Fixpoint select_loop (values_desc : list Z) (i total : Z) : option (Z * Z * Z * bool) :=
  match values_desc with
  | [] => None
  | v :: rest =>
      let total := wrap_u64 (total + v) in
      let n_in := i + 1 in
      let fee_c := fee_for n_in (recip_out_size + change_out_size) in
      if wrap_u64 (recipients_total + fee_c) <=? total then
        let change := wrap_u64 (total - recipients_total - fee_c) in
        if 0 <? change then Some (n_in, change, fee_c, true)
        else
          let fee_n := fee_for n_in recip_out_size in
          if total =? wrap_u64 (recipients_total + fee_n) then Some (n_in, 0, fee_n, false)
          else select_loop rest n_in total
      else
        let fee_n := fee_for n_in recip_out_size in
        if total =? wrap_u64 (recipients_total + fee_n) then Some (n_in, 0, fee_n, false)
        else select_loop rest n_in total
  end.

(** [select_transparent_inputs]: the inputs taken, the change, the fee and whether a change
    output is kept. *)
Definition select_transparent_inputs (values_desc : list Z) : option (Z * Z * Z * bool) :=
  select_loop values_desc 0 0.
End select.

(** ** Transparent address windows *)

Definition transparent_child_index (j : Z) : option Z :=
  if (0 <=? j) && (j <=? u32_max) then if j <? 2 ^ 31 then Some j else None else None.

Definition gap_slots_remaining (gap_position gap_limit : Z) : Z :=
  sat_sub gap_limit (u32_sat_add gap_position 1).
Definition horizon_slots_remaining (horizon index : Z) : Z :=
  sat_sub horizon (u32_sat_add index 1).
Definition recovery_horizon_for (initial_scan : Z) (default_frontier : option Z) (gap_limit : Z) : Z :=
  u32_sat_add (Z.max initial_scan (default 0 default_frontier)) gap_limit.

(** ** Errors of a send *)

(** The library's proposal error, as the cases [classify_err] tells apart. *)
Inductive ProposalError :=
  | InsufficientFundsError (available required : Z)
  | ShieldedBudgetError (reason : string)
  | AcceptanceError (reason : string)
  | OtherProposalError (text : string).

(** [classify_pczt_err] and [classify_merge_execute_err], on the error's text lower-cased by
    the standard library. *)
Definition classify_by_message (to_lowercase : string → string) (s : string) : RpcError :=
  if contains "insufficient" (to_lowercase s) then RpcError.insufficient_funds s
  else RpcError.wallet s.

Definition classify_err (to_lowercase : string → string) (e : ProposalError) : RpcError :=
  match e with
  | InsufficientFundsError available required =>
      RpcError.with_details
        (RpcError.insufficient_funds
           ("Insufficient funds: " +:+ dec available +:+ " zatoshis spendable, " +:+ dec required
            +:+ " required (including fee)"))
        (InsufficientFundsDetails
           {| if_available := Some available; if_required := Some required;
              if_pending_incoming := 0; if_pending_change := 0; if_mature_coinbase := 0 |})
  | ShieldedBudgetError reason =>
      RpcError.invalid_parameter
        ("This transaction would not fit in a block under ZIP 218's shielded budget ("
         +:+ reason +:+ "), so no node would mine it. This is a consensus rule, not a "
         +:+ "setting. Send to fewer recipients, or consolidate first with "
         +:+ "z_mergetoaddress, which sizes each round to fit.")
  | AcceptanceError reason =>
      RpcError.wallet
        (reason +:+ " Nothing was sent; send again to build it against the current chain tip.")
  | OtherProposalError s => classify_by_message to_lowercase s
  end.

Definition coinbase_hint (zats : Z) : string :=
  dec zats +:+ " zatoshis are mature coinbase, spendable only via z_shieldcoinbase".

(** [enrich_insufficient_funds], from the pending sums of the wallet summary ([None]: no
    summary) and the mature coinbase. *)
Definition enrich_insufficient_funds (summary : option (Z * Z)) (coinbase : Z) (err : RpcError) :
    RpcError :=
  if negb (err_code err =? RPC_WALLET_INSUFFICIENT_FUNDS) then err
  else
    match summary with
    | None => err
    | Some (incoming, change) =>
        if (incoming =? 0) && (change =? 0) && (coinbase =? 0) then err
        else
          let '(available, required) :=
            match RpcError.insufficient_funds_details err with
            | Some d => (if_available d, if_required d)
            | None => (None, None)
            end in
          let msg := err_message err in
          let msg :=
            if (0 <? incoming) || (0 <? change) then
              msg +:+ "; awaiting confirmations: " +:+ dec incoming +:+ " zatoshis incoming, "
              +:+ dec change +:+ " zatoshis change - these become spendable as blocks arrive"
            else msg in
          let msg := if 0 <? coinbase then msg +:+ "; " +:+ coinbase_hint coinbase else msg in
          RpcError.with_details (RpcError.insufficient_funds msg)
            (InsufficientFundsDetails
               {| if_available := available; if_required := required;
                  if_pending_incoming := incoming; if_pending_change := change;
                  if_mature_coinbase := coinbase |})
    end.
