(* ===== verification/SpendSpec.v ===== *)
(** * SpendSpec: what building a send guarantees

    The routing never reveals more than the policy allows and never mixes sources; a proposal
    passes the checks exactly when it is within every limit; the transparent selection balances
    exactly and is the shortest prefix that can. *)

From S2P Require Export Spend.

(** ** Routing *)

(** Whether a route can spend transparent outputs. *)
Definition spends_transparent {taddr} (r : SendRoute taddr) : bool :=
  match r with
  | FullyTransparent _ _ => true
  | Fused p | CachedPczt p => match p with PolicyPools _ (Some _) => true | _ => false end
  end.

(** The shielded pools a route can spend from; [None] is every pool. *)
Definition shielded_pools {taddr} (r : SendRoute taddr) : option (list ShieldedPool) :=
  match r with
  | FullyTransparent _ _ => Some []
  | Fused p | CachedPczt p => match p with PolicyPools l _ => Some l | PolicyDefault => None end
  end.

Lemma transparent_loop_all {taddr} (payments : list (Payment taddr)) out recipients :
  transparent_recipients_loop payments out = Ok (Some recipients) →
  ∃ l, recipients = out ++ l ∧ length l = length payments ∧
    Forall (λ p, ∃ r t, pay_recipient p = Ok r ∧ bare_transparent r = Some t) payments.
Proof.
  revert out. induction payments as [|p ps IH]; intros out; simpl.
  { intros [= <-]. exists []. rewrite app_nil_r. repeat constructor. }
  destruct (pay_recipient p) as [r|e] eqn:Er; [simpl|done].
  destruct (bare_transparent r) as [t|] eqn:Et; [|done].
  destruct (pay_amount p) as [a|]; [simpl|done].
  intros (l & -> & Hl & Hall)%IH. exists ((t, a) :: l). rewrite <- app_assoc. split; [done|].
  split; [simpl; lia|]. constructor; [eauto|done].
Qed.

(** What the gates and the routing keep apart. When the gates pass and a route is chosen:
    transparent outputs are spent only under a policy that
    allows it, and together with a transparent recipient only under [AllowFullyTransparent]; a
    fully transparent build is taken only when every payment is a bare transparent address; a
    shielded source never spends transparent outputs, and a source naming one pool family
    spends only that family's pools; a transparent source spends no shielded notes; and the
    cached path is never given a transparent input or a Sapling-only recipient. *)
Definition route_keeps_to {taddr} (privacy : SendPrivacy) (source : SendSource taddr)
    (payments : list (Payment taddr)) (cached : bool) (route : SendRoute taddr) : Prop :=
  (spends_transparent route = true → allows_transparent_inputs privacy = true ∧
     (request_pays_transparent_output payments = true → privacy = AllowFullyTransparent)) ∧
  (∀ recipients from, route = FullyTransparent recipients from →
     payments ≠ [] ∧ length recipients = length payments ∧
     Forall (λ p, ∃ r t, pay_recipient p = Ok r ∧ bare_transparent r = Some t) payments) ∧
  (source_is_shielded source = true → spends_transparent route = false) ∧
  (∀ f, source = ShieldedFamilySource f → shielded_pools route = Some (family_pools f)) ∧
  (source_is_transparent source = true → shielded_pools route = Some []) ∧
  (∀ p, route = CachedPczt p →
     cached = true ∧ spends_transparent route = false ∧
     request_pays_sapling_output payments = false).
Lemma route_follows_policy {taddr} (privacy : SendPrivacy) (source : SendSource taddr)
    (payments : list (Payment taddr)) (cached : bool) (route : SendRoute taddr) :
  send_gates privacy source payments = Ok tt →
  send_route privacy source payments cached = Ok route →
  route_keeps_to privacy source payments cached route.
Proof.
  unfold send_gates, send_route, route_keeps_to. intros Hg Hr.
  apply bind_Ok_inv in Hr as (direct & Hd & Hr).
  destruct direct as [recipients|].
  - destruct (bool_decide (privacy = AllowFullyTransparent)) eqn:Hp; [|done].
    apply bool_decide_eq_true in Hp as ->. destruct (source_is_shielded source) eqn:Hs; [done|].
    simpl in Hd. injection Hr as <-. split; [done|].
    split; [|split; [done|split; [by destruct source|split; [done|done]]]].
    intros r from [= <- _]. destruct payments as [|p ps]; [done|].
    apply transparent_loop_all in Hd as (l & -> & Hl & Hall). done.
  - destruct (negb cached || request_pays_sapling_output payments || source_is_transparent source)
      eqn:Hc; injection Hr as <-.
    + destruct source as [| |f|from]; simpl in *; try (split_and!; naive_solver).
      destruct (allows_transparent_inputs privacy) eqn:Ha; [simpl in Hg|done].
      destruct (bool_decide (privacy = AllowFullyTransparent)) eqn:Hp; simpl in Hg.
      * apply bool_decide_eq_true in Hp as ->. destruct from; split_and!; naive_solver.
      * destruct (request_pays_transparent_output payments); [done|].
        destruct from; split_and!; naive_solver.
    + apply orb_false_iff in Hc as [Hc Ht]. apply orb_false_iff in Hc as [Hcd Hsap].
      apply negb_false_iff in Hcd. destruct source; simpl in *; split_and!; naive_solver.
Qed.

(** ** The checks on a proposal *)

Section proposal.
Context {padding version branch_id : Type} (padding_default : padding)
        (bvb : branch_id → ValuePool → option version).
Implicit Types steps : list (ProposalStep (padding := padding) (version := version)).
Abbreviation shape := (shape_of padding_default bvb).

Definition refused_with (code : Z) (r : rpc ()) : Prop := ∃ e, r = Err e ∧ err_code e = code.

Lemma refused_invalid m :
  refused_with RPC_INVALID_PARAMETER (Err (RpcError.invalid_parameter m)).
Proof. eexists. split; reflexivity. Qed.

Lemma single_pool_violated_spec t s o i :
  single_pool_violated t s o i = false ↔
  t = false ∧ (s = false ∨ (o = false ∧ i = false)) ∧ (o = false ∨ i = false).
Proof. destruct t, s, o, i; cbv; intuition congruence. Qed.

Definition single_pool (st : ProposalStep (padding := padding) (version := version)) : Prop :=
  ps_involves st PoolTransparent = false ∧
  (ps_involves st PoolSapling = false ∨
   (ps_involves st PoolOrchard = false ∧ ps_involves st PoolIronwood = false)) ∧
  (ps_involves st PoolOrchard = false ∨ ps_involves st PoolIronwood = false).

Lemma single_pool_all steps :
  Forall (λ st, single_pool_violated (ps_involves st PoolTransparent)
    (ps_involves st PoolSapling) (ps_involves st PoolOrchard) (ps_involves st PoolIronwood)
    = false) steps ↔ Forall single_pool steps.
Proof. apply Forall_iff. intros st. apply single_pool_violated_spec. Qed.

(** Each loop accepts exactly when its test does on every step, and refuses with [-8]. *)
Lemma full_privacy_outcome steps :
  if decide (Forall (λ st, single_pool_violated (ps_involves st PoolTransparent)
       (ps_involves st PoolSapling) (ps_involves st PoolOrchard) (ps_involves st PoolIronwood)
       = false) steps)
  then enforce_full_privacy steps = Ok tt
  else refused_with RPC_INVALID_PARAMETER (enforce_full_privacy steps).
Proof.
  induction steps as [|st steps IH]; [by rewrite decide_True|]. simpl.
  destruct (single_pool_violated _ _ _ _) eqn:E.
  - rewrite decide_False; [apply refused_invalid|]. intros H. apply Forall_cons in H as [H _]. congruence.
  - case_decide; case_decide as Hx; rewrite ?Forall_cons in *; tauto.
Qed.

Lemma overflow_none sh a b limit :
  orchard_action_overflow sh a b limit = None ↔ orchard_family_actions sh ≤ limit.
Proof.
  unfold orchard_action_overflow. destruct (Z.leb_spec (orchard_family_actions sh) limit); [done|].
  split; [done|lia].
Qed.

Lemma action_limit_outcome steps branch limit :
  if decide (Forall (λ st, orchard_family_actions (shape st branch) ≤ limit) steps)
  then action_limit_loop padding_default bvb steps branch limit = Ok tt
  else refused_with RPC_INVALID_PARAMETER
         (action_limit_loop padding_default bvb steps branch limit).
Proof.
  induction steps as [|st steps IH]; [by rewrite decide_True|].
  cbn [action_limit_loop]. cbv zeta. destruct (step_orchard_actions st) as [a b].
  destruct (orchard_action_overflow _ a b limit) as [[c k]|] eqn:E.
  - rewrite decide_False; [apply refused_invalid|]. intros [H _]%Forall_cons.
    apply (overflow_none _ a b) in H. congruence.
  - apply overflow_none in E. case_decide; case_decide as Hx; rewrite ?Forall_cons in *; tauto.
Qed.

Lemma max_bytes_outcome steps branch limit :
  if decide (Forall (λ st, estimate_bytes (shape st branch) ≤ limit) steps)
  then max_tx_bytes_loop padding_default bvb steps branch limit = Ok tt
  else refused_with RPC_INVALID_PARAMETER
         (max_tx_bytes_loop padding_default bvb steps branch limit).
Proof.
  induction steps as [|st steps IH]; [by rewrite decide_True|].
  cbn [max_tx_bytes_loop]. cbv zeta.
  destruct (Z.ltb_spec limit (estimate_bytes (shape_of padding_default bvb st branch))).
  - rewrite decide_False; [apply refused_invalid|]. intros [H' _]%Forall_cons. lia.
  - case_decide; case_decide as Hx; rewrite ?Forall_cons in *; tauto.
Qed.

Lemma zip218_outcome sl budget steps branch :
  if decide (Forall (λ st, zip218_overflow sl budget (shape st branch) = None) steps)
  then zip218_loop padding_default bvb sl budget steps branch = Ok tt
  else refused_with RPC_INVALID_PARAMETER
         (zip218_loop padding_default bvb sl budget steps branch).
Proof.
  induction steps as [|st steps IH]; [by rewrite decide_True|].
  cbn [zip218_loop]. cbv zeta.
  destruct (zip218_overflow sl budget (shape_of padding_default bvb st branch)) eqn:E.
  - rewrite decide_False; [apply refused_invalid|]. intros [H' _]%Forall_cons. congruence.
  - case_decide; case_decide as Hx; rewrite ?Forall_cons in *; tauto.
Qed.

(** What [check_proposal] lets through. *)
Definition within_limits (sl budget : Z) (applies : bool) (privacy : SendPrivacy)
    (action_limit max_bytes : Z) steps (branch : branch_id) : Prop :=
  (length steps ≤ 1)%nat ∧
  (privacy = FullPrivacy → Forall single_pool steps) ∧
  (action_limit ≠ 0 →
     Forall (λ st, orchard_family_actions (shape st branch) ≤ action_limit) steps) ∧
  (max_bytes ≠ 0 → Forall (λ st, estimate_bytes (shape st branch) ≤ max_bytes) steps) ∧
  (applies = true → Forall (λ st, zip218_overflow sl budget (shape st branch) = None) steps).

(** A proposal is built from exactly when it is within every limit: one transaction; under
    [FullPrivacy] no transparent part and a single shielded pool, Ironwood counted as its own;
    the Orchard-family actions within the cap and the estimated bytes within the ceiling, where
    they are set; and ZIP 218's budgets once NU7 applies. Everything else is refused before
    anything is proved, with [-4] for several transactions and [-8] for a limit. *)
Theorem check_proposal_exact (sl budget : Z) (applies : bool) (privacy : SendPrivacy)
    (action_limit max_bytes : Z) steps (branch : branch_id) :
  match check_proposal padding_default bvb sl budget applies privacy action_limit max_bytes
          steps branch with
  | Ok _ => within_limits sl budget applies privacy action_limit max_bytes steps branch
  | Err e => ¬ within_limits sl budget applies privacy action_limit max_bytes steps branch ∧
             (err_code e = RPC_INVALID_PARAMETER ∨
              (err_code e = RPC_WALLET_ERROR ∧ (1 < length steps)%nat))
  end.
Proof.
  unfold check_proposal, within_limits, enforce_single_step, enforce_orchard_action_limit,
    enforce_max_tx_bytes, enforce_zip218_budget.
  destruct (Nat.ltb_spec 1 (length steps)); simpl; [split; [lia|auto]|].
  pose proof (full_privacy_outcome steps) as H1. pose proof (action_limit_outcome steps branch action_limit) as H2.
  pose proof (max_bytes_outcome steps branch max_bytes) as H3.
  pose proof (zip218_outcome sl budget steps branch) as H4.
  case_bool_decide as Hp; [destruct (decide (Forall _ _)) as [D1|D1] in H1;
    rewrite single_pool_all in D1; [rewrite H1|destruct H1 as (e & -> & He); simpl; tauto]|clear H1]; simpl.
  all: destruct (Z.eqb_spec action_limit 0) as [Ha|Ha]; [clear H2|
    destruct (decide (Forall _ _)) as [D2|D2] in H2;
    [rewrite H2|destruct H2 as (e & -> & He); simpl; tauto]]; simpl.
  all: destruct (Z.eqb_spec max_bytes 0) as [Hm|Hm]; [clear H3|
    destruct (decide (Forall _ _)) as [D3|D3] in H3;
    [rewrite H3|destruct H3 as (e & -> & He); simpl; tauto]]; simpl.
  all: destruct applies; [destruct (decide (Forall _ _)) as [D4|D4] in H4;
    [rewrite H4|destruct H4 as (e & -> & He); simpl; tauto]|clear H4]; simpl.
  all: split_and!; solve [done|tauto].
Qed.
(** Under [FullPrivacy], then, nothing is built that is not within one shielded pool. *)
Lemma full_privacy_single_pool sl budget applies action_limit max_bytes steps (branch : branch_id) :
  check_proposal padding_default bvb sl budget applies FullPrivacy action_limit max_bytes steps branch = Ok tt →
  Forall single_pool steps.
Proof.
  intros E. pose proof (check_proposal_exact sl budget applies FullPrivacy action_limit max_bytes steps branch) as H.
  rewrite E in H. by apply H.
Qed.
End proposal.

(** ** The transparent selection *)

Definition sum_list (l : list Z) : Z := foldr Z.add 0 l.

Section select.
Context (R ro co p2 marginal grace : Z).
Abbreviation fee := (fee_for p2 marginal grace).

(** A prefix of [n] inputs pays for itself: something is left for a change output once its fee
    is paid, or the payment and the no-change fee are covered exactly. *)
Definition affordable (n total : Z) : Prop :=
  R + fee n (ro + co) < total ∨ total = R + fee n ro.

(** The parameters are sizes and amounts whose sums fit 64 bits: the wallet's outputs together,
    and the payments with the fee of spending all of them. *)
Definition in_u64 (values : list Z) : Prop :=
  Forall (λ v, 0 ≤ v) values ∧ sum_list values ≤ u64_max ∧
  0 ≤ R ∧ 0 ≤ ro ∧ 0 < co ∧ 0 < p2 ∧ 0 ≤ marginal ∧ 0 ≤ grace ∧
  R + marginal * Z.max grace (Z.max (Z.of_nat (length values)) (div_ceil (ro + co) p2)) ≤ u64_max.

Lemma fee_facts values n :
  in_u64 values → 0 ≤ n ≤ Z.of_nat (length values) →
  fee n ro ≤ fee n (ro + co) ∧ R + fee n (ro + co) ≤ u64_max.
Proof.
  intros (_ & _ & HR & Hro & Hco & Hp & Hm & Hg & Hmax) Hn.
  pose proof (div_ceil_mono ro (ro + co) p2 Hp ltac:(lia)) as Hd. unfold fee_for.
  assert (∀ x y, x ≤ y → marginal * x ≤ marginal * y) as Hmul
    by (intros; by apply Z.mul_le_mono_nonneg_l).
  pose proof (Hmul (Z.max grace (Z.max n (div_ceil ro p2)))
    (Z.max grace (Z.max n (div_ceil (ro + co) p2))) ltac:(lia)).
  pose proof (Hmul (Z.max grace (Z.max n (div_ceil (ro + co) p2)))
    (Z.max grace (Z.max (Z.of_nat (length values)) (div_ceil (ro + co) p2))) ltac:(lia)).
  pose proof (Hmul 0 (Z.max grace (Z.max n (div_ceil ro p2))) ltac:(lia)).
  rewrite !wrap_u64_small; unfold is_u64; lia.
Qed.

Lemma fee_nonneg n b : 0 ≤ fee n b.
Proof. unfold fee_for, wrap_u64. apply Z.mod_pos_bound. lia. Qed.

Lemma sum_nonneg l : Forall (λ v, 0 ≤ v) l → 0 ≤ sum_list l.
Proof. induction 1; simpl; lia. Qed.

Lemma sum_app l k : sum_list (l ++ k) = sum_list l + sum_list k.
Proof. induction l; simpl; lia. Qed.

Lemma wrap_small z : 0 ≤ z → z ≤ u64_max → wrap_u64 z = z.
Proof. intros. apply wrap_u64_small. by split. Qed.

Lemma select_loop_spec pre rest :
  in_u64 (pre ++ rest) →
  (∀ n, (1 ≤ n ≤ length pre)%nat → ¬ affordable (Z.of_nat n) (sum_list (take n (pre ++ rest)))) →
  match select_loop R ro co p2 marginal grace rest (Z.of_nat (length pre)) (sum_list pre) with
  | Some (n, change, f, has_change) =>
      1 ≤ n ≤ Z.of_nat (length (pre ++ rest)) ∧
      sum_list (take (Z.to_nat n) (pre ++ rest)) = R + change + f ∧
      f = fee n (if has_change then ro + co else ro) ∧
      (if has_change then 0 < change else change = 0) ∧
      ∀ m, (1 ≤ m)%nat → Z.of_nat m < n → ¬ affordable (Z.of_nat m) (sum_list (take m (pre ++ rest)))
  | None => ∀ m, (1 ≤ m ≤ length (pre ++ rest))%nat →
      ¬ affordable (Z.of_nat m) (sum_list (take m (pre ++ rest)))
  end.
Proof.
  revert pre. induction rest as [|v rest IH]; intros pre Hu Hpre; cbn [select_loop].
  { intros m Hm. apply Hpre. rewrite app_nil_r in Hm. lia. }
  assert (pre ++ v :: rest = (pre ++ [v]) ++ rest) as Eapp by by rewrite <- app_assoc.
  pose proof Hu as (Hpos & Hsum & HR & _).
  rewrite Eapp, Forall_app, Forall_app in Hpos. destruct Hpos as [[Hp1 Hp2] Hp3].
  rewrite Eapp, !sum_app in Hsum. pose proof (sum_nonneg _ Hp1). pose proof (sum_nonneg _ Hp3).
  apply Forall_cons in Hp2 as [Hp2 _]. simpl in Hsum.
  remember (Z.of_nat (length pre) + 1) as n eqn:En0.
  assert (n = Z.of_nat (length (pre ++ [v]))) as En by (rewrite length_app; simpl; lia).
  assert (wrap_u64 (sum_list pre + v) = sum_list (pre ++ [v])) as ->.
  { rewrite sum_app. simpl. rewrite Z.add_0_r. apply wrap_small; lia. }
  set (total := sum_list (pre ++ [v])).
  assert (total = sum_list pre + v) as Etot by (unfold total; rewrite sum_app; simpl; lia).
  assert (total = sum_list (take (Z.to_nat n) (pre ++ v :: rest))) as Etake.
  { rewrite Eapp, En, Nat2Z.id, take_app_length. done. }
  destruct (fee_facts _ n Hu) as [Hle Hf1]; [rewrite Eapp, length_app; lia|].
  pose proof (fee_nonneg n (ro + co)). pose proof (fee_nonneg n ro).
  cbv zeta. rewrite !(wrap_small (R + _)) by lia.
  assert (¬ affordable n total → match select_loop R ro co p2 marginal grace rest n total with
    | Some (n0, change, f, has_change) =>
        1 ≤ n0 ≤ Z.of_nat (length (pre ++ v :: rest)) ∧
        sum_list (take (Z.to_nat n0) (pre ++ v :: rest)) = R + change + f ∧
        f = fee n0 (if has_change then ro + co else ro) ∧
        (if has_change then 0 < change else change = 0) ∧
        ∀ m, (1 ≤ m)%nat → Z.of_nat m < n0 →
          ¬ affordable (Z.of_nat m) (sum_list (take m (pre ++ v :: rest)))
    | None => ∀ m, (1 ≤ m ≤ length (pre ++ v :: rest))%nat →
        ¬ affordable (Z.of_nat m) (sum_list (take m (pre ++ v :: rest)))
    end) as Hnext.
  { intros Hno. rewrite En. unfold total. rewrite Eapp. apply IH; [by rewrite <- Eapp|].
    intros m Hm. rewrite <- Eapp. destruct (decide (m ≤ length pre)%nat) as [|Hgt];
      [apply Hpre; lia|].
    rewrite length_app in Hm. simpl in Hm.
    assert (Z.of_nat m = n) as -> by lia.
    assert (m = Z.to_nat n) as -> by lia. by rewrite <- Etake. }
  assert (∀ m, (1 ≤ m)%nat → Z.of_nat m < n →
    ¬ affordable (Z.of_nat m) (sum_list (take m (pre ++ v :: rest)))) as Hmin.
  { intros m Hm Hlt. apply Hpre. lia. }
  assert (n ≤ Z.of_nat (length (pre ++ v :: rest))) as Hnlen
    by (rewrite Eapp, length_app; lia).
  destruct (Z.leb_spec (R + fee n (ro + co)) total) as [Hc|Hc].
  - rewrite (wrap_small (total - R - fee n (ro + co))) by lia.
    destruct (Z.ltb_spec 0 (total - R - fee n (ro + co))).
    + rewrite <- Etake. split_and!; [lia|lia|lia|done|lia|done].
    + destruct (Z.eqb_spec total (R + fee n ro)) as [Hx|Hx].
      * rewrite <- Etake. split_and!; [lia|lia|lia|done|done|done].
      * apply Hnext. unfold affordable. lia.
  - destruct (Z.eqb_spec total (R + fee n ro)) as [Hx|Hx].
    + rewrite <- Etake. split_and!; [lia|lia|lia|done|done|done].
    + apply Hnext. unfold affordable. lia.
Qed.
End select.

(** The transparent selection balances to the zatoshi and is the shortest possible: when
    it answers, the inputs taken are worth exactly the payments, the change and the fee, the
    fee is the ZIP-317 fee of the transaction with those outputs, a change output is kept
    exactly when something is left for it, and no shorter prefix could have paid; when it
    refuses, no prefix of the wallet's outputs can pay. The amounts are such that the
    wallet's outputs, and the payments with the fee of spending them all, fit 64 bits. *)
Theorem select_balances (R ro co p2 marginal grace : Z) (values : list Z) :
  in_u64 R ro co p2 marginal grace values →
  match select_transparent_inputs R ro co p2 marginal grace values with
  | Some (n, change, f, has_change) =>
      1 ≤ n ≤ Z.of_nat (length values) ∧
      sum_list (take (Z.to_nat n) values) = R + change + f ∧
      f = fee_for p2 marginal grace n (if has_change then ro + co else ro) ∧
      (if has_change then 0 < change else change = 0) ∧
      ∀ m, (1 ≤ m)%nat → Z.of_nat m < n →
        ¬ affordable R ro co p2 marginal grace (Z.of_nat m) (sum_list (take m values))
  | None => ∀ m, (1 ≤ m ≤ length values)%nat →
      ¬ affordable R ro co p2 marginal grace (Z.of_nat m) (sum_list (take m values))
  end.
Proof.
  intros Hu. apply (select_loop_spec R ro co p2 marginal grace [] values Hu).
  intros n Hn. simpl in Hn. lia.
Qed.

Lemma select_balances_witness :
  select_transparent_inputs 100000 34 34 34 5000 2 [70000; 60000; 50000]
    = Some (2, 20000, 10000, true) ∧
  sum_list (take 2 [70000; 60000; 50000]) = 100000 + 20000 + 10000.
Proof.
  assert (in_u64 100000 34 34 34 5000 2 [70000; 60000; 50000]) as Hu.
  { unfold in_u64. split; [repeat constructor; lia|]. vm_compute. intuition congruence. }
  assert (select_transparent_inputs 100000 34 34 34 5000 2 [70000; 60000; 50000]
            = Some (2, 20000, 10000, true)) as E by (vm_compute; reflexivity).
  split; [exact E|].
  pose proof (select_balances 100000 34 34 34 5000 2 [70000; 60000; 50000] Hu) as H.
  rewrite E in H. destruct H as (_ & H & _). exact H.
Defined.
