(* ===== verification/Keys.v ===== *)
(** * Keys: custody of the wallet's keys ([src/src/wallet/store.rs], [src/src/wallet/keys.rs],
    [src/src/wallet/binding.rs], and the custody half of [src/src/wallet/actor.rs])

    The keys file and its writes, the seed keeper, the account binding, the start of an actor,
    the rebuild of an account, [walletpassphrase], [walletlock] and the relock deadline.

    The wallet database and the upstream are the libraries': [WalletDb] is the interface of the
    calls the code makes on them. Times are clock readings in seconds. *)

From S2P Require Export Network Spend.

(** ** The keys file *)

Definition KEYS_FILE : string := "keys.toml".
Definition ENC_PASSPHRASE : string := "passphrase".

Definition keys_path (wallet_dir : string) : string := wallet_dir +:+ "/" +:+ KEYS_FILE.

(** [Path::file_name] of a path that does not end in a separator or [.], with what comes before
    it; [Path::file_stem] of a file name; and [Path::with_extension]. *)
Definition file_name (path : string) : option (string * string) :=
  let '(parent, name) := match rsplit_once "/" path with
                         | Some (a, b) => (a +:+ "/", b)
                         | None => ("", path)
                         end in
  if bool_decide (name = "") || bool_decide (name = ".") || bool_decide (name = "..") then None
  else Some (parent, name).
Definition file_stem (name : string) : string :=
  match rsplit_once "." name with
  | Some (stem, _) => if bool_decide (stem = "") then name else stem
  | None => name
  end.
Definition with_extension (path extension : string) : string :=
  match file_name path with
  | Some (parent, name) => parent +:+ file_stem name +:+ "." +:+ extension
  | None => path
  end.
Definition keys_tmp_path (path : string) : string := with_extension path "toml.tmp".

Record StoreEncoding := {
  se_mnemonic : option string;
  se_network : option string;
  se_birthday : option Z;
  se_encryption : option string;
  se_ufvk : option string;
}.
#[global] Instance StoreEncoding_eq_dec : EqDecision StoreEncoding.
Proof. solve_decision. Defined.

Record WalletStore := {
  ws_network : ZNetwork;
  ws_birthday : Z;
  seed_ciphertext : option string;
  ws_encrypted : bool;
  ws_pinned_ufvk : option string;
}.

Definition has_seed (st : WalletStore) : bool := is_some (seed_ciphertext st).

Definition view_only_placeholder (network : ZNetwork) (birthday : Z) : WalletStore :=
  {| ws_network := network; ws_birthday := birthday; seed_ciphertext := None;
     ws_encrypted := false; ws_pinned_ufvk := None |}.

(** The files of the wallet directory, path to text. *)
Abbreviation Files := (gmap string string).

(** How far a write gets before the call fails or the machine stops: at the open, after [n]
    bytes, at the sync, at the rename, or to its end. *)
Inductive WritePoint := AtOpen | AtWrite (n : nat) | AtSync | AtRename | AtEnd.

Section store.
(** The TOML codec, the environment, and NU5's activation height on a network. *)
Context (to_toml : StoreEncoding → option string) (from_toml : string → option StoreEncoding)
        (env : string → option string) (nu5_activation : ZNetwork → Z).

(** [write_keys_atomic]: the files it leaves, and whether it returned [Ok]. *)
Definition write_keys_atomic (fs : Files) (path : string) (encoding : StoreEncoding)
    (create_new : bool) (upto : WritePoint) : bool * Files :=
  match to_toml encoding with
  | None => (false, fs)
  | Some text =>
      if create_new then
        if is_some (fs !! path) then (false, fs)
        else match upto with
             | AtOpen => (false, fs)
             | AtWrite n => (false, <[path := String.substring 0 n text]> fs)
             | AtSync => (false, <[path := text]> fs)
             | AtRename | AtEnd => (true, <[path := text]> fs)
             end
      else
        let tmp := keys_tmp_path path in
        match upto with
        | AtOpen => (false, fs)
        | AtWrite n => (false, <[tmp := String.substring 0 n text]> fs)
        | AtSync | AtRename => (false, <[tmp := text]> fs)
        | AtEnd => (true, <[path := text]> (delete tmp fs))
        end
  end.

(** [init_with_mnemonic], [init_with_passphrase] and [init_view_only], from the ciphertext. *)
Definition init_with_mnemonic (fs : Files) (path ciphertext : string) (birthday : Z)
    (network : ZNetwork) (ufvk : string) (upto : WritePoint) : bool * Files :=
  write_keys_atomic fs path
    {| se_mnemonic := Some ciphertext; se_network := Some (network_name network);
       se_birthday := Some birthday; se_encryption := None; se_ufvk := Some ufvk |} true upto.
Definition init_with_passphrase (fs : Files) (path ciphertext : string) (birthday : Z)
    (network : ZNetwork) (ufvk : string) (upto : WritePoint) : bool * Files :=
  write_keys_atomic fs path
    {| se_mnemonic := Some ciphertext; se_network := Some (network_name network);
       se_birthday := Some birthday; se_encryption := Some ENC_PASSPHRASE;
       se_ufvk := Some ufvk |} true upto.
Definition init_view_only (fs : Files) (path : string) (birthday : Z) (network : ZNetwork)
    (ufvk : string) (upto : WritePoint) : bool * Files :=
  write_keys_atomic fs path
    {| se_mnemonic := None; se_network := Some (network_name network);
       se_birthday := Some birthday; se_encryption := None; se_ufvk := Some ufvk |} true upto.

(** [pin_ufvk]. *)
Definition pin_ufvk (fs : Files) (path ufvk : string) (upto : WritePoint) : bool * Files :=
  match fs !! path ≫= from_toml with
  | None => (false, fs)
  | Some encoding =>
      if bool_decide (se_ufvk encoding = Some ufvk) then (true, fs)
      else
        write_keys_atomic fs path
          {| se_mnemonic := se_mnemonic encoding; se_network := se_network encoding;
             se_birthday := se_birthday encoding; se_encryption := se_encryption encoding;
             se_ufvk := Some ufvk |} false upto
  end.

(** [WalletStore::read]; a regtest network may panic, which is also [None] here. *)
Definition store_of (encoding : StoreEncoding) : option WalletStore :=
  network ← match se_network encoding with
            | None => Some Test
            | Some s => network_parse env s ≫= result_ok
            end;
  Some {| ws_network := network;
          ws_birthday := match se_birthday encoding with
                         | Some b => b
                         | None => nu5_activation network
                         end;
          seed_ciphertext := se_mnemonic encoding;
          ws_encrypted := bool_decide (se_encryption encoding = Some ENC_PASSPHRASE);
          ws_pinned_ufvk := se_ufvk encoding |}.
Definition store_read (fs : Files) (path : string) : option WalletStore :=
  text ← fs !! path;
  encoding ← from_toml text;
  store_of encoding.
End store.

(** ** The age identity file *)

(** A file's metadata as the check reads it: whether it is a regular file, and its mode. *)
Record FileMeta := { is_file : bool; file_mode : Z }.

Inductive IdentityRefusal := Unreadable | NotRegular | InsecureMode (mode : Z).

(** [check_identity_file_permissions] on Unix. *)
Definition check_identity_file_permissions (meta : option FileMeta) : result IdentityRefusal () :=
  match meta with
  | None => Err Unreadable
  | Some m =>
      if negb (is_file m) then Err NotRegular
      else if negb (Z.land (file_mode m) 63 =? 0)
      then Err (InsecureMode (Z.land (file_mode m) 4095))
      else Ok tt
  end.

(** ** The wallet database *)

(** An account as the code reads it: its viewing key's encoding, the index its keys derive at,
    and whether it was imported for viewing only. *)
Record Account := {
  ac_ufvk : option string;
  ac_index : option Z;
  ac_view_only : bool;
}.

(** The calls on the wallet database and the key derivations; a failed call is an [Err] or
    [None]. [seed] and [key] are the secrets, [birthday] the library's account birthday. *)
Class WalletDb := {
  db : Type; account_uuid : Type; seed : Type; usk : Type; ufvk : Type; birthday_t : Type;
  tree_state : Type;
  get_account_ids : db → option (list account_uuid);
  get_account : db → account_uuid → option (option Account);
  create_account : db → seed → birthday_t → option db;
  import_account_ufvk : db → ufvk → birthday_t → option db;
  update_chain_tip : db → Z → db;
  ufvk_decode : ZNetwork → string → option ufvk;
  ufvk_encode : ZNetwork → ufvk → string;
  usk_from_seed : ZNetwork → seed → Z → result string usk;
  usk_ufvk : usk → ufvk;
  from_treestate : tree_state → option Z → option birthday_t;
  decrypt_passphrase : string → string → option seed;
  decrypt_identity : string → option seed;
}.

Section custody.
Context `{W : WalletDb}.

(** [account_ufvk_encoded] and [seed_ufvk_encoded]. *)
Definition account_ufvk_encoded (d : db) (id : account_uuid) : option string :=
  account ← get_account d id;
  account ← account;
  ac_ufvk account.
Definition seed_ufvk_encoded (net : ZNetwork) (s : seed) (index : Z) : option string :=
  k ← result_ok (usk_from_seed net s index);
  Some (ufvk_encode net (usk_ufvk k)).

(** [try_select_account]: [None] is the error. *)
Definition try_select_account (d : db) : option (option (account_uuid * option Z * bool)) :=
  ids ← get_account_ids d;
  match ids with
  | [] => Some None
  | id :: _ =>
      account ← get_account d id;
      account ← account;
      Some (Some (id, ac_index account, ac_view_only account))
  end.

Inductive BootstrapKey := FromSeed | FromUfvk (k : ufvk).

(** The custody state of an actor and what it reads: the [WalletActor] fields the functions
    below use, the database, and the wallet directory's files. *)
Record Custody := {
  c_encrypted : bool;
  c_watch_only : bool;
  c_is_shard : bool;
  c_account_id : option account_uuid;
  c_account_index : option Z;
  c_pending_bootstrap : option (Z * BootstrapKey);
  c_seed : option seed;
  c_unlock_until : option Z;
  c_client : bool;
  c_tip_height : option Z;
  c_db : db;
  c_files : Files;
}.

(** *** [SeedKeeper] *)

Definition with_seed (s : option seed) (c : Custody) : Custody :=
  {| c_encrypted := c_encrypted c; c_watch_only := c_watch_only c; c_is_shard := c_is_shard c;
     c_account_id := c_account_id c; c_account_index := c_account_index c;
     c_pending_bootstrap := c_pending_bootstrap c; c_seed := s;
     c_unlock_until := c_unlock_until c; c_client := c_client c;
     c_tip_height := c_tip_height c; c_db := c_db c; c_files := c_files c |}.
Definition with_deadline (t : option Z) (c : Custody) : Custody :=
  {| c_encrypted := c_encrypted c; c_watch_only := c_watch_only c; c_is_shard := c_is_shard c;
     c_account_id := c_account_id c; c_account_index := c_account_index c;
     c_pending_bootstrap := c_pending_bootstrap c; c_seed := c_seed c;
     c_unlock_until := t; c_client := c_client c;
     c_tip_height := c_tip_height c; c_db := c_db c; c_files := c_files c |}.
Definition with_client (b : bool) (c : Custody) : Custody :=
  {| c_encrypted := c_encrypted c; c_watch_only := c_watch_only c; c_is_shard := c_is_shard c;
     c_account_id := c_account_id c; c_account_index := c_account_index c;
     c_pending_bootstrap := c_pending_bootstrap c; c_seed := c_seed c;
     c_unlock_until := c_unlock_until c; c_client := b;
     c_tip_height := c_tip_height c; c_db := c_db c; c_files := c_files c |}.
Definition with_db (d : db) (fs : Files) (pending : option (Z * BootstrapKey)) (c : Custody) :
    Custody :=
  {| c_encrypted := c_encrypted c; c_watch_only := c_watch_only c; c_is_shard := c_is_shard c;
     c_account_id := c_account_id c; c_account_index := c_account_index c;
     c_pending_bootstrap := pending; c_seed := c_seed c;
     c_unlock_until := c_unlock_until c; c_client := c_client c;
     c_tip_height := c_tip_height c; c_db := d; c_files := fs |}.

(** [SeedKeeper::lock] and [SeedKeeper::set]. *)
Definition seed_lock (c : Custody) : Custody := with_seed None c.
Definition seed_set (s : seed) (c : Custody) : Custody := with_seed (Some s) c.
Definition is_unlocked (c : Custody) : bool := is_some (c_seed c).

(** [SeedKeeper::derive_usk]. *)
Definition derive_usk (net : ZNetwork) (c : Custody) (account_index : Z) : rpc usk :=
  s ← ok_or (c_seed c) RpcError.unlock_needed;
  map_err (λ e, RpcError.wallet ("key derivation failed: " +:+ e))
    (usk_from_seed net s account_index).

(** *** Locking *)

(** [relock_if_expired], at the clock reading [now]. *)
Definition relock_if_expired (now : Z) (c : Custody) : Custody :=
  match c_unlock_until c with
  | Some t => if t <=? now then with_deadline None (seed_lock c) else c
  | None => c
  end.

(** [do_lock]. *)
Definition do_lock (c : Custody) : result RpcError Custody :=
  if negb (c_encrypted c) then
    Err (RpcError.new RPC_WALLET_WRONG_ENC_STATE
           "Error: running with an unencrypted wallet, but walletlock was called.")
  else Ok (with_deadline None (seed_lock c)).

(** The fast path of [WalletHandle::lock]: the handle holds the seed only of an encrypted
    wallet. *)
Definition handle_lock (c : Custody) : Custody := if c_encrypted c then seed_lock c else c.

(** *** Binding the account to the keys file *)

(** [abbrev]. *)
Definition abbrev (u : string) : string :=
  if (String.length u <=? 24)%nat then u else String.substring 0 24 u +:+ "...".

(** An error of the start: evidence of tampering, which is fatal to the daemon, or another
    failure, which skips the wallet. *)
Inductive StartError := BindingMismatch (m : string) | StartFailed (m : string).

(** [verify_or_pin_account]: the files after it. *)
Definition verify_or_pin_account (to_toml : StoreEncoding → option string)
    (from_toml : string → option StoreEncoding) (name : string) (fs : Files) (path : string)
    (pinned : option string) (account_ufvk : string) (upto : WritePoint) :
    result StartError () * Files :=
  match pinned with
  | Some p =>
      if bool_decide (p = account_ufvk) then (Ok tt, fs)
      else
        (Err (BindingMismatch
           ("wallet '" +:+ name +:+ "': the account in the wallet database does not match the "
            +:+ "key pinned in keys.toml (pinned " +:+ abbrev p +:+ ", database has "
            +:+ abbrev account_ufvk +:+ "). The database was replaced or belongs to "
            +:+ "a different wallet; refusing to serve it. Restore the matching database, or "
            +:+ "re-run `zecd init` in a fresh data directory.")), fs)
  | None =>
      match pin_ufvk to_toml from_toml fs path account_ufvk upto with
      | (true, fs') => (Ok tt, fs')
      | (false, fs') => (Err (StartFailed "writing keys.toml"), fs')
      end
  end.

(** *** The account of a spend *)

Definition account_not_ready : RpcError :=
  RpcError.wallet
    ("wallet account is not ready: it is being rebuilt from keys.toml on an empty data "
     +:+ "directory (an encrypted wallet must be unlocked with walletpassphrase first)").

(** [require_account]. *)
Definition require_account (c : Custody) (requested : option account_uuid) : rpc account_uuid :=
  ok_or (match requested with Some a => Some a | None => c_account_id c end)
    (if c_is_shard c then private_keys_disabled else account_not_ready).

(** What [do_send] runs after its catch-up, and the head of every spending call: the account,
    its index, and its key. *)
Definition spending_key (net : ZNetwork) (c : Custody) : rpc usk :=
  _ ← require_account c None;
  account_index ← ok_or (c_account_index c) private_keys_disabled;
  derive_usk net c account_index.

(** *** The commands *)

(** What the wallet is configured with. *)
Record KeyConfig := {
  kc_name : string;
  kc_network : ZNetwork;
  kc_keys_path : string;
  kc_bootstrap : bool;
  kc_auto_unlock : bool;
  (** the configured identity file's metadata, if one is configured *)
  kc_identity : option (option FileMeta);
}.

Context (to_toml : StoreEncoding → option string) (from_toml : string → option StoreEncoding)
        (env : string → option string) (nu5_activation : ZNetwork → Z) (cfg : KeyConfig).

Abbreviation read_store := (λ fs, store_read from_toml env nu5_activation fs (kc_keys_path cfg)).
Abbreviation verify_or_pin := (verify_or_pin_account to_toml from_toml (kc_name cfg)).

(** The reply to the [tree_state] call of a rebuild. *)
Inductive TreeReply := TreeOk (t : tree_state) | TreeFailed | TreeTimeout.

(** The account state after an adoption. *)
Definition with_account (id : account_uuid) (index : option Z) (watch_only : bool) (c : Custody) :
    Custody :=
  {| c_encrypted := c_encrypted c; c_watch_only := watch_only; c_is_shard := c_is_shard c;
     c_account_id := Some id; c_account_index := index;
     c_pending_bootstrap := None; c_seed := c_seed c;
     c_unlock_until := c_unlock_until c; c_client := c_client c;
     c_tip_height := c_tip_height c; c_db := c_db c; c_files := c_files c |}.

(** The last part of [maybe_bootstrap_account]: [d] is the database the account was just
    created in. It is adopted only when it matches the pin. *)
Definition adopt_account (upto : WritePoint) (tip : Z) (d : db) (c : Custody) : Custody :=
  match try_select_account d with
  | Some (Some (id, index, watch_only)) =>
      let '(checked, fs) :=
        match account_ufvk_encoded d id, read_store (c_files c) with
        | Some u, Some st =>
            let '(r, fs) := verify_or_pin (c_files c) (kc_keys_path cfg) (ws_pinned_ufvk st) u upto in
            (match r with Ok _ => true | Err _ => false end, fs)
        | _, _ => (false, c_files c)
        end in
      if (checked : bool)
      then with_account id index watch_only
             (with_db (update_chain_tip d tip) fs (c_pending_bootstrap c) c)
      else with_db d fs None c
  | _ => with_db d (c_files c) (c_pending_bootstrap c) c
  end.

(** [maybe_bootstrap_account]: [reply] is the upstream's answer for the height asked, and
    [upto] how far the pin's write gets. *)
Definition maybe_bootstrap_account (reply : Z → TreeReply) (upto : WritePoint) (c : Custody) :
    Custody :=
  match c_pending_bootstrap c with
  | None => c
  | Some (birthday_height, key) =>
      if is_some (c_account_id c) then with_db (c_db c) (c_files c) None c
      else
        let loaded := match key with FromSeed => c_seed c | FromUfvk _ => None end in
        if (match key with FromSeed => negb (is_some loaded) | _ => false end) then c
        else
          match c_tip_height c with
          | None => c
          | Some tip =>
              if negb (c_client c) then c
              else
                let prior := Z.max (sat_sub birthday_height 1) 1 in
                match reply prior with
                | TreeFailed | TreeTimeout => with_client false c
                | TreeOk ts =>
                    match from_treestate ts (Some tip) with
                    | None => c
                    | Some birthday =>
                        match (match key, loaded with
                               | FromSeed, Some s => create_account (c_db c) s birthday
                               | FromUfvk k, _ => import_account_ufvk (c_db c) k birthday
                               | FromSeed, None => None
                               end) with
                        | None => c
                        | Some d => adopt_account upto tip d c
                        end
                    end
                end
          end
  end.

(** [do_unlock] up to the moment the seed is held: the seed [passphrase] opens, if it is this
    wallet's. The two texts are the details of errors of the file and of the key derivation. *)
Definition unlock_seed (store_error key_error : string) (passphrase : string) (c : Custody) :
    rpc seed :=
  if negb (c_encrypted c) then
    Err (RpcError.new RPC_WALLET_WRONG_ENC_STATE
           "Error: running with an unencrypted wallet, but walletpassphrase was called.")
  else
    st ← ok_or (read_store (c_files c)) (RpcError.wallet ("reading keys.toml: " +:+ store_error));
    ct ← ok_or (seed_ciphertext st) (RpcError.wallet "wallet has no stored seed");
    s ← ok_or (decrypt_passphrase ct passphrase)
          (RpcError.new RPC_WALLET_PASSPHRASE_INCORRECT
             "Error: The wallet passphrase entered was incorrect.");
    match c_account_id c, c_account_index c with
    | Some id, Some index =>
        expected ← ok_or (account_ufvk_encoded (c_db c) id)
                     (RpcError.wallet ("reading the wallet account: " +:+ key_error));
        derived ← ok_or (seed_ufvk_encoded (kc_network cfg) s index)
                    (RpcError.wallet ("deriving from the seed: " +:+ key_error));
        if bool_decide (derived = expected) then Ok s
        else
          Err (RpcError.wallet
            ("Error: The decrypted seed does not derive this wallet's account; "
             +:+ "keys.toml and the wallet database disagree (one of them was replaced or "
             +:+ "belongs to a different wallet). Refusing to unlock."))
    | _, _ => Ok s
    end.

(** [do_unlock] after that: [now] is the clock when the deadline is set, [now'] when it is
    first checked. *)
Definition unlock_hold (s : seed) (timeout_secs now now' : Z) (reply : Z → TreeReply)
    (upto : WritePoint) (c : Custody) : Custody :=
  let c := seed_set s c in
  let c := with_deadline (Some (now + Z.max timeout_secs 0)) c in
  let c := relock_if_expired now' c in
  if is_some (c_pending_bootstrap c) && is_unlocked c
  then maybe_bootstrap_account reply upto c else c.

Definition do_unlock (store_error key_error passphrase : string) (timeout_secs now now' : Z)
    (reply : Z → TreeReply) (upto : WritePoint) (c : Custody) : rpc Custody :=
  s ← unlock_seed store_error key_error passphrase c;
  Ok (unlock_hold s timeout_secs now now' reply upto c).

(** *** The start of an actor *)

(** What can rebuild the account of an empty database. *)
Definition bootstrap_key (st : WalletStore) : result StartError (option BootstrapKey) :=
  if has_seed st then Ok (Some FromSeed)
  else
    match ws_pinned_ufvk st with
    | None => Ok None
    | Some pin =>
        match ufvk_decode (kc_network cfg) pin with
        | Some k => Ok (Some (FromUfvk k))
        | None => Err (StartFailed
            ("wallet '" +:+ kc_name cfg +:+ "' has an empty data directory and the UFVK pinned "
             +:+ "in keys.toml does not decode on " +:+ network_name (kc_network cfg)
             +:+ ". Recreate it with `zecd init --ufvk`."))
        end
    end.

(** The account the start resolves: its id and index, whether it is watch-only, and the rebuild
    to run when there is none. *)
Definition start_account (st : WalletStore) (d : db) :
    result StartError (option account_uuid * option Z * bool * option (Z * BootstrapKey)) :=
  selected ← ok_or (try_select_account d) (StartFailed "reading the wallet account");
  match selected with
  | Some (id, index, watch_only) => Ok (Some id, index, watch_only, None)
  | None =>
      key ← bootstrap_key st;
      key ← ok_or key (StartFailed
              ("wallet '" +:+ kc_name cfg +:+ "' has an empty data directory, and keys.toml "
               +:+ "holds neither a spending seed nor a pinned viewing key (a watch-only "
               +:+ "keys.toml written before the pin existed): it cannot be rebuilt. Recreate "
               +:+ "it with `zecd init --ufvk`."));
      if negb (kc_bootstrap cfg) then
        Err (StartFailed
          ("wallet '" +:+ kc_name cfg +:+ "' has no account; run `zecd init`, or enable "
           +:+ "[keys] bootstrap_from_keys to rebuild the data directory from keys.toml."))
      else
        Ok (None, None, match key with FromUfvk _ => true | FromSeed => false end,
            Some (ws_birthday st, key))
  end.

(** [decrypt_seed_with_identity]: [None] is an error, [Some None] a file without a seed. *)
Definition decrypt_seed_with_identity (st : WalletStore) (meta : option FileMeta) :
    option (option seed) :=
  match check_identity_file_permissions meta with
  | Err _ => None
  | Ok _ =>
      match seed_ciphertext st with
      | None => Some None
      | Some ct => s ← decrypt_identity ct; Some (Some s)
      end
  end.

(** The unlock chain of the start: the seed it holds. *)
Definition start_seed (st : WalletStore) (watch_only : bool) (account_ufvk : option string)
    (account_index : option Z) : result StartError (option seed) :=
  if watch_only || ws_encrypted st || negb (kc_auto_unlock cfg) then Ok None
  else
    match kc_identity cfg with
    | None => Ok None
    | Some meta =>
        if negb (has_seed st) then Ok None
        else
          match decrypt_seed_with_identity st meta with
          | Some (Some s) =>
              match account_ufvk, account_index with
              | Some expected, Some index =>
                  derived ← ok_or (seed_ufvk_encoded (kc_network cfg) s index)
                              (StartFailed "deriving the unified spending key from the seed failed");
                  if bool_decide (derived = expected) then Ok (Some s)
                  else Err (BindingMismatch
                    ("wallet '" +:+ kc_name cfg +:+ "': the decrypted seed does not derive this "
                     +:+ "wallet's account; keys.toml and the wallet database disagree (one of "
                     +:+ "them was replaced or belongs to a different wallet). Refusing to "
                     +:+ "start."))
              | _, _ => Ok (Some s)
              end
          | _ => Ok None
          end
    end.

(** The custody part of [spawn_inner] for a conventional wallet: the state the actor starts
    with. *)
Definition start_custody (d : db) (fs : Files) (upto : WritePoint) :
    result StartError Custody * Files :=
  match (st ← ok_or (read_store fs) (StartFailed "reading keys.toml");
         '(id, index, watch_only, pending) ← start_account st d;
         account_ufvk ← match id with
                        | None => Ok None
                        | Some id =>
                            u ← ok_or (account_ufvk_encoded d id)
                                  (StartFailed "account has no unified full viewing key");
                            Ok (Some u)
                        end;
         s ← start_seed st watch_only account_ufvk index;
         Ok (st, id, index, watch_only, pending, account_ufvk, s)) with
  | Err e => (Err e, fs)
  | Ok (st, id, index, watch_only, pending, account_ufvk, s) =>
      let '(bound, fs) :=
        match account_ufvk with
        | None => (Ok tt, fs)
        | Some u => verify_or_pin fs (kc_keys_path cfg) (ws_pinned_ufvk st) u upto
        end in
      match bound with
      | Err e => (Err e, fs)
      | Ok _ =>
          (Ok {| c_encrypted := ws_encrypted st; c_watch_only := watch_only;
                 c_is_shard := false; c_account_id := id; c_account_index := index;
                 c_pending_bootstrap := pending; c_seed := s; c_unlock_until := None;
                 c_client := false; c_tip_height := None; c_db := d; c_files := fs |}, fs)
      end
  end.
End custody.

(** ** The arguments of [walletpassphrase] *)

Definition MAX_UNLOCK_TIMEOUT_SECS : Z := 100000000.

(** The two arguments as the handler reads them: the string, and the number when it is a 64-bit
    integer. *)
Definition walletpassphrase_args (passphrase : rpc string) (timeout : option Z) :
    rpc (string * Z) :=
  passphrase ← passphrase;
  timeout ← ok_or timeout
              (RpcError.invalid_parameter "walletpassphrase requires an integer timeout (seconds)");
  if timeout <? 0 then Err (RpcError.invalid_parameter "Timeout cannot be negative.")
  else if bool_decide (passphrase = "")
  then Err (RpcError.invalid_parameter "passphrase cannot be empty")
  else Ok (passphrase, Z.min timeout MAX_UNLOCK_TIMEOUT_SECS).
