(* ===== verification/KeysSpec.v ===== *)
(** * KeysSpec: what the custody of the keys guarantees

    The actor and a handle's fast lock run interleaved; the seed in memory follows an abstract
    authority computed from the history alone; the account served stays bound to the keys file
    and to the seed; a write of the keys file never loses the mnemonic. *)

From S2P Require Export Keys.

Section machine.
Context `{W : WalletDb}.
Context (to_toml : StoreEncoding → option string) (from_toml : string → option StoreEncoding)
        (env : string → option string) (nu5_activation : ZNetwork → Z) (cfg : KeyConfig).

Abbreviation bootstrap := (maybe_bootstrap_account to_toml from_toml env nu5_activation cfg).
Abbreviation unlock_check := (unlock_seed from_toml env nu5_activation cfg).
Abbreviation read_keys := (λ fs, store_read from_toml env nu5_activation fs (kc_keys_path cfg)).

(** ** The machine *)

(** One access of the shared seed or of the actor's custody state. [ASync] is any sync work: it
    changes the connection, the tip and the database; [ADerive] is a spend's key derivation, at
    a time nothing reads. *)
Inductive KeyAtom :=
  | ASet (s : seed)
  | ADeadline (now timeout : Z)
  | ARelock (now : Z)
  | ALock
  | AFastLock
  | ABootstrap (reply : Z → TreeReply) (upto : WritePoint)
  | AUnlockBootstrap (reply : Z → TreeReply) (upto : WritePoint)
  | ASync (client : bool) (tip : option Z) (d : db)
  | ADerive (at_ : Z).

Definition apply_atom (a : KeyAtom) (c : Custody) : Custody :=
  match a with
  | ASet s => seed_set s c
  | ADeadline now timeout => with_deadline (Some (now + Z.max timeout 0)) c
  | ARelock now => relock_if_expired now c
  | ALock => with_deadline None (seed_lock c)
  | AFastLock => handle_lock c
  | ABootstrap reply upto => bootstrap reply upto c
  | AUnlockBootstrap reply upto =>
      if is_some (c_pending_bootstrap c) && is_unlocked c then bootstrap reply upto c else c
  | ASync client tip d =>
      {| c_encrypted := c_encrypted c; c_watch_only := c_watch_only c; c_is_shard := c_is_shard c;
         c_account_id := c_account_id c; c_account_index := c_account_index c;
         c_pending_bootstrap := c_pending_bootstrap c; c_seed := c_seed c;
         c_unlock_until := c_unlock_until c; c_client := client;
         c_tip_height := tip; c_db := d; c_files := c_files c |}
  | ADerive _ => c
  end.

Definition unlock_atoms (s : seed) (timeout now now' : Z) (reply : Z → TreeReply)
    (upto : WritePoint) : list KeyAtom :=
  [ASet s; ADeadline now timeout; ARelock now'; AUnlockBootstrap reply upto].

Definition run_atoms (l : list KeyAtom) (c : Custody) : Custody :=
  foldl (λ c a, apply_atom a c) c l.

(** Undisturbed, the atoms of an unlock are [do_unlock]'s body. *)
Lemma unlock_atoms_run s timeout now now' reply upto c :
  run_atoms (unlock_atoms s timeout now now' reply upto) c =
  unlock_hold to_toml from_toml env nu5_activation cfg s timeout now now' reply upto c.
Proof. done. Qed.

Lemma do_lock_run c c' : do_lock c = Ok c' → c' = run_atoms [ALock] c.
Proof. unfold do_lock. destruct (c_encrypted c); naive_solver. Qed.

Definition keeps_accounts (d d' : db) : Prop :=
  get_account_ids d' = get_account_ids d ∧ ∀ id, get_account d' id = get_account d id.

Definition sync_work (a : KeyAtom) : Prop :=
  match a with ABootstrap _ _ | ASync _ _ _ => True | _ => False end.

(** The actor's state, what is left of the command it runs, and every access so far, newest
    first. *)
Record Machine := { m_c : Custody; m_todo : list KeyAtom; m_log : list KeyAtom }.

Definition begin (m : Machine) (atoms : list KeyAtom) : Machine :=
  {| m_c := m_c m; m_todo := atoms; m_log := m_log m |}.

(** The actor takes one command at a time; a handle's fast lock runs between any two
    accesses. *)
Inductive mstep : Machine → Machine → Prop :=
  | s_unlock m se ke passphrase timeout now now' reply upto s :
      m_todo m = [] → unlock_check se ke passphrase (m_c m) = Ok s →
      mstep m (begin m (unlock_atoms s timeout now now' reply upto))
  | s_lock m c' : m_todo m = [] → do_lock (m_c m) = Ok c' → mstep m (begin m [ALock])
  | s_relock m now : m_todo m = [] → mstep m (begin m [ARelock now])
  | s_work m a : m_todo m = [] → sync_work a → mstep m (begin m [a])
  | s_spend m gate catch_up at_ :
      m_todo m = [] → Forall sync_work catch_up →
      mstep m (begin m (ARelock gate :: catch_up ++ [ADerive at_]))
  | s_atom m a rest :
      m_todo m = a :: rest →
      (match a with ASync _ _ d => keeps_accounts (c_db (m_c m)) d | _ => True end) →
      mstep m {| m_c := apply_atom a (m_c m); m_todo := rest; m_log := a :: m_log m |}
  | s_fast m :
      mstep m {| m_c := handle_lock (m_c m); m_todo := m_todo m; m_log := AFastLock :: m_log m |}.

Definition reachable (c0 : Custody) (m : Machine) : Prop :=
  rtc mstep {| m_c := c0; m_todo := []; m_log := [] |} m.

(** ** The authority a history grants *)

(** The seed last set and not locked since, with what happened since. *)
Fixpoint last_grant (log : list KeyAtom) : option (seed * list KeyAtom) :=
  match log with
  | [] => None
  | ASet s :: _ => Some (s, [])
  | ALock :: _ | AFastLock :: _ => None
  | a :: rest => '(s, post) ← last_grant rest; Some (s, a :: post)
  end.

Fixpoint deadline_of (post : list KeyAtom) : option Z :=
  match post with
  | [] => None
  | ADeadline now timeout :: _ => Some (now + Z.max timeout 0)
  | _ :: rest => deadline_of rest
  end.

(** A relock read the clock at or past the deadline. *)
Definition expired (post : list KeyAtom) : bool :=
  match deadline_of post with
  | Some d => existsb (λ a, match a with ARelock t => d <=? t | _ => false end) post
  | None => false
  end.

Definition resident (log : list KeyAtom) : option seed :=
  match last_grant log with
  | Some (s, post) => if expired post then None else Some s
  | None => None
  end.

(** ** The seed follows the authority *)

Lemma adopt_account_custody upto tip d c :
  let c' := adopt_account to_toml from_toml env nu5_activation cfg upto tip d c in
  c_seed c' = c_seed c ∧ c_unlock_until c' = c_unlock_until c ∧ c_encrypted c' = c_encrypted c.
Proof. cbv zeta. unfold adopt_account. repeat case_match; done. Qed.

(** The four ways a rebuild ends. *)
Lemma bootstrap_cases reply upto c :
  bootstrap reply upto c = c ∨
  (is_some (c_account_id c) = true ∧
   bootstrap reply upto c = with_db (c_db c) (c_files c) None c) ∨
  bootstrap reply upto c = with_client false c ∨
  ∃ height key tip birthday d,
    c_pending_bootstrap c = Some (height, key) ∧ c_account_id c = None ∧
    match key with
    | FromSeed => ∃ s, c_seed c = Some s ∧ create_account (c_db c) s birthday = Some d
    | FromUfvk k => import_account_ufvk (c_db c) k birthday = Some d
    end ∧
    bootstrap reply upto c = adopt_account to_toml from_toml env nu5_activation cfg upto tip d c.
Proof.
  unfold maybe_bootstrap_account. cbv zeta.
  destruct (c_pending_bootstrap c) as [[height key]|] eqn:Ep; [|auto].
  destruct (c_account_id c) as [id|] eqn:Ea; simpl; [auto|].
  destruct (match key with FromSeed => _ | FromUfvk _ => false end) eqn:Eg; [auto|].
  destruct (c_tip_height c) as [tip|]; [|auto]. destruct (c_client c); simpl; [|auto].
  destruct (reply _) as [ts| |]; [|auto|auto].
  destruct (from_treestate ts (Some tip)) as [birthday|]; [|auto].
  destruct key as [|k]; simpl.
  - destruct (c_seed c) as [s|] eqn:Es; [|done].
    destruct (create_account (c_db c) s birthday) as [d|] eqn:Ec; [|auto].
    do 3 right. exists height, FromSeed, tip, birthday, d. eauto 10.
  - destruct (import_account_ufvk (c_db c) k birthday) as [d|] eqn:Ec; [|auto].
    do 3 right. exists height, (FromUfvk k), tip, birthday, d. auto.
Qed.

Lemma bootstrap_custody reply upto c :
  c_seed (bootstrap reply upto c) = c_seed c ∧
  c_unlock_until (bootstrap reply upto c) = c_unlock_until c ∧
  c_encrypted (bootstrap reply upto c) = c_encrypted c.
Proof.
  destruct (bootstrap_cases reply upto c)
    as [->|[[_ ->]|[->|(? & ? & tip & ? & d & _ & _ & _ & ->)]]]; try done.
  apply adopt_account_custody.
Qed.

Lemma encrypted_atom a c : c_encrypted (apply_atom a c) = c_encrypted c.
Proof.
  destruct a; simpl; try done.
  - unfold relock_if_expired. repeat case_match; done.
  - unfold handle_lock. by case_match.
  - apply bootstrap_custody.
  - case_match; [apply bootstrap_custody|done].
Qed.

(** An access that does not touch the seed or the deadline. *)
Definition quiet (a : KeyAtom) : Prop :=
  match a with
  | ABootstrap _ _ | AUnlockBootstrap _ _ | ASync _ _ _ | ADerive _ => True
  | _ => False
  end.

Lemma quiet_custody a c :
  quiet a → c_seed (apply_atom a c) = c_seed c ∧ c_unlock_until (apply_atom a c) = c_unlock_until c.
Proof.
  destruct a; simpl; try done; intros _.
  - split; apply bootstrap_custody.
  - case_match; [split; apply bootstrap_custody|done].
Qed.

Lemma sync_work_quiet a : sync_work a → quiet a.
Proof. by destruct a. Qed.

(** The atoms left of any command: at most a seed with its deadline, then relocks and quiet
    accesses; or a lock alone. *)
Definition calm (a : KeyAtom) : Prop := match a with ARelock _ => True | _ => quiet a end.
Definition todo_shape (todo : list KeyAtom) : Prop :=
  match todo with
  | ASet _ :: ADeadline _ _ :: rest | ADeadline _ _ :: rest => Forall calm rest
  | ALock :: rest => rest = []
  | rest => Forall calm rest
  end.
Definition deadline_next (todo : list KeyAtom) : bool :=
  match todo with ADeadline _ _ :: _ => true | _ => false end.

Lemma calm_shape rest : Forall calm rest → todo_shape rest ∧ deadline_next rest = false.
Proof.
  destruct 1 as [|a l Ha Hl]; [split; [constructor|done]|].
  destruct a; try (by destruct Ha); (split; [by constructor|done]).
Qed.

Lemma shape_rest a rest :
  todo_shape (a :: rest) →
  todo_shape rest ∧ deadline_next rest = match a with ASet _ => true | _ => false end.
Proof.
  destruct a; simpl; try (by intros Hs; apply calm_shape; inversion Hs); try apply calm_shape.
  destruct rest as [|[] rest]; try (intros Hs; inversion Hs; done). done.
Qed.

(** How the deadline relates to the last grant: an unlock's seed is set and its deadline is
    not exactly while the deadline is the next access. *)
Definition tracks (c : Custody) (todo log : list KeyAtom) : Prop :=
  match last_grant log with
  | None => c_seed c = None
  | Some (s, post) =>
      match deadline_of post with
      | None => post = [] ∧ c_seed c = Some s ∧ deadline_next todo = true
      | Some d =>
          deadline_next todo = false ∧
          if expired post then c_seed c = None
          else c_seed c = Some s ∧ c_unlock_until c = Some d
      end
  end.

Lemma quiet_deadline a post : quiet a → deadline_of (a :: post) = deadline_of post.
Proof. by destruct a. Qed.
Lemma quiet_expired a post : quiet a → expired (a :: post) = expired post.
Proof.
  intros Hq. unfold expired. rewrite quiet_deadline by done.
  destruct (deadline_of post); [|done]. by destruct a.
Qed.

Lemma tracks_quiet a c rest log :
  quiet a → deadline_next rest = false →
  tracks c (a :: rest) log → tracks (apply_atom a c) rest (a :: log).
Proof.
  intros Hq Hn. destruct (quiet_custody a c Hq) as [E1 E2]. unfold tracks.
  assert (last_grant (a :: log) = '(s, post) ← last_grant log; Some (s, a :: post)) as ->
    by (destruct a; done).
  destruct (last_grant log) as [[s post]|]; cbn -[deadline_of expired]; [|by rewrite E1].
  rewrite quiet_deadline, quiet_expired by done.
  rewrite E1, E2, Hn. destruct (deadline_of post); [naive_solver|].
  intros (_ & _ & Hd). by destruct a.
Qed.

Lemma tracks_relock now c rest log :
  deadline_next rest = false → tracks c (ARelock now :: rest) log →
  tracks (relock_if_expired now c) rest (ARelock now :: log).
Proof.
  unfold tracks. intros Hn. simpl. destruct (last_grant log) as [[s post]|]; simpl.
  - unfold expired. simpl. destruct (deadline_of post) as [d|]; [|by intros (_ & _ & ?)].
    intros [_ Ht]. split; [done|]. unfold relock_if_expired.
    destruct (Z.leb_spec d now); simpl; destruct (existsb _ post).
    + repeat case_match; simpl; done.
    + destruct Ht as [_ ->]. by replace (d <=? now) with true by lia.
    + repeat case_match; simpl; done.
    + destruct Ht as [E1 E2]. rewrite E2. by replace (d <=? now) with false by lia.
  - intros E. unfold relock_if_expired. repeat case_match; simpl; done.
Qed.

Lemma tracks_deadline now timeout c rest log :
  deadline_next rest = false → tracks c (ADeadline now timeout :: rest) log →
  tracks (with_deadline (Some (now + Z.max timeout 0)) c) rest (ADeadline now timeout :: log).
Proof.
  unfold tracks. intros Hn. simpl. destruct (last_grant log) as [[s post]|]; simpl; [|done].
  destruct (deadline_of post); [by intros [? _]|]. intros (-> & E & _). done.
Qed.

Lemma atom_tracks a rest c log :
  c_encrypted c = true → todo_shape (a :: rest) → tracks c (a :: rest) log →
  tracks (apply_atom a c) rest (a :: log).
Proof.
  intros He Hs Ht. destruct (shape_rest _ _ Hs) as [_ Hn].
  destruct a; try (by apply tracks_quiet).
  - unfold tracks. simpl. done.
  - by apply tracks_deadline.
  - by apply tracks_relock.
  - done.
  - unfold tracks. simpl. unfold handle_lock. by rewrite He.
Qed.

(** A command begins only when the last one ended, so no deadline is then missing. *)
Lemma tracks_begin c atoms log :
  deadline_next atoms = false → tracks c [] log → tracks c atoms log.
Proof.
  unfold tracks. intros Hn. destruct (last_grant log) as [[s post]|]; [|done].
  destruct (deadline_of post); [by rewrite Hn|]. by intros (_ & _ & ?).
Qed.

Definition good (m : Machine) : Prop :=
  c_encrypted (m_c m) = true ∧ todo_shape (m_todo m) ∧ tracks (m_c m) (m_todo m) (m_log m).

Lemma spend_calm gate catch_up at_ :
  Forall sync_work catch_up → Forall calm (ARelock gate :: catch_up ++ [ADerive at_]).
Proof.
  intros Hw. constructor; [done|]. apply Forall_app. split; [|by repeat constructor].
  eapply Forall_impl; [exact Hw|]. by intros [].
Qed.

Lemma mstep_good m m' : mstep m m' → good m → good m'.
Proof.
  intros Hstep (He & Hs & Ht). unfold good.
  destruct Hstep as [m se ke p timeout now now' reply upto s E0 Hu|m c' E0 Hl|m now E0
    |m a E0 Hw|m gate catch_up at_ E0 Hw|m a rest E0 Hv|m]; simpl;
    try (rewrite E0 in Ht; split_and!; [done| |apply tracks_begin; [|done]]; try done).
  - by repeat constructor.
  - by repeat constructor.
  - by destruct a; try done; apply Forall_cons.
  - by destruct a.
  - by apply spend_calm.
  - rewrite E0 in Hs, Ht. split_and!; [by rewrite encrypted_atom|by eapply shape_rest|].
    by apply atom_tracks.
  - split_and!; [|done|].
    + unfold handle_lock. by rewrite He.
    + unfold tracks. simpl. unfold handle_lock. by rewrite He.
Qed.

Lemma reachable_good c0 m :
  c_encrypted c0 = true → c_seed c0 = None → reachable c0 m → good m.
Proof.
  intros He Hs Hr. unfold reachable in Hr.
  remember {| m_c := c0; m_todo := []; m_log := [] |} as m0 eqn:E0.
  assert (good m0) as Hg by (rewrite E0; split_and!; [done|by constructor|done]).
  clear E0 He Hs. induction Hr as [|m0 m1 m2 Hst _ IH]; [done|]. apply IH.
  by eapply mstep_good.
Qed.

(** ** A spend's key comes after its gate *)

Definition is_sync (a : KeyAtom) : bool :=
  match a with ABootstrap _ _ | ASync _ _ _ => true | _ => false end.
(** Only catch-up work stands before a derivation. *)
Fixpoint derive_pending (todo : list KeyAtom) : bool :=
  match todo with
  | [] => false
  | [ADerive _] => true
  | a :: rest => is_sync a && derive_pending rest
  end.
Definition gate_or_sync (a : KeyAtom) : bool :=
  match a with ARelock _ => true | _ => is_sync a end.
Fixpoint gated_todo (todo : list KeyAtom) : Prop :=
  match todo with
  | [] => True
  | a :: rest => gated_todo rest ∧ (derive_pending rest = true → gate_or_sync a = true)
  end.

Lemma gated_spend catch_up at_ :
  Forall sync_work catch_up → gated_todo (catch_up ++ [ADerive at_]).
Proof. induction 1 as [|a l Ha _ IH]; simpl; [done|]. split; [done|]. by destruct a. Qed.

Definition gated (m : Machine) : Prop :=
  gated_todo (m_todo m) ∧
  (derive_pending (m_todo m) = true → ∀ s post, last_grant (m_log m) = Some (s, post) →
     ∃ g, ARelock g ∈ post).

Lemma mstep_gated m m' : mstep m m' → gated m → gated m'.
Proof.
  intros Hstep [Hg Hd]. destruct Hstep as [m se ke p timeout now now' reply upto s E0 Hu
    |m c' E0 Hl|m now E0|m a E0 Hw|m gate catch_up at_ E0 Hw|m a rest E0 Hv|m];
    unfold gated; simpl; try done.
  - split; [done|]. by destruct a.
  - split; [split; [by apply gated_spend|done]|done].
  - rewrite E0 in Hg, Hd. destruct Hg as [Hg Ha]. split; [done|].
    intros Hp s post Hl. specialize (Ha Hp).
    assert (∃ p0, last_grant (m_log m) = Some (s, p0) ∧ post = a :: p0) as (p0 & E & ->).
    { destruct a; try done; simpl in Hl; destruct (last_grant (m_log m)) as [[]|];
        simplify_eq/=; eauto. }
    destruct a; try done.
    + exists now. apply elem_of_cons. by left.
    + destruct (Hd ltac:(by destruct rest) _ _ E) as [g ?].
      exists g. apply elem_of_cons. by right.
    + destruct (Hd ltac:(by destruct rest) _ _ E) as [g ?].
      exists g. apply elem_of_cons. by right.
Qed.

Lemma reachable_gated c0 m : reachable c0 m → gated m.
Proof.
  unfold reachable. intros Hr.
  remember {| m_c := c0; m_todo := []; m_log := [] |} as m0 eqn:E0.
  assert (gated m0) as Hg by (by rewrite E0).
  clear E0. induction Hr as [|m0 m1 m2 Hst _ IH]; [done|]. apply IH. by eapply mstep_gated.
Qed.

(** The encrypted wallet starts with no seed. *)
Lemma start_locked d fs upto c fs' :
  start_custody to_toml from_toml env nu5_activation cfg d fs upto = (Ok c, fs') →
  c_encrypted c = true → c_seed c = None.
Proof.
  unfold start_custody. destruct (store_read _ _ _ fs _) as [st|]; [|done]. simpl.
  destruct (start_account cfg st d) as [[[[id index] wo] pending]|e]; [|done]. simpl.
  destruct (match id with Some _ => _ | None => _ end) as [u|]; [|done]. simpl.
  destruct (start_seed cfg st wo u index) as [s|e] eqn:Es; [|done]. simpl.
  destruct (match u with Some _ => _ | None => _ end) as [[[]|e] fs1]; [|done].
  intros [= <- _]. simpl. intros He. revert Es. unfold start_seed. rewrite He, orb_true_r. simpl.
  congruence.
Qed.

(** C4. The decrypted seed is in memory exactly as long as the history grants it. On every
    interleaving of an encrypted wallet's commands with fast locks, from its start, the seed
    held is the one last set by [walletpassphrase], and only while no [walletlock], fast or
    not, came after and no relock check read the clock at or past its deadline. And a spend
    gets a key only under such a grant: its gate read the clock after the unlock and before
    the deadline, and the key is the granted seed's. *)
Theorem spend_needs_live_unlock d fs upto c0 fs0 m :
  start_custody to_toml from_toml env nu5_activation cfg d fs upto = (Ok c0, fs0) →
  c_encrypted c0 = true → reachable c0 m →
  c_seed (m_c m) = resident (m_log m) ∧
  ∀ at_ key, m_todo m = [ADerive at_] →
    spending_key (kc_network cfg) (m_c m) = Ok key →
    ∃ s post index deadline g,
      last_grant (m_log m) = Some (s, post) ∧ deadline_of post = Some deadline ∧
      ARelock g ∈ post ∧ (∀ g', ARelock g' ∈ post → g' < deadline) ∧
      c_account_index (m_c m) = Some index ∧
      usk_from_seed (kc_network cfg) s index = Ok key.
Proof.
  intros Hst He Hr. pose proof (start_locked _ _ _ _ _ Hst He) as Hs.
  destruct (reachable_good _ _ He Hs Hr) as (_ & _ & Ht).
  destruct (reachable_gated _ _ Hr) as [_ Hg].
  unfold tracks in Ht. unfold resident. split.
  { destruct (last_grant (m_log m)) as [[s post]|]; [|done]. unfold expired in *.
    destruct (deadline_of post); [|by destruct Ht as (-> & ? & ?)].
    destruct Ht as [_ Ht]. by case_match; [|destruct Ht]. }
  intros at_ key Etodo Hk. rewrite Etodo in *. specialize (Hg eq_refl).
  unfold spending_key in Hk. apply bind_Ok_inv in Hk as (? & _ & Hk).
  apply bind_Ok_inv in Hk as (index & Hi & Hk). apply ok_or_Ok in Hi.
  apply bind_Ok_inv in Hk as (s & Es & Hk). apply ok_or_Ok in Es.
  destruct (last_grant (m_log m)) as [[s0 post]|]; [|congruence].
  destruct (deadline_of post) as [deadline|] eqn:Ed; [|by destruct Ht as (_ & _ & ?)].
  destruct Ht as [_ Ht]. destruct (expired post) eqn:Ex; [congruence|]. destruct Ht as [Es0 _].
  destruct (Hg _ _ eq_refl) as [g Hin]. exists s0, post, index, deadline, g.
  split_and!; try done.
  - intros g' Hin'. unfold expired in Ex. rewrite Ed in Ex.
    destruct (Z.lt_ge_cases g' deadline) as [|Hge]; [done|].
    assert (existsb (λ a, match a with ARelock t => deadline <=? t | _ => false end) post = true)
      as Ht; [|congruence].
    apply existsb_exists. exists (ARelock g'). split; [by apply list_elem_of_In|]. lia.
  - destruct (usk_from_seed _ s index) eqn:Eu; simplify_eq/=. congruence.
Qed.

(** ** The keys file survives *)

Definition codec_laws : Prop := ∀ e t, to_toml e = Some t → from_toml t = Some e.
Abbreviation read_encoding := (λ fs path, fs !! path ≫= from_toml).
Definition with_pin (u : string) (e : StoreEncoding) : StoreEncoding :=
  {| se_mnemonic := se_mnemonic e; se_network := se_network e; se_birthday := se_birthday e;
     se_encryption := se_encryption e; se_ufvk := Some u |}.

Lemma append_self_nil (s t : string) : s +:+ t = s → t = "".
Proof. induction s as [|c s IH]; simpl; [done|]. intros [= H]. by apply IH. Qed.

(** The temporary file is another file. *)
Lemma tmp_path_ne path : is_some (file_name path) = true → keys_tmp_path path ≠ path.
Proof.
  unfold keys_tmp_path, with_extension. destruct (file_name path) as [[d f]|] eqn:Ef; [|done].
  intros _. unfold file_name in Ef.
  assert (path = d +:+ f) as ->.
  { destruct (rsplit_once "/" path) as [[a b]|] eqn:Er; destruct (_ || _); simplify_eq/=; [|done].
    apply rsplit_inv in Er as ->. by rewrite append_assoc. }
  intros E%append_inj_l. unfold file_stem in E.
  destruct (rsplit_once "." f) as [[a b]|] eqn:Er; [case_bool_decide|];
    try (by apply append_self_nil in E).
  rewrite <- E in Er.
  change (a +:+ "." +:+ "toml.tmp") with (a +:+ (".toml" +:+ String "." "tmp")) in Er.
  rewrite <- append_assoc, rsplit_append in Er by done. injection Er as Ea _.
  by apply append_self_nil in Ea.
Qed.

(** A pin's write that returns leaves the encoding pinned. *)
Lemma pin_ufvk_done fs path e u upto fs' :
  codec_laws → read_encoding fs path = Some e →
  pin_ufvk to_toml from_toml fs path u upto = (true, fs') →
  se_ufvk e = Some u ∧ fs' = fs ∨ read_encoding fs' path = Some (with_pin u e).
Proof.
  intros Hlaw He. unfold pin_ufvk. rewrite He. case_bool_decide as Eu.
  { intros [= <-]. auto. }
  unfold write_keys_atomic. destruct (to_toml _) as [text|] eqn:Et; [|done].
  destruct upto; intros [= <-]. right. rewrite lookup_insert_eq. simpl. by apply Hlaw.
Qed.

(** However far it gets, it leaves the old encoding or the pinned one, and no other file but the
    temporary one changes. *)
Lemma pin_ufvk_spec fs path e u upto ok fs' :
  codec_laws → is_some (file_name path) = true → read_encoding fs path = Some e →
  pin_ufvk to_toml from_toml fs path u upto = (ok, fs') →
  (read_encoding fs' path = Some e ∧ (ok = true → se_ufvk e = Some u) ∨
   read_encoding fs' path = Some (with_pin u e)) ∧
  ∀ p, p ≠ path → p ≠ keys_tmp_path path → fs' !! p = fs !! p.
Proof.
  intros Hlaw Hn He Hp. pose proof (tmp_path_ne path Hn) as Hne. split.
  - destruct ok.
    { destruct (pin_ufvk_done _ _ _ _ _ _ Hlaw He Hp) as [[? ->]|?]; auto. }
    left. split; [|done]. revert Hp. unfold pin_ufvk. rewrite He. case_bool_decide; [done|].
    unfold write_keys_atomic. destruct (to_toml _); [destruct upto|]; (intros [= <-] || done);
      by rewrite ?lookup_insert_ne by done.
  - revert Hp. unfold pin_ufvk. rewrite He. case_bool_decide; [by intros [= <- <-]|].
    unfold write_keys_atomic. destruct (to_toml _); [destruct upto|]; intros [= <- <-] p Hp Hp';
      by rewrite ?lookup_insert_ne, ?lookup_delete_ne by done.
Qed.

(** C39. The keys file is never lost. Recording the pin, however far the write gets before it
    fails or the machine stops, leaves a keys file that reads, with every other field as it was
    and the old pin or the new one, the new one when the call succeeds; nothing else but the
    temporary file beside it changes. And no initialisation overwrites a keys file that exists. *)
Theorem keys_file_survives fs path e u ct birthday net upto ok fs' :
  codec_laws → is_some (file_name path) = true → read_encoding fs path = Some e →
  pin_ufvk to_toml from_toml fs path u upto = (ok, fs') →
  (∃ e', read_encoding fs' path = Some e' ∧
     se_mnemonic e' = se_mnemonic e ∧ se_network e' = se_network e ∧
     se_birthday e' = se_birthday e ∧ se_encryption e' = se_encryption e ∧
     (se_ufvk e' = se_ufvk e ∨ se_ufvk e' = Some u) ∧ (ok = true → se_ufvk e' = Some u)) ∧
  (∀ p, p ≠ path → p ≠ keys_tmp_path path → fs' !! p = fs !! p) ∧
  init_with_mnemonic to_toml fs path ct birthday net u upto = (false, fs) ∧
  init_with_passphrase to_toml fs path ct birthday net u upto = (false, fs) ∧
  init_view_only to_toml fs path birthday net u upto = (false, fs).
Proof.
  intros Hlaw Hn He Hp. destruct (pin_ufvk_spec _ _ _ _ _ _ _ Hlaw Hn He Hp) as [Hr Ho].
  assert (is_some (fs !! path) = true) as Hex.
  { cbn in He. destruct (fs !! path); [done|discriminate He]. }
  split_and!; [|done|..];
    try (unfold init_with_mnemonic, init_with_passphrase, init_view_only, write_keys_atomic;
         rewrite Hex; by case_match).
  destruct Hr as [[Hr Hok]|Hr]; eexists; (split; [exact Hr|]); simpl; auto 10.
Qed.

(** ** The account stays bound *)

(** The documented behaviour of the wallet database: a chain-tip update leaves the accounts; an
    account created in an empty database is its only one and carries the viewing key its seed
    derives at its index; an imported viewing key has no derivation index. *)
Class WalletDbLaws : Prop := {
  tip_keeps : ∀ d t, keeps_accounts d (update_chain_tip d t);
  create_makes : ∀ d s b d',
    get_account_ids d = Some [] → create_account d s b = Some d' →
    ∃ id acc, get_account_ids d' = Some [id] ∧ get_account d' id = Some (Some acc) ∧
      ∀ i, ac_index acc = Some i → seed_ufvk_encoded (kc_network cfg) s i = ac_ufvk acc;
  import_makes : ∀ d k b d',
    get_account_ids d = Some [] → import_account_ufvk d k b = Some d' →
    ∃ id acc, get_account_ids d' = Some [id] ∧ get_account d' id = Some (Some acc) ∧
      ac_index acc = None;
}.

Definition derives (s : seed) (i : Z) (u : string) : Prop :=
  seed_ufvk_encoded (kc_network cfg) s i = Some u.
Definition pins (fs : Files) (u : string) : Prop :=
  ∃ st, read_keys fs = Some st ∧ ws_pinned_ufvk st = Some u.

(** The seed belongs to the account. *)
Definition consistent (s : seed) (c : Custody) : Prop :=
  ∀ id i, c_account_id c = Some id → c_account_index c = Some i →
    ∃ u, account_ufvk_encoded (c_db c) id = Some u ∧ derives s i u.

Definition bound (c : Custody) : Prop :=
  (∀ id, c_account_id c = Some id →
     ∃ u, account_ufvk_encoded (c_db c) id = Some u ∧ pins (c_files c) u) ∧
  (∀ s, c_seed c = Some s → consistent s c) ∧
  (c_account_id c = None → c_pending_bootstrap c ≠ None → get_account_ids (c_db c) = Some []).

Lemma keeps_ufvk d d' id : keeps_accounts d d' → account_ufvk_encoded d' id = account_ufvk_encoded d id.
Proof. intros [_ E]. unfold account_ufvk_encoded. by rewrite E. Qed.

Lemma verify_or_pin_pins fs st u upto r fs' :
  codec_laws → read_keys fs = Some st →
  verify_or_pin_account to_toml from_toml (kc_name cfg) fs (kc_keys_path cfg) (ws_pinned_ufvk st) u upto
    = (Ok r, fs') → pins fs' u.
Proof.
  intros Hlaw Hr. unfold verify_or_pin_account. destruct (ws_pinned_ufvk st) as [p|] eqn:Ep.
  { case_bool_decide; intros [= <- <-]. exists st. by subst. }
  destruct (pin_ufvk _ _ _ _ _ _) as [[|] fs1] eqn:E; intros [= <- <-].
  unfold store_read in Hr. cbn in Hr.
  destruct (fs !! kc_keys_path cfg) as [text|] eqn:Et; [|done]. simpl in Hr.
  destruct (from_toml text) as [e|] eqn:Ee; [|done]. simpl in Hr.
  destruct (pin_ufvk_done fs (kc_keys_path cfg) e u upto fs1 Hlaw) as [[Hok ->]|Hr1];
    [by rewrite Et|done| |].
  - unfold store_of in Hr.
    destruct (match se_network e with None => _ | Some _ => _ end); simplify_eq/=.
  - destruct (fs1 !! kc_keys_path cfg) as [text'|] eqn:Et'; [|done]. simpl in Hr1.
    unfold pins, store_read. cbn. rewrite Et'. simpl. rewrite Hr1. simpl.
    unfold store_of in *. simpl.
    destruct (match se_network e with None => _ | Some _ => _ end); simplify_eq/=. eauto.
Qed.

(** The verdict of an adoption. *)
Lemma adopt_bound `{!WalletDbLaws} upto tip d c id acc :
  codec_laws →
  get_account_ids d = Some [id] → get_account d id = Some (Some acc) →
  (∀ s i, c_seed c = Some s → ac_index acc = Some i →
     seed_ufvk_encoded (kc_network cfg) s i = ac_ufvk acc) →
  c_account_id c = None →
  bound (adopt_account to_toml from_toml env nu5_activation cfg upto tip d c).
Proof.
  intros Hlaw Hids Hacc Hseed Hnone. unfold adopt_account, try_select_account.
  rewrite Hids. simpl. rewrite Hacc. simpl.
  assert (account_ufvk_encoded d id = ac_ufvk acc) as Eu
    by (unfold account_ufvk_encoded; by rewrite Hacc).
  rewrite Eu. destruct (ac_ufvk acc) as [u|] eqn:Eacc.
  2: { simpl. unfold bound, consistent. simpl. rewrite Hnone. naive_solver. }
  destruct (store_read _ _ _ _ _) as [st|] eqn:Est.
  2: { simpl. unfold bound, consistent. simpl. rewrite Hnone. naive_solver. }
  destruct (verify_or_pin_account _ _ _ _ _ _ _ _) as [[r|e] fs] eqn:Ev; simpl.
  2: { unfold bound, consistent. simpl. rewrite Hnone. naive_solver. }
  pose proof (verify_or_pin_pins _ _ _ _ _ _ Hlaw Est Ev) as Hpin.
  assert (account_ufvk_encoded (update_chain_tip d tip) id = Some u) as Eu'
    by (by rewrite (keeps_ufvk _ _ _ (tip_keeps d tip)), Eu).
  split_and!; simpl.
  - intros ? [= <-]. eauto.
  - intros s Hs id' i [= <-] Hi. exists u. split; [done|]. unfold derives. by rewrite (Hseed s i).
  - done.
Qed.

Lemma bootstrap_bound `{!WalletDbLaws} reply upto c :
  codec_laws → bound c → bound (bootstrap reply upto c).
Proof.
  intros Hlaw Hb. destruct (bootstrap_cases reply upto c)
    as [->|[[Ha ->]|[->|(height & key & tip & b & d & Hp & Hn & Hk & ->)]]].
  - done.
  - destruct Hb as (H1 & H2 & H3). split_and!; simpl; try done.
  - done.
  - destruct Hb as (_ & _ & H3). specialize (H3 Hn ltac:(congruence)). destruct key as [|k].
    + destruct Hk as (s & Hs & Hc).
      destruct (create_makes _ _ _ _ H3 Hc) as (id & acc & Hi & Hg & Hd).
      eapply adopt_bound; try done. intros s' i Hs'. simplify_eq. apply Hd.
    + destruct (import_makes _ _ _ _ H3 Hk) as (id & acc & Hi & Hg & Hd).
      eapply adopt_bound; try done. congruence.
Qed.

Lemma unlock_consistent se ke p c s :
  unlock_check se ke p c = Ok s → consistent s c.
Proof.
  unfold unlock_seed. destruct (negb _); [done|]. intros Hk.
  apply bind_Ok_inv in Hk as (st & _ & Hk). apply bind_Ok_inv in Hk as (ct & _ & Hk).
  apply bind_Ok_inv in Hk as (s' & _ & Hk). intros id i Hid Hi. rewrite Hid, Hi in Hk.
  apply bind_Ok_inv in Hk as (u & Hu & Hk). apply ok_or_Ok in Hu.
  apply bind_Ok_inv in Hk as (u' & Hu' & Hk). apply ok_or_Ok in Hu'.
  case_bool_decide; simplify_eq. eauto.
Qed.

Lemma set_consistent_bound s c : consistent s c → bound c → bound (seed_set s c).
Proof. intros Hs (H1 & H2 & H3). split_and!; simpl; try done. by intros ? [= <-]. Qed.

Lemma drop_seed_bound c c' :
  c_account_id c' = c_account_id c → c_account_index c' = c_account_index c →
  c_pending_bootstrap c' = c_pending_bootstrap c → c_db c' = c_db c → c_files c' = c_files c →
  (c_seed c' = c_seed c ∨ c_seed c' = None) → bound c → bound c'.
Proof.
  intros E1 E2 E3 E4 E5 Es (H1 & H2 & H3). unfold bound, consistent.
  rewrite E1, E2, E3, E4, E5. split_and!; [done| |done].
  intros s Hs. apply H2. destruct Es; congruence.
Qed.

Definition not_set (a : KeyAtom) : Prop := match a with ASet _ => False | _ => True end.

(** What every reachable machine keeps. *)
Definition bound_machine (m : Machine) : Prop :=
  bound (m_c m) ∧ Forall not_set (tail (m_todo m)) ∧
  (∀ s rest, m_todo m = ASet s :: rest → consistent s (m_c m)).

Lemma atom_bound `{!WalletDbLaws} a c :
  codec_laws → bound c → (∀ s, a = ASet s → consistent s c) →
  (match a with ASync _ _ d => keeps_accounts (c_db c) d | _ => True end) →
  bound (apply_atom a c).
Proof.
  intros Hlaw Hb Hs Hk. destruct a as [s|now timeout|now| | |reply upto|reply upto|client tip d|at_];
    simpl; try done.
  - apply set_consistent_bound; [by apply Hs|done].
  - unfold relock_if_expired. destruct (c_unlock_until c) as [t|]; [|done].
    destruct (t <=? now); [|done]. by apply (drop_seed_bound c); simpl; auto.
  - apply (drop_seed_bound c); simpl; auto.
  - unfold handle_lock. destruct (c_encrypted c); [|done]. by apply (drop_seed_bound c); simpl; auto.
  - by apply bootstrap_bound.
  - case_match; [by apply bootstrap_bound|done].
  - destruct Hb as (H1 & H2 & H3). unfold bound, consistent. simpl.
    setoid_rewrite (keeps_ufvk _ _ _ Hk). split_and!; [done|exact H2|].
    destruct Hk as [-> _]. done.
Qed.

Lemma mstep_bound `{!WalletDbLaws} m m' :
  codec_laws → mstep m m' → bound_machine m → bound_machine m'.
Proof.
  intros Hlaw Hstep (Hb & Ht & Hs). unfold bound_machine.
  assert (∀ l, Forall sync_work l → Forall not_set l) as Hwork.
  { intros l Hl. eapply Forall_impl; [exact Hl|]. by intros []. }
  destruct Hstep as [m se ke p timeout now now' reply upto s E0 Hu|m c' E0 Hl|m now E0
    |m a E0 Hw|m gate catch_up at_ E0 Hw|m a rest E0 Hv|m]; simpl.
  - split_and!; [done|by repeat constructor|]. intros s' rest [= <- _].
    by eapply unlock_consistent.
  - split_and!; [done|by constructor|done].
  - split_and!; [done|by constructor|done].
  - split_and!; [done|by constructor|]. by intros s rest [= -> _].
  - split_and!; [done| |done]. apply Forall_app. split; [by apply Hwork|by repeat constructor].
  - rewrite E0 in Ht, Hs. simpl in Ht. split_and!.
    + apply atom_bound; try done. intros s ->. by eapply Hs.
    + by destruct Ht.
    + intros s rest' ->. by inversion Ht.
  - split_and!; [|done|].
    + unfold handle_lock. destruct (c_encrypted _); [|done].
      by apply (drop_seed_bound (m_c m)); simpl; auto.
    + intros s rest E. specialize (Hs s rest E). unfold handle_lock. by destruct (c_encrypted _).
Qed.

Lemma start_bound d fs upto c fs' :
  codec_laws →
  start_custody to_toml from_toml env nu5_activation cfg d fs upto = (Ok c, fs') → bound c.
Proof.
  intros Hlaw. unfold start_custody.
  destruct (store_read _ _ _ fs _) as [st|] eqn:Est; [|done]. simpl.
  destruct (start_account cfg st d) as [[[[id index] wo] pending]|e] eqn:Ea; [|done]. simpl.
  assert (id = None → pending ≠ None → get_account_ids d = Some []) as Hempty.
  { intros -> Hp. unfold start_account, try_select_account in Ea.
    destruct (get_account_ids d) as [[|i ids]|] eqn:Ei; [done| |done]. simpl in Ea.
    destruct (get_account d i) as [[acc|]|]; simplify_eq/=. }
  destruct id as [id|]; simpl.
  2: { destruct (start_seed cfg st wo None index) as [s|e] eqn:Es; [|done].
       simpl. intros [= <- _]. unfold bound, consistent. simpl. naive_solver. }
  destruct (account_ufvk_encoded d id) as [u|] eqn:Eu; [|done]. simpl.
  destruct (start_seed cfg st wo (Some u) index) as [s|e] eqn:Es; [|done]. simpl.
  destruct (verify_or_pin_account _ _ _ _ _ _ _ _) as [[r|e] fs1] eqn:Ev; [|done].
  intros [= <- _]. pose proof (verify_or_pin_pins _ _ _ _ _ _ Hlaw Est Ev) as Hpin.
  split_and!; simpl; [naive_solver| |done].
  intros s' Hs' id' i Hid Hi. simpl in Hs', Hid, Hi. simplify_eq. exists u. split; [done|]. revert Es. unfold start_seed, derives.
  destruct (_ || _); [done|]. destruct (kc_identity cfg) as [meta|]; [|done].
  destruct (negb _); [done|]. destruct (decrypt_seed_with_identity st meta) as [[s0|]|]; try done.
  intros Hd. apply bind_Ok_inv in Hd as (u' & Hu' & Hd). apply ok_or_Ok in Hu'.
  case_bool_decide; simplify_eq. done.
Qed.

(** The wallet serves the account its keys file names and its seed controls. Whatever
    commands, catch-up work, rebuilds and locks run, in any interleaving, from a start that
    succeeded: the account served has the viewing key pinned in keys.toml, and a seed in memory
    derives that same key at the account's index; a database, a keys file or a seed of another
    wallet is refused before it is served or held. *)
Theorem account_stays_bound `{!WalletDbLaws} d fs upto c0 fs0 m :
  codec_laws →
  start_custody to_toml from_toml env nu5_activation cfg d fs upto = (Ok c0, fs0) →
  reachable c0 m →
  ∀ id, c_account_id (m_c m) = Some id →
    ∃ u, account_ufvk_encoded (c_db (m_c m)) id = Some u ∧ pins (c_files (m_c m)) u ∧
      ∀ s i, c_seed (m_c m) = Some s → c_account_index (m_c m) = Some i → derives s i u.
Proof.
  intros Hlaw Hst Hr. pose proof (start_bound _ _ _ _ _ Hlaw Hst) as Hb.
  assert (bound_machine m) as ((H1 & H2 & _) & _ & _).
  { unfold reachable in Hr. remember {| m_c := c0; m_todo := []; m_log := [] |} as m0 eqn:E0.
    assert (bound_machine m0) as Hm by (rewrite E0; split_and!; [done|by constructor|done]).
    clear E0 Hst Hb. induction Hr as [|m0 m1 m2 Hs _ IH]; [done|]. apply IH. by eapply mstep_bound. }
  intros id Hid. destruct (H1 id Hid) as (u & Hu & Hp). exists u. split_and!; [done|done|].
  intros s i Hs Hi. destruct (H2 s Hs id i Hid Hi) as (u' & Hu' & Hd). by simplify_eq.
Qed.
End machine.

(** ** A concrete wallet *)

(** A database that is the list of its accounts, and derivations that are readable texts. *)
Definition demo_ufvk (s i : Z) : string := "uview" +:+ dec s +:+ "/" +:+ dec i.
#[local] Instance demo_db : WalletDb := {|
  db := list Account; account_uuid := nat; seed := Z; usk := Z * Z; ufvk := string;
  birthday_t := (); tree_state := ();
  get_account_ids d := Some (seq 0 (length d));
  get_account d id := Some (d !! id);
  create_account d s _ := Some (d ++ [{| ac_ufvk := Some (demo_ufvk s 0); ac_index := Some 0;
                                         ac_view_only := false |}]);
  import_account_ufvk d k _ := Some (d ++ [{| ac_ufvk := Some k; ac_index := None;
                                              ac_view_only := true |}]);
  update_chain_tip d _ := d;
  ufvk_decode _ s := Some s;
  ufvk_encode _ k := k;
  usk_from_seed _ s i := Ok (s, i);
  usk_ufvk k := demo_ufvk k.1 k.2;
  from_treestate _ _ := Some ();
  decrypt_passphrase _ p := if bool_decide (p = "correct horse") then Some 7 else None;
  decrypt_identity _ := Some 7;
|}.

Definition demo_encoding (pin : option string) : StoreEncoding :=
  {| se_mnemonic := Some "age"; se_network := Some "test"; se_birthday := Some 100;
     se_encryption := Some ENC_PASSPHRASE; se_ufvk := pin |}.
Definition demo_pinned : StoreEncoding := demo_encoding (Some (demo_ufvk 7 0)).
(** A codec of the two files of the example. *)
Definition demo_to_toml (e : StoreEncoding) : option string :=
  if bool_decide (e = demo_encoding None) then Some "unpinned"
  else if bool_decide (e = demo_pinned) then Some "pinned" else None.
Definition demo_from_toml (t : string) : option StoreEncoding :=
  if bool_decide (t = "unpinned") then Some (demo_encoding None)
  else if bool_decide (t = "pinned") then Some demo_pinned else None.

Lemma demo_codec : codec_laws demo_to_toml demo_from_toml.
Proof.
  intros e t. unfold demo_to_toml. repeat case_bool_decide; subst; naive_solver.
Qed.

Definition demo_cfg : KeyConfig :=
  {| kc_name := "main"; kc_network := Test; kc_keys_path := "w/keys.toml"; kc_bootstrap := true;
     kc_auto_unlock := false; kc_identity := None |}.

Lemma demo_laws : WalletDbLaws demo_cfg.
Proof.
  split.
  - done.
  - intros d s b d' Hd [= <-]. destruct d; [|done]. simpl.
    exists 0%nat, {| ac_ufvk := Some (demo_ufvk s 0); ac_index := Some 0; ac_view_only := false |}.
    split_and!; [done|done|]. by intros i [= <-].
  - intros d k b d' Hd [= <-]. destruct d; [|done]. simpl.
    by exists 0%nat, {| ac_ufvk := Some k; ac_index := None; ac_view_only := true |}.
Qed.

Definition demo_account : Account :=
  {| ac_ufvk := Some (demo_ufvk 7 0); ac_index := Some 0; ac_view_only := false |}.
Definition demo_files (text : string) : Files := {[ "w/keys.toml" := text ]}.
(** The state the actor starts with: its first start pins the account's key. *)
Definition demo_start : Custody :=
  {| c_encrypted := true; c_watch_only := false; c_is_shard := false; c_account_id := Some 0%nat;
     c_account_index := Some 0; c_pending_bootstrap := None; c_seed := None;
     c_unlock_until := None; c_client := false; c_tip_height := None;
     c_db := [demo_account]; c_files := demo_files "pinned" |}.
Abbreviation demo_reachable :=
  (reachable demo_to_toml demo_from_toml (λ _, None) (λ _, 0) demo_cfg demo_start).

Lemma demo_starts :
  start_custody demo_to_toml demo_from_toml (λ _, None) (λ _, 0) demo_cfg [demo_account]
    (demo_files "unpinned") AtEnd = (Ok demo_start, demo_files "pinned").
Proof. vm_compute. reflexivity. Qed.

Definition demo_sync : KeyAtom := ASync true (Some 500) [demo_account].
Definition no_reply (h : Z) : TreeReply := TreeFailed.

(** Unlocked for sixty seconds at 1000, then a spend whose gate reads the clock at 1030 and
    which derives its key, after its catch-up, at [at_]. *)
Definition demo_machine (at_ : Z) : Machine :=
  {| m_c := {| c_encrypted := true; c_watch_only := false; c_is_shard := false;
               c_account_id := Some 0%nat; c_account_index := Some 0;
               c_pending_bootstrap := None; c_seed := Some 7; c_unlock_until := Some 1060;
               c_client := true; c_tip_height := Some 500; c_db := [demo_account];
               c_files := demo_files "pinned" |};
     m_todo := [ADerive at_];
     m_log := [demo_sync; ARelock 1030; AUnlockBootstrap no_reply AtEnd; ARelock 1000;
               ADeadline 1000 60; ASet 7] |}.

Lemma demo_run at_ : demo_reachable (demo_machine at_).
Proof.
  unfold reachable. eapply rtc_l.
  { eapply (s_unlock _ _ _ _ _ _ "" "" "correct horse" 60 1000 1000 no_reply AtEnd 7);
      [reflexivity|vm_compute; reflexivity]. }
  do 4 (eapply rtc_l; [eapply s_atom; [reflexivity|exact I]|]).
  eapply rtc_l; [apply (s_spend _ _ _ _ _ _ 1030 [demo_sync] at_);
                 [reflexivity|by apply Forall_cons]|].
  eapply rtc_l; [eapply s_atom; [reflexivity|exact I]|].
  eapply rtc_l; [eapply s_atom; [reflexivity|done]|].
  apply rtc_refl.
Qed.

Lemma spend_needs_live_unlock_witness :
  ∃ s post index deadline g,
    last_grant (m_log (demo_machine 1040)) = Some (s, post) ∧ deadline_of post = Some deadline ∧
    ARelock g ∈ post ∧ (∀ g', ARelock g' ∈ post → g' < deadline) ∧
    c_account_index (m_c (demo_machine 1040)) = Some index ∧
    usk_from_seed (kc_network demo_cfg) s index = Ok (7, 0).
Proof.
  exact (proj2 (spend_needs_live_unlock _ _ _ _ _ _ _ _ _ _ (demo_machine 1040) demo_starts
                  eq_refl (demo_run 1040)) 1040 (7, 0) eq_refl eq_refl).
Defined.

(** The gate reads the clock before the catch-up, and nothing reads it after: a spend whose
    catch-up outlasts the deadline still gets its key. Here at 1090, with a deadline of 1060. *)
Lemma spend_past_deadline :
  demo_reachable (demo_machine 1090) ∧
  c_unlock_until (m_c (demo_machine 1090)) = Some 1060 ∧
  m_todo (demo_machine 1090) = [ADerive 1090] ∧
  spending_key (kc_network demo_cfg) (m_c (demo_machine 1090)) = Ok (7, 0).
Proof. split_and!; [apply demo_run|reflexivity..]. Qed.

Lemma keys_file_survives_witness :
  ∃ e', demo_files "pinned" !! "w/keys.toml" ≫= demo_from_toml = Some e' ∧
    se_mnemonic e' = Some "age" ∧ se_ufvk e' = Some (demo_ufvk 7 0).
Proof.
  assert (pin_ufvk demo_to_toml demo_from_toml (demo_files "unpinned") "w/keys.toml" (demo_ufvk 7 0) AtEnd
          = (true, demo_files "pinned")) as E by (vm_compute; reflexivity).
  destruct (keys_file_survives demo_to_toml demo_from_toml (demo_files "unpinned") "w/keys.toml"
              (demo_encoding None) (demo_ufvk 7 0) "age" 100 Test AtEnd true
              (demo_files "pinned") demo_codec eq_refl eq_refl E)
    as [(e' & H1 & H2 & _ & _ & _ & _ & H3) _].
  exists e'. split; [exact H1|]. split; [exact H2|]. exact (H3 eq_refl).
Defined.

Lemma account_stays_bound_witness :
  ∃ u, account_ufvk_encoded (c_db (m_c (demo_machine 1040))) 0%nat = Some u ∧
    ∀ s i, c_seed (m_c (demo_machine 1040)) = Some s →
      c_account_index (m_c (demo_machine 1040)) = Some i → derives demo_cfg s i u.
Proof.
  pose proof demo_laws as Hl.
  destruct (account_stays_bound _ _ _ _ _ _ _ _ _ _ (demo_machine 1040) demo_codec demo_starts
              (demo_run 1040) 0%nat eq_refl) as (u & H1 & _ & H2).
  exists u. split; [exact H1|exact H2].
Defined.
