(* ===== verification/Sends.v ===== *)
(** * Sends: running a send ([src/src/wallet/actor.rs])

    One send from its gates to its broadcast, the pipeline that proves sends off the actor, its
    queue, and the drain at shutdown. The steps a send is made of - the catch-up, the key, the
    build, the proof, the store, the broadcast - are the interface [SendOps]; [Keys] and
    [Spend] hold the code's side of them, the wallet library the rest. *)

From S2P Require Export Spend.

(** ** Steps that may fail or panic *)

(** A step of the actor on its state [S]: [None] is a panic. *)
Definition step (S A : Type) : Type := S → option (rpc A) * S.
Definition step_ret {S A} (a : A) : step S A := λ s, (Some (Ok a), s).
Definition step_bind {S A B} (m : step S A) (f : A → step S B) : step S B := λ s,
  match m s with
  | (Some (Ok a), s') => f a s'
  | (Some (Err e), s') => (Some (Err e), s')
  | (None, s') => (None, s')
  end.
Definition step_of {S A} (r : rpc A) : step S A := λ s, (Some r, s).
Notation "'let!' x ':=' m 'in' k" := (step_bind m (λ x, k))
  (at level 10, x pattern, m at level 100, k at level 200).

(** A [Send] command. *)
Record SendJob (taddr policy : Type) := {
  sj_payments : list (Payment taddr);
  sj_confirmations : option policy;
  sj_privacy : SendPrivacy;
  sj_source : SendSource taddr;
}.
Arguments sj_payments {taddr policy} _.
Arguments sj_confirmations {taddr policy} _.
Arguments sj_privacy {taddr policy} _.
Arguments sj_source {taddr policy} _.

(** The steps of a send, on the actor's state. *)
Class SendOps := {
  taddr : Type; confirmations : Type; state : Type; key : Type; pczt : Type; signed_tx : Type;
  txid_t : Type; raw_t : Type;
  (** [relock_if_expired], at the clock reading of the call *)
  so_relock : step state ();
  (** [sync_to_tip_for_send] *)
  so_sync : step state ();
  (** [require_account(None)], [account_index], [derive_usk] *)
  so_account : step state ();
  so_index : step state Z;
  so_derive : Z → step state key;
  (** [cached_pczt_path] and [\[spend\] pipeline_proving] *)
  so_cached : state → bool;
  so_pipeline_proving : state → bool;
  (** the wallet-wide confirmations policy *)
  so_policy : state → confirmations;
  (** [do_send_transparent] and [do_send_fused] *)
  so_transparent : list (taddr * Z) → option confirmations → key → option taddr →
                   step state txid_t;
  so_fused : key → list (Payment taddr) → confirmations → SendPrivacy → SpendPolicy taddr →
             step state txid_t;
  (** [build_proposal_and_pczt] *)
  so_build : list (Payment taddr) → confirmations → SendPrivacy → SpendPolicy taddr →
             step state pczt;
  (** the cached proving keys and the prover *)
  so_keys : step state ();
  so_prover : step state ();
  (** [prove_sign_pczt]: [None] is a panic *)
  so_prove : pczt → key → option (rpc signed_tx);
  (** [store_pczt] with [read_raw_tx], and [broadcast_committed] *)
  so_store : signed_tx → step state (txid_t * raw_t);
  so_broadcast : txid_t → raw_t → step state ();
}.

Section sends.
Context `{SO : SendOps}.
Abbreviation job := (SendJob taddr confirmations).

(** ** One send *)

(** [do_send]. *)
Definition do_send (j : job) : step state txid_t :=
  let! _ := so_relock in
  let! _ := step_of (send_gates (sj_privacy j) (sj_source j) (sj_payments j)) in
  let! _ := so_sync in
  let! _ := so_account in
  let! index := so_index in
  let! usk := so_derive index in
  λ s,
  (let! route := step_of (send_route (sj_privacy j) (sj_source j) (sj_payments j) (so_cached s)) in
   let policy := default (so_policy s) (sj_confirmations j) in
   match route with
   | FullyTransparent recipients from => so_transparent recipients (sj_confirmations j) usk from
   | Fused spend => so_fused usk (sj_payments j) policy (sj_privacy j) spend
   | CachedPczt spend =>
       let! p := so_build (sj_payments j) policy (sj_privacy j) spend in
       let! _ := so_keys in
       let! _ := so_prover in
       let! signed := (λ s, (so_prove p usk, s)) in
       let! (id, raw) := so_store signed in
       let! _ := so_broadcast id raw in
       step_ret id
   end) s.

(** Phase A of [start_pipelined_send]. *)
Definition phase_a (j : job) : step state (pczt * key) :=
  let! _ := so_relock in
  let! _ := so_sync in
  let! index := so_index in
  let! usk := so_derive index in
  λ s,
  (let policy := default (so_policy s) (sj_confirmations j) in
   let! p := so_build (sj_payments j) policy (sj_privacy j)
               (spend_policy_for_source (sj_source j)) in
   let! _ := so_prover in
   let! _ := so_keys in
   step_ret (p, usk)) s.

(** [store_and_broadcast], phase C. *)
Definition store_and_broadcast (signed : signed_tx) : step state txid_t :=
  let! _ := so_keys in
  let! (id, raw) := so_store signed in
  let! _ := so_broadcast id raw in
  step_ret id.

(** ** The pipeline *)

Definition MAX_QUEUED_SENDS : Z := 64.

(** A reply: [None] when the command's reply channel was dropped by a panic. *)
Definition reply_t : Type := option (rpc txid_t).

(** The actor, its queue of deferred sends, the proof running off it with its outcome, the
    replies sent so far, and whether its task is alive. Each command has an identity. *)
Record Pipeline := {
  pl_state : state;
  send_in_flight : bool;
  send_queue : list (nat * job);
  pl_running : option (nat * rpc signed_tx);
  pl_replies : list (nat * reply_t);
  pl_alive : bool;
}.

Definition with_state (s : state) (p : Pipeline) : Pipeline :=
  {| pl_state := s; send_in_flight := send_in_flight p; send_queue := send_queue p;
     pl_running := pl_running p; pl_replies := pl_replies p; pl_alive := pl_alive p |}.
Definition reply (id : nat) (r : reply_t) (p : Pipeline) : Pipeline :=
  {| pl_state := pl_state p; send_in_flight := send_in_flight p; send_queue := send_queue p;
     pl_running := pl_running p; pl_replies := pl_replies p ++ [(id, r)];
     pl_alive := pl_alive p |}.
Definition with_queue (q : list (nat * job)) (p : Pipeline) : Pipeline :=
  {| pl_state := pl_state p; send_in_flight := send_in_flight p; send_queue := q;
     pl_running := pl_running p; pl_replies := pl_replies p; pl_alive := pl_alive p |}.
Definition spawn_proof (id : nat) (r : rpc signed_tx) (p : Pipeline) : Pipeline :=
  {| pl_state := pl_state p; send_in_flight := true; send_queue := send_queue p;
     pl_running := Some (id, r); pl_replies := pl_replies p; pl_alive := pl_alive p |}.
Definition clear_flight (p : Pipeline) : Pipeline :=
  {| pl_state := pl_state p; send_in_flight := false; send_queue := send_queue p;
     pl_running := None; pl_replies := pl_replies p; pl_alive := pl_alive p |}.
(** The task ends: the replies it still holds are dropped with it. *)
Definition actor_dies (p : Pipeline) : Pipeline :=
  {| pl_state := pl_state p; send_in_flight := send_in_flight p; send_queue := [];
     pl_running := None;
     pl_replies := pl_replies p
                   ++ match pl_running p with Some (id, _) => [(id, None)] | None => [] end
                   ++ ((λ q, (q.1, None)) <$> send_queue p);
     pl_alive := false |}.

(** The proof job: a panic is caught and reported. *)
Definition proof_result (p : pczt) (usk : key) : rpc signed_tx :=
  match so_prove p usk with
  | Some r => r
  | None => Err (RpcError.wallet "proving panicked")
  end.

(** [start_pipelined_send]: [false] is a panic of phase A. *)
Definition start_pipelined_send (id : nat) (j : job) (p : Pipeline) : bool * Pipeline :=
  match phase_a j (pl_state p) with
  | (Some (Err e), s) => (true, reply id (Some (Err e)) (with_state s p))
  | (Some (Ok (b, usk)), s) => (true, spawn_proof id (proof_result b usk) (with_state s p))
  | (None, s) => (false, reply id None (with_state s p))
  end.

(** [pipeline_eligible] and the inline test of [begin_or_queue_send]. *)
Definition goes_inline (j : job) (s : state) : bool :=
  runs_inline (sj_privacy j) (sj_source j) (sj_payments j) (so_pipeline_proving s) (so_cached s).

Definition queue_full : RpcError :=
  RpcError.wallet ("too many sends queued behind an in-flight proof (" +:+ dec MAX_QUEUED_SENDS
                   +:+ "); retry shortly").

(** [begin_or_queue_send], under [handle_command_caught]: a panic drops the reply. *)
Definition begin_or_queue_send (id : nat) (j : job) (p : Pipeline) : Pipeline :=
  if goes_inline j (pl_state p) then
    let '(r, s) := do_send j (pl_state p) in reply id r (with_state s p)
  else if send_in_flight p then
    if MAX_QUEUED_SENDS <=? Z.of_nat (length (send_queue p))
    then reply id (Some (Err queue_full)) p
    else with_queue (send_queue p ++ [(id, j)]) p
  else (start_pipelined_send id j p).2.

(** [pump_send_queue], which runs outside the panic isolation. *)
Fixpoint pump_loop (q : list (nat * job)) (p : Pipeline) : Pipeline :=
  if send_in_flight p then with_queue q p
  else
    match q with
    | [] => with_queue [] p
    | (id, j) :: rest =>
        match start_pipelined_send id j p with
        | (true, p') => pump_loop rest p'
        | (false, p') => actor_dies (with_queue rest p')
        end
    end.
Definition pump_send_queue (p : Pipeline) : Pipeline := pump_loop (send_queue p) p.

(** [finish_send] under [finish_send_caught], then the pump. *)
Definition finish_send (id : nat) (result : rpc signed_tx) (p : Pipeline) : Pipeline :=
  let p := clear_flight p in
  match result with
  | Err e => reply id (Some (Err e)) p
  | Ok signed =>
      let '(r, s) := store_and_broadcast signed (pl_state p) in reply id r (with_state s p)
  end.
Definition finish_send_caught (p : Pipeline) : Pipeline :=
  match pl_running p with
  | None => p
  | Some (id, result) => pump_send_queue (finish_send id result p)
  end.

(** [finish_accepted_sends]: [completions] is how many proofs end before the deadline, and
    [buffered] the commands taken from the channel before it. *)
Fixpoint drain_proofs (completions : nat) (p : Pipeline) : Pipeline :=
  match completions with
  | O => p
  | S n => if send_in_flight p then drain_proofs n (finish_send_caught p) else p
  end.
Definition drain_commands (buffered : list (nat * job)) (p : Pipeline) : Pipeline :=
  foldl (λ p c, if pl_alive p then begin_or_queue_send c.1 c.2 p else p) p buffered.
Definition finish_accepted_sends (drain_is_zero : bool) (completions : nat)
    (buffered : list (nat * job)) (p : Pipeline) : Pipeline :=
  if drain_is_zero then p
  else
    let p := drain_proofs completions p in
    if pl_alive p then drain_commands buffered p else p.

(** ** The actor's sends, as events *)

(** A command arrives, the proof running ends and its completion is taken, or other work of the
    actor changes its state. *)
Inductive SendEvent :=
  | EvSend (id : nat) (j : job)
  | EvProofDone
  | EvOther (f : state → state).

Definition send_event (p : Pipeline) (e : SendEvent) : Pipeline :=
  if negb (pl_alive p) then
    match e with EvSend id _ => reply id None p | _ => p end
  else
    match e with
    | EvSend id j => begin_or_queue_send id j p
    | EvProofDone => finish_send_caught p
    | EvOther f => with_state (f (pl_state p)) p
    end.

Definition initial (s : state) : Pipeline :=
  {| pl_state := s; send_in_flight := false; send_queue := []; pl_running := None;
     pl_replies := []; pl_alive := true |}.
Definition run_sends (s : state) (events : list SendEvent) : Pipeline :=
  foldl send_event (initial s) events.
End sends.
