(* ===== verification/SendsSpec.v ===== *)
(** * SendsSpec: what the send pipeline guarantees

    Every send is answered exactly once, in order, from a bounded queue that always drains; and
    what the wallet commits never spends a note twice while inline sends keep clear of a proof
    in flight. *)

From S2P Require Export Sends.

Section pipeline.
Context `{SO : SendOps}.
Abbreviation job := (SendJob taddr confirmations).

(** ** Vocabulary *)

Definition running_ids (p : Pipeline) : list nat :=
  match pl_running p with Some (id, _) => [id] | None => [] end.
(** The sends accepted for the pipeline and not answered yet, in order. *)
Definition outstanding (p : Pipeline) : list nat := running_ids p ++ (send_queue p).*1.
Definition answered (p : Pipeline) : list nat := (pl_replies p).*1.

(** Whether the pipeline takes a send: it does not run inline and is not shed. *)
Definition taken (p : Pipeline) (j : job) : bool :=
  pl_alive p && negb (goes_inline j (pl_state p))
  && negb (send_in_flight p && (MAX_QUEUED_SENDS <=? Z.of_nat (length (send_queue p)))).
Definition accepts (p : Pipeline) (e : SendEvent) : list nat :=
  match e with EvSend id j => if taken p j then [id] else [] | _ => [] end.
Definition refuses (p : Pipeline) (e : SendEvent) : list nat :=
  match e with EvSend id j => if taken p j then [] else [id] | _ => [] end.
Fixpoint accepted (p : Pipeline) (events : list SendEvent) : list nat :=
  match events with
  | [] => []
  | e :: rest => accepts p e ++ accepted (send_event p e) rest
  end.
Definition submitted (events : list SendEvent) : list nat :=
  omap (λ e, match e with EvSend id _ => Some id | _ => None end) events.

(** The flag says whether a proof runs; a queue exists only behind one; a task that ended holds
    nothing. *)
Definition flags_ok (p : Pipeline) : Prop :=
  if pl_alive p
  then send_in_flight p = is_some (pl_running p) ∧
       (send_in_flight p = false → send_queue p = []) ∧
       Z.of_nat (length (send_queue p)) ≤ MAX_QUEUED_SENDS
  else send_queue p = [] ∧ pl_running p = None.

(** ** One event *)

(** Starting a send answers it or makes it the running one. *)
Lemma start_spec id j p ok p' :
  start_pipelined_send id j p = (ok, p') →
  send_queue p' = send_queue p ∧ pl_alive p' = pl_alive p ∧
  (answered p' = answered p ++ [id] ∧ pl_running p' = pl_running p ∧
     send_in_flight p' = send_in_flight p ∨
   ok = true ∧ answered p' = answered p ∧ running_ids p' = [id] ∧
     is_some (pl_running p') = true ∧ send_in_flight p' = true).
Proof.
  unfold start_pipelined_send, answered, running_ids.
  destruct (phase_a j (pl_state p)) as [[[[b usk]|e]|] s]; intros [= <- <-]; simpl;
    rewrite ?fmap_app; auto 10.
Qed.

(** The pump answers a prefix of the queue, in order, and leaves the rest behind a proof, or
    answers all of it. *)
Lemma pump_spec q p :
  pl_alive p = true → send_in_flight p = false → pl_running p = None →
  let p' := pump_loop q p in
  (∃ done, q.*1 = done ++ outstanding p' ∧ answered p' = answered p ++ done) ∧
  (Z.of_nat (length q) ≤ MAX_QUEUED_SENDS → flags_ok p') ∧
  (pl_alive p' = true → (length (outstanding p') ≤ length q)%nat).
Proof.
  cbv zeta. revert p. induction q as [|[id j] q IH]; intros p Ha Hf Hr; cbn [pump_loop]; rewrite Hf.
  { unfold flags_ok, outstanding, answered, running_ids. simpl. rewrite Ha, Hf, Hr. simpl.
    split; [exists []; by rewrite !app_nil_r|]. split; [by intros|lia]. }
  destruct (start_pipelined_send id j p) as [ok p1] eqn:E.
  destruct (start_spec _ _ _ _ _ E) as (Eq & Ea & [(En & Er & Ef)|(-> & En & Er & Es & Ef)]).
  - destruct ok.
    + destruct (IH p1) as ((done & Hq & Hn) & Hfl & Hlen); [congruence..|].
      split; [|split; [intros H; apply Hfl; simpl in H; lia|intros H; specialize (Hlen H); simpl; lia]].
      exists (id :: done). rewrite fmap_cons, Hq, Hn, En, <- app_assoc. done.
    + unfold flags_ok, outstanding, answered, running_ids. simpl. rewrite Er, Hr.
      split; [|done]. exists (id :: q.*1). rewrite app_nil_r. split; [done|].
      rewrite !fmap_app. unfold answered in En. rewrite En, <- app_assoc. simpl.
      by rewrite <- list_fmap_compose.
  - assert (pump_loop q p1 = with_queue q p1) as -> by (destruct q as [|[] q]; simpl; by rewrite Ef).
    unfold flags_ok, outstanding, answered, running_ids in *. simpl. rewrite Ea, Ha, Ef, Es, Er.
    split; [exists []; by rewrite En, app_nil_r|]. split; [intros H; split_and!; try done; simpl in H; lia|].
    rewrite length_app, length_fmap. simpl. lia.
Qed.

(** What one event does to the sends: some of the outstanding ones are answered in order, and
    a send the pipeline does not take is answered at once. *)
Lemma event_spec p e :
  flags_ok p →
  flags_ok (send_event p e) ∧
  ∃ done, answered (send_event p e) = answered p ++ done ++ refuses p e ∧
          outstanding p ++ accepts p e = done ++ outstanding (send_event p e) ∧
          (e = EvProofDone → outstanding p ≠ [] → done ≠ []).
Proof.
  intros Hfl. unfold send_event. unfold flags_ok in Hfl. destruct (pl_alive p) eqn:Ea; simpl.
  2: { destruct Hfl as [Hq Hr]. destruct e as [id j| |f]; simpl; unfold taken; rewrite ?Ea; simpl;
         (split; [unfold flags_ok; simpl; by rewrite Ea|]); exists [];
         unfold answered, outstanding, running_ids; simpl; rewrite Hq, Hr, ?fmap_app, ?app_nil_r; auto. }
  destruct Hfl as (Hfl & Hq & Hlen). destruct e as [id j| |f]; simpl.
  - unfold begin_or_queue_send, taken. rewrite Ea. destruct (goes_inline j (pl_state p)); simpl.
    { destruct (do_send j (pl_state p)) as [r s]. split; [unfold flags_ok; simpl; by rewrite Ea|].
      exists []. unfold answered. simpl. by rewrite fmap_app, app_nil_r. }
    destruct (send_in_flight p) eqn:Ef; simpl.
    { destruct (Z.leb_spec MAX_QUEUED_SENDS (Z.of_nat (length (send_queue p)))); simpl.
      - split; [unfold flags_ok; simpl; by rewrite Ea, Ef|].
        exists []. unfold answered. simpl. by rewrite fmap_app, app_nil_r.
      - split.
        + unfold flags_ok. simpl. rewrite Ea, Ef, length_app. simpl. split_and!; [done|done|lia].
        + exists []. unfold answered, outstanding, running_ids. simpl.
          by rewrite app_nil_r, fmap_app, <- app_assoc. }
    specialize (Hq eq_refl). destruct (start_pipelined_send id j p) as [ok p'] eqn:E. simpl.
    assert (running_ids p = []) as Er0.
    { unfold running_ids. by destruct (pl_running p). }
    destruct (start_spec _ _ _ _ _ E) as (Eq & Ea' & [(En & Er & Ef')|(-> & En & Er & Es & Ef')]).
    + split; [unfold flags_ok; rewrite Ea', Ea, Ef', Ef, Er, Eq; done|].
      exists [id]. rewrite En, app_nil_r. split; [done|].
      split; [|done]. unfold outstanding, running_ids in *. by rewrite Er, Er0, Eq, Hq.
    + split; [unfold flags_ok; rewrite Ea', Ea, Ef', Es, Eq, Hq; done|].
      exists []. rewrite En, !app_nil_r. split; [done|].
      split; [|done]. unfold outstanding. by rewrite Er, Er0, Eq, Hq.
  - unfold finish_send_caught. destruct (pl_running p) as [[id result]|] eqn:Er.
    2: { split; [unfold flags_ok; by rewrite Ea, Er|]. exists []. rewrite !app_nil_r.
         unfold outstanding, running_ids. rewrite Er, Hq by (by rewrite Hfl). done. }
    set (p1 := finish_send id result p).
    assert (pl_alive p1 = true ∧ send_in_flight p1 = false ∧ pl_running p1 = None ∧
            send_queue p1 = send_queue p ∧ answered p1 = answered p ++ [id])
      as (Ha1 & Hf1 & Hr1 & Hq1 & Hn1).
    { unfold p1, finish_send, answered. destruct result as [signed|e]; simpl.
      - destruct (store_and_broadcast signed (pl_state p)) as [r s]. simpl. by rewrite fmap_app.
      - by rewrite fmap_app. }
    unfold pump_send_queue. rewrite Hq1.
    destruct (pump_spec (send_queue p) p1 Ha1 Hf1 Hr1) as ((done & Hd & Hn) & Hfl' & _).
    split; [by apply Hfl'|]. exists (id :: done). rewrite Hn, Hn1, !app_nil_r, <- app_assoc.
    split; [done|]. split; [|done]. unfold outstanding at 1, running_ids. rewrite Er. simpl.
    by rewrite Hd.
  - split; [unfold flags_ok; simpl; by rewrite Ea|]. exists []. by rewrite !app_nil_r.
Qed.

(** ** Every send is answered once *)

Lemma submitted_app l k : submitted (l ++ k) = submitted l ++ submitted k.
Proof. apply omap_app. Qed.
Lemma event_submitted p e : submitted [e] ≡ₚ accepts p e ++ refuses p e.
Proof. unfold submitted. destruct e; simpl; try done. by destruct (taken p j). Qed.

Lemma run_spec events p :
  flags_ok p →
  let p' := foldl send_event p events in
  flags_ok p' ∧
  answered p' ++ outstanding p' ≡ₚ answered p ++ outstanding p ++ submitted events ∧
  ∃ new done, answered p' = answered p ++ new ∧ done `sublist_of` new ∧
    outstanding p ++ accepted p events = done ++ outstanding p'.
Proof.
  cbv zeta. revert p. induction events as [|e events IH]; intros p Hfl; cbn [foldl accepted].
  { split; [done|]. split; [by rewrite app_nil_r|]. exists [], [].
    by rewrite !app_nil_r. }
  destruct (event_spec p e Hfl) as (Hfl' & d & Hn & Ho & _).
  destruct (IH _ Hfl') as (Hfl'' & Hperm & new & done & Hnew & Hsub & Hacc).
  split; [done|]. split.
  - rewrite Hperm, Hn. change (e :: events) with ([e] ++ events).
    rewrite submitted_app, (event_submitted p e), <- !app_assoc. apply Permutation_app_head.
    rewrite (app_assoc d), (app_assoc (outstanding p)).
    rewrite (Permutation_app_comm (d ++ refuses p e)). rewrite <- (app_assoc (outstanding p)).
    rewrite (app_assoc (outstanding p)), Ho.
    set (o := outstanding (send_event p e)). solve_Permutation.
  - exists (d ++ refuses p e ++ new), (d ++ done).
    rewrite Hnew, Hn, <- !app_assoc. split; [done|]. split.
    + apply sublist_app; [done|]. by apply sublist_inserts_l.
    + by rewrite app_assoc, Ho, <- app_assoc, Hacc.
Qed.
(** The number of proofs that end until nothing is outstanding: one each. *)
Lemma drains p :
  flags_ok p → ∀ n, (length (outstanding p) ≤ n)%nat →
  outstanding (foldl send_event p (replicate n EvProofDone)) = [].
Proof.
  intros Hfl n. revert p Hfl. induction n as [|n IH]; intros p Hfl Hlen; cbn [replicate foldl].
  { by destruct (outstanding p); [|simpl in Hlen; lia]. }
  destruct (event_spec p EvProofDone Hfl) as (Hfl' & d & _ & Ho & Hd). apply IH; [done|].
  simpl accepts in Ho. rewrite app_nil_r in Ho. specialize (Hd eq_refl).
  rewrite Ho, length_app in Hlen. destruct d as [|y d]; [|simpl in Hlen; lia].
  destruct (outstanding p) eqn:Eo; [|by destruct Hd]. simpl in Ho. rewrite <- Ho. simpl. lia.
Qed.

(** C38. Every send is answered exactly once, and in order. Whatever sends arrive and whenever
    their proofs end, fail or panic, and even if the actor's task dies: the replies and the
    sends still outstanding are together exactly the sends submitted, so none is answered twice
    or forgotten; the sends the pipeline took are answered in the order they came; the queue
    never exceeds its cap, exists only behind a proof in flight, and is emptied by as many
    proof completions as there are sends outstanding. *)
Theorem sends_answered_once (s : state) (events : list SendEvent) :
  let p := run_sends s events in
  answered p ++ outstanding p ≡ₚ submitted events ∧
  (∃ done, accepted (initial s) events = done ++ outstanding p ∧ done `sublist_of` answered p) ∧
  Z.of_nat (length (send_queue p)) ≤ MAX_QUEUED_SENDS ∧
  (send_in_flight p = false → outstanding p = []) ∧
  outstanding (foldl send_event p (replicate (length (outstanding p)) EvProofDone)) = [].
Proof.
  cbv zeta. unfold run_sends. set (p := foldl send_event (initial s) events).
  destruct (run_spec events (initial s)) as (Hfl & Hperm & new & fin & Hnew & Hsub & Hacc);
    [done|]. fold p in Hfl, Hperm, Hnew, Hacc.
  split_and!; [exact Hperm| | | |by apply drains].
  - exists fin. split; [exact Hacc|]. by rewrite Hnew.
  - unfold flags_ok in Hfl. destruct (pl_alive p); [by destruct Hfl as (_ & _ & ?)|].
    destruct Hfl as [-> _]. done.
  - intros Hf. unfold flags_ok in Hfl. unfold outstanding, running_ids.
    destruct (pl_alive p); [|by destruct Hfl as [-> ->]]. destruct Hfl as (E & Hq & _).
    rewrite Hq by done. rewrite Hf in E. by destruct (pl_running p).
Qed.
End pipeline.

(** ** No note is spent twice *)

Section double_spend.
Context `{SO : SendOps}.
Abbreviation job := (SendJob taddr confirmations).

(** The transactions of the wallet's that may still be mined or are, the oldest first, each as the
    notes it spends: one that expires leaves the list, and its notes can be spent again. The notes
    a build selected; and the notes a signed transaction spends. *)
Context (txs : state → list (gset nat)) (selected : pczt → gset nat)
        (spends : signed_tx → gset nat).

(** A step commits nothing; transactions may expire meanwhile. *)
Definition commits_nothing {A} (m : step state A) : Prop := ∀ s, txs (m s).2 `sublist_of` txs s.
(** What the wallet holds after at most one transaction was committed, of notes no transaction
    left spends. *)
Definition fresh_after (l l' : list (gset nat)) : Prop :=
  ∃ base, base `sublist_of` l ∧ (l' = base ∨ ∃ t, l' = base ++ [t] ∧ ∀ u, u ∈ base → t ## u).
Definition commits_fresh {A} (m : step state A) : Prop := ∀ s, fresh_after (txs s) (txs (m s).2).

(** What the steps promise: a build selects only notes no transaction spends, and
    commits nothing; a proof spends what was selected; a store commits what was proved; the
    fused and transparent sends select and commit in one step. *)
Class SendLaws : Prop := {
  sl_relock : commits_nothing so_relock;
  sl_sync : commits_nothing so_sync;
  sl_account : commits_nothing so_account;
  sl_index : commits_nothing so_index;
  sl_derive : ∀ i, commits_nothing (so_derive i);
  sl_keys : commits_nothing so_keys;
  sl_prover : commits_nothing so_prover;
  sl_broadcast : ∀ i r, commits_nothing (so_broadcast i r);
  sl_build : ∀ a b c d, commits_nothing (so_build a b c d);
  sl_build_fresh : ∀ a b c d s p s', so_build a b c d s = (Some (Ok p), s') →
    ∀ u, u ∈ txs s' → selected p ## u;
  sl_prove : ∀ p k x, so_prove p k = Some (Ok x) → spends x = selected p;
  sl_store : ∀ x s, ∃ base, base `sublist_of` txs s ∧
    (txs (so_store x s).2 = base ∨ txs (so_store x s).2 = base ++ [spends x]);
  sl_transparent : ∀ a b c d, commits_fresh (so_transparent a b c d);
  sl_fused : ∀ a b c d e, commits_fresh (so_fused a b c d e);
}.
Context {HL : SendLaws}.

Lemma elem_of_list_sublist {A} (l l' : list A) x : l' `sublist_of` l → x ∈ l' → x ∈ l.
Proof. intros Hs Hx. eapply elem_of_submseteq; [exact Hx|by apply sublist_submseteq]. Qed.
Lemma fresh_sublist l l' k : l' `sublist_of` l → fresh_after l' k → fresh_after l k.
Proof. intros Hs (base & Hb & Hk). exists base. split; [by trans l'|done]. Qed.
Lemma nothing_fresh {A} (m : step state A) : commits_nothing m → commits_fresh m.
Proof. intros H s. exists (txs (m s).2). split; [apply H|by left]. Qed.
Lemma nothing_of {A} (r : rpc A) : commits_nothing (step_of r).
Proof. by intros s. Qed.
Lemma nothing_bind {A B} (m : step state A) (f : A → step state B) :
  commits_nothing m → (∀ a, commits_nothing (f a)) → commits_nothing (step_bind m f).
Proof.
  intros Hm Hf s. unfold step_bind. specialize (Hm s).
  destruct (m s) as [[[a|e]|] s']; simpl in *; [trans (txs s'); [apply Hf|done]|done|done].
Qed.
Lemma fresh_bind {A B} (m : step state A) (f : A → step state B) :
  commits_nothing m → (∀ a, commits_fresh (f a)) → commits_fresh (step_bind m f).
Proof.
  intros Hm Hf s. apply (fresh_sublist _ (txs (m s).2)); [apply Hm|]. unfold step_bind.
  destruct (m s) as [[[a|e]|] s']; simpl; [apply Hf|exists (txs s'); by split; [|left]..].
Qed.
(** A transaction of notes nothing spends, committed in some step of a sequence. *)
Definition stores (x : gset nat) {A} (m : step state A) : Prop :=
  ∀ s, ∃ base, base `sublist_of` txs s ∧ (txs (m s).2 = base ∨ txs (m s).2 = base ++ [x]).
Lemma stores_bind x {A B} (m : step state A) (f : A → step state B) :
  stores x m → (∀ a, commits_nothing (f a)) → stores x (step_bind m f).
Proof.
  intros Hm Hf s. unfold step_bind. destruct (Hm s) as (base & Hb & E).
  destruct (m s) as [[[a|e]|] s']; simpl in *; [|by exists base..]. specialize (Hf a s').
  destruct E as [E|E]; rewrite E in Hf; [by exists (txs (f a s').2); split; [trans base|left]|].
  apply sublist_app_r in Hf as (k1 & k2 & Hk & H1 & H2). rewrite Hk.
  exists k1. split; [by trans base|]. apply sublist_cons_r in H2 as [H2|(k & -> & H2)].
  - apply sublist_nil_r in H2 as ->. left. by rewrite app_nil_r.
  - apply sublist_nil_r in H2 as ->. by right.
Qed.
Lemma bind_stores x {A B} (m : step state A) (f : A → step state B) :
  commits_nothing m → (∀ a, stores x (f a)) → stores x (step_bind m f).
Proof.
  intros Hm Hf s. unfold step_bind. specialize (Hm s). destruct (m s) as [[[a|e]|] s']; simpl in *; [|eexists; by split; [|left]..].
  destruct (Hf a s') as (base & Hb & E). exists base. split; [by trans (txs s')|done].
Qed.

Create HintDb sends.
#[local] Hint Resolve sl_relock sl_sync sl_account sl_index sl_derive sl_keys sl_prover sl_broadcast
  sl_build nothing_of sl_transparent sl_fused nothing_fresh : sends.

(** Storing and broadcasting commits the proved transaction or nothing. *)
Lemma stored_broadcast x :
  stores (spends x) (let! (id, raw) := so_store x in let! _ := so_broadcast id raw in step_ret id).
Proof.
  apply stores_bind; [intros s; apply sl_store|]. intros [id raw].
  apply nothing_bind; [auto with sends|]. by intros _ s.
Qed.
Lemma store_commits signed : stores (spends signed) (store_and_broadcast signed).
Proof. unfold store_and_broadcast. apply bind_stores; [auto with sends|intros _; apply stored_broadcast]. Qed.

(** Phase A selects only notes no transaction spends. *)
Lemma phase_a_fresh j :
  commits_nothing (phase_a j) ∧
  ∀ s p usk s', phase_a j s = (Some (Ok (p, usk)), s') → ∀ u, u ∈ txs s' → selected p ## u.
Proof.
  split.
  { unfold phase_a. do 4 (apply nothing_bind; [auto with sends|intros]).
    intros s0. apply nothing_bind; [auto with sends|intros].
    do 2 (apply nothing_bind; [auto with sends|intros]). by intros ?. }
  intros s p usk s'. unfold phase_a, step_bind.
  destruct (so_relock s) as [[[[]|]|] s1]; try done. destruct (so_sync s1) as [[[[]|]|] s2]; try done.
  destruct (so_index s2) as [[[i|]|] s3]; try done. destruct (so_derive i s3) as [[[k|]|] s4]; try done.
  destruct (so_build _ _ _ _ s4) as [[[b|]|] s5] eqn:Eb; try done.
  pose proof (sl_prover s5) as H1. destruct (so_prover s5) as [[[[]|]|] s6]; try done.
  pose proof (sl_keys s6) as H2. destruct (so_keys s6) as [[[[]|]|] s7]; try done.
  intros [= -> -> ->] u Hu. simpl in *. eapply sl_build_fresh; [exact Eb|].
  eapply elem_of_list_sublist; [|exact Hu]. by trans (txs s6).
Qed.

(** A selection that is stored at once commits a fresh transaction, or none. *)
Lemma selected_then_stored x s (l : list (gset nat)) (m : step state txid_t) :
  (∀ u, u ∈ txs s → x ## u) → txs s `sublist_of` l → stores x m → fresh_after l (txs (m s).2).
Proof.
  intros Hx Hs Hm. destruct (Hm s) as (base & Hb & E). exists base. split; [by trans (txs s)|].
  destruct E as [E|E]; [by left|right]. exists x. split; [done|]. intros u Hu.
  apply Hx. by eapply elem_of_list_sublist.
Qed.
(** An inline send commits at most one transaction, of fresh notes. *)
Lemma inline_fresh j : commits_fresh (do_send j).
Proof.
  unfold do_send. do 6 (apply fresh_bind; [auto with sends|intros]).
  intros s. apply fresh_bind; [auto with sends|]. intros [recipients from|spend|spend];
    [auto with sends|auto with sends|].
  intros s0. unfold step_bind at 1. pose proof (sl_build (sj_payments j)
    (default (so_policy s) (sj_confirmations j)) (sj_privacy j) spend s0) as Hb.
  destruct (so_build _ _ _ _ s0) as [[[p|e]|] s1] eqn:Eb; simpl in Hb; [|eexists; by split; [|left]..].
  pose proof (sl_build_fresh _ _ _ _ _ _ _ Eb) as Hfresh.
  apply (selected_then_stored (selected p) s1); [done..|].
  apply bind_stores; [auto with sends|intros _]. apply bind_stores; [auto with sends|intros _].
  match goal with |- context [so_prove p ?k] => destruct (so_prove p k) as [[x|e]|] eqn:Ex end;
    [|intros s2; eexists; by split; [|left]..].
  rewrite <- (sl_prove _ _ _ Ex).
  intros s2. exact (stored_broadcast x s2).
Qed.
(** No two transactions spend a note. *)
Definition no_double_spend (l : list (gset nat)) : Prop :=
  ∀ i k ti tk, l !! i = Some ti → l !! k = Some tk → i ≠ k → ti ## tk.

Lemma no_double_snoc l t :
  no_double_spend l → (∀ u, u ∈ l → t ## u) → no_double_spend (l ++ [t]).
Proof.
  intros Hl Ht i k ti tk Hi Hk Hne.
  rewrite lookup_app_Some in Hi, Hk.
  destruct Hi as [Hi|[Hi Hi']], Hk as [Hk|[Hk Hk']].
  - by eapply Hl.
  - apply list_lookup_singleton_Some in Hk' as [_ <-]. symmetry. apply Ht.
    by eapply list_elem_of_lookup_2.
  - apply list_lookup_singleton_Some in Hi' as [_ <-]. apply Ht.
    by eapply list_elem_of_lookup_2.
  - apply list_lookup_singleton_Some in Hi' as [? _].
    apply list_lookup_singleton_Some in Hk' as [? _]. lia.
Qed.

Lemma no_double_sublist l l' : l' `sublist_of` l → no_double_spend l → no_double_spend l'.
Proof.
  intros Hs. induction Hs as [|x l1 l2 Hs IH|x l1 l2 Hs IH]; intros Hl; [done| |].
  - assert (no_double_spend l2) as H2.
    { intros i k ti tk Hi Hk Hne. apply (Hl (S i) (S k)); [done..|congruence]. }
    assert (∀ u, u ∈ l1 → x ## u) as Hx.
    { intros u Hu. eapply elem_of_list_sublist in Hu; [|done]. apply list_elem_of_lookup in Hu as [k Hk].
      by apply (Hl 0%nat (S k)). }
    intros [|i] [|k] ti tk Hi Hk Hne; simpl in *; simplify_eq.
    + apply Hx. by eapply list_elem_of_lookup_2.
    + symmetry. apply Hx. by eapply list_elem_of_lookup_2.
    + apply (IH H2 i k); [done..|congruence].
  - apply IH. intros i k ti tk Hi Hk Hne. apply (Hl (S i) (S k)); [done..|congruence].
Qed.
Lemma no_double_fresh l l' : no_double_spend l → fresh_after l l' → no_double_spend l'.
Proof.
  intros Hl (base & Hb & [->|(t & -> & Ht)]); [by eapply no_double_sublist|].
  apply no_double_snoc; [by eapply no_double_sublist|done].
Qed.

(** What is committed is disjoint, and apart from what the proof in flight spends. *)
Definition sound (p : Pipeline) : Prop :=
  no_double_spend (txs (pl_state p)) ∧
  ∀ id x, pl_running p = Some (id, Ok x) → ∀ u, u ∈ txs (pl_state p) → spends x ## u.

Lemma start_sound id j p : sound p → sound (start_pipelined_send id j p).2.
Proof.
  intros [H1 H2]. unfold start_pipelined_send. destruct (phase_a_fresh j) as [E Hf].
  specialize (E (pl_state p)). specialize (Hf (pl_state p)).
  destruct (phase_a j (pl_state p)) as [[[[b usk]|e]|] s]; simpl in *; unfold sound; simpl.
  2,3: split; [by eapply no_double_sublist|]; intros id' x Hr u Hu; eapply (H2 id' x Hr), elem_of_list_sublist; done.
  split; [by eapply no_double_sublist|].
  intros id' x [= <- Hx]. unfold proof_result in Hx.
  destruct (so_prove b usk) as [r|] eqn:Ep; simplify_eq. rewrite (sl_prove _ _ _ Ep).
  by eapply Hf.
Qed.

Lemma pump_sound q p : sound p → sound (pump_loop q p).
Proof.
  revert p. induction q as [|[id j] q IH]; intros p Hp; cbn [pump_loop];
    destruct (send_in_flight p); try done.
  pose proof (start_sound id j p Hp) as Hs.
  destruct (start_pipelined_send id j p) as [[|] p']; simpl in Hs; [by apply IH|].
  destruct Hs as [H1 _]. by split.
Qed.

Lemma finish_sound p : sound p → sound (finish_send_caught p).
Proof.
  intros [H1 H2]. unfold finish_send_caught.
  destruct (pl_running p) as [[id result]|] eqn:Er; [|by split; [|rewrite Er]].
  apply pump_sound. unfold finish_send, sound. destruct result as [x|e]; [|done].
  simpl. destruct (store_commits x (pl_state p)) as (base & Hb & Hc).
  destruct (store_and_broadcast x (pl_state p)) as [r s]. simpl in *.
  split; [|done]. eapply no_double_fresh; [exact H1|]. exists base. split; [done|].
  destruct Hc as [-> | ->]; [by left|right]. exists (spends x). split; [done|]. intros u Hu.
  eapply (H2 id x eq_refl), elem_of_list_sublist; done.
Qed.

(** The actor's other work - a merge, a shielding, an import, a scan - commits at most one
    transaction, of notes that neither a transaction left nor the proof in flight spends. *)
Definition keeps_clear (p : Pipeline) (f : state → state) : Prop :=
  ∃ base, base `sublist_of` txs (pl_state p) ∧
    (txs (f (pl_state p)) = base ∨
     ∃ t, txs (f (pl_state p)) = base ++ [t] ∧ (∀ u, u ∈ base → t ## u) ∧
       ∀ id x, pl_running p = Some (id, Ok x) → spends x ## t).
(** Inline sends keep clear of a proof in flight, and so does the actor's other work. *)
Fixpoint apart (p : Pipeline) (events : list SendEvent) : Prop :=
  match events with
  | [] => True
  | e :: rest =>
      (match e with
       | EvSend _ j => pl_alive p = true → goes_inline j (pl_state p) = true →
                       send_in_flight p = false
       | EvProofDone => True
       | EvOther f => keeps_clear p f
       end) ∧ apart (send_event p e) rest
  end.

Lemma event_sound p e rest : flags_ok p → apart p (e :: rest) → sound p → sound (send_event p e).
Proof.
  intros Hfl [Hap _] Hs. unfold send_event. destruct (pl_alive p) eqn:Ea; simpl; [|by destruct e].
  destruct e as [id j| |f]; simpl.
  - unfold begin_or_queue_send. destruct (goes_inline j (pl_state p)) eqn:Ei.
    + specialize (Hap eq_refl eq_refl). unfold flags_ok in Hfl. rewrite Ea, Hap in Hfl.
      destruct Hfl as (Hr & _). destruct (do_send j (pl_state p)) as [r s] eqn:Ed.
      destruct Hs as [H1 H2]. unfold sound. simpl. split; [|by destruct (pl_running p)].
      pose proof (inline_fresh j (pl_state p)) as Hf. rewrite Ed in Hf. by eapply no_double_fresh.
    + destruct (send_in_flight p); [|by apply start_sound]. by case_match.
  - by apply finish_sound.
  - destruct Hs as [H1 H2]. destruct Hap as (base & Hb & Hf). unfold sound. simpl. split.
    + eapply no_double_fresh; [exact H1|]. exists base. split; [done|]. destruct Hf as [?|(t & ? & ? & _)]; [by left|right; eauto].
    + intros id x Hr u Hu. destruct Hf as [E|(t & E & _ & Ht)]; rewrite E in Hu.
      * eapply (H2 id x Hr), elem_of_list_sublist; done.
      * apply elem_of_app in Hu as [Hu|Hu%list_elem_of_singleton]; [|subst; by eapply Ht].
        eapply (H2 id x Hr), elem_of_list_sublist; done.
Qed.

End double_spend.

(** ** A concrete wallet *)

(** A wallet with the notes below [n]: a send picks the first note no committed transaction
    spends. The state is what was committed. *)
Definition first_free (n : nat) (l : list (gset nat)) : option nat :=
  list_find (λ k, Forall (λ t, k ∉ t) l) (seq 0 n) ≫= λ r, Some r.2.
Definition demo_select (n : nat) : step (list (gset nat)) (gset nat) := λ l,
  (Some (ok_or ((λ k, {[k]}) <$> first_free n l) (RpcError.insufficient_funds "none")), l).
Definition demo_commit (t : gset nat) : step (list (gset nat)) (nat * ()) := λ l,
  (Some (Ok (length l, ())), l ++ [t]).

#[local] Instance demo_ops : SendOps := {|
  taddr := (); confirmations := (); state := list (gset nat); key := (); pczt := gset nat;
  signed_tx := gset nat; txid_t := nat; raw_t := ();
  so_relock := step_ret (); so_sync := step_ret (); so_account := step_ret ();
  so_index := step_ret 0; so_derive _ := step_ret (); so_cached _ := true;
  so_pipeline_proving _ := true; so_policy _ := ();
  so_transparent _ _ _ _ := step_of (Err (RpcError.wallet "no transparent funds"));
  so_fused _ _ _ _ _ := (let! t := demo_select 2 in let! (id, _) := demo_commit t in step_ret id);
  so_build _ _ _ _ := demo_select 2;
  so_keys := step_ret (); so_prover := step_ret (); so_prove p _ := Some (Ok p);
  so_store := demo_commit; so_broadcast _ _ := step_ret ();
|}.

Lemma demo_free n l t : (λ k, {[k]}) <$> first_free n l = Some t → ∀ u : gset nat, u ∈ l → t ## u.
Proof.
  unfold first_free. destruct (list_find _ _) as [[i k]|] eqn:E; [|done]. simpl. intros [= <-] u Hu.
  apply list_find_Some in E as (_ & Hk & _). rewrite Forall_forall in Hk. specialize (Hk u Hu).
  set_solver.
Qed.

Lemma demo_send_laws : SendLaws (SO := demo_ops) (λ l, l) (λ p, p) (λ x, x).
Proof.
  split; try by repeat intros ?.
  - intros ? ? ? ? s p s'. simpl. unfold demo_select. destruct (_ <$> first_free 2 s) eqn:E; [|done].
    intros [= <- <-]. by eapply demo_free.
  - by intros p k x [= ->].
  - intros x s. exists s. split; [done|by right].
  - intros a b c d s. exists s. split; [done|by left].
  - intros a b c d e s. exists s. split; [done|]. simpl. unfold step_bind, demo_select.
    destruct (_ <$> first_free 2 s) as [t|] eqn:E; simpl; [|by left].
    right. exists t. split; [done|]. by eapply demo_free.
Qed.

(** A send to an address with an Orchard receiver, or without one. *)
Definition demo_job (orchard : bool) : SendJob () () :=
  {| sj_payments := [{| pay_recipient := Ok {| has_orchard_receiver := orchard;
                          has_shielded_receiver := true; bare_transparent := None |};
                        pay_amount := Some 1 |}];
     sj_confirmations := None; sj_privacy := AllowRevealedAmounts; sj_source := Unspecified |}.


(** A send that runs inline while a proof is in flight selects the notes of that proof, and the
    wallet commits two transactions spending one note: here the second send pays an address
    with only a Sapling receiver. *)
Lemma inline_send_reselects :
  pl_state (run_sends (SO := demo_ops) []
    [EvSend 0%nat (demo_job true); EvSend 1%nat (demo_job false); EvProofDone])
  = [{[0%nat]}; {[0%nat]}].
Proof. vm_compute. reflexivity. Qed.

(** The drain at shutdown waits for proofs first and runs the buffered commands after: a
    buffered send it starts is in flight when the actor stops, and is lost. *)
Lemma drain_loses_buffered_send :
  let p := finish_accepted_sends false 10 [(0%nat, demo_job true)] (initial (SO := demo_ops) []) in
  send_in_flight p = true ∧ pl_replies p = [] ∧ pl_state p = [].
Proof. vm_compute. done. Qed.
