(* ===== verification/Upstream.v ===== *)
(** * Upstream: the node the wallet follows ([src/src/chain/mod.rs], [src/src/wallet/actor.rs])

    The verdict on a broadcast, the guard against a wrong or outdated node, the findings about
    network upgrades, and what a failed sync pass reports. *)

From S2P Require Export Network Errors.

(** ** Broadcasts *)

Record BroadcastOutcome := { error_code : Z; error_message : string }.
Definition is_accepted (o : BroadcastOutcome) : bool := error_code o =? 0.

(** [sanitize_upstream_msg]. *)
Definition SANITIZE_MAX : nat := 200.
Definition sanitize_upstream_msg (msg : string) : string :=
  let visible := List.filter (λ c, negb (is_control c)) (chars msg) in
  let out := concat_str (take SANITIZE_MAX visible) in
  if is_some (visible !! SANITIZE_MAX) then out +:+ "..." else out.

Inductive AlreadyKnown := AK_No | AK_InMempool | AK_InChain.
#[global] Instance AlreadyKnown_eq_dec : EqDecision AlreadyKnown.
Proof. solve_decision. Defined.

Definition upstream_already_has_tx (msg : string) : AlreadyKnown :=
  let m := to_ascii_lowercase msg in
  if negb (contains "already" m) then AK_No
  else if contains "mempool" m || contains "known" m then AK_InMempool
  else if contains "chain" m || contains "in state" m then AK_InChain
  else AK_No.

Definition rejection (o : BroadcastOutcome) : RpcError :=
  RpcError.new RPC_VERIFY_REJECTED
    ("transaction rejected (code " +:+ dec_signed (error_code o) +:+ "): "
     +:+ sanitize_upstream_msg (error_message o)).

Definition classify_broadcast_outcome (o : BroadcastOutcome) : rpc () :=
  if is_accepted o then Ok tt
  else
    match upstream_already_has_tx (error_message o) with
    | AK_InMempool => Ok tt
    | AK_InChain => Err (RpcError.new RPC_VERIFY_ALREADY_IN_UTXO_SET
                           "Transaction outputs already in utxo set")
    | AK_No => Err (rejection o)
    end.

(** The actor's connection: whether it has a client. A broadcast sees whether a connect would
    succeed and the node's reply, [None] when the transport failed or timed out. *)
Definition broadcast_committed (client connects : bool) (reply : option BroadcastOutcome) :
    rpc () * bool :=
  if negb client && negb connects then (Ok tt, false)
  else
    match reply with
    | None => (Ok tt, false)
    | Some o =>
        if is_accepted o then (Ok tt, true)
        else if bool_decide (upstream_already_has_tx (error_message o) ≠ AK_No)
        then (Ok tt, true)
        else (Err (rejection o), true)
    end.

(** [upstream_error]: the detail is logged, never returned. *)
Definition upstream_error (detail client_msg : string) : RpcError := RpcError.misc client_msg.

Definition do_broadcast (client : bool) (connects : option string) (reply : option BroadcastOutcome) :
    rpc () * bool :=
  match (if client then None else connects) with
  | Some e => (Err (upstream_error e "could not connect to the upstream node"), false)
  | None =>
      match reply with
      | None => (Err (RpcError.misc "transaction broadcast to the upstream node failed"), false)
      | Some o => (classify_broadcast_outcome o, true)
      end
  end.

(** ** The wrong-chain guard *)

Definition chain_name_is_main (chain_name : string) : option bool :=
  if bool_decide (chain_name = "main") then Some true
  else if bool_decide (chain_name = "test") || bool_decide (chain_name = "regtest")
  then Some false else None.

(** [verify_server_network]: the refusal of a node's chain name, if any. *)
Definition verify_server_network (chain_name : string) (network : ZNetwork) : option string :=
  match chain_name_is_main chain_name with
  | Some server_is_main =>
      let wallet_is_main := bool_decide (network = Main) in
      if bool_decide (server_is_main ≠ wallet_is_main) then
        Some ("lightwalletd serves chain '" +:+ chain_name
              +:+ "' but this wallet is configured for '" +:+ network_name network +:+ "'")
      else None
  | None => None
  end.

(** [transparent_capability_error]: whether the node is refused for a transparent wallet. *)
Definition transparent_capability_error (transparent_enabled block_scan_covers : bool) : bool :=
  transparent_enabled && negb block_scan_covers.

(** ** Network upgrade findings *)

Inductive UpgradeStatus := US_Pending | US_Active | US_Other.
#[global] Instance UpgradeStatus_eq_dec : EqDecision UpgradeStatus.
Proof. solve_decision. Defined.

Record UpgradeInfo := {
  ui_branch_id : Z; ui_name : string; ui_activation_height : option Z; ui_status : UpgradeStatus;
}.
Record ServerInfo := {
  chain_name : string;
  tip_height : option Z;
  upgrades : list UpgradeInfo;
  tip_branch_id : option Z;
  next_block_branch_id : option Z;
}.

Inductive UnsupportedKind :=
  | UnknownBranch
  | ActivationHeightMismatch (expected : option Z)
  | UpstreamNotUpgraded.
#[global] Instance UnsupportedKind_eq_dec : EqDecision UnsupportedKind.
Proof. solve_decision. Defined.

Record UnsupportedUpgrade := {
  uu_branch_id : Z; uu_name : string; uu_activation_height : option Z; uu_active : bool;
  uu_kind : UnsupportedKind;
}.

(** The protocol crate's branches: Sprout, or the branch of an upgrade. *)
Inductive BranchId := Sprout | BranchOf (nu : NetworkUpgrade).
#[global] Instance BranchId_eq_dec : EqDecision BranchId.
Proof. solve_decision. Defined.

Definition network_upgrade (b : BranchId) : option NetworkUpgrade :=
  match b with Sprout => None | BranchOf nu => Some nu end.

(** [Iterator::position]. *)
Fixpoint position {A} (p : A → bool) (l : list A) : option nat :=
  match l with [] => None | x :: l' => if p x then Some O else S <$> position p l' end.

Definition branch_rank (b : BranchId) : nat :=
  match network_upgrade b with
  | None => 0
  | Some nu =>
      match position (λ n, bool_decide (n = nu)) NETWORK_UPGRADES with Some i => S i | None => 0 end
  end.

Section findings.
(** The network's activation heights, and the crate's branch ids both ways. *)
Context (activation : NetworkUpgrade → option Z) (branch_code : BranchId → Z)
        (branch_of : Z → option BranchId) (for_height : Z → BranchId).

Definition branch_known (id : Z) : bool := is_some (branch_of id).
Definition in_play (u : UpgradeInfo) : bool :=
  bool_decide (ui_status u = US_Active) || bool_decide (ui_status u = US_Pending).

(** The first two checks: the upstream's own entries. *)
Definition unknown_branches (info : ServerInfo) : list UnsupportedUpgrade :=
  (λ u, {| uu_branch_id := ui_branch_id u; uu_name := ui_name u;
           uu_activation_height := ui_activation_height u;
           uu_active := bool_decide (ui_status u = US_Active); uu_kind := UnknownBranch |})
  <$> List.filter (λ u, in_play u && negb (branch_known (ui_branch_id u))) (upgrades info).

Definition height_mismatch (u : UpgradeInfo) : option UnsupportedUpgrade :=
  nu ← branch_of (ui_branch_id u) ≫= network_upgrade;
  theirs ← ui_activation_height u;
  let ours := activation nu in
  if bool_decide (ours = Some theirs) then None
  else Some {| uu_branch_id := ui_branch_id u; uu_name := ui_name u;
               uu_activation_height := Some theirs;
               uu_active := bool_decide (ui_status u = US_Active);
               uu_kind := ActivationHeightMismatch ours |}.
Definition height_mismatches (info : ServerInfo) : list UnsupportedUpgrade :=
  omap height_mismatch (List.filter in_play (upgrades info)).

(** [Iterator::max] over the heights the upstream lists. *)
Definition horizon (info : ServerInfo) : option Z :=
  match omap ui_activation_height (upgrades info) with
  | [] => None
  | h :: rest => Some (foldl Z.max h rest)
  end.

Definition beyond_horizon (info : ServerInfo) (h : Z) (s : ScheduledUpgrade) :
    option UnsupportedUpgrade :=
  if (su_activation_height s <=? h)
     || existsb (λ u, ui_branch_id u =? su_branch_id s) (upgrades info)
  then None
  else Some {| uu_branch_id := su_branch_id s; uu_name := su_name s;
               uu_activation_height := Some (su_activation_height s);
               uu_active := match tip_height info with
                            | Some t => su_activation_height s <=? t
                            | None => false
                            end;
               uu_kind := UpstreamNotUpgraded |}.
Definition schedule : list ScheduledUpgrade :=
  scheduled_upgrades (λ nu, branch_code (BranchOf nu)) activation.
Definition missing_upgrades (info : ServerInfo) : list UnsupportedUpgrade :=
  match horizon info with
  | None => []
  | Some h => omap (beyond_horizon info h) schedule
  end.

(** Mark the first finding of a branch active; [None] when there is none. *)
Fixpoint promote (id : Z) (out : list UnsupportedUpgrade) : option (list UnsupportedUpgrade) :=
  match out with
  | [] => None
  | u :: rest =>
      if uu_branch_id u =? id then
        Some ({| uu_branch_id := uu_branch_id u; uu_name := uu_name u;
                 uu_activation_height := uu_activation_height u; uu_active := true;
                 uu_kind := uu_kind u |} :: rest)
      else cons u <$> promote id rest
  end.

(** The branch ids in force at the tip or next. *)
Definition promote_consensus (out : list UnsupportedUpgrade) (id : Z) : list UnsupportedUpgrade :=
  match promote id out with
  | Some out' => out'
  | None =>
      if branch_known id then out
      else out ++ [{| uu_branch_id := id; uu_name := "unknown upgrade";
                      uu_activation_height := None; uu_active := true;
                      uu_kind := UnknownBranch |}]
  end.

(** The branch of the tip, or of the next block, against the one this build expects there. *)
Definition compare_branch (out : list UnsupportedUpgrade) (at_ : option Z * Z) :
    list UnsupportedUpgrade :=
  match at_.1 ≫= branch_of with
  | None => out
  | Some theirs =>
      let ours := for_height at_.2 in
      if bool_decide (theirs = ours) then out
      else
        let '(behind, kind) :=
          if (branch_rank theirs <? branch_rank ours)%nat then (ours, UpstreamNotUpgraded)
          else (theirs, ActivationHeightMismatch (network_upgrade theirs ≫= activation)) in
        let branch_id := branch_code behind in
        match promote branch_id out with
        | Some out' => out'
        | None =>
            let nu := network_upgrade behind in
            out ++ [{| uu_branch_id := branch_id;
                       uu_name := match nu with
                                  | Some nu => upgrade_name nu
                                  | None => "unknown upgrade"
                                  end;
                       uu_activation_height :=
                         match kind with
                         | UpstreamNotUpgraded => nu ≫= activation
                         | _ => None
                         end;
                       uu_active := true; uu_kind := kind |}]
        end
  end.

(** [unsupported_upgrades]. *)
Definition unsupported_upgrades (info : ServerInfo) : list UnsupportedUpgrade :=
  let out := unknown_branches info ++ height_mismatches info ++ missing_upgrades info in
  let out := foldl promote_consensus out
               (omap id [tip_branch_id info; next_block_branch_id info]) in
  match tip_height info with
  | None => out
  | Some tip =>
      foldl compare_branch out
        [(tip_branch_id info, tip); (next_block_branch_id info, u32_sat_add tip 1)]
  end.

(** [branch_check_due]. *)
Definition branch_check_due (checked_at : option Z) (tip : Z) : bool :=
  match checked_at with
  | None => false
  | Some checked =>
      existsb (λ s, (checked <? su_activation_height s) && (su_activation_height s <=? tip)) schedule
  end.
End findings.

(** Whether a finding is in force: active, or its height reached. *)
Definition finding_in_force (u : UnsupportedUpgrade) (tip : option Z) : bool :=
  uu_active u || match uu_activation_height u, tip with
                 | Some h, Some t => h <=? t
                 | _, _ => false
                 end.

Definition NODE_UPGRADE_GUIDANCE : string :=
  "Upgrade the node to a release that schedules it (zebra 7.0.0 or zakura 1.7.0 and later for "
  +:+ "NU7) and let it re-sync past the activation height; zecd will not sync a wallet against "
  +:+ "it until then.".
(** [upstream_not_upgraded]. *)
Definition upstream_not_upgraded (found : list UnsupportedUpgrade) (tip : option Z) :
    option UnsupportedUpgrade :=
  find_first (λ u, bool_decide (uu_kind u = UpstreamNotUpgraded) && finding_in_force u tip) found.

(** ** A failed sync pass *)

(** The errors of a batch the code tells apart. *)
Inductive SyncError := ApplyFailed (text : string) | Unrecoverable (text : string)
                     | OtherFailure (text : string).
Definition sync_error_text (e : SyncError) : string :=
  match e with ApplyFailed t | Unrecoverable t | OtherFailure t => t end.
Definition apply_side (e : SyncError) : bool :=
  match e with ApplyFailed _ => true | _ => false end.
Definition sync_failure_is_terminal (e : SyncError) : bool :=
  match e with Unrecoverable _ => true | _ => false end.

Definition PERSISTENT_SYNC_ERROR_THRESHOLD : Z := 3.

(** What is appended to the reason: the unsupported upgrade that explains the failure, or the
    advice to rebuild the wallet database. *)
Inductive SyncHint := HintUpgrade (u : UnsupportedUpgrade) | HintRescan (streak : Z).
Definition sync_failure_hint (apply_side : bool) (streak : Z) (upgrade : option UnsupportedUpgrade) :
    option SyncHint :=
  if negb apply_side then None
  else
    match (u ← upgrade; if bool_decide (uu_kind u = UnknownBranch) then Some u else None) with
    | Some u => Some (HintUpgrade u)
    | None =>
        if PERSISTENT_SYNC_ERROR_THRESHOLD <=? streak then Some (HintRescan streak) else None
    end.

(** [note_sync_error]: the last error's text with the streak, and the hint. *)
Definition note_sync_error (last : option string) (streak : Z) (found : list UnsupportedUpgrade)
    (tip : option Z) (e : SyncError) : (option string * Z) * option SyncHint :=
  let msg := "sync error: " +:+ sync_error_text e in
  let streak := if bool_decide (last = Some msg) then u32_sat_add streak 1 else 1 in
  let upgrade := find_first (λ u, bool_decide (uu_kind u = UnknownBranch)
                                  && finding_in_force u tip) found in
  ((Some msg, streak), sync_failure_hint (apply_side e) streak upgrade).
