(* ===== verification/UpstreamSpec.v ===== *)
(** * UpstreamSpec: what the node is trusted with

    A committed send fails only when the node refused it; a node on this build's schedule raises
    no finding and one that never adopted an upgrade in force is refused; a failure is named
    after its cause. *)

From S2P Require Export Upstream.

(** ** Broadcasts *)

(** What is echoed of a node's message: at most [SANITIZE_MAX] of its characters, no control
    character among them. *)
Definition bounded_echo (msg out : string) : Prop :=
  ∃ l, l `sublist_of` chars msg ∧ (length l ≤ SANITIZE_MAX)%nat ∧
       Forall (λ c, is_control c = false) l ∧
       (out = concat_str l ∨ out = concat_str l +:+ "...").

Lemma sanitize_bounded msg : bounded_echo msg (sanitize_upstream_msg msg).
Proof.
  unfold sanitize_upstream_msg. set (visible := List.filter _ (chars msg)).
  exists (take SANITIZE_MAX visible). split_and!.
  - transitivity visible; [apply sublist_take|]. unfold visible.
    induction (chars msg) as [|c l IH]; simpl; [constructor|].
    destruct (negb (is_control c)); by constructor.
  - rewrite length_take. lia.
  - apply Forall_take. apply Forall_forall. intros c Hc. apply list_elem_of_In in Hc.
    apply filter_In in Hc as [_ Hc]. by destruct (is_control c).
  - case_match; auto.
Qed.

(** A broadcast is reported as it happened. A send the wallet committed fails only when the
    node examined it and refused it, never because it was not reached, and is delivered when
    the node holds it already; the caller's own transaction is accepted only when the node
    accepts or holds it, is told apart when mined, and fails otherwise, with an error that
    never depends on the connection's detail; what both say of a refusal is a bounded part of
    the node's message; and the connection is dropped exactly when the node was reached and did
    not answer, or could not be reached. *)
Theorem broadcast_contract (client : bool) (connects : option string)
    (reply : option BroadcastOutcome) :
  let committed := broadcast_committed client (negb (is_some connects)) reply in
  let raw := do_broadcast client connects reply in
  (∀ e, committed.1 = Err e ↔
     (client = true ∨ connects = None) ∧
     ∃ o, reply = Some o ∧ error_code o ≠ 0 ∧
          upstream_already_has_tx (error_message o) = AK_No ∧ e = rejection o) ∧
  (raw.1 = Ok tt ↔
     (client = true ∨ connects = None) ∧
     ∃ o, reply = Some o ∧ (error_code o = 0 ∨
          upstream_already_has_tx (error_message o) = AK_InMempool)) ∧
  (∀ e, raw.1 = Err e →
     err_code e = RPC_MISC_ERROR ∧ (raw.2 = false) ∨
     err_code e = RPC_VERIFY_ALREADY_IN_UTXO_SET ∧ committed.1 = Ok tt ∨
     err_code e = RPC_VERIFY_REJECTED ∧ committed.1 = Err e ∧
     ∃ o msg, reply = Some o ∧ bounded_echo (error_message o) msg ∧
       err_message e = "transaction rejected (code " +:+ dec_signed (error_code o) +:+ "): " +:+ msg) ∧
  (∀ detail, connects ≠ None →
     do_broadcast client (Some detail) reply = raw) ∧
  committed.2 = raw.2.
Proof.
  cbv zeta. unfold do_broadcast, broadcast_committed, classify_broadcast_outcome, is_accepted.
  destruct client, connects as [detail|], reply as [o|];
    cbn [andb orb negb is_some fst snd]; try (split_and!; naive_solver).
  all: destruct (Z.eqb_spec (error_code o) 0) as [E|E]; cbn [fst snd];
    [split_and!; naive_solver|].
  all: destruct (upstream_already_has_tx (error_message o)) eqn:Ek; cbn [fst snd];
    repeat (case_bool_decide; [|try done]); try done; cbn [fst snd];
    (split_and!; [intros e; split; [intros [= <-]; eauto 10|]
                 |split; [intros [=]; eauto 10|]| |done|done]);
    try (intros (_ & o' & [= <-] & [?|?]); [done|congruence]);
    try (intros (_ & o' & [= <-] & ? & ? & ->); congruence);
    intros e He; simplify_eq; auto.
  all: right; right; split_and!; [done|done|].
  all: exists o, (sanitize_upstream_msg (error_message o)).
  all: split_and!; [done|apply sanitize_bounded|done].
Qed.

(** ** Network upgrade findings *)

Lemma find_first_some {A} (p : A → bool) l x : x ∈ l → p x = true → is_some (find_first p l) = true.
Proof.
  induction l as [|y l IH]; simpl; [set_solver|]. intros [->|Hx]%elem_of_cons Hp; [by rewrite Hp|].
  destruct (p y); [done|]. by apply IH.
Qed.

Lemma omap_nil_iff {A B} (f : A → option B) l : omap f l = [] ↔ ∀ x, x ∈ l → f x = None.
Proof.
  induction l as [|x l IH]; csimpl; [set_solver|]. destruct (f x) eqn:E.
  - split; [done|]. intros H. specialize (H x ltac:(set_solver)). congruence.
  - rewrite IH. set_solver.
Qed.

Lemma filter_nil_iff {A} (p : A → bool) l : List.filter p l = [] ↔ ∀ x, x ∈ l → p x = false.
Proof.
  induction l as [|x l IH]; simpl; [set_solver|]. destruct (p x) eqn:E.
  - split; [done|]. intros H. specialize (H x ltac:(set_solver)). congruence.
  - rewrite IH. set_solver.
Qed.

Section findings.
Context (activation : NetworkUpgrade → option Z) (branch_code : BranchId → Z)
        (branch_of : Z → option BranchId) (for_height : Z → BranchId).
Abbreviation findings := (unsupported_upgrades activation branch_code branch_of for_height).
Abbreviation compare := (compare_branch activation branch_code branch_of for_height).
Abbreviation consensus := (promote_consensus branch_of).
Abbreviation missing := (missing_upgrades activation branch_code).

(** The crate's ids name its branches, one each. *)
Class BranchLaws : Prop := {
  bl_code : ∀ b, branch_of (branch_code b) = Some b;
  bl_of : ∀ id b, branch_of id = Some b → branch_code b = id;
}.

Context {BL : BranchLaws}.

Lemma promote_none id out : promote id out = None ↔ ∀ u, u ∈ out → uu_branch_id u ≠ id.
Proof.
  induction out as [|u out IH]; simpl; [set_solver|].
  destruct (Z.eqb_spec (uu_branch_id u) id) as [E|E]; [set_solver|].
  rewrite fmap_None, IH. set_solver.
Qed.

Lemma promote_some id out out' :
  promote id out = Some out' →
  (∃ u u', u ∈ out ∧ u' ∈ out' ∧ uu_branch_id u = id ∧ uu_kind u' = uu_kind u ∧
           uu_active u' = true) ∧
  (∀ u, u ∈ out → ∃ u', u' ∈ out' ∧ uu_branch_id u' = uu_branch_id u ∧
     uu_kind u' = uu_kind u ∧ (uu_active u = true → uu_active u' = true)) ∧
  (∀ u', u' ∈ out' → ∃ u, u ∈ out ∧ uu_branch_id u' = uu_branch_id u ∧ uu_kind u' = uu_kind u).
Proof.
  revert out'. induction out as [|u out IH]; intros out'; simpl; [done|].
  destruct (Z.eqb_spec (uu_branch_id u) id) as [E|E].
  - intros [= <-]. split_and!.
    + eexists u, _. split_and!; [set_solver|by left|done..].
    + intros v [->|Hv]%elem_of_cons; [eexists; split; [by left|done]|].
      exists v. split_and!; [by right|done..].
    + intros v [->|Hv]%elem_of_cons; [exists u; set_solver|]. exists v. set_solver.
  - intros (l & Hl & ->)%fmap_Some. destruct (IH _ Hl) as ((a & a' & H1 & H2 & H3) & Ha & Hb).
    split_and!.
    + exists a, a'. set_solver.
    + intros v [->|Hv]%elem_of_cons; [exists u; set_solver|].
      destruct (Ha v Hv) as (v' & ? & ?). exists v'. set_solver.
    + intros v [->|Hv]%elem_of_cons; [exists u; set_solver|].
      destruct (Hb v Hv) as (v' & ? & ?). exists v'. set_solver.
Qed.

Lemma promote_nil id out out' : promote id out = Some out' → out ≠ [] ∧ out' ≠ [].
Proof.
  intros H. destruct (promote_some _ _ _ H) as ((u & u' & H1 & H2 & _) & _). clear H.
  split; intros ->; [inversion H1|inversion H2].
Qed.

Lemma consensus_nil out id : consensus out id = [] ↔ out = [] ∧ is_Some (branch_of id).
Proof.
  unfold promote_consensus, branch_known. destruct (promote id out) as [out'|] eqn:E.
  - apply promote_nil in E. naive_solver.
  - destruct (branch_of id); simpl; [naive_solver|].
    split; [by intros [_ ?]%app_nil|]. intros [_ [? ?]]. done.
Qed.

Lemma compare_nil out c :
  compare out c = [] ↔ out = [] ∧ ∀ b, c.1 ≫= branch_of = Some b → b = for_height c.2.
Proof.
  unfold compare_branch. destruct (c.1 ≫= branch_of) as [b|].
  2: { split; [by intros ->|by intros [? _]]. }
  case_bool_decide as Eb; [split; [by intros ->; split; [|intros ? [= <-]]|by intros [? _]]|].
  destruct (if (_ <? _)%nat then _ else _) as [behind kind].
  destruct (promote _ out) as [out'|] eqn:E.
  - apply promote_nil in E. naive_solver.
  - split; [by intros [_ ?]%app_nil|]. intros [_ H]. by destruct (Eb (H b eq_refl)).
Qed.

Lemma consensus_fold_nil ids out :
  foldl consensus out ids = [] ↔ out = [] ∧ ∀ id, id ∈ ids → is_Some (branch_of id).
Proof.
  revert out. induction ids as [|id ids IH]; intros out; simpl; [set_solver|].
  rewrite IH, consensus_nil. set_solver.
Qed.

(** An upstream that agrees with this build's schedule. *)
Definition agrees (info : ServerInfo) : Prop :=
  (∀ u, u ∈ upgrades info → in_play u = true →
     ∃ b, branch_of (ui_branch_id u) = Some b ∧
       ∀ nu h, b = BranchOf nu → ui_activation_height u = Some h → activation nu = Some h) ∧
  (∀ h nu a, horizon info = Some h → activation nu = Some a → h < a →
     ∃ u, u ∈ upgrades info ∧ ui_branch_id u = branch_code (BranchOf nu)) ∧
  (∀ id, tip_branch_id info = Some id ∨ next_block_branch_id info = Some id →
     is_Some (branch_of id)) ∧
  (∀ tip, tip_height info = Some tip →
     (∀ b, tip_branch_id info ≫= branch_of = Some b → b = for_height tip) ∧
     (∀ b, next_block_branch_id info ≫= branch_of = Some b → b = for_height (u32_sat_add tip 1))).

Lemma all_upgrades nu : nu ∈ NETWORK_UPGRADES.
Proof. destruct nu; vm_compute; set_solver. Qed.

Lemma missing_nil info :
  missing info = [] ↔
  ∀ h nu a, horizon info = Some h → activation nu = Some a → h < a →
    ∃ u, u ∈ upgrades info ∧ ui_branch_id u = branch_code (BranchOf nu).
Proof.
  unfold missing_upgrades. destruct (horizon info) as [h0|]; [|naive_solver].
  rewrite omap_nil_iff. split.
  - intros H h nu a [= <-] Ha Hlt.
    specialize (H {| su_upgrade := nu; su_name := upgrade_name nu;
                     su_branch_id := branch_code (BranchOf nu); su_activation_height := a |}).
    unfold beyond_horizon in H. simpl in H.
    destruct (Z.leb_spec a h0); [lia|]. simpl in H.
    destruct (existsb _ _) eqn:E.
    + apply existsb_exists in E as (u & Hu & Eu). apply list_elem_of_In in Hu.
      exists u. split; [done|]. lia.
    + discriminate H. unfold schedule, scheduled_upgrades. apply list_elem_of_omap.
      exists nu. split; [apply all_upgrades|]. by rewrite Ha.
  - intros H s Hs. unfold schedule, scheduled_upgrades in Hs.
    apply list_elem_of_omap in Hs as (nu & _ & Hs).
    destruct (activation nu) as [a|] eqn:Ea; [|done]. simplify_eq/=. unfold beyond_horizon. simpl.
    destruct (Z.leb_spec a h0); [done|]. simpl.
    destruct (H h0 nu a eq_refl Ea) as (u & Hu & Eu); [lia|].
    assert (existsb (λ u, ui_branch_id u =? branch_code (BranchOf nu)) (upgrades info) = true) as ->;
      [|done].
    apply existsb_exists. exists u. split; [by apply list_elem_of_In|]. lia.
Qed.

Lemma entries_nil info :
  unknown_branches branch_of info = [] ∧ height_mismatches activation branch_of info = [] ↔
  ∀ u, u ∈ upgrades info → in_play u = true →
     ∃ b, branch_of (ui_branch_id u) = Some b ∧
       ∀ nu h, b = BranchOf nu → ui_activation_height u = Some h → activation nu = Some h.
Proof.
  unfold unknown_branches, height_mismatches.
  assert (∀ {A B} (f : A → B) l, f <$> l = [] ↔ l = []) as fmap_nil_iff.
  { intros A B f l. by destruct l. }
  rewrite fmap_nil_iff, filter_nil_iff, omap_nil_iff. setoid_rewrite elem_of_filter_bool. setoid_rewrite (and_comm (_ = true)).
  unfold branch_known, height_mismatch. split.
  - intros [H1 H2] u Hu Hp. specialize (H1 u Hu). rewrite Hp in H1. specialize (H2 u (conj Hu Hp)).
    destruct (branch_of (ui_branch_id u)) as [b|]; [|done]. exists b. split; [done|].
    intros nu h -> Hh. rewrite Hh in H2. simpl in H2. by case_bool_decide.
  - intros H. split.
    + intros u Hu. destruct (in_play u) eqn:Ep; [|done]. simpl.
      destruct (H u Hu Ep) as (b & -> & _). done.
    + intros u [Hu Hp]. destruct (H u Hu Hp) as (b & -> & Hb). simpl.
      destruct b as [|nu]; [done|]. simpl. destruct (ui_activation_height u) as [h|] eqn:Eh; [|done].
      simpl. by rewrite bool_decide_true by (by apply Hb).
Qed.

(** ** A node that never adopted an upgrade *)

Definition refusing (l : list UnsupportedUpgrade) : Prop :=
  ∃ u, u ∈ l ∧ uu_kind u = UpstreamNotUpgraded ∧ uu_active u = true.

Lemma refusing_refused l tip : refusing l → is_some (upstream_not_upgraded l tip) = true.
Proof.
  intros (u & Hu & Hk & Ha). unfold upstream_not_upgraded. eapply find_first_some; [exact Hu|].
  rewrite bool_decide_true by done. unfold finding_in_force. by rewrite Ha.
Qed.

Lemma compare_refusing l c : refusing l → refusing (compare l c).
Proof.
  intros (u & Hu & Hk & Ha). unfold compare_branch. destruct (c.1 ≫= branch_of); [|by exists u].
  case_bool_decide; [by exists u|]. destruct (if (_ <? _)%nat then _ else _) as [behind kind].
  destruct (promote _ l) as [l'|] eqn:E.
  - destruct (promote_some _ _ _ E) as (_ & H1 & _). destruct (H1 u Hu) as (u' & ? & _ & ? & ?).
    exists u'. split_and!; [done|congruence|auto].
  - exists u. split_and!; [apply elem_of_app; by left|done|done].
Qed.

(** Every finding of the branch this build is on is that the node is not upgraded. *)
Definition only_stale (id : Z) (l : list UnsupportedUpgrade) : Prop :=
  ∀ u, u ∈ l → uu_branch_id u = id → uu_kind u = UpstreamNotUpgraded.

Lemma consensus_stale b l id :
  only_stale (branch_code b) l → only_stale (branch_code b) (consensus l id).
Proof.
  intros H. unfold promote_consensus. destruct (promote id l) as [l'|] eqn:E.
  - intros u' Hu' Hid. destruct (promote_some _ _ _ E) as (_ & _ & H2).
    destruct (H2 u' Hu') as (u & Hu & E1 & E2). rewrite E2. apply H; [done|congruence].
  - unfold branch_known. destruct (branch_of id) eqn:Eb; simpl; [done|].
    intros u [Hu| ->%list_elem_of_singleton]%elem_of_app; [by apply H|]. simpl. intros ->.
    by rewrite bl_code in Eb.
Qed.

Lemma consensus_fold_stale b ids l :
  only_stale (branch_code b) l → only_stale (branch_code b) (foldl consensus l ids).
Proof. revert l. induction ids as [|id ids IH]; intros l H; simpl; [done|]. by apply IH, consensus_stale. Qed.

Lemma entries_stale info b :
  (∀ u, u ∈ upgrades info → in_play u = true → ui_branch_id u ≠ branch_code b) →
  only_stale (branch_code b)
    (unknown_branches branch_of info ++ height_mismatches activation branch_of info
     ++ missing info).
Proof.
  intros Hmap u Hu Hid. rewrite !elem_of_app in Hu. destruct Hu as [Hu|[Hu|Hu]].
  - unfold unknown_branches in Hu. apply list_elem_of_fmap in Hu as (v & -> & Hv).
    apply elem_of_filter_bool in Hv as [Hp Hv]. apply andb_prop in Hp as [Hp _].
    by destruct (Hmap v Hv Hp).
  - unfold height_mismatches in Hu. apply list_elem_of_omap in Hu as (v & Hv & E).
    apply elem_of_filter_bool in Hv as [Hp Hv]. unfold height_mismatch in E.
    destruct (branch_of (ui_branch_id v) ≫= network_upgrade); [|done]. simpl in E.
    destruct (ui_activation_height v); [|done]. simpl in E. case_bool_decide; simplify_eq/=.
    by destruct (Hmap v Hv Hp).
  - unfold missing_upgrades in Hu. destruct (horizon info); [|by apply elem_of_nil in Hu].
    apply list_elem_of_omap in Hu as (s & _ & E). unfold beyond_horizon in E. by case_match; simplify_eq/=.
Qed.

Lemma compare_stale_tip l id theirs height :
  branch_of id = Some theirs → (branch_rank theirs < branch_rank (for_height height))%nat →
  only_stale (branch_code (for_height height)) l → refusing (compare l (Some id, height)).
Proof.
  intros Hb Hr Hs. unfold compare_branch. simpl. rewrite Hb.
  rewrite bool_decide_false by (intros ->; lia).
  assert (branch_rank theirs <? branch_rank (for_height height) = true)%nat as -> by
    (by apply Nat.ltb_lt).
  destruct (promote _ l) as [l'|] eqn:E.
  - destruct (promote_some _ _ _ E) as ((u & u' & Hu & Hu' & Hid & Hk & Ha) & _).
    exists u'. split_and!; [done| |done]. rewrite Hk. by apply Hs.
  - eexists. split; [apply elem_of_app; right; by apply list_elem_of_singleton|]. done.
Qed.

(** The findings about network upgrades are exact on both sides. A node raises no finding
    exactly when it agrees with this build: every upgrade it has active or pending is known and
    activates at this build's height, it lists every upgrade this build schedules past its
    horizon, and the branches in force at its tip and next are known and are the ones expected
    there. And a node whose tip is ruled by an older branch than this build expects at that
    height is refused, whatever the wallet's own view of the tip, unless its own list names that
    upgrade. *)
Theorem upgrade_findings_exact (info : ServerInfo) :
  (findings info = [] ↔ agrees info) ∧
  ∀ tip id theirs wallet_tip,
    tip_height info = Some tip → tip_branch_id info = Some id → branch_of id = Some theirs →
    (branch_rank theirs < branch_rank (for_height tip))%nat →
    (∀ u, u ∈ upgrades info → in_play u = true →
       ui_branch_id u ≠ branch_code (for_height tip)) →
    is_some (upstream_not_upgraded (findings info) wallet_tip) = true.
Proof.
  unfold unsupported_upgrades. split.
  - unfold agrees. rewrite <- entries_nil, <- missing_nil.
    assert (∀ i, i ∈ omap id [tip_branch_id info; next_block_branch_id info] ↔
              tip_branch_id info = Some i ∨ next_block_branch_id info = Some i) as Hids.
    { intros i. simpl. destruct (tip_branch_id info), (next_block_branch_id info); simpl;
        rewrite ?elem_of_cons, ?elem_of_nil; naive_solver. }
    destruct (tip_height info) as [tip|]; cbn [foldl]; rewrite ?compare_nil, consensus_fold_nil;
      setoid_rewrite Hids; rewrite !app_nil; simpl.
    + split; [intros ((((H1 & H2 & H3) & H4) & H5) & H6); split_and!; try done|].
      * by intros ? [= <-].
      * intros ((H1 & H2) & H3 & H4 & H5). destruct (H5 tip eq_refl). by split_and!.
    + split; [intros ((H1 & H2 & H3) & H4); by split_and!|]. intros ((H1 & H2) & H3 & H4 & H5).
      by split_and!.
  - intros tip id theirs wallet_tip Ht Hid Hb Hr Hmap. rewrite Ht, Hid. cbn [foldl].
    apply refusing_refused, compare_refusing. eapply compare_stale_tip; [done|done|].
    by apply consensus_fold_stale, entries_stale.
Qed.
End findings.

(** ** A concrete schedule *)

(** A network on NU6.3 from height 100 and on NU7 from 200, the crate's ids being the ranks. *)
Definition demo_activation (nu : NetworkUpgrade) : option Z :=
  match nu with Nu7 => Some 200 | Nu6_3 => Some 100 | _ => Some 1 end.
Definition demo_code (b : BranchId) : Z := Z.of_nat (branch_rank b).
Definition demo_branch_of (id : Z) : option BranchId :=
  find_first (λ b, demo_code b =? id) (Sprout :: (BranchOf <$> NETWORK_UPGRADES)).
Definition demo_for_height (h : Z) : BranchId :=
  if 200 <=? h then BranchOf Nu7 else if 100 <=? h then BranchOf Nu6_3 else BranchOf Nu6_2.

Lemma demo_branches : BranchLaws demo_code demo_branch_of.
Proof.
  split.
  - intros [|nu]; [reflexivity|]. by destruct nu.
  - unfold demo_branch_of. intros id b. generalize (Sprout :: (BranchOf <$> NETWORK_UPGRADES)).
    induction l as [|x l IH]; simpl; [done|].
    destruct (Z.eqb_spec (demo_code x) id); [by intros [= <-]|done].
Qed.

(** A light-mode node still on NU6.3 at height 250. *)
Definition stale_node : ServerInfo :=
  {| chain_name := "main"; tip_height := Some 250; upgrades := [];
     tip_branch_id := Some (demo_code (BranchOf Nu6_3));
     next_block_branch_id := Some (demo_code (BranchOf Nu6_3)) |}.

Lemma upgrade_findings_exact_witness :
  is_some (upstream_not_upgraded
    (unsupported_upgrades demo_activation demo_code demo_branch_of demo_for_height stale_node) None)
  = true.
Proof.
  pose proof demo_branches as HL.
  refine (proj2 (upgrade_findings_exact demo_activation demo_code demo_branch_of demo_for_height
           stale_node) 250 (demo_code (BranchOf Nu6_3)) (BranchOf Nu6_3) None
           eq_refl eq_refl eq_refl _ _).
  - apply Nat.ltb_lt. reflexivity.
  - intros u Hu. apply elem_of_nil in Hu. destruct Hu.
Defined.
