(* ===== verification/Enhance.v ===== *)
(** * Enhance: the enhancement drain ([src/src/wallet/actor.rs])

    After the block scan reaches the tip, the transactions seen only as compact blocks are
    fetched in full: the requests outstanding, one pass over them, the backlog published, and
    the watermark consumers read. The wallet database is [EnhanceDb], what the upstream answers
    during a step [Answers]. *)

From S2P Require Export Upstream.

(** ** Requests *)

Inductive TxStatusFilter := TSF_Mined | TSF_Mempool | TSF_All.
Inductive OutputStatusFilter := OSF_Unspent | OSF_All.
#[global] Instance TxStatusFilter_eq_dec : EqDecision TxStatusFilter.
Proof. solve_decision. Defined.
#[global] Instance OutputStatusFilter_eq_dec : EqDecision OutputStatusFilter.
Proof. solve_decision. Defined.

(** The library's address request. *)
Record TransactionsInvolvingAddress := {
  tia_address : string; tia_start : Z; tia_end : option Z; tia_request_at : option Z;
  tia_tx_filter : TxStatusFilter; tia_output_filter : OutputStatusFilter;
}.
#[global] Instance TIA_eq_dec : EqDecision TransactionsInvolvingAddress.
Proof. solve_decision. Defined.

Inductive EnhanceRequest :=
  | GetStatus (txid : string)
  | Enhancement (txid : string)
  | AddressRequest (r : TransactionsInvolvingAddress).
#[global] Instance EnhanceRequest_eq_dec : EqDecision EnhanceRequest.
Proof. solve_decision. Defined.

Definition is_serviceable_request (req : EnhanceRequest) : bool :=
  match req with GetStatus _ | Enhancement _ | AddressRequest _ => true end.

Definition is_spend_search (r : TransactionsInvolvingAddress) : bool :=
  bool_decide (tia_tx_filter r = TSF_Mined) && bool_decide (tia_output_filter r = OSF_All).

Definition request_in_scope (req : EnhanceRequest) (fetch_memos : bool) (spending : list string) :
    bool :=
  is_serviceable_request req
  && match req with
     | Enhancement txid => fetch_memos || bool_decide (txid ∈ spending)
     | AddressRequest r => negb (is_spend_search r)
     | GetStatus _ => true
     end.

(** The filter of [outstanding_requests], with the set of requests already seen. *)
Fixpoint outstanding_from (seen requests satisfied : list EnhanceRequest) (fetch_memos : bool)
    (spending : list string) : list EnhanceRequest :=
  match requests with
  | [] => []
  | r :: rest =>
      if request_in_scope r fetch_memos spending && negb (bool_decide (r ∈ satisfied))
         && negb (bool_decide (r ∈ seen))
      then r :: outstanding_from (r :: seen) rest satisfied fetch_memos spending
      else outstanding_from seen rest satisfied fetch_memos spending
  end.
Definition outstanding_requests (requests satisfied : list EnhanceRequest) (fetch_memos : bool)
    (spending : list string) : list EnhanceRequest :=
  outstanding_from [] requests satisfied fetch_memos spending.

(** [tia_check_range]. *)
Definition tia_check_range (block_range_start chain_tip : Z) : option (Z * Z) :=
  let start := Z.max block_range_start 1 in
  if start <=? chain_tip then Some (start, chain_tip) else None.

(** ** The watermark *)

Definition enhanced_through (fully_scanned : Z) (lowest_pending : option Z) : Z :=
  match lowest_pending with
  | Some h => Z.min fully_scanned (sat_sub h 1)
  | None => fully_scanned
  end.

Definition ENHANCED_THROUGH_MAX_PROBE : Z := 2048.

(** [Iterator::min]. *)
Definition list_min (l : list Z) : option Z :=
  match l with [] => None | x :: rest => Some (foldl Z.min x rest) end.

(** ** The drain *)

(** The wallet database as the drain uses it. Work items say whether they are public; a failed
    read is [None]. *)
Class EnhanceDb := {
  edb : Type; etx : Type; evidence : Type;
  transaction_status_work : edb → option (list (bool * string));
  transaction_enhancement_work : edb → option (list (bool * string));
  transaction_data_requests : edb → option (list TransactionsInvolvingAddress);
  wallet_spending_txids : edb → option (list string);
  get_tx_height : edb → string → option Z;
  decrypt_and_store : edb → etx → option Z → option edb;
  notify_not_found : edb → string → option edb;
  set_transaction_status : edb → string → option (option Z) → option edb;
  notify_address_checked : edb → TransactionsInvolvingAddress → Z → option edb;
}.
(** What the upstream answers during one step. A fetch answers [Err] on a transport failure and
    [Ok None] for a transaction the upstream does not know; storing evidence fetches too, and says
    whether it succeeded and whether the client is still up. *)
Record Answers `{EnhanceDb} := {
  fetch_tx : string → result string (option (etx * option Z));
  address_evidence : string → Z → Z → option (list evidence);
  store_evidence : edb → list evidence → bool * bool * edb;
}.

Section drain.
Context `{ED : EnhanceDb}.

(** [enhance_requests]: the public work of the three sources. *)
Definition enhance_requests (d : edb) : option (list EnhanceRequest) :=
  status ← transaction_status_work d;
  payload ← transaction_enhancement_work d;
  data ← transaction_data_requests d;
  Some (((λ w, GetStatus w.2) <$> List.filter (λ w, w.1) status)
        ++ ((λ w, Enhancement w.2) <$> List.filter (λ w, w.1) payload)
        ++ (AddressRequest <$> data)).

(** [enhancement_request_height]. *)
Definition enhancement_request_height (d : edb) (req : EnhanceRequest) : option Z :=
  match req with
  | GetStatus txid | Enhancement txid => get_tx_height d txid
  | AddressRequest r => Some (tia_start r)
  end.

(** [summarize_backlog]: the count and the lowest height a request refers to. *)
Definition summarize_backlog (d : edb) (pending : list EnhanceRequest) : Z * option Z :=
  let count := Z.of_nat (length pending) in
  if count =? 0 then (0, None)
  else if ENHANCED_THROUGH_MAX_PROBE <? count then (count, Some 0)
  else (count, list_min (omap (enhancement_request_height d) pending)).

(** [spending_txids]: empty, unread, while memos are fetched. *)
Definition spending_txids (fetch_memos : bool) (d : edb) : list string :=
  if fetch_memos then [] else default [] (wallet_spending_txids d).

(** [enhancement_backlog]. *)
Definition enhancement_backlog (fetch_memos : bool) (d : edb) (satisfied : list EnhanceRequest) :
    Z * option Z :=
  match enhance_requests d with
  | None => (0, Some 0)
  | Some reqs =>
      summarize_backlog d
        (outstanding_requests reqs satisfied fetch_memos (spending_txids fetch_memos d))
  end.

(** The watermark [update_status] publishes. *)
Definition published_watermark (fetch_memos : bool) (fully_scanned lowest : option Z) : option Z :=
  if fetch_memos then (λ scanned, enhanced_through scanned lowest) <$> fully_scanned else None.

(** One fetched request of [apply_fetched_requests]. *)
Definition apply_fetched (d : edb) (w : EnhanceRequest * option (etx * option Z)) : option edb :=
  match w with
  | (Enhancement txid, Some (tx, mined)) => decrypt_and_store d tx mined
  | (Enhancement txid, None) => notify_not_found d txid
  | (GetStatus txid, None) => set_transaction_status d txid None
  | (GetStatus txid, Some (_, mined)) => set_transaction_status d txid (Some mined)
  | (AddressRequest _, _) => Some d
  end.
(** All or nothing: one database transaction. *)
Definition apply_fetched_requests (d : edb) (fetched : list (EnhanceRequest * option (etx * option Z))) :
    option edb :=
  foldl (λ d w, d ≫= λ d, apply_fetched d w) (Some d) fetched.

Context (world : Answers).

(** [service_address_request]: whether it succeeded, whether the client is still up - a failed
    query drops it -, and the database after it. *)
Definition service_address_request (chain_tip : Z) (d : edb) (r : TransactionsInvolvingAddress) :
    bool * bool * edb :=
  match tia_check_range (tia_start r) chain_tip with
  | None => (true, true, d)
  | Some (start, as_of) =>
      match address_evidence world (tia_address r) start as_of with
      | None => (false, false, d)
      | Some items =>
          match store_evidence world d items with
          | (false, up, d') => (false, up, d')
          | (true, up, d') =>
              match notify_address_checked d'
                      {| tia_address := tia_address r; tia_start := tia_start r;
                         tia_end := Some (wrap_u32 (as_of + 1));
                         tia_request_at := tia_request_at r; tia_tx_filter := tia_tx_filter r;
                         tia_output_filter := tia_output_filter r |} as_of with
              | Some d'' => (true, up, d'')
              | None => (false, up, d')
              end
          end
      end
  end.

(** What came back before the first transport failure, and whether there was one. *)
Fixpoint fetched_prefix (reqs : list EnhanceRequest) :
    list (EnhanceRequest * option (etx * option Z)) * bool :=
  match reqs with
  | [] => ([], false)
  | r :: rest =>
      match r with
      | GetStatus txid | Enhancement txid =>
          match fetch_tx world txid with
          | Ok found => let '(l, failed) := fetched_prefix rest in ((r, found) :: l, failed)
          | Err _ => ([], true)
          end
      | AddressRequest _ => fetched_prefix rest
      end
  end.

(** The state the drain threads: the database, the requests attempted in this drain in the order
    they were, and whether the client is up. *)
Record Drain := { dr_db : edb; dr_satisfied : list EnhanceRequest; dr_client : bool }.

(** The sequential address searches of a pass, until one fails or shutdown is signalled before
    it ([quit] of its index): the drain, how many were handled, and how it ended. *)
Inductive AddressEnd := AddressDone | AddressFailed | AddressShutdown.
Fixpoint service_addresses (chain_tip : Z) (quit : nat → bool) (i : nat)
    (reqs : list TransactionsInvolvingAddress) (d : Drain) : Drain * nat * AddressEnd :=
  match reqs with
  | [] => (d, O, AddressDone)
  | r :: rest =>
      if quit i then (d, O, AddressShutdown)
      else
        match service_address_request chain_tip (dr_db d) r with
        | (false, up, db') =>
            ({| dr_db := db'; dr_satisfied := dr_satisfied d; dr_client := dr_client d && up |},
             O, AddressFailed)
        | (true, up, db') =>
            let d := {| dr_db := db'; dr_satisfied := dr_satisfied d ++ [AddressRequest r];
                        dr_client := dr_client d && up |} in
            let '(d, n, e) := service_addresses chain_tip quit (S i) rest d in (d, S n, e)
        end
  end.

Definition is_txid_request (r : EnhanceRequest) : bool :=
  match r with AddressRequest _ => false | _ => true end.
Definition address_of (r : EnhanceRequest) : option TransactionsInvolvingAddress :=
  match r with AddressRequest a => Some a | _ => None end.

(** The requests [enhance_step] takes and the pass over them. *)
Definition pass_of (pending : list EnhanceRequest) (enhance_concurrency : nat) :
    list EnhanceRequest :=
  take (Nat.max enhance_concurrency 1) pending.

(** What a step returns: whether more is left to drive, and what it published: the backlog, or
    nothing when it left early. *)
Record StepResult := { sr_more : bool; sr_published : option (Z * option Z) }.

(** [enhance_step]. [quit] is what shutdown reads before the fetches (0) and before the i-th
    address search (i + 1). *)
Definition enhance_step (fetch_memos : bool) (enhance_concurrency : nat) (quit : nat → bool)
    (tip_height : option Z) (d : Drain) : StepResult * Drain :=
  let stop := {| sr_more := false; sr_published := None |} in
  match tip_height with
  | None => (stop, d)
  | Some tip =>
      if negb (dr_client d) then (stop, d)
      else
        match enhance_requests (dr_db d) with
        | None => (stop, d)
        | Some requests =>
            let pending := outstanding_requests requests (dr_satisfied d) fetch_memos
                             (spending_txids fetch_memos (dr_db d)) in
            let pass := pass_of pending enhance_concurrency in
            if quit O then (stop, d)
            else
              let '(to_apply, failed) := fetched_prefix (List.filter is_txid_request pass) in
              let '(d1, handled, aborted) :=
                match apply_fetched_requests (dr_db d) to_apply with
                | Some db' =>
                    ({| dr_db := db'; dr_satisfied := dr_satisfied d ++ to_apply.*1;
                        dr_client := dr_client d && negb failed |}, length to_apply, failed)
                | None =>
                    ({| dr_db := dr_db d; dr_satisfied := dr_satisfied d;
                        dr_client := dr_client d && negb failed |}, O, true)
                end in
              let '(d2, n, ended) :=
                if (aborted : bool) then (d1, O, AddressFailed)
                else service_addresses tip quit 1 (omap address_of pass) d1 in
              match ended with
              | AddressShutdown => (stop, d2)
              | AddressFailed =>
                  ({| sr_more := false;
                      sr_published := Some (enhancement_backlog fetch_memos (dr_db d2)
                                              (dr_satisfied d2)) |}, d2)
              | AddressDone =>
                  let remaining :=
                    List.filter (λ r, negb (bool_decide (r ∈ dr_satisfied d2))) pending in
                  let published :=
                    match remaining with
                    | [] => enhancement_backlog fetch_memos (dr_db d2) (dr_satisfied d2)
                    | _ => summarize_backlog (dr_db d2) remaining
                    end in
                  ({| sr_more := (handled + n <? length pending)%nat;
                      sr_published := Some published |}, d2)
              end
        end
  end.
End drain.
