(* ===== verification/EnhanceSpec.v ===== *)
(** * EnhanceSpec: what the enhancement drain guarantees

    A drain services each request at most once for each clean slate, and ends; what it publishes
    never hides work; the watermark never passes a request still pending. *)

From S2P Require Export Enhance UpstreamSpec.

(** ** The outstanding requests *)

Lemma outstanding_from_spec seen reqs sat fm sp r :
  r ∈ outstanding_from seen reqs sat fm sp ↔
  r ∈ reqs ∧ request_in_scope r fm sp = true ∧ r ∉ sat ∧ r ∉ seen.
Proof.
  revert seen. induction reqs as [|x reqs IH]; intros seen; simpl; [set_solver|].
  destruct (request_in_scope x fm sp && negb (bool_decide (x ∈ sat)) && negb (bool_decide (x ∈ seen)))
    eqn:E.
  - rewrite !andb_true_iff, !negb_true_iff, !bool_decide_eq_false in E. destruct E as [[? ?] ?].
    rewrite elem_of_cons, IH. destruct (decide (r = x)) as [->|]; set_solver.
  - rewrite IH. rewrite !andb_false_iff, !negb_false_iff, !bool_decide_eq_true in E.
    split; [set_solver|]. intros ([->|?]%elem_of_cons & H1 & H2 & H3); [|done].
    destruct E as [[E|E]|E]; congruence || done.
Qed.

Lemma outstanding_from_nodup seen reqs sat fm sp : NoDup (outstanding_from seen reqs sat fm sp).
Proof.
  revert seen. induction reqs as [|x reqs IH]; intros seen; simpl; [constructor|].
  case_match; [|done]. constructor; [|done]. rewrite outstanding_from_spec. set_solver.
Qed.

Lemma outstanding_spec reqs sat fm sp r :
  r ∈ outstanding_requests reqs sat fm sp ↔
  r ∈ reqs ∧ request_in_scope r fm sp = true ∧ r ∉ sat.
Proof. unfold outstanding_requests. rewrite outstanding_from_spec. set_solver. Qed.

Section drain.
Context `{ED : EnhanceDb}.

(** ** One pass *)

Section pass.
Context (world : Answers).
#[local] Abbreviation fetched_prefix := (fetched_prefix world).
#[local] Abbreviation service_addresses := (service_addresses world).
#[local] Abbreviation service_address_request := (service_address_request world).
#[local] Abbreviation enhance_step := (enhance_step world).

Lemma prefix_sublist reqs l failed : fetched_prefix reqs = (l, failed) → l.*1 `sublist_of` reqs.
Proof.
  revert l failed. induction reqs as [|r reqs IH]; intros l failed; simpl.
  { intros [= <- _]. constructor. }
  destruct r as [txid|txid|a]; [destruct (fetch_tx world txid) as [found|e]..|].
  2, 4: intros [= <- _]; apply sublist_nil_l.
  1, 2: destruct (fetched_prefix reqs) as [l' f]; intros [= <- _]; simpl; constructor; by eapply IH.
  intros E. constructor. by eapply IH.
Qed.

Lemma prefix_all reqs l :
  fetched_prefix reqs = (l, false) → forallb is_txid_request reqs = true → l.*1 = reqs.
Proof.
  revert l. induction reqs as [|r reqs IH]; intros l; simpl.
  { by intros [= <-]. }
  destruct r as [txid|txid|a]; [destruct (fetch_tx world txid) as [found|e]..|]; try done.
  all: destruct (fetched_prefix reqs) as [l' f]; intros [= <- ->] H; csimpl; f_equal; by apply IH.
Qed.

Lemma addresses_spec tip quit i reqs d d' n e :
  service_addresses tip quit i reqs d = (d', n, e) →
  ∃ done, dr_satisfied d' = dr_satisfied d ++ (AddressRequest <$> done) ∧ n = length done ∧
    done `sublist_of` reqs ∧ (e = AddressDone → done = reqs).
Proof.
  revert i d d' n e. induction reqs as [|r reqs IH]; intros i d d' n e; simpl.
  { intros [= <- <- <-]. exists []. by rewrite app_nil_r. }
  destruct (quit i).
  { intros [= <- <- <-]. exists []. rewrite app_nil_r. split_and!; try done. apply sublist_nil_l. }
  destruct (service_address_request tip (dr_db d) r) as [[[|] up] db'].
  - destruct (service_addresses _ _ _ _ _) as [[d1 n1] e1] eqn:E. intros [= <- <- <-].
    destruct (IH _ _ _ _ _ E) as (l & H1 & -> & H3 & H4). exists (r :: l).
    rewrite H1. simpl. rewrite <- app_assoc. split_and!; [done|done|by constructor|].
    intros He. f_equal. by apply H4.
  - intros [= <- <- <-]. exists []. simpl. rewrite app_nil_r. split_and!; try done.
    apply sublist_nil_l.
Qed.

Lemma omap_address_fmap l :
  AddressRequest <$> omap address_of l = List.filter (λ r, negb (is_txid_request r)) l.
Proof. induction l as [|[] l IH]; csimpl; congruence. Qed.

Lemma split_pass (l : list EnhanceRequest) :
  List.filter is_txid_request l ++ List.filter (λ r, negb (is_txid_request r)) l ≡ₚ l.
Proof.
  induction l as [|x l IH]; simpl; [done|]. destruct (is_txid_request x); simpl.
  - by rewrite IH.
  - by rewrite <- Permutation_middle, IH.
Qed.

Lemma sublist_map {A B} (f : A → B) l k : l `sublist_of` k → (f <$> l) `sublist_of` (f <$> k).
Proof. induction 1; csimpl; by constructor. Qed.

(** What a step attempts, in terms of the requests it read. *)
Lemma step_spec fm k quit tip d res d' :
  enhance_step fm k quit tip d = (res, d') →
  ∃ new, dr_satisfied d' = dr_satisfied d ++ new ∧
    (new = [] ∧ sr_more res = false ∨
     ∃ reqs, enhance_requests (dr_db d) = Some reqs ∧
       let pending := outstanding_requests reqs (dr_satisfied d) fm
                        (spending_txids fm (dr_db d)) in
       NoDup new ∧ (∀ r, r ∈ new → r ∈ pending) ∧
       (sr_more res = true → length new = Nat.max k 1)).
Proof.
  unfold Enhance.enhance_step. destruct tip as [tip|]; [|intros [= <- <-]; exists []; rewrite app_nil_r; auto].
  destruct (dr_client d); cbn [negb]; [|intros [= <- <-]; exists []; rewrite app_nil_r; auto].
  destruct (enhance_requests (dr_db d)) as [reqs|];
    [|intros [= <- <-]; exists []; rewrite app_nil_r; auto].
  set (pending := outstanding_requests _ _ _ _). set (pass := pass_of pending k).
  destruct (quit O); [intros [= <- <-]; exists []; rewrite app_nil_r; auto|].
  destruct (fetched_prefix _) as [to_apply failed] eqn:Ef.
  pose proof (prefix_sublist _ _ _ Ef) as Hsub.
  assert (NoDup pass) as Hnd.
  { apply (sublist_NoDup _ pending); [apply outstanding_from_nodup|apply sublist_take]. }
  assert (∀ r, r ∈ pass → r ∈ pending) as Hin.
  { intros r Hr. eapply elem_of_sublist; [exact Hr|apply sublist_take]. }
  assert (∀ l1 l2, l1 `sublist_of` List.filter is_txid_request pass →
            l2 `sublist_of` List.filter (λ r, negb (is_txid_request r)) pass →
            NoDup (l1 ++ l2) ∧ ∀ r, r ∈ l1 ++ l2 → r ∈ pending) as Hnew.
  { intros l1 l2 H1 H2. assert (l1 ++ l2 `sublist_of` List.filter is_txid_request pass ++
      List.filter (λ r, negb (is_txid_request r)) pass) as Hs by (by apply sublist_app).
    split.
    - eapply sublist_NoDup; [|exact Hs]. by rewrite split_pass.
    - intros r Hr. apply Hin. rewrite <- split_pass. by eapply elem_of_sublist. }
  destruct (apply_fetched_requests (dr_db d) to_apply) as [db'|].
  2: { intros [= <- <-]. exists []. rewrite app_nil_r. auto. }
  destruct failed.
  { intros [= <- <-]. exists (to_apply.*1). split; [done|]. right. exists reqs. split; [done|].
    destruct (Hnew (to_apply.*1) [] Hsub (sublist_nil_l _)) as [H1 H2]. rewrite app_nil_r in H1, H2.
    done. }
  destruct (service_addresses _ _ _ _ _) as [[d2 n] ended] eqn:Es.
  destruct (addresses_spec _ _ _ _ _ _ _ _ Es) as (l & Hs & -> & Hl & Hend). simpl in Hs.
  intros Hres. exists (to_apply.*1 ++ (AddressRequest <$> l)).
  assert (d' = d2) as -> by (destruct ended; by simplify_eq).
  split; [by rewrite Hs, app_assoc|]. right. exists reqs. split; [done|].
  destruct (Hnew (to_apply.*1) (AddressRequest <$> l) Hsub) as [H1 H2].
  { rewrite <- omap_address_fmap. by apply sublist_map. }
  split; [done|]. split; [done|]. intros Hmore.
  destruct ended; simplify_eq/=. rewrite Hend by done.
  rewrite (prefix_all _ _ Ef), omap_address_fmap.
  2: { apply forallb_forall. intros r Hr. by apply filter_In in Hr as [_ ?]. }
  rewrite Hend in Hmore by done. rewrite (Permutation_length (split_pass pass)).
  apply Nat.ltb_lt in Hmore. unfold pass, pass_of in *. rewrite length_take.
  assert (length to_apply + length (omap address_of (take (Nat.max k 1) pending)) =
          length (take (Nat.max k 1) pending))%nat as E.
  { rewrite <- (Permutation_length (split_pass (take _ pending))), length_app,
      <- omap_address_fmap, length_fmap, <- (prefix_all _ _ Ef), length_fmap; [done|].
    apply forallb_forall. intros r Hr. by apply filter_In in Hr as [_ ?]. }
  rewrite E, length_take in Hmore. lia.
Qed.

End pass.

(** ** A whole drain *)

(** A turn of the actor's loop, as the drain sees it: a pass that scanned new blocks, which starts
    the drain from a clean slate, or one that found the wallet caught up, which drives a step. *)
Inductive DrainTurn := NewBlocks | CaughtUpStep.
(** What happens at each turn: which it is; what other work does to the database and the connection
    before it; and the upstream's answers, shutdown readings and tip of its step. *)
Record Schedule := {
  sc_turn : nat → DrainTurn; sc_others : nat → edb → bool → edb * bool; sc_world : nat → Answers;
  sc_quit : nat → nat → bool; sc_tip : nat → option Z;
}.
(** The loop while more is left: the drain it ends in, or [None] when it is still going as the fuel
    ends. *)
Fixpoint drive (fm : bool) (k : nat) (sc : Schedule) (fuel i : nat) (d : Drain) : option Drain :=
  match fuel with
  | O => None
  | S fuel =>
      let '(db', up) := sc_others sc i (dr_db d) (dr_client d) in
      match sc_turn sc i with
      | NewBlocks => drive fm k sc fuel (S i) {| dr_db := db'; dr_satisfied := []; dr_client := up |}
      | CaughtUpStep =>
          let '(res, d') := enhance_step (sc_world sc i) fm k (sc_quit sc i) (sc_tip sc i)
                              {| dr_db := db'; dr_satisfied := dr_satisfied d; dr_client := up |} in
          if sr_more res then drive fm k sc fuel (S i) d' else Some d'
      end
  end.

(** What a step adds to the requests serviced since the slate was clean. *)
Lemma step_serviced (universe : list EnhanceRequest) world fm k quit tip d res d' :
  (∀ e reqs, enhance_requests e = Some reqs → ∀ r, r ∈ reqs → r ∈ universe) →
  enhance_step world fm k quit tip d = (res, d') →
  ∃ new, dr_satisfied d' = dr_satisfied d ++ new ∧ NoDup new ∧
    (∀ r, r ∈ new → r ∈ universe ∧ r ∉ dr_satisfied d) ∧ (sr_more res = true → (0 < length new)%nat).
Proof.
  intros Hu Hstep. destruct (step_spec world _ _ _ _ _ _ _ Hstep) as (new & Hs & [[-> Hm]|(reqs & Hr & Hn & Hp & Hm)]).
  { exists []. rewrite Hm. split_and!; [done|constructor|set_solver|done]. }
  exists new. split_and!; [done|done| |].
  - intros r Hin. apply Hp, outstanding_spec in Hin as (? & _ & ?). eauto.
  - intros H. rewrite (Hm H). lia.
Qed.

(** The turns that scan new blocks, from one on. *)
Fixpoint slates (sc : Schedule) (n i : nat) : nat :=
  match n with
  | O => 0
  | S n => (match sc_turn sc i with NewBlocks => 1 | CaughtUpStep => 0 end + slates sc n (S i))%nat
  end.
(** The requests of the universe not yet serviced. *)
Definition unserviced (universe satisfied : list EnhanceRequest) : nat :=
  length (List.filter (λ r, negb (bool_decide (r ∈ satisfied))) universe).
Lemma unserviced_le (universe sat : list EnhanceRequest) : (unserviced universe sat ≤ length universe)%nat.
Proof. apply filter_length_le. Qed.
Lemma unserviced_app (universe sat new : list EnhanceRequest) :
  NoDup new → (∀ r, r ∈ new → r ∈ universe ∧ r ∉ sat) → (unserviced universe (sat ++ new) + length new ≤ unserviced universe sat)%nat.
Proof.
  revert sat. induction new as [|x new IH]; intros sat Hn Hin; [rewrite app_nil_r; simpl; lia|].
  apply NoDup_cons in Hn as [Hx Hn]. destruct (Hin x ltac:(by left)) as [Hxu Hxs].
  specialize (IH (sat ++ [x]) Hn). rewrite <- app_assoc in IH. simpl in IH |- *.
  assert (unserviced universe (sat ++ [x]) + 1 ≤ unserviced universe sat)%nat as Hlt.
  { clear IH Hin Hn Hx new. unfold unserviced. induction universe as [|y u IH]; [by apply elem_of_nil in Hxu|]. simpl.
    assert (length (List.filter (λ r, negb (bool_decide (r ∈ sat ++ [x]))) u)
            ≤ length (List.filter (λ r, negb (bool_decide (r ∈ sat))) u))%nat as Hle.
    { clear. induction u as [|z u IH]; [done|]. simpl.
      destruct (bool_decide_reflect (z ∈ sat ++ [x])), (bool_decide_reflect (z ∈ sat)); simpl; set_solver || lia. }
    apply elem_of_cons in Hxu as [<-|Hxu].
    - rewrite (bool_decide_eq_true_2 (x ∈ sat ++ [x])) by set_solver. rewrite (bool_decide_eq_false_2 (x ∈ sat)) by done.
      simpl. lia.
    - specialize (IH Hxu).
      destruct (bool_decide_reflect (y ∈ sat ++ [x])), (bool_decide_reflect (y ∈ sat)); simpl; set_solver || lia. }
  assert (unserviced universe (sat ++ x :: new) + length new ≤ unserviced universe (sat ++ [x]))%nat; [|lia].
  apply IH. intros r Hr. destruct (Hin r ltac:(by right)). split; [done|]. set_solver.
Qed.

(** C32. A drain services each request at most once and ends. Whatever the actor has serviced before,
    whatever other work does to the database and the connection between turns, whatever the upstream
    answers in each step, however large a pass is and whatever fails: when the requests the database
    can hold are among [n], and at most [w] of the turns to come scan new blocks, which start it
    over, the drain ends within [n + 1] turns more for each slate; and what it has serviced since
    its last clean slate it serviced once, the rest being what had been serviced before. *)
Theorem drain_ends (universe : list EnhanceRequest) (fm : bool) (k : nat) (sc : Schedule) (w : nat) (d : Drain) :
  (∀ e reqs, enhance_requests e = Some reqs → ∀ r, r ∈ reqs → r ∈ universe) →
  let turns := (S w * S (length universe))%nat in
  (slates sc turns 0 ≤ w)%nat →
  ∃ d' before new, drive fm k sc turns 0 d = Some d' ∧ dr_satisfied d' = before ++ new ∧
    (before = dr_satisfied d ∨ before = []) ∧ NoDup new ∧ ∀ r, r ∈ new → r ∈ universe ∧ r ∉ before.
Proof.
  intros Hu turns Hw.
  assert (∀ fuel i w before new db up,
    (slates sc fuel i ≤ w)%nat → (w * S (length universe) + unserviced universe (before ++ new) < fuel)%nat →
    NoDup new → (∀ r, r ∈ new → r ∈ universe ∧ r ∉ before) → (before = dr_satisfied d ∨ before = []) →
    ∃ d' before' new', drive fm k sc fuel i {| dr_db := db; dr_satisfied := before ++ new; dr_client := up |} = Some d' ∧
      dr_satisfied d' = before' ++ new' ∧ (before' = dr_satisfied d ∨ before' = []) ∧ NoDup new' ∧
      ∀ r, r ∈ new' → r ∈ universe ∧ r ∉ before') as Hgen.
  { clear turns Hw w. induction fuel as [|fuel IH]; intros i w before new db up Hw Hf Hn Hin Hb; [lia|].
    cbn [drive slates] in *. destruct (sc_others sc i _ _) as [db' up']. destruct (sc_turn sc i).
    - destruct w as [|w]; [lia|]. apply (IH (S i) w [] []); [lia| |constructor|set_solver|by right].
      pose proof (unserviced_le universe []). simpl in *. lia.
    - destruct (enhance_step _ fm k _ _ _) as [res d1] eqn:E.
      destruct (step_serviced universe _ _ _ _ _ _ _ _ Hu E) as (more & Hs & Hnm & Him & Hpos). cbn [dr_satisfied] in Hs, Him.
      rewrite <- app_assoc in Hs.
      assert (NoDup (new ++ more)) as Hn2.
      { apply NoDup_app. split_and!; [done| |done]. intros r H1 H2. apply Him in H2. set_solver. }
      assert (∀ r, r ∈ new ++ more → r ∈ universe ∧ r ∉ before) as Hin2.
      { intros r [Hr|Hr]%elem_of_app; [by apply Hin|]. apply Him in Hr. set_solver. }
      destruct (sr_more res).
      + destruct d1 as [db1 sat1 up1]. cbn in Hs. subst sat1. apply (IH (S i) w); [lia| |done..].
        pose proof (unserviced_app universe (before ++ new) more Hnm Him) as Hlt. rewrite <- app_assoc in Hlt.
        specialize (Hpos eq_refl). lia.
      + exists d1, before, (new ++ more). done. }
  destruct d as [db sat up]. cbn [dr_satisfied] in *.
  destruct (Hgen turns 0%nat w sat [] db up) as (d' & before & new & H1 & H2); [done| |constructor|set_solver|by left|].
  - rewrite app_nil_r. pose proof (unserviced_le universe sat). unfold turns. lia.
  - rewrite app_nil_r in H1. eauto.
Qed.

(** ** What is published *)

(** The requests outstanding at a state, when they can be read. *)
Definition outstanding_at (fm : bool) (d : Drain) : option (list EnhanceRequest) :=
  (λ reqs, outstanding_requests reqs (dr_satisfied d) fm (spending_txids fm (dr_db d)))
  <$> enhance_requests (dr_db d).

Lemma list_min_le l x m : list_min l = Some m → x ∈ l → m ≤ x.
Proof.
  destruct l as [|y l]; [done|]. simpl. intros [= <-]. revert y.
  induction l as [|z l IH]; intros y; simpl.
  - intros ->%list_elem_of_singleton. lia.
  - assert (∀ a l, foldl Z.min a l ≤ a) as Hle.
    { clear. intros a l. revert a. induction l as [|b l IH]; intros a; simpl; [lia|].
      specialize (IH (Z.min a b)). lia. }
    intros [->|[->|Hx]%elem_of_cons]%elem_of_cons.
    + specialize (Hle (Z.min y z) l). lia.
    + specialize (Hle (Z.min y z) l). lia.
    + apply IH. by apply elem_of_cons; right.
Qed.

(** The lowest height stands below every pending request that refers to one. *)
Lemma backlog_lowest d pending r h :
  r ∈ pending → enhancement_request_height d r = Some h → 0 ≤ h →
  ∃ low, (summarize_backlog d pending).2 = Some low ∧ low ≤ h.
Proof.
  intros Hr Hh Hpos. unfold summarize_backlog.
  destruct (Z.eqb_spec (Z.of_nat (length pending)) 0) as [E|E].
  { destruct pending; [by apply elem_of_nil in Hr|done]. }
  destruct (_ <? _); simpl; [by exists 0|].
  assert (h ∈ omap (enhancement_request_height d) pending) as Hin.
  { apply list_elem_of_omap. eauto. }
  destruct (list_min (omap _ _)) as [low|] eqn:El.
  - exists low. split; [done|]. by eapply list_min_le.
  - by destruct (omap (enhancement_request_height d) pending); [apply elem_of_nil in Hin|].
Qed.

(** A published backlog of none is a fresh read that found none, or that failed. *)
Lemma backlog_spec fm d sat count lowest :
  enhancement_backlog fm d sat = (count, lowest) →
  (enhance_requests d = None ∧ count = 0 ∧ lowest = Some 0) ∨
  ∃ reqs, enhance_requests d = Some reqs ∧
    summarize_backlog d (outstanding_requests reqs sat fm (spending_txids fm d)) = (count, lowest).
Proof.
  unfold enhancement_backlog. destruct (enhance_requests d) as [reqs|]; [|intros [= <- <-]; auto].
  eauto.
Qed.
Lemma summarize_count d pending : (summarize_backlog d pending).1 = Z.of_nat (length pending).
Proof. unfold summarize_backlog. destruct (Z.eqb_spec (Z.of_nat (length pending)) 0); [done|]. by case_match. Qed.

(** What a step publishes: a fresh backlog, or the requests it read and did not attempt. *)
Lemma step_publishes world fm k quit tip d res d' p :
  enhance_step world fm k quit tip d = (res, d') → sr_published res = Some p →
  (sr_more res = false ∧ p = enhancement_backlog fm (dr_db d') (dr_satisfied d')) ∨
  ∃ reqs, enhance_requests (dr_db d) = Some reqs ∧
    let remaining := List.filter (λ r, negb (bool_decide (r ∈ dr_satisfied d')))
          (outstanding_requests reqs (dr_satisfied d) fm (spending_txids fm (dr_db d))) in
    p = summarize_backlog (dr_db d') remaining ∧ remaining ≠ [].
Proof.
  unfold enhance_step. destruct tip as [tip|]; [|by intros [= <- <-]].
  destruct (dr_client d); cbn [negb]; [|by intros [= <- <-]].
  destruct (enhance_requests (dr_db d)) as [reqs|]; [|by intros [= <- <-]].
  set (pending := outstanding_requests _ _ _ _). set (pass := pass_of pending k).
  destruct (quit O); [by intros [= <- <-]|].
  destruct (fetched_prefix _ _) as [to_apply failed].
  destruct (apply_fetched_requests (dr_db d) to_apply) as [db'|].
  2: { intros [= <- <-] [= <-]. by left. }
  destruct failed; [intros [= <- <-] [= <-]; by left|].
  destruct (service_addresses _ _ _ _ _ _) as [[d2 n] ended] eqn:Es.
  destruct (addresses_spec _ _ _ _ _ _ _ _ _ Es) as (l & Hs & -> & _ & _). simpl in Hs.
  destruct ended; intros [= <- <-]; simpl; intros [= <-]; [|by left].
  destruct (List.filter _ pending) as [|r0 rem] eqn:Er; [left; split; [|done]|right; eauto].
  - apply Nat.ltb_ge. rewrite <- (length_fmap AddressRequest l), <- (length_fmap fst to_apply),
      <- length_app.
    apply submseteq_length, NoDup_submseteq; [apply outstanding_from_nodup|]. intros r Hr.
    assert (r ∈ dr_satisfied d2) as Hin.
    { apply dec_stable. intros Hn.
      assert (In r (List.filter (λ r, negb (bool_decide (r ∈ dr_satisfied d2))) pending)) as H.
      { apply filter_In. split; [by apply list_elem_of_In|]. by rewrite bool_decide_eq_false_2. }
      by rewrite Er in H. }
    apply outstanding_spec in Hr as (_ & _ & Hr). rewrite Hs, <- app_assoc in Hin.
    by apply elem_of_app in Hin as [?|?].
  - exists reqs. split; [done|]. fold pending. by rewrite Er.
Qed.

(** What the drain publishes never hides work. A step that publishes an empty backlog has
    left nothing outstanding that a read of the database it leaves can see, its own stores'
    requests included, and a failed read publishes the lowest watermark instead of none; a step
    that asks to be driven again published what is left; and the watermark made of a published
    backlog is never above the scanned height and stands below every height a request refers
    to that was outstanding when the step began and still is. *)
Theorem published_never_hides_work (world : Answers) (fm : bool) (k : nat) (quit : nat → bool) (tip : option Z)
    (d d' : Drain) (res : StepResult) (count : Z) (lowest : option Z) :
  enhance_step world fm k quit tip d = (res, d') → sr_published res = Some (count, lowest) →
  (count = 0 → outstanding_at fm d' = Some [] ∨ outstanding_at fm d' = None ∧ lowest = Some 0) ∧
  (sr_more res = true → 0 < count) ∧
  ∀ scanned w, published_watermark fm (Some scanned) lowest = Some w →
    w ≤ scanned ∧
    ∀ before after r h, outstanding_at fm d = Some before → outstanding_at fm d' = Some after →
      r ∈ before → r ∈ after → enhancement_request_height (dr_db d') r = Some h → 0 < h → w < h.
Proof.
  intros Hstep Hp. unfold outstanding_at.
  assert (∀ pending scanned w r h, (summarize_backlog (dr_db d') pending).2 = lowest →
    published_watermark fm (Some scanned) lowest = Some w → r ∈ pending →
    enhancement_request_height (dr_db d') r = Some h → 0 < h → w < h) as Hw.
  { intros pending scanned w r h Hl Hw Hr Hh Hpos. unfold published_watermark in Hw.
    destruct fm; [|done]. destruct (backlog_lowest (dr_db d') _ _ _ Hr Hh) as (low & E & Hle); [lia|].
    rewrite E in Hl. subst lowest. simplify_eq/=. unfold sat_sub. lia. }
  assert (∀ scanned w, published_watermark fm (Some scanned) lowest = Some w → w ≤ scanned) as Hsc.
  { unfold published_watermark, enhanced_through. intros scanned w. destruct fm; [|done].
    destruct lowest; intros [= <-]; lia. }
  destruct (step_publishes _ _ _ _ _ _ _ _ _ Hstep Hp) as [[Hm E]|(reqs & Hr & E & Hne)].
  - symmetry in E. apply backlog_spec in E as [(Hn & -> & ->)|(reqs & Hr & E)].
    + rewrite Hn. split_and!; [by right|by rewrite Hm|]. intros scanned w H. by split; [eapply Hsc|].
    + rewrite Hr. assert (count = (summarize_backlog (dr_db d') (outstanding_requests reqs
        (dr_satisfied d') fm (spending_txids fm (dr_db d')))).1) as -> by (by rewrite E).
      rewrite summarize_count. split_and!; [|by rewrite Hm|].
      * intros H. left. simpl. f_equal. apply length_zero_iff_nil. lia.
      * intros scanned w H. split; [by eapply Hsc|]. intros before after r h _ [= <-] _ Hin.
        eapply Hw; [by rewrite E|done..].
  - set (rem := List.filter _ _) in *.
    assert (count = Z.of_nat (length rem)) as -> by (by rewrite <- (summarize_count (dr_db d')), <- E).
    assert (0 < Z.of_nat (length rem)) by (destruct rem; simpl in *; [done|lia]).
    split_and!; [lia|done|]. intros scanned w H'. split; [by eapply Hsc|].
    rewrite Hr. intros before after r h [= <-] Ha Hin Hin'. eapply Hw; [by rewrite <- E|done|].
    apply list_elem_of_In, filter_In. split; [by apply list_elem_of_In|].
    destruct (enhance_requests (dr_db d')); [|done]. injection Ha as <-.
    apply outstanding_spec in Hin' as (_ & _ & Hin'). by rewrite bool_decide_eq_false_2.
Qed.
End drain.

(** ** A concrete wallet *)

(** Two enhancement requests are open; storing the second transaction enqueues its parent, whose
    store answers it. The database is which of these states it is in. *)
Module EnhanceExample.
Inductive ex_state := ExStart | ExFirst | ExParent | ExIdle.
Definition ex_open (d : ex_state) : list string :=
  match d with
  | ExStart => ["a"; "b"] | ExFirst => ["b"] | ExParent => ["p"] | ExIdle => []
  end%string.
Definition ex_store (d : ex_state) : ex_state :=
  match d with ExStart => ExFirst | ExFirst => ExParent | _ => ExIdle end.
#[export] Instance ex_db : EnhanceDb := {|
  edb := ex_state; etx := string; evidence := unit;
  transaction_status_work _ := Some [];
  transaction_enhancement_work d := Some (pair true <$> ex_open d);
  transaction_data_requests _ := Some [];
  wallet_spending_txids _ := Some [];
  get_tx_height _ txid := Some (if bool_decide (txid = "p"%string) then 90 else 120);
  decrypt_and_store d _ _ := Some (ex_store d);
  notify_not_found d _ := Some d;
  set_transaction_status d _ _ := Some d;
  notify_address_checked d _ _ := Some d;
|}.
Definition ex_world : Answers :=
  {| fetch_tx txid := Ok (Some (txid : etx, None)); address_evidence _ _ _ := Some [];
     store_evidence d _ := (true, true, d) |}.
(** New blocks at the second turn; caught up at the others. *)
Definition ex_schedule : Schedule :=
  {| sc_turn i := if (i =? 1)%nat then NewBlocks else CaughtUpStep; sc_others _ e up := (e, up);
     sc_world _ := ex_world; sc_quit _ _ := false; sc_tip _ := Some 200 |}.
Definition ex_drain : Drain := {| dr_db := ExStart; dr_satisfied := []; dr_client := true |}.
Definition ex_late : Drain :=
  {| dr_db := ExFirst; dr_satisfied := [Enhancement "a"]; dr_client := true |}.
Definition ex_universe : list EnhanceRequest := Enhancement <$> ["a"; "b"; "p"]%string.
End EnhanceExample.

Example drain_ends_witness :
  let db := EnhanceExample.ex_db in
  ∃ d' before new, drive true 1 EnhanceExample.ex_schedule 8 0 EnhanceExample.ex_drain = Some d' ∧
    dr_satisfied d' = before ++ new ∧ NoDup new.
Proof.
  destruct (drain_ends EnhanceExample.ex_universe true 1 EnhanceExample.ex_schedule 1 EnhanceExample.ex_drain)
    as (d' & before & new & H1 & H2 & _ & H3 & _).
  - intros e reqs H r Hr. cbn in H. injection H as <-.
    destruct e; cbn in Hr; repeat apply elem_of_cons in Hr as [->|Hr]; try by apply elem_of_nil in Hr.
    all: apply list_elem_of_In; simpl; auto.
  - vm_compute. lia.
  - exists d', before, new. split; [exact H1|]. by split.
Defined.

(** The last step: the parent's request, enqueued by the store before, is the backlog. *)
Example published_never_hides_work_witness :
  let db := EnhanceExample.ex_db in
  let d := EnhanceExample.ex_late in
  let '(res, d') := enhance_step EnhanceExample.ex_world true 1 (λ _, false) (Some 200) d in
  sr_published res = Some (1, Some 90) ∧ sr_more res = false ∧
  ((1 = 0 → outstanding_at true d' = Some [] ∨ outstanding_at true d' = None ∧ Some 90 = Some 0) ∧
   (sr_more res = true → 0 < 1) ∧
   ∀ scanned w, published_watermark true (Some scanned) (Some 90) = Some w →
     w ≤ scanned ∧
     ∀ before after r h, outstanding_at true d = Some before → outstanding_at true d' = Some after →
       r ∈ before → r ∈ after → enhancement_request_height (dr_db d') r = Some h → 0 < h → w < h).
Proof.
  split; [reflexivity|]. split; [reflexivity|].
  exact (published_never_hides_work EnhanceExample.ex_world true 1 (λ _, false) (Some 200) _ _ _ 1 (Some 90)
           (surjective_pairing (enhance_step EnhanceExample.ex_world true 1 (λ _, false) (Some 200) EnhanceExample.ex_late))
           eq_refl).
Defined.
