(* ===== verification/Status.v ===== *)
(** * Status: what a wallet publishes about itself ([src/src/wallet/mod.rs],
      [src/src/wallet/actor.rs])

    The snapshot of the sync state, how the actor computes it, the running totals, and the
    registry of loaded wallets every RPC resolves its wallet in. *)

From S2P Require Export Enhance Engine Spend.
From Stdlib Require Export QArith.QArith QArith.Qminmax.
#[global] Open Scope Z_scope.

(** ** The snapshot *)

Inductive ConnState := CS_Down | CS_Syncing | CS_Ready.
#[global] Instance ConnState_eq_dec : EqDecision ConnState.
Proof. solve_decision. Defined.
Definition conn_state_str (c : ConnState) : string :=
  match c with CS_Down => "down" | CS_Syncing => "syncing" | CS_Ready => "ready" end.

(** Durations are in milliseconds, as every consumer reads them. *)
Record BatchTimings := {
  bt_download : Z; bt_tree_state : Z; bt_scan : Z; bt_transparent : Z;
  bt_prefetch_hit : bool; bt_shape : RangeShape;
}.

Record SyncTotals := {
  st_batches : Z; st_blocks : Z; st_bytes : Z; st_txs : Z; st_sapling_outputs : Z;
  st_orchard_actions : Z; st_download_ms : Z; st_tree_state_ms : Z; st_scan_ms : Z;
  st_transparent_ms : Z;
}.
Definition totals_zero : SyncTotals :=
  {| st_batches := 0; st_blocks := 0; st_bytes := 0; st_txs := 0; st_sapling_outputs := 0;
     st_orchard_actions := 0; st_download_ms := 0; st_tree_state_ms := 0; st_scan_ms := 0;
     st_transparent_ms := 0 |}.

Definition totals_add (s : SyncTotals) (t : BatchTimings) : SyncTotals :=
  {| st_batches := wrap_u64 (st_batches s + 1);
     st_blocks := wrap_u64 (st_blocks s + sh_blocks (bt_shape t));
     st_bytes := wrap_u64 (st_bytes s + sh_bytes (bt_shape t));
     st_txs := wrap_u64 (st_txs s + sh_txs (bt_shape t));
     st_sapling_outputs := wrap_u64 (st_sapling_outputs s + sh_sapling_outputs (bt_shape t));
     st_orchard_actions := wrap_u64 (st_orchard_actions s + sh_orchard_actions (bt_shape t));
     st_download_ms := wrap_u64 (st_download_ms s + wrap_u64 (bt_download t));
     st_tree_state_ms := wrap_u64 (st_tree_state_ms s + wrap_u64 (bt_tree_state t));
     st_scan_ms := wrap_u64 (st_scan_ms s + wrap_u64 (bt_scan t));
     st_transparent_ms := wrap_u64 (st_transparent_ms s + wrap_u64 (bt_transparent t)) |}.

Definition totals_total_ms (s : SyncTotals) : Z :=
  wrap_u64 (wrap_u64 (wrap_u64 (st_download_ms s + st_tree_state_ms s) + st_scan_ms s)
            + st_transparent_ms s).

Record EnhanceTotals := {
  et_passes : Z; et_serviced : Z; et_requests_ms : Z; et_upstream_ms : Z; et_apply_ms : Z;
}.
Definition enhance_totals_zero : EnhanceTotals :=
  {| et_passes := 0; et_serviced := 0; et_requests_ms := 0; et_upstream_ms := 0; et_apply_ms := 0 |}.

(** A published ratio is the double nearest to this rational. *)
Definition per_request_ms (e : EnhanceTotals) : Q :=
  if 0 <? et_serviced e
  then Qmake (wrap_u64 (et_upstream_ms e + et_apply_ms e)) (Z.to_pos (et_serviced e))
  else 0%Q.

Record SyncStatus := {
  ss_connected : bool;
  ss_server : option string;
  ss_conn_state : ConnState;
  ss_upstream_refusal : option string;
  ss_chain_tip : option Z;
  ss_fully_scanned : option Z;
  ss_birthday : option Z;
  ss_best_block_hash : option string;
  ss_scan_progress : Q;
  ss_scanning : bool;
  ss_pending_enhancements : Z;
  ss_enhanced_through : option Z;
  ss_sync_totals : SyncTotals;
  ss_enhance_totals : EnhanceTotals;
  ss_encrypted : bool;
  ss_accounts : list (string * Z);
  ss_import_errors : list (string * string);
  ss_watch_only : bool;
  ss_unlocked_until : option Z;
  ss_transparent_preexpose : option (Z * Z);
  ss_transparent_frontier : option Z;
  ss_transparent_recovery_horizon : option Z;
}.

(** [SyncStatus::default]: nothing known, nothing connected. *)
Definition default_status : SyncStatus :=
  {| ss_connected := false; ss_server := None; ss_conn_state := CS_Down; ss_upstream_refusal := None;
     ss_chain_tip := None; ss_fully_scanned := None; ss_birthday := None; ss_best_block_hash := None;
     ss_scan_progress := 0%Q; ss_scanning := false; ss_pending_enhancements := 0;
     ss_enhanced_through := None; ss_sync_totals := totals_zero; ss_enhance_totals := enhance_totals_zero;
     ss_encrypted := false; ss_accounts := []; ss_import_errors := []; ss_watch_only := false;
     ss_unlocked_until := None; ss_transparent_preexpose := None; ss_transparent_frontier := None;
     ss_transparent_recovery_horizon := None |}.

(** [SyncStatus::confirmations]. *)
Definition confirmations (st : SyncStatus) (mined_height : option Z) : Z :=
  match ss_fully_scanned st, mined_height with
  | Some scanned, Some h => if h <=? scanned then wrap_u32 (scanned - h + 1) else 0
  | _, _ => 0
  end.

(** ** Publishing *)

(** [scan_progress_ratio], as the exact ratio before it is rounded to a double; the clamp to
    [0, 1] commutes with rounding. *)
Definition scan_progress_ratio (birthday fully_scanned chain_tip : Z) : Q :=
  let total := sat_sub chain_tip birthday in
  if total =? 0 then 1%Q
  else Qmax 0 (Qmin 1 (Qmake (sat_sub fully_scanned birthday) (Z.to_pos total))).

(** The actor's fields a publication reads. Instants and the unix clock are in nanoseconds and
    seconds. *)
Record ActorView := {
  av_name : string;
  av_client : bool;
  av_server : string;
  av_upstream_refusal : option string;
  av_tip_height : option Z;
  av_tip_hash : option string;
  av_birthday : Z;
  av_fetch_memos : bool;
  av_sync_totals : SyncTotals;
  av_enhance_totals : EnhanceTotals;
  av_encrypted : bool;
  av_unlock_until : option Z;
  av_account_id : option Z;
  av_shard_accounts : list (string * Z);
  av_shard_import_errors : list (string * string);
  av_watch_only : bool;
  av_transparent_enabled : bool;
  av_transparent_frontier : option Z;
  av_transparent_initial_scan : Z;
  av_transparent_default_frontier : option Z;
  av_transparent_gap_limit : Z;
  av_transparent_preexpose : option (Z * Z);
}.

(** [published_accounts]. *)
Definition published_accounts (a : ActorView) : list (string * Z) :=
  match av_shard_accounts a with
  | [] => match av_account_id a with Some account => [(av_name a, account)] | None => [] end
  | shard => shard
  end.

(** [saturating_duration_since(..).as_secs()]. *)
Definition secs_until (deadline now : Z) : Z := sat_sub deadline now / 1000000000.

(** [update_status_inner]: the status published from the actor's fields, the height the wallet
    database has fully scanned, the backlog a caller already knows or else a fresh reading of
    it, and the clocks. *)
Definition update_status_inner (a : ActorView) (block_fully_scanned : option Z)
    (known_backlog : option (Z * option Z)) (fresh_backlog : Z * option Z) (now now_unix : Z) :
    SyncStatus :=
  let '(scanned, progress, is_scanning) :=
    match block_fully_scanned, av_tip_height a with
    | Some scanned, Some tip =>
        (Some scanned, scan_progress_ratio (av_birthday a) scanned tip, scanned <? tip)
    | _, _ => (None, 0%Q, true)
    end in
  let '(pending, through) :=
    if (is_scanning : bool) then (0, None)
    else
      let '(count, lowest) := default fresh_backlog known_backlog in
      (count, published_watermark (av_fetch_memos a) scanned lowest) in
  {| ss_connected := av_client a;
     ss_server := Some (av_server a);
     ss_conn_state := if negb (av_client a) then CS_Down
                   else if is_scanning || (0 <? pending) then CS_Syncing else CS_Ready;
     ss_upstream_refusal := av_upstream_refusal a;
     ss_chain_tip := av_tip_height a;
     ss_fully_scanned := scanned;
     ss_birthday := Some (av_birthday a);
     ss_best_block_hash := av_tip_hash a;
     ss_scan_progress := progress;
     ss_scanning := is_scanning;
     ss_pending_enhancements := pending;
     ss_enhanced_through := through;
     ss_sync_totals := av_sync_totals a;
     ss_enhance_totals := av_enhance_totals a;
     ss_encrypted := av_encrypted a;
     ss_accounts := published_accounts a;
     ss_import_errors := av_shard_import_errors a;
     ss_watch_only := av_watch_only a;
     ss_unlocked_until :=
       if av_encrypted a
       then Some (match av_unlock_until a with
                  | Some t => now_unix + secs_until t now
                  | None => 0
                  end)
       else None;
     ss_transparent_preexpose := av_transparent_preexpose a;
     ss_transparent_frontier := av_transparent_frontier a;
     ss_transparent_recovery_horizon :=
       if av_transparent_enabled a
       then Some (recovery_horizon_for (av_transparent_initial_scan a)
                    (av_transparent_default_frontier a) (av_transparent_gap_limit a))
       else None |}.

(** [update_status] and [update_status_with_backlog]. *)
Definition update_status (a : ActorView) (scanned : option Z) (fresh : Z * option Z) (now unix : Z) :=
  update_status_inner a scanned None fresh now unix.
Definition update_status_with_backlog (a : ActorView) (scanned : option Z) (backlog : Z * option Z)
    (now unix : Z) :=
  update_status_inner a scanned (Some backlog) backlog now unix.

(** ** The registry of loaded wallets *)

(** A loaded wallet: its coin, what it publishes now, whether its actor is alive, its settings,
    and the unix times its actor first saw transactions at. *)
Record WalletHandle := {
  wh_name : string; wh_coin : Coin; wh_status : SyncStatus; wh_actor_alive : bool;
  wh_network : ZNetwork; wh_engine_dir : string;
  wh_enabled_pools : ReceiverSet; wh_default_receivers : ReceiverSet;
  wh_transparent_enabled : bool; wh_transparent_default : bool; wh_transparent_gap_limit : Z;
  wh_fetch_memos : bool; wh_is_shard : bool; wh_first_seen : gmap string Z;
}.

(** The accounts of a database a read is about. *)
Inductive AccountScope := Any | Only (account : Z) | NoAccount.
#[global] Instance AccountScope_eq_dec : EqDecision AccountScope.
Proof. solve_decision. Defined.
Definition excludes (scope : AccountScope) (account : Z) : bool :=
  match scope with
  | Any => false
  | Only only => negb (only =? account)
  | NoAccount => true
  end.

(** The wallet's account, as published, and the scope of its reads. *)
Definition account (w : WalletHandle) : option Z :=
  snd <$> List.find (λ e, bool_decide (e.1 = wh_name w)) (ss_accounts (wh_status w)).
Definition account_scope (w : WalletHandle) : AccountScope :=
  match account w with
  | Some a => Only a
  | None => if wh_is_shard w then NoAccount else Any
  end.

Record WalletRegistry := { wr_wallets : gmap string WalletHandle; wr_default : string }.

Definition registry_new (default : string) : WalletRegistry :=
  {| wr_wallets := ∅; wr_default := default |}.
Definition registry_insert (r : WalletRegistry) (w : WalletHandle) : WalletRegistry :=
  {| wr_wallets := <[wh_name w := w]> (wr_wallets r); wr_default := wr_default r |}.
(** Whether it was loaded, and the registry without it. *)
Definition registry_remove (r : WalletRegistry) (name : string) : bool * WalletRegistry :=
  (is_some (wr_wallets r !! name),
   {| wr_wallets := delete name (wr_wallets r); wr_default := wr_default r |}).
Definition registry_contains (r : WalletRegistry) (name : string) : bool :=
  is_some (wr_wallets r !! name).
Definition registry_is_empty (r : WalletRegistry) : bool := bool_decide (wr_wallets r = ∅).

(** [WalletRegistry::get_coin] and, every wallet being Zcash, [get]. *)
Definition registry_get_coin (r : WalletRegistry) (name : option string) :
    result RpcError WalletHandle :=
  let name := default (wr_default r) name in
  ok_or (wr_wallets r !! name)
    (RpcError.wallet_not_found ("Requested wallet does not exist or is not loaded: " +:+ name)).
Definition registry_get (r : WalletRegistry) (name : option string) :
    result RpcError WalletHandle :=
  w ← registry_get_coin r name; match wh_coin w with Zcash => Ok w end.

(** [snapshot]: the loaded wallets, sorted by name, bytewise. *)
#[global] Instance string_le_dec' : ∀ x y, Decision (String.le x y) := _.
Definition registry_snapshot (r : WalletRegistry) : list (string * WalletHandle) :=
  merge_sort (λ x y, String.le x.1 y.1) (map_to_list (wr_wallets r)).
Definition registry_names (r : WalletRegistry) : list string := (registry_snapshot r).*1.
