(* ===== verification/Health.v ===== *)
(** * Health: the probe endpoints ([src/src/health.rs])

    Liveness, readiness and the status document, over the registry of loaded wallets and what
    each publishes. Binding the port and serving HTTP are not here. *)

From S2P Require Export Status Json.

(** ** JSON values ([json!]) *)

Definition json_num (n : Z) : json := JNumber (dec_signed n).
Definition json_opt {A} (f : A → json) (o : option A) : json :=
  match o with Some a => f a | None => JNull end.

(** ** Readiness modes ([src/src/config.rs]) *)

Inductive ReadinessMode := RM_Synced | RM_Scanned | RM_Connected.
#[global] Instance ReadinessMode_eq_dec : EqDecision ReadinessMode.
Proof. solve_decision. Defined.

Definition readiness_as_str (m : ReadinessMode) : string :=
  match m with RM_Synced => "synced" | RM_Scanned => "scanned" | RM_Connected => "connected" end.

Definition readiness_parse (s : string) : result string ReadinessMode :=
  if bool_decide (s = "synced") then Ok RM_Synced
  else if bool_decide (s = "scanned") then Ok RM_Scanned
  else if bool_decide (s = "connected") then Ok RM_Connected
  else Err ("invalid [health] readiness " +:+ quoted s +:+ ": expected " +:+ quoted "synced"
            +:+ ", " +:+ quoted "scanned" +:+ " or " +:+ quoted "connected").

Record HealthConfig := {
  hc_enabled : bool; hc_bind : string; hc_port : Z; hc_readiness : ReadinessMode;
  hc_max_scan_lag : Z;
}.

(** ** Readiness of a wallet *)

(** The gap between the tip and the fully scanned height, when both are known. *)
Definition scan_lag (st : SyncStatus) : option Z :=
  match ss_chain_tip st, ss_fully_scanned st with
  | Some tip, Some scanned => Some (sat_sub tip scanned)
  | _, _ => None
  end.

Definition wallet_ready (st : SyncStatus) (cfg : HealthConfig) : bool :=
  if negb (ss_connected st) || is_some (ss_upstream_refusal st) then false
  else
    match hc_readiness cfg with
    | RM_Synced =>
        match ss_chain_tip st, ss_fully_scanned st with
        | Some tip, Some scanned =>
            (sat_sub tip scanned <=? hc_max_scan_lag cfg) && (ss_pending_enhancements st =? 0)
        | _, _ => false
        end
    | RM_Scanned =>
        match ss_chain_tip st, ss_fully_scanned st with
        | Some tip, Some scanned => sat_sub tip scanned <=? hc_max_scan_lag cfg
        | _, _ => false
        end
    | RM_Connected =>
        match ss_chain_tip st, ss_birthday st with
        | Some tip, Some birthday => birthday <? tip
        | _, _ => false
        end
    end.

Definition is_locked (st : SyncStatus) : bool :=
  ss_encrypted st && bool_decide (ss_unlocked_until st = Some 0).

(** ** The snapshot *)

Record Snapshot := {
  snap_ready : bool; snap_any_down : bool; snap_any_actor_down : bool; snap_any_locked : bool;
  snap_any_enhancing : bool; snap_any_refused : bool; snap_wallets : list (string * json);
}.

Section documents.
(** How serde_json writes the double nearest to a rational. *)
Context (f64_literal : Q → string).

Definition sync_totals_json (t : SyncTotals) : json :=
  JObject [("batches", json_num (st_batches t)); ("blocks", json_num (st_blocks t));
           ("bytes", json_num (st_bytes t)); ("txs", json_num (st_txs t));
           ("sapling_outputs", json_num (st_sapling_outputs t));
           ("orchard_actions", json_num (st_orchard_actions t));
           ("download_ms", json_num (st_download_ms t));
           ("tree_state_ms", json_num (st_tree_state_ms t)); ("scan_ms", json_num (st_scan_ms t));
           ("transparent_ms", json_num (st_transparent_ms t));
           ("total_ms", json_num (totals_total_ms t))].

Definition enhance_totals_json (t : EnhanceTotals) : json :=
  JObject [("passes", json_num (et_passes t)); ("serviced", json_num (et_serviced t));
           ("requests_ms", json_num (et_requests_ms t)); ("upstream_ms", json_num (et_upstream_ms t));
           ("apply_ms", json_num (et_apply_ms t));
           ("per_request_ms", JNumber (f64_literal (per_request_ms t)))].

(** A wallet's entry of the status document. *)
Definition wallet_json (st : SyncStatus) (actor_alive ready : bool) : json :=
  JObject [("connected", JBool (ss_connected st)); ("actor_alive", JBool actor_alive);
           ("server", json_opt JString (ss_server st));
           ("conn_state", JString (conn_state_str (ss_conn_state st)));
           ("upstream_refusal", json_opt JString (ss_upstream_refusal st));
           ("chain_tip", json_opt json_num (ss_chain_tip st));
           ("fully_scanned", json_opt json_num (ss_fully_scanned st));
           ("scan_lag", json_opt json_num (scan_lag st));
           ("birthday", json_opt json_num (ss_birthday st));
           ("scan_progress", JNumber (f64_literal (ss_scan_progress st)));
           ("scanning", JBool (ss_scanning st));
           ("pending_enhancements", json_num (ss_pending_enhancements st));
           ("enhanced_through", json_opt json_num (ss_enhanced_through st));
           ("sync_totals", sync_totals_json (ss_sync_totals st));
           ("enhance_totals", enhance_totals_json (ss_enhance_totals st));
           ("encrypted", JBool (ss_encrypted st)); ("locked", JBool (is_locked st));
           ("ready", JBool ready)].

(** One wallet folded into the snapshot. *)
Definition snapshot_add (cfg : HealthConfig) (s : Snapshot) (w : string * WalletHandle) : Snapshot :=
  let st := wh_status w.2 in
  let actor_alive := wh_actor_alive w.2 in
  let w_ready := actor_alive && wallet_ready st cfg in
  {| snap_ready := snap_ready s && w_ready;
     snap_any_down := snap_any_down s || bool_decide (ss_conn_state st = CS_Down);
     snap_any_actor_down := snap_any_actor_down s || negb actor_alive;
     snap_any_locked := snap_any_locked s || is_locked st;
     snap_any_enhancing :=
       snap_any_enhancing s || (negb (ss_scanning st) && (0 <? ss_pending_enhancements st));
     snap_any_refused := snap_any_refused s || is_some (ss_upstream_refusal st);
     snap_wallets := snap_wallets s ++ [(w.1, wallet_json st actor_alive w_ready)] |}.

Definition snapshot (cfg : HealthConfig) (registry : WalletRegistry) : Snapshot :=
  let loaded := registry_snapshot registry in
  foldl (snapshot_add cfg)
    {| snap_ready := match loaded with [] => false | _ => true end; snap_any_down := false;
       snap_any_actor_down := false; snap_any_locked := false; snap_any_enhancing := false;
       snap_any_refused := false; snap_wallets := [] |} loaded.

(** ** The endpoints: the HTTP status and the body *)

Definition healthz : Z * string := (200, "ok").

Definition not_ready_reason (s : Snapshot) : string :=
  if snap_any_actor_down s then "actor_down"
  else if snap_any_refused s then "upstream_not_upgraded"
  else if snap_any_down s then "upstream_down"
  else if snap_any_enhancing s then "enhancing" else "syncing".

Definition readyz (cfg : HealthConfig) (registry : WalletRegistry) : Z * json :=
  let s := snapshot cfg registry in
  (if snap_ready s then 200 else 503,
   JObject ([("ready", JBool (snap_ready s)); ("locked", JBool (snap_any_locked s));
             ("wallets", JObject (snap_wallets s))]
            ++ if snap_ready s then [] else [("reason", JString (not_ready_reason s))])).

Definition status (cfg : HealthConfig) (network : ZNetwork) (registry : WalletRegistry) : json :=
  let s := snapshot cfg registry in
  JObject [("ready", JBool (snap_ready s)); ("locked", JBool (snap_any_locked s));
           ("network", JString (network_name network)); ("wallets", JObject (snap_wallets s))].
End documents.
