(* ===== verification/HealthSpec.v ===== *)
(** * HealthSpec: what the probes promise

    The readiness probe answers 200 exactly when every loaded wallet is ready, and its reason
    names the worst failure; what readiness means for the status an actor publishes. *)

From S2P Require Export Health EnhanceSpec.

(** ** The snapshot as a fold *)

Section snapshot.
Context (f64 : Q → string) (cfg : HealthConfig).

Definition loaded_ready (w : string * WalletHandle) : bool :=
  wh_actor_alive w.2 && wallet_ready (wh_status w.2) cfg.

(** Each flag of the snapshot is a quantifier over the wallets. *)
Lemma snapshot_fold l s :
  let s' := foldl (snapshot_add f64 cfg) s l in
  snap_ready s' = snap_ready s && forallb loaded_ready l ∧
  snap_any_down s' =
    snap_any_down s || existsb (λ w, bool_decide (ss_conn_state (wh_status w.2) = CS_Down)) l ∧
  snap_any_actor_down s' = snap_any_actor_down s || existsb (λ w, negb (wh_actor_alive w.2)) l ∧
  snap_any_enhancing s' = snap_any_enhancing s ||
    existsb (λ w, negb (ss_scanning (wh_status w.2))
                  && (0 <? ss_pending_enhancements (wh_status w.2))) l ∧
  snap_any_refused s' =
    snap_any_refused s || existsb (λ w, is_some (ss_upstream_refusal (wh_status w.2))) l ∧
  snap_any_locked s' = snap_any_locked s || existsb (λ w, is_locked (wh_status w.2)) l ∧
  snap_wallets s' = snap_wallets s ++
    ((λ w, (w.1, wallet_json f64 (wh_status w.2) (wh_actor_alive w.2) (loaded_ready w))) <$> l).
Proof.
  revert s. induction l as [|w l IH]; intros s; cbn -[snapshot_add wallet_json].
  { rewrite !andb_true_r, !orb_false_r, app_nil_r. done. }
  destruct (IH (snapshot_add f64 cfg s w)) as (-> & -> & -> & -> & -> & -> & ->).
  cbn -[wallet_json]. unfold loaded_ready. rewrite <- !andb_assoc, <- !orb_assoc, <- app_assoc. done.
Qed.

Lemma snapshot_spec r :
  let s := snapshot f64 cfg r in
  let l := registry_snapshot r in
  snap_ready s = negb (bool_decide (l = [])) && forallb loaded_ready l ∧
  snap_any_down s = existsb (λ w, bool_decide (ss_conn_state (wh_status w.2) = CS_Down)) l ∧
  snap_any_actor_down s = existsb (λ w, negb (wh_actor_alive w.2)) l ∧
  snap_any_enhancing s =
    existsb (λ w, negb (ss_scanning (wh_status w.2))
                  && (0 <? ss_pending_enhancements (wh_status w.2))) l ∧
  snap_any_refused s = existsb (λ w, is_some (ss_upstream_refusal (wh_status w.2))) l ∧
  snap_any_locked s = existsb (λ w, is_locked (wh_status w.2)) l ∧
  snap_wallets s =
    ((λ w, (w.1, wallet_json f64 (wh_status w.2) (wh_actor_alive w.2) (loaded_ready w))) <$> l).
Proof.
  unfold snapshot. set (l := registry_snapshot r). cbv zeta.
  destruct (snapshot_fold l {| snap_ready := match l with [] => false | _ => true end;
    snap_any_down := false; snap_any_actor_down := false; snap_any_locked := false;
    snap_any_enhancing := false; snap_any_refused := false; snap_wallets := [] |})
    as (-> & -> & -> & -> & -> & -> & ->).
  split; [|done]. by destruct l.
Qed.

(** The registry's snapshot is its wallets. *)
Lemma elem_of_snapshot r name w :
  (name, w) ∈ registry_snapshot r ↔ wr_wallets r !! name = Some w.
Proof.
  unfold registry_snapshot. rewrite merge_sort_Permutation. by rewrite elem_of_map_to_list.
Qed.
Lemma snapshot_names_nodup r : NoDup (registry_names r).
Proof.
  unfold registry_names, registry_snapshot.
  rewrite merge_sort_Permutation. apply NoDup_fst_map_to_list.
Qed.
Lemma snapshot_nil r : registry_snapshot r = [] ↔ wr_wallets r = ∅.
Proof.
  rewrite <- map_to_list_empty_iff, <- !Permutation_nil_r. unfold registry_snapshot.
  by rewrite merge_sort_Permutation.
Qed.

Lemma existsb_wallets r (p : WalletHandle → bool) :
  existsb (λ w, p w.2) (registry_snapshot r) = true ↔
  ∃ name w, wr_wallets r !! name = Some w ∧ p w = true.
Proof.
  rewrite existsb_exists. split.
  - intros ([name w] & H & ?). exists name, w. split; [|done].
    by apply elem_of_snapshot, list_elem_of_In.
  - intros (name & w & H & ?). exists (name, w). split; [|done].
    by apply list_elem_of_In, elem_of_snapshot.
Qed.
Lemma forallb_wallets r (p : WalletHandle → bool) :
  forallb (λ w, p w.2) (registry_snapshot r) = true ↔
  ∀ name w, wr_wallets r !! name = Some w → p w = true.
Proof.
  rewrite forallb_forall. split.
  - intros H name w Hw. by apply (H (name, w)), list_elem_of_In, elem_of_snapshot.
  - intros H [name w] Hw. by apply (H name), elem_of_snapshot, list_elem_of_In.
Qed.

(** ** The readiness probe *)

Definition some_wallet (r : WalletRegistry) (p : WalletHandle → bool) : Prop :=
  ∃ name w, wr_wallets r !! name = Some w ∧ p w = true.
Definition every_wallet (r : WalletRegistry) (p : WalletHandle → bool) : Prop :=
  ∀ name w, wr_wallets r !! name = Some w → p w = true.

Definition refused (w : WalletHandle) : bool := is_some (ss_upstream_refusal (wh_status w)).
Definition down (w : WalletHandle) : bool := bool_decide (ss_conn_state (wh_status w) = CS_Down).
Definition enhancing (w : WalletHandle) : bool :=
  negb (ss_scanning (wh_status w)) && (0 <? ss_pending_enhancements (wh_status w)).

(** The first cause of a list that holds. *)
Inductive first_cause : list (string * Prop) → string → Prop :=
  | fc_here c (P : Prop) l : P → first_cause ((c, P) :: l) c
  | fc_later c (P : Prop) l c' : ¬ P → first_cause l c' → first_cause ((c, P) :: l) c'.

Lemma first_cause_if (b : bool) (P : Prop) c l c' :
  (b = true ↔ P) → first_cause l c' → first_cause ((c, P) :: l) (if b then c else c').
Proof.
  intros Hb Hl. destruct b; [by constructor; apply Hb|].
  constructor 2; [|done]. intros H. by apply Hb in H.
Qed.

(** Why a registry is not ready, worst first. *)
Definition causes (r : WalletRegistry) : list (string * Prop) :=
  [("actor_down", some_wallet r (λ w, negb (wh_actor_alive w)));
   ("upstream_not_upgraded", some_wallet r refused);
   ("upstream_down", some_wallet r down);
   ("enhancing", some_wallet r enhancing);
   ("syncing", True)].

Lemma reason_first r : first_cause (causes r) (not_ready_reason (snapshot f64 cfg r)).
Proof.
  destruct (snapshot_spec r) as (_ & Hd & Ha & He & Hr & _). unfold not_ready_reason, causes.
  rewrite Hd, Ha, He, Hr.
  apply first_cause_if; [apply (existsb_wallets r (λ w, negb (wh_actor_alive w)))|].
  apply first_cause_if; [apply (existsb_wallets r refused)|].
  apply first_cause_if; [apply (existsb_wallets r down)|].
  apply first_cause_if; [apply (existsb_wallets r enhancing)|]. by constructor.
Qed.

Lemma ready_spec r :
  snap_ready (snapshot f64 cfg r) = true ↔
  wr_wallets r ≠ ∅ ∧ every_wallet r (λ w, wh_actor_alive w && wallet_ready (wh_status w) cfg).
Proof.
  destruct (snapshot_spec r) as (-> & _).
  rewrite andb_true_iff, negb_true_iff, bool_decide_eq_false, snapshot_nil.
  by rewrite (forallb_wallets r (λ w, wh_actor_alive w && wallet_ready (wh_status w) cfg)).
Qed.

(** The readiness probe is exact. It answers 200 or 503, 200 exactly when some wallet is
    loaded and every loaded one has a live actor and is ready in the configured mode; its body
    says the same; a 503, and only that, names the worst cause: a dead actor, else a refused
    upstream, else one that is down, else a backlog still draining, else a scan in progress; and
    the body lists each loaded wallet once, with its own status and verdict. *)
Theorem readyz_exact (r : WalletRegistry) :
  let '(code, body) := readyz f64 cfg r in
  (code = 200 ∨ code = 503) ∧
  (code = 200 ↔ wr_wallets r ≠ ∅ ∧
     every_wallet r (λ w, wh_actor_alive w && wallet_ready (wh_status w) cfg)) ∧
  json_get "ready" body = Some (JBool (code =? 200)) ∧
  (code = 200 → json_get "reason" body = None) ∧
  (code = 503 → ∃ reason, json_get "reason" body = Some (JString reason) ∧
                          first_cause (causes r) reason) ∧
  ∃ wallets, json_get "wallets" body = Some (JObject wallets) ∧ NoDup wallets.*1 ∧
    ∀ name doc, (name, doc) ∈ wallets ↔
      ∃ w, wr_wallets r !! name = Some w ∧
        doc = wallet_json f64 (wh_status w) (wh_actor_alive w)
                (wh_actor_alive w && wallet_ready (wh_status w) cfg).
Proof.
  unfold readyz. pose proof (ready_spec r) as Hready. pose proof (reason_first r) as Hreason.
  destruct (snapshot_spec r) as (_ & _ & _ & _ & _ & _ & Hw).
  rewrite <- Hready. destruct (snap_ready (snapshot f64 cfg r)) eqn:E; split_and!; try naive_solver lia.
  all: rewrite Hw; eexists; split; [reflexivity|]; split.
  1, 3: rewrite <- list_fmap_compose; apply snapshot_names_nodup.
  all: intros name doc; rewrite list_elem_of_fmap; split.
  1, 3: intros ([n w] & [= -> ->] & H); exists w; by split; [apply elem_of_snapshot|].
  all: intros (w & H & ->); exists (name, w); by split; [|apply elem_of_snapshot].
Qed.
End snapshot.

(** ** What readiness means for a status the actor publishes *)

(** A scan at the tip is complete. *)
Lemma progress_complete birthday scanned tip :
  tip ≤ scanned → (scan_progress_ratio birthday scanned tip == 1)%Q.
Proof.
  intros H. unfold scan_progress_ratio.
  destruct (Z.eqb_spec (sat_sub tip birthday) 0) as [E|E]; [reflexivity|].
  assert (1 <= Qmake (sat_sub scanned birthday) (Z.to_pos (sat_sub tip birthday)))%Q as Hq.
  { unfold Qle. simpl. unfold sat_sub in *. rewrite Z2Pos.id; lia. }
  rewrite (Q.min_l _ _ Hq). by rewrite Q.max_r.
Qed.

(** What the actor publishes is what readiness means. A status the actor publishes that the
    default mode calls ready has its upstream connected and not refused, and a scan within the
    allowed lag of the tip; when the scan is at the tip, nothing of the backlog the publication
    used is left, the connection reads ready, the progress is complete, and the memo watermark,
    where memos are fetched, is the scanned height itself. Whatever the default mode calls ready
    the scanned mode does too, and a wallet that refuses its upstream is ready in no mode. *)
Theorem published_readiness (cfg : HealthConfig) (a : ActorView) (scanned : option Z)
    (known : option (Z * option Z)) (fresh : Z * option Z) (now unix : Z) :
  let st := update_status_inner a scanned known fresh now unix in
  let at_mode m := wallet_ready st {| hc_enabled := hc_enabled cfg; hc_bind := hc_bind cfg;
      hc_port := hc_port cfg; hc_readiness := m; hc_max_scan_lag := hc_max_scan_lag cfg |} in
  (at_mode RM_Synced = true →
     av_client a = true ∧ av_upstream_refusal a = None ∧ at_mode RM_Scanned = true ∧
     ∃ s tip, scanned = Some s ∧ av_tip_height a = Some tip ∧ sat_sub tip s ≤ hc_max_scan_lag cfg ∧
       (tip ≤ s → (default fresh known).1 = 0 ∧ ss_conn_state st = CS_Ready ∧
          (ss_scan_progress st == 1)%Q ∧
          ((default fresh known).2 = None → av_fetch_memos a = true →
             ss_enhanced_through st = Some s))) ∧
  (∀ m, is_some (av_upstream_refusal a) = true → at_mode m = false).
Proof.
  cbv zeta. unfold update_status_inner.
  set (backlog := default fresh known). destruct scanned as [s|], (av_tip_height a) as [tip|].
  2-4: split; [|intros m E]; unfold wallet_ready; cbn; rewrite ?E, ?orb_true_r; [|done].
  2-4: case_match; discriminate.
  destruct (Z.ltb_spec s tip) as [Hlt|Hge]; [|destruct backlog as [count lowest]].
  all: split; [|intros m E; unfold wallet_ready; cbn; rewrite E; by rewrite orb_true_r].
  all: unfold wallet_ready; cbn.
  all: destruct (av_client a), (av_upstream_refusal a); cbn; try discriminate.
  all: intros [Hlag Hpend]%andb_true_iff; apply Z.leb_le in Hlag as Hlag'; rewrite Hlag.
  all: split_and!; try done; exists s, tip; split_and!; try done; try lia.
  intros _. apply Z.eqb_eq in Hpend. subst count. split_and!; [done|done|by apply progress_complete|].
  unfold published_watermark. by intros -> ->.
Qed.

(** Inside the allowed lag the default mode does not wait for the backlog: while the scan is a
    block behind, the count is published as zero, unmeasured. *)
Lemma ready_with_unmeasured_backlog :
  ∃ a fresh, fresh = (5, Some 10) ∧
    wallet_ready (update_status a (Some 99) fresh 0 0)
      {| hc_enabled := true; hc_bind := "127.0.0.1"; hc_port := 9333; hc_readiness := RM_Synced;
         hc_max_scan_lag := 4 |} = true.
Proof.
  exists {| av_name := "w"; av_client := true; av_server := ""; av_upstream_refusal := None;
      av_tip_height := Some 100; av_tip_hash := None; av_birthday := 1; av_fetch_memos := true;
      av_sync_totals := totals_zero; av_enhance_totals := enhance_totals_zero;
      av_encrypted := false; av_unlock_until := None; av_account_id := Some 1;
      av_shard_accounts := []; av_shard_import_errors := []; av_watch_only := false;
      av_transparent_enabled := false; av_transparent_frontier := None;
      av_transparent_initial_scan := 0; av_transparent_default_frontier := None;
      av_transparent_gap_limit := 20; av_transparent_preexpose := None |}, (5, Some 10).
  split; reflexivity.
Qed.
