(* ===== verification/Rpc.v ===== *)
(** * Rpc: the JSON-RPC surface ([src/src/server/jsonrpc.rs], [src/src/rpc/mod.rs],
      [src/src/server/mod.rs])

    Framing of requests and responses, the method tables and the gates of dispatch, and the HTTP
    handler around them. The handlers behind the table are [Handlers]; the JSON reader and
    writer are parameters. *)

From S2P Require Export Health.

(** ** Framing *)

Record RpcRequest := { rq_id : json; rq_method : string; rq_params : list json }.

(** Positional parameter accessor. *)
Definition param (r : RpcRequest) (i : nat) : option json := rq_params r !! i.

(** A null and an absent argument are the same. *)
Definition param_given (r : RpcRequest) (i : nat) : option json :=
  match param r i with None | Some JNull => None | Some v => Some v end.

Definition require_str (r : RpcRequest) (i : nat) (msg : string) : result RpcError string :=
  match param_given r i with
  | None => Err (RpcError.missing_param msg)
  | Some v => ok_or (json_as_str v) (RpcError.type_error (msg +:+ " (expected a string)"))
  end.

Definition positional (method : string) (params : list json) : RpcRequest :=
  {| rq_id := JNull; rq_method := method; rq_params := params |}.

(** Response envelopes. *)
Definition success (id result : json) : json :=
  JObject [("result", result); ("error", JNull); ("id", id)].
Definition error (id : json) (e : RpcError) : json :=
  JObject [("result", JNull);
           ("error", JObject [("code", json_num (err_code e)); ("message", JString (err_message e))]);
           ("id", id)].

Inductive Body := Single (v : json) | Batch (l : list json).

Section framing.
(** [serde_json]: a value as text, and the reader with its error message. *)
Context (json_text : json → string) (from_slice : string → result string json).

(** [RpcRequest::from_value]; a refusal carries the id to answer under. *)
Definition from_value (v : json) : result (json * RpcError) RpcRequest :=
  let id := default JNull (json_get "id" v) in
  match json_get "method" v ≫= json_as_str with
  | None => Err (id, RpcError.new RPC_INVALID_REQUEST "Missing or invalid 'method'")
  | Some method =>
      match default JNull (json_get "params" v) with
      | JNull => Ok {| rq_id := id; rq_method := method; rq_params := [] |}
      | JArray arr => Ok {| rq_id := id; rq_method := method; rq_params := arr |}
      | JObject _ => Ok {| rq_id := id; rq_method := method; rq_params := [] |}
      | other =>
          Err (id, RpcError.new RPC_INVALID_REQUEST
                     ("'params' must be an array or object, got " +:+ json_text other))
      end
  end.

Definition parse_body (bytes : string) : result RpcError Body :=
  v ← map_err (λ e, RpcError.new RPC_PARSE_ERROR ("Parse error: " +:+ e)) (from_slice bytes);
  match v with
  | JArray [] => Err (RpcError.new RPC_INVALID_REQUEST "Empty batch")
  | JArray arr => Ok (Batch arr)
  | JObject fields => Ok (Single (JObject fields))
  | _ => Err (RpcError.new RPC_INVALID_REQUEST "Top-level request must be an object or array")
  end.
End framing.

(** ** The method tables *)

Definition ALL_METHODS : list string :=
  ["stop"; "uptime"; "help"; "getrpcinfo"; "getnetworkinfo"; "getconnectioncount"; "getpeerinfo";
   "ping"; "getblockchaininfo"; "getblockcount"; "getbestblockhash"; "getblockhash";
   "getblockheader"; "waitfornewblock"; "waitforblock"; "waitforblockheight"; "waitforsync";
   "validateaddress"; "signmessage"; "verifymessage"; "settxfee"; "estimatesmartfee";
   "estimatefee"; "getmempoolinfo"; "getrawtransaction"; "sendrawtransaction"; "getbalance";
   "getbalances"; "getunconfirmedbalance"; "getwalletinfo"; "getaddressinfo"; "listtransactions";
   "z_listtransactions"; "listsinceblock"; "gettransaction"; "listunspent";
   "getreceivedbyaddress"; "listreceivedbyaddress"; "listwallets"; "listwalletdir";
   "createwallet"; "loadwallet"; "unloadwallet"; "getnewaddress"; "sendtoaddress"; "sendmany";
   "walletpassphrase"; "walletlock"; "z_sendmany"; "z_shieldcoinbase"; "z_mergetoaddress";
   "z_getoperationstatus"; "z_getoperationresult"; "z_listoperationids"; "z_validateaddress";
   "z_waitforoperation"; "z_getaddressforaccount"; "z_listunifiedreceivers"].

Definition is_known_method (name : string) : bool := bool_decide (name ∈ ALL_METHODS).

Definition MAX_POSITIONAL_ARGS : list (string * nat) :=
  [("stop", 0%nat); ("uptime", 0%nat); ("help", 1%nat); ("getrpcinfo", 0%nat);
   ("getnetworkinfo", 0%nat); ("getconnectioncount", 0%nat); ("getpeerinfo", 0%nat);
   ("ping", 0%nat); ("getblockchaininfo", 0%nat); ("getblockcount", 0%nat);
   ("getbestblockhash", 0%nat); ("getblockhash", 1%nat); ("getblockheader", 2%nat);
   ("waitfornewblock", 1%nat); ("waitforblock", 2%nat); ("waitforblockheight", 2%nat);
   ("waitforsync", 1%nat); ("validateaddress", 1%nat); ("settxfee", 1%nat);
   ("estimatesmartfee", 2%nat); ("estimatefee", 1%nat); ("getmempoolinfo", 0%nat);
   ("getrawtransaction", 3%nat); ("sendrawtransaction", 2%nat); ("getbalance", 4%nat);
   ("getbalances", 0%nat); ("getunconfirmedbalance", 0%nat); ("getwalletinfo", 0%nat);
   ("getaddressinfo", 1%nat); ("listtransactions", 4%nat); ("z_listtransactions", 5%nat);
   ("listsinceblock", 4%nat); ("gettransaction", 3%nat); ("listunspent", 5%nat);
   ("getreceivedbyaddress", 3%nat); ("listreceivedbyaddress", 5%nat); ("listwallets", 0%nat);
   ("listwalletdir", 0%nat); ("createwallet", 9%nat); ("loadwallet", 2%nat);
   ("unloadwallet", 2%nat); ("getnewaddress", 2%nat); ("sendtoaddress", 12%nat);
   ("sendmany", 10%nat); ("walletpassphrase", 2%nat); ("walletlock", 0%nat);
   ("signmessage", 2%nat); ("verifymessage", 3%nat); ("z_sendmany", 5%nat);
   ("z_shieldcoinbase", 6%nat); ("z_mergetoaddress", 7%nat); ("z_getoperationstatus", 1%nat);
   ("z_getoperationresult", 1%nat); ("z_listoperationids", 1%nat); ("z_validateaddress", 1%nat);
   ("z_waitforoperation", 2%nat); ("z_getaddressforaccount", 3%nat);
   ("z_listunifiedreceivers", 1%nat)].

Inductive MethodCoins := AllCoins | OnlyCoins (coins : list Coin).
Definition ZCASH_ONLY : list Coin := [Zcash].

Definition METHOD_COINS : list (string * MethodCoins) :=
  [("stop", AllCoins); ("uptime", AllCoins); ("help", AllCoins); ("getrpcinfo", AllCoins);
   ("getnetworkinfo", AllCoins); ("getconnectioncount", AllCoins); ("getpeerinfo", AllCoins);
   ("ping", AllCoins); ("getblockchaininfo", AllCoins); ("getblockcount", AllCoins);
   ("getbestblockhash", AllCoins); ("getblockhash", AllCoins); ("getblockheader", AllCoins);
   ("waitfornewblock", AllCoins); ("waitforblock", AllCoins); ("waitforblockheight", AllCoins);
   ("waitforsync", AllCoins); ("validateaddress", AllCoins); ("estimatesmartfee", AllCoins);
   ("estimatefee", AllCoins); ("getmempoolinfo", AllCoins); ("signmessage", AllCoins);
   ("verifymessage", AllCoins); ("settxfee", AllCoins); ("sendrawtransaction", AllCoins);
   ("getrawtransaction", AllCoins); ("getbalance", AllCoins); ("getbalances", AllCoins);
   ("getunconfirmedbalance", AllCoins); ("getwalletinfo", AllCoins); ("listwallets", AllCoins);
   ("listwalletdir", AllCoins); ("listtransactions", AllCoins); ("listsinceblock", AllCoins);
   ("gettransaction", AllCoins); ("listunspent", AllCoins); ("getreceivedbyaddress", AllCoins);
   ("listreceivedbyaddress", AllCoins); ("getaddressinfo", AllCoins);
   ("z_listtransactions", OnlyCoins ZCASH_ONLY); ("createwallet", AllCoins);
   ("loadwallet", AllCoins); ("unloadwallet", AllCoins); ("getnewaddress", AllCoins);
   ("sendtoaddress", AllCoins); ("sendmany", AllCoins); ("walletpassphrase", AllCoins);
   ("walletlock", AllCoins); ("z_sendmany", OnlyCoins ZCASH_ONLY);
   ("z_shieldcoinbase", OnlyCoins ZCASH_ONLY); ("z_mergetoaddress", OnlyCoins ZCASH_ONLY);
   ("z_getoperationstatus", OnlyCoins ZCASH_ONLY);
   ("z_getoperationresult", OnlyCoins ZCASH_ONLY); ("z_listoperationids", OnlyCoins ZCASH_ONLY);
   ("z_validateaddress", OnlyCoins ZCASH_ONLY); ("z_waitforoperation", OnlyCoins ZCASH_ONLY);
   ("z_getaddressforaccount", OnlyCoins ZCASH_ONLY);
   ("z_listunifiedreceivers", OnlyCoins ZCASH_ONLY)].

(** The methods [dispatch_zecd] matches on. *)
Definition DISPATCHED : list string :=
  ["stop"; "uptime"; "help"; "getrpcinfo"; "getnetworkinfo"; "getconnectioncount"; "getpeerinfo";
   "ping"; "getblockchaininfo"; "getblockcount"; "getbestblockhash"; "getblockhash";
   "getblockheader"; "waitfornewblock"; "waitforblock"; "waitforblockheight"; "waitforsync";
   "validateaddress"; "signmessage"; "verifymessage"; "settxfee"; "estimatesmartfee";
   "estimatefee"; "getmempoolinfo"; "getrawtransaction"; "sendrawtransaction"; "getbalance";
   "getbalances"; "getunconfirmedbalance"; "getwalletinfo"; "getaddressinfo"; "listtransactions";
   "z_listtransactions"; "listsinceblock"; "gettransaction"; "listunspent";
   "getreceivedbyaddress"; "listreceivedbyaddress"; "listwallets"; "listwalletdir";
   "createwallet"; "loadwallet"; "unloadwallet"; "getnewaddress"; "sendtoaddress"; "sendmany";
   "walletpassphrase"; "walletlock"; "z_sendmany"; "z_shieldcoinbase"; "z_mergetoaddress";
   "z_getoperationstatus"; "z_getoperationresult"; "z_listoperationids"; "z_validateaddress";
   "z_waitforoperation"; "z_getaddressforaccount"; "z_listunifiedreceivers"].

Fixpoint table_find {A} (method : string) (table : list (string * A)) : option A :=
  match table with
  | [] => None
  | (m, a) :: rest => if bool_decide (m = method) then Some a else table_find method rest
  end.

Definition method_coins (method : string) : option MethodCoins := table_find method METHOD_COINS.
Definition max_positional_args (method : string) : option nat :=
  table_find method MAX_POSITIONAL_ARGS.

Definition check_arity (req : RpcRequest) : result RpcError () :=
  match max_positional_args (rq_method req) with
  | Some max =>
      if (max <? length (rq_params req))%nat
      then Err (RpcError.misc (rq_method req +:+ " takes at most " +:+ dec (Z.of_nat max)
                +:+ " argument(s) (" +:+ dec (Z.of_nat (length (rq_params req))) +:+ " provided)"))
      else Ok tt
  | None => Ok tt
  end.

(** ** Dispatch *)

(** The node's state as the RPC layer reads it, and the handler of each method of the table: a
    response and the state after it. *)
Class Handlers := {
  app : Type;
  app_registry : app → WalletRegistry;
  app_allowed_methods : app → list string;
  app_shutting_down : app → bool;
  app_permits : app → nat;
  run_handler : string → app → option string → RpcRequest → result RpcError json * app;
}.

Section dispatch.
Context `{HS : Handlers}.

(** [dispatch_zecd]: the method table. *)
Definition dispatch_zecd (state : app) (wallet : option string) (req : RpcRequest) :
    result RpcError json * app :=
  if bool_decide (rq_method req ∈ DISPATCHED)
  then run_handler (rq_method req) state wallet req
  else (Err (RpcError.method_not_found (rq_method req)), state).

(** The coin gate: a wallet that resolves and is of a coin the method does not serve. *)
Definition coin_refused (state : app) (wallet : option string) (req : RpcRequest) : bool :=
  match method_coins (rq_method req) with
  | Some (OnlyCoins coins) =>
      match registry_get_coin (app_registry state) wallet with
      | Ok w => negb (bool_decide (wh_coin w ∈ coins))
      | Err _ => false
      end
  | _ => false
  end.

Definition safelisted_out (state : app) (req : RpcRequest) : bool :=
  negb (bool_decide (app_allowed_methods state = []))
  && negb (bool_decide (rq_method req ∈ app_allowed_methods state)).

Definition dispatch (state : app) (wallet : option string) (req : RpcRequest) :
    result RpcError json * app :=
  if safelisted_out state req then (Err (RpcError.method_not_found (rq_method req)), state)
  else
    match check_arity req with
    | Err e => (Err e, state)
    | Ok _ =>
        if coin_refused state wallet req
        then (Err (RpcError.method_not_found (rq_method req)), state)
        else dispatch_zecd state wallet req
    end.

(** ** The HTTP handler *)

(** A response: plain text, the 401 challenge, or a JSON document. *)
Inductive HttpBody := PlainText (msg : string) | Challenge | JsonBody (v : json).
Record Response := { rs_status : Z; rs_body : HttpBody }.

Definition plain_response (status : Z) (msg : string) : Response :=
  {| rs_status := status; rs_body := PlainText msg |}.
Definition unauthorized : Response := {| rs_status := 401; rs_body := Challenge |}.
Definition json_response (status : Z) (v : json) : Response :=
  {| rs_status := status; rs_body := JsonBody v |}.

(** [status_for]; every mapped status is a valid one. *)
Definition status_for (e : RpcError) : Z := http_status_for_code (err_code e).

Context (json_text : json → string) (from_slice : string → result string json).

(** [process_single]: the envelope, the HTTP status and the state. *)
Definition process_single (state : app) (wallet : option string) (v : json) : json * Z * app :=
  match from_value json_text v with
  | Err (id, err) => (error id err, status_for err, state)
  | Ok req =>
      match dispatch state wallet req with
      | (Ok value, state') => (success (rq_id req) value, 200, state')
      | (Err err, state') => (error (rq_id req) err, status_for err, state')
      end
  end.

(** The items of a batch, one after another. *)
Fixpoint process_batch (state : app) (wallet : option string) (items : list json) :
    list json * app :=
  match items with
  | [] => ([], state)
  | v :: rest =>
      let '(resp, _, state) := process_single state wallet v in
      let '(out, state) := process_batch state wallet rest in
      (resp :: out, state)
  end.

(** [handle], for a request whose [Authorization] header passes the check or not. The permit of
    the work queue is held to the end of the request. *)
Definition handle (state : app) (wallet : option string) (auth_ok : bool) (body : string) :
    Response * app :=
  if app_shutting_down state
  then (plain_response 503 "Request rejected during server shutdown", state)
  else if (app_permits state =? 0)%nat
  then (plain_response 503 "Work queue depth exceeded", state)
  else if negb auth_ok then (unauthorized, state)
  else
    match parse_body from_slice body with
    | Err e => (json_response (status_for e) (error JNull e), state)
    | Ok (Single v) =>
        let '(resp, status, state) := process_single state wallet v in
        (json_response status resp, state)
    | Ok (Batch items) =>
        let '(out, state) := process_batch state wallet items in
        (json_response 200 (JArray out), state)
    end.
End dispatch.
