(* ===== verification/RpcSpec.v ===== *)
(** * RpcSpec: the contract of the JSON-RPC surface

    The method tables agree; a handler runs exactly when every gate admits its request; each
    request is answered under its own id, with the status its outcome has. *)

From S2P Require Export Rpc.

(** ** The tables *)

Lemma table_find_some {A} method (table : list (string * A)) :
  is_some (table_find method table) = true ↔ method ∈ table.*1.
Proof.
  induction table as [|[m a] table IH]; simpl; [set_solver|].
  case_bool_decide as E; [set_solver|]. rewrite IH. set_solver.
Qed.

(** The tables are permutations of one another, decided by computation. *)
Lemma dispatched_all m : m ∈ DISPATCHED ↔ m ∈ ALL_METHODS.
Proof.
  revert m. cut (Forall (.∈ ALL_METHODS) DISPATCHED ∧ Forall (.∈ DISPATCHED) ALL_METHODS).
  { rewrite !Forall_forall. intros [H1 H2] m. split; [apply H1|apply H2]. }
  split; apply (bool_decide_unpack _); vm_compute; exact I.
Qed.
Lemma arity_all m : is_some (max_positional_args m) = true ↔ m ∈ ALL_METHODS.
Proof.
  unfold max_positional_args. rewrite table_find_some. revert m.
  cut (Forall (.∈ ALL_METHODS) MAX_POSITIONAL_ARGS.*1 ∧
       Forall (.∈ MAX_POSITIONAL_ARGS.*1) ALL_METHODS).
  { rewrite !Forall_forall. intros [H1 H2] m. split; [apply H1|apply H2]. }
  split; apply (bool_decide_unpack _); vm_compute; exact I.
Qed.

(** Exactly the [z_] methods are Zcash's. *)
Lemma coins_all m :
  m ∈ ALL_METHODS →
  method_coins m = Some (if starts_with "z_" m then OnlyCoins ZCASH_ONLY else AllCoins).
Proof.
  revert m. rewrite <- Forall_forall. repeat (constructor; [reflexivity|]). constructor.
Qed.

(** The tables name the same methods, each once, and the coins of a method go by its name. *)
Definition tables_agree : Prop :=
  NoDup ALL_METHODS ∧ DISPATCHED ≡ₚ ALL_METHODS ∧
  MAX_POSITIONAL_ARGS.*1 ≡ₚ ALL_METHODS ∧ METHOD_COINS.*1 ≡ₚ ALL_METHODS ∧
  ∀ m coins, (m, coins) ∈ METHOD_COINS →
    coins = if starts_with "z_" m then OnlyCoins ZCASH_ONLY else AllCoins.
Lemma tables_agree_all : tables_agree.
Proof.
  assert (NoDup ALL_METHODS) as Hnd by (apply (bool_decide_unpack _); vm_compute; exact I).
  assert (∀ l, bool_decide (NoDup l ∧ Forall (.∈ ALL_METHODS) l ∧ Forall (.∈ l) ALL_METHODS) = true →
    l ≡ₚ ALL_METHODS) as Hperm.
  { intros l (H1 & H2 & H3)%bool_decide_eq_true. apply NoDup_Permutation; [done..|].
    rewrite !Forall_forall in H2, H3. intros m. split; [apply H2|apply H3]. }
  split_and!; [done|apply Hperm; vm_compute; done..|].
  assert (Forall (λ e, e.2 = if starts_with "z_" e.1 then OnlyCoins ZCASH_ONLY else AllCoins)
    METHOD_COINS) as H by (repeat (constructor; [reflexivity|]); constructor).
  rewrite Forall_forall in H. intros m coins Hin. apply (H _ Hin).
Qed.

Section rpc.
Context {HS : Handlers}.

(** ** Dispatch *)

(** A request every gate admits. *)
Definition admitted (state : app) (wallet : option string) (req : RpcRequest) : Prop :=
  rq_method req ∈ ALL_METHODS ∧
  (app_allowed_methods state = [] ∨ rq_method req ∈ app_allowed_methods state) ∧
  (∃ n, max_positional_args (rq_method req) = Some n ∧ (length (rq_params req) ≤ n)%nat) ∧
  (∀ w, starts_with "z_" (rq_method req) = true →
        registry_get_coin (app_registry state) wallet = Ok w → wh_coin w = Zcash).

Lemma arity_spec req :
  check_arity req = Ok tt ∧
    (∀ n, max_positional_args (rq_method req) = Some n → (length (rq_params req) ≤ n)%nat) ∨
  ∃ e, check_arity req = Err e ∧ err_code e = RPC_MISC_ERROR ∧
    ∃ n, max_positional_args (rq_method req) = Some n ∧ (n < length (rq_params req))%nat.
Proof.
  unfold check_arity. destruct (max_positional_args (rq_method req)) as [n|]; [|left; naive_solver].
  destruct (Nat.ltb_spec n (length (rq_params req))); [right|left; naive_solver].
  eexists; split; [done|]. split; [done|]. eauto.
Qed.

Lemma coin_spec state wallet req :
  rq_method req ∈ ALL_METHODS →
  coin_refused state wallet req = false ↔
  ∀ w, starts_with "z_" (rq_method req) = true →
       registry_get_coin (app_registry state) wallet = Ok w → wh_coin w = Zcash.
Proof.
  intros H. unfold coin_refused. rewrite (coins_all _ H).
  destruct (starts_with "z_" (rq_method req)); [|naive_solver].
  destruct (registry_get_coin _ _) as [w|e]; [|naive_solver].
  split; [intros _ w' _ [= <-]; by destruct (wh_coin w)|]. intros Hw.
  by rewrite (Hw w eq_refl eq_refl).
Qed.

(** C37. The arity table, the coin table and the dispatcher name exactly the methods of
    [ALL_METHODS], each once, and the [z_] methods, and no others, are kept to Zcash wallets. A
    handler runs exactly when every gate admits its request: a request for a listed method the safelist does not hide, with no more arguments
    than the method declares and a wallet of a coin the method serves, runs that method's
    handler on the request, unchanged; every other request is refused before any handler runs,
    and leaves the state as it was: as an unknown method, whether it is unknown, hidden by the
    safelist or not served by the wallet's coin, or, only when it is neither, for its
    arguments. *)
Theorem dispatch_exact (state : app) (wallet : option string) (req : RpcRequest) :
  tables_agree ∧
  (admitted state wallet req →
     dispatch state wallet req = run_handler (rq_method req) state wallet req) ∧
  (¬ admitted state wallet req →
     dispatch state wallet req = (Err (RpcError.method_not_found (rq_method req)), state) ∨
     rq_method req ∈ ALL_METHODS ∧ safelisted_out state req = false ∧
     ∃ e, dispatch state wallet req = (Err e, state) ∧ err_code e = RPC_MISC_ERROR).
Proof.
  assert (safelisted_out state req = false ↔
    (app_allowed_methods state = [] ∨ rq_method req ∈ app_allowed_methods state)) as Hsafe.
  { unfold safelisted_out. rewrite andb_false_iff, !negb_false_iff, !bool_decide_eq_true. done. }
  split; [exact tables_agree_all|].
  unfold dispatch, dispatch_zecd, admitted. rewrite <- Hsafe.
  destruct (safelisted_out state req); [naive_solver|].
  destruct (arity_spec req) as [[-> Har]|(e & -> & Hc & n & Hn & Hlt)].
  2: { split; [intros (_ & _ & (n' & Hn' & H) & _); rewrite Hn in Hn'; injection Hn' as <-; lia|]. intros _. right.
       split; [|eauto]. apply arity_all. by rewrite Hn. }
  destruct (decide (rq_method req ∈ ALL_METHODS)) as [Hm|Hm].
  - rewrite <- (coin_spec _ _ _ Hm), bool_decide_eq_true_2 by (by apply dispatched_all).
    assert (∃ n, max_positional_args (rq_method req) = Some n ∧ (length (rq_params req) ≤ n)%nat).
    { apply arity_all in Hm. destruct (max_positional_args (rq_method req)) as [n|]; [eauto|done]. }
    destruct (coin_refused state wallet req); naive_solver.
  - rewrite bool_decide_eq_false_2 by (by rewrite dispatched_all).
    destruct (coin_refused state wallet req); naive_solver.
Qed.

(** ** The HTTP handler *)

Context (json_text : json → string) (from_slice : string → result string json).

(** A response envelope under an id: a result or an error, never both. *)
Definition envelope (id : json) (v : json) : Prop :=
  json_get "id" v = Some id ∧
  (∃ r, json_get "result" v = Some r ∧ json_get "error" v = Some JNull ∨
        json_get "result" v = Some JNull ∧ ∃ code m, json_get "error" v =
          Some (JObject [("code", json_num code); ("message", JString m)])).

(** The id a request is answered under. *)
Definition id_of (v : json) : json := default JNull (json_get "id" v).

Lemma from_value_id v :
  match from_value json_text v with
  | Ok req => rq_id req = id_of v
  | Err (id, e) => id = id_of v ∧ err_code e = RPC_INVALID_REQUEST
  end.
Proof. unfold from_value, id_of. repeat case_match; simplify_eq/=; done. Qed.

Lemma process_single_spec state wallet v resp status state' :
  process_single json_text state wallet v = (resp, status, state') →
  envelope (id_of v) resp ∧ (status = 200 ∨ status = 400 ∨ status = 404 ∨ status = 500) ∧
  (status = 200 ↔ json_get "error" resp = Some JNull).
Proof.
  assert (∀ e, status_for e = 400 ∨ status_for e = 404 ∨ status_for e = 500) as Hs.
  { intros e. unfold status_for, http_status_for_code. repeat case_match; auto. }
  assert (∀ id e, envelope id (error id e)) as He.
  { intros id e. split; [done|]. exists JNull. right. split; [done|]. by eexists _, _. }
  unfold process_single. pose proof (from_value_id v) as Hid.
  destruct (from_value json_text v) as [req|[id e]].
  - destruct (dispatch state wallet req) as [[value|e] s]; intros [= <- <- <-]; rewrite <- Hid.
    + split_and!; [|auto|done]. split; [done|]. exists value. by left.
    + specialize (Hs e). split_and!; [done|naive_solver|]. split; [lia|done].
  - destruct Hid as [-> _]. intros [= <- <- <-]. specialize (Hs e).
    split_and!; [done|naive_solver|]. split; [lia|done].
Qed.

Lemma process_batch_spec state wallet items out state' :
  process_batch json_text state wallet items = (out, state') →
  Forall2 (λ v resp, envelope (id_of v) resp) items out.
Proof.
  revert state out state'. induction items as [|v items IH]; intros state out state'; simpl.
  { intros [= <- _]. constructor. }
  destruct (process_single json_text state wallet v) as [[resp st] s1] eqn:E1.
  destruct (process_batch json_text s1 wallet items) as [out' s2] eqn:E2.
  intros [= <- _]. constructor; [|by eapply IH].
  by destruct (process_single_spec _ _ _ _ _ _ E1).
Qed.

(** Every request is answered, in the form its kind has. During shutdown and over the work
    queue's depth the answer is 503, and without credentials 401, and nothing is dispatched; a
    body that is not a request or a batch is answered with an error under a null id; a single
    request is answered under its own id by an envelope with a result or an error, never both,
    and 200 exactly when there is no error; a batch is answered 200, each item under its own id,
    in order. *)
Theorem http_contract (state : app) (wallet : option string) (auth_ok : bool) (body : string) :
  let '(resp, state') := handle json_text from_slice state wallet auth_ok body in
  if app_shutting_down state || (app_permits state =? 0)%nat
  then rs_status resp = 503 ∧ state' = state
  else if negb auth_ok then resp = unauthorized ∧ state' = state
  else match parse_body from_slice body with
       | Err e => state' = state ∧ rs_status resp = status_for e ∧
                  ∃ v, rs_body resp = JsonBody v ∧ envelope JNull v
       | Ok (Single v) => ∃ r, rs_body resp = JsonBody r ∧ envelope (id_of v) r ∧
                               (rs_status resp = 200 ↔ json_get "error" r = Some JNull)
       | Ok (Batch items) => rs_status resp = 200 ∧
           ∃ out, rs_body resp = JsonBody (JArray out) ∧
                  Forall2 (λ v r, envelope (id_of v) r) items out
       end.
Proof.
  unfold handle. destruct (app_shutting_down state); [done|].
  destruct (app_permits state =? 0)%nat; [done|]. cbn [orb].
  destruct auth_ok; cbn [negb]; [|done].
  destruct (parse_body from_slice body) as [[v|items]|e].
  - destruct (process_single json_text state wallet v) as [[resp st] s1] eqn:E. simpl.
    destruct (process_single_spec _ _ _ _ _ _ E) as (? & _ & ?). eauto.
  - destruct (process_batch json_text state wallet items) as [out s1] eqn:E. simpl.
    split; [done|]. exists out. split; [done|]. by eapply process_batch_spec.
  - simpl. split_and!; [done|done|]. eexists. split; [done|]. split; [done|]. exists JNull. right.
    split; [done|]. by eexists _, _.
Qed.
End rpc.
