(* ===== verification/Auth.v ===== *)
(** * Auth: HTTP Basic authentication ([src/src/server/auth.rs])

    Credentials in Bitcoin Core's [rpcauth] format, the credentials a configuration admits, and
    the check of an [Authorization] header. HMAC-SHA256, base64 and hexadecimal are
    [AuthCrypto]. *)

From S2P Require Export Text Errors.

(** ** UTF-8 ([std::str::from_utf8]) *)

Definition byte_in (lo hi : Z) (c : ascii) : bool := (lo <=? byte_of c) && (byte_of c <=? hi).

(** The lengths and second-byte ranges of well-formed sequences. *)
Definition utf8_lead (c : ascii) : option (nat * Z * Z) :=
  let b := byte_of c in
  if b <? 128 then Some (0%nat, 128, 191)
  else if (194 <=? b) && (b <=? 223) then Some (1%nat, 128, 191)
  else if b =? 224 then Some (2%nat, 160, 191)
  else if (225 <=? b) && (b <=? 236) then Some (2%nat, 128, 191)
  else if b =? 237 then Some (2%nat, 128, 159)
  else if (238 <=? b) && (b <=? 239) then Some (2%nat, 128, 191)
  else if b =? 240 then Some (3%nat, 144, 191)
  else if (241 <=? b) && (b <=? 243) then Some (3%nat, 128, 191)
  else if b =? 244 then Some (3%nat, 128, 143)
  else None.

(** [more] continuation bytes are due, the next of them in [lo, hi]. *)
Fixpoint utf8_from (more : nat) (lo hi : Z) (s : string) : bool :=
  match s with
  | "" => (more =? 0)%nat
  | String c rest =>
      match more with
      | O => match utf8_lead c with Some (m, l, h) => utf8_from m l h rest | None => false end
      | S more => byte_in lo hi c && utf8_from more 128 191 rest
      end
  end.
Definition from_utf8 (s : string) : option string := if utf8_from 0 128 191 s then Some s else None.

(** ** Credentials *)

(** The libraries: the digest of a key and a message; the hexadecimal text of bytes, and reading
    exactly 32 bytes back; standard base64. *)
Class AuthCrypto := {
  hmac_sha256 : string → string → string;
  hex_encode : string → string;
  hex_decode_32 : string → option string;
  base64_decode : string → option string;
  base64_url_encode : string → string;
}.

Record PasswordHash := { ph_salt : string; ph_hash : string }.

Section auth.
Context `{AC : AuthCrypto}.

Definition compute (password salt : string) : string := hmac_sha256 salt password.

(** [PasswordHash::from_bare], under a fresh random salt. *)
Definition from_bare (password random_salt : string) : PasswordHash :=
  {| ph_salt := random_salt; ph_hash := compute password random_salt |}.

(** [check_ct]: the comparison is constant-time, the answer the equality. *)
Definition check_ct (h : PasswordHash) (password : string) : bool :=
  bool_decide (compute password (ph_salt h) = ph_hash h).

(** [from_str] and [Display]. *)
Definition password_hash_parse (s : string) : result string PasswordHash :=
  match split_once "$" s with
  | None => Err "expected <salt>$<hmac-sha256 hex>"
  | Some (salt, hash_hex) =>
      match hex_decode_32 hash_hex with
      | None => Err "hash is not 64 hex characters"
      | Some hash => Ok {| ph_salt := salt; ph_hash := hash |}
      end
  end.
Definition password_hash_display (h : PasswordHash) : string :=
  ph_salt h +:+ "$" +:+ hex_encode (ph_hash h).

(** [generate_rpcauth], of the random salt and bytes drawn. *)
Definition generate_rpcauth (username : string) (password : option string)
    (salt random_32 : string) : string * option string :=
  let '(password, generated) :=
    match password with
    | Some p => (p, None)
    | None => let p := base64_url_encode random_32 in (p, Some p)
    end in
  (username +:+ ":" +:+ salt +:+ "$" +:+ hex_encode (compute password salt), generated).

(** [run_rpcauth]: the lines printed. *)
Definition run_rpcauth (username : string) (password : option string) (salt random_32 : string) :
    result string (list string) :=
  if bool_decide (password = Some "") then
    Err ("refusing to generate an rpcauth line for an empty password; omit the password to "
         +:+ "have one generated")
  else
    let '(line, generated) := generate_rpcauth username password salt random_32 in
    Ok (["Add this line to your zecd config under [rpc]:"; "";
         "auth = [" +:+ quoted line +:+ "]"; ""]
        ++ match generated with
           | Some p =>
               ["Your RPC password (store it now - it is not recoverable):"; ""; p; ""]
           | None => []
           end).

(** The [rpc] section, as authentication reads it. *)
Record RpcConfig := {
  rc_user : option string; rc_password : option string; rc_auth : list string;
  rc_cookiefile : option string;
}.

Definition parse_auth_entry (entry : string) : result string (string * PasswordHash) :=
  match split_once ":" entry with
  | None => Err "invalid rpcauth entry (expected user:salt$hash)"
  | Some (user, pwhash) =>
      match password_hash_parse pwhash with
      | Ok h => Ok (user, h)
      | Err _ => Err ("invalid rpcauth entry for user " +:+ user)
      end
  end.
(** [parse_auth_entries]: the first bad entry refuses the configuration. *)
Definition parse_auth_entries (rpc : RpcConfig) : result string (list (string * PasswordHash)) :=
  foldr (λ entry acc, e ← parse_auth_entry entry; l ← acc; Ok (e :: l)) (Ok []) (rc_auth rpc).

Definition reject_empty_passwords (rpc : RpcConfig) (entries : list (string * PasswordHash)) :
    result string () :=
  if bool_decide (rc_password rpc = Some "") then
    Err ("the RPC password is empty (check [rpc] password_file, [rpc] password, "
         +:+ "--rpcpassword and ZECD_RPC_PASSWORD); an empty password would let anyone log in "
         +:+ "as the RPC user")
  else
    match List.find (λ e, check_ct e.2 "") entries with
    | Some (user, _) =>
        Err ("the [rpc] auth entry for user " +:+ user
             +:+ " accepts an empty password; regenerate it with `zecd rpcauth " +:+ user +:+ "`")
    | None => Ok tt
    end.

Definition no_auth_configured : string :=
  "no RPC auth configured: set [rpc] user+password, auth, or a cookiefile".

(** [check_config]: the verdict of [from_config] without its cookie. *)
Definition check_config (rpc : RpcConfig) : result string () :=
  entries ← parse_auth_entries rpc;
  _ ← reject_empty_passwords rpc entries;
  if is_some (rc_user rpc) && is_some (rc_password rpc) || is_some (rc_cookiefile rpc) then Ok tt
  else Err no_auth_configured.

(** [Authenticator::from_config], of the salt drawn for the bare password, the random cookie
    password and how writing the cookie file ends: the credentials and the cookie written. *)
Definition from_config (rpc : RpcConfig) (salt cookie_password : string)
    (write_cookie : string → string → string → result string ()) :
    result string (list (string * PasswordHash)) :=
  users ← parse_auth_entries rpc;
  _ ← reject_empty_passwords rpc users;
  match rc_user rpc, rc_password rpc with
  | Some user, Some password => Ok (users ++ [(user, from_bare password salt)])
  | _, _ =>
      cookiefile ← ok_or (rc_cookiefile rpc) no_auth_configured;
      _ ← map_err (λ _, "writing cookie file " +:+ cookiefile)
            (write_cookie cookiefile "__cookie__" cookie_password);
      Ok (users ++ [("__cookie__", from_bare cookie_password salt)])
  end.

(** The user and password an [Authorization] header claims. *)
Definition basic_credentials (header : option string) : option (string * string) :=
  header ← header;
  b64 ← match strip_prefix "Basic " header with
        | Some b => Some b
        | None => strip_prefix "basic " header
        end;
  decoded ← base64_decode (trim b64);
  creds ← from_utf8 decoded;
  split_once ":" creds.

(** [Authenticator::check]: every credential is compared, without short-circuit. *)
Definition check (users : list (string * PasswordHash)) (header : option string) : bool :=
  match basic_credentials header with
  | None => false
  | Some (user, password) =>
      foldl (λ found u, found || (bool_decide (u.1 = user) && check_ct u.2 password)) false users
  end.

Definition basic_auth_username (header : option string) : option string :=
  fst <$> basic_credentials header.
End auth.
