(* ===== verification/AuthSpec.v ===== *)
(** * AuthSpec: who may log in

    The check accepts exactly the configured credentials, the empty password is refused, and a
    generated credential line logs its user in. *)

From S2P Require Export Auth.

(** ** Splitting at a separator *)

Definition lacks (c : ascii) (s : string) : Prop :=
  all_bytes (λ x, negb (bool_decide (x = c))) s = true.

Lemma split_once_here (c : ascii) (a b : string) :
  lacks c a → split_once (String c "") (a +:+ String c b) = Some (a, b).
Proof.
  unfold lacks. induction a as [|x a IH]; simpl; intros H.
  - by rewrite bool_decide_eq_true_2.
  - apply andb_true_iff in H as [Hx Ha]. apply negb_true_iff, bool_decide_eq_false in Hx.
    rewrite bool_decide_eq_false_2 by congruence. by rewrite IH.
Qed.

Section auth.
Context {AC : AuthCrypto}.

(** ** The check *)

Lemma check_spec users header :
  check users header = true ↔
  ∃ user password h, basic_credentials header = Some (user, password) ∧ (user, h) ∈ users ∧
    compute password (ph_salt h) = ph_hash h.
Proof.
  unfold check. destruct (basic_credentials header) as [[user password]|]; [|naive_solver].
  assert (∀ l b, foldl (λ found u, found || (bool_decide (u.1 = user) && check_ct u.2 password)) b l
    = b || existsb (λ u, bool_decide (u.1 = user) && check_ct u.2 password) l) as Hf.
  { induction l as [|u l IH]; intros b; simpl; [by rewrite orb_false_r|]. by rewrite IH, orb_assoc. }
  rewrite Hf. cbn [orb]. rewrite existsb_exists. unfold check_ct. split.
  - intros ([u h] & Hin & [Hu Hp]%andb_true_iff).
    apply bool_decide_eq_true in Hu, Hp. simpl in *. subst u. exists user, password, h.
    by split_and!; [|apply list_elem_of_In|].
  - intros (u & p & h & [= -> ->] & Hin & Hp). exists (u, h).
    split; [by apply list_elem_of_In|]. simpl. by rewrite !bool_decide_eq_true_2.
Qed.

(** ** The credentials of a configuration *)

Lemma entries_spec rpc users :
  parse_auth_entries rpc = Ok users → Forall2 (λ e u, parse_auth_entry e = Ok u) (rc_auth rpc) users.
Proof.
  unfold parse_auth_entries. generalize (rc_auth rpc). intros l. revert users.
  induction l as [|e l IH]; intros users; cbn [foldr]; [intros [= <-]; constructor|].
  intros (u & Hu & H)%bind_Ok_inv. apply bind_Ok_inv in H as (us & H & [= <-]).
  constructor; [done|]. by apply IH.
Qed.

(** The pair or the cookie a configuration adds to its entries. *)
Inductive bare_credential (rpc : RpcConfig) (cookie : string) : string → string → Prop :=
  | bare_pair user password :
      rc_user rpc = Some user → rc_password rpc = Some password →
      bare_credential rpc cookie user password
  | bare_cookie :
      rc_user rpc = None ∨ rc_password rpc = None → is_some (rc_cookiefile rpc) = true →
      bare_credential rpc cookie "__cookie__" cookie.

Lemma bare_unique rpc cookie u p u' p' :
  bare_credential rpc cookie u p → bare_credential rpc cookie u' p' → u = u' ∧ p = p'.
Proof. destruct 1 as [? ? H1 H2|[H1|H1] _], 1 as [? ? H3 H4|[H3|H3] _]; naive_solver congruence. Qed.

Lemma from_config_spec rpc salt cookie write users :
  from_config rpc salt cookie write = Ok users →
  ∃ entries user password, users = entries ++ [(user, from_bare password salt)] ∧
    Forall2 (λ e u, parse_auth_entry e = Ok u) (rc_auth rpc) entries ∧
    reject_empty_passwords rpc entries = Ok tt ∧ bare_credential rpc cookie user password.
Proof.
  unfold from_config. intros (entries & He & H)%bind_Ok_inv.
  apply bind_Ok_inv in H as ([] & Hr & H). apply entries_spec in He.
  destruct (rc_user rpc) as [user|] eqn:Eu, (rc_password rpc) as [password|] eqn:Ep.
  1: { injection H as <-. exists entries, user, password. split_and!; try done. by constructor. }
  all: apply bind_Ok_inv in H as (file & Hf & H); apply bind_Ok_inv in H as ([] & _ & [= <-]).
  all: apply ok_or_Ok in Hf; exists entries, "__cookie__", cookie; split_and!; try done.
  all: constructor; [auto|by rewrite Hf].
Qed.

Lemma rejected_empty rpc entries u h :
  reject_empty_passwords rpc entries = Ok tt →
  rc_password rpc ≠ Some "" ∧ ((u, h) ∈ entries → compute "" (ph_salt h) ≠ ph_hash h).
Proof.
  unfold reject_empty_passwords. case_bool_decide as Hp; [done|].
  destruct (List.find _ entries) as [[]|] eqn:E; [done|]. intros _. split; [done|]. intros Hin.
  apply list_elem_of_In in Hin. apply (find_none _ _ E) in Hin.
  by apply bool_decide_eq_false in Hin.
Qed.

Lemma entry_of {B} (f : string → result string B) l us u :
  Forall2 (λ e u, f e = Ok u) l us → u ∈ us ↔ ∃ e, e ∈ l ∧ f e = Ok u.
Proof.
  intros Hf. split.
  - intros (i & Hi)%list_elem_of_lookup. destruct (Forall2_lookup_r _ _ _ _ _ Hf Hi) as (e & He & ?).
    exists e. split; [|done]. by eapply list_elem_of_lookup_2.
  - intros (e & (i & Hi)%list_elem_of_lookup & He).
    destruct (Forall2_lookup_l _ _ _ _ _ Hf Hi) as (u' & Hu & Heq).
    rewrite He in Heq. injection Heq as <-. by eapply list_elem_of_lookup_2.
Qed.

(** C36. The check admits exactly the configured credentials. Where the configuration is accepted, a
    header passes exactly when it carries a user and a password that an [rpcauth] entry of that
    user has the digest of, or that the configured pair, or the cookie in its absence, has; a
    login with the empty password passes only if its digest collides with that of the pair or
    the cookie, whose password, when configured, is not empty; and the side-effect-free verdict
    on the configuration is the same. *)
Theorem auth_exact (rpc : RpcConfig) (salt cookie : string)
    (write : string → string → string → result string ()) (users : list (string * PasswordHash))
    (header : option string) :
  from_config rpc salt cookie write = Ok users →
  (check users header = true ↔
     ∃ user password, basic_credentials header = Some (user, password) ∧
       ((∃ e h, e ∈ rc_auth rpc ∧ parse_auth_entry e = Ok (user, h) ∧
                hmac_sha256 (ph_salt h) password = ph_hash h) ∨
        ∃ configured, bare_credential rpc cookie user configured ∧
                      hmac_sha256 salt password = hmac_sha256 salt configured)) ∧
  (∀ user, basic_credentials header = Some (user, "") → check users header = true →
     ∃ configured, bare_credential rpc cookie user configured ∧ rc_password rpc ≠ Some "" ∧
                   hmac_sha256 salt "" = hmac_sha256 salt configured) ∧
  check_config rpc = Ok tt.
Proof.
  intros Hc. destruct (from_config_spec _ _ _ _ _ Hc) as (entries & u0 & p0 & -> & He & Hr & Hb).
  assert (∀ user password, (∃ h, (user, h) ∈ entries ++ [(u0, from_bare p0 salt)] ∧
      compute password (ph_salt h) = ph_hash h) ↔
    (∃ h, (user, h) ∈ entries ∧ hmac_sha256 (ph_salt h) password = ph_hash h) ∨
    user = u0 ∧ hmac_sha256 salt password = hmac_sha256 salt p0) as Hin.
  { intros user password. setoid_rewrite elem_of_app. setoid_rewrite list_elem_of_singleton.
    unfold compute, from_bare. split; [|intros [(h & ? & ?)|[-> ?]]; eauto].
    intros (h & [?|[= -> ->]] & ?); [left; eauto|by right]. }
  assert (∀ user configured, bare_credential rpc cookie user configured → user = u0 ∧ configured = p0)
    as Huniq by (intros ? ? Hb'; by apply (bare_unique _ _ _ _ _ _ Hb' Hb)).
  rewrite check_spec. split_and!.
  - split.
    + intros (user & password & h & Hcr & Hh). exists user, password. split; [done|].
      destruct (proj1 (Hin user password)) as [(h' & Hh' & ?)|[-> ?]]; [eauto| |right; eauto].
      apply (entry_of _ _ _ _ He) in Hh' as (e & ? & ?). left. eauto.
    + intros (user & password & Hcr & Hor). exists user, password.
      destruct (proj2 (Hin user password)) as (h & ? & ?); [|eauto].
      destruct Hor as [(e & h & He1 & He2 & ?)|(configured & [-> ->]%Huniq & ?)]; [left|by right].
      exists h. split; [|done]. apply (entry_of _ _ _ _ He). eauto.
  - intros user Hcr (user' & password & h & Hcr' & Hh)%check_spec. rewrite Hcr in Hcr'. injection Hcr' as <- <-.
    destruct (proj1 (Hin user "")) as [(h' & Hh' & Hd)|[-> ?]]; [eauto| |].
    + by destruct (proj2 (rejected_empty _ _ user h' Hr) Hh').
    + exists p0. split_and!; [done|by apply (rejected_empty _ _ u0 (from_bare p0 salt) Hr)|done].
  - unfold check_config, from_config in *. apply bind_Ok_inv in Hc as (us & Hp & H).
    apply bind_Ok_inv in H as ([] & Hrj & H). rewrite Hp. simpl. rewrite Hrj. simpl.
    destruct (rc_user rpc), (rc_password rpc); cbn [is_some andb orb] in *; [done|..].
    all: apply bind_Ok_inv in H as (file & Hf & _); apply ok_or_Ok in Hf; by rewrite Hf.
Qed.

(** A minted credential logs its user in. The line minted for a user under a password, or under a
    generated one that is then shown, is an entry the configuration reads back, and a header
    carrying that user and that password passes the check. *)
Theorem minted_line_logs_in (user : string) (password : option string) (salt random : string)
    (users : list (string * PasswordHash)) (header : option string) :
  (∀ k m, hex_decode_32 (hex_encode (hmac_sha256 k m)) = Some (hmac_sha256 k m)) →
  lacks ":" user → lacks "$" salt →
  let '(line, generated) := generate_rpcauth user password salt random in
  (is_some generated = true ↔ password = None) ∧
  ∃ h, parse_auth_entry line = Ok (user, h) ∧ password_hash_parse (password_hash_display h) = Ok h ∧
    ∀ p, password = Some p ∨ generated = Some p → (user, h) ∈ users →
         basic_credentials header = Some (user, p) → check users header = true.
Proof.
  intros Hhex Hu Hs. unfold generate_rpcauth.
  set (p0 := default (base64_url_encode random) password).
  assert (∀ p, parse_auth_entry (user +:+ ":" +:+ salt +:+ "$" +:+ hex_encode (compute p salt)) =
    Ok (user, from_bare p salt)) as Hparse.
  { intros p. unfold parse_auth_entry. cbn [String.append]. rewrite (split_once_here ":" user) by done.
    unfold password_hash_parse. rewrite (split_once_here "$" salt) by done.
    unfold compute. by rewrite Hhex. }
  assert (∀ p, password_hash_parse (password_hash_display (from_bare p salt)) = Ok (from_bare p salt))
    as Hround.
  { intros p. unfold password_hash_parse, password_hash_display. cbn.
    rewrite (split_once_here "$" salt) by done. unfold compute. by rewrite Hhex. }
  destruct password as [p|]; simpl; (split; [done|]); eexists; (split; [apply Hparse|]);
    (split; [apply Hround|]); intros p' Hp Hin Hh; apply check_spec; eexists _, _, _; split; [done| |done|].
  all: split; [done|]; naive_solver.
Qed.
End auth.

(** ** A concrete configuration *)

Module AuthExample.
(** The digest is the key and the message, the encodings are the identity. *)
#[export] Instance ex_crypto : AuthCrypto := {|
  hmac_sha256 k m := k +:+ m; hex_encode s := s; hex_decode_32 s := Some s;
  base64_decode s := Some s; base64_url_encode s := s |}.
Definition ex_rpc : RpcConfig := {|
  rc_user := Some "rpc"; rc_password := Some "secret"; rc_auth := ["alice:salt$saltpw"];
  rc_cookiefile := None |}.
Definition ex_users : list (string * PasswordHash) :=
  [("alice", {| ph_salt := "salt"; ph_hash := "saltpw" |});
   ("rpc", {| ph_salt := "s2"; ph_hash := "s2secret" |})].
End AuthExample.

Example auth_exact_witness :
  let crypto := AuthExample.ex_crypto in
  let write := λ _ _ _, Ok tt in
  let header := Some "Basic alice:pw" in
  from_config AuthExample.ex_rpc "s2" "cookie" write = Ok AuthExample.ex_users ∧
  check AuthExample.ex_users header = true ∧
  check AuthExample.ex_users (Some "Basic alice:secret") = false ∧
  check_config AuthExample.ex_rpc = Ok tt.
Proof.
  split; [reflexivity|]. split; [reflexivity|]. split; [reflexivity|].
  exact (proj2 (proj2 (auth_exact (AC := AuthExample.ex_crypto) AuthExample.ex_rpc "s2" "cookie"
    (λ _ _ _, Ok tt) AuthExample.ex_users (Some "Basic alice:pw") eq_refl))).
Defined.

Example minted_line_logs_in_witness :
  let crypto := AuthExample.ex_crypto in
  ∃ h, parse_auth_entry "bob:00ff$00ffpw" = Ok ("bob", h) ∧
    check [("bob", h)] (Some "Basic bob:pw") = true.
Proof.
  destruct (minted_line_logs_in (AC := AuthExample.ex_crypto) "bob" (Some "pw") "00ff" ""
              [("bob", {| ph_salt := "00ff"; ph_hash := "00ffpw" |})] (Some "Basic bob:pw")
              (λ _ _, eq_refl) eq_refl eq_refl) as (_ & h & Hp & _ & Hlog).
  exists h. split; [exact Hp|].
  injection Hp as <-. refine (Hlog "pw" (or_introl eq_refl) _ eq_refl). by left.
Defined.
