(* ===== verification/ChainRpc.v ===== *)
(** * ChainRpc: the chain, control, network and utility methods ([src/src/rpc/blockchain.rs],
      [control.rs], [network.rs], [util.rs])

    Chain reads answer from what the wallet publishes and from its table of scanned blocks
    ([BlockTable]); the [waitfor] family waits on publications. Hexadecimal and the text of
    doubles are parameters, as is the protocol crate's schedule. *)

From S2P Require Export Rpc Amount.

(** [zats_to_value], on a literal. *)
Definition zats_json (zats : Z) : json := JNumber (zats_literal zats).

(** ** State *)

Record AppState := {
  as_network : ZNetwork;
  as_registry : WalletRegistry;
  as_started_at : Z;
  as_shutting_down : bool;
  as_shutdown_signalled : bool;
  as_active : Active.ActiveCommands;
}.

(** [trigger_shutdown]: the flag, then the signal. *)
Definition trigger_shutdown (s : AppState) : AppState :=
  {| as_network := as_network s; as_registry := as_registry s; as_started_at := as_started_at s;
     as_shutting_down := true; as_shutdown_signalled := true; as_active := as_active s |}.

(** ** Control *)

Definition stop (s : AppState) : result RpcError json * AppState :=
  if negb (is_regtest (as_network s)) then (Err (RpcError.method_not_found "stop"), s)
  else (Ok (JString "zecd stopping"), trigger_shutdown s).

(** Whole seconds since the start; instants are in nanoseconds. *)
Definition uptime (s : AppState) (now : Z) : json :=
  json_num (sat_sub now (as_started_at s) / 1000000000).

Definition getrpcinfo (s : AppState) (now : Z) : json :=
  JObject [("active_commands",
             JArray ((λ c, JObject [("method", JString c.1);
                                    ("duration", json_num (wrap_u64 c.2))])
                       <$> Active.snapshot (as_active s) now));
           ("logpath", JString "")].

(** ** Network *)

(** The upstream of the default wallet is connected. *)
Definition connected (s : AppState) : bool :=
  match registry_get (as_registry s) None with Ok w => ss_connected (wh_status w) | Err _ => false end.

(** The leading digits of each of the first three components of the crate's version. *)
Fixpoint split_char (c : ascii) (s : string) : list string :=
  match s with
  | "" => [""]
  | String x rest =>
      if bool_decide (x = c) then "" :: split_char c rest
      else match split_char c rest with
           | w :: ws => String x w :: ws
           | [] => [String x ""]
           end
  end.
Definition version_component (parts : list string) (i : nat) : Z :=
  match parts !! i with
  | Some p => default 0 (parse_unsigned u64_max (take_digits p).1)
  | None => 0
  end.
Definition version_number (cargo_version : string) : Z :=
  let parts := split_char "." cargo_version in
  wrap_u64 (wrap_u64 (wrap_u64 (version_component parts 0 * 10000)
                      + wrap_u64 (version_component parts 1 * 100))
            + version_component parts 2).

Definition getnetworkinfo (protocol_version : ZNetwork → Z) (cargo_version : string)
    (s : AppState) : json :=
  let up := if connected s then 1 else 0 in
  JObject [("version", json_num (version_number cargo_version));
           ("subversion", JString ("/zecd:" +:+ cargo_version +:+ "/"));
           ("protocolversion", json_num (protocol_version (as_network s)));
           ("localservices", JString "0000000000000000"); ("localservicesnames", JArray []);
           ("localrelay", JBool false); ("timeoffset", json_num 0); ("networkactive", JBool true);
           ("connections", json_num up); ("connections_in", json_num 0);
           ("connections_out", json_num up); ("networks", JArray []);
           ("relayfee", zats_json 1000); ("incrementalfee", zats_json 1000);
           ("localaddresses", JArray []); ("warnings", JString "")].

Definition getconnectioncount (s : AppState) : json := json_num (if connected s then 1 else 0).

Definition getpeerinfo (s : AppState) : json :=
  match registry_get (as_registry s) None with
  | Err _ => JArray []
  | Ok w =>
      let st := wh_status w in
      if negb (ss_connected st) then JArray []
      else JArray [JObject [("id", json_num 0); ("addr", JString (default "" (ss_server st)));
                            ("inbound", JBool false);
                            ("conn_state", JString (conn_state_str (ss_conn_state st)));
                            ("syncing", JBool (ss_scanning st || (0 <? ss_pending_enhancements st)))]]
  end.

(** ** Utility *)

Definition settxfee (req : RpcRequest) : result RpcError json :=
  Err (RpcError.invalid_parameter
    ("settxfee is not supported: fees follow ZIP-317 (computed at transaction-build time) "
     +:+ "and are never client-settable")).
Definition estimatesmartfee (req : RpcRequest) : json :=
  let blocks := default 6 (param req 0 ≫= json_as_i64) in
  JObject [("feerate", zats_json 1000); ("blocks", json_num blocks)].
Definition estimatefee (req : RpcRequest) : json := zats_json 1000.
Definition getmempoolinfo : json :=
  JObject [("loaded", JBool true); ("size", json_num 0); ("bytes", json_num 0);
           ("usage", json_num 0); ("total_fee", zats_json 0); ("maxmempool", json_num 300000000);
           ("mempoolminfee", zats_json 1000); ("minrelaytxfee", zats_json 1000)].

(** ** Chain reads *)

(** The wallet's table of scanned blocks ([read.rs]): the hash and time at a height, the median
    time past, the height of a hash. *)
Class BlockTable := {
  block_info_at : WalletHandle → Z → result RpcError (option (string * Z));
  median_time_past : WalletHandle → Z → result RpcError (option Z);
  block_height_by_hash : WalletHandle → string → result RpcError (option Z);
}.

Section chain.
Context `{BT : BlockTable}.

(** [best_block] of a wallet: the fully scanned block's height, hash and time. *)
Definition best_block_of (w : WalletHandle) : result RpcError (Z * option string * option Z) :=
  let st := wh_status w in
  let fallback := Ok (default 0 (ss_fully_scanned st), ss_best_block_hash st, None) in
  match ss_fully_scanned st with
  | Some h =>
      info ← block_info_at w h;
      match info with
      | Some (hash, time) => Ok (h, Some hash, Some time)
      | None => fallback
      end
  | None => fallback
  end.
Definition best_block (s : AppState) (wallet : option string) :
    result RpcError (Z * option string * option Z) :=
  w ← registry_get (as_registry s) wallet; best_block_of w.

(** The protocol crate: the schedule of a network and the branch in force at a height. *)
Context (scheduled : ZNetwork → list ScheduledUpgrade) (branch_at : ZNetwork → Z → Z)
        (f64_literal : Q → string).

Definition schedule_json (n : ZNetwork) (height : Z) : json * json :=
  (JObject ((λ u, (hex_pad 8 (su_branch_id u),
                   JObject [("name", JString (su_name u));
                            ("activationheight", json_num (su_activation_height u));
                            ("status", JString (if su_activation_height u <=? height
                                                then "active" else "pending"))]))
              <$> scheduled n),
   JObject [("chaintip", JString (hex_pad 8 (branch_at n height)));
            ("nextblock", JString (hex_pad 8 (branch_at n (u32_sat_add height 1))))]).

Definition getblockchaininfo (s : AppState) (wallet : option string) : result RpcError json :=
  w ← registry_get (as_registry s) wallet;
  let st := wh_status w in
  best ← best_block s wallet;
  let '(blocks, best_hash, best_time) := best in
  let headers := default blocks (ss_chain_tip st) in
  let mediantime := match median_time_past w blocks with Ok m => m | Err _ => None end in
  let '(upgrades, consensus) := schedule_json (wh_network w) headers in
  Ok (JObject [("chain", JString (network_name (wh_network w))); ("blocks", json_num blocks);
    ("headers", json_num headers); ("bestblockhash", JString (default "" best_hash));
    ("difficulty", JNumber (f64_literal 1)); ("time", json_num (default 0 best_time));
    ("mediantime", json_num (default 0 (match mediantime with Some m => Some m | None => best_time end)));
    ("verificationprogress", JNumber (f64_literal (ss_scan_progress st)));
    ("initialblockdownload", JBool (ss_scanning st || (0 <? ss_pending_enhancements st)));
    ("size_on_disk", json_num 0); ("pruned", JBool false); ("upgrades", upgrades);
    ("consensus", consensus); ("warnings", JString (default "" (ss_upstream_refusal st)))]).

Definition getblockcount (s : AppState) (wallet : option string) : result RpcError json :=
  w ← registry_get (as_registry s) wallet;
  Ok (json_num (default 0 (ss_fully_scanned (wh_status w)))).

Definition getbestblockhash (s : AppState) (wallet : option string) : result RpcError json :=
  best ← best_block s wallet;
  match best with
  | (_, Some hash, _) => Ok (JString hash)
  | _ => Err (RpcError.misc "best block hash not yet known (still syncing)")
  end.

(** A height argument: omitted, not an integer, out of [u32]'s range. *)
Definition height_argument (req : RpcRequest) (missing : string) : result RpcError Z :=
  match param_given req 0 with
  | None => Err (RpcError.missing_param missing)
  | Some v =>
      n ← ok_or (json_as_i64 v) (RpcError.type_error "Block height must be an integer");
      if (0 <=? n) && (n <=? u32_max) then Ok n
      else Err (RpcError.invalid_parameter "Block height out of range")
  end.

Definition getblockhash (s : AppState) (wallet : option string) (req : RpcRequest) :
    result RpcError json :=
  height ← height_argument req "getblockhash requires a height";
  w ← registry_get (as_registry s) wallet;
  info ← block_info_at w height;
  match info with
  | Some (hash, _) => Ok (JString hash)
  | None =>
      let st := wh_status w in
      match (if bool_decide (ss_chain_tip st = Some height) then ss_best_block_hash st else None) with
      | Some hash => Ok (JString hash)
      | None => Err (RpcError.invalid_parameter "Block height out of range")
      end
  end.

Context (hex_valid : string → bool).

Definition parse_blockhash_param (s : string) : result RpcError () :=
  if negb (String.length s =? 64)%nat then
    Err (RpcError.invalid_parameter ("blockhash must be of length 64 (not "
      +:+ dec (Z.of_nat (String.length s)) +:+ ", for '" +:+ s +:+ "')"))
  else if negb (hex_valid s) then
    Err (RpcError.invalid_parameter ("blockhash must be hexadecimal string (not '" +:+ s +:+ "')"))
  else Ok tt.

Definition block_not_found : RpcError := RpcError.invalid_address_or_key "Block not found".

Definition getblockheader (s : AppState) (wallet : option string) (req : RpcRequest) :
    result RpcError json :=
  hash ← require_str req 0 "getblockheader requires a block hash";
  _ ← parse_blockhash_param hash;
  _ ← match param req 1 with
      | None | Some JNull | Some (JBool true) => Ok tt
      | Some (JBool false) =>
          Err (RpcError.invalid_parameter ("verbose=false is not supported: a light wallet does "
            +:+ "not store serialized block headers"))
      | Some _ => Err (RpcError.type_error "verbose must be a boolean")
      end;
  w ← registry_get (as_registry s) wallet;
  found ← block_height_by_hash w hash;
  height ← ok_or found block_not_found;
  info ← block_info_at w height;
  info ← ok_or info block_not_found;
  let time := info.2 in
  let mediantime := match median_time_past w height with Ok m => m | Err _ => None end in
  prev ← (if 1 <=? height then block_info_at w (height - 1) else Ok None);
  next ← block_info_at w (wrap_u32 (height + 1));
  Ok (JObject ([("hash", JString hash);
      ("confirmations", json_num (confirmations (wh_status w) (Some height)));
      ("height", json_num height); ("time", json_num time);
      ("mediantime", json_num (default time mediantime))]
    ++ match prev with Some (h, _) => [("previousblockhash", JString h)] | None => [] end
    ++ match next with Some (h, _) => [("nextblockhash", JString h)] | None => [] end)).

(** ** Waiting *)

(** Durations are in nanoseconds. *)
Definition WAIT_RECHECK_INTERVAL : Z := 1000000000.

Definition wait_result (height : Z) (hash : option string) : json :=
  JObject [("hash", JString (default "" hash)); ("height", json_num height)].

Definition wait_timeout (req : RpcRequest) (i : nat) : result RpcError (option Z) :=
  millis ← match param_given req i with
           | None => Ok 0
           | Some v => ok_or (json_as_i64 v)
                         (RpcError.type_error "Timeout must be an integer number of milliseconds")
           end;
  if millis <? 0 then Err (RpcError.misc "Negative timeout")
  else Ok (if 0 <? millis then Some (millis * 1000000) else None).

(** How a wait of the [select!] ends. *)
Inductive Wake := Shutdown | Slept | Changed | ActorGone.

(** What a waiter sees: at its i-th look, the node's state and the instant after the look, and
    how the wait that follows ends. *)
Record WaitEnv := { we_state : nat → AppState; we_now : nat → Z; we_wake : nat → Wake }.

Definition deadline_passed (deadline : option Z) (now : Z) : bool :=
  match deadline with Some d => d <=? now | None => false end.

(** How long the wait sleeps at most: to the deadline, and no longer than the re-check. *)
Definition nap (deadline : option Z) (now : Z) : Z :=
  match deadline with
  | Some d => Z.min (d - now) WAIT_RECHECK_INTERVAL
  | None => WAIT_RECHECK_INTERVAL
  end.

(** The loop both waits share: the answer of the first look that ends it; [None] is still
    waiting when the fuel ends. *)
Fixpoint wait_loop {A} (stop : nat → bool) (answer : nat → A) (deadline : option Z) (e : WaitEnv)
    (fuel i : nat) : option A :=
  match fuel with
  | O => None
  | S fuel =>
      if stop i || deadline_passed deadline (we_now e i) then Some (answer i)
      else match we_wake e i with
           | Shutdown | ActorGone => Some (answer i)
           | Slept | Changed => wait_loop stop answer deadline e fuel (S i)
           end
  end.

(** [wait_for_best_block]: the deadline counts from the instant [start]; a failing look is the
    answer. *)
Definition look_satisfied (satisfied : Z → option string → bool) (s : AppState)
    (wallet : option string) : bool :=
  match best_block s wallet with
  | Ok (height, hash, _) => satisfied height hash
  | Err _ => true
  end.
Definition look_answer (s : AppState) (wallet : option string) : result RpcError json :=
  best ← best_block s wallet; Ok (wait_result best.1.1 best.1.2).
Definition wait_for_best_block (wallet : option string) (timeout : option Z)
    (satisfied : Z → option string → bool) (e : WaitEnv) (start : Z) (fuel : nat) :
    option (result RpcError json) :=
  match registry_get (as_registry (we_state e 0)) wallet with
  | Err err => Some (Err err)
  | Ok _ =>
      wait_loop (λ i, look_satisfied satisfied (we_state e i) wallet)
        (λ i, look_answer (we_state e i) wallet) ((λ t, start + t) <$> timeout) e fuel 0
  end.

(** The three block waits, over the state [s] at the call. *)
Definition waitfornewblock (s : AppState) (wallet : option string) (req : RpcRequest)
    (e : WaitEnv) (start : Z) (fuel : nat) : option (result RpcError json) :=
  match wait_timeout req 0 with
  | Err err => Some (Err err)
  | Ok timeout =>
      match best_block s wallet with
      | Err err => Some (Err err)
      | Ok (start_height, start_hash, _) =>
          wait_for_best_block wallet timeout
            (λ height hash, negb (height =? start_height) || negb (bool_decide (hash = start_hash)))
            e start fuel
      end
  end.

Definition waitforblock (wallet : option string) (req : RpcRequest) (e : WaitEnv) (start : Z)
    (fuel : nat) : option (result RpcError json) :=
  match require_str req 0 "waitforblock requires a block hash" with
  | Err err => Some (Err err)
  | Ok target =>
      match parse_blockhash_param target with
      | Err err => Some (Err err)
      | Ok _ =>
          match wait_timeout req 1 with
          | Err err => Some (Err err)
          | Ok timeout =>
              wait_for_best_block wallet timeout
                (λ _ hash, bool_decide (hash = Some (to_ascii_lowercase target))) e start fuel
          end
      end
  end.

Definition waitforblockheight (wallet : option string) (req : RpcRequest) (e : WaitEnv) (start : Z)
    (fuel : nat) : option (result RpcError json) :=
  match height_argument req "waitforblockheight requires a height" with
  | Err err => Some (Err err)
  | Ok target =>
      match wait_timeout req 1 with
      | Err err => Some (Err err)
      | Ok timeout =>
          wait_for_best_block wallet timeout (λ height _, target <=? height) e start fuel
      end
  end.

(** [waitforsync]. The handle is taken once and its status read at each look, whether or not the
    wallet is still loaded; the block of an answer is looked up afresh. *)
Definition sync_imported (st : SyncStatus) (name : string) : bool :=
  bool_decide (name ∈ (ss_accounts st).*1).
Definition sync_import_error (st : SyncStatus) (name : string) : option string :=
  snd <$> List.find (λ e, bool_decide (e.1 = name)) (ss_import_errors st).
Definition sync_done (st : SyncStatus) (name : string) : bool :=
  sync_imported st name && negb (ss_scanning st) && (ss_pending_enhancements st =? 0).

Definition sync_answer (s : AppState) (wallet : option string) (st : SyncStatus) (name : string) :
    result RpcError json :=
  best ← best_block s wallet;
  let '(height, hash, _) := best in
  Ok (JObject ([("hash", JString (default "" hash)); ("height", json_num height);
      ("chain_tip", json_opt json_num (ss_chain_tip st)); ("synced", JBool (sync_done st name));
      ("pending_enhancements", json_num (ss_pending_enhancements st));
      ("enhanced_through", json_opt json_num (ss_enhanced_through st));
      ("imported", JBool (sync_imported st name))]
    ++ match sync_import_error st name with
       | Some reason => [("import_error", JString reason)]
       | None => []
       end)).

Definition waitforsync (wallet : option string) (req : RpcRequest) (e : WaitEnv)
    (status_at : nat → SyncStatus) (start : Z) (fuel : nat) : option (result RpcError json) :=
  match wait_timeout req 0 with
  | Err err => Some (Err err)
  | Ok timeout =>
      match registry_get (as_registry (we_state e 0)) wallet with
      | Err err => Some (Err err)
      | Ok handle =>
          wait_loop
            (λ i, sync_done (status_at i) (wh_name handle)
                  || is_some (sync_import_error (status_at i) (wh_name handle)))
            (λ i, sync_answer (we_state e i) wallet (status_at i) (wh_name handle))
            ((λ t, start + t) <$> timeout) e fuel 0
      end
  end.
End chain.
