(* ===== verification/ChainRpcSpec.v ===== *)
(** * ChainRpcSpec: the chain methods and the waits

    A wait answers at the first look that ends it, and with a timeout always does, on time; the
    block methods agree with one another. *)

From S2P Require Export ChainRpc.

(** ** The loop of the waits *)

Definition first_end (ends : nat → Prop) (j : nat) : Prop := ends j ∧ ∀ i, (i < j)%nat → ¬ ends i.

(** What ends a wait at a look: its condition, the deadline, shutdown, or the actor's end. *)
Definition look_ends (stop : nat → bool) (deadline : option Z) (e : WaitEnv) (i : nat) : Prop :=
  stop i = true ∨ deadline_passed deadline (we_now e i) = true ∨
  we_wake e i = Shutdown ∨ we_wake e i = ActorGone.

#[global] Instance wake_eq_dec : EqDecision Wake.
Proof. solve_decision. Defined.
#[global] Instance look_ends_dec stop deadline e i : Decision (look_ends stop deadline e i).
Proof. unfold look_ends. apply _. Defined.

Section loop.
Context {A} (stop : nat → bool) (answer : nat → A) (deadline : option Z) (e : WaitEnv).

Lemma wait_loop_step fuel i :
  wait_loop stop answer deadline e (S fuel) i =
  if decide (look_ends stop deadline e i) then Some (answer i)
  else wait_loop stop answer deadline e fuel (S i).
Proof.
  cbn [wait_loop]. case_decide as H; unfold look_ends in H.
  all: destruct (stop i), (deadline_passed deadline (we_now e i)), (we_wake e i); naive_solver.
Qed.

Lemma wait_loop_pending fuel i :
  (∀ k, (i ≤ k < i + fuel)%nat → ¬ look_ends stop deadline e k) →
  wait_loop stop answer deadline e fuel i = None.
Proof.
  revert i. induction fuel as [|fuel IH]; intros i H; [done|].
  rewrite wait_loop_step, decide_False by (apply H; lia). apply IH. intros k Hk. apply H. lia.
Qed.

Lemma wait_loop_answers j fuel i :
  (i ≤ j)%nat → (j < i + fuel)%nat → look_ends stop deadline e j →
  (∀ k, (i ≤ k < j)%nat → ¬ look_ends stop deadline e k) →
  wait_loop stop answer deadline e fuel i = Some (answer j).
Proof.
  revert i. induction fuel as [|fuel IH]; intros i Hij Hf Hj Hb; [lia|]. rewrite wait_loop_step.
  destruct (decide (i = j)) as [->|Hne]; [by rewrite decide_True|].
  rewrite decide_False by (apply Hb; lia). apply IH; [lia|lia|done|]. intros k Hk. apply Hb. lia.
Qed.

(** From a look that ends the wait, the first one. *)
Lemma first_look n :
  look_ends stop deadline e n → ∃ j, (j ≤ n)%nat ∧ first_end (look_ends stop deadline e) j.
Proof.
  induction n as [n IH] using (well_founded_induction Nat.lt_wf_0). intros Hn.
  destruct (decide (Exists (look_ends stop deadline e) (seq 0 n))) as [H|H].
  - apply Exists_exists in H as (m & Hm & Hend). apply elem_of_seq in Hm.
    destruct (IH m) as (j & ? & ?); [lia|done|]. exists j. split; [lia|done].
  - exists n. split; [done|]. split; [done|]. intros i Hi Hend. apply H, Exists_exists.
    exists i. split; [by apply elem_of_seq; lia|done].
Qed.

Lemma wait_loop_first j fuel :
  first_end (look_ends stop deadline e) j → (j < fuel)%nat →
  wait_loop stop answer deadline e fuel 0 = Some (answer j).
Proof. intros [Hj Hb] Hf. apply wait_loop_answers; [lia|lia|done|]. intros k Hk. apply Hb. lia. Qed.

(** With a deadline the first end is on time, up to how late a wake-up comes. *)
Lemma first_on_time d δ j :
  deadline = Some d → 0 ≤ δ →
  (∀ i, we_now e (S i) ≤ we_now e i + nap deadline (we_now e i) + δ) →
  first_end (look_ends stop deadline e) j → j = 0%nat ∨ we_now e j ≤ d + δ.
Proof.
  intros -> Hδ Hlate [_ Hb]. destruct j as [|j]; [by left|right].
  specialize (Hlate j). specialize (Hb j ltac:(lia)). unfold nap in Hlate.
  destruct (Z.leb_spec d (we_now e j)) as [Hd|Hd]; [|lia].
  exfalso. apply Hb. right; left. simpl. by apply Z.leb_le.
Qed.
End loop.

Section chain.
Context {BT : BlockTable}.

(** A wait for a block ends, and on time. It answers with the block of the first look at which
    the block awaited is there, the deadline has passed, the node shuts down or the wallet's
    actor is gone, and of no other; until then it waits. With a timeout it always answers, no
    later after the deadline than a wake-up comes late; and [waitforsync] ends the same way, when
    the wallet is synced or can never be. *)
Theorem waits_end (wallet : option string) (w : WalletHandle) (e : WaitEnv) (start : Z)
    (timeout : option Z) (satisfied : Z → option string → bool) :
  registry_get (as_registry (we_state e 0)) wallet = Ok w →
  let deadline := (λ t, start + t) <$> timeout in
  let ends := look_ends (λ i, look_satisfied satisfied (we_state e i) wallet) deadline e in
  let wait := wait_for_best_block wallet timeout satisfied e start in
  (∀ n, ends n → ∃ j, (j ≤ n)%nat ∧ first_end ends j ∧
     ∀ fuel, (j < fuel)%nat → wait fuel = Some (look_answer (we_state e j) wallet)) ∧
  (∀ fuel, (∀ i, (i < fuel)%nat → ¬ ends i) → wait fuel = None) ∧
  (∀ t δ, timeout = Some t → 0 ≤ δ → (∀ T, ∃ n, T ≤ we_now e n) →
     (∀ i, we_now e (S i) ≤ we_now e i + nap deadline (we_now e i) + δ) →
     ∃ j, first_end ends j ∧ (j = 0%nat ∨ we_now e j ≤ start + t + δ) ∧
       ∀ fuel, (j < fuel)%nat → wait fuel = Some (look_answer (we_state e j) wallet)) ∧
  (∀ req status_at n, wait_timeout req 0 = Ok timeout →
     let over i := sync_done (status_at i) (wh_name w)
                   || is_some (sync_import_error (status_at i) (wh_name w)) in
     look_ends over deadline e n → ∃ j, (j ≤ n)%nat ∧ first_end (look_ends over deadline e) j ∧
       ∀ fuel, (j < fuel)%nat → waitforsync wallet req e status_at start fuel =
         Some (sync_answer (we_state e j) wallet (status_at j) (wh_name w))).
Proof.
  intros Hw deadline ends wait. unfold wait, wait_for_best_block. rewrite Hw. split_and!.
  - intros n (j & Hj & Hfirst)%first_look. exists j. split_and!; [done|done|]. intros fuel Hf.
    by apply (wait_loop_first _ (λ i, look_answer (we_state e i) wallet)).
  - intros fuel H. apply wait_loop_pending. intros k Hk. apply H. lia.
  - intros t δ Ht Hδ Hclock Hlate. destruct (Hclock (start + t)) as [n Hn].
    assert (ends n) as Hend.
    { right; left. unfold deadline. rewrite Ht. simpl. by apply Z.leb_le. }
    apply first_look in Hend as (j & _ & Hfirst). exists j. split_and!; [done| |].
    + eapply first_on_time; [|done|done|exact Hfirst]. unfold deadline. by rewrite Ht.
    + intros fuel Hf. by apply (wait_loop_first _ (λ i, look_answer (we_state e i) wallet)).
  - intros req status_at n Ht (j & Hj & Hfirst)%first_look. exists j. split_and!; [done|done|].
    intros fuel Hf. unfold waitforsync. rewrite Ht, Hw.
    by apply (wait_loop_first _ (λ i, sync_answer (we_state e i) wallet (status_at i) (wh_name w))).
Qed.
End chain.

(** ** A concrete wait *)

(** The wallet scans a block per look, two look seconds apart, and the height 2 is awaited. *)
Module WaitExample.
#[export] Instance ex_table : BlockTable := {|
  block_info_at _ _ := Ok None; median_time_past _ _ := Ok None;
  block_height_by_hash _ _ := Ok None |}.
Definition ex_status (i : nat) : SyncStatus :=
  {| ss_connected := true; ss_server := None; ss_conn_state := CS_Syncing;
     ss_upstream_refusal := None; ss_chain_tip := Some 9; ss_fully_scanned := Some (Z.of_nat i);
     ss_birthday := Some 0; ss_best_block_hash := Some "aa"; ss_scan_progress := 0%Q;
     ss_scanning := true; ss_pending_enhancements := 0; ss_enhanced_through := None;
     ss_sync_totals := totals_zero; ss_enhance_totals := enhance_totals_zero;
     ss_encrypted := false; ss_accounts := [("w", 1)]; ss_import_errors := [];
     ss_watch_only := false; ss_unlocked_until := None; ss_transparent_preexpose := None;
     ss_transparent_frontier := None; ss_transparent_recovery_horizon := None |}.
Definition ex_wallet (i : nat) : WalletHandle :=
  {| wh_name := "w"; wh_coin := Zcash; wh_status := ex_status i; wh_actor_alive := true;
     wh_network := Test; wh_engine_dir := "w/zcash/engine"; wh_enabled_pools := {| pools := [Orchard] |};
     wh_default_receivers := {| pools := [Orchard] |}; wh_transparent_enabled := false;
     wh_transparent_default := false; wh_transparent_gap_limit := 20; wh_fetch_memos := true;
     wh_is_shard := false; wh_first_seen := ∅ |}.
Definition ex_state (i : nat) : AppState :=
  {| as_network := Test;
     as_registry := registry_insert (registry_new "w") (ex_wallet i); as_started_at := 0;
     as_shutting_down := false; as_shutdown_signalled := false; as_active := Active.initial |}.
Definition ex_env : WaitEnv :=
  {| we_state := ex_state; we_now i := Z.of_nat i * 1000000000; we_wake _ := Changed |}.
End WaitExample.

Example waits_end_witness :
  let table := WaitExample.ex_table in
  ∃ j, (j ≤ 2)%nat ∧
    ∀ fuel, (j < fuel)%nat →
      wait_for_best_block None (Some 60000000000) (λ h _, 2 <=? h) WaitExample.ex_env 0 fuel =
      Some (look_answer (WaitExample.ex_state j) None).
Proof.
  destruct (proj1 (waits_end (BT := WaitExample.ex_table) None (WaitExample.ex_wallet 0)
    WaitExample.ex_env 0 (Some 60000000000) (λ h _, 2 <=? h) eq_refl) 2%nat (or_introl eq_refl))
    as (j & Hj & _ & Hans).
  exists j. split; [exact Hj|exact Hans].
Defined.
