(* ===== verification/Address.v ===== *)
(** * Address: recipients and the wallet's own addresses ([src/src/address.rs])

    Decoding on a network, the receivers an address carries, the reduction of an address to the
    receiver an output paid, and the encoding a wallet issues. The protocol crates' codec is
    [AddressCodec]. *)

From S2P Require Export Pools Network Errors.

(** ** Addresses *)

(** A transparent receiver, by the 20-byte hash it pays. *)
Inductive TransparentAddress := PublicKeyHash (hash : string) | ScriptHash (hash : string).
#[global] Instance TransparentAddress_eq_dec : EqDecision TransparentAddress.
Proof. solve_decision. Defined.

(** The receivers of a unified address. *)
Record UnifiedAddress := {
  ua_orchard : option string; ua_sapling : option string; ua_transparent : option TransparentAddress;
}.
#[global] Instance UnifiedAddress_eq_dec : EqDecision UnifiedAddress.
Proof. solve_decision. Defined.

(** Decoded addresses; a receiver is its raw bytes. *)
Inductive Address :=
  | AddrTransparent (t : TransparentAddress)
  | AddrSapling (p : string)
  | AddrUnified (ua : UnifiedAddress)
  | AddrTex (hash : string).
#[global] Instance Address_eq_dec : EqDecision Address.
Proof. solve_decision. Defined.

(** The pools an address is asked about. *)
Inductive PoolKind := PK_Transparent | PK_Sapling | PK_Orchard.

(** The protocol crates: the address a string names on a network, whether it names one on any, its
    encoding; building a unified address from receivers; the pools an address can receive in;
    and hexadecimal. *)
Class AddressCodec := {
  from_receivers :
    option string → option string → option TransparentAddress → option UnifiedAddress;
  can_receive_as : Address → PoolKind → bool;
  decode_address : ZNetwork → string → option Address;
  is_encoded_address : string → bool;
  encode_address : ZNetwork → Address → string;
  hash_hex : string → string;
}.

(** Documented behaviour: encoding and decoding on one network are inverse, and a unified address
    carries a shielded receiver. *)
Class AddressCodecLaws `{AddressCodec} : Prop := {
  from_receivers_spec o s t :
    from_receivers o s t =
    if is_some o || is_some s
    then Some {| ua_orchard := o; ua_sapling := s; ua_transparent := t |} else None;
  decode_encode n a :
    match a with AddrUnified ua => is_some (ua_orchard ua) || is_some (ua_sapling ua) = true
               | _ => True end →
    decode_address n (encode_address n a) = Some a;
  decode_unified n s ua :
    decode_address n s = Some (AddrUnified ua) → is_some (ua_orchard ua) || is_some (ua_sapling ua) = true;
}.

Section codec.
Context `{CD : AddressCodec}.

Definition has_orchard_receiver (a : Address) : bool := can_receive_as a PK_Orchard.
Definition has_shielded_receiver (a : Address) : bool :=
  can_receive_as a PK_Sapling || can_receive_as a PK_Orchard.

Definition receiver_types_of (a : Address) : list string :=
  (if can_receive_as a PK_Transparent then ["transparent"] else [])
  ++ (if can_receive_as a PK_Sapling then ["sapling"] else [])
  ++ (if can_receive_as a PK_Orchard then ["orchard"] else []).

Definition address_type_of (a : Address) : string :=
  match a with
  | AddrTransparent (PublicKeyHash _) => "p2pkh"
  | AddrTransparent (ScriptHash _) => "p2sh"
  | AddrSapling _ => "sapling"
  | AddrUnified _ => "unified"
  | AddrTex _ => "tex"
  end.

Definition zcashd_receiver_types_of (a : Address) : list string :=
  (λ t, if bool_decide (t = "transparent") then "p2pkh" else t) <$> receiver_types_of a.

Definition decode_on_network (n : ZNetwork) (s : string) : option Address := decode_address n s.

Definition parse_recipient (coin : Coin) (s : string) : result RpcError string :=
  match coin with
  | Zcash =>
      if is_encoded_address s then Ok s
      else Err (RpcError.invalid_address_or_key
                  ("Invalid " +:+ coin_display_name coin +:+ " address: " +:+ s))
  end.

Definition parse_recipient_on_network (coin : Coin) (n : ZNetwork) (s : string) :
    result RpcError string :=
  zaddr ← parse_recipient coin s;
  match decode_on_network n s with
  | None => Err (RpcError.invalid_address_or_key
                   ("Address is not valid for the configured network: " +:+ s))
  | Some _ => Ok zaddr
  end.

(** [single_receiver_for_pool]: the pool is an output pool code. *)
Definition single_receiver_for_pool (n : ZNetwork) (s : string) (pool : Z) : option string :=
  addr ← decode_on_network n s;
  if pool =? 0 then
    match addr with
    | AddrTransparent t => Some (encode_address n (AddrTransparent t))
    | AddrUnified ua => (λ t, encode_address n (AddrTransparent t)) <$> ua_transparent ua
    | _ => None
    end
  else if pool =? 2 then
    match addr with
    | AddrSapling p => Some (encode_address n (AddrSapling p))
    | AddrUnified ua => (λ p, encode_address n (AddrSapling p)) <$> ua_sapling ua
    | _ => None
    end
  else if (pool =? 3) || (pool =? 4) then
    match addr with
    | AddrUnified ua =>
        orch ← ua_orchard ua;
        single ← from_receivers (Some orch) None None;
        Some (encode_address n (AddrUnified single))
    | _ => None
    end
  else None.

Definition issued_encoding (n : ZNetwork) (s : string) (receivers : ReceiverSet) : option string :=
  addr ← decode_on_network n s;
  match addr with
  | AddrUnified ua =>
      let keep r o := if set_contains receivers r then o else None in
      single ← from_receivers (keep Orchard (ua_orchard ua)) (keep Sapling (ua_sapling ua)) None;
      Some (encode_address n (AddrUnified single))
  | _ => None
  end.

Definition unified_receivers (n : ZNetwork) (ua : UnifiedAddress) : list (string * string) :=
  match ua_transparent ua with
  | Some t =>
      [(match t with PublicKeyHash _ => "p2pkh" | ScriptHash _ => "p2sh" end,
        encode_address n (AddrTransparent t))]
  | None => []
  end
  ++ match ua_sapling ua with Some s => [("sapling", encode_address n (AddrSapling s))] | None => [] end
  ++ match ua_orchard ua with
     | Some o =>
         match from_receivers (Some o) None None with
         | Some single => [("orchard", encode_address n (AddrUnified single))]
         | None => []
         end
     | None => []
     end.

Record Validation := {
  v_is_valid : bool; v_is_orchard : bool; v_receiver_types : list string;
  v_script_pub_key : option string; v_is_script : bool;
}.

Definition validate (n : ZNetwork) (s : string) : Validation :=
  match decode_on_network n s with
  | Some addr =>
      let '(script, is_script) :=
        match addr with
        | AddrTransparent (PublicKeyHash hash) => (Some ("76a914" +:+ hash_hex hash +:+ "88ac"), false)
        | AddrTransparent (ScriptHash hash) => (Some ("a914" +:+ hash_hex hash +:+ "87"), true)
        | _ => (None, false)
        end in
      {| v_is_valid := true; v_is_orchard := has_orchard_receiver addr;
         v_receiver_types := receiver_types_of addr; v_script_pub_key := script;
         v_is_script := is_script |}
  | None =>
      {| v_is_valid := false; v_is_orchard := false; v_receiver_types := [];
         v_script_pub_key := None; v_is_script := false |}
  end.

(** ** History names an output by the receiver it paid *)

Context {CL : AddressCodecLaws}.

(** The receiver of a pool an address carries, bare. *)
Definition receiver_of (a : Address) (pool : Z) : option Address :=
  if pool =? 0 then
    match a with
    | AddrTransparent t => Some (AddrTransparent t)
    | AddrUnified ua => AddrTransparent <$> ua_transparent ua
    | _ => None
    end
  else if pool =? 2 then
    match a with
    | AddrSapling p => Some (AddrSapling p)
    | AddrUnified ua => AddrSapling <$> ua_sapling ua
    | _ => None
    end
  else if (pool =? 3) || (pool =? 4) then
    match a with
    | AddrUnified ua =>
        (λ o, AddrUnified {| ua_orchard := Some o; ua_sapling := None; ua_transparent := None |})
          <$> ua_orchard ua
    | _ => None
    end
  else None.

Lemma single_receiver_eq n s pool :
  single_receiver_for_pool n s pool =
  (a ← decode_on_network n s; encode_address n <$> receiver_of a pool).
Proof.
  unfold single_receiver_for_pool, receiver_of. destruct (decode_on_network n s) as [a|]; [|done].
  cbn [mbind option_bind]. destruct a as [| |ua|]; repeat case_match; try done.
  all: destruct (ua_orchard ua), (ua_sapling ua), (ua_transparent ua); try done.
  all: cbn [mbind option_bind]; by rewrite from_receivers_spec.
Qed.

Lemma decode_receiver n a pool r :
  receiver_of a pool = Some r → decode_on_network n (encode_address n r) = Some r.
Proof.
  unfold receiver_of, decode_on_network. intros H. apply decode_encode.
  repeat case_match; simplify_option_eq; try done.
Qed.

Lemma receiver_of_receiver a pool r : receiver_of a pool = Some r → receiver_of r pool = Some r.
Proof. unfold receiver_of. intros H. repeat case_match; simplify_option_eq; done. Qed.

(** The reduction of an output's address to the receiver paid does not depend on which address
    carrying that receiver was recorded: reducing the reduction gives itself, any two addresses
    with the same receiver in a pool reduce alike, and the pieces a unified address is taken
    apart into are exactly the reductions of it. *)
Theorem history_names_receiver (n : ZNetwork) (s : string) (pool : Z) (single : string) :
  single_receiver_for_pool n s pool = Some single →
  single_receiver_for_pool n single pool = Some single ∧
  (∀ s' a a', decode_on_network n s = Some a → decode_on_network n s' = Some a' →
     receiver_of a' pool = receiver_of a pool →
     single_receiver_for_pool n s' pool = Some single) ∧
  (∀ ua, decode_on_network n s = Some (AddrUnified ua) →
     single ∈ (unified_receivers n ua).*2).
Proof.
  rewrite !single_receiver_eq. destruct (decode_on_network n s) as [a|] eqn:Ea; [|done]. cbn [mbind option_bind].
  intros (r & Hr & ->)%fmap_Some. split_and!.
  - rewrite (decode_receiver n a pool) by done. cbn [mbind option_bind].
    by rewrite (receiver_of_receiver _ _ _ Hr).
  - intros s' ? a' [= <-] Ha' Heq. rewrite single_receiver_eq, Ha'. cbn [mbind option_bind].
    by rewrite Heq, Hr.
  - intros ua [= ->]. unfold receiver_of in Hr. unfold unified_receivers.
    destruct (ua_orchard ua), (ua_sapling ua), (ua_transparent ua); rewrite ?from_receivers_spec.
    all: repeat case_match; simplify_option_eq; rewrite ?fmap_app, ?elem_of_app; csimpl; try set_solver.
Qed.
End codec.
