(* ===== verification/Reads.v ===== *)
(** * Reads: the reads of the wallet database ([src/src/wallet/read.rs])

    The database is its tables and the two views the migrations of the wallet library define; a
    NULL is [None]. A statement is modelled by what its text selects; one that cannot be read is
    the error of [open_conn]. The library's own API is [WalletLibrary], and hexadecimal
    [HexCodec]. *)

From S2P Require Export ChainRpc Address.

(** ** Tables *)

(** Identifiers and account UUIDs are integers, hashes and txids are bytes in internal order. *)
Record BlockRow := { bl_height : Z; bl_hash : string; bl_time : Z }.
Record AccountRow := { ac_id : Z; ac_uuid : Z }.
Record TransactionRow := {
  t_id_tx : Z; t_txid : string; t_mined_height : option Z; t_expiry_height : option Z;
  t_target_height : option Z; t_min_observed_height : option Z; t_tx_index : option Z;
  t_fee : option Z; t_created : option Z; t_raw : option string;
}.
(** The four received tables, by pool code; an action index is an output index, and only a
    transparent output has its own address column. *)
Record NoteRow := {
  n_id : Z; n_pool : Z; n_transaction_id : Z; n_output_index : Z; n_account_id : Z; n_value : Z;
  n_is_change : bool; n_memo : option string; n_address_id : option Z; n_taddress : string;
}.
(** The four spend tables. *)
Record SpendRow := { s_pool : Z; s_note_id : Z; s_transaction_id : Z }.
Record SentNoteRow := {
  sn_id : Z; sn_transaction_id : Z; sn_output_pool : Z; sn_output_index : Z;
  sn_from_account_id : Z; sn_to_address : option string; sn_value : Z; sn_memo : option string;
}.
Record AddressRow := {
  ad_id : Z; ad_account_id : Z; ad_address : option string; ad_cached_transparent : option string;
  ad_key_scope : Z; ad_diversifier_index_be : option string;
}.
(** [v_transactions] and [v_tx_outputs]. *)
Record ViewTransaction := {
  v_account_uuid : Z; v_mined_height : option Z; v_txid : string; v_expiry_height : option Z;
  v_account_balance_delta : Z; v_fee_paid : option Z; v_block_time : option Z;
  v_tx_index : option Z;
}.
Record ViewOutput := {
  o_txid : string; o_output_pool : Z; o_output_index : Z; o_from_account_uuid : option Z;
  o_to_account_uuid : option Z; o_to_address : option string; o_value : Z; o_is_change : bool;
  o_recipient_key_scope : option Z;
}.
Record Database := {
  db_blocks : list BlockRow; db_accounts : list AccountRow; db_transactions : list TransactionRow;
  db_notes : list NoteRow; db_spends : list SpendRow; db_sent_notes : list SentNoteRow;
  db_addresses : list AddressRow; db_v_transactions : list ViewTransaction;
  db_v_tx_outputs : list ViewOutput;
}.

(** ** Records the reads return *)

Definition EXTERNAL_KEY_SCOPE : Z := 0.
Definition COINBASE_MATURITY : Z := 100.
(** The builder's constants. *)
Definition PRE_NU7_DEFAULT_TX_EXPIRY_DELTA : Z := 40.
Definition NU7_DEFAULT_TX_EXPIRY_DELTA : Z := 120.

Record TxOutputRecord := {
  to_pool : Z; to_output_index : Z; to_from_account : option Z; to_to_account : option Z;
  to_to_address : option string; to_value : Z; to_is_change : bool;
  to_recipient_key_scope : option Z; to_memo : option string; to_diversifier_index : option Z;
}.

(** [is_internal_change]. *)
Definition is_internal_change (o : TxOutputRecord) : bool :=
  match to_recipient_key_scope o with
  | Some scope => negb (scope =? EXTERNAL_KEY_SCOPE)
  | None => to_is_change o
  end.

Record TxRecord := {
  tx_mined_height : option Z; tx_txid_hex : string; tx_expiry_height : option Z;
  tx_account_balance_delta : Z; tx_fee_paid : option Z; tx_block_time : option Z;
  tx_expired_unmined : bool; tx_tx_index : option Z; tx_block_hash : option string;
  tx_created_time : option Z; tx_outputs : list TxOutputRecord; tx_raw : option string;
}.

Record UnspentNote := {
  un_txid : string; un_vout : Z; un_value : Z; un_mined_height : option Z; un_trusted : bool;
  un_address : option string; un_pool : Z; un_generated : bool;
}.

Record TxQuery := {
  tq_start_height : option Z; tq_end_height : option Z; tq_offset : Z; tq_limit : option Z;
  tq_newest_first : bool; tq_omit_memos : bool;
}.

Record BalanceInfo := {
  bi_orchard_spendable : Z; bi_sapling_spendable : Z; bi_ironwood_spendable : Z;
  bi_transparent_spendable : Z; bi_total_spendable : Z; bi_pending : Z; bi_immature : Z;
  bi_mature_coinbase : Z;
}.
Definition balance_zero : BalanceInfo :=
  {| bi_orchard_spendable := 0; bi_sapling_spendable := 0; bi_ironwood_spendable := 0;
     bi_transparent_spendable := 0; bi_total_spendable := 0; bi_pending := 0; bi_immature := 0;
     bi_mature_coinbase := 0 |}.

(** ** The account a read is about *)

(** No account carries the nil UUID. *)
Definition NIL_UUID : Z := 0.
Definition scope_param (scope : AccountScope) : option Z :=
  match scope with Any => None | Only account => Some account | NoAccount => Some NIL_UUID end.

Definition is_nullb {A} (o : option A) : bool := negb (is_some o).

(** A comparison with NULL selects nothing. *)
Definition sql_eq (a b : option Z) : bool :=
  match a, b with Some x, Some y => x =? y | _, _ => false end.
Definition sql_le (a b : option Z) : bool :=
  match a, b with Some x, Some y => x <=? y | _, _ => false end.
Definition sql_lt (a b : option Z) : bool :=
  match a, b with Some x, Some y => x <? y | _, _ => false end.

Definition scope_by_uuid (scope : AccountScope) (column : option Z) : bool :=
  is_nullb (scope_param scope) || sql_eq column (scope_param scope).
Definition scope_by_output_account (scope : AccountScope) (to_account from_account : option Z) : bool :=
  scope_by_uuid scope to_account || sql_eq from_account (scope_param scope).
Definition account_id_of (db : Database) (uuid : Z) : option Z :=
  ac_id <$> List.find (λ a, ac_uuid a =? uuid) (db_accounts db).
Definition scope_by_id (db : Database) (scope : AccountScope) (column : Z) : bool :=
  match scope_param scope with
  | None => true
  | Some uuid => sql_eq (Some column) (account_id_of db uuid)
  end.
Definition account_uuid_of (db : Database) (id : Z) : option Z :=
  ac_uuid <$> List.find (λ a, ac_id a =? id) (db_accounts db).

(** ** Hexadecimal and block hashes *)

Section hex.
Context `{HX : HexCodec}.
Definition txid_internal (display_hex : string) : option string :=
  b ← hex_decode display_hex;
  if (String.length b =? 32)%nat then Some (string_rev b) else None.
Definition is_block_hash_wellformed (display_hash : string) : bool :=
  is_some (txid_internal display_hash).
End hex.

(** A big-endian number of bytes; only an 11-byte one is an index. *)
Definition be_value (s : string) : Z :=
  fold_left (λ acc c, acc * 256 + byte_of c) (String.list_ascii_of_string s) 0.
Definition decode_diversifier_index_be (be : string) : option Z :=
  if (String.length be =? 11)%nat then Some (be_value be) else None.

(** ** Expiry *)

Definition observed_height (t : TransactionRow) : option Z :=
  match t_target_height t with Some h => Some h | None => t_min_observed_height t end.

(** [tx_unexpired_sql], for the height NU7 activates at, if it does. *)
Definition default_expiry_delta (nu7 : option Z) (observed : Z) : Z :=
  match nu7 with
  | Some h => if h <=? observed then NU7_DEFAULT_TX_EXPIRY_DELTA else PRE_NU7_DEFAULT_TX_EXPIRY_DELTA
  | None => PRE_NU7_DEFAULT_TX_EXPIRY_DELTA
  end.
Definition tx_unexpired (nu7 : option Z) (target_height : Z) (t : TransactionRow) : bool :=
  sql_lt (t_mined_height t) (Some target_height)
  || sql_eq (t_expiry_height t) (Some 0)
  || sql_le (Some target_height) (t_expiry_height t)
  || (is_nullb (t_expiry_height t)
      && match observed_height t with
         | Some observed => target_height <=? observed + default_expiry_delta nu7 observed
         | None => false
         end).

Definition max_height (blocks : list BlockRow) : option Z :=
  foldr (λ b m, Some (match m with Some h => Z.max (bl_height b) h | None => bl_height b end))
    None blocks.

(** [expired_unmined_sql!]: the view's rule, and an unknown expiry past its default. *)
Definition expired_unmined (db : Database) (t : TransactionRow) : bool :=
  is_nullb (t_mined_height t)
  && (sql_le (Some 1) (t_expiry_height t) && sql_le (t_expiry_height t) (max_height (db_blocks db))
      || (is_nullb (t_expiry_height t)
          && sql_le ((λ o, o + 120) <$> observed_height t) (max_height (db_blocks db)))).

(** ** Blocks *)

Definition block_at (db : Database) (height : Z) : option BlockRow :=
  List.find (λ b, bl_height b =? height) (db_blocks db).

(** The rows of [db_blocks] by height. *)
Definition blocks_ascending (db : Database) : list BlockRow := sort_by_key bl_height (db_blocks db).
Definition blocks_descending (db : Database) : list BlockRow :=
  sort_by_key (λ b, - bl_height b) (db_blocks db).

Section blocks.
Context `{HX : HexCodec}.
Definition read_block_info_at (db : Database) (height : Z) : option (string * Z) :=
  (λ b, (txid_display (bl_hash b), bl_time b)) <$> block_at db height.
Definition read_first_scanned_block (db : Database) : option (Z * string) :=
  (λ b, (bl_height b, txid_display (bl_hash b))) <$> head (blocks_ascending db).
Definition read_block_height_by_hash (db : Database) (display_hash : string) : option Z :=
  internal ← txid_internal display_hash;
  bl_height <$> List.find (λ b, bool_decide (bl_hash b = internal)) (db_blocks db).
End blocks.

(** The median of the last eleven block times at or below a height. *)
Definition read_median_time_past (db : Database) (height : Z) : option Z :=
  let times := sort_by_key (λ t : Z, t)
    (bl_time <$> take 11 (List.filter (λ b, bl_height b <=? height) (blocks_descending db))) in
  times !! (length times / 2)%nat.

(** ** Transactions *)

(** The row [TX_FROM] joins: the view's, its block's and its transaction's. *)
Record JoinedRow := {
  jr_view : ViewTransaction; jr_block : option BlockRow; jr_tx : option TransactionRow;
}.
Definition tx_join (db : Database) (v : ViewTransaction) : JoinedRow :=
  {| jr_view := v; jr_block := v_mined_height v ≫= block_at db;
     jr_tx := List.find (λ t, bool_decide (t_txid t = v_txid v)) (db_transactions db) |}.

(** [sort_height]: the mined height, else an expiry height that is one. *)
Definition sort_height (v : ViewTransaction) : option Z :=
  match v_mined_height v with
  | Some h => Some h
  | None => match v_expiry_height v with Some e => if e =? 0 then None else Some e | None => None end
  end.

(** The height ascending, nulls last, then the txid. *)
Definition row_before (v w : ViewTransaction) : Prop :=
  match sort_height v, sort_height w with
  | Some a, Some b => a < b ∨ (a = b ∧ String.le (v_txid v) (v_txid w))
  | Some _, None => True
  | None, Some _ => False
  | None, None => String.le (v_txid v) (v_txid w)
  end.
#[global] Instance row_before_dec v w : Decision (row_before v w).
Proof. unfold row_before. destruct (sort_height v), (sort_height w); apply _. Defined.
Definition row_after (v w : ViewTransaction) : Prop := row_before w v.
#[global] Instance row_after_dec v w : Decision (row_after v w) := row_before_dec w v.

(** The rows the statement's WHERE keeps. *)
Definition row_selected (scope : AccountScope) (q : TxQuery) (v : ViewTransaction) : bool :=
  (is_nullb (tq_start_height q) || sql_le (tq_start_height q) (v_mined_height v)
   || (is_nullb (v_mined_height v) && is_nullb (tq_end_height q)))
  && (is_nullb (tq_end_height q) || sql_lt (v_mined_height v) (tq_end_height q))
  && scope_by_uuid scope (Some (v_account_uuid v)).

(** LIMIT and OFFSET. *)
Definition window_rows {A} (limit : option Z) (offset : Z) (l : list A) : list A :=
  let rest := drop (Z.to_nat offset) l in
  match limit with Some n => take (Z.to_nat n) rest | None => rest end.

Definition tx_rows (db : Database) (scope : AccountScope) (q : TxQuery) : list ViewTransaction :=
  let rows := List.filter (row_selected scope q) (db_v_transactions db) in
  window_rows (tq_limit q) (tq_offset q)
    (if tq_newest_first q then merge_sort row_after rows else merge_sort row_before rows).

Definition to_u64 (z : Z) : Z := z mod 2 ^ 64.

Section transactions.
Context `{HX : HexCodec}.

(** [tx_from_row], the outputs filled in after. *)
Definition tx_from_row (db : Database) (j : JoinedRow) (outputs : list TxOutputRecord) : TxRecord :=
  let v := jr_view j in
  {| tx_mined_height := v_mined_height v; tx_txid_hex := txid_display (v_txid v);
     tx_expiry_height := v_expiry_height v;
     tx_account_balance_delta := v_account_balance_delta v; tx_fee_paid := to_u64 <$> v_fee_paid v;
     tx_block_time := v_block_time v;
     tx_expired_unmined := match jr_tx j with Some t => expired_unmined db t | None => false end;
     tx_tx_index := v_tx_index v; tx_block_hash := (λ b, txid_display (bl_hash b)) <$> jr_block j;
     tx_created_time := jr_tx j ≫= t_created; tx_outputs := outputs; tx_raw := None |}.

(** *** The outputs of a transaction *)

(** LEFT JOIN: a row that matches nothing stays, alone. *)
Definition left_join {A B} (on : A → B → bool) (la : list A) (lb : list B) : list (A * option B) :=
  concat ((λ a, match List.filter (on a) lb with
                | [] => [(a, None)]
                | matched => (λ b, (a, Some b)) <$> matched
                end) <$> la).

(** A row of [unioned]. *)
Record UnionedRow := {
  u_pool : Z; u_index : Z; u_from : option Z; u_to : option Z; u_address : option string;
  u_is_sent : bool; u_value : Z; u_is_change : bool; u_memo : option string;
  u_key_scope : option Z; u_diversifier : option string;
}.

(** [ro]: the outputs received, each with the sent note it is. *)
Definition received_rows (db : Database) (id_tx : Z) : list (NoteRow * option SentNoteRow) :=
  left_join
    (λ n sn, (sn_transaction_id sn =? n_transaction_id n) && (sn_output_pool sn =? n_pool n)
             && (sn_output_index sn =? n_output_index n))
    (List.filter (λ n, n_transaction_id n =? id_tx) (db_notes db)) (db_sent_notes db).

Definition received_row (db : Database) (r : NoteRow * option SentNoteRow) : UnionedRow :=
  let '(n, sn) := r in
  let a := id ← n_address_id n; List.find (λ a, ad_id a =? id) (db_addresses db) in
  {| u_pool := n_pool n; u_index := n_output_index n;
     u_from := sn ≫= (λ s, account_uuid_of db (sn_from_account_id s));
     u_to := account_uuid_of db (n_account_id n);
     u_address := a ≫= (if n_pool n =? 0 then ad_cached_transparent else ad_address);
     u_is_sent := false; u_value := n_value n; u_is_change := n_is_change n; u_memo := n_memo n;
     u_key_scope := ad_key_scope <$> a; u_diversifier := a ≫= ad_diversifier_index_be |}.

Definition sent_row (db : Database) (s : SentNoteRow) : UnionedRow :=
  {| u_pool := sn_output_pool s; u_index := sn_output_index s;
     u_from := account_uuid_of db (sn_from_account_id s); u_to := None;
     u_address := sn_to_address s; u_is_sent := true; u_value := sn_value s; u_is_change := false;
     u_memo := sn_memo s; u_key_scope := None; u_diversifier := None |}.

Definition unioned (db : Database) (id_tx : Z) : list UnionedRow :=
  let ro := received_rows db id_tx in
  (received_row db <$> ro)
  ++ ((λ r, sent_row db r.1) <$>
        left_join (λ s r, match r.2 with Some sn => sn_id sn =? sn_id s | None => false end)
          (List.filter (λ s, sn_transaction_id s =? id_tx) (db_sent_notes db)) ro).

(** MAX over a column: nulls do not count. *)
Definition max_z (l : list (option Z)) : option Z :=
  foldr (λ x m, match x, m with Some a, Some b => Some (Z.max a b) | Some a, None => Some a
                               | None, m => m end) None l.
Definition max_string (l : list (option string)) : option string :=
  foldr (λ x m, match x, m with
                | Some a, Some b => Some (if bool_decide (String.le a b) then b else a)
                | Some a, None => Some a
                | None, m => m
                end) None l.

(** GROUP BY pool and index, in their order. *)
Definition group_keys (rows : list UnionedRow) : list (Z * Z) :=
  sort_by_key fst (sort_by_key snd (remove_dups ((λ r, (u_pool r, u_index r)) <$> rows))).
Definition in_group (k : Z * Z) (r : UnionedRow) : bool := (u_pool r =? k.1) && (u_index r =? k.2).

Definition group_output (omit_memos : bool) (k : Z * Z) (rows : list UnionedRow) : TxOutputRecord :=
  {| to_pool := k.1; to_output_index := k.2; to_from_account := max_z (u_from <$> rows);
     to_to_account := max_z (u_to <$> rows);
     to_to_address :=
       match max_string ((λ r, if u_is_sent r then u_address r else None) <$> rows) with
       | Some sent => Some sent
       | None => max_string ((λ r, if u_is_sent r then None else u_address r) <$> rows)
       end;
     to_value := default 0 (max_z ((λ r, Some (u_value r)) <$> rows));
     to_is_change := existsb u_is_change rows;
     to_recipient_key_scope := max_z (u_key_scope <$> rows);
     to_memo := if omit_memos then None else max_string (u_memo <$> rows);
     to_diversifier_index := max_string (u_diversifier <$> rows) ≫= decode_diversifier_index_be |}.

Definition load_outputs (db : Database) (scope : AccountScope) (id_tx : Z) (omit_memos : bool) :
    list TxOutputRecord :=
  let rows := unioned db id_tx in
  List.filter (λ o, scope_by_output_account scope (to_to_account o) (to_from_account o))
    ((λ k, group_output omit_memos k (List.filter (in_group k) rows)) <$> group_keys rows).

(** [query_transactions]. *)
Definition record_of (db : Database) (scope : AccountScope) (omit_memos : bool)
    (v : ViewTransaction) : TxRecord :=
  let j := tx_join db v in
  tx_from_row db j
    (match jr_tx j with Some t => load_outputs db scope (t_id_tx t) omit_memos | None => [] end).
Definition read_transactions (db : Database) (scope : AccountScope) (q : TxQuery) : list TxRecord :=
  record_of db scope (tq_omit_memos q) <$> tx_rows db scope q.
Definition list_transactions (db : Database) (scope : AccountScope) : list TxRecord :=
  read_transactions db scope
    {| tq_start_height := None; tq_end_height := None; tq_offset := 0; tq_limit := None;
       tq_newest_first := false; tq_omit_memos := false |}.

(** *** One transaction *)

Definition find_tx (db : Database) (internal : string) : option TransactionRow :=
  List.find (λ t, bool_decide (t_txid t = internal)) (db_transactions db).

(** [notes] of [TX_RECORD_SQL]: what accounts received in the transaction, and, negative, what
    they spent in it. *)
Definition spent_note (db : Database) (s : SpendRow) : option NoteRow :=
  List.find (λ n, (n_pool n =? s_pool s) && (n_id n =? s_note_id s)) (db_notes db).
Definition tx_notes (db : Database) (id_tx : Z) : list (Z * Z) :=
  ((λ n, (n_account_id n, n_value n))
     <$> List.filter (λ n, n_transaction_id n =? id_tx) (db_notes db))
  ++ ((λ n, (n_account_id n, - n_value n))
     <$> omap (spent_note db) (List.filter (λ s, s_transaction_id s =? id_tx) (db_spends db))).

Definition sum_z (l : list Z) : Z := foldr Z.add 0 l.

(** [get_transaction]; [raw_tx_bytes] is the library's, by internal txid. *)
Definition read_transaction (raw_tx_bytes : string → option string) (db : Database)
    (scope : AccountScope) (txid_hex : string) (omit_memos : bool) : option TxRecord :=
  internal ← txid_internal txid_hex;
  t ← find_tx db internal;
  let mine := List.filter (λ n, scope_by_id db scope n.1) (tx_notes db (t_id_tx t)) in
  let b := t_mined_height t ≫= block_at db in
  if bool_decide (mine = []) then None
  else Some {| tx_mined_height := t_mined_height t; tx_txid_hex := txid_display (t_txid t);
               tx_expiry_height := t_expiry_height t; tx_account_balance_delta := sum_z mine.*2;
               tx_fee_paid := to_u64 <$> t_fee t; tx_block_time := bl_time <$> b;
               tx_expired_unmined := expired_unmined db t; tx_tx_index := t_tx_index t;
               tx_block_hash := (λ b, txid_display (bl_hash b)) <$> b;
               tx_created_time := t_created t;
               tx_outputs := load_outputs db scope (t_id_tx t) omit_memos;
               tx_raw := raw_tx_bytes internal |}.

Definition read_tx_exists (db : Database) (txid_hex : string) : bool :=
  match txid_internal txid_hex with Some b => is_some (find_tx db b) | None => false end.

Definition read_unmined_txids (db : Database) : list string :=
  (λ t, txid_display (t_txid t)) <$> List.filter (λ t, is_nullb (t_mined_height t)) (db_transactions db).

(** The rebroadcast set at a tip: ours, unmined, unexpired, their bytes at hand. *)
Definition spends_ours (db : Database) (t : TransactionRow) : bool :=
  existsb (λ s, s_transaction_id s =? t_id_tx t) (db_spends db).
Definition read_unmined_raw_txs (nu7 : option Z) (db : Database) (tip : Z) : list (string * string) :=
  omap (λ t, if is_nullb (t_mined_height t) && tx_unexpired nu7 (wrap_u32 (tip + 1)) t
                && spends_ours db t
             then (λ raw, (txid_display (t_txid t), raw)) <$> t_raw t else None)
    (db_transactions db).

(** The (account, transaction) pairs the view has a row for. *)
Definition tx_involvement (db : Database) : list (Z * Z) :=
  remove_dups
    (((λ n, (n_account_id n, n_transaction_id n)) <$> db_notes db)
     ++ omap (λ s, (λ n, (n_account_id n, s_transaction_id s)) <$> spent_note db s) (db_spends db)).
Definition read_tx_count (db : Database) (scope : AccountScope) : Z :=
  Z.of_nat (length (List.filter (λ p, scope_by_id db scope p.1) (tx_involvement db))).
End transactions.

Definition read_wallet_spending_txids (db : Database) : list string :=
  List.filter (λ txid, (String.length txid =? 32)%nat)
    (t_txid <$> List.filter (spends_ours db) (db_transactions db)).

(** ** Balances *)

(** The library's summary: the tip, and each account's value by pool. *)
Record PoolBalance := {
  pb_spendable : Z; pb_pending_spendability : Z; pb_change_pending_confirmation : Z;
}.
Record AccountBalance := {
  ab_sapling : PoolBalance; ab_orchard : PoolBalance; ab_ironwood : PoolBalance;
  ab_unshielded : PoolBalance;
}.
Record WalletSummary := { ws_chain_tip : Z; ws_balances : list (Z * AccountBalance) }.

(** Spent by a transaction that is mined or still can be. *)
Definition spent_live (nu7 : option Z) (target : Z) (db : Database) (n : NoteRow) : bool :=
  existsb (λ s, (s_pool s =? n_pool n) && (s_note_id s =? n_id n)
                && existsb (λ stx, (t_id_tx stx =? s_transaction_id s) && tx_unexpired nu7 target stx)
                     (db_transactions db))
    (db_spends db).

Definition note_tx (db : Database) (n : NoteRow) : option TransactionRow :=
  List.find (λ t, t_id_tx t =? n_transaction_id n) (db_transactions db).
(** An output of the first transaction of its block; an unknown place is not. *)
Definition is_coinbase_tx (t : TransactionRow) : bool := default 1 (t_tx_index t) =? 0.

(** [coinbase_zats]: the unspent coinbase value on one side of maturity. *)
Definition coinbase_selected (nu7 : option Z) (db : Database) (scope : AccountScope) (target : Z)
    (mature : bool) (n : NoteRow) : bool :=
  (n_pool n =? 0)
  && match note_tx db n with
     | Some t =>
         match t_mined_height t with
         | Some h => is_coinbase_tx t
                     && (if mature then COINBASE_MATURITY <=? target - h else target - h <? COINBASE_MATURITY)
         | None => false
         end
     | None => false
     end
  && scope_by_id db scope (n_account_id n)
  && negb (spent_live nu7 target db n).
Definition coinbase_zats (nu7 : option Z) (db : Database) (scope : AccountScope) (target : Z)
    (mature : bool) : Z :=
  Z.max 0 (sum_z (n_value <$> List.filter (coinbase_selected nu7 db scope target mature) (db_notes db))).

(** One account's value added to the buckets. *)
Definition balance_add (info : BalanceInfo) (bal : AccountBalance) : BalanceInfo :=
  let o := ab_orchard bal in let s := ab_sapling bal in
  let u := ab_unshielded bal in let i := ab_ironwood bal in
  {| bi_orchard_spendable := wrap_u64 (bi_orchard_spendable info + pb_spendable o);
     bi_sapling_spendable := wrap_u64 (bi_sapling_spendable info + pb_spendable s);
     bi_ironwood_spendable := wrap_u64 (bi_ironwood_spendable info + pb_spendable i);
     bi_transparent_spendable := wrap_u64 (bi_transparent_spendable info + pb_spendable u);
     bi_total_spendable := bi_total_spendable info;
     bi_pending := wrap_u64 (bi_pending info + pb_pending_spendability o + pb_pending_spendability s
                             + pb_pending_spendability u + pb_pending_spendability i);
     bi_immature := wrap_u64 (bi_immature info + pb_change_pending_confirmation o
                              + pb_change_pending_confirmation s + pb_change_pending_confirmation u
                              + pb_change_pending_confirmation i);
     bi_mature_coinbase := bi_mature_coinbase info |}.

(** The immature coinbase moved out of the library's buckets, the mature broken out, and the
    total. *)
Definition reclassify (info : BalanceInfo) (immature_coinbase mature_coinbase : Z) : BalanceInfo :=
  let from_pending := Z.min immature_coinbase (bi_pending info) in
  let from_spendable := Z.min (immature_coinbase - from_pending) (bi_transparent_spendable info) in
  let transparent := bi_transparent_spendable info - from_spendable in
  {| bi_orchard_spendable := bi_orchard_spendable info;
     bi_sapling_spendable := bi_sapling_spendable info;
     bi_ironwood_spendable := bi_ironwood_spendable info; bi_transparent_spendable := transparent;
     bi_total_spendable := wrap_u64 (bi_orchard_spendable info + bi_sapling_spendable info
                                     + transparent + bi_ironwood_spendable info);
     bi_pending := bi_pending info - from_pending;
     bi_immature := wrap_u64 (bi_immature info + wrap_u64 (from_spendable + from_pending));
     bi_mature_coinbase := Z.min mature_coinbase transparent |}.

Definition read_balance (nu7 : option Z) (db : Database) (summary : option WalletSummary)
    (scope : AccountScope) : BalanceInfo :=
  match summary with
  | None => balance_zero
  | Some summary =>
      let target := wrap_u32 (ws_chain_tip summary + 1) in
      reclassify
        (fold_left balance_add
           (snd <$> List.filter (λ b, negb (excludes scope b.1)) (ws_balances summary)) balance_zero)
        (coinbase_zats nu7 db scope target false) (coinbase_zats nu7 db scope target true)
  end.

(** ** Received outputs *)

(** The joined rows of [received_tx_records], in order. *)
Definition received_row_before (a b : ViewTransaction * ViewOutput) : Prop :=
  (row_before a.1 b.1 ∧ ¬ row_before b.1 a.1)
  ∨ (row_before a.1 b.1 ∧ row_before b.1 a.1
     ∧ (o_output_pool a.2 < o_output_pool b.2
        ∨ (o_output_pool a.2 = o_output_pool b.2 ∧ o_output_index a.2 ≤ o_output_index b.2))).
#[global] Instance received_row_before_dec a b : Decision (received_row_before a b).
Proof. unfold received_row_before. apply _. Defined.

Section received.
Context `{HX : HexCodec}.

Definition received_output (o : ViewOutput) : TxOutputRecord :=
  {| to_pool := o_output_pool o; to_output_index := 0; to_from_account := None;
     to_to_account := o_to_account_uuid o; to_to_address := o_to_address o; to_value := o_value o;
     to_is_change := o_is_change o; to_recipient_key_scope := o_recipient_key_scope o;
     to_memo := None; to_diversifier_index := None |}.

(** The address filter is the recorded encodings to look under. *)
Definition received_rows_of (db : Database) (scope : AccountScope)
    (address_filter : option (list string)) : list (ViewTransaction * TransactionRow * ViewOutput) :=
  let joined := concat ((λ v,
    concat ((λ t,
      (λ o, (v, t, o)) <$>
        List.filter (λ o, bool_decide (o_txid o = v_txid v)
                          && match address_filter with
                             | None => true
                             | Some candidates =>
                                 match o_to_address o with
                                 | Some a => bool_decide (a ∈ candidates)
                                 | None => false
                                 end
                             end)
          (db_v_tx_outputs db))
      <$> List.filter (λ t, bool_decide (t_txid t = v_txid v)) (db_transactions db)))
    <$> List.filter (λ v, scope_by_uuid scope (Some (v_account_uuid v))) (db_v_transactions db)) in
  merge_sort (λ a b, received_row_before (a.1.1, a.2) (b.1.1, b.2)) joined.

(** Back under their transactions, in first-seen order. *)
Definition add_received (db : Database) (recs : list (string * TxRecord))
    (r : ViewTransaction * TransactionRow * ViewOutput) : list (string * TxRecord) :=
  let '(v, t, o) := r in
  let with_output rec :=
    {| tx_mined_height := tx_mined_height rec; tx_txid_hex := tx_txid_hex rec;
       tx_expiry_height := tx_expiry_height rec;
       tx_account_balance_delta := tx_account_balance_delta rec; tx_fee_paid := tx_fee_paid rec;
       tx_block_time := tx_block_time rec; tx_expired_unmined := tx_expired_unmined rec;
       tx_tx_index := tx_tx_index rec; tx_block_hash := tx_block_hash rec;
       tx_created_time := tx_created_time rec; tx_outputs := tx_outputs rec ++ [received_output o];
       tx_raw := tx_raw rec |} in
  if bool_decide (v_txid v ∈ recs.*1)
  then (λ e, if bool_decide (e.1 = v_txid v) then (e.1, with_output e.2) else e) <$> recs
  else recs ++ [(v_txid v, with_output
         {| tx_mined_height := v_mined_height v; tx_txid_hex := txid_display (v_txid v);
            tx_expiry_height := None; tx_account_balance_delta := 0; tx_fee_paid := None;
            tx_block_time := None; tx_expired_unmined := expired_unmined db t;
            tx_tx_index := v_tx_index v; tx_block_hash := None; tx_created_time := None;
            tx_outputs := []; tx_raw := None |})].
Definition read_received (db : Database) (scope : AccountScope)
    (address_filter : option (list string)) : list TxRecord :=
  snd <$> fold_left (add_received db) (received_rows_of db scope address_filter) [].

(** ** Unspent outputs *)

(** A note the library's selector returns. *)
Record SelectedNote := { sel_pool : Z; sel_txid : string; sel_index : Z; sel_value : Z }.

(** The maps the notes are annotated from: a later row replaces an earlier one. *)
Definition tx_meta (db : Database) (scope : AccountScope) : gmap string (option Z * bool) :=
  fold_left (λ m v, <[txid_display (v_txid v) := (v_mined_height v, v_account_balance_delta v <? 0)]> m)
    (List.filter (λ v, scope_by_uuid scope (Some (v_account_uuid v))) (db_v_transactions db)) ∅.
Definition out_addr (db : Database) (scope : AccountScope) : gmap (string * Z * Z) string :=
  fold_left
    (λ m o, match o_to_address o with
            | Some a => <[(txid_display (o_txid o), o_output_pool o, o_output_index o) := a]> m
            | None => m
            end)
    (List.filter (λ o, bool_decide (o_output_pool o ∈ [2; 3; 4])
                       && scope_by_output_account scope (o_to_account_uuid o) (o_from_account_uuid o))
       (db_v_tx_outputs db)) ∅.

Definition unspent_shielded (db : Database) (scope : AccountScope) (txid : string) (vout value pool : Z) :
    UnspentNote :=
  let '(mined_height, trusted) := default (None, false) (tx_meta db scope !! txid) in
  {| un_txid := txid; un_vout := vout; un_value := value; un_mined_height := mined_height;
     un_trusted := trusted; un_address := out_addr db scope !! (txid, pool, vout); un_pool := pool;
     un_generated := false |}.

(** The notes of unmined transactions, which the selector does not see. *)
Definition mempool_selected (nu7 : option Z) (target : Z) (db : Database) (n : NoteRow) : bool :=
  match note_tx db n with
  | Some t => is_nullb (t_mined_height t) && tx_unexpired nu7 target t
  | None => false
  end && negb (spent_live nu7 target db n).
Definition mempool_notes (nu7 : option Z) (db : Database) (scope : AccountScope) (target : Z)
    (selected : list UnspentNote) : list UnspentNote :=
  concat ((λ pool,
    omap (λ n,
      t ← note_tx db n;
      let txid := txid_display (t_txid t) in
      if (n_pool n =? pool) && mempool_selected nu7 target db n
         && negb (bool_decide ((txid, pool, n_output_index n)
                               ∈ (λ u, (un_txid u, un_pool u, un_vout u)) <$> selected))
      then Some (unspent_shielded db scope txid (n_output_index n) (Z.max 0 (n_value n)) pool)
      else None) (db_notes db)) <$> [2; 3; 4]).

(** The transparent outputs, but immature coinbase. *)
Definition transparent_selected (nu7 : option Z) (target : Z) (db : Database) (n : NoteRow)
    (t : TransactionRow) : bool :=
  (is_some (t_mined_height t) || tx_unexpired nu7 target t)
  && negb (is_coinbase_tx t && sql_lt ((λ h, target - h) <$> t_mined_height t) (Some COINBASE_MATURITY))
  && (negb (is_coinbase_tx t) || is_some (t_mined_height t))
  && negb (spent_live nu7 target db n).
Definition transparent_notes (nu7 : option Z) (db : Database) (scope : AccountScope) (target : Z) :
    list UnspentNote :=
  omap (λ n,
    t ← note_tx db n;
    if (n_pool n =? 0) && transparent_selected nu7 target db n t then
      let txid := txid_display (t_txid t) in
      let '(mined_height, trusted) := default (None, false) (tx_meta db scope !! txid) in
      Some {| un_txid := txid; un_vout := n_output_index n; un_value := Z.max 0 (n_value n);
              un_mined_height := mined_height; un_trusted := trusted;
              un_address := Some (n_taddress n); un_pool := 0; un_generated := is_coinbase_tx t |}
    else None) (db_notes db).

(** [scoped_account_ids]: the accounts of the database the scope does not exclude. *)
Definition scoped_account_ids (db : Database) (scope : AccountScope) : list Z :=
  List.filter (λ a, negb (excludes scope a)) (ac_uuid <$> db_accounts db).

(** [list_unspent]; [select] is the selector, by account, of one pool after another. *)
Definition read_unspent (nu7 : option Z) (chain_height : option Z) (select : Z → Z → list SelectedNote)
    (db : Database) (scope : AccountScope) : list UnspentNote :=
  match chain_height with
  | None => []
  | Some h =>
      let target := wrap_u32 (h + 1) in
      let selected := concat ((λ account,
        concat ((λ pool,
          (λ n, unspent_shielded db scope (txid_display (sel_txid n)) (sel_index n) (sel_value n) pool)
            <$> List.filter (λ n, sel_pool n =? pool) (select account target)) <$> [2; 3; 4]))
        <$> scoped_account_ids db scope) in
      selected ++ mempool_notes nu7 db scope target selected ++ transparent_notes nu7 db scope target
  end.

(** Every held output not yet seen spent, by outpoint. *)
Definition read_unspent_transparent_outpoints (db : Database) : list (string * Z) :=
  omap (λ n,
    t ← note_tx db n;
    if (n_pool n =? 0)
       && negb (existsb (λ s, (s_pool s =? 0) && (s_note_id s =? n_id n)) (db_spends db))
       && (String.length (t_txid t) =? 32)%nat
    then Some (t_txid t, n_output_index n) else None) (db_notes db).
End received.

(** ** Reading a wallet's directory *)

(** Opening a wallet's database, the library's own reads of it, and the height NU7 activates at. *)
Class WalletLibrary := {
  open_conn : string → result RpcError Database;
  ConfirmationsPolicy : Type;
  handle_confirmations : WalletHandle → ConfirmationsPolicy;
  new_symmetrical : Z → bool → ConfirmationsPolicy;
  get_wallet_summary : ZNetwork → string → ConfirmationsPolicy → result RpcError (option WalletSummary);
  chain_height : ZNetwork → string → result RpcError (option Z);
  select_unspent_notes : ZNetwork → string → Z → Z → list SelectedNote;
  raw_tx_bytes : ZNetwork → string → string → option string;
  nu7_activation : ZNetwork → option Z;
}.

Section library.
Context `{HX : HexCodec} `{WL : WalletLibrary}.

#[export] Instance wallet_block_table : BlockTable := {
  block_info_at w h := db ← open_conn (wh_engine_dir w); Ok (read_block_info_at db h);
  median_time_past w h := db ← open_conn (wh_engine_dir w); Ok (read_median_time_past db h);
  block_height_by_hash w hash :=
    if is_block_hash_wellformed hash
    then db ← open_conn (wh_engine_dir w); Ok (read_block_height_by_hash db hash) else Ok None;
}.
Definition first_scanned_block (engine_dir : string) : result RpcError (option (Z * string)) :=
  db ← open_conn engine_dir; Ok (read_first_scanned_block db).
Definition query_transactions (engine_dir : string) (scope : AccountScope) (q : TxQuery) :
    result RpcError (list TxRecord) :=
  db ← open_conn engine_dir; Ok (read_transactions db scope q).
Definition get_transaction (n : ZNetwork) (engine_dir : string) (scope : AccountScope)
    (txid_hex : string) (omit_memos : bool) : result RpcError (option TxRecord) :=
  if is_some (txid_internal txid_hex)
  then db ← open_conn engine_dir;
       Ok (read_transaction (raw_tx_bytes n engine_dir) db scope txid_hex omit_memos)
  else Ok None.
Definition received_tx_records (engine_dir : string) (scope : AccountScope)
    (address_filter : option (list string)) : result RpcError (list TxRecord) :=
  db ← open_conn engine_dir; Ok (read_received db scope address_filter).
Definition balance (n : ZNetwork) (engine_dir : string) (scope : AccountScope)
    (policy : ConfirmationsPolicy) : result RpcError BalanceInfo :=
  summary ← get_wallet_summary n engine_dir policy;
  match summary with
  | None => Ok balance_zero
  | Some _ => db ← open_conn engine_dir; Ok (read_balance (nu7_activation n) db summary scope)
  end.
Definition tx_count (engine_dir : string) (scope : AccountScope) : result RpcError Z :=
  db ← open_conn engine_dir; Ok (read_tx_count db scope).
Definition list_unspent (n : ZNetwork) (engine_dir : string) (scope : AccountScope) :
    result RpcError (list UnspentNote) :=
  h ← chain_height n engine_dir;
  db ← open_conn engine_dir;
  Ok (read_unspent (nu7_activation n) h (select_unspent_notes n engine_dir) db scope).
End library.
