(* ===== verification/ReadsSpec.v ===== *)
(** * ReadsSpec: what the reads of the wallet database return

    The order of history and its pages, the account a scoped read is confined to, the agreement
    of history and balance on expiry, and the balance buckets. Two reads that are not confined
    are exhibited. *)

From S2P Require Export Reads.

(** ** Order *)

#[global] Instance row_before_trans : Transitive row_before.
Proof.
  intros u v w. unfold row_before. destruct (sort_height u), (sort_height v), (sort_height w); try done.
  - intros [?|[-> Hu]] [?|[-> Hv]]; [left; lia|left; lia|left; lia|right]. split; [done|]. by etrans.
  - intros Hu Hv. by etrans.
Qed.
#[global] Instance row_before_total : Total row_before.
Proof.
  intros u v. unfold row_before. destruct (sort_height u) as [a|], (sort_height v) as [b|]; auto.
  - destruct (Z.lt_trichotomy a b) as [?|[->|?]]; [auto| |auto].
    destruct (total String.le (v_txid u) (v_txid v)); auto.
  - apply (total String.le).
Qed.
#[global] Instance row_after_trans : Transitive row_after.
Proof. intros u v w ??. unfold row_after in *. by etrans. Qed.
#[global] Instance row_after_total : Total row_after.
Proof. intros u v. destruct (total row_before u v); auto. Qed.

Lemma row_before_antisym_txid v w : row_before v w → row_before w v → v_txid v = v_txid w.
Proof.
  unfold row_before. destruct (sort_height v), (sort_height w); try done.
  - intros [?|[-> ?]] [?|[? ?]]; try lia. by apply (anti_symm String.le).
  - apply (anti_symm String.le).
Qed.

(** A list sorted by a relation, reversed, is sorted by its converse. *)
Lemma StronglySorted_snoc {A} (R : A → A → Prop) l x :
  StronglySorted R l → Forall (λ y, R y x) l → StronglySorted R (l ++ [x]).
Proof.
  induction 1 as [|y l Hs IH Hall]; cbn; intros Hx; [by repeat constructor|].
  apply Forall_cons in Hx as [Hyx Hx]. constructor; [by apply IH|]. apply Forall_app. auto.
Qed.
Lemma StronglySorted_rev {A} (R : A → A → Prop) l :
  StronglySorted R l → StronglySorted (flip R) (rev l).
Proof.
  induction 1 as [|y l Hs IH Hall]; cbn; [constructor|]. apply StronglySorted_snoc; [done|].
  apply Forall_rev. exact Hall.
Qed.

(** The query of a range, a window of it. *)
Definition range_query (q : TxQuery) (newest_first : bool) (offset : Z) (limit : option Z) : TxQuery :=
  {| tq_start_height := tq_start_height q; tq_end_height := tq_end_height q; tq_offset := offset;
     tq_limit := limit; tq_newest_first := newest_first; tq_omit_memos := tq_omit_memos q |}.

(** The rows of a range, unordered. *)
Definition selected_rows (db : Database) (scope : AccountScope) (q : TxQuery) : list ViewTransaction :=
  List.filter (row_selected scope q) (db_v_transactions db).
(** A scope sees each transaction once: it is of one account, or the database holds one. *)
Definition one_row_per_tx (db : Database) (scope : AccountScope) (q : TxQuery) : Prop :=
  NoDup (v_txid <$> selected_rows db scope q).

Lemma tx_rows_window db scope q newest offset limit :
  tx_rows db scope (range_query q newest offset limit) =
  window_rows limit offset (tx_rows db scope (range_query q newest 0 None)).
Proof. unfold tx_rows. by destruct newest. Qed.

Lemma newest_reverses db scope q :
  one_row_per_tx db scope q →
  tx_rows db scope (range_query q true 0 None) = rev (tx_rows db scope (range_query q false 0 None)).
Proof.
  intros Hnd. unfold tx_rows, window_rows.
  cbn [tq_newest_first range_query tq_limit tq_offset]. change (Z.to_nat 0) with 0%nat. rewrite !drop_0.
  change (List.filter _ _) with (selected_rows db scope q).
  apply (StronglySorted_unique_strong row_after).
  - intros v w Hv Hw H1 H2. apply list_elem_of_In, in_rev, list_elem_of_In in Hw.
    rewrite merge_sort_Permutation in Hv, Hw. pose proof (row_before_antisym_txid _ _ H2 H1) as Htx.
    apply list_elem_of_lookup in Hv as [i Hi], Hw as [j Hj].
    assert (i = j) as <-; [|by simplify_eq].
    eapply (NoDup_lookup (v_txid <$> selected_rows db scope q)); [exact Hnd| |];
      rewrite list_lookup_fmap, ?Hi, ?Hj; cbn; [done|by rewrite Htx].
  - apply (StronglySorted_merge_sort row_after).
  - apply (StronglySorted_rev row_before), (StronglySorted_merge_sort row_before).
  - rewrite <- Permutation_rev, !merge_sort_Permutation. done.
Qed.

Lemma concat_fmap_fmap {A B C} (f : B → C) (g : A → list B) (l : list A) :
  concat ((λ i, f <$> g i) <$> l) = f <$> concat (g <$> l).
Proof. induction l as [|x l IH]; [done|]. cbn. by rewrite IH, fmap_app. Qed.

Lemma pages_tile {A} (l : list A) (n k : nat) :
  concat ((λ i, window_rows (Some (Z.of_nat n)) (Z.of_nat (i * n)) l) <$> seq 0 k) = take (k * n) l.
Proof.
  induction k as [|k IH]; [done|]. rewrite seq_S, fmap_app, concat_app, IH. cbn. rewrite app_nil_r.
  unfold window_rows. rewrite !Nat2Z.id. replace (n + k * n)%nat with (k * n + n)%nat by lia.
  by rewrite take_take_drop.
Qed.

Section order.
Context `{HX : HexCodec}.

(** History is a log: the transactions of a range come in ascending height, unmined ones
    last, each once, and any two at one height always the same way round; newest first is the
    same log backwards, and consecutive pages of either direction, of any size, neither repeat
    nor skip a transaction. *)
Theorem history_is_a_log (db : Database) (scope : AccountScope) (q : TxQuery) :
  one_row_per_tx db scope q →
  let log newest := read_transactions db scope (range_query q newest 0 None) in
  log true = rev (log false) ∧
  StronglySorted row_before (tx_rows db scope (range_query q false 0 None)) ∧
  log false ≡ₚ record_of db scope (tq_omit_memos q) <$> selected_rows db scope q ∧
  ∀ (newest : bool) (size pages : nat),
    concat ((λ i, read_transactions db scope
                    (range_query q newest (Z.of_nat (i * size)) (Some (Z.of_nat size))))
              <$> seq 0 pages) =
    take (pages * size) (log newest).
Proof.
  intros Hnd log. subst log. unfold read_transactions.
  cbn [tq_omit_memos range_query]. split_and!.
  - rewrite (newest_reverses db scope q Hnd). apply map_rev.
  - apply (StronglySorted_merge_sort row_before).
  - apply fmap_Permutation, merge_sort_Permutation.
  - intros newest size pages. rewrite <- fmap_take, <- pages_tile, <- concat_fmap_fmap.
    f_equal.
Qed.
End order.

(** ** Expiry *)

Lemma sql_le_Some a b : sql_le (Some a) b = match b with Some y => a <=? y | None => false end.
Proof. done. Qed.

(** History and balance agree on expiry: at any tip, an unmined transaction that history
    calls expired is one whose value the balance no longer counts as live, never the reverse;
    and where its expiry is known, or was given when NU7 was in force, each is exactly the
    other's negation. *)
Theorem expiry_agrees (nu7 : option Z) (db : Database) (t : TransactionRow) (tip : Z) :
  max_height (db_blocks db) = Some tip → t_mined_height t = None →
  (expired_unmined db t = true → tx_unexpired nu7 (tip + 1) t = false) ∧
  (match t_expiry_height t with
   | Some e => 0 ≤ e
   | None => ∃ o h, observed_height t = Some o ∧ nu7 = Some h ∧ h ≤ o
   end → tx_unexpired nu7 (tip + 1) t = negb (expired_unmined db t)).
Proof.
  intros Htip Hm. unfold expired_unmined, tx_unexpired. rewrite Htip, Hm, !sql_le_Some.
  cbn [is_nullb is_some negb andb sql_lt sql_eq]. split.
  - destruct (t_expiry_height t) as [e|]; cbn; [lia|].
    destruct (observed_height t) as [o|]; cbn; [|done]. unfold default_expiry_delta,
      NU7_DEFAULT_TX_EXPIRY_DELTA, PRE_NU7_DEFAULT_TX_EXPIRY_DELTA.
    destruct nu7 as [h|]; [destruct (Z.leb_spec h o)|]; lia.
  - destruct (t_expiry_height t) as [e|]; cbn; [lia|]. intros (o & h & -> & -> & Hle). cbn.
    unfold default_expiry_delta, NU7_DEFAULT_TX_EXPIRY_DELTA. rewrite (proj2 (Z.leb_le h o) Hle). lia.
Qed.

Lemma expiry_agrees_witness :
  let db := {| db_blocks := [{| bl_height := 9; bl_hash := "h"; bl_time := 0 |}]; db_accounts := [];
               db_transactions := []; db_notes := []; db_spends := []; db_sent_notes := [];
               db_addresses := []; db_v_transactions := []; db_v_tx_outputs := [] |} in
  let t := {| t_id_tx := 1; t_txid := "t"; t_mined_height := None; t_expiry_height := Some 9;
              t_target_height := None; t_min_observed_height := None; t_tx_index := None;
              t_fee := None; t_created := None; t_raw := None |} in
  expired_unmined db t = true ∧ tx_unexpired None 10 t = false.
Proof.
  intros db t. split; [done|]. refine (proj1 (expiry_agrees None db t 9 _ _) _); done.
Defined.

(** ** The account of a read *)

(** A transaction output belongs to an account on either side. *)
Definition output_of (a : Z) (o : TxOutputRecord) : Prop :=
  to_to_account o = Some a ∨ to_from_account o = Some a.

(** A database that holds one account and nothing else. *)
Record single_account (db : Database) (id uuid : Z) : Prop := {
  sa_accounts : db_accounts db = [{| ac_id := id; ac_uuid := uuid |}];
  sa_notes : Forall (λ n, n_account_id n = id) (db_notes db);
  sa_sent : Forall (λ s, sn_from_account_id s = id) (db_sent_notes db);
  sa_rows : Forall (λ v, v_account_uuid v = uuid) (db_v_transactions db);
}.

Lemma filter_all {A} (f : A → bool) l : Forall (λ x, f x = true) l → List.filter f l = l.
Proof. induction 1 as [|x l Hx _ IH]; [done|]. cbn. by rewrite Hx, IH. Qed.

Lemma filter_none {A} (f : A → bool) l : Forall (λ x, f x = false) l → List.filter f l = [].
Proof. induction 1 as [|x l Hx _ IH]; [done|]. cbn. by rewrite Hx, IH. Qed.

Lemma filter_ext_Forall {A} (f g : A → bool) l :
  Forall (λ x, f x = g x) l → List.filter f l = List.filter g l.
Proof. induction 1 as [|x l Hx _ IH]; [done|]. cbn. by rewrite Hx, IH. Qed.

(** The maximum of a column with one value. *)
Lemma max_z_const a (l : list (option Z)) :
  Forall (λ x, x = None ∨ x = Some a) l → max_z l = if existsb is_some l then Some a else None.
Proof.
  unfold max_z. induction 1 as [|x l Hx Hl IH]; [done|]. cbn [foldr]. rewrite IH.
  destruct Hx as [->| ->]; cbn; [done|]. destruct (existsb is_some l); [|done]. f_equal. lia.
Qed.

Lemma elem_of_left_join {A B} (on : A → B → bool) la lb a ob :
  (a, ob) ∈ left_join on la lb → a ∈ la ∧ ∀ b, ob = Some b → b ∈ lb.
Proof.
  unfold left_join. rewrite list_elem_of_In, in_concat. intros (rows & Hrows & Hin).
  apply list_elem_of_In, list_elem_of_fmap in Hrows as (a' & -> & Ha').
  apply list_elem_of_In in Hin. destruct (List.filter (on a') lb) as [|m ms] eqn:Hf.
  - apply list_elem_of_singleton in Hin as [= -> ->]. split; [done|]. by intros b [=].
  - apply list_elem_of_fmap in Hin as (b & [= -> ->] & Hb). split; [done|]. intros ? [= <-].
    rewrite <- Hf in Hb. by apply elem_of_filter_bool in Hb as [_ ?].
Qed.

(** The rows of a group are of the transaction, and there is one. *)
Lemma group_keys_elem rows k : k ∈ group_keys rows ↔ ∃ r, r ∈ rows ∧ in_group k r = true.
Proof.
  unfold group_keys. rewrite !elem_of_sort_by_key, elem_of_remove_dups, list_elem_of_fmap.
  unfold in_group. split.
  - intros (r & -> & Hr). exists r. split; [done|]. cbn. lia.
  - intros (r & Hr & Hk). exists r. split; [|done]. destruct k; cbn in *. f_equal; lia.
Qed.

Section scope.
Context `{HX : HexCodec} (db : Database).

Lemma load_outputs_scoped scope a id_tx omit o :
  scope_param scope = Some a → o ∈ load_outputs db scope id_tx omit → output_of a o.
Proof.
  unfold load_outputs. intros Hs [Ho _]%elem_of_filter_bool. unfold output_of.
  unfold scope_by_output_account, scope_by_uuid in Ho. rewrite Hs in Ho. cbn in Ho.
  destruct (to_to_account o), (to_from_account o); cbn in Ho; try done; [|left|right]; 
    try (f_equal; lia). apply orb_true_iff in Ho as [?|?]; [left|right]; f_equal; lia.
Qed.

(** Every row the union has names the one account on one side. *)
Lemma unioned_single id uuid id_tx :
  single_account db id uuid →
  Forall (λ r, (u_to r = None ∨ u_to r = Some uuid) ∧ (u_from r = None ∨ u_from r = Some uuid)
               ∧ (u_to r = Some uuid ∨ u_from r = Some uuid)) (unioned db id_tx).
Proof.
  intros [Hacc Hnotes Hsent _].
  assert (Hid : account_uuid_of db id = Some uuid).
  { unfold account_uuid_of. rewrite Hacc. cbn. by rewrite Z.eqb_refl. }
  rewrite Forall_forall in Hnotes. rewrite Forall_forall in Hsent. unfold unioned. apply Forall_app. split; apply Forall_fmap, Forall_forall.
  - intros [n sn] [Hn Hsn]%elem_of_left_join. apply elem_of_filter_bool in Hn as [_ Hn]. cbn.
    rewrite (Hnotes n) by done. rewrite Hid. split_and!; [by right| |by left].
    destruct sn as [sn|]; [|by left]. right. cbn. by rewrite (Hsent sn) by auto.
  - intros [s r] [Hs _]%elem_of_left_join. apply elem_of_filter_bool in Hs as [_ Hs]. cbn.
    rewrite (Hsent s) by done. rewrite Hid. auto.
Qed.

Lemma load_outputs_single id uuid id_tx omit :
  single_account db id uuid →
  load_outputs db (Only uuid) id_tx omit = load_outputs db Any id_tx omit.
Proof.
  intros Hsa. apply filter_ext_Forall, Forall_fmap, Forall_forall. intros k Hk. cbn.
  apply group_keys_elem in Hk as (r & Hr & Hin). pose proof (unioned_single _ _ id_tx Hsa) as Hall.
  set (rows := List.filter (in_group k) (unioned db id_tx)).
  assert (Hrows : Forall (λ r, (u_to r = None ∨ u_to r = Some uuid)
                               ∧ (u_from r = None ∨ u_from r = Some uuid)) rows).
  { apply Forall_forall. intros r' [_ Hr']%elem_of_filter_bool. rewrite Forall_forall in Hall.
    naive_solver. }
  apply Forall_and in Hrows as [Hto Hfrom]. unfold scope_by_output_account, scope_by_uuid.
  cbn [scope_param is_nullb is_some negb orb to_to_account to_from_account group_output].
  rewrite (max_z_const uuid (u_to <$> rows)) by by apply Forall_fmap.
  rewrite (max_z_const uuid (u_from <$> rows)) by by apply Forall_fmap.
  assert (existsb is_some (u_to <$> rows) || existsb is_some (u_from <$> rows) = true) as Hor.
  { apply orb_true_iff. rewrite !existsb_exists. rewrite Forall_forall in Hall.
    assert (r ∈ rows) as Hrr by by apply elem_of_filter_bool.
    destruct (Hall r Hr) as (_ & _ & [Hto'|Hfrom']); [left|right]; exists (Some uuid);
      (split; [|done]); apply list_elem_of_In, list_elem_of_fmap; eauto. }
  destruct (existsb is_some (u_to <$> rows)), (existsb is_some (u_from <$> rows)); cbn in *;
    rewrite ?Z.eqb_refl; done.
Qed.
Lemma scope_by_id_only a id col :
  account_id_of db a = Some id → scope_by_id db (Only a) col = (col =? id).
Proof. unfold scope_by_id. cbn [scope_param]. by intros ->. Qed.

Lemma scope_by_id_nobody col :
  Forall (λ a, ac_uuid a ≠ NIL_UUID) (db_accounts db) → scope_by_id db NoAccount col = false.
Proof.
  intros Hnil. unfold scope_by_id, account_id_of. cbn [scope_param].
  induction Hnil as [|a l Ha _ IH]; [done|]. cbn. rewrite (proj2 (Z.eqb_neq _ _) Ha). exact IH.
Qed.

Lemma tx_rows_subset scope q v : v ∈ tx_rows db scope q → v ∈ selected_rows db scope q.
Proof.
  unfold tx_rows, window_rows. intros Hv.
  assert (v ∈ (if tq_newest_first q then merge_sort row_after (selected_rows db scope q)
               else merge_sort row_before (selected_rows db scope q))) as Hin.
  { destruct (tq_limit q); [apply subseteq_take in Hv|]; by apply subseteq_drop in Hv. }
  destruct (tq_newest_first q); by rewrite merge_sort_Permutation in Hin.
Qed.

Lemma tx_rows_ext s1 s2 q :
  Forall (λ v, scope_by_uuid s1 (Some (v_account_uuid v)) = scope_by_uuid s2 (Some (v_account_uuid v)))
    (db_v_transactions db) →
  tx_rows db s1 q = tx_rows db s2 q.
Proof.
  intros H. unfold tx_rows.
  rewrite (filter_ext_Forall (row_selected s1 q) (row_selected s2 q)); [done|].
  eapply Forall_impl; [exact H|]. intros v Hv. unfold row_selected. by rewrite Hv.
Qed.

Lemma read_transaction_Some raw scope hex omit r id :
  (∀ col, scope_by_id db scope col = (col =? id)) →
  read_transaction raw db scope hex omit = Some r →
  ∃ t, t ∈ db_transactions db ∧ tx_outputs r = load_outputs db scope (t_id_tx t) omit ∧
    let own := List.filter (λ n, n.1 =? id) (tx_notes db (t_id_tx t)) in
    own ≠ [] ∧ tx_account_balance_delta r = sum_z own.*2 ∧
    tx_txid_hex r = txid_display (t_txid t).
Proof.
  intros Hcol. unfold read_transaction. destruct (txid_internal hex) as [internal|]; [|done].
  cbn [mbind option_bind]. destruct (find_tx db internal) as [t|] eqn:Ht; [|done].
  cbn [mbind option_bind]. apply find_some in Ht as [Hin _].
  rewrite (filter_ext_Forall (λ n, scope_by_id db scope n.1) (λ n, n.1 =? id)) by
    by apply Forall_forall; intros n _; apply Hcol.
  case_bool_decide as Hne; [done|]. intros [= <-]. exists t. split_and!; try done.
  by apply list_elem_of_In.
Qed.

(** C6. The transaction list and the single-transaction read, scoped to an account, are about that
    account alone: every transaction listed is one the account was part of and every output one the account paid or received, and a single
    transaction is found only when the account received or spent in it, its delta counting the
    account's own notes; a wallet of a shard without an account yet lists, finds and counts nothing; and
    in a database of one account the scope changes neither the list nor the accounts read. The
    reads of the notes received and unspent are not covered: [received_not_scoped] and
    [unspent_not_scoped] show what they leak. *)
Theorem scoped_history (raw : string → option string) (q : TxQuery) (hex : string) (omit : bool) :
  (∀ a r, r ∈ read_transactions db (Only a) q →
     (∃ v, v ∈ db_v_transactions db ∧ v_account_uuid v = a ∧ tx_txid_hex r = txid_display (v_txid v))
     ∧ Forall (output_of a) (tx_outputs r)) ∧
  (∀ a id r, account_id_of db a = Some id → read_transaction raw db (Only a) hex omit = Some r →
     Forall (output_of a) (tx_outputs r) ∧
     ∃ t, t ∈ db_transactions db ∧ tx_txid_hex r = txid_display (t_txid t) ∧
          let own := List.filter (λ n, n.1 =? id) (tx_notes db (t_id_tx t)) in
          own ≠ [] ∧ tx_account_balance_delta r = sum_z own.*2) ∧
  (Forall (λ a, ac_uuid a ≠ NIL_UUID) (db_accounts db) →
   Forall (λ v, v_account_uuid v ≠ NIL_UUID) (db_v_transactions db) →
   read_transactions db NoAccount q = [] ∧ read_transaction raw db NoAccount hex omit = None ∧
   read_tx_count db NoAccount = 0 ∧ scoped_account_ids db NoAccount = []) ∧
  (∀ id uuid, single_account db id uuid →
     read_transactions db (Only uuid) q = read_transactions db Any q ∧
     scoped_account_ids db (Only uuid) = scoped_account_ids db Any).
Proof.
  split_and!.
  - intros a r (v & -> & Hv)%list_elem_of_fmap. apply tx_rows_subset, elem_of_filter_bool in Hv as [Hsel Hv].
    split.
    + exists v. split_and!; [done| |done]. unfold row_selected in Hsel.
      apply andb_true_iff in Hsel as [_ Hsel]. cbn in Hsel. lia.
    + apply Forall_forall. intros o. cbn. case_match; [|by intros ?%elem_of_nil].
      by apply load_outputs_scoped.
  - intros a id r Hid Hr. apply (read_transaction_Some _ _ _ _ _ id) in Hr
      as (t & Ht & -> & Hne & -> & ->); [|intros col; by apply scope_by_id_only]. split.
    + apply Forall_forall. intros o. by apply load_outputs_scoped.
    + by exists t.
  - intros Hacc Hrows. split_and!.
    + unfold read_transactions, tx_rows. rewrite (filter_none (row_selected NoAccount q)).
      { destruct (tq_newest_first q); unfold window_rows; cbn; destruct (tq_limit q); cbn; by rewrite ?drop_nil, ?take_nil. }
      eapply Forall_impl; [exact Hrows|]. intros v Hv. unfold row_selected. cbn.
      rewrite (proj2 (Z.eqb_neq _ _) Hv). apply andb_false_r.
    + unfold read_transaction. destruct (txid_internal hex) as [internal|]; [|done].
      cbn [mbind option_bind]. destruct (find_tx db internal); [|done]. cbn [mbind option_bind].
      rewrite filter_none; [done|]. apply Forall_forall. intros n _. by apply scope_by_id_nobody.
    + unfold read_tx_count. rewrite filter_none; [done|]. apply Forall_forall. intros n _.
      by apply scope_by_id_nobody.
    + unfold scoped_account_ids. apply filter_none, Forall_forall. done.
  - intros id uuid Hsa. split.
    + unfold read_transactions. rewrite (tx_rows_ext (Only uuid) Any).
      * apply list_fmap_ext. intros i v _. unfold record_of. f_equal.
        destruct (jr_tx (tx_join db v)); [|done]. by apply (load_outputs_single id).
      * eapply Forall_impl; [exact (sa_rows _ _ _ Hsa)|]. intros v ->. cbn. apply Z.eqb_refl.
    + unfold scoped_account_ids. rewrite (sa_accounts _ _ _ Hsa). cbn. by rewrite Z.eqb_refl.
Qed.
End scope.

(** ** Two reads that are not confined *)

(** A shard of two accounts, 1 and 2; one unmined transaction pays each of them an Orchard
    note. *)
#[local] Instance plain_hex : HexCodec := {| hex_encode s := s; hex_decode s := Some s |}.

Definition shard_note (id index account : Z) : NoteRow :=
  {| n_id := id; n_pool := 3; n_transaction_id := 7; n_output_index := index; n_account_id := account;
     n_value := 5000; n_is_change := false; n_memo := None; n_address_id := None; n_taddress := "" |}.
Definition shard_view (account : Z) (mined : option Z) : ViewTransaction :=
  {| v_account_uuid := account; v_mined_height := mined; v_txid := "t"; v_expiry_height := Some 100;
     v_account_balance_delta := 5000; v_fee_paid := None; v_block_time := None; v_tx_index := None |}.
Definition shard_output (index account : Z) (to : string) : ViewOutput :=
  {| o_txid := "t"; o_output_pool := 3; o_output_index := index; o_from_account_uuid := None;
     o_to_account_uuid := Some account; o_to_address := Some to; o_value := 5000;
     o_is_change := false; o_recipient_key_scope := Some 0 |}.
Definition shard_db : Database :=
  {| db_blocks := [{| bl_height := 50; bl_hash := "b"; bl_time := 0 |}];
     db_accounts := [{| ac_id := 1; ac_uuid := 11 |}; {| ac_id := 2; ac_uuid := 12 |}];
     db_transactions := [{| t_id_tx := 7; t_txid := "t"; t_mined_height := None;
       t_expiry_height := Some 100; t_target_height := None; t_min_observed_height := Some 50;
       t_tx_index := None; t_fee := None; t_created := None; t_raw := None |}];
     db_notes := [shard_note 1 0 1; shard_note 2 1 2]; db_spends := []; db_sent_notes := [];
     db_addresses := []; db_v_transactions := [shard_view 11 None; shard_view 12 None];
     db_v_tx_outputs := [shard_output 0 11 "a1"; shard_output 1 12 "a2"] |}.

(** The mempool supplement of [list_unspent] is not scoped: account 12's note is listed to account
    11, and even to a member without an account. *)
Lemma unspent_not_scoped :
  (λ u, (un_vout u, un_value u, un_address u)) <$>
    read_unspent None (Some 50) (λ _ _, []) shard_db (Only 11) = [(0, 5000, Some "a1"); (1, 5000, None)] ∧
  length (read_unspent None (Some 50) (λ _ _, []) shard_db NoAccount) = 2%nat ∧
  (* the scoped reads of the same database do not leak it *)
  (λ o, to_output_index o) <$> load_outputs shard_db (Only 11) 7 false = [0].
Proof. vm_compute. done. Qed.

(** Nor are the outputs [received_tx_records] joins: account 12's receipt is reported to 11. *)
Lemma received_not_scoped :
  (λ r, to_to_account <$> tx_outputs r) <$> read_received shard_db (Only 11) None =
    [[Some 11; Some 12]].
Proof. vm_compute. done. Qed.

Lemma history_is_a_log_witness :
  let q := {| tq_start_height := None; tq_end_height := None; tq_offset := 0; tq_limit := None;
              tq_newest_first := false; tq_omit_memos := false |} in
  one_row_per_tx shard_db (Only 11) q ∧
  read_transactions shard_db (Only 11) (range_query q true 0 None) =
    rev (read_transactions shard_db (Only 11) (range_query q false 0 None)).
Proof.
  intros q. assert (one_row_per_tx shard_db (Only 11) q) as H.
  { change (NoDup ["t"]). apply NoDup_singleton. }
  split; [exact H|]. exact (proj1 (history_is_a_log shard_db (Only 11) q H)).
Defined.

(** ** Balances *)

(** The library's buckets of one account, and of all the accounts of a scope. *)
Definition account_total (b : AccountBalance) : Z :=
  let pool p := pb_spendable p + pb_pending_spendability p + pb_change_pending_confirmation p in
  pool (ab_sapling b) + pool (ab_orchard b) + pool (ab_ironwood b) + pool (ab_unshielded b).
Definition pool_nonneg (p : PoolBalance) : Prop :=
  0 ≤ pb_spendable p ∧ 0 ≤ pb_pending_spendability p ∧ 0 ≤ pb_change_pending_confirmation p.
Definition account_nonneg (b : AccountBalance) : Prop :=
  pool_nonneg (ab_sapling b) ∧ pool_nonneg (ab_orchard b) ∧ pool_nonneg (ab_ironwood b)
  ∧ pool_nonneg (ab_unshielded b).
Definition scope_balances (summary : WalletSummary) (scope : AccountScope) : list AccountBalance :=
  snd <$> List.filter (λ b, negb (excludes scope b.1)) (ws_balances summary).

Definition spendable_buckets (i : BalanceInfo) : Z :=
  bi_orchard_spendable i + bi_sapling_spendable i + bi_ironwood_spendable i + bi_transparent_spendable i.
Definition buckets_nonneg (i : BalanceInfo) : Prop :=
  0 ≤ bi_orchard_spendable i ∧ 0 ≤ bi_sapling_spendable i ∧ 0 ≤ bi_ironwood_spendable i
  ∧ 0 ≤ bi_transparent_spendable i ∧ 0 ≤ bi_pending i ∧ 0 ≤ bi_immature i.

Lemma balance_add_total info b :
  buckets_nonneg info → account_nonneg b →
  spendable_buckets info + bi_pending info + bi_immature info + account_total b ≤ u64_max →
  buckets_nonneg (balance_add info b) ∧
  spendable_buckets (balance_add info b) + bi_pending (balance_add info b)
    + bi_immature (balance_add info b) =
  spendable_buckets info + bi_pending info + bi_immature info + account_total b.
Proof.
  intros (?&?&?&?&?&?) (Hs & Ho & Hi & Hu). unfold pool_nonneg, account_total in *.
  unfold spendable_buckets, balance_add, buckets_nonneg. cbn. intros Hmax.
  rewrite !wrap_u64_small by (unfold is_u64; lia). lia.
Qed.

Lemma balance_fold_total bals : ∀ info,
  buckets_nonneg info → Forall account_nonneg bals →
  spendable_buckets info + bi_pending info + bi_immature info + sum_z (account_total <$> bals) ≤ u64_max →
  buckets_nonneg (fold_left balance_add bals info) ∧
  let r := fold_left balance_add bals info in
  spendable_buckets r + bi_pending r + bi_immature r =
  spendable_buckets info + bi_pending info + bi_immature info + sum_z (account_total <$> bals).
Proof.
  assert (Hpos : ∀ l, Forall account_nonneg l → 0 ≤ sum_z (account_total <$> l)).
  { induction 1 as [|b l (Hs & Ho & Hi & Hu) _ IH]; [done|]. cbn [fmap list_fmap sum_z foldr].
    unfold account_total, pool_nonneg in *. unfold sum_z in IH. lia. }
  induction bals as [|b bals IH]; intros info Hi Hb Hmax; [cbn; split; [done|lia]|].
  apply Forall_cons in Hb as [Hb Hbs]. cbn [fmap list_fmap sum_z foldr] in Hmax |- *.
  specialize (Hpos bals Hbs). unfold sum_z in *.
  destruct (balance_add_total info b Hi Hb) as [Hi' Heq]; [lia|].
  cbn [fold_left]. destruct (IH (balance_add info b) Hi' Hbs) as [Hr Heq']; [lia|].
  split; [done|]. lia.
Qed.

(** C40. The three balances total the wallet: while the account's value fits 64 bits, spendable,
    pending and immature together are exactly the library's buckets of the accounts in scope -
    moving immature coinbase between them loses and invents nothing - and the mature coinbase is
    a part of what is spendable. *)
Theorem balance_conserved (nu7 : option Z) (db : Database) (summary : WalletSummary)
    (scope : AccountScope) :
  Forall account_nonneg (scope_balances summary scope) →
  sum_z (account_total <$> scope_balances summary scope) ≤ u64_max →
  let info := read_balance nu7 db (Some summary) scope in
  bi_total_spendable info + bi_pending info + bi_immature info =
    sum_z (account_total <$> scope_balances summary scope) ∧
  bi_total_spendable info = spendable_buckets info ∧
  0 ≤ bi_mature_coinbase info ≤ bi_transparent_spendable info ∧
  bi_transparent_spendable info ≤ bi_total_spendable info ∧ 0 ≤ bi_pending info.
Proof.
  intros Hnn Hmax info. subst info. unfold read_balance. fold (scope_balances summary scope).
  destruct (balance_fold_total (scope_balances summary scope) balance_zero) as [Hpos Heq];
    [unfold buckets_nonneg; cbn; lia|done|exact Hmax|].
  set (f := fold_left balance_add _ _) in *. cbn zeta in Heq.
  assert (0 ≤ coinbase_zats nu7 db scope (wrap_u32 (ws_chain_tip summary + 1)) false) by
    (unfold coinbase_zats; lia).
  assert (0 ≤ coinbase_zats nu7 db scope (wrap_u32 (ws_chain_tip summary + 1)) true) by
    (unfold coinbase_zats; lia).
  set (imm := coinbase_zats _ _ _ _ false) in *. set (mat := coinbase_zats _ _ _ _ true) in *.
  clearbody imm mat f. destruct Hpos as (?&?&?&?&?&?).
  change (spendable_buckets balance_zero + bi_pending balance_zero + bi_immature balance_zero) with 0 in Heq.
  unfold spendable_buckets, reclassify in *. cbn.
  set (fp := Z.min imm (bi_pending f)). set (fs := Z.min (imm - fp) (bi_transparent_spendable f)).
  assert (0 ≤ fp ≤ bi_pending f) by lia. assert (0 ≤ fs ≤ bi_transparent_spendable f) by lia.
  clearbody fs fp. rewrite (wrap_u64_small (fs + fp)) by (unfold is_u64; lia).
  rewrite !wrap_u64_small by (unfold is_u64; lia). lia.
Qed.

Lemma balance_conserved_witness :
  let pool s p := {| pb_spendable := s; pb_pending_spendability := p;
                     pb_change_pending_confirmation := 1 |} in
  let b := {| ab_sapling := pool 2 3; ab_orchard := pool 5 0; ab_ironwood := pool 0 0;
              ab_unshielded := pool 7 8 |} in
  let s := {| ws_chain_tip := 50; ws_balances := [(11, b); (12, b)] |} in
  let info := read_balance None shard_db (Some s) (Only 11) in
  bi_total_spendable info + bi_pending info + bi_immature info = 29.
Proof.
  intros pool b s. refine (proj1 (balance_conserved None shard_db s (Only 11) _ _)).
  - repeat constructor; cbn; lia.
  - vm_compute. done.
Defined.
