(* ===== verification/Ownership.v ===== *)
(** * Ownership: whose address it is ([src/src/wallet/read.rs])

    Attribution of an address to the accounts of a read's scope, the diversifier index it sits at,
    the recorded encodings of that index, and the derivation of a transparent address. The key
    crates and the wallet library's address tables are [ViewingKeys]. *)

From S2P Require Export Reads.

Inductive KeyScope := External | Internal.
#[global] Instance KeyScope_eq_dec : EqDecision KeyScope.
Proof. solve_decision. Defined.
Inductive TransparentKeyScope := TKS_External | TKS_Internal | TKS_Ephemeral | TKS_Custom (n : Z).

(** An account's viewing key, the receivers it recovers an index for, the addresses the library
    has recorded, and the metadata of a transparent one. A failing read is [None]. *)
Class ViewingKeys := {
  Ufvk : Type;
  account_ufvk : ZNetwork → string → Z → option Ufvk;
  decrypt_diversifier : Ufvk → string → option (Z * KeyScope);
  orchard_diversifier_index : Ufvk → KeyScope → string → option Z;
  uivk_decrypt_diversifiers : Ufvk → UnifiedAddress → list Z;
  uivk_sapling_diversifier : Ufvk → string → option Z;
  list_addresses : ZNetwork → string → Z → option (list Address);
  get_transparent_receivers : ZNetwork → string → Z → option (list TransparentAddress);
  transparent_address_metadata :
    ZNetwork → string → Z → TransparentAddress → option (option TransparentKeyScope * option Z);
  account_index : ZNetwork → string → Z → option Z;
  coin_type : ZNetwork → Z;
}.

(** How a unified address's shielded receivers relate to the wallet's keys. *)
Inductive UaReceivers := NotApplicable | Foreign | MineConsistent | Inconsistent (why : string).
#[global] Instance UaReceivers_eq_dec : EqDecision UaReceivers.
Proof. solve_decision. Defined.
Definition consistent_flag (u : UaReceivers) : option bool :=
  match u with MineConsistent => Some true | Inconsistent _ => Some false | _ => None end.

(** Two shielded receivers to cross-check. *)
Definition two_shielded (ua : UnifiedAddress) : bool :=
  is_some (ua_sapling ua) && is_some (ua_orchard ua).

Section keys.
Context `{HX : HexCodec} `{WL : WalletLibrary} `{CD : AddressCodec} `{VK : ViewingKeys}.

(** [Option::or_else]. *)
Definition or_else {A} (a : option A) (b : option A) : option A :=
  match a with Some x => Some x | None => b end.

Definition orchard_receiver_index (fvk : Ufvk) (addr : string) : option (Z * KeyScope) :=
  or_else ((λ j, (j, External)) <$> orchard_diversifier_index fvk External addr)
          ((λ j, (j, Internal)) <$> orchard_diversifier_index fvk Internal addr).

(** One slot per shielded receiver present: what the key recovers of it. *)
Definition receiver_slots (ufvk : Ufvk) (ua : UnifiedAddress) : list (option (Z * KeyScope)) :=
  match ua_sapling ua with Some a => [decrypt_diversifier ufvk a] | None => [] end
  ++ match ua_orchard ua with Some a => [orchard_receiver_index ufvk a] | None => [] end.

Definition classify_receivers_with_ufvk (ufvk : Ufvk) (ua : UnifiedAddress) : UaReceivers :=
  let slots := receiver_slots ufvk ua in
  let resolved := omap (λ s, s) slots in
  match resolved with
  | [] => Foreign
  | first :: _ =>
      if existsb (λ s, negb (is_some s)) slots then
        Inconsistent "unified address combines a receiver owned by this wallet with one that is not"
      else if forallb (λ r, bool_decide (r = first)) resolved then MineConsistent
      else Inconsistent
             ("unified address combines this wallet's receivers from different diversifier "
              +:+ "indices")
  end.

(** The first verdict that is not [Foreign]. *)
Fixpoint classify_accounts (n : ZNetwork) (engine_dir : string) (ua : UnifiedAddress) (ids : list Z) :
    UaReceivers :=
  match ids with
  | [] => Foreign
  | id :: rest =>
      match account_ufvk n engine_dir id with
      | None => classify_accounts n engine_dir ua rest
      | Some ufvk =>
          match classify_receivers_with_ufvk ufvk ua with
          | Foreign => classify_accounts n engine_dir ua rest
          | other => other
          end
      end
  end.
Definition classify_unified_receivers (n : ZNetwork) (engine_dir : string) (scope : AccountScope)
    (addr : string) : UaReceivers :=
  match decode_address n addr with
  | Some (AddrUnified ua) =>
      if negb (two_shielded ua) then NotApplicable
      else match open_conn engine_dir with
           | Err _ => NotApplicable
           | Ok db => classify_accounts n engine_dir ua (scoped_account_ids db scope)
           end
  | _ => NotApplicable
  end.

(** [find_map] over accounts. *)
Fixpoint first_some {A B} (f : A → option B) (l : list A) : option B :=
  match l with [] => None | x :: l => or_else (f x) (first_some f l) end.

Definition account_diversifier_index (ufvk : Ufvk) (a : Address) : option (Z * KeyScope) :=
  match a with
  | AddrUnified ua =>
      or_else (ua_orchard ua ≫= orchard_receiver_index ufvk)
              (ua_sapling ua ≫= decrypt_diversifier ufvk)
  | AddrSapling pa => decrypt_diversifier ufvk pa
  | _ => None
  end.
Definition diversifier_index_of (n : ZNetwork) (engine_dir : string) (scope : AccountScope)
    (addr : string) : option (Z * KeyScope) :=
  decoded ← decode_on_network n addr;
  db ← result_ok (open_conn engine_dir);
  first_some (λ id, ufvk ← account_ufvk n engine_dir id; account_diversifier_index ufvk decoded)
    (scoped_account_ids db scope).

(** The rows recorded at the index of an address. *)
Definition key_scope_code (s : KeyScope) : Z := match s with External => 0 | Internal => 1 end.
Definition recorded_encodings_of (n : ZNetwork) (engine_dir : string) (scope : AccountScope)
    (addr : string) : list string :=
  match diversifier_index_of n engine_dir scope addr with
  | None => []
  | Some (index, key_scope) =>
      match open_conn engine_dir with
      | Err _ => []
      | Ok db =>
          omap ad_address
            (List.filter (λ a, sql_eq (ad_diversifier_index_be a ≫= decode_diversifier_index_be) (Some index)
                               && (ad_key_scope a =? key_scope_code key_scope)
                               && scope_by_id db scope (ad_account_id a)) (db_addresses db))
      end
  end.

Definition all_addresses (n : ZNetwork) (engine_dir : string) (scope : AccountScope) : list string :=
  match open_conn engine_dir with
  | Err _ => []
  | Ok db =>
      concat ((λ id, (encode_address n <$> default [] (list_addresses n engine_dir id))
                     ++ ((λ t, encode_address n (AddrTransparent t))
                           <$> default [] (get_transparent_receivers n engine_dir id)))
        <$> scoped_account_ids db scope)
  end.

(** An exact match among the addresses recorded for an account. *)
Definition is_recorded (n : ZNetwork) (engine_dir : string) (id : Z) (addr : string) : bool :=
  existsb (λ a, bool_decide (encode_address n a = addr)) (default [] (list_addresses n engine_dir id))
  || existsb (λ t, bool_decide (encode_address n (AddrTransparent t) = addr))
       (default [] (get_transparent_receivers n engine_dir id)).

(** Attribution by a viewing key. *)
Definition is_attributed (ufvk : Ufvk) (decoded : Address) : bool :=
  match decoded with
  | AddrUnified ua =>
      if is_some (ua_transparent ua) then false
      else if two_shielded ua
           then bool_decide (classify_receivers_with_ufvk ufvk ua = MineConsistent)
           else negb (bool_decide (uivk_decrypt_diversifiers ufvk ua = []))
  | AddrSapling pa => is_some (uivk_sapling_diversifier ufvk pa)
  | _ => false
  end.

Definition account_owns (n : ZNetwork) (engine_dir addr : string) (id : Z) : bool :=
  is_recorded n engine_dir id addr
  || match decode_on_network n addr, account_ufvk n engine_dir id with
     | Some decoded, Some ufvk => is_attributed ufvk decoded
     | _, _ => false
     end.
Definition is_mine (n : ZNetwork) (engine_dir : string) (scope : AccountScope) (addr : string) : bool :=
  match open_conn engine_dir with
  | Err _ => false
  | Ok db => existsb (account_owns n engine_dir addr) (scoped_account_ids db scope)
  end.

(** ** Transparent derivation *)

Record TransparentDerivation := {
  td_account_index : option Z; td_scope : Z; td_address_index : Z;
}.
Definition is_change (d : TransparentDerivation) : bool := negb (td_scope d =? 0).
Definition hd_keypath (d : TransparentDerivation) (n : ZNetwork) : option string :=
  (λ acct, "m/44'/" +:+ dec (coin_type n) +:+ "'/" +:+ dec acct +:+ "'/" +:+ dec (td_scope d)
           +:+ "/" +:+ dec (td_address_index d)) <$> td_account_index d.

Definition transparent_scope_index (s : TransparentKeyScope) : option Z :=
  match s with
  | TKS_External => Some 0
  | TKS_Internal => Some 1
  | TKS_Ephemeral => Some 2
  | TKS_Custom _ => None
  end.

Definition transparent_derivation (n : ZNetwork) (engine_dir : string) (scope : AccountScope)
    (addr : string) : option TransparentDerivation :=
  match decode_address n addr with
  | Some (AddrTransparent t) =>
      db ← result_ok (open_conn engine_dir);
      first_some
        (λ id, meta ← transparent_address_metadata n engine_dir id t;
               match meta with
               | (Some scope, Some index) =>
                   code ← transparent_scope_index scope;
                   Some {| td_account_index := account_index n engine_dir id; td_scope := code;
                           td_address_index := index |}
               | _ => None
               end) (scoped_account_ids db scope)
  | _ => None
  end.

(** ** What attribution admits *)

Lemma classify_consistent ufvk ua :
  classify_receivers_with_ufvk ufvk ua = MineConsistent ↔
  ∃ index, receiver_slots ufvk ua ≠ [] ∧ Forall (λ s, s = Some index) (receiver_slots ufvk ua).
Proof.
  unfold classify_receivers_with_ufvk, receiver_slots.
  destruct (ua_sapling ua) as [s|], (ua_orchard ua) as [o|]; cbn.
  - destruct (decrypt_diversifier ufvk s) as [x|], (orchard_receiver_index ufvk o) as [y|]; cbn;
      repeat case_bool_decide; cbn; split; try done;
      try (intros (i & _ & [? [? ?]%Forall_cons]%Forall_cons); congruence).
    intros _. exists x. split; [done|]. repeat constructor; congruence.
  - destruct (decrypt_diversifier ufvk s) as [x|]; cbn; rewrite ?bool_decide_eq_true_2 by done; cbn; split;
      try done; [intros _; exists x; split; [done|by repeat constructor]|].
    intros (i & _ & [? ?]%Forall_cons). congruence.
  - destruct (orchard_receiver_index ufvk o) as [x|]; cbn; rewrite ?bool_decide_eq_true_2 by done; cbn; split;
      try done; [intros _; exists x; split; [done|by repeat constructor]|].
    intros (i & _ & [? ?]%Forall_cons). congruence.
  - split; [done|]. by intros (? & ? & _).
Qed.

(** C7. Ownership cannot be spliced: a unified address the wallet never recorded is its own only
    when it carries no transparent receiver and an account in scope recovers every one of its
    shielded receivers - two of them at one and the same diversifier index; and when it pairs a
    receiver an account recovers with one that account does not, or two of its receivers from
    different indices, every method that consults the verdict of that account refuses it as
    inconsistent. *)
Theorem ownership_not_spliced (n : ZNetwork) (engine_dir : string) (scope : AccountScope)
    (addr : string) (ua : UnifiedAddress) (db : Database) :
  decode_address n addr = Some (AddrUnified ua) → open_conn engine_dir = Ok db →
  (is_mine n engine_dir scope addr = true ↔
   ∃ id, id ∈ scoped_account_ids db scope ∧
     (is_recorded n engine_dir id addr = true ∨
      ua_transparent ua = None ∧
      ∃ ufvk, account_ufvk n engine_dir id = Some ufvk ∧
        match ua_sapling ua, ua_orchard ua with
        | Some s, Some o =>
            ∃ index, decrypt_diversifier ufvk s = Some index ∧ orchard_receiver_index ufvk o = Some index
        | _, _ => uivk_decrypt_diversifiers ufvk ua ≠ []
        end)) ∧
  (∀ s o id ufvk, ua_sapling ua = Some s → ua_orchard ua = Some o →
     scoped_account_ids db scope = [id] → account_ufvk n engine_dir id = Some ufvk →
     decrypt_diversifier ufvk s ≠ orchard_receiver_index ufvk o →
     ∃ why, classify_unified_receivers n engine_dir scope addr = Inconsistent why).
Proof.
  intros Hdec Hopen. split.
  - unfold is_mine, account_owns, decode_on_network. rewrite Hopen, Hdec, existsb_exists.
    apply exist_proper. intros id. rewrite <- list_elem_of_In, orb_true_iff.
    apply and_iff_compat_l, or_iff_compat_l. unfold is_attributed, two_shielded.
    destruct (account_ufvk n engine_dir id) as [ufvk|]; [|split; [done|by intros (_ & ? & ? & _)]].
    destruct (ua_transparent ua); cbn; [split; [done|by intros [? _]]|].
    destruct (ua_sapling ua) as [s|] eqn:Hs, (ua_orchard ua) as [o|] eqn:Ho; cbn;
      rewrite ?negb_true_iff, ?bool_decide_eq_false, ?bool_decide_eq_true, ?classify_consistent;
      try naive_solver.
    unfold receiver_slots. rewrite Hs, Ho. cbn. setoid_rewrite Forall_cons.
    setoid_rewrite Forall_singleton. naive_solver.
  - intros s o id ufvk Hs Ho Hids Hk Hne. unfold classify_unified_receivers. rewrite Hdec.
    unfold two_shielded. rewrite Hs, Ho, Hopen, Hids. cbn. rewrite Hk.
    unfold classify_receivers_with_ufvk, receiver_slots. rewrite Hs, Ho.
    destruct (decrypt_diversifier ufvk s) as [x|], (orchard_receiver_index ufvk o) as [y|]; cbn; try done;
      repeat case_bool_decide; cbn; eauto; congruence.
Qed.
End keys.

(** ** A concrete wallet *)

Module Toy.
#[local] Instance hex : HexCodec := {| hex_encode s := s; hex_decode s := Some s |}.
Definition db : Database :=
  {| db_blocks := []; db_accounts := [{| ac_id := 1; ac_uuid := 11 |}]; db_transactions := [];
     db_notes := []; db_spends := []; db_sent_notes := []; db_addresses := [];
     db_v_transactions := []; db_v_tx_outputs := [] |}.
#[local] Instance library : WalletLibrary :=
  {| open_conn _ := Ok db; ConfirmationsPolicy := Z; handle_confirmations _ := 3;
     new_symmetrical n _ := n; get_wallet_summary _ _ _ := Ok None; chain_height _ _ := Ok None;
     select_unspent_notes _ _ _ _ := []; raw_tx_bytes _ _ _ := None; nu7_activation _ := None |}.
(** Every string is the unified address of two receivers, the second named by the string. *)
#[local] Instance codec : AddressCodec :=
  {| from_receivers _ _ _ := None; can_receive_as _ _ := true;
     decode_address _ s := Some (AddrUnified {| ua_orchard := Some s; ua_sapling := Some "ours";
                                                ua_transparent := None |});
     is_encoded_address _ := true; encode_address _ _ := ""; hash_hex s := s |}.
(** The key recovers the receivers named "ours". *)
#[local] Instance keys : ViewingKeys :=
  {| Ufvk := unit; account_ufvk _ _ _ := Some tt;
     decrypt_diversifier _ s := if bool_decide (s = "ours") then Some (5, External) else None;
     orchard_diversifier_index _ sc s :=
       if bool_decide (s = "ours" ∧ sc = External) then Some 5 else None;
     uivk_decrypt_diversifiers _ _ := []; uivk_sapling_diversifier _ _ := None;
     list_addresses _ _ _ := Some []; get_transparent_receivers _ _ _ := Some [];
     transparent_address_metadata _ _ _ _ := None; account_index _ _ _ := None; coin_type _ := 133 |}.
End Toy.

Lemma ownership_not_spliced_witness :
  @is_mine Toy.library Toy.codec Toy.keys Main "d" Any "ours" = true ∧
  ∃ why, @classify_unified_receivers Toy.library Toy.codec Toy.keys Main "d" Any "theirs" =
         Inconsistent why.
Proof.
  split.
  - apply (proj1 (@ownership_not_spliced Toy.library Toy.codec Toy.keys Main "d" Any "ours"
      {| ua_orchard := Some "ours"; ua_sapling := Some "ours"; ua_transparent := None |} Toy.db
      eq_refl eq_refl)).
    exists 11. split; [by left|]. right. split; [done|]. exists tt. split; [done|].
    exists (5, External). done.
  - by apply (proj2 (@ownership_not_spliced Toy.library Toy.codec Toy.keys Main "d" Any "theirs"
      {| ua_orchard := Some "theirs"; ua_sapling := Some "ours"; ua_transparent := None |} Toy.db
      eq_refl eq_refl) "ours" "theirs" 11 tt).
Defined.
