(* ===== verification/History.v ===== *)
(** * History: the transaction history methods ([src/src/rpc/wallet_methods.rs])

    How each output becomes entries in Bitcoin Core's and zcashd's vocabularies, the pages of
    history, the poller's cursor, and the received-by and unspent listings, over the reads of
    [Reads] and [Ownership]. *)

From S2P Require Export Ownership.

(** ** Entries *)

Definition output_categories (from_account to_account : bool) : list string :=
  match from_account, to_account with
  | false, true => ["receive"]
  | true, false => ["send"]
  | true, true => ["send"; "receive"]
  | false, false => []
  end.

Definition tx_confirmations (st : SyncStatus) (tx : TxRecord) : Z :=
  if tx_expired_unmined tx then -1 else confirmations st (tx_mined_height tx).

(** [Option::or]. *)
Definition opt_or {A} (a b : option A) : option A := match a with Some _ => a | None => b end.

Definition tx_time (tx : TxRecord) (first_seen : option Z) : Z :=
  default 0 (opt_or (opt_or (tx_block_time tx) first_seen) (tx_created_time tx)).

Definition pool_name (pool : Z) : string :=
  if pool =? 0 then "transparent" else if pool =? 2 then "sapling"
  else if pool =? 3 then "orchard" else if pool =? 4 then "ironwood" else "unknown".

Definition z_tx_status (tx : TxRecord) : string :=
  if is_some (tx_mined_height tx) then "mined"
  else if tx_expired_unmined tx then "expired" else "waiting".

Definition wallet_funded_tx (delta : Z) : bool := delta <? 0.

(** [i64] addition wraps. *)
Definition wrap_i64 (z : Z) : Z := (z + 2 ^ 63) mod 2 ^ 64 - 2 ^ 63.
Definition gettransaction_amount (delta : Z) (fee_paid : option Z) : Z :=
  if wallet_funded_tx delta then wrap_i64 (delta + wrap_i64 (default 0 fee_paid)) else delta.

(** A field that is present or not. *)
Definition field {A} (name : string) (f : A → json) (o : option A) : list (string * json) :=
  match o with Some a => [(name, f a)] | None => [] end.

(** [push_wallet_tx_fields]. *)
Definition wallet_tx_fields (tx : TxRecord) (time : Z) : list (string * json) :=
  match tx_mined_height tx with
  | Some h =>
      field "blockhash" JString (tx_block_hash tx) ++ [("blockheight", json_num h)]
      ++ field "blockindex" json_num (tx_tx_index tx) ++ field "blocktime" json_num (tx_block_time tx)
  | None =>
      [("trusted", JBool (negb (tx_expired_unmined tx) && (tx_account_balance_delta tx <? 0)))]
  end
  ++ [("walletconflicts", JArray []); ("time", json_num time); ("timereceived", json_num time)].

(** ZIP 302: what the memo crate reads the bytes as, when it can. *)
Inductive MemoKind := MemoEmpty | MemoText (text : string) | MemoOther.

Section entries.
Context `{CD : AddressCodec} (parse_memo : string → option MemoKind) (hex_encode : string → string).

(** [push_memo_fields]. *)
Definition memo_fields (memo : option string) : list (string * json) :=
  match memo with
  | None => []
  | Some bytes =>
      match parse_memo bytes with
      | Some MemoEmpty => []
      | parsed =>
          ("memo", JString (hex_encode bytes))
          :: match parsed with Some (MemoText t) => [("memoStr", JString t)] | _ => [] end
      end
  end.

Definition display_address (n : ZNetwork) (out : TxOutputRecord) : string :=
  match to_to_address out with
  | None => ""
  | Some addr => default addr (single_receiver_for_pool n addr (to_pool out))
  end.

(** [signed_zats_to_value], on a literal. *)
Definition signed_json (zats : Z) : json := JNumber (signed_zats_literal zats).

(** The entries of one output, one per category. *)
Definition output_entries (categories : TxOutputRecord → list string)
    (entry : TxOutputRecord → string → json) (outputs : list TxOutputRecord) : list json :=
  concat ((λ out, if is_internal_change out then [] else entry out <$> categories out) <$> outputs).
Definition categories_of (out : TxOutputRecord) : list string :=
  output_categories (is_some (to_from_account out)) (is_some (to_to_account out)).

(** The signed amount of an entry. *)
Definition entry_amount (out : TxOutputRecord) (category : string) : Z :=
  if bool_decide (category = "send") then wrap_i64 (- to_value out) else to_value out.

(** The fields only receives and only sends carry. *)
Definition receive_fields (out : TxOutputRecord) (category : string) : list (string * json) :=
  if bool_decide (category = "receive")
  then field "diversifier_index" json_num (to_diversifier_index out) else [].
Definition send_fields (tx : TxRecord) (category : string) : list (string * json) :=
  if bool_decide (category = "send")
  then ("abandoned", JBool (tx_expired_unmined tx))
       :: field "fee" (λ fee, signed_json (wrap_i64 (- wrap_i64 fee))) (tx_fee_paid tx)
  else [].

Definition tx_entry (n : ZNetwork) (tx : TxRecord) (confs time : Z) (out : TxOutputRecord)
    (category : string) : json :=
  JObject ([("address", JString (display_address n out)); ("category", JString category);
            ("amount", signed_json (entry_amount out category)); ("label", JString "");
            ("vout", json_num (to_output_index out)); ("pool", JString (pool_name (to_pool out)));
            ("confirmations", json_num confs); ("txid", JString (tx_txid_hex tx));
            ("bip125-replaceable", JString "no")]
           ++ receive_fields out category ++ send_fields tx category
           ++ memo_fields (to_memo out) ++ wallet_tx_fields tx time).

(** [tx_entries]: a label filter other than the empty label keeps nothing. *)
Definition tx_entries (n : ZNetwork) (tx : TxRecord) (confs time : Z) (label_filter : option string) :
    list json :=
  output_entries
    (λ out, match label_filter with
            | Some f => if bool_decide (f = "") then categories_of out else []
            | None => categories_of out
            end)
    (tx_entry n tx confs time) (tx_outputs tx).

Definition z_tx_entry (n : ZNetwork) (tx : TxRecord) (confs time : Z) (out : TxOutputRecord)
    (category : string) : json :=
  let send := bool_decide (category = "send") in
  let amount := entry_amount out category in
  JObject ([("txid", JString (tx_txid_hex tx)); ("status", JString (z_tx_status tx));
            ("confirmations", json_num confs); ("time", json_num time);
            ("walletconflicts", JArray []); ("pool", JString (pool_name (to_pool out)));
            ("category", JString category); ("amount", signed_json amount);
            ("amountZat", json_num amount); ("address", JString (display_address n out));
            ("outindex", json_num (to_output_index out)); ("change", JBool false);
            ("outgoing", JBool send)]
           ++ receive_fields out category
           ++ match tx_mined_height tx with
              | Some h =>
                  field "blockhash" JString (tx_block_hash tx) ++ [("blockheight", json_num h)]
                  ++ field "blockindex" json_num (tx_tx_index tx)
                  ++ field "blocktime" json_num (tx_block_time tx)
              | None => []
              end
           ++ match tx_expiry_height tx with
              | Some e => if e =? 0 then [] else [("expiryheight", json_num e)]
              | None => []
              end
           ++ (if send then
                 match tx_fee_paid tx with
                 | Some fee => [("fee", signed_json (wrap_i64 (- wrap_i64 fee)));
                                ("feeZat", json_num (wrap_i64 (- wrap_i64 fee)))]
                 | None => []
                 end
               else [])
           ++ memo_fields (to_memo out)).
Definition z_tx_entries (n : ZNetwork) (tx : TxRecord) (confs time : Z) : list json :=
  output_entries categories_of (z_tx_entry n tx confs time) (tx_outputs tx).

Definition details_entry (n : ZNetwork) (rec : TxRecord) (out : TxOutputRecord) (category : string) :
    json :=
  JObject ([("address", JString (display_address n out)); ("category", JString category);
            ("amount", signed_json (entry_amount out category));
            ("vout", json_num (to_output_index out)); ("pool", JString (pool_name (to_pool out)));
            ("label", JString "")]
           ++ receive_fields out category ++ send_fields rec category ++ memo_fields (to_memo out)).
Definition gettransaction_details (n : ZNetwork) (rec : TxRecord) : list json :=
  output_entries categories_of (details_entry n rec) (tx_outputs rec).
End entries.

(** ** Pages *)

(** [window_history_from_txs]: the transactions are newest first; [expand] gives a transaction's
    entries in their own order. *)
Fixpoint newest_entries {E} (expand : TxRecord → list E) (want : Z) (txs : list TxRecord)
    (entries : list E) : list E :=
  match txs with
  | [] => entries
  | tx :: rest =>
      let entries := entries ++ rev (expand tx) in
      if want <=? Z.of_nat (length entries) then entries
      else newest_entries expand want rest entries
  end.
Definition window_history_from_txs {E} (txs : list TxRecord) (from count : Z)
    (expand : TxRecord → list E) : list E :=
  let want := Z.min (from + count) usize_max in
  let entries := newest_entries expand want txs [] in
  let len := Z.of_nat (length entries) in
  let start := Z.min from len in
  let end_ := Z.min want len in
  rev (take (Z.to_nat (end_ - start)) (drop (Z.to_nat start) entries)).

Record HistoryPage := {
  hp_from : Z; hp_count : Z; hp_start_height : option Z; hp_end_height : option Z;
}.

(** [paginate_history]: [query] runs a query, [pages] bounds the pages it is tried with; [None]
    is a loop still going when they are used up. *)
Fixpoint paginate_loop {E} (query : TxQuery → result RpcError (list TxRecord)) (page : HistoryPage)
    (omit_memos : bool) (expand : TxRecord → list E) (pages : nat) (limit : Z) :
    option (result RpcError (list E)) :=
  match pages with
  | O => None
  | S pages =>
      match query {| tq_start_height := hp_start_height page; tq_end_height := hp_end_height page;
                     tq_offset := 0; tq_limit := Some limit; tq_newest_first := true;
                     tq_omit_memos := omit_memos |} with
      | Err e => Some (Err e)
      | Ok txs =>
          let full_page := limit <=? wrap_u32 (Z.of_nat (length txs)) in
          let entries := window_history_from_txs txs (hp_from page) (hp_count page) expand in
          if (hp_count page <=? Z.of_nat (length entries)) || negb full_page then Some (Ok entries)
          else if limit * 2 <=? u32_max
               then paginate_loop query page omit_memos expand pages (limit * 2)
               else if limit =? u32_max then Some (Ok entries)
                    else paginate_loop query page omit_memos expand pages u32_max
      end
  end.
(** Doubling from one passes [u32::MAX] within 33 pages. *)
Definition HISTORY_PAGES : nat := 34.
Definition paginate_history {E} (query : TxQuery → result RpcError (list TxRecord))
    (page : HistoryPage) (omit_memos : bool) (expand : TxRecord → list E) :
    option (result RpcError (list E)) :=
  let want := Z.min (hp_from page + hp_count page) usize_max in
  paginate_loop query page omit_memos expand HISTORY_PAGES (Z.min (Z.max want 1) u32_max).

(** ** Arguments *)

Definition height_param (req : RpcRequest) (i : nat) (name : string) :
    result RpcError (option Z) :=
  match param_given req i with
  | None => Ok None
  | Some v =>
      n ← ok_or (json_as_i64 v) (RpcError.type_error (name +:+ " must be a number"));
      if (0 <=? n) && (n <=? u32_max) then Ok (Some n)
      else Err (RpcError.invalid_parameter (name +:+ " out of range"))
  end.

Definition count_param (req : RpcRequest) (i : nat) (name : string) (dflt : Z) : result RpcError Z :=
  match param_given req i with
  | None => Ok dflt
  | Some v =>
      match json_as_i64 v with
      | Some n =>
          if 0 <=? n then Ok n else Err (RpcError.invalid_parameter ("Negative " +:+ name))
      | None => Err (RpcError.type_error (name +:+ " must be a number"))
      end
  end.
Definition count_from_params (req : RpcRequest) (count_i from_i : nat) : result RpcError (Z * Z) :=
  count ← count_param req count_i "count" 10;
  from ← count_param req from_i "from" 0;
  Ok (count, from).

Definition depth_param (v : option json) (name : string) (dflt : Z) : result RpcError Z :=
  match v with
  | None | Some JNull => Ok dflt
  | Some v => ok_or (json_as_i64 v) (RpcError.type_error (name +:+ " must be a number"))
  end.

(** ** The listing methods *)

Section methods.
Context `{HX : HexCodec} `{WL : WalletLibrary} `{CD : AddressCodec} `{VK : ViewingKeys}
        (parse_memo : string → option MemoKind).

(** The unix time the actor first saw an unmined transaction at. *)
Definition first_seen_of (w : WalletHandle) (txid_hex : string) : option Z :=
  wh_first_seen w !! txid_hex.

Definition query_wallet (w : WalletHandle) (q : TxQuery) : result RpcError (list TxRecord) :=
  query_transactions (wh_engine_dir w) (account_scope w) q.

(** The entries of one transaction, as of a status. *)
Definition wallet_tx_entries (w : WalletHandle) (label_filter : option string) (tx : TxRecord) : list json :=
  tx_entries parse_memo hex_encode (wh_network w) tx (tx_confirmations (wh_status w) tx)
    (tx_time tx (first_seen_of w (tx_txid_hex tx))) label_filter.
Definition wallet_z_tx_entries (w : WalletHandle) (tx : TxRecord) : list json :=
  z_tx_entries parse_memo hex_encode (wh_network w) tx (tx_confirmations (wh_status w) tx)
    (tx_time tx (first_seen_of w (tx_txid_hex tx))).

Definition json_entries (r : result RpcError (list json)) : result RpcError json :=
  entries ← r; Ok (JArray entries).

(** [None]: the paging loop was cut short. *)
Definition listtransactions (s : AppState) (wallet : option string) (req : RpcRequest) :
    option (result RpcError json) :=
  let label_filter : option string :=
    match param req 0 ≫= json_as_str with
    | Some l => if bool_decide (l = "*") then None else Some l
    | None => None
    end in
  match count_from_params req 1 2 with
  | Err e => Some (Err e)
  | Ok (count, skip) =>
      match registry_get (as_registry s) wallet with
      | Err e => Some (Err e)
      | Ok w =>
          json_entries <$>
            paginate_history (query_wallet w)
              {| hp_from := skip; hp_count := count; hp_start_height := None; hp_end_height := None |}
              (negb (wh_fetch_memos w)) (wallet_tx_entries w label_filter)
      end
  end.

(** The arguments of [z_listtransactions]. *)
Definition z_listtransactions_args (req : RpcRequest) : result RpcError HistoryPage :=
  counts ← count_from_params req 0 1;
  _ ← match param req 2 with
      | None | Some JNull | Some (JBool _) => Ok tt
      | Some _ => Err (RpcError.type_error "includeWatchonly must be a boolean")
      end;
  start_height ← height_param req 3 "start_height";
  end_height ← height_param req 4 "end_height";
  _ ← match start_height, end_height with
      | Some start, Some end_ =>
          if end_ <=? start then
            Err (RpcError.invalid_parameter
              ("start_height (" +:+ dec start +:+ ") must be below end_height (" +:+ dec end_
               +:+ "); the range is [start_height, end_height)"))
          else Ok tt
      | _, _ => Ok tt
      end;
  Ok {| hp_from := snd counts; hp_count := fst counts; hp_start_height := start_height;
        hp_end_height := end_height |}.
Definition z_listtransactions (s : AppState) (wallet : option string) (req : RpcRequest) :
    option (result RpcError json) :=
  match z_listtransactions_args req with
  | Err e => Some (Err e)
  | Ok page =>
      match registry_get (as_registry s) wallet with
      | Err e => Some (Err e)
      | Ok w =>
          json_entries <$>
            paginate_history (query_wallet w) page (negb (wh_fetch_memos w)) (wallet_z_tx_entries w)
      end
  end.

(** ** Received *)

Definition received_address_key (w : WalletHandle) (addr : string) : string :=
  default addr (issued_encoding (wh_network w) addr (wh_default_receivers w)).

Definition received_address_candidates (w : WalletHandle) (addr : string) : list string :=
  let candidates := recorded_encodings_of (wh_network w) (wh_engine_dir w) (account_scope w) addr in
  if bool_decide (addr ∈ candidates) then candidates else candidates ++ [addr].

(** What an address received: the value, the least confirmations counted, and the txids, one per
    output. *)
Definition Received : Type := Z * Z * list string.

(** The outputs [received_by_address] counts, in a transaction of [conf] confirmations. *)
Definition counted_output (conf : Z) (coinbase include_immature_coinbase : bool) (out : TxOutputRecord) :
    option string :=
  if is_internal_change out || is_nullb (to_to_account out) then None
  else if negb include_immature_coinbase && coinbase && (to_pool out =? 0) && (conf <? COINBASE_MATURITY)
       then None
       else to_to_address out.

Definition add_received_output (n : ZNetwork) (receivers : ReceiverSet) (conf : Z) (coinbase : bool)
    (include_immature_coinbase : bool) (txid : string) (m : gmap string Received)
    (out : TxOutputRecord) : gmap string Received :=
  match counted_output conf coinbase include_immature_coinbase out with
  | None => m
  | Some addr =>
      let addr := default addr (issued_encoding n addr receivers) in
      let '(amount, least, txids) := default (0, i64_max, []) (m !! addr) in
      <[addr := (wrap_u64 (amount + Z.max 0 (to_value out)), Z.min least conf, txids ++ [txid])]> m
  end.

Definition received_by_address (n : ZNetwork) (receivers : ReceiverSet) (txs : list TxRecord)
    (st : SyncStatus) (minconf : Z) (include_immature_coinbase : bool) : gmap string Received :=
  fold_left
    (λ m tx,
      let conf := tx_confirmations st tx in
      if conf <? minconf then m
      else fold_left
             (add_received_output n receivers conf (bool_decide (tx_tx_index tx = Some 0))
                include_immature_coinbase (tx_txid_hex tx))
             (tx_outputs tx) m)
    txs ∅.

Definition flag_param (req : RpcRequest) (i : nat) : bool := default false (param req i ≫= json_as_bool).

Definition invalid_zcash_address (addr : string) : RpcError :=
  RpcError.invalid_address_or_key ("Invalid Zcash address: " +:+ addr).

Definition getreceivedbyaddress (s : AppState) (wallet : option string) (req : RpcRequest) :
    result RpcError json :=
  addr ← require_str req 0 "getreceivedbyaddress requires an address";
  minconf ← depth_param (param req 1) "minconf" 1;
  let include_immature_coinbase := flag_param req 2 in
  w ← registry_get (as_registry s) wallet;
  if negb (v_is_valid (validate (wh_network w) addr)) then Err (invalid_zcash_address addr)
  else match classify_unified_receivers (wh_network w) (wh_engine_dir w) (account_scope w) addr with
  | Inconsistent why => Err (RpcError.invalid_address_or_key why)
  | _ =>
      if negb (is_mine (wh_network w) (wh_engine_dir w) (account_scope w) addr)
      then Err (RpcError.wallet "Address not found in wallet")
      else
        let candidates := received_address_candidates w addr in
        txs ← received_tx_records (wh_engine_dir w) (account_scope w) (Some candidates);
        let received := received_by_address (wh_network w) (wh_default_receivers w) txs
                          (wh_status w) minconf include_immature_coinbase in
        Ok (zats_json (match received !! received_address_key w addr with
                       | Some (amount, _, _) => amount
                       | None => 0
                       end))
  end.

(** One line of [listreceivedbyaddress]. *)
Definition received_line (received : gmap string Received) (addr : string) : json :=
  let '(amount, conf, txids) := default (0, 0, []) (received !! addr) in
  JObject [("address", JString addr); ("amount", zats_json amount);
           ("confirmations", json_num (if bool_decide (txids = []) then 0 else conf));
           ("label", JString ""); ("txids", JArray (JString <$> txids))].

(** Sets of strings iterate in bytewise order. *)
Definition sorted_strings (l : list string) : list string := merge_sort String.le (remove_dups l).

(** The addresses listed. *)
Definition received_universe (w : WalletHandle) (received : gmap string Received)
    (include_empty : bool) (address_filter : option string) : list string :=
  let addrs := (map_to_list received).*1
    ++ (if include_empty
        then received_address_key w
               <$> all_addresses (wh_network w) (wh_engine_dir w) (account_scope w)
        else []) in
  let filter_key := received_address_key w <$> address_filter in
  List.filter (λ a, match filter_key with Some f => bool_decide (f = a) | None => true end)
    (sorted_strings addrs).

Definition listreceivedbyaddress (s : AppState) (wallet : option string) (req : RpcRequest) :
    result RpcError json :=
  minconf ← depth_param (param req 0) "minconf" 1;
  let include_empty := flag_param req 1 in
  let address_filter := param req 3 ≫= json_as_str in
  let include_immature_coinbase := flag_param req 4 in
  w ← registry_get (as_registry s) wallet;
  txs ← received_tx_records (wh_engine_dir w) (account_scope w)
          (received_address_candidates w <$> address_filter);
  let received := received_by_address (wh_network w) (wh_default_receivers w) txs (wh_status w)
                    minconf include_immature_coinbase in
  Ok (JArray (received_line received <$> received_universe w received include_empty address_filter)).

(** ** The poller *)

Definition since_height_of (w : WalletHandle) (req : RpcRequest) : result RpcError (option Z) :=
  match param req 0 ≫= json_as_str with
  | None | Some "" => Ok None
  | Some hash =>
      found ← block_height_by_hash w hash;
      match found with
      | Some height => Ok (Some height)
      | None => if is_block_hash_wellformed hash then Ok None else Err block_not_found
      end
  end.
Definition target_confirmations (req : RpcRequest) : result RpcError Z :=
  match param req 1 with
  | None | Some JNull => Ok 1
  | Some v =>
      match json_as_i64 v with
      | Some n =>
          if (1 <=? n) && (n <=? u32_max) then Ok n
          else Err (RpcError.invalid_parameter "Invalid target_confirmations")
      | None => Err (RpcError.invalid_parameter "Invalid target_confirmations")
      end
  end.

Definition since_query (w : WalletHandle) (since_height : option Z) : TxQuery :=
  {| tq_start_height := (λ h, u32_sat_add h 1) <$> since_height; tq_end_height := None;
     tq_offset := 0; tq_limit := None; tq_newest_first := false;
     tq_omit_memos := negb (wh_fetch_memos w) |}.

Definition null_hash : string :=
  "0000000000000000000000000000000000000000000000000000000000000000".
(** The cursor the caller is to come back with. *)
Definition last_block (w : WalletHandle) (target_conf : Z) : string :=
  let at_depth :=
    match ss_fully_scanned (wh_status w) with
    | Some scanned =>
        if target_conf - 1 <=? scanned then
          match result_ok (block_info_at w (scanned - (target_conf - 1))) with
          | Some (Some (hash, _)) => Some hash
          | _ => None
          end
        else None
    | None => None
    end in
  match at_depth with
  | Some hash => hash
  | None =>
      match result_ok (first_scanned_block (wh_engine_dir w)) with
      | Some (Some (_, hash)) => hash
      | _ => null_hash
      end
  end.

Definition listsinceblock (s : AppState) (wallet : option string) (req : RpcRequest) :
    result RpcError json :=
  w ← registry_get (as_registry s) wallet;
  since_height ← since_height_of w req;
  target_conf ← target_confirmations req;
  txs ← query_wallet w (since_query w since_height);
  Ok (JObject [("transactions", JArray (concat (wallet_tx_entries w None <$> txs)));
               ("removed", JArray []); ("lastblock", JString (last_block w target_conf))]).

(** ** One transaction *)

Definition parse_txid (display_hex : string) : option string :=
  bytes ← hex_decode display_hex;
  if (String.length bytes =? 32)%nat then Some (string_rev bytes) else None.

(** The raw bytes: stored, or fetched by the actor, whose answer [get_raw_tx] is. *)
Definition gettransaction_hex (get_raw_tx : string → option string) (rec : TxRecord) : string :=
  match tx_raw rec with
  | Some raw => hex_encode raw
  | None =>
      match parse_txid (tx_txid_hex rec) with
      | Some txid => default "" (hex_encode <$> get_raw_tx txid)
      | None => ""
      end
  end.

Definition gettransaction (get_raw_tx : string → option string) (s : AppState)
    (wallet : option string) (req : RpcRequest) : result RpcError json :=
  txid ← require_str req 0 "gettransaction requires a txid";
  w ← registry_get (as_registry s) wallet;
  found ← get_transaction (wh_network w) (wh_engine_dir w) (account_scope w) txid
            (negb (wh_fetch_memos w));
  rec ← ok_or found (RpcError.invalid_address_or_key "Invalid or non-wallet transaction id");
  let funded := wallet_funded_tx (tx_account_balance_delta rec) in
  Ok (JObject
    ([("amount", signed_json (gettransaction_amount (tx_account_balance_delta rec) (tx_fee_paid rec)));
      ("confirmations", json_num (tx_confirmations (wh_status w) rec));
      ("txid", JString (tx_txid_hex rec)); ("bip125-replaceable", JString "no");
      ("details", JArray (gettransaction_details parse_memo hex_encode (wh_network w) rec));
      ("hex", JString (gettransaction_hex get_raw_tx rec))]
     ++ (if funded then field "fee" (λ fee, signed_json (wrap_i64 (- wrap_i64 fee))) (tx_fee_paid rec)
         else [])
     ++ wallet_tx_fields rec (tx_time rec (first_seen_of w txid)))).

(** ** Unspent *)

Fixpoint filter_entries (n : ZNetwork) (arr : list json) (set : list string) :
    result RpcError (list string) :=
  match arr with
  | [] => Ok set
  | entry :: rest =>
      s ← ok_or (json_as_str entry) (RpcError.type_error "addresses entries must be strings");
      if negb (v_is_valid (validate n s)) then Err (invalid_zcash_address s)
      else if bool_decide (s ∈ set) then
        Err (RpcError.invalid_parameter ("Invalid parameter, duplicated address: " +:+ s))
      else filter_entries n rest (set ++ [s])
  end.
Definition addresses_filter (v : option json) (n : ZNetwork) : result RpcError (option (list string)) :=
  match v with
  | None | Some JNull => Ok None
  | Some (JArray []) => Ok None
  | Some (JArray arr) => Some <$> filter_entries n arr []
  | Some _ => Err (RpcError.type_error "addresses must be an array")
  end.

Definition unspent_safe (conf : Z) (u : UnspentNote) : bool := (0 <? conf) || un_trusted u.
Definition unspent_kept (minconf maxconf : Z) (filter : option (list string)) (include_unsafe : bool)
    (conf : Z) (u : UnspentNote) : bool :=
  (minconf <=? conf) && (conf <=? maxconf) && (include_unsafe || unspent_safe conf u)
  && match filter with
     | None => true
     | Some f => match un_address u with Some a => bool_decide (a ∈ f) | None => false end
     end.
Definition unspent_entry (conf : Z) (u : UnspentNote) : json :=
  JObject ([("txid", JString (un_txid u)); ("vout", json_num (un_vout u));
            ("address", JString (default "" (un_address u))); ("amount", zats_json (un_value u));
            ("confirmations", json_num conf); ("spendable", JBool true); ("solvable", JBool true);
            ("safe", JBool (unspent_safe conf u)); ("pool", JString (pool_name (un_pool u)))]
           ++ if un_pool u =? 0 then [("generated", JBool (un_generated u))] else []).
Definition unspent_json (notes : list UnspentNote) (st : SyncStatus) (minconf maxconf : Z)
    (filter : option (list string)) (include_unsafe : bool) : list json :=
  omap (λ u, let conf := confirmations st (un_mined_height u) in
             if unspent_kept minconf maxconf filter include_unsafe conf u
             then Some (unspent_entry conf u) else None) notes.

Definition include_unsafe_param (req : RpcRequest) : result RpcError bool :=
  match param req 3 with
  | None | Some JNull => Ok true
  | Some (JBool b) => Ok b
  | Some _ => Err (RpcError.type_error "include_unsafe must be a boolean")
  end.
Definition listunspent (s : AppState) (wallet : option string) (req : RpcRequest) :
    result RpcError json :=
  minconf ← depth_param (param req 0) "minconf" 1;
  maxconf ← depth_param (param req 1) "maxconf" 9999999;
  w ← registry_get (as_registry s) wallet;
  filter ← addresses_filter (param req 2) (wh_network w);
  include_unsafe ← include_unsafe_param req;
  notes ← list_unspent (wh_network w) (wh_engine_dir w) (account_scope w);
  Ok (JArray (unspent_json notes (wh_status w) minconf maxconf filter include_unsafe)).
End methods.
