(* ===== verification/HistorySpec.v ===== *)
(** * HistorySpec: what the history methods answer

    A page is the window of the whole history it names, whatever the number of queries it took;
    the received-by map; and the cursor of the poller. *)

From S2P Require Export History ReadsSpec.

(** ** Pages *)

(** All the entries of transactions given newest first, newest first. *)
Definition all_entries {E} (expand : TxRecord → list E) (txs : list TxRecord) : list E :=
  concat ((λ tx, rev (expand tx)) <$> txs).

(** Stopping early only drops entries past the window. *)
Lemma newest_entries_spec {E} (expand : TxRecord → list E) want txs : ∀ entries,
  ∃ stop, newest_entries expand want txs entries = entries ++ all_entries expand (take stop txs) ∧
    (want ≤ Z.of_nat (length (entries ++ all_entries expand (take stop txs)))
     ∨ (length txs ≤ stop)%nat).
Proof.
  induction txs as [|tx txs IH]; intros entries.
  - exists 0%nat. cbn. rewrite app_nil_r. auto.
  - cbn [newest_entries]. case_match eqn:Hwant.
    + exists 1%nat. cbn. unfold all_entries. cbn. rewrite app_nil_r. split; [done|left; lia].
    + destruct (IH (entries ++ rev (expand tx))) as (stop & Heq & Hor). exists (S stop).
      rewrite Heq. unfold all_entries in *. cbn. rewrite app_assoc. split; [done|].
      destruct Hor; [by left|right; lia].
Qed.

Lemma all_entries_app {E} (expand : TxRecord → list E) l1 l2 :
  all_entries expand (l1 ++ l2) = all_entries expand l1 ++ all_entries expand l2.
Proof. unfold all_entries. by rewrite fmap_app, concat_app. Qed.

(** The window as it is meant. *)
Definition window {E} (from count : Z) (entries : list E) : list E :=
  rev (take (Z.to_nat count) (drop (Z.to_nat from) entries)).

Lemma window_clip {E} (from count : Z) (l : list E) :
  0 ≤ from → 0 ≤ count → Z.of_nat (length l) ≤ usize_max →
  let want := Z.min (from + count) usize_max in
  let len := Z.of_nat (length l) in
  take (Z.to_nat (Z.min want len - Z.min from len)) (drop (Z.to_nat (Z.min from len)) l) =
  take (Z.to_nat count) (drop (Z.to_nat from) l).
Proof.
  intros Hf Hc Hmax want len. destruct (Z.le_gt_cases len from).
  - rewrite !(drop_ge l) by lia. by rewrite !take_nil.
  - rewrite (Z.min_l from len) by lia. destruct (Z.le_gt_cases len want).
    + rewrite !take_ge by (rewrite length_drop; lia). done.
    + f_equal. lia.
Qed.

Lemma window_history_spec {E} (expand : TxRecord → list E) txs from count :
  0 ≤ from → 0 ≤ count → Z.of_nat (length (all_entries expand txs)) ≤ usize_max →
  window_history_from_txs txs from count expand = window from count (all_entries expand txs).
Proof.
  intros Hf Hc Hmax. unfold window_history_from_txs, window. f_equal.
  destruct (newest_entries_spec expand (Z.min (from + count) usize_max) txs []) as (stop & Heq & Hor).
  rewrite Heq. clear Heq. cbn [app] in *.
  assert (Hall : all_entries expand txs =
    all_entries expand (take stop txs) ++ all_entries expand (drop stop txs))
    by by rewrite <- all_entries_app, take_drop.
  rewrite Hall in Hmax |- *. set (got := all_entries expand (take stop txs)) in *.
  assert (Hrest : (length txs ≤ stop)%nat → all_entries expand (drop stop txs) = []).
  { intros ?. by rewrite drop_ge. }
  set (rest := all_entries expand (drop stop txs)) in *. rewrite length_app in Hmax.
  destruct (decide (rest = [])) as [->|Hne].
  - rewrite app_nil_r. apply window_clip; [done..|lia].
  - destruct Hor as [Hwant|?]; [|by destruct Hne; auto].
    assert (length rest ≠ 0%nat) by by destruct rest.
    rewrite window_clip by lia. rewrite !drop_app, take_app_le; [done|]. rewrite length_drop. lia.
Qed.

(** ** The query loop *)

Section pages.
Context `{HX : HexCodec} {E : Type} (expand : TxRecord → list E).
Context (query : TxQuery → result RpcError (list TxRecord)) (page : HistoryPage) (omit : bool).
(** The query answers windows of one list. *)
Context (log : list TxRecord).
Definition page_query (limit : Z) : TxQuery :=
  {| tq_start_height := hp_start_height page; tq_end_height := hp_end_height page; tq_offset := 0;
     tq_limit := Some limit; tq_newest_first := true; tq_omit_memos := omit |}.
Context (Hquery : ∀ limit, query (page_query limit) = Ok (take (Z.to_nat limit) log))
        (Hlog : Z.of_nat (length log) ≤ u32_max)
        (Hentries : Z.of_nat (length (all_entries expand log)) ≤ usize_max)
        (Hfrom : 0 ≤ hp_from page) (Hcount : 0 ≤ hp_count page).

Lemma entries_prefix n : ∃ rest, all_entries expand log = all_entries expand (take n log) ++ rest.
Proof. exists (all_entries expand (drop n log)). by rewrite <- all_entries_app, take_drop. Qed.

(** A full window of a prefix is the window. *)
Lemma window_prefix (from count : Z) (pre rest : list E) :
  0 ≤ from → 0 ≤ count → count ≤ Z.of_nat (length (window from count pre)) →
  window from count (pre ++ rest) = window from count pre.
Proof.
  intros Hf Hc. unfold window. rewrite length_rev, length_take, length_drop. intros Hlen. f_equal.
  destruct (decide (count = 0)) as [->|]; [done|].
  rewrite drop_app, take_app_le; [done|]. rewrite length_drop. lia.
Qed.

Lemma paginate_loop_spec pages : ∀ limit,
  1 ≤ limit ≤ u32_max →
  (2 ^ 33 ≤ limit * 2 ^ Z.of_nat pages ∨ limit = u32_max ∧ (1 ≤ pages)%nat) →
  paginate_loop query page omit expand pages limit =
    Some (Ok (window (hp_from page) (hp_count page) (all_entries expand log))).
Proof using Hquery Hlog Hentries Hfrom Hcount.
  induction pages as [|pages IH]; intros limit Hl Hfuel; [exfalso; unfold u32_max in *; cbn in Hfuel; lia|].
  cbn [paginate_loop]. fold (page_query limit). rewrite Hquery.
  destruct (entries_prefix (Z.to_nat limit)) as [rest Hrest].
  rewrite window_history_spec by
    (try done; rewrite Hrest, length_app in Hentries; lia).
  assert (Hlen : length (take (Z.to_nat limit) log) = Nat.min (Z.to_nat limit) (length log)) by
    apply length_take.
  rewrite (wrap_u32_small (Z.of_nat _)) by (unfold is_u32; lia).
  case_match eqn:Hend.
  - do 2 f_equal. apply orb_true_iff in Hend as [Hfull|Hshort].
    + rewrite Hrest. symmetry. apply window_prefix; [done..|lia].
    + by rewrite (take_ge log) by lia.
  - apply orb_false_iff in Hend as [_ Hfull%negb_false_iff]. apply Z.leb_le in Hfull.
    rewrite Nat2Z.inj_succ, Z.pow_succ_r in Hfuel by lia. case_match eqn:Hdbl.
    + apply IH; lia.
    + case_match eqn:Hmax.
      * by rewrite (take_ge log) by lia.
      * apply IH; [unfold u32_max; lia|]. right. split; [done|].
        destruct pages; [|lia]. unfold u32_max in *. cbn in Hfuel. lia.
Qed.
End pages.

Section history.
Context `{HX : HexCodec}.

(** A page's transactions, unwindowed. *)
Definition page_range (page : HistoryPage) (omit : bool) : TxQuery :=
  {| tq_start_height := hp_start_height page; tq_end_height := hp_end_height page; tq_offset := 0;
     tq_limit := None; tq_newest_first := true; tq_omit_memos := omit |}.

(** C29. However many queries it takes, a page is exact: over a wallet of fewer than 2^32
    transactions it is the [count] entries that follow the newest [from] of the whole history of
    its range, given back oldest first; the loop ends within its 34 queries; and consecutive
    pages of any size, set end to end, are that history with nothing repeated or skipped. *)
Theorem page_is_exact `{WL : WalletLibrary} {E} (w : WalletHandle) (db : Database)
    (page : HistoryPage) (omit : bool) (expand : TxRecord → list E) :
  open_conn (wh_engine_dir w) = Ok db →
  let log := read_transactions db (account_scope w) (page_range page omit) in
  Z.of_nat (length log) ≤ u32_max → Z.of_nat (length (all_entries expand log)) ≤ usize_max →
  let answer from count := paginate_history (query_wallet w)
    {| hp_from := from; hp_count := count; hp_start_height := hp_start_height page;
       hp_end_height := hp_end_height page |} omit expand in
  (∀ from count, 0 ≤ from → 0 ≤ count →
     answer from count = Some (Ok (window from count (all_entries expand log)))) ∧
  ∀ size pages : nat,
    concat ((λ i, match answer (Z.of_nat (i * size)) (Z.of_nat size) with
                  | Some (Ok entries) => rev entries
                  | _ => []
                  end) <$> seq 0 pages) =
    take (pages * size) (all_entries expand log).
Proof.
  intros Hopen log Hlog Hent answer.
  assert (Hexact : ∀ from count, 0 ≤ from → 0 ≤ count →
     answer from count = Some (Ok (window from count (all_entries expand log)))).
  { intros from count Hf Hc. unfold answer, paginate_history.
    set (p := {| hp_from := from; hp_count := count; hp_start_height := _; hp_end_height := _ |}).
    apply (paginate_loop_spec expand (query_wallet w) p omit log); try done; [|unfold u32_max; lia|left; change (Z.of_nat HISTORY_PAGES) with 34; unfold u32_max; lia].
    intros limit. unfold query_wallet, query_transactions. rewrite Hopen. cbn. f_equal.
    unfold log, read_transactions. rewrite <- fmap_take. f_equal. }
  split; [exact Hexact|]. intros size pages. rewrite <- pages_tile. f_equal.
  apply list_fmap_ext. intros i x _. rewrite Hexact by lia. unfold window, window_rows.
  by rewrite rev_involutive.
Qed.
End history.

(** ** Received *)

Section received.
Context `{CD : AddressCodec} (n : ZNetwork) (receivers : ReceiverSet) (st : SyncStatus)
        (minconf : Z) (include_immature : bool).

(** One counted output: the address it is filed under, its value, its depth and its txid. *)
Record Receipt := { rc_addr : string; rc_value : Z; rc_conf : Z; rc_txid : string }.

Definition receipts_of (tx : TxRecord) : list Receipt :=
  let conf := tx_confirmations st tx in
  if conf <? minconf then []
  else omap (λ out,
         (λ addr, {| rc_addr := default addr (issued_encoding n addr receivers);
                     rc_value := Z.max 0 (to_value out); rc_conf := conf; rc_txid := tx_txid_hex tx |})
           <$> counted_output conf (bool_decide (tx_tx_index tx = Some 0)) include_immature out)
         (tx_outputs tx).

Definition add_receipt (m : gmap string Received) (r : Receipt) : gmap string Received :=
  let '(amount, least, txids) := default (0, i64_max, []) (m !! rc_addr r) in
  <[rc_addr r := (wrap_u64 (amount + rc_value r), Z.min least (rc_conf r), txids ++ [rc_txid r])]> m.

Lemma received_fold txs :
  received_by_address n receivers txs st minconf include_immature =
  fold_left add_receipt (concat (receipts_of <$> txs)) ∅.
Proof.
  unfold received_by_address. generalize (∅ : gmap string Received).
  induction txs as [|tx txs IH]; intros m; [done|]. cbn [fold_left fmap list_fmap concat].
  rewrite fold_left_app, <- IH. f_equal. unfold receipts_of. case_match; [done|].
  clear. revert m. induction (tx_outputs tx) as [|o outs IH]; intros m; [done|]. cbn [fold_left].
  rewrite IH. cbn [omap list_omap]. unfold add_received_output.
  destruct (counted_output _ _ _ o) as [addr|]; done.
Qed.

(** The entry a list of receipts of one address sums to. *)
Definition receipts_total (l : list Receipt) : option Received :=
  match l with
  | [] => None
  | _ => Some (wrap_u64 (sum_z (rc_value <$> l)), foldr Z.min i64_max (rc_conf <$> l), rc_txid <$> l)
  end.

Lemma sum_z_app l1 l2 : sum_z (l1 ++ l2) = sum_z l1 + sum_z l2.
Proof. unfold sum_z. induction l1 as [|x l IH]; [done|]. cbn. rewrite IH. lia. Qed.
Lemma min_app l x : foldr Z.min i64_max (l ++ [x]) = Z.min (foldr Z.min i64_max l) (Z.min x i64_max).
Proof. induction l as [|y l IH]; cbn; [lia|]. rewrite IH. lia. Qed.

Lemma receipts_total_default l :
  default (0, i64_max, []) (receipts_total l) =
  (wrap_u64 (sum_z (rc_value <$> l)), foldr Z.min i64_max (rc_conf <$> l), rc_txid <$> l).
Proof. by destruct l. Qed.
Lemma receipts_total_snoc l r :
  receipts_total (l ++ [r]) =
  Some (wrap_u64 (sum_z (rc_value <$> l) + rc_value r),
        Z.min (foldr Z.min i64_max (rc_conf <$> l)) (Z.min (rc_conf r) i64_max),
        (rc_txid <$> l) ++ [rc_txid r]).
Proof.
  assert (receipts_total (l ++ [r]) =
    Some (wrap_u64 (sum_z (rc_value <$> (l ++ [r]))), foldr Z.min i64_max (rc_conf <$> (l ++ [r])),
          rc_txid <$> (l ++ [r]))) as -> by by destruct l.
  rewrite !fmap_app. cbn [fmap list_fmap]. rewrite sum_z_app, min_app. cbn. by rewrite Z.add_0_r.
Qed.

Lemma add_receipts_lookup rs k :
  Forall (λ r, rc_conf r ≤ i64_max) rs →
  fold_left add_receipt rs ∅ !! k =
  receipts_total (List.filter (λ r, bool_decide (rc_addr r = k)) rs).
Proof.
  induction rs as [|r rs IH] using rev_ind; intros Hconf; [done|].
  apply Forall_app in Hconf as [Hconf [Hr _]%Forall_cons]. specialize (IH Hconf).
  rewrite fold_left_app, List.filter_app. cbn [fold_left List.filter]. unfold add_receipt at 1.
  destruct (default _ (_ !! rc_addr r)) as [[amount least] txids] eqn:Hd.
  case_bool_decide as Hk.
  - pose proof (receipts_total_default (List.filter (λ r, bool_decide (rc_addr r = k)) rs)) as Hdef.
    rewrite Hk in Hd |- *. rewrite <- IH in Hdef.
    pose proof (eq_trans (eq_sym Hd) Hdef) as [= -> -> ->].
    rewrite lookup_insert_eq, receipts_total_snoc, (Z.min_l (rc_conf r)) by done.
    unfold wrap_u64. rewrite Zplus_mod_idemp_l. done.
  - rewrite lookup_insert_ne, app_nil_r by done. exact IH.
Qed.

Lemma counted_output_Some conf coinbase out addr :
  counted_output conf coinbase include_immature out = Some addr ↔
  to_to_address out = Some addr ∧ to_to_account out ≠ None ∧ is_internal_change out = false ∧
  (include_immature = true ∨ coinbase = false ∨ to_pool out ≠ 0 ∨ COINBASE_MATURITY ≤ conf).
Proof.
  unfold counted_output. destruct (is_internal_change out); cbn [orb]; [naive_solver|].
  destruct (to_to_account out); cbn; [|naive_solver].
  destruct include_immature, coinbase, (Z.eqb_spec (to_pool out) 0), (Z.ltb_spec conf COINBASE_MATURITY);
    cbn; naive_solver lia.
Qed.

Lemma elem_of_receipts tx r :
  r ∈ receipts_of tx ↔ minconf ≤ tx_confirmations st tx ∧ ∃ out addr, out ∈ tx_outputs tx ∧
    counted_output (tx_confirmations st tx) (bool_decide (tx_tx_index tx = Some 0)) include_immature out
      = Some addr ∧
    r = {| rc_addr := default addr (issued_encoding n addr receivers);
           rc_value := Z.max 0 (to_value out); rc_conf := tx_confirmations st tx;
           rc_txid := tx_txid_hex tx |}.
Proof.
  unfold receipts_of. destruct (Z.ltb_spec (tx_confirmations st tx) minconf).
  - split; [by intros ?%elem_of_nil|lia].
  - rewrite list_elem_of_omap. setoid_rewrite fmap_Some. naive_solver.
Qed.

Lemma tx_confirmations_small tx : tx_confirmations st tx ≤ i64_max.
Proof.
  unfold tx_confirmations, confirmations. destruct (tx_expired_unmined tx); [unfold i64_max; lia|].
  repeat case_match; unfold i64_max; try lia. pose proof (Z.mod_pos_bound (z - z0 + 1) (2 ^ 32)).
  unfold wrap_u32. lia.
Qed.

(** The received-by map is a sum: an address is in it exactly when some output counts towards
    it - one of the wallet's, not change, in a transaction deep enough, and, unless asked for,
    not immature transparent coinbase - and then its amount is the sum of those outputs, its depth
    that of the newest, and its txids those of each, in order; and the outputs are filed under
    the encoding the wallet issues, so that every recorded encoding of one index is one entry. *)
Theorem received_is_a_sum (txs : list TxRecord) (k : string) :
  received_by_address n receivers txs st minconf include_immature !! k =
    receipts_total (List.filter (λ r, bool_decide (rc_addr r = k)) (concat (receipts_of <$> txs))) ∧
  (∀ r, r ∈ concat (receipts_of <$> txs) ↔
     ∃ tx out addr, tx ∈ txs ∧ out ∈ tx_outputs tx ∧ to_to_address out = Some addr ∧
       to_to_account out ≠ None ∧ is_internal_change out = false ∧
       minconf ≤ tx_confirmations st tx ∧
       (include_immature = true ∨ tx_tx_index tx ≠ Some 0 ∨ to_pool out ≠ 0
        ∨ COINBASE_MATURITY ≤ tx_confirmations st tx) ∧
       r = {| rc_addr := default addr (issued_encoding n addr receivers);
              rc_value := Z.max 0 (to_value out); rc_conf := tx_confirmations st tx;
              rc_txid := tx_txid_hex tx |}).
Proof.
  split.
  - rewrite received_fold. apply add_receipts_lookup. apply Forall_forall. intros r Hr.
    apply list_elem_of_In, in_concat in Hr as (l & Hl & Hr).
    apply list_elem_of_In, list_elem_of_fmap in Hl as (tx & -> & _).
    apply list_elem_of_In, elem_of_receipts in Hr as (_ & o & a & _ & _ & ->).
    apply tx_confirmations_small.
  - intros r. rewrite list_elem_of_In, in_concat. split.
    + intros (l & Hl & Hr). apply list_elem_of_In, list_elem_of_fmap in Hl as (tx & -> & Htx).
      apply list_elem_of_In, elem_of_receipts in Hr as (Hmin & o & a & Ho & Ha & ->).
      apply counted_output_Some in Ha as (Ha & Hacc & Hch & Hmat).
      rewrite bool_decide_eq_false in Hmat. exists tx, o, a. auto 10.
    + intros (tx & o & a & Htx & Ho & Ha & Hacc & Hch & Hmin & Hmat & ->).
      exists (receipts_of tx). split; [by apply list_elem_of_In, list_elem_of_fmap_2|].
      apply list_elem_of_In, elem_of_receipts. split; [done|]. exists o, a. split_and!; [done| |done].
      apply counted_output_Some. rewrite bool_decide_eq_false. auto.
Qed.
End received.

(** ** The poller *)

(** The [hex] crate reads back what it writes. *)
Class HexLaws `{HexCodec} : Prop := hex_decode_encode s : hex_decode (hex_encode s) = Some s.

Lemma string_rev_involutive s : string_rev (string_rev s) = s.
Proof.
  unfold string_rev. rewrite String.list_ascii_of_string_of_list_ascii, rev_involutive.
  apply String.string_of_list_ascii_of_string.
Qed.
Lemma string_length_list s : String.length s = length (String.list_ascii_of_string s).
Proof. induction s as [|c s IH]; [done|]. cbn. by rewrite IH. Qed.
Lemma string_rev_length s : String.length (string_rev s) = String.length s.
Proof.
  rewrite !string_length_list. unfold string_rev.
  by rewrite String.list_ascii_of_string_of_list_ascii, length_rev.
Qed.

Lemma txid_display_internal `{HL : HexLaws} b :
  String.length b = 32%nat → txid_internal (txid_display b) = Some b.
Proof.
  intros Hb. unfold txid_internal, txid_display. rewrite hex_decode_encode. cbn.
  rewrite string_rev_length, Hb. cbn. by rewrite string_rev_involutive.
Qed.

Lemma block_at_Some db h b : block_at db h = Some b → b ∈ db_blocks db ∧ bl_height b = h.
Proof. intros [Hin Hh]%find_some. split; [by apply list_elem_of_In|lia]. Qed.

Section poller.
Context `{HL : HexLaws} `{CD : AddressCodec} (parse_memo : string → option MemoKind).

Lemma target_confirmations_range req depth : target_confirmations req = Ok depth → 1 ≤ depth.
Proof.
  unfold target_confirmations. intros Ht. repeat case_match; simplify_eq; try lia; try done.
Qed.

(** The cursor is the hash of the block that has the asked depth. *)
Lemma last_block_at_depth `{WL : WalletLibrary} (w : WalletHandle) (db : Database) (scanned depth : Z) b :
  open_conn (wh_engine_dir w) = Ok db → ss_fully_scanned (wh_status w) = Some scanned →
  1 ≤ depth ≤ scanned + 1 → block_at db (scanned - (depth - 1)) = Some b →
  last_block w depth = txid_display (bl_hash b).
Proof.
  intros Hopen Hs Hd Hb. unfold last_block. rewrite Hs. rewrite (proj2 (Z.leb_le (depth - 1) scanned)) by lia.
  cbn. rewrite Hopen. cbn. unfold read_block_info_at. by rewrite Hb.
Qed.

(** Where the cursor leads: the wallet is read from just above its block, or, when that block is
    no longer the wallet's, from the start. *)
Lemma cursor_found (after : WalletLibrary) (w' : WalletHandle) (db' : Database) (b : BlockRow)
    (next : RpcRequest) :
  String.length (bl_hash b) = 32%nat → @open_conn after (wh_engine_dir w') = Ok db' →
  (∀ b', b' ∈ db_blocks db' → bl_hash b' = bl_hash b → bl_height b' = bl_height b) →
  param next 0 = Some (JString (txid_display (bl_hash b))) →
  ∃ since, @since_height_of _ after w' next = Ok since ∧ (since = None ∨ since = Some (bl_height b)).
Proof.
  intros Hlen Hopen' Hhash Hreq.
  unfold since_height_of. rewrite Hreq. cbn [mbind option_bind json_as_str].
  case_match eqn:Hemp; [by exists None; auto|]. cbn [block_height_by_hash wallet_block_table].
  unfold is_block_hash_wellformed. rewrite <- Hemp, txid_display_internal by done. cbn.
  rewrite Hopen'. cbn. unfold read_block_height_by_hash. rewrite txid_display_internal by done. cbn.
  destruct (List.find _ (db_blocks db')) as [b'|] eqn:Hf; cbn; [|by eauto].
  apply find_some in Hf as [Hin Hb']. apply list_elem_of_In in Hin.
  exists (Some (bl_height b')). split; [done|]. right. f_equal. apply Hhash; [done|].
  by apply bool_decide_eq_true in Hb'.
Qed.

(** The transactions a read from there selects. *)
Definition new_since (since : option Z) (v : ViewTransaction) : Prop :=
  match since, v_mined_height v with Some h, Some m => h < m ∧ is_u32 m | _, _ => True end.
Lemma since_query_reads (after : WalletLibrary) (w' : WalletHandle) (db' : Database) since v :
  @open_conn after (wh_engine_dir w') = Ok db' → v ∈ db_v_transactions db' →
  scope_by_uuid (account_scope w') (Some (v_account_uuid v)) = true → new_since since v →
  ∃ txs, @query_wallet _ after w' (since_query w' since) = Ok txs ∧
    record_of db' (account_scope w') (negb (wh_fetch_memos w')) v ∈ txs.
Proof.
  intros Hopen' Hv Hscope Hm. eexists.
  split; [unfold query_wallet, query_transactions; by rewrite Hopen'|].
  apply list_elem_of_fmap. exists v. split; [done|].
  unfold tx_rows, window_rows. cbn [since_query tq_limit tq_offset tq_newest_first].
  rewrite drop_0, merge_sort_Permutation. apply elem_of_filter_bool. split; [|done].
  unfold row_selected. rewrite Hscope. cbn [since_query tq_start_height tq_end_height is_nullb is_some negb].
  rewrite andb_true_r. unfold new_since in Hm. destruct since as [h|]; cbn; [|done].
  destruct (v_mined_height v) as [m|]; cbn; [|done].
  rewrite !orb_false_r, andb_true_r. apply Z.leb_le. unfold u32_sat_add, is_u32 in *. lia.
Qed.

(** C31. The poller misses nothing of the chain: when a call of [listsinceblock] answers and the
    block at the depth it was asked for is one the wallet has scanned, then whatever happened to
    the chain in between, a later call given the [lastblock] of its reply answers, and its
    [transactions] list every entry of every transaction of the account that is unmined, or that
    did not have that depth at the first call; a cursor reorged away lists everything. When that
    block is not scanned the cursor is the earliest scanned block, and what is mined in it is
    left out ([fallback_skips_first_block]). *)
Theorem poller_misses_nothing (before after : WalletLibrary) (s s' : AppState)
    (wallet wallet' : option string) (w w' : WalletHandle) (db db' : Database)
    (scanned depth depth' : Z) (b : BlockRow) (call next : RpcRequest) (reply : json) :
  registry_get (as_registry s) wallet = Ok w → @open_conn before (wh_engine_dir w) = Ok db →
  ss_fully_scanned (wh_status w) = Some scanned → scanned < u32_max →
  target_confirmations call = Ok depth → depth ≤ scanned + 1 →
  block_at db (scanned - (depth - 1)) = Some b → String.length (bl_hash b) = 32%nat →
  listsinceblock (WL := before) parse_memo s wallet call = Ok reply →
  registry_get (as_registry s') wallet' = Ok w' → @open_conn after (wh_engine_dir w') = Ok db' →
  (∀ b', b' ∈ db_blocks db' → bl_hash b' = bl_hash b → bl_height b' = bl_height b) →
  param next 0 = json_get "lastblock" reply → target_confirmations next = Ok depth' →
  ∃ reply' listed,
    listsinceblock (WL := after) parse_memo s' wallet' next = Ok reply' ∧
    json_get "transactions" reply' = Some (JArray listed) ∧
    ∀ v, v ∈ db_v_transactions db' → scope_by_uuid (account_scope w') (Some (v_account_uuid v)) = true →
      match v_mined_height v with
      | None => True
      | Some m => is_u32 m ∧ (m ≤ scanned → confirmations (wh_status w) (Some m) < depth)
      end →
      wallet_tx_entries parse_memo w' None (record_of db' (account_scope w') (negb (wh_fetch_memos w')) v)
        ⊆ listed.
Proof.
  intros Hw Hopen Hs Hmax Htarget Hd Hb Hlen Hreply Hw' Hopen' Hhash Hreq Htarget'.
  pose proof (target_confirmations_range _ _ Htarget) as Hd1.
  assert (param next 0 = Some (JString (txid_display (bl_hash b)))) as Hcursor.
  { rewrite Hreq. unfold listsinceblock in Hreply. rewrite Hw in Hreply. cbn in Hreply.
    destruct (since_height_of w call); [cbn in Hreply|done]. rewrite Htarget in Hreply. cbn in Hreply.
    destruct (query_wallet w _); [cbn in Hreply|done]. injection Hreply as <-. cbn.
    by rewrite (@last_block_at_depth before w db scanned depth b). }
  destruct (cursor_found after w' db' b next Hlen Hopen' Hhash Hcursor) as (since & Hsince & Hor).
  destruct (@query_wallet _ after w' (since_query w' since)) as [txs|e] eqn:Hq; last first.
  { unfold query_wallet, query_transactions in Hq. by rewrite Hopen' in Hq. }
  eexists _, _. split_and!; [unfold listsinceblock; rewrite Hw'; cbn; rewrite Hsince; cbn;
    rewrite Htarget'; cbn; rewrite Hq; done|done|].
  intros v Hv Hscope Hm. destruct (since_query_reads after w' db' since v Hopen' Hv Hscope)
    as (txs' & Hq' & Hin).
  { unfold new_since. destruct Hor as [->| ->], (v_mined_height v) as [m|]; try done.
    apply block_at_Some in Hb as [_ Hb]. destruct Hm as [Hm32 Hm]. split; [|done].
    destruct (decide (m ≤ scanned)) as [Hle|]; [|lia]. specialize (Hm Hle).
    unfold confirmations in Hm. rewrite Hs, (proj2 (Z.leb_le m scanned) Hle) in Hm.
    unfold is_u32 in Hm32. destruct (decide (bl_height b < m)); [done|].
    rewrite wrap_u32_small in Hm by (unfold is_u32; lia). lia. }
  rewrite Hq in Hq'. injection Hq' as <-. intros entry Hentry.
  apply list_elem_of_In, in_concat. eexists. split; [|by apply list_elem_of_In].
  by apply list_elem_of_In, list_elem_of_fmap_2.
Qed.
End poller.

(** *** A wallet that has scanned one block *)

Module Scanned.
#[local] Instance hex : HexCodec := {| hex_encode s := s; hex_decode s := Some s |}.
Definition block : BlockRow :=
  {| bl_height := 10; bl_hash := "0123456789abcdef0123456789abcdef"; bl_time := 1700000000 |}.
(** A receipt in that block. *)
Definition receipt : ViewTransaction :=
  {| v_account_uuid := 11; v_mined_height := Some 10; v_txid := "t"; v_expiry_height := Some 50;
     v_account_balance_delta := 5000; v_fee_paid := None; v_block_time := None; v_tx_index := Some 1 |}.
Definition db : Database :=
  {| db_blocks := [block]; db_accounts := [{| ac_id := 1; ac_uuid := 11 |}]; db_transactions := [];
     db_notes := []; db_spends := []; db_sent_notes := []; db_addresses := [];
     db_v_transactions := [receipt]; db_v_tx_outputs := [] |}.
#[local] Instance library : WalletLibrary :=
  {| open_conn _ := Ok db; ConfirmationsPolicy := Z; handle_confirmations _ := 3;
     new_symmetrical n _ := n; get_wallet_summary _ _ _ := Ok None; chain_height _ _ := Ok (Some 10);
     select_unspent_notes _ _ _ _ := []; raw_tx_bytes _ _ _ := None; nu7_activation _ := None |}.
Definition status : SyncStatus :=
  update_status_inner
    {| av_name := "w"; av_client := true; av_server := "s"; av_upstream_refusal := None;
       av_tip_height := Some 10; av_tip_hash := None; av_birthday := 10; av_fetch_memos := true;
       av_sync_totals := totals_zero; av_enhance_totals := enhance_totals_zero; av_encrypted := false;
       av_unlock_until := None; av_account_id := Some 11; av_shard_accounts := [];
       av_shard_import_errors := []; av_watch_only := false; av_transparent_enabled := false;
       av_transparent_frontier := None; av_transparent_initial_scan := 0;
       av_transparent_default_frontier := None; av_transparent_gap_limit := 20;
       av_transparent_preexpose := None |} (Some 10) None (0, None) 0 0.
Definition wallet : WalletHandle :=
  {| wh_name := "w"; wh_coin := Zcash; wh_status := status; wh_actor_alive := true; wh_network := Main;
     wh_engine_dir := "d"; wh_enabled_pools := {| pools := [Orchard] |};
     wh_default_receivers := {| pools := [Orchard] |}; wh_transparent_enabled := false;
     wh_transparent_default := false; wh_transparent_gap_limit := 20; wh_fetch_memos := true;
     wh_is_shard := false; wh_first_seen := ∅ |}.
(** The next call, with the cursor the last one gave at a depth. *)
Definition next_call (depth : Z) : RpcRequest :=
  positional "listsinceblock" [JString (last_block wallet depth)].
Definition reported (depth : Z) : result RpcError (list TxRecord) :=
  since ← since_height_of wallet (next_call depth); query_wallet wallet (since_query wallet since).
#[local] Instance addresses : AddressCodec := {|
  from_receivers _ _ _ := None; can_receive_as _ _ := false; decode_address _ _ := None; is_encoded_address _ := false;
  encode_address _ _ := ""; hash_hex h := h |}.
Definition no_memo (raw : string) : option MemoKind := None.
Definition first_call : RpcRequest := positional "listsinceblock" [].
Definition node : AppState :=
  {| as_network := Main; as_registry := registry_insert (registry_new "w") wallet; as_started_at := 0;
     as_shutting_down := false; as_shutdown_signalled := false; as_active := Active.initial |}.
Definition first_reply : json :=
  match listsinceblock no_memo node None first_call with Ok reply => reply | Err _ => JNull end.
End Scanned.

(** Past the scanned range the cursor is the earliest scanned block, and a receipt in that block,
    one confirmation deep, is not reported again. *)
Lemma fallback_skips_first_block :
  confirmations Scanned.status (Some 10) = 1 ∧ Scanned.reported 6 = Ok [].
Proof. vm_compute. done. Qed.

Lemma page_is_exact_witness :
  paginate_history (@query_wallet Scanned.hex Scanned.library Scanned.wallet)
    {| hp_from := 0; hp_count := 1; hp_start_height := None; hp_end_height := None |} false
    (λ tx, [tx_txid_hex tx]) = Some (Ok ["t"]).
Proof.
  exact (proj1 (@page_is_exact Scanned.hex Scanned.library string Scanned.wallet Scanned.db
    {| hp_from := 0; hp_count := 1; hp_start_height := None; hp_end_height := None |} false
    (λ tx, [tx_txid_hex tx]) eq_refl ltac:(by vm_compute) ltac:(by vm_compute)) 0 1
    ltac:(lia) ltac:(lia)).
Defined.

Lemma poller_misses_nothing_witness :
  ∃ reply' listed,
    listsinceblock (HX := Scanned.hex) (WL := Scanned.library) (CD := Scanned.addresses)
      Scanned.no_memo Scanned.node None (Scanned.next_call 1) = Ok reply' ∧
    json_get "transactions" reply' = Some (JArray listed).
Proof.
  assert (@HexLaws Scanned.hex) as laws by done.
  destruct (@poller_misses_nothing Scanned.hex laws Scanned.addresses Scanned.no_memo Scanned.library Scanned.library Scanned.node
    Scanned.node None None Scanned.wallet Scanned.wallet Scanned.db Scanned.db 10 1 1 Scanned.block
    Scanned.first_call (Scanned.next_call 1) Scanned.first_reply) as (reply' & listed & H1 & H2 & _);
    try (vm_compute; done).
  - intros b' [->|[]%elem_of_nil]%elem_of_cons; done.
  - by exists reply', listed.
Defined.
