(* ===== verification/WalletInfo.v ===== *)
(** * WalletInfo: balances, wallet and address information ([src/src/rpc/wallet_methods.rs],
      [src/src/rpc/util.rs]) *)

From S2P Require Export History.

Section info.
Context `{HX : HexCodec} `{WL : WalletLibrary} `{CD : AddressCodec} `{VK : ViewingKeys}
        (f64_literal : Q → string).

(** ** Balances *)

(** The depth is at least one. *)
Definition symmetrical_confirmations (minconf : Z) : ConfirmationsPolicy :=
  new_symmetrical (Z.max minconf 1) false.

Definition minconf_policy (v : option json) (dflt : ConfirmationsPolicy) :
    result RpcError ConfirmationsPolicy :=
  match v with
  | None | Some JNull => Ok dflt
  | Some v =>
      match json_as_i64 v with
      | Some n => let n := Z.max n 1 in
                  Ok (symmetrical_confirmations (if n <=? u32_max then n else u32_max))
      | None => Err (RpcError.type_error "minconf must be a number")
      end
  end.

Definition check_balance_dummy (v : option json) : result RpcError () :=
  match v with
  | None | Some JNull => Ok tt
  | Some (JString s) =>
      if bool_decide (s = "*") then Ok tt
      else Err (RpcError.new RPC_METHOD_DEPRECATED
                  ("dummy first argument must be excluded or set to " +:+ quoted "*" +:+ "."))
  | Some _ => Err (RpcError.type_error "dummy must be a string")
  end.

Definition wallet_balance (w : WalletHandle) (policy : ConfirmationsPolicy) : result RpcError BalanceInfo :=
  balance (wh_network w) (wh_engine_dir w) (account_scope w) policy.

Definition getbalance (s : AppState) (wallet : option string) (req : RpcRequest) : result RpcError json :=
  _ ← check_balance_dummy (param req 0);
  w ← registry_get (as_registry s) wallet;
  policy ← minconf_policy (param req 1) (handle_confirmations w);
  info ← wallet_balance w policy;
  Ok (zats_json (bi_total_spendable info)).

Definition getunconfirmedbalance (s : AppState) (wallet : option string) : result RpcError json :=
  w ← registry_get (as_registry s) wallet;
  info ← wallet_balance w (handle_confirmations w);
  Ok (zats_json (bi_pending info)).

Definition getbalances (s : AppState) (wallet : option string) : result RpcError json :=
  w ← registry_get (as_registry s) wallet;
  info ← wallet_balance w (handle_confirmations w);
  Ok (JObject
    ([("mine", JObject [("trusted", zats_json (bi_total_spendable info));
                        ("untrusted_pending", zats_json (bi_pending info));
                        ("immature", zats_json (bi_immature info));
                        ("coinbase", zats_json (bi_mature_coinbase info))])]
     ++ match ss_fully_scanned (wh_status w) with
        | Some h =>
            match block_info_at w h with
            | Ok (Some (hash, _)) =>
                [("lastprocessedblock", JObject [("hash", JString hash); ("height", json_num h)])]
            | _ => []
            end
        | None => []
        end)).

(** ** The wallet *)

Definition scanning_json (st : SyncStatus) : json :=
  if ss_scanning st || (0 <? ss_pending_enhancements st)
  then JObject [("duration", json_num 0); ("progress", JNumber (f64_literal (ss_scan_progress st)));
                ("pending_enhancements", json_num (ss_pending_enhancements st))]
  else JBool false.

(** The transparent receiving window. *)
Definition lookahead_fields (w : WalletHandle) (st : SyncStatus) : list (string * json) :=
  match ss_transparent_frontier st with
  | None => []
  | Some from =>
      ("lookahead_from", json_num from)
      :: if 0 <? wh_transparent_gap_limit w then
           ("lookahead_through", json_num (sat_sub (u32_sat_add from (wh_transparent_gap_limit w)) 1))
           :: match ss_transparent_recovery_horizon st with
              | Some horizon => [("restorable", JBool (from <=? horizon))]
              | None => []
              end
         else []
  end.
Definition transparent_json (w : WalletHandle) (info : BalanceInfo) : json :=
  let st := wh_status w in
  JObject ([("enabled", JBool true); ("default", JBool (wh_transparent_default w));
            ("gap_limit", json_num (wh_transparent_gap_limit w));
            ("coinbase_balance", zats_json (bi_mature_coinbase info));
            ("recovery_horizon", json_opt json_num (ss_transparent_recovery_horizon st))]
           ++ lookahead_fields w st
           ++ match ss_transparent_preexpose st with
              | Some (exposed, total) =>
                  [("initial_sync", JObject [("exposed", json_num exposed); ("total", json_num total);
                                             ("complete", JBool (total <=? exposed))])]
              | None => []
              end).

Definition getwalletinfo (s : AppState) (wallet : option string) : result RpcError json :=
  w ← registry_get (as_registry s) wallet;
  info ← wallet_balance w (handle_confirmations w);
  let txcount := default 0 (result_ok (tx_count (wh_engine_dir w) (account_scope w))) in
  let st := wh_status w in
  Ok (JObject
    ([("walletname", JString (wh_name w)); ("walletversion", json_num 169900);
      ("format", JString "sqlite"); ("balance", zats_json (bi_total_spendable info));
      ("unconfirmed_balance", zats_json (bi_pending info));
      ("immature_balance", zats_json (bi_immature info)); ("txcount", json_num txcount);
      ("keypoolsize", json_num 1); ("keypoolsize_hd_internal", json_num 0);
      ("paytxfee", zats_json 0); ("private_keys_enabled", JBool (negb (ss_watch_only st)));
      ("avoid_reuse", JBool false); ("scanning", scanning_json st);
      ("enhanced_through", json_opt json_num (ss_enhanced_through st)); ("descriptors", JBool false)]
     ++ (if ss_encrypted st then [("unlocked_until", json_num (default 0 (ss_unlocked_until st)))] else [])
     ++ (if wh_fetch_memos w then [] else [("fetch_memos", JBool false)])
     ++ field "import_error" JString (sync_import_error st (wh_name w))
     ++ (if wh_transparent_enabled w then [("transparent", transparent_json w info)] else []))).

(** ** Addresses *)

Definition addressinfo_json (v : Validation) (addr : string) (ismine : bool)
    (receivers_consistent : option bool) (derivation : option (TransparentDerivation * ZNetwork))
    (shielded_index : option Z) : result RpcError json :=
  if negb (v_is_valid v) then Err (RpcError.invalid_address_or_key "Invalid address")
  else Ok (JObject
    ([("address", JString addr); ("scriptPubKey", JString (default "" (v_script_pub_key v)));
      ("ismine", JBool ismine); ("solvable", JBool ismine); ("iswatchonly", JBool false);
      ("isscript", JBool (v_is_script v)); ("iswitness", JBool false);
      ("isvalid_orchard", JBool (v_is_orchard v));
      ("receiver_types", JArray (JString <$> v_receiver_types v)); ("labels", JArray [])]
     ++ field "receivers_consistent" JBool receivers_consistent
     ++ match derivation with
        | Some (d, n) =>
            field "hdkeypath" JString (hd_keypath d n)
            ++ [("ischange", JBool (is_change d)); ("address_index", json_num (td_address_index d));
                ("diversifier_index", json_num (td_address_index d))]
        | None => []
        end
     ++ field "diversifier_index" json_num shielded_index)).

Definition getaddressinfo (s : AppState) (wallet : option string) (req : RpcRequest) :
    result RpcError json :=
  addr ← require_str req 0 "getaddressinfo requires an address";
  w ← registry_get (as_registry s) wallet;
  let n := wh_network w in let dir := wh_engine_dir w in let scope := account_scope w in
  let v := validate n addr in
  let receivers_consistent :=
    if v_is_valid v then consistent_flag (classify_unified_receivers n dir scope addr) else None in
  let ismine := v_is_valid v && is_mine n dir scope addr in
  let derivation := if ismine then transparent_derivation n dir scope addr else None in
  let shielded_index :=
    if ismine && is_nullb derivation then fst <$> diversifier_index_of n dir scope addr else None in
  addressinfo_json v addr ismine receivers_consistent ((λ d, (d, n)) <$> derivation) shielded_index.

Definition z_validateaddress_json (decoded : option Address) (addr : string) (ismine : bool) : json :=
  match decoded with
  | None => JObject [("isvalid", JBool false)]
  | Some decoded =>
      JObject ([("isvalid", JBool true); ("address", JString addr);
                ("address_type", JString (address_type_of decoded)); ("ismine", JBool ismine)]
               ++ match decoded with
                  | AddrUnified _ =>
                      [("receivers", JArray (JString <$> zcashd_receiver_types_of decoded))]
                  | _ => []
                  end)
  end.
Definition z_validateaddress (s : AppState) (wallet : option string) (req : RpcRequest) :
    result RpcError json :=
  addr ← require_str req 0 "z_validateaddress requires an address";
  w ← registry_get (as_registry s) wallet;
  let decoded := decode_on_network (wh_network w) addr in
  let ismine := is_some decoded && is_mine (wh_network w) (wh_engine_dir w) (account_scope w) addr in
  Ok (z_validateaddress_json decoded addr ismine).

Definition z_listunifiedreceivers (s : AppState) (wallet : option string) (req : RpcRequest) :
    result RpcError json :=
  addr ← require_str req 0 "z_listunifiedreceivers requires a unified address";
  w ← registry_get (as_registry s) wallet;
  match decode_on_network (wh_network w) addr with
  | None => Err (invalid_zcash_address addr)
  | Some (AddrUnified ua) =>
      Ok (JObject ((λ r, (r.1, JString r.2)) <$> unified_receivers (wh_network w) ua))
  | Some decoded =>
      Err (RpcError.invalid_parameter
             (addr +:+ " is not a unified address (its kind is " +:+ address_type_of decoded +:+ ")"))
  end.

(** [validateaddress] ([util.rs]): the wallet is asked if it resolves. *)
Definition validateaddress (s : AppState) (wallet : option string) (req : RpcRequest) :
    result RpcError json :=
  addr ← require_str req 0 "validateaddress requires an address";
  let v := validate (as_network s) addr in
  if negb (v_is_valid v) then
    Ok (JObject [("isvalid", JBool false); ("error_locations", JArray []);
                 ("error", JString "Invalid or unsupported address format")])
  else Ok (JObject
    ([("isvalid", JBool true); ("address", JString addr);
      ("scriptPubKey", JString (default "" (v_script_pub_key v)));
      ("isscript", JBool (v_is_script v)); ("iswitness", JBool false);
      ("isvalid_orchard", JBool (v_is_orchard v));
      ("receiver_types", JArray (JString <$> v_receiver_types v))]
     ++ match registry_get (as_registry s) wallet with
        | Ok w => field "receivers_consistent" JBool
            (consistent_flag (classify_unified_receivers (wh_network w) (wh_engine_dir w)
                                (account_scope w) addr))
        | Err _ => []
        end)).
End info.
