(* ===== verification/SendRpc.v ===== *)
(** * SendRpc: the methods that spend ([src/src/rpc/wallet_methods.rs])

    Each method checks its arguments and either refuses or hands the actor a command; the [z_]
    methods hand it over under an operation id. What the actor then does is [Spend] and [Sends]:
    its answers are parameters, as are the payment library's constructors. *)

From S2P Require Export WalletInfo.
From S2P Require Operations.

(** ** Payments *)

(** A payment as the payment library holds it: the encoded recipient, the value, the memo. *)
Record RpcPayment := { rp_address : string; rp_zats : Z; rp_memo : option string }.

(** The payment library: the memo some bytes are, whether a payment can be built, and why a
    request cannot. *)
Class PaymentLibrary := {
  memo_from_bytes : string → option string;
  payment_new : RpcPayment → bool;
  transaction_request_error : list RpcPayment → option string;
}.

(** The node as these methods see it: the application state, [[spend] privacy_policy],
    [[rpc] allow_duplicate_shielded_recipients] and the operations. *)
Record Node := {
  nd_app : AppState; nd_privacy : SendPrivacy; nd_allow_duplicate_shielded_recipients : bool;
  nd_operations : Operations.registry;
}.

(** The option is on: anything but null, false and the empty array. *)
Definition param_engaged (v : json) : bool :=
  match v with
  | JNull => false
  | JBool b => b
  | JArray a => negb (bool_decide (length a = 0%nat))
  | _ => true
  end.
Definition engaged (req : RpcRequest) (i : nat) : bool :=
  match param req i with Some v => param_engaged v | None => false end.

Section sends.
Context `{HX : HexCodec} `{WL : WalletLibrary} `{CD : AddressCodec} `{VK : ViewingKeys}
        `{PL : PaymentLibrary}.

(** A command to send. *)
Record SendCall := {
  sc_wallet : string; sc_request : list RpcPayment; sc_policy : option ConfirmationsPolicy;
  sc_privacy : SendPrivacy; sc_source : SendSource TransparentAddress;
}.

Definition shielded_family_of (a : Address) : option ShieldedFamily :=
  match can_receive_as a PK_Sapling, can_receive_as a PK_Orchard with
  | true, false => Some FamilySapling
  | false, true => Some FamilyOrchard
  | _, _ => None
  end.

(** What a recipient with no shielded receiver is refused with. *)
Definition reveals_recipient (privacy : SendPrivacy) (addr : string) : RpcError :=
  RpcError.invalid_parameter
    ("Privacy policy " +:+ policy_name privacy +:+ " rejects " +:+ addr
     +:+ ": it has no shielded receiver, so paying it would reveal the amount and recipient "
     +:+ "on-chain. Use privacyPolicy " +:+ quoted "AllowRevealedRecipients"
     +:+ " (or set [spend] privacy_policy) to permit this.").

(** Whether an address decodes on the network to one with a shielded receiver. *)
Definition receives_shielded (n : ZNetwork) (addr : string) : bool :=
  match decode_on_network n addr with Some a => has_shielded_receiver a | None => false end.
Definition is_tex (n : ZNetwork) (addr : string) : bool :=
  match decode_on_network n addr with Some (AddrTex _) => true | _ => false end.

(** A hexadecimal memo. *)
Definition decode_memo (h : string) : result RpcError string :=
  bytes ← ok_or (hex_decode h)
    (RpcError.invalid_parameter "Invalid parameter, expected memo data in hexadecimal format.");
  ok_or (memo_from_bytes bytes)
    (RpcError.invalid_parameter
       "Invalid parameter, memo is longer than the maximum allowed 512 bytes.").

Definition build_payment (coin : Coin) (n : ZNetwork) (privacy : SendPrivacy) (addr : string)
    (amount : json) (memo_hex : option string) (allow_zero : bool) : result RpcError RpcPayment :=
  zaddr ← parse_recipient_on_network coin n addr;
  if is_tex n addr then
    Err (RpcError.invalid_parameter
      ("Invalid parameter, TEX addresses are not supported as a recipient: " +:+ addr))
  else if negb (allows_transparent_recipient privacy) && negb (receives_shielded n addr) then
    Err (reveals_recipient privacy addr)
  else
    zats ← value_to_zats amount;
    if negb allow_zero && (zats =? 0) then Err (RpcError.type_error "Invalid amount")
    else if MAX_MONEY <? zats then Err (RpcError.type_error "Amount out of range")
    else
      memo ← match memo_hex with None => Ok None | Some h => Some <$> decode_memo h end;
      let payment := {| rp_address := zaddr; rp_zats := zats; rp_memo := memo |} in
      if payment_new payment then Ok payment
      else Err (RpcError.invalid_parameter "Memo cannot be used with a transparent recipient").

Definition transaction_request (payments : list RpcPayment) : result RpcError (list RpcPayment) :=
  match transaction_request_error payments with
  | None => Ok payments
  | Some e => Err (RpcError.wallet ("invalid payment request: " +:+ e))
  end.

Definition verbose_param (v : option json) : result RpcError bool :=
  match v with
  | None | Some JNull => Ok false
  | Some (JBool b) => Ok b
  | Some _ => Err (RpcError.type_error "verbose must be a boolean")
  end.
Definition memo_param (v : option json) : result RpcError (option string) :=
  match v with
  | None | Some JNull => Ok None
  | Some (JString s) => Ok (if bool_decide (s = "") then None else Some s)
  | Some _ => Err (RpcError.type_error "memo must be a hex string")
  end.

Definition send_result (txid : string) (verbose : bool) : json :=
  if verbose then JObject [("txid", JString txid); ("fee_reason", JString "ZIP 317")]
  else JString txid.

(** ** [sendtoaddress] and [sendmany] *)

Definition plain_call (nd : Node) (w : WalletHandle) (request : list RpcPayment) : SendCall :=
  {| sc_wallet := wh_name w; sc_request := request; sc_policy := None;
     sc_privacy := nd_privacy nd; sc_source := Unspecified |}.

Definition sendtoaddress_call (nd : Node) (wallet : option string) (req : RpcRequest) :
    result RpcError (SendCall * bool) :=
  addr ← require_str req 0 "sendtoaddress requires an address";
  amount ← ok_or (param_given req 1) (RpcError.missing_param "sendtoaddress requires an amount");
  if engaged req 4 then
    Err (RpcError.invalid_parameter
      "subtractfeefromamount is not supported (fees are ZIP-317, paid by the sender)")
  else if engaged req 9 then
    Err (RpcError.invalid_parameter
      "fee_rate is not supported (fees are ZIP-317, computed by the wallet)")
  else
    verbose ← verbose_param (param req 10);
    memo ← memo_param (param req 11);
    w ← registry_get (as_registry (nd_app nd)) wallet;
    payment ← build_payment (wh_coin w) (wh_network w) (nd_privacy nd) addr amount memo false;
    request ← transaction_request [payment];
    Ok (plain_call nd w request, verbose).

(** [actor] is what the actor answers a send with: the txid or the error. *)
Definition sendtoaddress (actor : SendCall → result RpcError string) (nd : Node)
    (wallet : option string) (req : RpcRequest) : result RpcError json :=
  call ← sendtoaddress_call nd wallet req;
  txid ← actor (fst call); Ok (send_result txid (snd call)).

Fixpoint build_payments (coin : Coin) (n : ZNetwork) (privacy : SendPrivacy)
    (recipients : list (string * json)) : result RpcError (list RpcPayment) :=
  match recipients with
  | [] => Ok []
  | (addr, amount) :: rest =>
      payment ← build_payment coin n privacy addr amount None false;
      payments ← build_payments coin n privacy rest;
      Ok (payment :: payments)
  end.

Definition sendmany_call (nd : Node) (wallet : option string) (req : RpcRequest) :
    result RpcError (SendCall * bool) :=
  recipients ←
    match param_given req 1 with
    | None => Err (RpcError.missing_param "sendmany requires an amounts object")
    | Some (JObject fields) => Ok fields
    | Some _ => Err (RpcError.type_error "amounts must be an address->amount object")
    end;
  if engaged req 4 then
    Err (RpcError.invalid_parameter
      "subtractfeefrom is not supported (fees are ZIP-317, paid by the sender)")
  else if engaged req 8 then
    Err (RpcError.invalid_parameter
      "fee_rate is not supported (fees are ZIP-317, computed by the wallet)")
  else
    verbose ← verbose_param (param req 9);
    w ← registry_get (as_registry (nd_app nd)) wallet;
    payments ← build_payments (wh_coin w) (wh_network w) (nd_privacy nd) recipients;
    if bool_decide (length payments = 0%nat) then
      Err (RpcError.invalid_parameter "sendmany requires at least one recipient")
    else
      request ← transaction_request payments;
      Ok (plain_call nd w request, verbose).
Definition sendmany (actor : SendCall → result RpcError string) (nd : Node)
    (wallet : option string) (req : RpcRequest) : result RpcError json :=
  call ← sendmany_call nd wallet req;
  txid ← actor (fst call); Ok (send_result txid (snd call)).

(** ** [z_sendmany] *)

Definition privacy_from_policy (s : option string) (dflt : SendPrivacy) : result RpcError SendPrivacy :=
  match s with
  | None => Ok dflt
  | Some s =>
      if bool_decide (s = "LegacyCompat") then Ok dflt
      else if bool_decide (s = "FullPrivacy") then Ok FullPrivacy
      else if bool_decide (s = "AllowRevealedAmounts") then Ok AllowRevealedAmounts
      else if bool_decide (s = "AllowRevealedRecipients") then Ok AllowRevealedRecipients
      else if bool_decide (s = "AllowRevealedSenders")
              || bool_decide (s = "AllowLinkingAccountAddresses") then Ok AllowRevealedSenders
      else if bool_decide (s = "AllowFullyTransparent") || bool_decide (s = "NoPrivacy")
           then Ok AllowFullyTransparent
      else Err (RpcError.invalid_parameter ("Unknown privacy policy: " +:+ s))
  end.

Definition no_payment_source : RpcError :=
  RpcError.invalid_address_or_key "Invalid from address, no payment source found for address.".
Definition bad_from_address : RpcError :=
  RpcError.invalid_address_or_key "Invalid from address: should be a taddr, zaddr, or unified address".
Definition sprout_unsupported : RpcError :=
  RpcError.invalid_parameter "Invalid parameter, Sprout is not supported".

(** An address that names a source: it decodes, is not spliced, and is the wallet's. *)
Definition own_source (w : WalletHandle) (addr : string) : result RpcError Address :=
  decoded ← ok_or (decode_on_network (wh_network w) addr) bad_from_address;
  match classify_unified_receivers (wh_network w) (wh_engine_dir w) (account_scope w) addr with
  | Inconsistent why => Err (RpcError.invalid_address_or_key why)
  | _ =>
      if is_mine (wh_network w) (wh_engine_dir w) (account_scope w) addr then Ok decoded
      else Err no_payment_source
  end.

Definition send_source (w : WalletHandle) (fromaddress : string) :
    result RpcError (SendSource TransparentAddress) :=
  if bool_decide (fromaddress = "ANY_TADDR") then Ok (TransparentSource None)
  else if bool_decide (fromaddress = "ANY_SAPLING") then Ok (ShieldedFamilySource FamilySapling)
  else if bool_decide (fromaddress = "ANY_ORCHARD") then Ok (ShieldedFamilySource FamilyOrchard)
  else if bool_decide (fromaddress = "ANY_SPROUT") then Err sprout_unsupported
  else
    decoded ← own_source w fromaddress;
    Ok (match decoded with
        | AddrTransparent t => TransparentSource (Some t)
        | other => match shielded_family_of other with
                   | Some family => ShieldedFamilySource family
                   | None => ShieldedSource
                   end
        end).

(** One entry of the amounts array. *)
Record AmountEntry := { ae_address : string; ae_amount : json; ae_memo : option string }.
Definition entry_keys : list string := ["address"; "amount"; "memo"].
Definition parse_entry (out : json) : result RpcError AmountEntry :=
  match out with
  | JObject fields =>
      _ ← match List.find (λ f, negb (bool_decide (f.1 ∈ entry_keys))) fields with
          | Some (key, _) =>
              Err (RpcError.invalid_parameter ("Invalid parameter, unrecognized key: " +:+ key))
          | None => Ok tt
          end;
      addr ← ok_or (Json.assoc "address" fields ≫= json_as_str)
               (RpcError.invalid_parameter "amounts entry requires an address");
      amount ← ok_or (Json.assoc "amount" fields)
                 (RpcError.invalid_parameter "amounts entry requires an amount");
      memo ← memo_param (Json.assoc "memo" fields);
      Ok {| ae_address := addr; ae_amount := amount; ae_memo := memo |}
  | _ => Err (RpcError.invalid_parameter "amounts entry must be an object")
  end.

Definition duplicate_recipient (shielded : bool) (addr : string) : RpcError :=
  RpcError.invalid_parameter
    ("Invalid parameter, duplicated recipient address: " +:+ addr
     +:+ if shielded
         then " (set [rpc] allow_duplicate_shielded_recipients to permit repeated shielded recipients)"
         else "").

(** The payments, in order, and whether any recipient is transparent; [seen] are the addresses
    met so far. *)
Fixpoint build_entries (nd : Node) (w : WalletHandle) (privacy : SendPrivacy) (outputs : list json)
    (seen : list string) : result RpcError (list RpcPayment * bool) :=
  match outputs with
  | [] => Ok ([], false)
  | out :: rest =>
      entry ← parse_entry out;
      let addr := ae_address entry in
      let shielded := receives_shielded (wh_network w) addr in
      let transparent := is_some (decode_on_network (wh_network w) addr) && negb shielded in
      if bool_decide (addr ∈ seen)
         && negb (shielded && nd_allow_duplicate_shielded_recipients nd)
      then Err (duplicate_recipient shielded addr)
      else
        payment ← build_payment (wh_coin w) (wh_network w) privacy addr (ae_amount entry)
                    (ae_memo entry) true;
        more ← build_entries nd w privacy rest (addr :: seen);
        Ok (payment :: fst more, transparent || snd more)
  end.

Definition fee_unsupported : RpcError :=
  RpcError.invalid_parameter "fee is not supported (fees are ZIP-317, computed by the wallet)".

(** The synchronous half: the command and what the operation is reported with. *)
Definition z_sendmany_call (nd : Node) (wallet : option string) (req : RpcRequest) :
    result RpcError (SendCall * Operations.ContextInfo) :=
  w ← registry_get (as_registry (nd_app nd)) wallet;
  fromaddress ← require_str req 0 "z_sendmany requires a fromaddress";
  source ← send_source w fromaddress;
  outputs ← ok_or (param req 1 ≫= json_as_array)
              (RpcError.invalid_parameter "Invalid parameter, expected amounts array");
  if bool_decide (length outputs = 0%nat) then
    Err (RpcError.invalid_parameter "Invalid parameter, amounts array is empty.")
  else if engaged req 3 then Err fee_unsupported
  else
    privacy ← privacy_from_policy (param req 4 ≫= json_as_str) (nd_privacy nd);
    if source_is_transparent source && negb (allows_transparent_inputs privacy) then
      Err (insufficient_privacy_for_transparent_sender privacy)
    else
      policy ← minconf_policy (param req 2) (handle_confirmations w);
      built ← build_entries nd w privacy outputs [];
      let '(payments, has_transparent_recipient) := built in
      if source_is_transparent source && has_transparent_recipient
         && negb (bool_decide (privacy = AllowFullyTransparent))
      then Err insufficient_privacy_for_fully_transparent
      else
        request ← transaction_request payments;
        Ok ({| sc_wallet := wh_name w; sc_request := request; sc_policy := Some policy;
               sc_privacy := privacy; sc_source := source |},
            {| Operations.ctx_method := "z_sendmany";
               Operations.ctx_params :=
                 JObject [("fromaddress", JString fromaddress); ("amounts", JArray outputs);
                          ("minconf", default (json_num 1) (param req 2))] |}).

(** Inserting the operation; its task is the command. *)
Definition with_operations (nd : Node) (m : Operations.registry) : Node :=
  {| nd_app := nd_app nd; nd_privacy := nd_privacy nd;
     nd_allow_duplicate_shielded_recipients := nd_allow_duplicate_shielded_recipients nd;
     nd_operations := m |}.
Definition start_operation (iter : Operations.registry → list (string * Operations.OperationEntry))
    (id : string) (now : Z) (nd : Node) (wallet_name : string) (ctx : Operations.ContextInfo) :
    result RpcError string * Node :=
  let '(m, r) := Operations.try_insert iter (nd_operations nd) wallet_name (Some ctx) id now in
  (r, with_operations nd m).

(** [z_sendmany]: the answer, the node, and the command spawned. *)
Definition z_sendmany (iter : Operations.registry → list (string * Operations.OperationEntry))
    (id : string) (now : Z) (nd : Node) (wallet : option string) (req : RpcRequest) :
    result RpcError json * Node * option SendCall :=
  match z_sendmany_call nd wallet req with
  | Err e => (Err e, nd, None)
  | Ok (call, ctx) =>
      let '(r, nd') := start_operation iter id now nd (sc_wallet call) ctx in
      match r with
      | Ok opid => (Ok (JString opid), nd', Some call)
      | Err e => (Err e, nd', None)
      end
  end.

(** ** [z_shieldcoinbase] *)

Definition SHIELD_COINBASE_DEFAULT_LIMIT : Z := 50.
Inductive ShieldCoinbaseFrom := AnyTaddr | FromTaddr (t : TransparentAddress).
Record ShieldCoinbaseCall := {
  cc_wallet : string; cc_from : ShieldCoinbaseFrom; cc_to : string; cc_memo : option string;
  cc_limit : option Z;
}.

(** A limit on inputs: the default, none for 0, or a count. *)
Definition input_limit (v : option json) (dflt : Z) (not_integer negative : string) :
    result RpcError (option Z) :=
  match v with
  | None | Some JNull => Ok (Some dflt)
  | Some v =>
      n ← ok_or (json_as_i64 v) (RpcError.invalid_parameter not_integer);
      if n <? 0 then Err (RpcError.invalid_parameter negative)
      else Ok (if n =? 0 then None else Some n)
  end.

(** A memo argument, decoded. *)
Definition memo_bytes_param (v : option json) : result RpcError (option string) :=
  memo ← memo_param v;
  match memo with None => Ok None | Some h => Some <$> decode_memo h end.

(** The privacy policy of a sweep: one that forbids revealing senders is refused. *)
Definition shield_privacy (v : option json) : result RpcError () :=
  match v with
  | None | Some JNull => Ok tt
  | Some v =>
      name ← ok_or (json_as_str v) (RpcError.invalid_parameter "privacyPolicy must be a string");
      if bool_decide (name ∈ ["AllowRevealedSenders"; "AllowLinkingAccountAddresses";
                              "AllowRevealedRecipients"; "AllowFullyTransparent"; "NoPrivacy"])
      then Ok tt
      else if bool_decide (name ∈ ["FullPrivacy"; "AllowRevealedAmounts"; "LegacyCompat"])
      then Err (RpcError.invalid_parameter
        ("The specified privacy policy, " +:+ name +:+ ", does not permit shielding coinbase "
         +:+ "funds (which reveals the source addresses). Use " +:+ quoted "AllowRevealedSenders"
         +:+ " or a weaker policy."))
      else Err (RpcError.invalid_parameter ("Unknown privacy policy: " +:+ name))
  end.

Definition unknown_address_format (addr : string) : RpcError :=
  RpcError.invalid_parameter ("Invalid parameter, unknown address format: " +:+ addr).

Definition z_shieldcoinbase_call (nd : Node) (wallet : option string) (req : RpcRequest) :
    result RpcError (ShieldCoinbaseCall * Operations.ContextInfo) :=
  w ← registry_get (as_registry (nd_app nd)) wallet;
  fromaddress ← require_str req 0 "z_shieldcoinbase requires a fromaddress";
  from ← (if bool_decide (fromaddress = "*") then Ok AnyTaddr
          else match decode_on_network (wh_network w) fromaddress with
               | Some (AddrTransparent t) => Ok (FromTaddr t)
               | _ => Err (RpcError.invalid_address_or_key
                        ("Invalid from address: should be a taddr or " +:+ quoted "*" +:+ "."))
               end);
  toaddress ← require_str req 1 "z_shieldcoinbase requires a toaddress";
  to ← map_err (λ _, unknown_address_format toaddress)
         (parse_recipient_on_network (wh_coin w) (wh_network w) toaddress);
  if negb (receives_shielded (wh_network w) toaddress) then
    Err (RpcError.invalid_parameter
      ("Invalid parameter, toaddress must have a shielded receiver (coinbase funds must be "
       +:+ "shielded when spent): " +:+ toaddress))
  else if engaged req 2 then Err fee_unsupported
  else
    limit ← input_limit (param req 3) SHIELD_COINBASE_DEFAULT_LIMIT
              "Invalid parameter, limit must be an integer"
              "Limit on maximum number of utxos cannot be negative";
    memo ← memo_bytes_param (param req 4);
    _ ← shield_privacy (param req 5);
    Ok ({| cc_wallet := wh_name w; cc_from := from; cc_to := to; cc_memo := memo; cc_limit := limit |},
        {| Operations.ctx_method := "z_shieldcoinbase";
           Operations.ctx_params :=
             JObject [("fromaddress", JString fromaddress); ("toaddress", JString toaddress)] |}).

(** What the actor proposes: what is swept and what remains. *)
Record ShieldPlan := {
  sp_shielding_utxos : Z; sp_shielding_value : Z; sp_remaining_utxos : Z; sp_remaining_value : Z;
}.

Definition z_shieldcoinbase (propose : ShieldCoinbaseCall → result RpcError ShieldPlan)
    (iter : Operations.registry → list (string * Operations.OperationEntry)) (id : string) (now : Z)
    (nd : Node) (wallet : option string) (req : RpcRequest) : result RpcError json * Node :=
  match z_shieldcoinbase_call nd wallet req with
  | Err e => (Err e, nd)
  | Ok (call, ctx) =>
      match propose call with
      | Err e => (Err e, nd)
      | Ok plan =>
          let '(r, nd') := start_operation iter id now nd (cc_wallet call) ctx in
          (opid ← r;
           Ok (JObject [("remainingUTXOs", json_num (sp_remaining_utxos plan));
                        ("remainingValue", zats_json (sp_remaining_value plan));
                        ("shieldingUTXOs", json_num (sp_shielding_utxos plan));
                        ("shieldingValue", zats_json (sp_shielding_value plan));
                        ("opid", JString opid)]), nd')
      end
  end.

(** ** [z_mergetoaddress] *)

Definition MERGE_DEFAULT_TRANSPARENT_LIMIT : Z := 50.
Definition MERGE_DEFAULT_SHIELDED_LIMIT : Z := 200.

(** The sources named so far: wildcards, the pools of the own shielded addresses, and the
    transparent addresses. *)
Record MergeSources := {
  mg_any_taddr : bool; mg_any_sapling : bool; mg_any_orchard : bool;
  mg_own_sapling : bool; mg_own_orchard : bool; mg_taddrs : list TransparentAddress;
}.
Definition no_sources : MergeSources :=
  {| mg_any_taddr := false; mg_any_sapling := false; mg_any_orchard := false;
     mg_own_sapling := false; mg_own_orchard := false; mg_taddrs := [] |}.
Definition add_wildcards (m : MergeSources) (taddr sapling orchard : bool) : MergeSources :=
  {| mg_any_taddr := mg_any_taddr m || taddr; mg_any_sapling := mg_any_sapling m || sapling;
     mg_any_orchard := mg_any_orchard m || orchard; mg_own_sapling := mg_own_sapling m;
     mg_own_orchard := mg_own_orchard m; mg_taddrs := mg_taddrs m |}.
Definition add_own (m : MergeSources) (decoded : Address) : MergeSources :=
  let pools sapling orchard :=
    {| mg_any_taddr := mg_any_taddr m; mg_any_sapling := mg_any_sapling m;
       mg_any_orchard := mg_any_orchard m; mg_own_sapling := mg_own_sapling m || sapling;
       mg_own_orchard := mg_own_orchard m || orchard; mg_taddrs := mg_taddrs m |} in
  match decoded with
  | AddrTransparent t =>
      {| mg_any_taddr := mg_any_taddr m; mg_any_sapling := mg_any_sapling m;
         mg_any_orchard := mg_any_orchard m; mg_own_sapling := mg_own_sapling m;
         mg_own_orchard := mg_own_orchard m; mg_taddrs := mg_taddrs m ++ [t] |}
  | other =>
      match shielded_family_of other with
      | Some FamilySapling => pools true false
      | Some FamilyOrchard => pools false true
      | None => pools true true
      end
  end.

Definition duplicated_address (s : string) : RpcError :=
  RpcError.invalid_parameter ("Invalid parameter, duplicated address: " +:+ s).
Fixpoint merge_sources (w : WalletHandle) (entries : list json) (seen : list string)
    (m : MergeSources) : result RpcError MergeSources :=
  match entries with
  | [] => Ok m
  | v :: rest =>
      s ← ok_or (json_as_str v)
            (RpcError.invalid_parameter "Invalid parameter, expected a string address");
      if bool_decide (s ∈ seen) then Err (duplicated_address s)
      else
        m ← (if bool_decide (s = "ANY_TADDR") then Ok (add_wildcards m true false false)
             else if bool_decide (s = "ANY_SAPLING") then Ok (add_wildcards m false true false)
             else if bool_decide (s = "ANY_ORCHARD") then Ok (add_wildcards m false false true)
             else if bool_decide (s = "ANY_SPROUT") then Err sprout_unsupported
             else decoded ← own_source w s; Ok (add_own m decoded));
        merge_sources w rest (s :: seen) m
  end.

Inductive MergeSource :=
  | MergeTransparent (from : option (list TransparentAddress))
  | MergeShielded (pools : list ShieldedPool).

(** One class of sources, named one way. *)
Definition merge_source (m : MergeSources) : result RpcError MergeSource :=
  let own := mg_own_sapling m || mg_own_orchard m in
  let named := negb (bool_decide (length (mg_taddrs m) = 0%nat)) in
  let transparent := mg_any_taddr m || named in
  let shielded := mg_any_sapling m || mg_any_orchard m || own in
  if transparent && shielded then
    Err (RpcError.invalid_parameter
      ("Invalid parameter, transparent and shielded sources cannot be merged in one transaction; "
       +:+ "call z_mergetoaddress once per source class."))
  else if mg_any_taddr m && named then
    Err (RpcError.invalid_parameter
      "Invalid parameter, cannot specify both ANY_TADDR and individual t-addresses")
  else if own && (mg_any_sapling m || mg_any_orchard m) then
    Err (RpcError.invalid_parameter
      ("Invalid parameter, cannot specify both a shielded wildcard and individual shielded "
       +:+ "addresses"))
  else if transparent then
    Ok (MergeTransparent (if mg_any_taddr m then None else Some (mg_taddrs m)))
  else
    let '(sapling, orchard) :=
      if own then (mg_own_sapling m, mg_own_orchard m) else (mg_any_sapling m, mg_any_orchard m) in
    Ok (MergeShielded ((if sapling then [SP_Sapling] else [])
                       ++ if orchard then [SP_Orchard; SP_Ironwood] else [])).
Definition merge_is_transparent (s : MergeSource) : bool :=
  match s with MergeTransparent _ => true | MergeShielded _ => false end.

Record MergeCall := {
  mc_wallet : string; mc_source : MergeSource; mc_to : string; mc_memo : option string;
  mc_transparent_limit : option Z; mc_shielded_limit : option Z; mc_privacy : SendPrivacy;
}.

(** The privacy gates of a merge. *)
Definition merge_gates (privacy : SendPrivacy) (source : MergeSource) (to_transparent : bool)
    (toaddress : string) : result RpcError () :=
  if merge_is_transparent source then
    if negb (allows_transparent_inputs privacy)
    then Err (insufficient_privacy_for_transparent_sender privacy)
    else if to_transparent && negb (bool_decide (privacy = AllowFullyTransparent))
    then Err insufficient_privacy_for_fully_transparent
    else Ok tt
  else if to_transparent && negb (allows_transparent_recipient privacy)
  then Err (reveals_recipient privacy toaddress)
  else Ok tt.

Definition merge_entries (req : RpcRequest) : result RpcError (list json) :=
  v ← ok_or (param req 0) (RpcError.misc "z_mergetoaddress requires a fromaddresses array");
  entries ← ok_or (json_as_array v)
    (RpcError.invalid_parameter "Invalid parameter, expected an array of addresses");
  if bool_decide (length entries = 0%nat)
  then Err (RpcError.invalid_parameter "Invalid parameter, fromaddresses array is empty.")
  else Ok entries.

Definition merge_limit (v : option json) (dflt : Z) (what : string) : result RpcError (option Z) :=
  input_limit v dflt ("Invalid parameter, " +:+ what +:+ " limit must be an integer")
    ("Limit on maximum number of " +:+ what +:+ " inputs cannot be negative").

Definition z_mergetoaddress_call (nd : Node) (wallet : option string) (req : RpcRequest) :
    result RpcError (MergeCall * Operations.ContextInfo) :=
  w ← registry_get (as_registry (nd_app nd)) wallet;
  entries ← merge_entries req;
  sources ← merge_sources w entries [] no_sources;
  source ← merge_source sources;
  toaddress ← require_str req 1 "z_mergetoaddress requires a toaddress";
  to ← map_err (λ _, unknown_address_format toaddress)
         (parse_recipient_on_network (wh_coin w) (wh_network w) toaddress);
  if is_tex (wh_network w) toaddress then
    Err (RpcError.invalid_parameter
      "Invalid parameter, TEX addresses are not supported as a merge destination")
  else
    let to_transparent := is_some (decode_on_network (wh_network w) toaddress)
                          && negb (receives_shielded (wh_network w) toaddress) in
    if engaged req 2 then Err fee_unsupported
    else
      transparent_limit ← merge_limit (param req 3) MERGE_DEFAULT_TRANSPARENT_LIMIT "transparent";
      shielded_limit ← merge_limit (param req 4) MERGE_DEFAULT_SHIELDED_LIMIT "shielded";
      memo ← memo_bytes_param (param req 5);
      if is_some memo && to_transparent then
        Err (RpcError.invalid_parameter "Memo cannot be used with a transparent recipient")
      else
        privacy ← privacy_from_policy (param req 6 ≫= json_as_str) (nd_privacy nd);
        _ ← merge_gates privacy source to_transparent toaddress;
        Ok ({| mc_wallet := wh_name w; mc_source := source; mc_to := to; mc_memo := memo;
               mc_transparent_limit := transparent_limit; mc_shielded_limit := shielded_limit;
               mc_privacy := privacy |},
            {| Operations.ctx_method := "z_mergetoaddress";
               Operations.ctx_params :=
                 JObject [("fromaddresses", default JNull (param req 0));
                          ("toaddress", JString toaddress)] |}).

(** What the actor proposes to merge, and what remains. *)
Record MergePlan := {
  mp_merging_utxos : Z; mp_merging_transparent_value : Z; mp_merging_notes : Z;
  mp_merging_shielded_value : Z; mp_remaining_utxos : Z; mp_remaining_transparent_value : Z;
  mp_remaining_notes : Z; mp_remaining_shielded_value : Z;
}.

Definition z_mergetoaddress (propose : MergeCall → result RpcError MergePlan)
    (iter : Operations.registry → list (string * Operations.OperationEntry)) (id : string) (now : Z)
    (nd : Node) (wallet : option string) (req : RpcRequest) : result RpcError json * Node :=
  match z_mergetoaddress_call nd wallet req with
  | Err e => (Err e, nd)
  | Ok (call, ctx) =>
      match propose call with
      | Err e => (Err e, nd)
      | Ok p =>
          let '(r, nd') := start_operation iter id now nd (mc_wallet call) ctx in
          (opid ← r;
           Ok (JObject [("remainingUTXOs", json_num (mp_remaining_utxos p));
                        ("remainingTransparentValue", zats_json (mp_remaining_transparent_value p));
                        ("remainingNotes", json_num (mp_remaining_notes p));
                        ("remainingShieldedValue", zats_json (mp_remaining_shielded_value p));
                        ("mergingUTXOs", json_num (mp_merging_utxos p));
                        ("mergingTransparentValue", zats_json (mp_merging_transparent_value p));
                        ("mergingNotes", json_num (mp_merging_notes p));
                        ("mergingShieldedValue", zats_json (mp_merging_shielded_value p));
                        ("opid", JString opid)]), nd')
      end
  end.

(** ** The operations' methods *)

Context (uuid_try_parse : string → bool)
        (iter : Operations.registry → list (string * Operations.OperationEntry)).

Fixpoint parse_opids (arr : list json) : result RpcError (list string) :=
  match arr with
  | [] => Ok []
  | v :: rest =>
      s ← ok_or (json_as_str v) (RpcError.invalid_parameter "Invalid operation ID, expected a string");
      opid ← Operations.opid_from_str uuid_try_parse s;
      ids ← parse_opids rest; Ok (opid :: ids)
  end.
Definition parse_opid_filter (req : RpcRequest) (i : nat) : result RpcError (option (list string)) :=
  match param req i with
  | None | Some JNull => Ok None
  | Some (JArray arr) => Some <$> parse_opids arr
  | Some _ =>
      Err (RpcError.invalid_parameter "Invalid parameter, expected an array of operation ids")
  end.

Definition z_getoperationstatus (nd : Node) (wallet : option string) (req : RpcRequest) :
    result RpcError (list Operations.OperationStatus) :=
  w ← registry_get (as_registry (nd_app nd)) wallet;
  ids ← parse_opid_filter req 0;
  Ok (Operations.status iter (nd_operations nd) (wh_name w) ids).
Definition z_getoperationresult (nd : Node) (wallet : option string) (req : RpcRequest) :
    result RpcError (list Operations.OperationStatus) * Node :=
  match registry_get (as_registry (nd_app nd)) wallet with
  | Err e => (Err e, nd)
  | Ok w =>
      match parse_opid_filter req 0 with
      | Err e => (Err e, nd)
      | Ok ids =>
          let '(m, statuses) := Operations.take_results iter (nd_operations nd) (wh_name w) ids in
          (Ok statuses, with_operations nd m)
      end
  end.
Definition z_listoperationids (nd : Node) (wallet : option string) (req : RpcRequest) :
    result RpcError json :=
  w ← registry_get (as_registry (nd_app nd)) wallet;
  Ok (JArray (JString <$> Operations.list_ids iter (nd_operations nd) (wh_name w)
                            (param req 0 ≫= json_as_str))).

Definition DEFAULT_WAIT_OPERATION_TIMEOUT_SECS : Z := 120.
Definition MAX_WAIT_OPERATION_TIMEOUT_SECS : Z := 3600.
Definition wait_timeout_secs (req : RpcRequest) (i : nat) : result RpcError Z :=
  match param req i with
  | None | Some JNull => Ok DEFAULT_WAIT_OPERATION_TIMEOUT_SECS
  | Some v =>
      n ← ok_or (json_as_i64 v)
        (RpcError.invalid_parameter "Invalid parameter, timeout must be an integer number of seconds");
      if n <? 0 then Err (RpcError.invalid_parameter "Timeout cannot be negative.")
      else Ok (Z.min n MAX_WAIT_OPERATION_TIMEOUT_SECS)
  end.
Definition wait_unknown_operation (opid : string) : RpcError :=
  RpcError.invalid_parameter
    ("No operation exists for id " +:+ opid +:+ ". It may never have existed, may belong to "
     +:+ "another wallet, or may already have been returned by z_getoperationresult.").

(** [z_waitforoperation]: [later] is the node when the wait ends, by the operation, the timeout or
    the shutdown; a wait of no seconds reads at once. The status and whether it is final. *)
Definition z_waitforoperation (later : Z → Node) (nd : Node) (wallet : option string) (req : RpcRequest) :
    result RpcError (Operations.OperationStatus * bool) :=
  w ← registry_get (as_registry (nd_app nd)) wallet;
  s ← require_str req 0 "z_waitforoperation requires an operation id";
  opid ← Operations.opid_from_str uuid_try_parse s;
  timeout_secs ← wait_timeout_secs req 1;
  _ ← ok_or (Operations.subscribe (nd_operations nd) (wh_name w) opid) (wait_unknown_operation opid);
  let after := if 0 <? timeout_secs then later timeout_secs else nd in
  status ← ok_or (Operations.status_of (nd_operations after) (wh_name w) opid)
             (wait_unknown_operation opid);
  Ok (status, Operations.is_finished (Operations.os_status status)).

(** ** Locking *)

Definition MAX_UNLOCK_TIMEOUT_SECS : Z := 100000000.
Definition walletpassphrase_call (nd : Node) (wallet : option string) (req : RpcRequest) :
    result RpcError (string * string * Z) :=
  passphrase ← require_str req 0 "walletpassphrase requires a passphrase";
  timeout ← ok_or (param req 1 ≫= json_as_i64)
    (RpcError.invalid_parameter "walletpassphrase requires an integer timeout (seconds)");
  if timeout <? 0 then Err (RpcError.invalid_parameter "Timeout cannot be negative.")
  else if bool_decide (passphrase = "") then
    Err (RpcError.invalid_parameter "passphrase cannot be empty")
  else
    w ← registry_get (as_registry (nd_app nd)) wallet;
    Ok (wh_name w, passphrase, Z.min timeout MAX_UNLOCK_TIMEOUT_SECS).
Definition walletpassphrase (unlock : string * string * Z → result RpcError ()) (nd : Node)
    (wallet : option string) (req : RpcRequest) : result RpcError json :=
  call ← walletpassphrase_call nd wallet req; _ ← unlock call; Ok JNull.
Definition walletlock (lock : string → result RpcError ()) (nd : Node) (wallet : option string) :
    result RpcError json :=
  w ← registry_get (as_registry (nd_app nd)) wallet; _ ← lock (wh_name w); Ok JNull.
End sends.
