(* ===== verification/SendRpcSpec.v ===== *)
(** * SendRpcSpec: what a spending method lets through to the actor

    What is handed over has passed every gate; and however the actor routes it, it reveals no more
    than the policy it carries allows. *)

From S2P Require Import SpendSpec.
From S2P Require Export SendRpc.

Section spec.
Context `{HX : HexCodec} `{WL : WalletLibrary} `{CD : AddressCodec} `{VK : ViewingKeys}
        `{PL : PaymentLibrary}.

(** A payment a policy admits: to an address of the network that is not TEX and that keeps the
    recipient shielded unless the policy lets it show, of an amount of money, that the payment
    library accepts. *)
Definition payment_admitted (n : ZNetwork) (privacy : SendPrivacy) (allow_zero : bool) (p : RpcPayment) :
    Prop :=
  (∃ a, decode_on_network n (rp_address p) = Some a ∧ (∀ h, a ≠ AddrTex h) ∧
        (has_shielded_receiver a = true ∨ allows_transparent_recipient privacy = true)) ∧
  (if allow_zero then 0 else 1) ≤ rp_zats p ≤ MAX_MONEY ∧ payment_new p = true.

Lemma parse_recipient_Ok coin n s z :
  parse_recipient_on_network coin n s = Ok z → z = s ∧ ∃ a, decode_on_network n s = Some a.
Proof.
  unfold parse_recipient_on_network, parse_recipient. destruct coin.
  destruct (is_encoded_address s); cbn; [|done]. destruct (decode_on_network n s); [|done].
  intros [= <-]. eauto.
Qed.

Lemma value_to_zats_Ok v z : value_to_zats v = Ok z → 0 ≤ z ≤ MAX_MONEY.
Proof.
  intros H. apply bind_Ok_inv in H as (l & _ & H). apply bind_Ok_inv in H as (z' & _ & H).
  repeat case_match; simplify_eq; lia.
Qed.

Lemma build_payment_Ok coin n privacy addr amount memo allow_zero p :
  build_payment coin n privacy addr amount memo allow_zero = Ok p →
  payment_admitted n privacy allow_zero p ∧ rp_address p = addr ∧ value_to_zats amount = Ok (rp_zats p).
Proof.
  unfold build_payment. intros H. apply bind_Ok_inv in H as (z & Hz & H).
  apply parse_recipient_Ok in Hz as [-> [a Ha]].
  destruct (is_tex n addr) eqn:Htex; [done|]. case_match eqn:Hpriv; [done|].
  apply bind_Ok_inv in H as (zats & Hzats & H). case_match eqn:Hzero; [done|].
  case_match; [done|]. apply bind_Ok_inv in H as (m & _ & H).
  destruct (payment_new _) eqn:Hnew; [|done]. injection H as <-. cbn.
  pose proof (value_to_zats_Ok _ _ Hzats) as Hrange.
  split_and!; [|done|done]. unfold payment_admitted. cbn. split_and!; [| | |done].
  - exists a. split_and!; [done| |].
    + intros h ->. unfold is_tex in Htex. by rewrite Ha in Htex.
    + unfold receives_shielded in Hpriv. rewrite Ha in Hpriv.
      destruct (has_shielded_receiver a), (allows_transparent_recipient privacy); auto.
  - destruct allow_zero; cbn in Hzero; lia.
  - lia.
Qed.

Lemma transaction_request_Ok l r : transaction_request l = Ok r → r = l.
Proof. unfold transaction_request. destruct (transaction_request_error l); [done|]. by intros [= ->]. Qed.

Lemma build_payments_Ok coin n privacy recipients ps :
  build_payments coin n privacy recipients = Ok ps →
  Forall (payment_admitted n privacy false) ps ∧ rp_address <$> ps = recipients.*1.
Proof.
  revert ps. induction recipients as [|[addr amount] rest IH]; intros ps; cbn; [by intros [= <-]|].
  intros H. apply bind_Ok_inv in H as (p & Hp & H). apply bind_Ok_inv in H as (ps' & Hps & [= <-]).
  apply build_payment_Ok in Hp as (? & Haddr & _). apply IH in Hps as [? Heq]. cbn.
  split; [by constructor|]. by rewrite Haddr, Heq.
Qed.

(** The recipients of a request, repeated only when every repeat is shielded and allowed. *)
Fixpoint repeats_allowed (n : ZNetwork) (allowed : bool) (seen : list string) (addrs : list string) :
    Prop :=
  match addrs with
  | [] => True
  | a :: rest => (a ∈ seen → allowed = true ∧ receives_shielded n a = true)
                 ∧ repeats_allowed n allowed (a :: seen) rest
  end.

Lemma build_entries_Ok nd w privacy outputs seen ps t :
  build_entries nd w privacy outputs seen = Ok (ps, t) →
  Forall (payment_admitted (wh_network w) privacy true) ps ∧ length ps = length outputs ∧
  repeats_allowed (wh_network w) (nd_allow_duplicate_shielded_recipients nd) seen (rp_address <$> ps) ∧
  (t = false → Forall (λ p, receives_shielded (wh_network w) (rp_address p) = true) ps).
Proof.
  revert seen ps t. induction outputs as [|out rest IH]; intros seen ps t; cbn;
    [intros [= <- <-]; split_and!; done|].
  intros H. apply bind_Ok_inv in H as (e & _ & H). case_match eqn:Hdup; [done|].
  apply bind_Ok_inv in H as (p & Hp & H). apply bind_Ok_inv in H as ([ps' t'] & Hrest & [= <- <-]).
  apply build_payment_Ok in Hp as (Hadm & Haddr & _). pose proof Hadm as [(a & Ha & _) _].
  apply IH in Hrest as (Hall & Hlen & Hrep & Hsh). cbn. rewrite Haddr in *. split_and!.
  - by constructor.
  - by rewrite Hlen.
  - intros Hin. rewrite bool_decide_eq_true_2 in Hdup by done. cbn in Hdup.
    apply negb_false_iff, andb_true_iff in Hdup as [??]. done.
  - done.
  - intros [Ht Ht']%orb_false_iff. constructor; [|by apply Hsh]. rewrite Haddr.
    rewrite Ha in Ht. cbn in Ht. by destruct (receives_shielded _ _).
Qed.

(** A request's payments as the actor reads them. *)
Definition actor_payment (n : ZNetwork) (p : RpcPayment) : Payment TransparentAddress :=
  {| pay_recipient :=
       match decode_on_network n (rp_address p) with
       | Some a => Ok {| Spend.has_orchard_receiver := has_orchard_receiver a;
                         Spend.has_shielded_receiver := has_shielded_receiver a;
                         bare_transparent := match a with AddrTransparent t => Some t | _ => None end |}
       | None => Err ""
       end;
     pay_amount := Some (rp_zats p) |}.

Lemma own_source_Ok w addr a :
  own_source w addr = Ok a →
  decode_on_network (wh_network w) addr = Some a ∧
  is_mine (wh_network w) (wh_engine_dir w) (account_scope w) addr = true ∧
  ∀ why, classify_unified_receivers (wh_network w) (wh_engine_dir w) (account_scope w) addr ≠ Inconsistent why.
Proof.
  unfold own_source. intros H. apply bind_Ok_inv in H as (d & Hd & H). apply ok_or_Ok in Hd.
  destruct (classify_unified_receivers _ _ _ _), (is_mine _ _ _ _); simplify_eq; done.
Qed.

(** What a send is funded from, by the address or the name it was given: an address's funds are the
    wallet's, the address's receivers belong together, and it is what the source says. *)
Definition source_named (w : WalletHandle) (from : string) (source : SendSource TransparentAddress) : Prop :=
  (from = "ANY_TADDR" ∧ source = TransparentSource None) ∨
  (from = "ANY_SAPLING" ∧ source = ShieldedFamilySource FamilySapling) ∨
  (from = "ANY_ORCHARD" ∧ source = ShieldedFamilySource FamilyOrchard) ∨
  ∃ a, decode_on_network (wh_network w) from = Some a ∧
    is_mine (wh_network w) (wh_engine_dir w) (account_scope w) from = true ∧
    (∀ why, classify_unified_receivers (wh_network w) (wh_engine_dir w) (account_scope w) from ≠ Inconsistent why) ∧
    match a with
    | AddrTransparent t => source = TransparentSource (Some t)
    | _ => if can_receive_as a PK_Sapling
           then source = if can_receive_as a PK_Orchard then ShieldedSource else ShieldedFamilySource FamilySapling
           else source = if can_receive_as a PK_Orchard then ShieldedFamilySource FamilyOrchard else ShieldedSource
    end.
Lemma send_source_named w from source : send_source w from = Ok source → source_named w from source.
Proof.
  unfold send_source, source_named. case_bool_decide; [intros [= <-]; by left|].
  case_bool_decide; [intros [= <-]; right; by left|]. case_bool_decide; [intros [= <-]; do 2 right; by left|].
  case_bool_decide; [done|]. intros Hs. do 3 right. apply bind_Ok_inv in Hs as (d & (Hd & Hm & Hw)%own_source_Ok & [= <-]).
  exists d. split_and!; [done..|]. unfold shielded_family_of.
  destruct d; [done|..]; by destruct (can_receive_as _ PK_Sapling), (can_receive_as _ PK_Orchard).
Qed.

Lemma gates_pass n privacy source ps :
  source_is_transparent source && negb (allows_transparent_inputs privacy) = false →
  (source_is_transparent source = true → privacy ≠ AllowFullyTransparent →
   Forall (λ p, receives_shielded n (rp_address p) = true) ps) →
  send_gates privacy source (actor_payment n <$> ps) = Ok tt.
Proof.
  unfold send_gates. destruct (source_is_transparent source); [|done]. cbn. intros -> Hsh.
  case_bool_decide as Hp; [done|]. cbn. specialize (Hsh eq_refl Hp).
  assert (request_pays_transparent_output (actor_payment n <$> ps) = false) as ->; [|done].
  unfold request_pays_transparent_output. induction Hsh as [|p l Hr _ IH]; [done|]. cbn. rewrite IH.
  unfold receives_shielded in Hr. destruct (decode_on_network n (rp_address p)); [|done]. cbn.
  by rewrite Hr.
Qed.

(** *** The calls *)

Lemma plain_call_checked nd wallet req call :
  (∃ v, sendtoaddress_call nd wallet req = Ok (call, v) ∨ sendmany_call nd wallet req = Ok (call, v)) →
  ∃ w, registry_get (as_registry (nd_app nd)) wallet = Ok w ∧ call = plain_call nd w (sc_request call) ∧
    sc_request call ≠ [] ∧
    Forall (payment_admitted (wh_network w) (nd_privacy nd) false) (sc_request call).
Proof.
  intros (v & [H|H]).
  - unfold sendtoaddress_call in H. apply bind_Ok_inv in H as (addr & _ & H).
    apply bind_Ok_inv in H as (amount & _ & H). repeat (case_match; [done|]).
    apply bind_Ok_inv in H as (vb & _ & H). apply bind_Ok_inv in H as (memo & _ & H).
    apply bind_Ok_inv in H as (w & Hw & H). apply bind_Ok_inv in H as (p & Hp & H).
    apply bind_Ok_inv in H as (r & Hr & [= <- _]). apply transaction_request_Ok in Hr as ->.
    apply build_payment_Ok in Hp as (? & _). exists w. cbn. auto.
  - unfold sendmany_call in H. apply bind_Ok_inv in H as (rs & _ & H). repeat (case_match; [done|]).
    apply bind_Ok_inv in H as (vb & _ & H).
    apply bind_Ok_inv in H as (w & Hw & H). apply bind_Ok_inv in H as (ps & Hps & H).
    case_bool_decide as Hlen; [done|]. apply bind_Ok_inv in H as (r & Hr & [= <- _]).
    apply transaction_request_Ok in Hr as ->. apply build_payments_Ok in Hps as [? _].
    exists w. cbn. split_and!; try done. by intros ->.
Qed.
Lemma z_sendmany_call_checked nd wallet req call ctx :
  z_sendmany_call nd wallet req = Ok (call, ctx) →
  ∃ w from, registry_get (as_registry (nd_app nd)) wallet = Ok w ∧ sc_wallet call = wh_name w ∧
    require_str req 0 "z_sendmany requires a fromaddress" = Ok from ∧
    sc_request call ≠ [] ∧
    Forall (payment_admitted (wh_network w) (sc_privacy call) true) (sc_request call) ∧
    repeats_allowed (wh_network w) (nd_allow_duplicate_shielded_recipients nd) []
      (rp_address <$> sc_request call) ∧
    source_named w from (sc_source call) ∧
    send_gates (sc_privacy call) (sc_source call) (actor_payment (wh_network w) <$> sc_request call) = Ok tt.
Proof.
  intros H. unfold z_sendmany_call in H. apply bind_Ok_inv in H as (w & Hw & H).
  apply bind_Ok_inv in H as (from & Hfrom & H). apply bind_Ok_inv in H as (source & Hsource & H).
  apply bind_Ok_inv in H as (outputs & _ & H). case_bool_decide as Hlen; [done|].
  case_match; [done|]. apply bind_Ok_inv in H as (privacy & _ & H). case_match eqn:Hin; [done|].
  apply bind_Ok_inv in H as (policy & _ & H). apply bind_Ok_inv in H as ([ps tr] & Hps & H).
  case_match eqn:Hfull; [done|]. apply bind_Ok_inv in H as (r & Hr & [= <- _]).
  apply transaction_request_Ok in Hr as ->. apply build_entries_Ok in Hps as (Hadm & Hn & Hrep & Hsh).
  exists w, from. cbn. split_and!; try done.
  - intros ->. by rewrite <- Hn in Hlen.
  - by apply send_source_named.
  - apply gates_pass; [done|]. intros Ht Hp. destruct tr; [|by apply Hsh].
    exfalso. apply Hp. rewrite Ht in Hfull. cbn in Hfull.
    by apply negb_false_iff, bool_decide_eq_true in Hfull.
Qed.
(** A call to send: of which method, and for which wallet. *)
Definition handed_over (nd : Node) (wallet : option string) (req : RpcRequest) (w : WalletHandle) (call : SendCall) : Prop :=
  registry_get (as_registry (nd_app nd)) wallet = Ok w ∧
  ((∃ v, sendtoaddress_call nd wallet req = Ok (call, v) ∨ sendmany_call nd wallet req = Ok (call, v)) ∨
   ∃ ctx, z_sendmany_call nd wallet req = Ok (call, ctx)).
Lemma handed_over_gated nd wallet req w call :
  handed_over nd wallet req w call →
  (∃ zero, Forall (payment_admitted (wh_network w) (sc_privacy call) zero) (sc_request call)) ∧
  send_gates (sc_privacy call) (sc_source call) (actor_payment (wh_network w) <$> sc_request call) = Ok tt.
Proof.
  intros [Hw [H|[ctx H]]].
  - apply plain_call_checked in H as (w' & Hw' & -> & _ & Hp). assert (w' = w) as -> by congruence. cbn. by split; [exists false|].
  - apply z_sendmany_call_checked in H as (w' & from & Hw' & _ & _ & _ & Hp & _ & _ & Hg).
    assert (w' = w) as -> by congruence. by split; [exists true|].
Qed.

(** ** What a send may reveal *)

(** C1. A send reveals no more than its policy allows, and never mixes sources. Whatever call
    [sendtoaddress], [sendmany] or [z_sendmany] hands the actor, under the policy the call carries,
    and whichever way the actor then builds it: a recipient without a shielded receiver is paid
    only from [AllowRevealedRecipients] on; transparent outputs are spent only from
    [AllowRevealedSenders] on, and together with a transparent recipient only under
    [AllowFullyTransparent]; and under [FullPrivacy] a proposal that passes the actor's checks
    involves no transparent part and one shielded pool. A fully transparent build is taken only
    when every payment is a bare transparent address; a shielded source spends no transparent
    outputs, one that names a pool family only that family's pools, and a transparent source no
    shielded notes; and the cached path is never given a transparent input or a Sapling-only
    recipient. *)
Theorem route_respects_policy (nd : Node) (wallet : option string) (req : RpcRequest) (w : WalletHandle)
    (call : SendCall) (cached : bool) (route : SendRoute TransparentAddress) :
  handed_over nd wallet req w call →
  send_route (sc_privacy call) (sc_source call) (actor_payment (wh_network w) <$> sc_request call) cached = Ok route →
  (allows_transparent_recipient (sc_privacy call) = false →
     Forall (λ p, receives_shielded (wh_network w) (rp_address p) = true) (sc_request call)) ∧
  route_keeps_to (sc_privacy call) (sc_source call) (actor_payment (wh_network w) <$> sc_request call) cached route ∧
  (sc_privacy call = FullPrivacy →
     ∀ {padding version branch_id : Type} (padding_default : padding) (bvb : branch_id → ValuePool → option version)
       sl budget applies action_limit max_bytes steps branch,
       check_proposal padding_default bvb sl budget applies (sc_privacy call) action_limit max_bytes steps branch = Ok tt →
       Forall single_pool steps).
Proof.
  intros [[zero Hp] Hg]%handed_over_gated Hr. split_and!.
  - intros Hn. eapply Forall_impl; [exact Hp|]. intros p ((a & Ha & _ & Hs) & _). unfold receives_shielded. rewrite Ha.
    destruct Hs; [done|congruence].
  - by apply route_follows_policy.
  - intros -> *. apply full_privacy_single_pool.
Qed.

(** C3. What a spending method hands the actor has been checked. It is
    for the wallet the request resolves to; it pays at least one recipient, each an address of the
    wallet's network, never TEX, that keeps its recipient shielded unless the call's policy lets it
    show, of an amount between one zatoshi - none, for a [z_sendmany] - and all the money there
    is. A [z_sendmany] repeats only shielded recipients, and only when the configuration lets it; its
    source is what [fromaddress] names - any transparent, Sapling or Orchard-family funds, or an
    address, transparent or shielded, that is the wallet's own and is not spliced, and then the
    funds of that transparent address or of the family it receives in; and the actor's privacy gates
    never refuse it. *)
Theorem sends_are_admitted (nd : Node) (wallet : option string) (req : RpcRequest) (call : SendCall) :
  ((∃ v, sendtoaddress_call nd wallet req = Ok (call, v) ∨ sendmany_call nd wallet req = Ok (call, v)) →
   ∃ w, registry_get (as_registry (nd_app nd)) wallet = Ok w ∧ call = plain_call nd w (sc_request call) ∧
     sc_request call ≠ [] ∧
     Forall (payment_admitted (wh_network w) (nd_privacy nd) false) (sc_request call)) ∧
  (∀ ctx, z_sendmany_call nd wallet req = Ok (call, ctx) →
   ∃ w from, registry_get (as_registry (nd_app nd)) wallet = Ok w ∧ sc_wallet call = wh_name w ∧
     require_str req 0 "z_sendmany requires a fromaddress" = Ok from ∧
     sc_request call ≠ [] ∧
     Forall (payment_admitted (wh_network w) (sc_privacy call) true) (sc_request call) ∧
     repeats_allowed (wh_network w) (nd_allow_duplicate_shielded_recipients nd) []
       (rp_address <$> sc_request call) ∧
     source_named w from (sc_source call) ∧
     send_gates (sc_privacy call) (sc_source call) (actor_payment (wh_network w) <$> sc_request call) =
       Ok tt).
Proof. split; [apply plain_call_checked|]. intros ctx. apply z_sendmany_call_checked. Qed.
End spec.

(** ** A concrete send *)

Module SendExample.
Definition library : PaymentLibrary :=
  {| memo_from_bytes b := Some b; payment_new _ := true; transaction_request_error _ := None |}.
Definition wallet : WalletHandle :=
  {| wh_name := "w"; wh_coin := Zcash; wh_status := default_status; wh_actor_alive := true;
     wh_network := Main; wh_engine_dir := "d"; wh_enabled_pools := {| pools := [Orchard] |};
     wh_default_receivers := {| pools := [Orchard] |}; wh_transparent_enabled := false;
     wh_transparent_default := false; wh_transparent_gap_limit := 20; wh_fetch_memos := true;
     wh_is_shard := false; wh_first_seen := ∅ |}.
Definition node : Node :=
  {| nd_app := {| as_network := Main; as_registry := registry_insert (registry_new "w") wallet;
                  as_started_at := 0; as_shutting_down := false; as_shutdown_signalled := false;
                  as_active := Active.initial |};
     nd_privacy := AllowRevealedAmounts; nd_allow_duplicate_shielded_recipients := false;
     nd_operations := ∅ |}.
Definition request : RpcRequest :=
  positional "z_sendmany"
    [JString "ANY_ORCHARD";
     JArray [JObject [("address", JString "u1"); ("amount", JNumber "1.5")]]].
Definition call := @z_sendmany_call Toy.hex Toy.library Toy.codec Toy.keys library node None request.
End SendExample.

Lemma route_respects_policy_witness :
  match SendExample.call with
  | Ok (c, _) => Forall (λ p, receives_shielded (CD := Toy.codec) Main (rp_address p) = true) (sc_request c)
  | Err _ => False
  end.
Proof.
  destruct SendExample.call as [[c ctx]|e] eqn:H; [|by vm_compute in H].
  pose proof (@route_respects_policy Toy.hex Toy.library Toy.codec Toy.keys SendExample.library
    SendExample.node None SendExample.request SendExample.wallet c true
    (CachedPczt (PolicyPools [SP_Orchard; SP_Ironwood] None))
    (conj eq_refl (or_intror (ex_intro _ ctx H)))) as Hp.
  vm_compute in H. injection H as <- _. apply (proj1 (Hp eq_refl) eq_refl).
Defined.
Lemma sends_are_admitted_witness :
  match SendExample.call with
  | Ok (c, _) => rp_zats <$> sc_request c = [150000000] ∧ sc_request c ≠ []
  | Err _ => False
  end.
Proof.
  destruct SendExample.call as [[c ctx]|e] eqn:H; [|by vm_compute in H].
  destruct (proj2 (@sends_are_admitted Toy.hex Toy.library Toy.codec Toy.keys SendExample.library
    SendExample.node None SendExample.request c) ctx H) as (w & from & _ & _ & _ & Hne & _).
  split; [|exact Hne]. vm_compute in H. by injection H as <- _.
Defined.
