(* ===== verification/Shard.v ===== *)
(** * Shard: wallets that share one database ([src/src/wallet/shard.rs])

    Placing members into shards, matching a shard's members against the accounts its database
    holds, and the half of the wallet actor that accepts and imports them
    ([src/src/wallet/actor.rs]). The viewing-key codec, the tree states and the database's import
    are the library's. *)

From S2P Require Export Status.

Record ShardMember := { sm_name : string; sm_ufvk : string; sm_birthday : Z }.
#[global] Instance ShardMember_eq_dec : EqDecision ShardMember.
Proof. solve_decision. Defined.

(** ** Placement *)

(** What a shard holds: its accounts and the lowest birthday among them. *)
Record ShardState := { st_accounts : Z; st_lowest_birthday : option Z }.
#[global] Instance ShardState_eq_dec : EqDecision ShardState.
Proof. solve_decision. Defined.

Definition empty_shard : ShardState := {| st_accounts := 0; st_lowest_birthday := None |}.

(** A shard with room whose cohort a birthday belongs to. *)
Definition accepts (shard_size cohort_depth height : Z) (s : ShardState) : bool :=
  (st_accounts s <? shard_size)
  && match st_lowest_birthday s with
     | None => true
     | Some lowest => lowest <=? wrap_u32 (height + cohort_depth)
     end.

(** The newest such shard. *)
Fixpoint newest_index {A} (p : A → bool) (l : list A) : option nat :=
  match l with
  | [] => None
  | x :: rest =>
      match newest_index p rest with
      | Some i => Some (S i)
      | None => if p x then Some 0%nat else None
      end
  end.

Definition add_account (height : Z) (s : ShardState) : ShardState :=
  {| st_accounts := st_accounts s + 1;
     st_lowest_birthday :=
       Some (match st_lowest_birthday s with None => height | Some l => Z.min l height end) |}.

(** One member: its shard's index and the shards with it. *)
Definition place_one (shard_size cohort_depth height : Z) (shards : list ShardState) :
    nat * list ShardState :=
  let '(index, shards) :=
    match newest_index (accepts shard_size cohort_depth height) shards with
    | Some index => (index, shards)
    | None => (length shards, shards ++ [empty_shard])
    end in
  (index, alter (add_account height) index shards).

Fixpoint place_run (shard_size cohort_depth : Z) (shards : list ShardState) (members : list ShardMember) :
    list nat * list ShardState :=
  match members with
  | [] => ([], shards)
  | member :: rest =>
      let '(index, shards) := place_one shard_size cohort_depth (sm_birthday member) shards in
      let '(out, shards) := place_run shard_size cohort_depth shards rest in
      (index :: out, shards)
  end.
Definition place_members (existing : list ShardState) (members : list ShardMember)
    (shard_size cohort_depth : Z) : list nat :=
  fst (place_run shard_size cohort_depth existing members).

(** [format!("shard-{index:04}")]. *)
Definition shard_dir_name (index : nat) : string := "shard-" +:+ dec_pad 4 (Z.of_nat index).

(** ** The library *)

(** The viewing-key codec - a text that does not decode comes with why -, the birthday an account
    has by the tree state below it, and the wallet database's import. *)
Class ShardLibrary := {
  ViewingKey : Type;
  ufvk_decode : ZNetwork → string → result string ViewingKey;
  ufvk_encode : ZNetwork → ViewingKey → string;
  TreeState : Type;
  AccountBirthday : Type;
  from_treestate : TreeState → Z → result string AccountBirthday;
}.

(** An account a shard's database holds. *)
Record ShardAccount `{ShardLibrary} := {
  sa_id : Z; sa_name : option string; sa_ufvk : option ViewingKey; sa_birthday : Z;
}.

Section shard.
Context `{SL : ShardLibrary}.

(** ** Members and accounts *)

Definition decode_ufvk (member : ShardMember) (n : ZNetwork) : result string ViewingKey :=
  map_err (λ e, "wallet '" +:+ sm_name member +:+ "': its viewing key is not a valid "
                +:+ network_name n +:+ " UFVK: " +:+ e)
    (ufvk_decode n (sm_ufvk member)).

Record Reconciled := { rc_adopted : gmap string Z; rc_pending : list ShardMember }.

(** The accounts indexed by encoded viewing key and by name. *)
Definition index_account (n : ZNetwork) (index : gmap string Z * gmap string string)
    (a : ShardAccount) : gmap string Z * gmap string string :=
  match sa_ufvk a with
  | None => index
  | Some ufvk =>
      let encoded := ufvk_encode n ufvk in
      (<[encoded := sa_id a]> index.1,
       match sa_name a with Some name => <[name := encoded]> index.2 | None => index.2 end)
  end.

Definition key_mismatch (name : string) : string :=
  "wallet '" +:+ name +:+ "' is already an account in this shard under a different viewing key: "
  +:+ "its manifest entry and the wallet database disagree about which wallet it is. Refusing to "
  +:+ "import a second account under the same name - remove the manifest entry, or onboard the new "
  +:+ "key under a new name.".

Fixpoint reconcile_members (n : ZNetwork) (by_ufvk : gmap string Z) (by_name : gmap string string)
    (members : list ShardMember) (acc : Reconciled) : result string Reconciled :=
  match members with
  | [] => Ok acc
  | member :: rest =>
      ufvk ← decode_ufvk member n;
      match by_ufvk !! ufvk_encode n ufvk with
      | Some id =>
          reconcile_members n by_ufvk by_name rest
            {| rc_adopted := <[sm_name member := id]> (rc_adopted acc); rc_pending := rc_pending acc |}
      | None =>
          if is_some (by_name !! sm_name member) then Err (key_mismatch (sm_name member))
          else reconcile_members n by_ufvk by_name rest
                 {| rc_adopted := rc_adopted acc; rc_pending := rc_pending acc ++ [member] |}
      end
  end.
(** [db] are the accounts the database holds, or why it could not be read. *)
Definition reconcile_accounts (n : ZNetwork) (db : result string (list ShardAccount))
    (members : list ShardMember) : result string Reconciled :=
  accounts ← db;
  let '(by_ufvk, by_name) := fold_left (index_account n) accounts (∅, ∅) in
  reconcile_members n by_ufvk by_name members {| rc_adopted := ∅; rc_pending := [] |}.

(** [import_member]; [import] is the database's import, by name and key. *)
Definition import_member (import : string → ViewingKey → AccountBirthday → result string Z)
    (n : ZNetwork) (member : ShardMember) (birthday : AccountBirthday) : result string Z :=
  ufvk ← decode_ufvk member n;
  map_err (λ e, "importing wallet '" +:+ sm_name member +:+ "' into its shard: " +:+ e)
    (import (sm_name member) ufvk birthday).

(** ** The actor's half *)

(** The members' accounts, the members waiting for one, and the imports refused; all but the
    queue are published. *)
Record ShardActor := {
  act_is_shard : bool; act_alive : bool; act_accounts : gmap string Z;
  act_pending : list ShardMember; act_import_errors : gmap string string;
}.

Definition with_shard (a : ShardActor) (accounts : gmap string Z) (pending : list ShardMember)
    (errors : gmap string string) : ShardActor :=
  {| act_is_shard := act_is_shard a; act_alive := act_alive a; act_accounts := accounts;
     act_pending := pending; act_import_errors := errors |}.

(** The actor of a shard at its start. *)
Definition shard_actor (members : list ShardMember) (r : Reconciled) : ShardActor :=
  {| act_is_shard := negb (bool_decide (members = [])); act_alive := true;
     act_accounts := rc_adopted r; act_pending := rc_pending r; act_import_errors := ∅ |}.

Definition add_shard_member (a : ShardActor) (member : ShardMember) : result RpcError () * ShardActor :=
  let name := sm_name member in
  if negb (act_is_shard a) then
    (Err (RpcError.wallet
       "this wallet is not a fleet shard; view wallets are onboarded into the fleet"), a)
  else if is_some (act_accounts a !! name)
          || existsb (λ m, bool_decide (sm_name m = name)) (act_pending a) then
    (Err (RpcError.wallet ("wallet '" +:+ name +:+ "' is already in this shard")), a)
  else (Ok tt, with_shard a (act_accounts a) (act_pending a ++ [member])
                 (delete name (act_import_errors a))).

(** The command, from a handle: an actor that is gone does not answer. *)
Definition dispatch_add_shard_member (a : ShardActor) (member : ShardMember) :
    result RpcError () * ShardActor :=
  if act_alive a then add_shard_member a member
  else (Err (RpcError.misc "wallet actor is not running"), a).

(** The first member waiting leaves the queue, its import refused. *)
Definition drop_pending (a : ShardActor) (reason : string) : ShardActor :=
  match act_pending a with
  | [] => a
  | member :: rest =>
      with_shard a (act_accounts a) rest (<[sm_name member := reason]> (act_import_errors a))
  end.
Definition account_imported (a : ShardActor) (id : Z) : ShardActor :=
  match act_pending a with
  | [] => a
  | member :: rest =>
      with_shard a (<[sm_name member := id]> (act_accounts a)) rest (act_import_errors a)
  end.

(** [import_pending_shard_members]: the actor and whether its client is still connected.
    [tree_state] is the upstream's answer; [None] is a failure or a timeout. *)
Definition import_pending_shard_members (n : ZNetwork) (tip : option Z) (connected : bool)
    (tree_state : Z → option TreeState)
    (import : string → ViewingKey → AccountBirthday → result string Z) (a : ShardActor) :
    ShardActor * bool :=
  match act_pending a, tip with
  | member :: _, Some tip =>
      if connected then
        let prior := Z.max 1 (sat_sub (sm_birthday member) 1) in
        match tree_state prior with
        | None => (a, false)
        | Some ts =>
            match from_treestate ts tip with
            | Err e =>
                (drop_pending a ("could not derive an account birthday from the tree state at "
                                 +:+ dec prior +:+ ": " +:+ e), true)
            | Ok birthday =>
                match import_member import n member birthday with
                | Ok id => (account_imported a id, true)
                | Err e => (drop_pending a e, true)
                end
            end
        end
      else (a, connected)
  | _, _ => (a, connected)
  end.

(** [published_accounts] of a shard. *)
Definition shard_published_accounts (a : ShardActor) : list (string * Z) := map_to_list (act_accounts a).
End shard.
