(* ===== verification/Fleet.v ===== *)
(** * Fleet: view wallets from manifests ([src/src/fleet.rs], [src/src/node.rs])

    The manifest directory and its writes, the layout of wallets over shards, starting a fleet and
    onboarding a wallet into a running one. The TOML reader, the file system's answers and the
    shard databases are parameters; a shard's actor is [Shard]'s. *)

From S2P Require Export Shard.
From S2P Require Keys.

(** ** File names: [Path::file_stem] and [Path::extension] *)

Definition dot : ascii := ascii_of_nat 46.
(** What precedes the last dot, if the name does not start with it, and what follows. *)
Definition split_file_at_dot (file : string) : option string * option string :=
  if bool_decide (file = "..") then (Some file, None)
  else match rsplit_once dot file with
       | None => (None, Some file)
       | Some ("", _) => (Some file, None)
       | Some (before, after) => (Some before, Some after)
       end.
Definition file_stem (file : string) : string :=
  match split_file_at_dot file with (Some b, _) => b | (None, Some a) => a | _ => "" end.
Definition file_extension (file : string) : option string :=
  match split_file_at_dot file with (Some _, after) => after | _ => None end.
Definition in_dir (dir file : string) : string := dir +:+ "/" +:+ file.

(** ** Manifests *)

(** A directory's files: the text of each, or why it cannot be read. *)
Abbreviation Manifests := (gmap string (result string string)).

(** The TOML reader of a manifest: its key and its birthday, a [u32], or why it is neither. *)
Class ManifestCodec := { manifest_parse : string → result string (string * Z) }.

Record SkippedManifest := { sk_path : string; sk_reason : string }.

Definition is_ascii_alphanumeric (c : ascii) : bool :=
  is_ascii_digit c || ((65 <=? byte_of c) && (byte_of c <=? 90)) || ((97 <=? byte_of c) && (byte_of c <=? 122)).
Definition name_char (c : ascii) : bool :=
  is_ascii_alphanumeric c || (byte_of c =? 45) || (byte_of c =? 95) || (byte_of c =? 46).

Definition check_wallet_name (name path : string) : result string () :=
  if bool_decide (name = "") then Err ("fleet manifest " +:+ path +:+ " has an empty name")
  else if negb (all_bytes name_char name) then
    Err ("fleet manifest " +:+ path +:+ " names the wallet '" +:+ name
         +:+ "', which is not addressable as /wallet/<name>: use ASCII letters, digits, '-', '_' or '.'")
  else Ok tt.

(** The first name two neighbours of the list share. *)
Fixpoint first_duplicate (members : list ShardMember) : option string :=
  match members with
  | a :: ((b :: _) as rest) =>
      if bool_decide (sm_name a = sm_name b) then Some (sm_name a) else first_duplicate rest
  | _ => None
  end.

Definition by_name (a b : ShardMember) : Prop := String.le (sm_name a) (sm_name b).
#[global] Instance by_name_dec a b : Decision (by_name a b) := string_le_dec' _ _.
Definition by_path (a b : SkippedManifest) : Prop := String.le (sk_path a) (sk_path b).
#[global] Instance by_path_dec a b : Decision (by_path a b) := string_le_dec' _ _.

Definition manifest_file (name : string) : string := name +:+ ".toml".
Definition manifest_tmp (name : string) : string := name +:+ ".toml.tmp".
Definition newline : string := String (ascii_of_nat 10) "".
Definition manifest_body (member : ShardMember) : string :=
  "# Written by zecd createwallet." +:+ newline
  +:+ "ufvk = " +:+ quoted (sm_ufvk member) +:+ newline
  +:+ "birthday = " +:+ dec (sm_birthday member) +:+ newline.

(** How far a write gets: the directory cannot be made, or a step of writing the file stops. *)
Inductive ManifestWrite := AtMkdir | At (point : Keys.WritePoint).

(** [write_manifest] of a directory that may not exist: what it returns and the directory after
    it; [why] is the failing call's error. *)
Definition write_manifest (path : string) (dir : option Manifests) (member : ShardMember)
    (upto : ManifestWrite) (why : string) : result string () * option Manifests :=
  let name := sm_name member in
  let file := manifest_file name in
  let tmp := manifest_tmp name in
  let body := manifest_body member in
  match upto with
  | AtMkdir => (Err ("creating the fleet manifest directory " +:+ path +:+ ": " +:+ why), dir)
  | At point =>
      let files : Manifests := default ∅ dir in
      if is_some (files !! file) then
        (Err ("a manifest for '" +:+ name +:+ "' already exists at " +:+ in_dir path file), Some files)
      else
        match point with
        | Keys.AtOpen =>
            (Err ("creating the temporary manifest " +:+ in_dir path tmp +:+ ": " +:+ why), Some files)
        | Keys.AtWrite n =>
            (Err ("writing the temporary manifest " +:+ in_dir path tmp +:+ ": " +:+ why),
             Some (<[tmp := Ok (String.substring 0 n body)]> files))
        | Keys.AtSync =>
            (Err ("flushing the temporary manifest " +:+ in_dir path tmp +:+ ": " +:+ why),
             Some (<[tmp := Ok body]> files))
        | Keys.AtRename =>
            (Err ("renaming " +:+ in_dir path tmp +:+ " into place as " +:+ in_dir path file +:+ ": " +:+ why),
             Some (<[tmp := Ok body]> files))
        | Keys.AtEnd => (Ok tt, Some (<[file := Ok body]> (delete tmp files)))
        end
  end.

Section manifests.
Context `{MC : ManifestCodec}.

Definition read_manifest (dir file : string) (content : result string string) :
    result string ShardMember :=
  let path := in_dir dir file in
  let name := file_stem file in
  _ ← check_wallet_name name path;
  text ← map_err (λ e, "reading fleet manifest " +:+ path +:+ ": " +:+ e) content;
  parsed ← map_err (λ e, "parsing fleet manifest " +:+ path +:+ ": " +:+ e) (manifest_parse text);
  Ok {| sm_name := name; sm_ufvk := fst parsed; sm_birthday := snd parsed |}.

(** The files that end in [.toml]; a directory is listed in no particular order. *)
Definition manifest_entries (files : Manifests) : list (string * result string string) :=
  List.filter (λ e, bool_decide (file_extension e.1 = Some "toml")) (map_to_list files).
Definition readable (path : string) (files : Manifests) : list ShardMember :=
  omap (λ e, result_ok (read_manifest path e.1 e.2)) (manifest_entries files).
Definition unreadable (path : string) (files : Manifests) : list SkippedManifest :=
  omap (λ e, match read_manifest path e.1 e.2 with
             | Ok _ => None
             | Err why => Some {| sk_path := in_dir path e.1; sk_reason := why |}
             end) (manifest_entries files).

(** [None] is a directory that does not exist, [Err] one that cannot be read. *)
Definition load_manifests (path : string) (dir : option (result string Manifests)) :
    result string (list ShardMember * list SkippedManifest) :=
  match dir with
  | None => Ok ([], [])
  | Some (Err e) => Err ("reading the fleet manifest directory " +:+ path +:+ ": " +:+ e)
  | Some (Ok files) =>
      let members := merge_sort by_name (readable path files) in
      match first_duplicate members with
      | Some dup => Err ("two fleet manifests both name the wallet '" +:+ dup +:+ "' in " +:+ path)
      | None => Ok (members, merge_sort by_path (unreadable path files))
      end
  end.
End manifests.

(** ** The layout *)

Record FleetConfig := {
  fc_enabled : bool; fc_manifest_dir : string; fc_dir : string; fc_coin : Coin;
  fc_shard_size : Z; fc_cohort_depth : Z;
}.

(** [Layout]: each shard's directory and members. *)
Abbreviation Layout := (list (string * list ShardMember)).
Definition layout_members (l : Layout) : nat := length (concat (snd <$> l)).

(** The wallets that have an account stay in its shard; the others are returned. *)
Definition keep_placed (placed : gmap string nat) (acc : list (list ShardMember) * list ShardMember)
    (member : ShardMember) : list (list ShardMember) * list ShardMember :=
  let '(shards, unplaced) := acc in
  match placed !! sm_name member with
  | Some index =>
      if (index <? length shards)%nat then (alter (λ ms, ms ++ [member]) index shards, unplaced)
      else (shards, unplaced ++ [member])
  | None => (shards, unplaced ++ [member])
  end.
(** A placed wallet pushed to its shard, the list extended to reach it. *)
Definition push_member (shards : list (list ShardMember)) (p : ShardMember * nat) :
    list (list ShardMember) :=
  let shards := shards ++ replicate (S p.2 - length shards) [] in
  alter (λ ms, ms ++ [p.1]) p.2 shards.

Definition plan (members : list ShardMember) (placed : gmap string nat) (existing : list ShardState)
    (config : FleetConfig) : Layout :=
  let '(shards, unplaced) := fold_left (keep_placed placed) members (replicate (length existing) [], []) in
  let shards := fold_left push_member
    (zip unplaced (place_members existing unplaced (fc_shard_size config) (fc_cohort_depth config)))
    shards in
  List.filter (λ s, negb (bool_decide (s.2 = [])))
    (imap (λ index ms, (in_dir (fc_dir config) (shard_dir_name index), ms)) shards).

(** *** The directories of the shards, [dirs] being those that exist *)

Definition shard_path (fleet_dir : string) (index : nat) : string := in_dir fleet_dir (shard_dir_name index).
#[global] Arguments shard_path : simpl never.
Fixpoint next_free_loop (fuel : nat) (dirs : gset string) (fleet_dir : string) (index : nat) :
    option (nat * string) :=
  match fuel with
  | O => None
  | S fuel =>
      if bool_decide (shard_path fleet_dir index ∈ dirs)
      then next_free_loop fuel dirs fleet_dir (S index)
      else Some (index, shard_path fleet_dir index)
  end.
(** At most every directory is passed by. *)
Definition next_free_shard_dir (dirs : gset string) (fleet_dir : string) (from : nat) :
    option (nat * string) :=
  next_free_loop (S (size dirs)) dirs fleet_dir from.

Fixpoint existing_loop (fuel : nat) (dirs : gset string) (fleet_dir : string) (index : nat) : list string :=
  match fuel with
  | O => []
  | S fuel =>
      if bool_decide (shard_path fleet_dir index ∈ dirs)
      then shard_path fleet_dir index :: existing_loop fuel dirs fleet_dir (S index)
      else []
  end.
Definition existing_shard_dirs (dirs : gset string) (fleet_dir : string) : list string :=
  existing_loop (S (size dirs)) dirs fleet_dir 0.

Definition shard_engine_dir (shard_dir : string) (coin : Coin) : string :=
  in_dir shard_dir (coin_engine_dir coin).

(** ** The manager *)

(** A running shard; its actor is shared by its handles. *)
Record ShardRuntime := {
  rt_dir : string; rt_members : gset string; rt_prototype : WalletHandle; rt_actor : ShardActor;
  rt_accounts : Z; rt_lowest_birthday : option Z;
}.

(** What every shard's actor is built with. *)
Record ShardTemplate := {
  tp_network : ZNetwork; tp_coin : Coin; tp_fetch_memos : bool; tp_enabled_pools : ReceiverSet;
  tp_default_receivers : ReceiverSet;
}.

(** The manager, the directories it works in and the registry it serves from. *)
Record Fleet := {
  fl_config : FleetConfig; fl_template : ShardTemplate; fl_shards : list ShardRuntime;
  fl_tasks : list string; fl_manifests : option Manifests; fl_dirs : gset string;
  fl_registry : WalletRegistry;
}.

Inductive OnboardError :=
  | NameTaken (name : string)
  | BadName (why : string)
  | BadKey (why : string)
  | OnboardFailed (e : string).

Definition onboard_error_text (e : OnboardError) : string :=
  match e with
  | NameTaken name => "a wallet named '" +:+ name +:+ "' is already loaded"
  | BadName why => why
  | BadKey why => why
  | OnboardFailed e => e
  end.

Definition with_shards (fl : Fleet) (shards : list ShardRuntime) : Fleet :=
  {| fl_config := fl_config fl; fl_template := fl_template fl; fl_shards := shards;
     fl_tasks := fl_tasks fl; fl_manifests := fl_manifests fl; fl_dirs := fl_dirs fl;
     fl_registry := fl_registry fl |}.
Definition with_manifests (fl : Fleet) (m : option Manifests) : Fleet :=
  {| fl_config := fl_config fl; fl_template := fl_template fl; fl_shards := fl_shards fl;
     fl_tasks := fl_tasks fl; fl_manifests := m; fl_dirs := fl_dirs fl; fl_registry := fl_registry fl |}.
Definition with_registry (fl : Fleet) (r : WalletRegistry) : Fleet :=
  {| fl_config := fl_config fl; fl_template := fl_template fl; fl_shards := fl_shards fl;
     fl_tasks := fl_tasks fl; fl_manifests := fl_manifests fl; fl_dirs := fl_dirs fl; fl_registry := r |}.
Definition with_dir (fl : Fleet) (dir : string) : Fleet :=
  {| fl_config := fl_config fl; fl_template := fl_template fl; fl_shards := fl_shards fl;
     fl_tasks := fl_tasks fl; fl_manifests := fl_manifests fl; fl_dirs := {[dir]} ∪ fl_dirs fl;
     fl_registry := fl_registry fl |}.
Definition with_new_shard (fl : Fleet) (task : string) (rt : ShardRuntime) : Fleet :=
  {| fl_config := fl_config fl; fl_template := fl_template fl; fl_shards := fl_shards fl ++ [rt];
     fl_tasks := fl_tasks fl ++ [task]; fl_manifests := fl_manifests fl; fl_dirs := fl_dirs fl;
     fl_registry := fl_registry fl |}.

(** The shard's published status with its maps as they are now. *)
Definition live_status (st : SyncStatus) (a : ShardActor) : SyncStatus :=
  {| ss_connected := ss_connected st; ss_server := ss_server st; ss_conn_state := ss_conn_state st;
     ss_upstream_refusal := ss_upstream_refusal st; ss_chain_tip := ss_chain_tip st;
     ss_fully_scanned := ss_fully_scanned st; ss_birthday := ss_birthday st;
     ss_best_block_hash := ss_best_block_hash st; ss_scan_progress := ss_scan_progress st;
     ss_scanning := ss_scanning st; ss_pending_enhancements := ss_pending_enhancements st;
     ss_enhanced_through := ss_enhanced_through st; ss_sync_totals := ss_sync_totals st;
     ss_enhance_totals := ss_enhance_totals st; ss_encrypted := ss_encrypted st;
     ss_accounts := shard_published_accounts a; ss_import_errors := map_to_list (act_import_errors a);
     ss_watch_only := ss_watch_only st; ss_unlocked_until := ss_unlocked_until st;
     ss_transparent_preexpose := ss_transparent_preexpose st;
     ss_transparent_frontier := ss_transparent_frontier st;
     ss_transparent_recovery_horizon := ss_transparent_recovery_horizon st |}.

(** Whether a member's import is recorded as refused on the status the shard publishes; the actor
    publishes each such record, and each one it forgets, as it makes it. *)
Definition import_refused (rt : ShardRuntime) (name : string) : bool :=
  bool_decide (name ∈ (ss_import_errors (live_status (wh_status (rt_prototype rt)) (rt_actor rt))).*1).
(** [prototype.sibling(name)]: the shard's handle under another name. *)
Definition sibling (rt : ShardRuntime) (name : string) : WalletHandle :=
  let w := rt_prototype rt in
  {| wh_name := name; wh_coin := wh_coin w; wh_status := live_status (wh_status w) (rt_actor rt);
     wh_actor_alive := act_alive (rt_actor rt); wh_network := wh_network w;
     wh_engine_dir := wh_engine_dir w; wh_enabled_pools := wh_enabled_pools w;
     wh_default_receivers := wh_default_receivers w; wh_transparent_enabled := wh_transparent_enabled w;
     wh_transparent_default := wh_transparent_default w;
     wh_transparent_gap_limit := wh_transparent_gap_limit w; wh_fetch_memos := wh_fetch_memos w;
     wh_is_shard := wh_is_shard w; wh_first_seen := wh_first_seen w |}.

Definition DEFAULT_TRANSPARENT_GAP_LIMIT : Z := 20.

Section manager.
Context `{SL : ShardLibrary} `{MC : ManifestCodec}.

(** *** Starting a shard *)

Definition shard_handle (t : ShardTemplate) (dir : string) (birthday gap_limit : Z) (a : ShardActor)
    (name : string) : WalletHandle :=
  {| wh_name := name; wh_coin := tp_coin t;
     wh_status :=
       {| ss_connected := false; ss_server := None; ss_conn_state := CS_Down;
          ss_upstream_refusal := None; ss_chain_tip := None; ss_fully_scanned := None;
          ss_birthday := Some birthday; ss_best_block_hash := None; ss_scan_progress := 0%Q;
          ss_scanning := false; ss_pending_enhancements := 0; ss_enhanced_through := None;
          ss_sync_totals := totals_zero; ss_enhance_totals := enhance_totals_zero;
          ss_encrypted := false; ss_accounts := shard_published_accounts a; ss_import_errors := [];
          ss_watch_only := true; ss_unlocked_until := None; ss_transparent_preexpose := None;
          ss_transparent_frontier := None; ss_transparent_recovery_horizon := None |};
     wh_actor_alive := act_alive a; wh_network := tp_network t;
     wh_engine_dir := shard_engine_dir dir (tp_coin t); wh_enabled_pools := tp_enabled_pools t;
     wh_default_receivers := tp_default_receivers t; wh_transparent_enabled := false;
     wh_transparent_default := false; wh_transparent_gap_limit := gap_limit;
     wh_fetch_memos := tp_fetch_memos t; wh_is_shard := true; wh_first_seen := ∅ |}.

Definition min_birthday (members : list ShardMember) : option Z :=
  foldr (λ m acc, Some (match acc with None => sm_birthday m | Some b => Z.min (sm_birthday m) b end))
    None members.

(** [spawn_shard]: its actor and a handle per member; [db] opens the database of an engine
    directory and lists its accounts. *)
Definition spawn_shard (t : ShardTemplate) (db : string → result string (list ShardAccount))
    (dir : string) (gap_limit : Z) (members : list ShardMember) :
    result string (ShardActor * list WalletHandle) :=
  reconciled ← reconcile_accounts (tp_network t) (db (shard_engine_dir dir (tp_coin t))) members;
  let a := shard_actor members reconciled in
  Ok (a, shard_handle t dir (default 0 (min_birthday members)) gap_limit a <$> (sm_name <$> members)).

Definition register_shard (dir : string) (prototype : WalletHandle) (a : ShardActor)
    (members : list string) (lowest_birthday : option Z) : ShardRuntime :=
  {| rt_dir := dir; rt_members := list_to_set members; rt_prototype := prototype; rt_actor := a;
     rt_accounts := Z.of_nat (length members); rt_lowest_birthday := lowest_birthday |}.

(** *** Onboarding *)

(** What the outside answers one onboarding with: how far the manifest's write gets, whether its
    removal succeeds, whether a shard's directory can be made, and the shard databases. *)
Record FleetEnv := {
  en_write : ManifestWrite; en_write_why : string; en_remove : bool; en_mkdir : result string ();
  en_db : string → result string (list ShardAccount);
}.

Definition shard_holding (fl : Fleet) (name : string) : option (nat * ShardRuntime) :=
  list_find (λ rt, name ∈ rt_members rt) (fl_shards fl).
Definition with_actor (rt : ShardRuntime) (a : ShardActor) : ShardRuntime :=
  {| rt_dir := rt_dir rt; rt_members := rt_members rt; rt_prototype := rt_prototype rt;
     rt_actor := a; rt_accounts := rt_accounts rt; rt_lowest_birthday := rt_lowest_birthday rt |}.
Definition with_member (rt : ShardRuntime) (a : ShardActor) (member : ShardMember) : ShardRuntime :=
  {| rt_dir := rt_dir rt; rt_members := {[sm_name member]} ∪ rt_members rt;
     rt_prototype := rt_prototype rt; rt_actor := a; rt_accounts := rt_accounts rt + 1;
     rt_lowest_birthday :=
       Some (match rt_lowest_birthday rt with
             | None => sm_birthday member
             | Some l => Z.min l (sm_birthday member)
             end) |}.

(** A command to a shard's actor, and the shard it leaves. *)
Definition ask_shard (rt : ShardRuntime) (member : ShardMember)
    (accepted : ShardRuntime → ShardActor → ShardRuntime) : result string ShardRuntime :=
  match dispatch_add_shard_member (rt_actor rt) member with
  | (Ok _, a) => Ok (accepted rt a)
  | (Err e, _) => Err (RpcError.display e)
  end.

(** A wallet some shard holds: served under its name, its import asked for again if refused. *)
Definition reload (fl : Fleet) (index : nat) (rt : ShardRuntime) (member : ShardMember) :
    result string WalletHandle * Fleet :=
  if import_refused rt (sm_name member) then
    match ask_shard rt member with_actor with
    | Ok rt => (Ok (sibling rt (sm_name member)), with_shards fl (<[index := rt]> (fl_shards fl)))
    | Err e => (Err e, fl)
    end
  else (Ok (sibling rt (sm_name member)), fl).

(** A running shard that has room. *)
Definition join_shard (fl : Fleet) (index : nat) (rt : ShardRuntime) (member : ShardMember) :
    result string WalletHandle * Fleet :=
  match ask_shard rt member (λ rt a, with_member rt a member) with
  | Ok rt' => (Ok (sibling rt' (sm_name member)), with_shards fl (<[index := rt']> (fl_shards fl)))
  | Err e => (Err e, fl)
  end.

(** No shard has room: one is started in a fresh directory. *)
Definition open_shard (env : FleetEnv) (fl : Fleet) (from : nat) (member : ShardMember) :
    result string WalletHandle * Fleet :=
  match next_free_shard_dir (fl_dirs fl) (fc_dir (fl_config fl)) from with
  | None => (Err "no free shard directory", fl)
  | Some (index, dir) =>
      match en_mkdir env with
      | Err e => (Err ("creating shard directory " +:+ dir +:+ ": " +:+ e), fl)
      | Ok _ =>
          let fl := with_dir fl dir in
          let name := shard_dir_name index in
          match spawn_shard (fl_template fl) (en_db env) dir DEFAULT_TRANSPARENT_GAP_LIMIT [member] with
          | Err e => (Err ("starting fleet shard '" +:+ name +:+ "': " +:+ e), fl)
          | Ok (_, []) => (Err "a shard must produce a handle per member", fl)
          | Ok (a, handle :: _) =>
              (Ok handle,
               with_new_shard fl name
                 {| rt_dir := dir; rt_members := {[sm_name member]}; rt_prototype := handle;
                    rt_actor := a; rt_accounts := 1; rt_lowest_birthday := Some (sm_birthday member) |})
          end
      end
  end.

Definition place (env : FleetEnv) (fl : Fleet) (member : ShardMember) :
    result string WalletHandle * Fleet :=
  match shard_holding fl (sm_name member) with
  | Some (index, rt) => reload fl index rt member
  | None =>
      let existing := (λ rt, {| st_accounts := rt_accounts rt; st_lowest_birthday := rt_lowest_birthday rt |})
                        <$> fl_shards fl in
      let index := default 0%nat (head (place_members existing [member]
                     (fc_shard_size (fl_config fl)) (fc_cohort_depth (fl_config fl)))) in
      match fl_shards fl !! index with
      | Some rt => join_shard fl index rt member
      | None => open_shard env fl index member
      end
  end.

(** The manifest of a wallet that did not start is taken back. *)
Definition roll_back (env : FleetEnv) (fl : Fleet) (name : string) : Fleet :=
  if en_remove env then with_manifests fl (delete (manifest_file name) <$> fl_manifests fl) else fl.

Definition onboard (env : FleetEnv) (fl : Fleet) (member : ShardMember) (persist : bool) :
    result OnboardError () * Fleet :=
  let name := sm_name member in
  if registry_contains (fl_registry fl) name then (Err (NameTaken name), fl)
  else
    match check_wallet_name name name with
    | Err e => (Err (BadName e), fl)
    | Ok _ =>
        match decode_ufvk member (tp_network (fl_template fl)) with
        | Err e => (Err (BadKey e), fl)
        | Ok _ =>
            let '(written, manifests) :=
              if persist
              then write_manifest (fc_manifest_dir (fl_config fl)) (fl_manifests fl) member
                     (en_write env) (en_write_why env)
              else (Ok tt, fl_manifests fl) in
            let fl := with_manifests fl manifests in
            match written with
            | Err e => (Err (OnboardFailed e), fl)
            | Ok _ =>
                match place env fl member with
                | (Ok handle, fl) => (Ok tt, with_registry fl (registry_insert (fl_registry fl) handle))
                | (Err e, fl) =>
                    (Err (OnboardFailed e), if persist then roll_back env fl name else fl)
                end
            end
        end
    end.

(** *** Starting the fleet: [spawn_fleet] *)

(** [inspect_shard]: what a shard's database holds, its accounts' names recorded as placed. *)
Definition inspect_shard (index : nat) (accounts : list ShardAccount) (placed : gmap string nat) :
    gmap string nat * ShardState :=
  (fold_left (λ m a, match sa_name a with Some name => <[name := index]> m | None => m end) accounts placed,
   {| st_accounts := Z.of_nat (length accounts);
      st_lowest_birthday :=
        fold_left (λ l a, Some (match l with None => sa_birthday a | Some l => Z.min l (sa_birthday a) end))
          accounts None |}).
Fixpoint inspect_shards (db : string → result string (list ShardAccount)) (coin : Coin)
    (index : nat) (dirs : list string) (placed : gmap string nat) :
    result string (gmap string nat * list ShardState) :=
  match dirs with
  | [] => Ok (placed, [])
  | dir :: rest =>
      accounts ← map_err (λ e, "inspecting shard " +:+ dir +:+ ": " +:+ e) (db (shard_engine_dir dir coin));
      let '(placed, state) := inspect_shard index accounts placed in
      more ← inspect_shards db coin (S index) rest placed;
      Ok (fst more, state :: snd more)
  end.

(** [Path::file_name]. *)
Definition file_name (path : string) : string :=
  match rsplit_once (ascii_of_nat 47) path with Some (_, name) => name | None => path end.

(** One shard of the layout started, registered and served. *)
Definition start_shard (env : FleetEnv) (gap_limit : Z) (fl : Fleet) (shard : string * list ShardMember) :
    result string Fleet :=
  let '(dir, members) := shard in
  _ ← map_err (λ e, "creating shard directory " +:+ dir +:+ ": " +:+ e) (en_mkdir env);
  spawned ← map_err (λ e, "starting fleet shard '" +:+ file_name dir +:+ "': " +:+ e)
              (spawn_shard (fl_template fl) (en_db env) dir gap_limit members);
  let fl := with_dir fl dir in
  let '(a, handles) := spawned in
  let fl := match head handles with
            | None => fl
            | Some prototype =>
                with_shards fl (fl_shards fl ++
                  [register_shard dir prototype a (sm_name <$> members) (min_birthday members)])
            end in
  Ok (with_registry fl (fold_left registry_insert handles (fl_registry fl))).

Fixpoint start_shards (env : FleetEnv) (gap_limit : Z) (fl : Fleet) (layout : Layout) : result string Fleet :=
  match layout with
  | [] => Ok fl
  | shard :: rest => fl ← start_shard env gap_limit fl shard; start_shards env gap_limit fl rest
  end.

Definition collision (name : string) : string :=
  "fleet wallet '" +:+ name +:+ "' collides with the configured [wallets." +:+ name
  +:+ "] entry: both would be served at /wallet/" +:+ name +:+ ". Rename one of them.".

(** [None] is a node without a fleet; [configured] are the names of [[wallets.<name>]]. *)
Definition spawn_fleet (env : FleetEnv) (config : FleetConfig) (t : ShardTemplate) (gap_limit : Z)
    (configured : list string) (manifests : option Manifests) (dirs : gset string)
    (registry : WalletRegistry) : result string (option Fleet) :=
  if negb (fc_enabled config) then Ok None
  else
    loaded ← load_manifests (fc_manifest_dir config) (Ok <$> manifests);
    let members := fst loaded in
    match List.find (λ m, bool_decide (sm_name m ∈ configured)) members with
    | Some m => Err (collision (sm_name m))
    | None =>
        inspected ← inspect_shards (en_db env) (fc_coin config) 0
                      (existing_shard_dirs dirs (fc_dir config)) ∅;
        let layout := plan members (fst inspected) (snd inspected) config in
        Some <$> start_shards env gap_limit
          {| fl_config := config; fl_template := t; fl_shards := []; fl_tasks := [];
             fl_manifests := manifests; fl_dirs := dirs; fl_registry := registry |} layout
    end.
End manager.
