(* ===== verification/FleetSpec.v ===== *)
(** * FleetSpec: what the fleet promises

    Where wallets are placed, and what a crash can do to a manifest. What an onboarding leaves and
    the invariant of a running fleet are [OnboardSpec]'s. *)

From S2P Require Export Fleet.

(** ** Placement *)

Lemma newest_index_Some {A} (p : A → bool) l i :
  newest_index p l = Some i →
  ∃ x, l !! i = Some x ∧ p x = true ∧ ∀ j y, (i < j)%nat → l !! j = Some y → p y = false.
Proof.
  revert i. induction l as [|x l IH]; intros i; [done|]. cbn.
  destruct (newest_index p l) as [k|] eqn:E.
  - intros [= <-]. destruct (IH k eq_refl) as (y & Hy & Hp & Hlast). exists y. split_and!; [done..|].
    intros [|j] z Hj Hz; [lia|]. apply (Hlast j); [lia|done].
  - destruct (p x) eqn:Hp; intros [= <-]. exists x. split_and!; [done..|].
    intros [|j] y Hj Hy; [lia|]. clear -E Hy. cbn in Hy. revert j Hy. induction l as [|z l IH]; [done|].
    cbn in E. destruct (newest_index p l); [done|]. destruct (p z) eqn:Hz; [done|].
    intros [|j] Hy; [by injection Hy as ->|]. by eapply IH.
Qed.
Lemma newest_index_None {A} (p : A → bool) l : newest_index p l = None → Forall (λ x, p x = false) l.
Proof.
  induction l as [|x l IH]; [done|]. cbn. destruct (newest_index p l); [done|].
  destruct (p x) eqn:Hp; [done|]. intros _. constructor; auto.
Qed.

Section placement.
Context (shard_size cohort_depth : Z).
#[local] Abbreviation accepts := (accepts shard_size cohort_depth).
#[local] Abbreviation place_one := (place_one shard_size cohort_depth).
#[local] Abbreviation place_run := (place_run shard_size cohort_depth).

(** The rule for one member: the newest shard that accepts it, else a new one. *)
Definition chosen (height : Z) (before : list ShardState) (i : nat) : Prop :=
  match before !! i with
  | Some s => accepts height s = true ∧
              ∀ j s', (i < j)%nat → before !! j = Some s' → accepts height s' = false
  | None => i = length before ∧ Forall (λ s, accepts height s = false) before
  end.

Lemma place_one_spec height before i after :
  place_one height before = (i, after) →
  chosen height before i ∧ (length before ≤ length after)%nat ∧ (i < length after)%nat ∧
  ∀ j, (j < length after)%nat →
    after !! j = Some (let s := default empty_shard (before !! j) in
                       if decide (j = i) then add_account height s else s).
Proof.
  unfold Shard.place_one, chosen. destruct (newest_index _ before) as [k|] eqn:E; intros [= <- <-].
  - apply newest_index_Some in E as (s & Hs & Hp & Hlast). rewrite Hs.
    pose proof (lookup_lt_Some _ _ _ Hs). rewrite length_alter. split_and!; try done.
    intros j Hj. destruct (decide (j = k)) as [->|Hne].
    + by rewrite list_lookup_alter_eq, Hs.
    + rewrite list_lookup_alter_ne by done. destruct (lookup_lt_is_Some_2 before j Hj) as [x ->]. done.
  - apply newest_index_None in E. rewrite lookup_ge_None_2 by lia. rewrite length_alter, length_app. cbn.
    split_and!; try done; try lia. intros j Hj. destruct (decide (j = length before)) as [->|Hne].
    + rewrite list_lookup_alter_eq, list_lookup_middle by done. cbn. by rewrite lookup_ge_None_2 by lia.
    + rewrite list_lookup_alter_ne, lookup_app_l by lia.
      destruct (lookup_lt_is_Some_2 before j ltac:(lia)) as [x ->]. done.
Qed.

(** How many of the places given are shard [i]. *)
Definition placed_at (i : nat) (out : list nat) : Z :=
  Z.of_nat (length (List.filter (λ j, bool_decide (j = i)) out)).

Lemma place_run_spec members : ∀ before out final,
  place_run before members = (out, final) → 1 ≤ shard_size →
  length out = length members ∧ (length before ≤ length final)%nat ∧
  Forall (λ i, (i < length final)%nat) out ∧
  ∀ i s', final !! i = Some s' →
    let s := default empty_shard (before !! i) in
    st_accounts s' = st_accounts s + placed_at i out ∧ st_accounts s' ≤ Z.max (st_accounts s) shard_size.
Proof.
  induction members as [|m members IH]; intros before out final; cbn.
  - intros [= <- <-] Hsize. split_and!; try done. intros i s' Hs. rewrite Hs. cbn. unfold placed_at. cbn. lia.
  - destruct (place_one (sm_birthday m) before) as [k mid] eqn:E1.
    destruct (place_run mid members) as [out' final'] eqn:E2. intros [= <- <-] Hsize.
    apply place_one_spec in E1 as (Hch & Hlen & Hk & Hmid).
    destruct (IH mid out' final' E2 Hsize) as (Hout & Hlen' & Hin & Hacc). cbn.
    split_and!; [by rewrite Hout|lia|constructor; [lia|done]|]. intros i s' Hs'.
    specialize (Hacc i s' Hs'). unfold placed_at in *. cbn [List.filter].
    destruct (decide (i < length mid)%nat) as [Hi|Hi].
    + rewrite (Hmid i Hi) in Hacc. cbn in Hacc. case_bool_decide as Hb; destruct (decide (i = k)); try congruence.
      subst i. cbn [length] in *. unfold add_account in Hacc. cbn in Hacc.
      enough (st_accounts (default empty_shard (before !! k)) < shard_size) by lia.
      unfold chosen in Hch. destruct (before !! k) as [s|] eqn:Hb'; cbn; [|lia].
      destruct Hch as [Ha _]. unfold Shard.accepts in Ha. lia.
    + rewrite (lookup_ge_None_2 before), (lookup_ge_None_2 mid) in * by lia. cbn in *.
      rewrite bool_decide_eq_false_2 by lia. lia.
Qed.

(** Each member is placed by the rule, given the shards the ones before it left. *)
Lemma place_run_chosen members : ∀ before k m,
  members !! k = Some m →
  ∃ i, (place_run before members).1 !! k = Some i ∧
    chosen (sm_birthday m) (place_run before (take k members)).2 i.
Proof.
  induction members as [|m' members IH]; intros before k m Hk; [done|]. destruct k as [|k]; cbn in *.
  - injection Hk as ->. destruct (place_one (sm_birthday m) before) as [i mid] eqn:E1.
    destruct (place_run mid members) as [out final]. cbn. exists i. split; [done|].
    by apply place_one_spec in E1 as (? & _).
  - destruct (place_one (sm_birthday m') before) as [i mid]. destruct (IH mid k m Hk) as (j & Hj & Hch).
    destruct (place_run mid members) as [out final]. cbn in *.
    destruct (place_run mid (take k members)) as [out' final']. exists j. auto.
Qed.
End placement.

(** ** The layout *)

(** The shard a wallet already has an account in. *)
Definition home (placed : gmap string nat) (existing : list ShardState) (m : ShardMember) : option nat :=
  i ← placed !! sm_name m; if (i <? length existing)%nat then Some i else None.
Definition kept (placed : gmap string nat) (existing : list ShardState) (members : list ShardMember)
    (i : nat) : list ShardMember :=
  List.filter (λ m, bool_decide (home placed existing m = Some i)) members.
Definition homeless (placed : gmap string nat) (existing : list ShardState) (members : list ShardMember) :
    list ShardMember :=
  List.filter (λ m, bool_decide (home placed existing m = None)) members.
(** The members placed at shard [i]. *)
Definition sent_to (i : nat) (pairs : list (ShardMember * nat)) : list ShardMember :=
  fst <$> List.filter (λ p, bool_decide (p.2 = i)) pairs.

Lemma concat_alter_snoc {A} (l : list (list A)) i x :
  (i < length l)%nat → concat (alter (λ ys, ys ++ [x]) i l) ≡ₚ x :: concat l.
Proof.
  revert i. induction l as [|ys l IH]; intros [|i] Hi; cbn in *; [lia..| |].
  - rewrite <- app_assoc. cbn. by rewrite Permutation_middle.
  - rewrite IH by lia. by rewrite Permutation_middle.
Qed.
Lemma concat_replicate_nil {A} n : concat (replicate n ([] : list A)) = [].
Proof. induction n; cbn; auto. Qed.

Lemma keep_placed_home placed existing shards unplaced m :
  length shards = length existing →
  keep_placed placed (shards, unplaced) m =
    match home placed existing m with
    | Some i => (alter (λ ms, ms ++ [m]) i shards, unplaced)
    | None => (shards, unplaced ++ [m])
    end.
Proof.
  intros Hlen. unfold keep_placed, home. rewrite Hlen. destruct (placed !! sm_name m) as [i|]; [|done].
  cbn [mbind option_bind]. by destruct (i <? length existing)%nat.
Qed.
Lemma home_lt placed existing m i : home placed existing m = Some i → (i < length existing)%nat.
Proof.
  unfold home. destruct (placed !! sm_name m) as [k|]; [|done].
  cbn [mbind option_bind]. destruct (k <? length existing)%nat eqn:E; [|done]. intros [= <-]. by apply Nat.ltb_lt.
Qed.

Lemma keep_placed_spec placed existing members : ∀ shards unplaced,
  length shards = length existing →
  let '(shards', unplaced') := fold_left (keep_placed placed) members (shards, unplaced) in
  length shards' = length existing ∧ unplaced' = unplaced ++ homeless placed existing members ∧
  (∀ i, default [] (shards' !! i) = default [] (shards !! i) ++ kept placed existing members i) ∧
  concat shards' ++ unplaced' ≡ₚ concat shards ++ unplaced ++ members.
Proof.
  induction members as [|m members IH]; intros shards unplaced Hlen; cbn [fold_left].
  { unfold kept, homeless. cbn. rewrite !app_nil_r. split_and!; try done. intros i. by rewrite app_nil_r. }
  rewrite (keep_placed_home placed existing) by done. unfold homeless, kept. cbn [List.filter].
  destruct (home placed existing m) as [k|] eqn:Hh.
  - apply home_lt in Hh as Hk. specialize (IH (alter (λ ms, ms ++ [m]) k shards) unplaced).
    rewrite length_alter in IH. specialize (IH Hlen).
    destruct (fold_left _ members _) as [s' u']. destruct IH as (H1 & H2 & H3 & H4).
    split_and!; [done|done| |].
    + intros i. rewrite H3. case_bool_decide as Hki.
      * injection Hki as ->. rewrite list_lookup_alter_eq.
        destruct (lookup_lt_is_Some_2 shards i ltac:(lia)) as [ms ->]. cbn. by rewrite <- app_assoc.
      * rewrite list_lookup_alter_ne by congruence. done.
    + rewrite H4, concat_alter_snoc by lia. solve_Permutation.
  - specialize (IH shards (unplaced ++ [m]) Hlen). destruct (fold_left _ members _) as [s' u'].
    by rewrite <- !app_assoc in IH.
Qed.

Lemma push_members_spec pairs : ∀ shards,
  let shards' := fold_left push_member pairs shards in
  (∀ i, default [] (shards' !! i) = default [] (shards !! i) ++ sent_to i pairs) ∧
  concat shards' ≡ₚ concat shards ++ pairs.*1.
Proof.
  induction pairs as [|[m k] pairs IH]; intros shards; cbn [fold_left].
  { unfold sent_to. cbn. rewrite app_nil_r. split; [|done]. intros i. by rewrite app_nil_r. }
  specialize (IH (push_member shards (m, k))) as [H1 H2]. cbn zeta in *. split.
  - intros i. rewrite H1. unfold sent_to. cbn [List.filter snd]. unfold push_member. cbn [fst snd].
    assert (∀ j, default [] ((shards ++ replicate (S k - length shards) []) !! j) = default [] (shards !! j))
      as Hext.
    { intros j. destruct (decide (j < length shards)%nat).
      - by rewrite lookup_app_l by done.
      - rewrite lookup_app_r by lia. rewrite (lookup_ge_None_2 shards) by lia.
        destruct (replicate _ [] !! _) as [ys|] eqn:E; [|done]. by apply lookup_replicate in E as [-> _]. }
    case_bool_decide as Hki.
    + subst i. rewrite list_lookup_alter_eq. cbn [fmap list_fmap]. rewrite <- Hext.
      destruct (lookup_lt_is_Some_2 (shards ++ replicate (S k - length shards) []) k) as [ms ->].
      { rewrite length_app, length_replicate. lia. }
      cbn. by rewrite <- app_assoc.
    + rewrite list_lookup_alter_ne by done. by rewrite Hext.
  - rewrite H2. unfold push_member. cbn [fst snd]. rewrite concat_alter_snoc.
    + rewrite concat_app, concat_replicate_nil, app_nil_r. cbn. by rewrite Permutation_middle.
    + rewrite length_app, length_replicate. lia.
Qed.

(** *** Directory names *)

Lemma shard_dir_name_inj i j : shard_dir_name i = shard_dir_name j → i = j.
Proof.
  unfold shard_dir_name. intros H%append_inj_l.
  apply (f_equal (dec_val 0)) in H. rewrite !dec_pad_value in H by lia. lia.
Qed.
Lemma shard_path_inj dir i j : shard_path dir i = shard_path dir j → i = j.
Proof. unfold shard_path, in_dir. intros H%append_inj_l%append_inj_l. by apply shard_dir_name_inj. Qed.

Definition as_layout (dir : string) (shards : list (list ShardMember)) : Layout :=
  List.filter (λ s, negb (bool_decide (s.2 = []))) (imap (λ i ms, (shard_path dir i, ms)) shards).

Lemma elem_of_layout dir shards p ms :
  (p, ms) ∈ as_layout dir shards ↔ ms ≠ [] ∧ ∃ i, p = shard_path dir i ∧ shards !! i = Some ms.
Proof.
  unfold as_layout. rewrite elem_of_filter_bool, negb_true_iff, bool_decide_eq_false. cbn.
  apply and_iff_compat_l. rewrite elem_of_lookup_imap. naive_solver.
Qed.
Lemma layout_at dir shards i ms :
  (shard_path dir i, ms) ∈ as_layout dir shards ↔ ms ≠ [] ∧ ms = default [] (shards !! i).
Proof.
  rewrite elem_of_layout. split; intros [Hne H]; (split; [done|]).
  - destruct H as (j & ->%shard_path_inj & Hj). by rewrite Hj.
  - destruct (shards !! i) as [ms'|] eqn:E; cbn in H; subst; [by exists i|done].
Qed.
Lemma concat_layout dir shards : concat (snd <$> as_layout dir shards) = concat shards.
Proof.
  unfold as_layout. enough (∀ k, concat (snd <$> List.filter
    (λ s : string * list ShardMember, negb (bool_decide (s.2 = [])))
    (imap (λ i ms, (shard_path dir (k + i), ms)) shards)) = concat shards) as H by exact (H 0%nat).
  induction shards as [|ms shards IH]; intros k; [done|]. cbn [imap List.filter snd].
  assert (∀ i, k + S i = S k + i)%nat as Hs by lia.
  rewrite (imap_ext _ (λ i ms, (shard_path dir (S k + i), ms))) by (intros; cbn; by rewrite Hs).
  case_bool_decide; cbn [negb fmap list_fmap concat snd]; [subst; apply IH|by rewrite IH].
Qed.
Lemma layout_dirs_nodup dir shards : NoDup (fst <$> as_layout dir shards).
Proof.
  assert (NoDup (fst <$> imap (λ i ms, (shard_path dir i, ms)) shards)) as H.
  { apply NoDup_alt. intros i j x Hi Hj. rewrite list_lookup_fmap, list_lookup_imap in Hi, Hj.
    destruct (shards !! i); [|done]. destruct (shards !! j); [|done]. cbn in *.
    injection Hi as <-. injection Hj as Hj. by apply shard_path_inj in Hj. }
  unfold as_layout. induction (imap _ shards) as [|x l IH]; [done|]. cbn in *.
  inversion H as [|?? Hx Hl]; subst. destruct (negb _); [|auto]. cbn. constructor; [|auto].
  intros (y & Hy & [_ Hin]%elem_of_filter_bool)%list_elem_of_fmap. apply Hx. rewrite Hy.
  by apply list_elem_of_fmap_2.
Qed.

Lemma plan_shards members placed existing config :
  ∃ shards, plan members placed existing config = as_layout (fc_dir config) shards ∧
    concat shards ≡ₚ members ∧
    ∀ i, default [] (shards !! i) = kept placed existing members i ++
           sent_to i (zip (homeless placed existing members)
             (place_members existing (homeless placed existing members)
                (fc_shard_size config) (fc_cohort_depth config))).
Proof.
  unfold plan. pose proof (keep_placed_spec placed existing members (replicate (length existing) []) [])
    as H. rewrite length_replicate in H. specialize (H eq_refl).
  destruct (fold_left (keep_placed placed) members _) as [shards unplaced].
  destruct H as (Hlen & -> & Hkept & Hperm). cbn [app] in *.
  set (pairs := zip _ _). pose proof (push_members_spec pairs shards) as [Hpush Hperm2].
  exists (fold_left push_member pairs shards). split_and!; [done| |].
  - rewrite Hperm2. subst pairs. rewrite fst_zip.
    + by rewrite concat_replicate_nil in Hperm.
    + unfold place_members. clear. generalize (homeless placed existing members) as ms. intros ms.
      generalize existing. induction ms as [|m ms IH]; intros before; [done|]. cbn.
      destruct (place_one _ _ _ before) as [i mid]. specialize (IH mid).
      destruct (place_run _ _ mid ms). cbn in *. lia.
  - intros i. rewrite Hpush, Hkept. f_equal. clear.
    destruct (replicate _ [] !! i) as [ys|] eqn:E; [|done]. by apply lookup_replicate in E as [-> _].
Qed.

(** The layout is exact: whatever manifests there are, every wallet is in one shard and no
    other - the shard its account is in when it has one, else the newest shard that has room and
    whose lowest birthday is not more than the cohort depth above the wallet's, else a new one -
    each shard in a directory of its own; and a shard is never filled past its size by it. *)
Theorem layout_exact (members : list ShardMember) (placed : gmap string nat)
    (existing : list ShardState) (config : FleetConfig) :
  1 ≤ fc_shard_size config →
  let new := homeless placed existing members in
  let run := place_run (fc_shard_size config) (fc_cohort_depth config) existing in
  let layout := plan members placed existing config in
  concat (snd <$> layout) ≡ₚ members ∧ NoDup (fst <$> layout) ∧
  (∀ i ms, (shard_path (fc_dir config) i, ms) ∈ layout ↔
     ms ≠ [] ∧ ms = kept placed existing members i ++ sent_to i (zip new (run new).1)) ∧
  (∀ k m, new !! k = Some m → ∃ i, (run new).1 !! k = Some i ∧
     chosen (fc_shard_size config) (fc_cohort_depth config) (sm_birthday m) (run (take k new)).2 i) ∧
  (∀ i s, (run new).2 !! i = Some s →
     let before := st_accounts (default empty_shard (existing !! i)) in
     st_accounts s = before + placed_at i (run new).1 ∧
     st_accounts s ≤ Z.max before (fc_shard_size config)).
Proof.
  intros Hsize new run layout. subst layout.
  destruct (plan_shards members placed existing config) as (shards & -> & Hperm & Hat). split_and!.
  - by rewrite concat_layout.
  - apply layout_dirs_nodup.
  - intros i ms. rewrite layout_at, Hat. done.
  - intros k m. apply place_run_chosen.
  - intros i s. destruct (run new) as [out final] eqn:E. apply place_run_spec in E as (_ & _ & _ & H); [|done].
    apply H.
Qed.

(** ** Manifests *)

Lemma split_manifest name ext :
  name ≠ "" → all_bytes (λ d, negb (bool_decide (dot = d))) ext = true → ext ≠ "" →
  split_file_at_dot (name +:+ String dot ext) = (Some name, Some ext).
Proof.
  intros Hname Hext Hne. unfold split_file_at_dot. rewrite rsplit_append by done.
  case_bool_decide as Heq.
  - apply (f_equal (rsplit_once dot)) in Heq. rewrite rsplit_append in Heq by done.
    cbn in Heq. injection Heq as _ ->. done.
  - by destruct name.
Qed.
Lemma manifest_stem name : name ≠ "" → file_stem (manifest_file name) = name.
Proof. intros. unfold file_stem, manifest_file. change ".toml" with (String dot "toml"). by rewrite split_manifest. Qed.
Lemma manifest_extension name : name ≠ "" → file_extension (manifest_file name) = Some "toml".
Proof.
  intros. unfold file_extension, manifest_file. change ".toml" with (String dot "toml"). by rewrite split_manifest.
Qed.
Lemma tmp_extension name : file_extension (manifest_tmp name) = Some "tmp".
Proof.
  unfold file_extension, manifest_tmp.
  assert (name +:+ ".toml.tmp" = (name +:+ ".toml") +:+ String dot "tmp") as ->.
  { induction name; cbn; [done|]. by f_equal. }
  rewrite split_manifest; try done. by destruct name.
Qed.
Lemma toml_file file : file_extension file = Some "toml" → file = manifest_file (file_stem file).
Proof.
  unfold file_extension, file_stem, split_file_at_dot. case_bool_decide; [done|].
  destruct (rsplit_once dot file) as [[a b]|] eqn:E; [|done]. apply rsplit_inv in E.
  destruct a as [|d a]; intros [= ->]. exact E.
Qed.

(** Sorting by a key no two elements share forgets the order they came in. *)
Lemma merge_sort_key {A} (key : A → string) (R : relation A) `{∀ x y, Decision (R x y)}
    `{!Transitive R} `{!Total R} (l l' : list A) :
  (∀ x y, R x y → R y x → key x = key y) → l ≡ₚ l' → NoDup (key <$> l) → merge_sort R l = merge_sort R l'.
Proof.
  intros Hkey Hp Hnd. apply (StronglySorted_unique_strong R).
  - intros x y Hx Hy Hxy Hyx. rewrite merge_sort_Permutation in Hx. rewrite merge_sort_Permutation, <- Hp in Hy.
    apply list_elem_of_lookup in Hx as [i Hi], Hy as [j Hj].
    assert (i = j) as ->; [|congruence].
    apply (NoDup_lookup _ i j (key x) Hnd); rewrite list_lookup_fmap, ?Hi, ?Hj; [done|].
    cbn. f_equal. by apply Hkey.
  - apply StronglySorted_merge_sort; apply _.
  - apply StronglySorted_merge_sort; apply _.
  - by rewrite !merge_sort_Permutation.
Qed.

Section load.
Context `{MC : ManifestCodec} (path : string).

#[local] Instance by_name_trans : Transitive by_name.
Proof. unfold by_name. intros a b c Hab Hbc. by etransitivity. Qed.
#[local] Instance by_name_total : Total by_name.
Proof. intros a b. unfold by_name. apply (total String.le). Qed.
#[local] Instance by_path_trans : Transitive by_path.
Proof. unfold by_path. intros a b c Hab Hbc. by etransitivity. Qed.
#[local] Instance by_path_total : Total by_path.
Proof. intros a b. unfold by_path. apply (total String.le). Qed.

Lemma elem_of_entries (files : Manifests) f c :
  (f, c) ∈ manifest_entries files ↔ file_extension f = Some "toml" ∧ files !! f = Some c.
Proof.
  unfold manifest_entries. etransitivity; [apply elem_of_filter_bool|]. cbn.
  rewrite bool_decide_eq_true. apply and_iff_compat_l, elem_of_map_to_list.
Qed.
Lemma entries_nodup (files : Manifests) : NoDup (manifest_entries files).*1.
Proof.
  unfold manifest_entries. pose proof (NoDup_fst_map_to_list files) as H.
  induction (map_to_list files) as [|e l IH]; [done|]. cbn in *. inversion H as [|?? He Hl]; subst.
  destruct (bool_decide _); [|auto]. cbn. constructor; [|auto].
  intros (e' & Heq & [_ Hin]%elem_of_filter_bool)%list_elem_of_fmap. apply He. rewrite Heq.
  by apply list_elem_of_fmap_2.
Qed.

Lemma read_manifest_name f c m : read_manifest path f c = Ok m → sm_name m = file_stem f.
Proof.
  unfold read_manifest. intros (? & _ & (? & _ & (? & _ & [= <-])%bind_Ok_inv)%bind_Ok_inv)%bind_Ok_inv. done.
Qed.
Lemma elem_of_readable files m :
  m ∈ readable path files ↔
  ∃ f c, file_extension f = Some "toml" ∧ files !! f = Some c ∧ read_manifest path f c = Ok m.
Proof.
  unfold readable. rewrite list_elem_of_omap. split.
  - intros ([f c] & [Hext Hf]%elem_of_entries & Hr). cbn in Hr. exists f, c.
    destruct (read_manifest path f c); [|done]. cbn in Hr. by injection Hr as ->.
  - intros (f & c & Hext & Hf & Hr). exists (f, c). rewrite elem_of_entries. cbn. by rewrite Hr.
Qed.
Lemma readable_nodup files : NoDup (sm_name <$> readable path files).
Proof.
  unfold readable. pose proof (entries_nodup files) as H.
  assert (Forall (λ e, file_extension e.1 = Some "toml") (manifest_entries files)) as Hext.
  { apply Forall_forall. intros [f c] [Hf _]%elem_of_entries. done. }
  induction (manifest_entries files) as [|[f c] l IH]; [constructor|]. cbn in *.
  inversion H as [|?? Hf Hl]; subst. inversion Hext as [|?? Hef Hel]; subst.
  destruct (read_manifest path f c) as [m|] eqn:Hr; [|auto]. cbn. constructor; [|auto].
  intros (m' & Hm & ([f' c'] & Hin & Hr')%list_elem_of_omap)%list_elem_of_fmap. cbn in Hr'.
  destruct (read_manifest path f' c') as [m''|] eqn:E; [|done]. injection Hr' as ->.
  apply read_manifest_name in Hr, E. apply Hf. rewrite (toml_file f Hef).
  rewrite <- Hr, Hm, E. rewrite Forall_forall in Hel. specialize (Hel _ Hin). cbn in Hel.
  rewrite <- (toml_file f' Hel). apply list_elem_of_fmap. by exists (f', c').
Qed.
Lemma first_duplicate_none members : NoDup (sm_name <$> members) → first_duplicate members = None.
Proof.
  induction members as [|a [|b l] IH]; [done..|]. cbn. intros [Ha Hl]%NoDup_cons.
  rewrite bool_decide_eq_false_2; [by apply IH|]. intros Hab. apply Ha. rewrite Hab. left.
Qed.
Lemma load_files files :
  load_manifests path (Some (Ok files)) =
    Ok (merge_sort by_name (readable path files), merge_sort by_path (unreadable path files)).
Proof.
  unfold load_manifests. rewrite first_duplicate_none; [done|].
  rewrite (merge_sort_Permutation by_name). apply readable_nodup.
Qed.

(** *** Two directories with the same manifests *)

Lemma entries_ext (files files' : Manifests) :
  (∀ f, file_extension f = Some "toml" → files !! f = files' !! f) →
  manifest_entries files ≡ₚ manifest_entries files'.
Proof.
  intros H. apply NoDup_Permutation; [apply (NoDup_fmap_1 fst), entries_nodup..|].
  intros [f c]. rewrite !elem_of_entries. split; intros [Hf Hc]; (split; [done|]); [by rewrite <- H|by rewrite H].
Qed.
Lemma entries_insert (files : Manifests) f c :
  file_extension f = Some "toml" → files !! f = None →
  manifest_entries (<[f := c]> files) ≡ₚ (f, c) :: manifest_entries files.
Proof.
  intros Hf Hnone. apply NoDup_Permutation; [apply (NoDup_fmap_1 fst), entries_nodup| |].
  { constructor; [|apply (NoDup_fmap_1 fst), entries_nodup]. rewrite elem_of_entries. intros [_ ?]. congruence. }
  intros [f' c']. rewrite elem_of_cons, !elem_of_entries, lookup_insert_Some. split.
  - intros [Hf' [[-> ->]|[Hne Hc]]]; auto.
  - intros [[= -> ->]|[Hf' Hc]]; [auto|]. split; [done|]. right. split; [congruence|done].
Qed.

Lemma unreadable_nodup files : NoDup (sk_path <$> unreadable path files).
Proof.
  unfold unreadable. pose proof (entries_nodup files) as H.
  induction (manifest_entries files) as [|[f c] l IH]; [constructor|]. cbn in *.
  inversion H as [|?? Hf Hl]; subst. destruct (read_manifest path f c) as [|why]; [auto|]. cbn.
  constructor; [|auto].
  intros (s & Hs & ([f' c'] & Hin & Hr')%list_elem_of_omap)%list_elem_of_fmap. cbn in Hr'.
  destruct (read_manifest path f' c'); [done|]. injection Hr' as <-. cbn in Hs.
  unfold in_dir in Hs. apply append_inj_l in Hs. injection Hs as ->. apply Hf.
  apply list_elem_of_fmap. by exists (f', c').
Qed.
Lemma sorted_members (l l' : list ShardMember) :
  l ≡ₚ l' → NoDup (sm_name <$> l) → merge_sort by_name l = merge_sort by_name l'.
Proof. apply (merge_sort_key sm_name by_name). intros x y. apply (anti_symm String.le). Qed.
Lemma sorted_skipped (l l' : list SkippedManifest) :
  l ≡ₚ l' → NoDup (sk_path <$> l) → merge_sort by_path l = merge_sort by_path l'.
Proof. apply (merge_sort_key sk_path by_path). intros x y. apply (anti_symm String.le). Qed.

(** Only the files that end in [.toml] are read. *)
Lemma load_ext (files files' : Manifests) :
  (∀ f, file_extension f = Some "toml" → files !! f = files' !! f) →
  load_manifests path (Some (Ok files)) = load_manifests path (Some (Ok files')).
Proof.
  intros H%entries_ext. rewrite !load_files. do 2 f_equal.
  - apply sorted_members; [|apply readable_nodup]. unfold readable. by rewrite H.
  - apply sorted_skipped; [|apply unreadable_nodup]. unfold unreadable. by rewrite H.
Qed.
Lemma load_insert (files : Manifests) f c m :
  file_extension f = Some "toml" → files !! f = None → read_manifest path f c = Ok m →
  ∃ ms, load_manifests path (Some (Ok (<[f := c]> files))) =
          Ok (ms, merge_sort by_path (unreadable path files)) ∧
    ms ≡ₚ m :: merge_sort by_name (readable path files).
Proof.
  intros Hf Hnone Hr. pose proof (entries_insert files f c Hf Hnone) as Hp. rewrite load_files. eexists.
  split.
  - do 2 f_equal. apply sorted_skipped; [|apply unreadable_nodup]. unfold unreadable. rewrite Hp. cbn.
    by rewrite Hr.
  - rewrite !merge_sort_Permutation. unfold readable. rewrite Hp. cbn. by rewrite Hr.
Qed.
End load.

(** TOML reads back the text of a manifest: a key without a character that needs escaping, and a
    birthday that is a height. *)
Class ManifestCodecLaws `{ManifestCodec} : Prop :=
  manifest_reads_back m : all_bytes is_ascii_alphanumeric (sm_ufvk m) = true → is_u32 (sm_birthday m) →
    manifest_parse (manifest_body m) = Ok (sm_ufvk m, sm_birthday m).

Definition manifest_of (dir : option Manifests) (file : string) : option (result string string) :=
  files ← dir; files !! file.

Lemma name_nonempty name p : check_wallet_name name p = Ok tt → name ≠ "".
Proof. unfold check_wallet_name. by case_bool_decide. Qed.
Lemma check_name_path name p p' : check_wallet_name name p = Ok tt → check_wallet_name name p' = Ok tt.
Proof. unfold check_wallet_name. case_bool_decide; [done|]. by case_match. Qed.

Section write.
Context `{ML : ManifestCodecLaws} (path : string).
#[local] Abbreviation load dir := (load_manifests path (Ok <$> dir)).

Lemma load_dir (dir : option Manifests) :
  load dir = Ok (merge_sort by_name (readable path (default ∅ dir)),
                 merge_sort by_path (unreadable path (default ∅ dir))).
Proof. destruct dir as [files|]; [apply load_files|]. unfold readable, unreadable. done. Qed.

Lemma load_tmp (files : Manifests) name c :
  load_manifests path (Some (Ok (<[manifest_tmp name := c]> files))) = load_manifests path (Some (Ok files)).
Proof.
  apply load_ext. intros f Hf. rewrite lookup_insert_ne; [done|]. intros <-.
  by rewrite tmp_extension in Hf.
Qed.
Lemma load_delete_tmp (files : Manifests) name :
  load_manifests path (Some (Ok (delete (manifest_tmp name) files))) = load_manifests path (Some (Ok files)).
Proof.
  apply load_ext. intros f Hf. rewrite lookup_delete_ne; [done|]. intros <-.
  by rewrite tmp_extension in Hf.
Qed.
Lemma load_default (dir : option Manifests) :
  load_manifests path (Some (Ok (default ∅ dir))) = load dir.
Proof. destruct dir; [done|]. rewrite load_files. done. Qed.

Lemma default_manifest (dir : option Manifests) file : default ∅ dir !! file = manifest_of dir file.
Proof. destruct dir; [done|]. apply lookup_empty. Qed.

(** What a write returns and leaves. *)
Lemma write_manifest_spec (dir : option Manifests) (member : ShardMember) (upto : ManifestWrite) (why : string) :
  let file := manifest_file (sm_name member) in
  let tmp := manifest_tmp (sm_name member) in
  let '(r, dir') := write_manifest path dir member upto why in
  match r with
  | Ok _ => upto = At Keys.AtEnd ∧ manifest_of dir file = None ∧
            dir' = Some (<[file := Ok (manifest_body member)]> (delete tmp (default ∅ dir)))
  | Err _ => ¬ (upto = At Keys.AtEnd ∧ manifest_of dir file = None) ∧ load dir' = load dir ∧
             ∀ f, f ≠ tmp → manifest_of dir' f = manifest_of dir f
  end.
Proof.
  cbn zeta. unfold write_manifest. destruct upto as [|point]; [split_and!; [by intros [? _]|done|done]|].
  rewrite default_manifest. destruct (manifest_of dir (manifest_file (sm_name member))) eqn:Hfile; cbn [is_some].
  { split_and!; [by intros [_ ?]|apply (load_default dir)|intros; apply default_manifest]. }
  assert (∀ c file, file ≠ manifest_tmp (sm_name member) →
    manifest_of (Some (<[manifest_tmp (sm_name member) := c]> (default ∅ dir))) file = manifest_of dir file)
    as Htmp by (intros; cbn; by rewrite lookup_insert_ne, default_manifest).
  destruct point; (split_and!; [first [done|by intros [[=] _]]| |]);
    try (apply (load_default dir)); try (etransitivity; [apply load_tmp|apply load_default]); try (by auto).
  intros. apply default_manifest.
Qed.

(** A manifest is written whole or not at all: wherever the write stops - a failed call or a
    dead machine - the directory then reads exactly as it did; when it succeeds, which is exactly
    when it runs to its end and no wallet of the name had a manifest, the directory reads as it did
    plus that wallet, with its key and birthday, the unreadable files as before; no other file is
    touched; and no directory is ever refused for two wallets of one name. *)
Theorem manifest_survives (dir : option Manifests) (member : ShardMember) (upto : ManifestWrite)
    (why : string) :
  check_wallet_name (sm_name member) path = Ok tt →
  all_bytes is_ascii_alphanumeric (sm_ufvk member) = true → is_u32 (sm_birthday member) →
  ∃ ms sk, load dir = Ok (ms, sk) ∧ NoDup (sm_name <$> ms) ∧
    let '(r, dir') := write_manifest path dir member upto why in
    (r = Ok tt ↔ upto = At Keys.AtEnd ∧ manifest_of dir (manifest_file (sm_name member)) = None) ∧
    match r with
    | Ok _ => ∃ ms', load dir' = Ok (ms', sk) ∧ ms' ≡ₚ member :: ms
    | Err _ => load dir' = Ok (ms, sk)
    end ∧
    ∀ file, file ≠ manifest_tmp (sm_name member) → file ≠ manifest_file (sm_name member) →
      manifest_of dir' file = manifest_of dir file.
Proof.
  intros Hname Hkey Hb. eexists _, _. split; [apply load_dir|]. split.
  { rewrite (merge_sort_Permutation by_name). apply readable_nodup. }
  rewrite <- load_dir. apply name_nonempty in Hname as Hne.
  pose proof (write_manifest_spec dir member upto why) as Hw.
  destruct (write_manifest path dir member upto why) as [[[]|e] dir'].
  2:{ destruct Hw as (Hnot & Hload & Hfiles). split_and!; [naive_solver|done|auto]. }
  destruct Hw as (Hend & Hnone & ->). split_and!; [done| |].
  - assert (read_manifest path (manifest_file (sm_name member)) (Ok (manifest_body member)) = Ok member) as Hr.
    { unfold read_manifest. rewrite manifest_stem by done. erewrite check_name_path by done.
      cbn [mbind result_bind map_err]. rewrite manifest_reads_back by done. by destruct member. }
    destruct (load_insert path (delete (manifest_tmp (sm_name member)) (default ∅ dir)) _ _ _
                (manifest_extension _ Hne)
                ltac:(rewrite lookup_delete_ne, default_manifest; [done|]; intros Heq;
                      pose proof (tmp_extension (sm_name member)) as Hx; rewrite Heq, manifest_extension in Hx; done)
                Hr) as (ms' & Hms & Hp).
    exists ms'. cbn [fmap option_fmap option_map]. rewrite Hms.
    pose proof (load_delete_tmp (default ∅ dir) (sm_name member)) as Hd. rewrite !load_files in Hd.
    injection Hd as Hd1 Hd2. split; [by rewrite Hd2|by rewrite Hp, Hd1].
  - intros file Ht Hf. cbn. rewrite lookup_insert_ne, lookup_delete_ne by done. apply default_manifest.
Qed.

(** The manifest taken back, the directory reads as before it was written. *)
Lemma load_rolled_back (dir : option Manifests) member :
  manifest_of dir (manifest_file (sm_name member)) = None →
  load (delete (manifest_file (sm_name member)) <$>
          Some (<[manifest_file (sm_name member) := Ok (manifest_body member)]>
                  (delete (manifest_tmp (sm_name member)) (default ∅ dir)))) = load dir.
Proof.
  intros Hnone. etransitivity; [|apply load_default].
  etransitivity; [|apply (load_delete_tmp _ (sm_name member))]. cbn [fmap option_fmap option_map].
  apply load_ext. intros f Hf. rewrite delete_insert_eq.
  destruct (decide (f = manifest_file (sm_name member))) as [->|Hne].
  - rewrite lookup_delete_eq. destruct (decide (manifest_file (sm_name member) = manifest_tmp (sm_name member))) as [->|].
    + by rewrite lookup_delete_eq.
    + by rewrite lookup_delete_ne, default_manifest.
  - by rewrite lookup_delete_ne.
Qed.
End write.

(** ** A small instance *)

(** A reader of the manifests [createwallet] writes. *)
Definition written_head : string := "# Written by zecd createwallet." +:+ newline +:+ "ufvk = " +:+ dquote.
Definition written_middle : string := newline +:+ "birthday = ".
Definition parse_written (text : string) : option (string * Z) :=
  rest ← strip_prefix written_head text;
  '(ufvk, rest) ← rsplit_once (ascii_of_nat 34) rest;
  rest ← strip_prefix written_middle rest;
  '(birthday, _) ← rsplit_once (ascii_of_nat 10) rest;
  if all_bytes is_ascii_digit birthday then Some (ufvk, dec_val 0 birthday) else None.
Definition written_codec : ManifestCodec :=
  {| manifest_parse text := ok_or (parse_written text) "not a manifest" |}.

Lemma strip_prefix_append a b : strip_prefix a (a +:+ b) = Some b.
Proof. induction a as [|c a IH]; [by destruct b|]. cbn. by rewrite bool_decide_eq_true_2. Qed.
Lemma digits_without c s : is_ascii_digit c = false → digits s →
  all_bytes (λ d, negb (bool_decide (c = d))) s = true.
Proof.
  intros Hc. induction s as [|d s IH]; [done|]. intros [Hd Hs]%digits_cons. cbn. rewrite IH by done.
  rewrite andb_true_r, negb_true_iff. apply bool_decide_eq_false. intros ->. congruence.
Qed.
Lemma written_codec_laws : @ManifestCodecLaws written_codec.
Proof.
  intros m _ Hb. unfold is_u32 in Hb. cbn [manifest_parse written_codec].
  assert (manifest_body m = written_head +:+ sm_ufvk m +:+ String (ascii_of_nat 34)
            (written_middle +:+ dec (sm_birthday m) +:+ String (ascii_of_nat 10) "")) as ->.
  { unfold manifest_body, written_head, written_middle, quoted, dquote, newline. by rewrite !append_assoc. }
  unfold parse_written. rewrite strip_prefix_append. cbn [mbind option_bind].
  pose proof (dec_digits (sm_birthday m) ltac:(lia)) as Hd.
  rewrite rsplit_append; cbn [mbind option_bind].
  - rewrite strip_prefix_append. cbn [mbind option_bind]. rewrite rsplit_append by done.
    cbn [mbind option_bind]. unfold digits in Hd. rewrite Hd. cbn [ok_or]. by rewrite dec_value by lia.
  - rewrite !all_bytes_append. by rewrite (digits_without _ (dec _)) by done.
Qed.

Definition alice : ShardMember := {| sm_name := "alice"; sm_ufvk := "uviewalice"; sm_birthday := 100 |}.
Definition bob : ShardMember := {| sm_name := "bob"; sm_ufvk := "uviewbob"; sm_birthday := 300 |}.
Definition small_fleet : FleetConfig :=
  {| fc_enabled := true; fc_manifest_dir := "fleet.d"; fc_dir := "fleet"; fc_coin := Zcash;
     fc_shard_size := 1; fc_cohort_depth := 1000 |}.

Lemma layout_exact_witness :
  1 ≤ fc_shard_size small_fleet ∧
  plan [alice; bob] {["bob" := 0%nat]} [add_account 300 empty_shard] small_fleet =
    [("fleet/shard-0000", [bob]); ("fleet/shard-0001", [alice])] ∧
  concat (snd <$> plan [alice; bob] {["bob" := 0%nat]} [add_account 300 empty_shard] small_fleet) ≡ₚ [alice; bob].
Proof.
  split; [done|]. split; [vm_compute; reflexivity|].
  apply (layout_exact [alice; bob] {["bob" := 0%nat]} [add_account 300 empty_shard] small_fleet). done.
Defined.

(** With Bob's manifest there, Alice's is written to its end. *)
Definition bobs_dir : option Manifests := Some {["bob.toml" := Ok (manifest_body bob)]}.
Lemma manifest_survives_witness :
  let '(r, dir') := write_manifest "fleet.d" bobs_dir alice (At Keys.AtEnd) "" in
  r = Ok tt ∧
  ∃ ms, @load_manifests written_codec "fleet.d" (Ok <$> dir') = Ok (ms, []) ∧ ms ≡ₚ [alice; bob].
Proof.
  destruct (@manifest_survives written_codec written_codec_laws "fleet.d" bobs_dir alice (At Keys.AtEnd) "")
    as (ms & sk & Hload & _ & H); [done|vm_compute; reflexivity|done|].
  assert (@load_manifests written_codec "fleet.d" (Ok <$> bobs_dir) = Ok ([bob], [])) as Hbob
    by (vm_compute; reflexivity).
  rewrite Hbob in Hload. injection Hload as <- <-.
  assert (fst (write_manifest "fleet.d" bobs_dir alice (At Keys.AtEnd) "") = Ok tt) as Hr
    by (vm_compute; reflexivity).
  destruct (write_manifest "fleet.d" bobs_dir alice (At Keys.AtEnd) "") as [r dir']. cbn in Hr. subst r.
  split; [done|]. destruct H as (_ & H & _). exact H.
Defined.
