(* ===== verification/OnboardSpec.v ===== *)
(** * OnboardSpec: onboarding, and the invariant of a running fleet

    A fresh shard gets a fresh directory; a shard's actor keeps each member imported, queued or
    refused; an onboarding is all or nothing; and what holds of every fleet that can be reached. *)

From S2P Require Export FleetSpec.

(** ** A fresh directory *)

Lemma next_free_loop_Some fuel dirs d : ∀ index i p,
  next_free_loop fuel dirs d index = Some (i, p) →
  p = shard_path d i ∧ p ∉ dirs ∧ (index ≤ i)%nat.
Proof.
  induction fuel as [|fuel IH]; intros index i p; [done|]. cbn. case_bool_decide as Hin.
  - intros (? & ? & ?)%IH. split_and!; [done..|lia].
  - intros [= <- <-]. auto.
Qed.
Lemma next_free_loop_None fuel dirs d : ∀ index,
  next_free_loop fuel dirs d index = None →
  ∀ k, (k < fuel)%nat → shard_path d (index + k) ∈ dirs.
Proof.
  induction fuel as [|fuel IH]; intros index H k Hk; [lia|]. cbn in H. case_bool_decide as Hin; [|done].
  destruct k as [|k]; [by rewrite Nat.add_0_r|]. rewrite Nat.add_succ_r. apply (IH (S index)); [done|lia].
Qed.
(** The fuel is enough: fewer directories exist than are looked at. *)
Lemma next_free_exists dirs d from : ∃ i, next_free_shard_dir dirs d from = Some (i, shard_path d i) ∧
  shard_path d i ∉ dirs.
Proof.
  unfold next_free_shard_dir. destruct (next_free_loop _ dirs d from) as [[i p]|] eqn:E.
  - apply next_free_loop_Some in E as (-> & Hp & _). by exists i.
  - exfalso. set (paths := shard_path d <$> seq from (S (size dirs))).
    assert (NoDup paths) as Hnd.
    { apply NoDup_fmap_2; [|apply NoDup_seq]. intros i j. apply shard_path_inj. }
    assert (list_to_set paths ⊆ dirs) as Hsub.
    { intros p (i & -> & Hi)%elem_of_list_to_set%list_elem_of_fmap.
      apply elem_of_seq in Hi. replace i with (from + (i - from))%nat by lia.
      eapply next_free_loop_None; [exact E|lia]. }
    apply subseteq_size in Hsub. rewrite size_list_to_set in Hsub by done.
    subst paths. rewrite length_fmap, length_seq in Hsub. lia.
Qed.

(** ** The actor of a shard *)

Section fleet.
Context `{SL : ShardLibrary} `{MC : ManifestCodec}.

Definition queued (a : ShardActor) (name : string) : Prop := name ∈ sm_name <$> act_pending a.

(** Every member is imported, waiting, or refused with its reason on record, and only one of
    these; none waits twice. *)
Record actor_ok (members : gset string) (a : ShardActor) : Prop := {
  ao_shard : act_is_shard a = true;
  ao_members name : name ∈ members ↔
    is_Some (act_accounts a !! name) ∨ queued a name ∨ is_Some (act_import_errors a !! name);
  ao_imported name : is_Some (act_accounts a !! name) → ¬ queued a name ∧ act_import_errors a !! name = None;
  ao_queued name : queued a name → act_import_errors a !! name = None;
  ao_queue : NoDup (sm_name <$> act_pending a);
}.

Lemma add_shard_member_cases a m :
  let name := sm_name m in
  match add_shard_member a m with
  | (Ok _, a') => act_is_shard a = true ∧ act_accounts a !! name = None ∧ ¬ queued a name ∧
                  a' = with_shard a (act_accounts a) (act_pending a ++ [m]) (delete name (act_import_errors a))
  | (Err _, a') => a' = a
  end.
Proof.
  unfold add_shard_member. cbn zeta. destruct (act_is_shard a); cbn [negb]; [|done].
  destruct (act_accounts a !! sm_name m) eqn:E; cbn [is_some orb]; [done|].
  destruct (existsb _ _) eqn:Hq; [done|]. split_and!; try done.
  unfold queued. intros (m' & Hm & Hin)%list_elem_of_fmap.
  assert (existsb (λ m0, bool_decide (sm_name m0 = sm_name m)) (act_pending a) = true); [|congruence].
  apply existsb_exists. exists m'. split; [by apply list_elem_of_In|]. by apply bool_decide_eq_true.
Qed.

Lemma queued_app a accounts errors m name :
  queued (with_shard a accounts (act_pending a ++ [m]) errors) name ↔ queued a name ∨ name = sm_name m.
Proof. unfold queued. cbn. rewrite fmap_app. set_solver. Qed.

Lemma accepted_ok members a m a' :
  actor_ok members a → add_shard_member a m = (Ok tt, a') → actor_ok ({[sm_name m]} ∪ members) a'.
Proof.
  intros [Hs Hm Hi Hq Hnd] Hadd. pose proof (add_shard_member_cases a m) as Hc. cbn zeta in Hc.
  rewrite Hadd in Hc. destruct Hc as (_ & Hnone & Hnq & ->). split.
  - done.
  - intros name. rewrite queued_app, elem_of_union, elem_of_singleton, Hm. cbn.
    destruct (decide (name = sm_name m)) as [->|Hne]; [naive_solver|].
    rewrite lookup_delete_ne by done. naive_solver.
  - intros name Ha. cbn in Ha. rewrite queued_app. destruct (Hi name Ha) as [H1 H2]. cbn. split.
    + intros [?| ->]; [done|]. rewrite Hnone in Ha. by destruct Ha.
    + destruct (decide (name = sm_name m)) as [->|]; [by rewrite lookup_delete_eq|by rewrite lookup_delete_ne].
  - intros name. rewrite queued_app. cbn. destruct (decide (name = sm_name m)) as [->|].
    + by rewrite lookup_delete_eq.
    + rewrite lookup_delete_ne by done. naive_solver.
  - cbn. rewrite fmap_app. apply NoDup_app. split_and!; [done| |apply NoDup_singleton].
    intros x Hx ->%list_elem_of_singleton. done.
Qed.

Lemma imported_ok members a m rest id :
  act_pending a = m :: rest → actor_ok members a → actor_ok members (account_imported a id).
Proof.
  intros Hp [Hs Hm Hi Hq Hnd]. unfold account_imported. rewrite Hp. unfold queued in *. rewrite Hp in *. cbn in *.
  apply NoDup_cons in Hnd as [Hnot Hnd]. split; unfold queued; cbn; try done.
  - intros name. rewrite Hm. destruct (decide (name = sm_name m)) as [->|Hne].
    + rewrite lookup_insert_eq. set_solver.
    + rewrite lookup_insert_ne by done. set_solver.
  - intros name. destruct (decide (name = sm_name m)) as [->|Hne].
    + intros _. split; [done|]. apply Hq. left.
    + rewrite lookup_insert_ne by done. intros [H1 H2]%Hi. split; [|done]. set_solver.
  - intros name Hin. apply Hq. by right.
Qed.
Lemma dropped_ok members a m rest reason :
  act_pending a = m :: rest → actor_ok members a → actor_ok members (drop_pending a reason).
Proof.
  intros Hp [Hs Hm Hi Hq Hnd]. unfold drop_pending. rewrite Hp. unfold queued in *. rewrite Hp in *. cbn in *.
  apply NoDup_cons in Hnd as [Hnot Hnd].
  assert (act_accounts a !! sm_name m = None) as Hna.
  { destruct (act_accounts a !! sm_name m) eqn:E; [|done]. destruct (Hi (sm_name m)) as [H1 _]; [by rewrite E|].
    exfalso. apply H1. left. }
  split; unfold queued; cbn; try done.
  - intros name. rewrite Hm. destruct (decide (name = sm_name m)) as [->|Hne].
    + rewrite lookup_insert_eq. set_solver.
    + rewrite lookup_insert_ne by done. set_solver.
  - intros name Hn. destruct (decide (name = sm_name m)) as [->|Hne].
    + rewrite Hna in Hn. by destruct Hn.
    + rewrite lookup_insert_ne by done. destruct (Hi name Hn) as [H1 H2]. split; [|done]. set_solver.
  - intros name Hin. destruct (decide (name = sm_name m)) as [->|Hne]; [done|].
    rewrite lookup_insert_ne by done. apply Hq. by right.
Qed.
Lemma import_ok n tip connected ts imp members a :
  actor_ok members a → actor_ok members (import_pending_shard_members n tip connected ts imp a).1.
Proof.
  intros Ha. unfold import_pending_shard_members. destruct (act_pending a) as [|m rest] eqn:Hp; [done|].
  destruct tip as [tip|]; [|done]. destruct connected; [|done]. destruct (ts _); [|done].
  destruct (from_treestate _ tip); [|by eapply dropped_ok].
  destruct (import_member _ _ _ _); [by eapply imported_ok|by eapply dropped_ok].
Qed.

(** A shard starts with each of its members imported or waiting. *)
Lemma reconcile_members_spec n by_ufvk by_name members : ∀ acc r,
  reconcile_members n by_ufvk by_name members acc = Ok r →
  let names acc name := is_Some (rc_adopted acc !! name) ∨ name ∈ sm_name <$> rc_pending acc in
  (∀ name, names r name ↔ names acc name ∨ name ∈ sm_name <$> members) ∧
  (NoDup (sm_name <$> members) → (∀ name, name ∈ sm_name <$> members → ¬ names acc name) →
   NoDup (sm_name <$> rc_pending acc) →
   (∀ name, is_Some (rc_adopted acc !! name) → name ∉ sm_name <$> rc_pending acc) →
   NoDup (sm_name <$> rc_pending r) ∧
   ∀ name, is_Some (rc_adopted r !! name) → name ∉ sm_name <$> rc_pending r).
Proof.
  induction members as [|m members IH]; intros acc r; cbn [reconcile_members].
  { intros [= <-]. cbn. split; [set_solver|auto]. }
  intros (k & _ & H)%bind_Ok_inv. cbn zeta.
  destruct (by_ufvk !! ufvk_encode n k) as [id|].
  - apply IH in H as [H1 H2]. cbn [rc_adopted rc_pending] in *. split.
    + intros name. rewrite H1. cbn. rewrite elem_of_cons.
      destruct (decide (name = sm_name m)) as [->|]; [rewrite lookup_insert_eq; naive_solver|].
      rewrite lookup_insert_ne by done. naive_solver.
    + cbn. intros [Hm Hnd]%NoDup_cons Hdis Hq Hex. apply H2; [done| |done|].
      * intros name Hin [Ha|Ha].
        -- destruct (decide (name = sm_name m)) as [->|]; [done|]. rewrite lookup_insert_ne in Ha by done.
           apply (Hdis name); [by right|by left].
        -- apply (Hdis name); [by right|by right].
      * intros name. destruct (decide (name = sm_name m)) as [->|].
        -- intros _ Hin. apply (Hdis (sm_name m)); [left|by right].
        -- rewrite lookup_insert_ne by done. apply Hex.
  - destruct (is_some _); [done|]. apply IH in H as [H1 H2]. cbn [rc_adopted rc_pending] in *. split.
    + intros name. rewrite H1, fmap_app. cbn. set_solver.
    + cbn. intros [Hm Hnd]%NoDup_cons Hdis Hq Hex. rewrite fmap_app in H2. apply H2; [done| | |].
      * intros name Hin [Ha|Ha]; [apply (Hdis name); [by right|by left]|].
        apply elem_of_app in Ha as [Ha|Ha%list_elem_of_singleton]; [|by subst].
        apply (Hdis name); [by right|by right].
      * apply NoDup_app. split_and!; [done| |apply NoDup_singleton].
        intros x Hx ->%list_elem_of_singleton. apply (Hdis (sm_name m)); [left|by right].
      * intros name Ha [Hin|Hin%list_elem_of_singleton]%elem_of_app; [by eapply Hex|].
        cbn in Hin. subst name. apply (Hdis (sm_name m)); [left|by left].
Qed.

Lemma started_ok n db members r :
  reconcile_accounts n db members = Ok r → members ≠ [] → NoDup (sm_name <$> members) →
  actor_ok (list_to_set (sm_name <$> members)) (shard_actor members r).
Proof.
  unfold reconcile_accounts. intros (accounts & _ & H)%bind_Ok_inv Hne Hnd.
  destruct (fold_left _ accounts _) as [by_ufvk by_name].
  apply reconcile_members_spec in H as [H1 H2]. cbn in H1, H2.
  destruct H2 as [Hq Hex]; [done| |constructor| |].
  - intros name _ [[? ?]|?]; set_solver.
  - intros name [? ?]. set_solver.
  - split; unfold queued; cbn.
    + by rewrite bool_decide_eq_false_2.
    + intros name. rewrite elem_of_list_to_set, !lookup_empty. specialize (H1 name).
      assert (¬ is_Some (None : option Z)) as Hz by by intros [? ?].
      assert (¬ is_Some (None : option string)) as Hs by by intros [? ?].
      rewrite lookup_empty in H1. set_solver.
    + intros name Ha. split; [by apply Hex|done].
    + done.
    + done.
Qed.

(** ** Placing one wallet *)

(** The ways a placement ends well. *)
Inductive placed_by (fl : Fleet) (m : ShardMember) : WalletHandle → Fleet → Prop :=
  | pb_served i rt :
      fl_shards fl !! i = Some rt → sm_name m ∈ rt_members rt →
      placed_by fl m (sibling rt (sm_name m)) fl
  | pb_requeued i rt a :
      fl_shards fl !! i = Some rt → sm_name m ∈ rt_members rt → add_shard_member (rt_actor rt) m = (Ok tt, a) →
      placed_by fl m (sibling (with_actor rt a) (sm_name m))
        (with_shards fl (<[i := with_actor rt a]> (fl_shards fl)))
  | pb_joined i rt a :
      shard_holding fl (sm_name m) = None → fl_shards fl !! i = Some rt →
      add_shard_member (rt_actor rt) m = (Ok tt, a) →
      placed_by fl m (sibling (with_member rt a m) (sm_name m))
        (with_shards fl (<[i := with_member rt a m]> (fl_shards fl)))
  | pb_opened i r db w :
      let dir := shard_path (fc_dir (fl_config fl)) i in
      let a := shard_actor [m] r in
      shard_holding fl (sm_name m) = None → dir ∉ fl_dirs fl →
      reconcile_accounts (tp_network (fl_template fl)) db [m] = Ok r →
      wh_is_shard w = true →
      w = sibling {| rt_dir := dir; rt_members := {[sm_name m]}; rt_prototype := w; rt_actor := a;
                     rt_accounts := 1; rt_lowest_birthday := Some (sm_birthday m) |} (sm_name m) →
      placed_by fl m w
        (with_new_shard (with_dir fl dir) (shard_dir_name i)
           {| rt_dir := dir; rt_members := {[sm_name m]}; rt_prototype := w; rt_actor := a;
              rt_accounts := 1; rt_lowest_birthday := Some (sm_birthday m) |}).

Lemma dispatch_Ok a m a' : dispatch_add_shard_member a m = (Ok tt, a') → add_shard_member a m = (Ok tt, a').
Proof. unfold dispatch_add_shard_member. by destruct (act_alive a). Qed.
Lemma ask_shard_Ok rt m accepted rt' :
  ask_shard rt m accepted = Ok rt' →
  ∃ a, add_shard_member (rt_actor rt) m = (Ok tt, a) ∧ rt' = accepted rt a.
Proof.
  unfold ask_shard. destruct (dispatch_add_shard_member (rt_actor rt) m) as [[[]|e] a] eqn:E; [|done].
  intros [= <-]. exists a. split; [|done]. by apply dispatch_Ok.
Qed.
Lemma shard_holding_Some fl name i rt :
  shard_holding fl name = Some (i, rt) → fl_shards fl !! i = Some rt ∧ name ∈ rt_members rt.
Proof. unfold shard_holding. intros (? & ? & _)%list_find_Some. done. Qed.
Lemma shard_holding_None fl name :
  shard_holding fl name = None → ∀ i rt, fl_shards fl !! i = Some rt → name ∉ rt_members rt.
Proof.
  unfold shard_holding. intros H%list_find_None i rt Hi. rewrite Forall_forall in H. apply H.
  by eapply list_elem_of_lookup_2.
Qed.

Lemma place_spec env fl m :
  match place env fl m with
  | (Ok w, fl') => placed_by fl m w fl'
  | (Err _, fl') => fl' = fl ∨ ∃ dir, fl' = with_dir fl dir
  end.
Proof.
  unfold place. destruct (shard_holding fl (sm_name m)) as [[i rt]|] eqn:Hh.
  - apply shard_holding_Some in Hh as [Hi Hin]. unfold reload. destruct (import_refused _ _).
    + destruct (ask_shard rt m with_actor) as [rt'|e] eqn:E; [|by left].
      apply ask_shard_Ok in E as (a & Ha & ->). by eapply pb_requeued.
    + by eapply pb_served.
  - set (index := default _ _). destruct (fl_shards fl !! index) as [rt|] eqn:Hi.
    + unfold join_shard. destruct (ask_shard rt m _) as [rt'|e] eqn:E; [|by left].
      apply ask_shard_Ok in E as (a & Ha & ->). by eapply pb_joined.
    + unfold open_shard.
      destruct (next_free_exists (fl_dirs fl) (fc_dir (fl_config fl)) index) as (k & -> & Hk).
      destruct (en_mkdir env); [|by left]. unfold spawn_shard.
      destruct (reconcile_accounts _ _ [m]) as [r|e] eqn:Hr; cbn [mbind result_bind]; [|right; by eexists].
      cbn [fmap list_fmap]. eapply pb_opened; [done|done|done|done|].
      reflexivity.
Qed.

(** The published record is the actor's. *)
Lemma import_refused_actor rt name : import_refused rt name = is_some (act_import_errors (rt_actor rt) !! name).
Proof.
  unfold import_refused. cbn. destruct (act_import_errors (rt_actor rt) !! name) as [e|] eqn:E.
  - apply bool_decide_eq_true, list_elem_of_fmap. exists (name, e). split; [done|]. by apply elem_of_map_to_list.
  - apply bool_decide_eq_false. intros ([n e] & -> & Hin%elem_of_map_to_list)%list_elem_of_fmap. cbn in E. congruence.
Qed.

(** *** What a placement does to the shards *)

(** A shard after a member was sent to it. *)
Definition grown (m : ShardMember) (rt rt' : ShardRuntime) : Prop :=
  rt' = rt ∨
  (rt_dir rt' = rt_dir rt ∧ rt_members rt' = {[sm_name m]} ∪ rt_members rt ∧
   rt_actor rt' = with_shard (rt_actor rt) (act_accounts (rt_actor rt)) (act_pending (rt_actor rt) ++ [m])
                    (delete (sm_name m) (act_import_errors (rt_actor rt)))).

Lemma placed_fields fl m w fl' :
  placed_by fl m w fl' →
  wh_name w = sm_name m ∧ fl_registry fl' = fl_registry fl ∧ fl_manifests fl' = fl_manifests fl ∧
  fl_config fl' = fl_config fl ∧
  (∃ i rt, fl_shards fl' !! i = Some rt ∧ sm_name m ∈ rt_members rt ∧ w = sibling rt (sm_name m)) ∧
  ∀ i rt, fl_shards fl !! i = Some rt → ∃ rt', fl_shards fl' !! i = Some rt' ∧ grown m rt rt'.
Proof.
  intros H. destruct H as [i rt Hi Hin|i rt a Hi Hin Ha|i rt a Hh Hi Ha|i r db w dir a Hh Hd Hr Hs Hw]; cbn.
  - split_and!; try done; [by exists i, rt|]. intros j rt' Hj. exists rt'. split; [done|by left].
  - pose proof (add_shard_member_cases (rt_actor rt) m) as Hc. cbn zeta in Hc. rewrite Ha in Hc.
    destruct Hc as (_ & _ & _ & ->). apply lookup_lt_Some in Hi as Hlt. split_and!; try done.
    + eexists i, _. rewrite list_lookup_insert_eq by done. split; [done|]. done.
    + intros j rt' Hj. destruct (decide (j = i)) as [->|].
      * rewrite list_lookup_insert_eq by done. eexists. split; [done|]. right. cbn.
        rewrite Hi in Hj. injection Hj as <-. split_and!; try done. set_solver.
      * rewrite list_lookup_insert_ne by done. exists rt'. split; [done|by left].
  - pose proof (add_shard_member_cases (rt_actor rt) m) as Hc. cbn zeta in Hc. rewrite Ha in Hc.
    destruct Hc as (_ & _ & _ & ->). apply lookup_lt_Some in Hi as Hlt. split_and!; try done.
    + eexists i, _. rewrite list_lookup_insert_eq by done. split; [done|]. split; [cbn; set_solver|done].
    + intros j rt' Hj. destruct (decide (j = i)) as [->|].
      * rewrite list_lookup_insert_eq by done. eexists. split; [done|]. right. cbn.
        rewrite Hi in Hj. by injection Hj as <-.
      * rewrite list_lookup_insert_ne by done. exists rt'. split; [done|by left].
  - split_and!; try done; [by rewrite Hw|..].
    + eexists (length (fl_shards fl)), _. rewrite list_lookup_middle by done. split; [done|]. split; [cbn; set_solver|done].
    + intros j rt' Hj. exists rt'. split; [|by left]. apply lookup_app_l_Some. done.
Qed.

(** ** Onboarding *)

#[local] Abbreviation load fl := (load_manifests (fc_manifest_dir (fl_config fl)) (Ok <$> fl_manifests fl)).

Lemma with_manifests_same fl : with_manifests fl (fl_manifests fl) = fl.
Proof. by destruct fl. Qed.

(** C30. Onboarding is all or nothing: when it succeeds the wallet, not served before, is held by a
    shard and served under its name by that shard's handle - its database, its status and its
    actor's accounts -, its manifest - when it was to be written - is the whole
    of it, and every shard keeps its accounts, its directory and its other members; when it fails
    nothing is served that was not, no shard has changed, and, unless the manifest could not be
    taken back, the manifest directory reads as it did; and a name that is taken or cannot be
    addressed, or a key that does not decode, is refused before anything is touched. *)
Theorem onboard_all_or_nothing (env : FleetEnv) (fl : Fleet) (member : ShardMember) (persist : bool) :
  let name := sm_name member in
  let file := manifest_file name in
  match onboard env fl member persist with
  | (Ok _, fl') =>
      registry_contains (fl_registry fl) name = false ∧
      (∃ i rt, fl_shards fl' !! i = Some rt ∧ name ∈ rt_members rt ∧
         fl_registry fl' = registry_insert (fl_registry fl) (sibling rt name)) ∧
      (∀ i rt, fl_shards fl !! i = Some rt → ∃ rt', fl_shards fl' !! i = Some rt' ∧ grown member rt rt') ∧
      if persist
      then manifest_of (fl_manifests fl) file = None ∧
           manifest_of (fl_manifests fl') file = Some (Ok (manifest_body member))
      else fl_manifests fl' = fl_manifests fl
  | (Err e, fl') =>
      fl_registry fl' = fl_registry fl ∧ fl_shards fl' = fl_shards fl ∧
      (persist && negb (en_remove env) = false → load fl' = load fl) ∧
      match e with OnboardFailed _ => True | _ => fl' = fl end
  end.
Proof.
  cbn zeta. unfold onboard. destruct (registry_contains (fl_registry fl) (sm_name member)) eqn:Hreg; [done|].
  destruct (check_wallet_name _ _); [|done]. destruct (decode_ufvk member _); [|done].
  set (p := fc_manifest_dir (fl_config fl)).
  assert (∀ r fl1, place env fl1 member = r → fl_registry fl1 = fl_registry fl → fl_shards fl1 = fl_shards fl →
            fl_config fl1 = fl_config fl →
            match r with
            | (Ok w, fl2) => fl_registry fl2 = fl_registry fl ∧
                fl_manifests fl2 = fl_manifests fl1 ∧
                (∃ i rt, fl_shards fl2 !! i = Some rt ∧ sm_name member ∈ rt_members rt ∧ w = sibling rt (sm_name member)) ∧
                ∀ i rt, fl_shards fl !! i = Some rt → ∃ rt', fl_shards fl2 !! i = Some rt' ∧ grown member rt rt'
            | (Err _, fl2) => fl_registry fl2 = fl_registry fl ∧ fl_shards fl2 = fl_shards fl ∧
                fl_manifests fl2 = fl_manifests fl1 ∧ fl_config fl2 = fl_config fl
            end) as Hplace.
  { intros r fl1 <- H1 H2 H3. pose proof (place_spec env fl1 member) as Hp.
    destruct (place env fl1 member) as [[w|e] fl2].
    - apply placed_fields in Hp as (? & ? & ? & _ & ? & ?). rewrite <- H1, <- H2. auto.
    - by destruct Hp as [->|[dir ->]]. }
  destruct persist; cbn [andb].
  - pose proof (write_manifest_spec p (fl_manifests fl) member (en_write env) (en_write_why env)) as Hw.
    cbn zeta in Hw. destruct (write_manifest _ _ _ _ _) as [[[]|e] manifests].
    2:{ destruct Hw as (_ & Hload & _). by split_and!. }
    destruct Hw as (_ & Hnone & ->).
    specialize (Hplace _ (with_manifests fl (Some (<[manifest_file (sm_name member) := Ok (manifest_body member)]>
      (delete (manifest_tmp (sm_name member)) (default ∅ (fl_manifests fl)))))) eq_refl eq_refl eq_refl eq_refl).
    destruct (place env _ member) as [[w|e] fl2].
    + destruct Hplace as (Hr & Hm & (i & rt & Hi & Hin & ->) & Hall). cbn. split_and!; try done.
      * exists i, rt. by rewrite Hr.
      * rewrite Hm. cbn. by rewrite lookup_insert_eq.
    + destruct Hplace as (Hr & Hs & Hm & Hc). unfold roll_back. destruct (en_remove env); cbn [negb].
      * cbn. split_and!; try done. intros _. rewrite Hc, Hm. by apply load_rolled_back.
      * by split_and!.
  - specialize (Hplace _ (with_manifests fl (fl_manifests fl)) eq_refl eq_refl eq_refl eq_refl).
    destruct (place env _ member) as [[w|e] fl2].
    + destruct Hplace as (Hr & Hm & (i & rt & Hi & Hin & ->) & Hall). cbn. split_and!; try done. exists i, rt. by rewrite Hr.
    + destruct Hplace as (Hr & Hs & Hm & Hc). by rewrite Hc, Hm.
Qed.

(** ** The invariant *)

Definition shard_ok (rt : ShardRuntime) : Prop :=
  actor_ok (rt_members rt) (rt_actor rt) ∧ wh_is_shard (rt_prototype rt) = true ∧
  rt_accounts rt = Z.of_nat (size (rt_members rt)).

(** The shards are each in order, in directories of their own on the disk, and hold no wallet
    twice. *)
Record shards_ok (shards : list ShardRuntime) (dirs : gset string) : Prop := {
  so_each : Forall shard_ok shards;
  so_dirs : NoDup (rt_dir <$> shards);
  so_disk : Forall (λ rt, rt_dir rt ∈ dirs) shards;
  so_once i j rt rt' name : shards !! i = Some rt → shards !! j = Some rt' →
    name ∈ rt_members rt → name ∈ rt_members rt' → i = j;
}.
(** Every view wallet served is held by a shard. *)
Definition served_held (fl : Fleet) : Prop :=
  ∀ name w, wr_wallets (fl_registry fl) !! name = Some w → wh_is_shard w = true →
    ∃ i rt, fl_shards fl !! i = Some rt ∧ name ∈ rt_members rt.

Lemma shards_ok_append shards dirs dirs' rt :
  shards_ok shards dirs → shard_ok rt → rt_dir rt ∉ rt_dir <$> shards →
  (∀ i rt' name, shards !! i = Some rt' → name ∈ rt_members rt' → name ∉ rt_members rt) →
  dirs ⊆ dirs' → rt_dir rt ∈ dirs' → shards_ok (shards ++ [rt]) dirs'.
Proof.
  intros [H1 H2 H3 H4] Hrt Hd Hnew Hsub Hin. split.
  - apply Forall_app. auto.
  - rewrite fmap_app. apply NoDup_app. split_and!; [done| |apply NoDup_singleton].
    intros d Hd' ->%list_elem_of_singleton. done.
  - apply Forall_app. split; [|by constructor]. eapply Forall_impl; [exact H3|]. set_solver.
  - intros i j x y name Hi Hj Hx Hy.
    apply lookup_app_Some in Hi as [Hi|[Hi1 Hi2]], Hj as [Hj|[Hj1 Hj2]].
    + by eapply H4.
    + apply list_lookup_singleton_Some in Hj2 as [Hj2 <-]. exfalso. by eapply Hnew.
    + apply list_lookup_singleton_Some in Hi2 as [Hi2 <-]. exfalso. by eapply Hnew.
    + apply list_lookup_singleton_Some in Hi2 as [Hi2 _], Hj2 as [Hj2 _]. lia.
Qed.

Lemma shards_ok_update shards dirs i rt rt' extra :
  shards_ok shards dirs → shards !! i = Some rt → shard_ok rt' → rt_dir rt' = rt_dir rt →
  rt_members rt' = extra ∪ rt_members rt →
  (∀ j x name, shards !! j = Some x → name ∈ extra → name ∈ rt_members x → j = i) →
  shards_ok (<[i := rt']> shards) dirs.
Proof.
  intros [H1 H2 H3 H4] Hi Hrt Hd Hm Hex. apply lookup_lt_Some in Hi as Hlt. split.
  - by apply Forall_insert.
  - rewrite list_fmap_insert, list_insert_id; [done|]. by rewrite list_lookup_fmap, Hi, Hd.
  - apply Forall_insert; [done|]. rewrite Hd. rewrite Forall_lookup in H3. by eapply H3.
  - intros a b x y name Ha Hb Hx Hy.
    apply list_lookup_insert_Some in Ha as [(<- & <- & _)|[Hia Ha]], Hb as [(<- & <- & _)|[Hib Hb]]; try done.
    + rewrite Hm in Hx. apply elem_of_union in Hx as [Hx|Hx]; [symmetry; by eapply Hex|by eapply H4].
    + rewrite Hm in Hy. apply elem_of_union in Hy as [Hy|Hy]; [by eapply Hex|by eapply H4].
    + by eapply H4.
Qed.

Lemma size_insert_new (name : string) (members : gset string) :
  name ∉ members → Z.of_nat (size ({[name]} ∪ members)) = Z.of_nat (size members) + 1.
Proof. intros H. rewrite size_union by set_solver. rewrite size_singleton. lia. Qed.

Lemma placed_ok fl m w fl' :
  placed_by fl m w fl' → shards_ok (fl_shards fl) (fl_dirs fl) →
  shards_ok (fl_shards fl') (fl_dirs fl') ∧ wh_is_shard w = true.
Proof.
  intros H Hok.
  assert (∀ i rt, fl_shards fl !! i = Some rt → shard_ok rt) as Heach.
  { intros i rt Hi. pose proof (so_each _ _ Hok) as Ho. rewrite Forall_lookup in Ho. by eapply Ho. }
  destruct H as [i rt Hi Hin|i rt a Hi Hin Ha|i rt a Hh Hi Ha|i r db w dir a Hh Hd Hr Hs Hw]; cbn.
  - split; [done|]. by destruct (Heach i rt Hi) as (_ & ? & _).
  - destruct (Heach i rt Hi) as (Hact & Hp & Hc). split; [|done].
    apply (shards_ok_update _ _ i rt _ ∅); try done; [|set_solver..].
    split_and!; try done. cbn. apply accepted_ok with (members := rt_members rt) in Ha; [|done].
    replace (rt_members rt) with ({[sm_name m]} ∪ rt_members rt) by set_solver. done.
  - destruct (Heach i rt Hi) as (Hact & Hp & Hc). split; [|done].
    pose proof (shard_holding_None _ _ Hh) as Hnone.
    apply (shards_ok_update _ _ i rt _ {[sm_name m]}); try done.
    + split_and!; [cbn; by eapply accepted_ok|done|]. cbn. rewrite Hc, size_insert_new; [done|by eapply Hnone].
    + intros j x name Hj ->%elem_of_singleton Hx. exfalso. by eapply Hnone.
  - split; [|done]. apply (shards_ok_append _ (fl_dirs fl)); try done; cbn.
    + split_and!; [|done|cbn; by rewrite size_singleton].
      pose proof (started_ok _ _ _ _ Hr) as Hst. cbn in Hst. rewrite union_empty_r_L in Hst.
      apply Hst; [done|apply NoDup_singleton].
    + intros (x & Hx & Hin)%list_elem_of_fmap. apply Hd. rewrite Hx.
      pose proof (so_disk _ _ Hok) as Hdisk. rewrite Forall_forall in Hdisk. by apply Hdisk.
    + intros j x name Hj Hx ->%elem_of_singleton. by eapply shard_holding_None.
    + set_solver.
    + set_solver.
Qed.

(** *** Runs *)

(** What happens to a running fleet: an onboarding, a wallet unloaded, a pass of a shard's actor
    over its queue, an actor that stops. *)
Inductive fleet_step (fl : Fleet) : Fleet → Prop :=
  | fs_onboard env m persist : fleet_step fl (snd (onboard env fl m persist))
  | fs_unload name : fleet_step fl (with_registry fl (snd (registry_remove (fl_registry fl) name)))
  | fs_import i rt n tip connected ts imp :
      fl_shards fl !! i = Some rt →
      fleet_step fl (with_shards fl
        (<[i := with_actor rt (import_pending_shard_members n tip connected ts imp (rt_actor rt)).1]>
           (fl_shards fl)))
  | fs_stop i rt :
      fl_shards fl !! i = Some rt →
      fleet_step fl (with_shards fl
        (<[i := with_actor rt {| act_is_shard := act_is_shard (rt_actor rt); act_alive := false;
                                 act_accounts := act_accounts (rt_actor rt);
                                 act_pending := act_pending (rt_actor rt);
                                 act_import_errors := act_import_errors (rt_actor rt) |}]> (fl_shards fl))).

Definition fleet_ok (fl : Fleet) : Prop := shards_ok (fl_shards fl) (fl_dirs fl) ∧ served_held fl.

Lemma actor_update_ok fl i rt a :
  fleet_ok fl → fl_shards fl !! i = Some rt → actor_ok (rt_members rt) a →
  fleet_ok (with_shards fl (<[i := with_actor rt a]> (fl_shards fl))).
Proof.
  intros [Hok Hserved] Hi Ha. split.
  - pose proof (so_each _ _ Hok) as Ho. rewrite Forall_lookup in Ho.
    destruct (Ho i rt Hi) as (_ & Hp & Hc).
    apply (shards_ok_update _ _ i rt _ ∅); try done; cbn; set_solver.
  - intros name w Hw Hs. destruct (Hserved name w Hw Hs) as (j & rt' & Hj & Hin). cbn.
    destruct (decide (j = i)) as [->|].
    + exists i, (with_actor rt a). rewrite list_lookup_insert_eq by by eapply lookup_lt_Some.
      split; [done|]. cbn. congruence.
    + exists j, rt'. by rewrite list_lookup_insert_ne.
Qed.

Lemma grown_members m rt rt' name : grown m rt rt' → name ∈ rt_members rt → name ∈ rt_members rt'.
Proof. intros [->|(_ & -> & _)]; set_solver. Qed.

Lemma onboard_ok env fl m persist : fleet_ok fl → fleet_ok (onboard env fl m persist).2.
Proof.
  intros [Hok Hserved]. unfold onboard. destruct (registry_contains _ _); [done|].
  destruct (check_wallet_name _ _); [|done]. destruct (decode_ufvk m _); [|done].
  destruct (if persist then _ else _) as [[[]|e] manifests]; [|done].
  pose proof (place_spec env (with_manifests fl manifests) m) as Hp.
  destruct (place env _ m) as [[w|e] fl2]; cbn.
  - apply placed_ok in Hp as Hok2; [|exact Hok]. destruct Hok2 as [Hok2 Hw].
    apply placed_fields in Hp as (Hn & Hr & _ & _ & (i0 & rt0 & Hi0 & Hin & _) & Hall). split; [done|].
    intros name w' Hw' Hs. cbn in Hw'. rewrite Hr in Hw'.
    apply lookup_insert_Some in Hw' as [[<- _]|[_ Hw']]; [rewrite Hn; by exists i0, rt0|].
    destruct (Hserved name w' Hw' Hs) as (i & rt & Hi & Hname). destruct (Hall i rt Hi) as (rt' & Hi' & Hg).
    exists i, rt'. split; [done|]. by eapply grown_members.
  - assert (fleet_ok fl2) as Hfl2.
    { destruct Hp as [->|[dir ->]]; [by split|]. split; [|exact Hserved].
      destruct Hok as [H1 H2 H3 H4]. split; try done. eapply Forall_impl; [exact H3|]. cbn. set_solver. }
    destruct persist; [|done]. unfold roll_back. destruct (en_remove env); [|done]. exact Hfl2.
Qed.

Lemma fleet_step_ok fl fl' : fleet_step fl fl' → fleet_ok fl → fleet_ok fl'.
Proof.
  intros H Hok. destruct H as [env m persist|name|i rt n tip connected ts imp Hi|i rt Hi].
  - by apply onboard_ok.
  - destruct Hok as [H1 H2]. split; [exact H1|]. intros x w Hx Hs. cbn in Hx.
    apply lookup_delete_Some in Hx as [_ Hx]. by eapply H2.
  - apply (actor_update_ok fl i); [done..|]. apply import_ok.
    destruct Hok as [[Ho _ _ _] _]. rewrite Forall_lookup in Ho. by destruct (Ho i rt Hi).
  - apply (actor_update_ok fl i); [done..|].
    destruct Hok as [[Ho _ _ _] _]. rewrite Forall_lookup in Ho.
    destruct (Ho i rt Hi) as ([] & _). by split.
Qed.

(** *** The start *)

Lemma insert_handles handles : ∀ r name w,
  wr_wallets (fold_left registry_insert handles r) !! name = Some w →
  wr_wallets r !! name = Some w ∨ w ∈ handles ∧ wh_name w = name.
Proof.
  induction handles as [|h handles IH]; intros r name w; cbn; [auto|].
  intros [Hw|[Hw Hn]]%IH; [|right; by split; [right|]].
  cbn in Hw. apply lookup_insert_Some in Hw as [[<- <-]|[_ Hw]]; [right; by split; [left|]|auto].
Qed.

Lemma start_shard_ok env gap fl dir members fl' :
  start_shard env gap fl (dir, members) = Ok fl' → fleet_ok fl → members ≠ [] →
  NoDup (sm_name <$> members) → dir ∉ rt_dir <$> fl_shards fl →
  (∀ i rt name, fl_shards fl !! i = Some rt → name ∈ rt_members rt → name ∉ sm_name <$> members) →
  fleet_ok fl' ∧ ∃ rt, fl_shards fl' = fl_shards fl ++ [rt] ∧ rt_dir rt = dir ∧
    rt_members rt = list_to_set (sm_name <$> members).
Proof.
  intros Hst [Hok Hserved] Hne Hnd Hdir Hnew. unfold start_shard in Hst.
  apply bind_Ok_inv in Hst as (? & _ & Hst). apply bind_Ok_inv in Hst as ([a handles] & Hsp & Hst).
  unfold spawn_shard in Hsp. destruct (reconcile_accounts _ _ members) as [r|] eqn:Hr; [|done].
  cbn [mbind result_bind map_err] in Hsp. injection Hsp as <- <-.
  pose proof (started_ok _ _ _ _ Hr Hne Hnd) as Hact.
  remember (shard_handle _ _ _ _ _ <$> _) as handles eqn:Hh.
  assert (∀ w, w ∈ handles → wh_name w ∈ sm_name <$> members) as Hnames.
  { intros w. rewrite Hh. intros (n & -> & Hn)%list_elem_of_fmap. done. }
  assert (∃ w, head handles = Some w ∧ wh_is_shard w = true) as (proto & Hproto & Hshard).
  { rewrite Hh. destruct members as [|m rest]; [done|]. cbn. by eexists. }
  rewrite Hproto in Hst. injection Hst as <-. set (rt := register_shard _ _ _ _ _).
  assert (shards_ok (fl_shards fl ++ [rt]) ({[dir]} ∪ fl_dirs fl)) as Hok'.
  { apply (shards_ok_append _ (fl_dirs fl)); try done; [| |set_solver|cbn; set_solver].
    - split_and!; [exact Hact|done|]. cbn [rt rt_accounts rt_members register_shard].
      rewrite size_list_to_set by exact Hnd. done.
    - intros i rt' name Hi Hx. cbn [rt rt_members register_shard]. rewrite elem_of_list_to_set. by eapply Hnew. }
  split; [split; [exact Hok'|]|by exists rt]. intros name w Hw Hs. cbn [fl_registry with_registry with_shards with_dir] in Hw.
  apply insert_handles in Hw as [Hw|[Hw <-]].
  - destruct (Hserved name w Hw Hs) as (i & rt' & Hi & Hin). exists i, rt'. split; [|done].
    by apply lookup_app_l_Some.
  - exists (length (fl_shards fl)), rt. cbn [fl_shards with_registry with_shards].
    rewrite list_lookup_middle by done. split; [done|]. cbn [rt rt_members register_shard].
    apply elem_of_list_to_set. by apply Hnames.
Qed.

Lemma start_shards_ok env gap layout : ∀ fl fl',
  start_shards env gap fl layout = Ok fl' → fleet_ok fl → Forall (λ s, s.2 ≠ []) layout →
  NoDup (layout.*1) → NoDup (sm_name <$> concat (layout.*2)) →
  (∀ d, d ∈ layout.*1 → d ∉ rt_dir <$> fl_shards fl) →
  (∀ i rt name, fl_shards fl !! i = Some rt → name ∈ rt_members rt → name ∉ sm_name <$> concat (layout.*2)) →
  fleet_ok fl'.
Proof.
  induction layout as [|[dir members] layout IH]; intros fl fl'; cbn [start_shards].
  { by intros [= <-]. }
  intros (fl1 & H1 & H2)%bind_Ok_inv Hok [Hne Hnes]%Forall_cons [Hdir Hdirs]%NoDup_cons Hnames Hd Hn.
  cbn [concat fmap list_fmap snd] in *. rewrite fmap_app in Hnames.
  apply NoDup_app in Hnames as (Hn1 & Hn12 & Hn2).
  apply start_shard_ok in H1 as (Hok1 & rt & Hsh & Hrd & Hrm); [| |done|done| |].
  - apply (IH fl1); try done.
    + intros d Hin. rewrite Hsh, fmap_app. intros [?|Hx]%elem_of_app.
      * apply (Hd d); [by right|done].
      * apply list_elem_of_singleton in Hx as ->. rewrite Hrd in Hin. done.
    + intros i x name. rewrite Hsh. intros [Hi|[_ Hi]]%lookup_app_Some Hx Hin.
      * apply (Hn i x name Hi Hx). rewrite fmap_app. apply elem_of_app. by right.
      * apply list_lookup_singleton_Some in Hi as [_ <-]. rewrite Hrm, elem_of_list_to_set in Hx.
        by apply (Hn12 name).
  - done.
  - apply Hd. left.
  - intros i x name Hi Hx Hin. apply (Hn i x name Hi Hx). rewrite fmap_app. apply elem_of_app. by left.
Qed.

Lemma spawn_fleet_ok env config t gap configured manifests dirs registry fl :
  spawn_fleet env config t gap configured manifests dirs registry = Ok (Some fl) →
  (∀ name w, wr_wallets registry !! name = Some w → wh_is_shard w = false) → fleet_ok fl.
Proof.
  intros H Hreg. unfold spawn_fleet in H. destruct (fc_enabled config); [|done]. cbn [negb] in H.
  apply bind_Ok_inv in H as ([members skipped] & Hl & H). cbn [fst] in H.
  destruct (List.find _ members); [done|]. apply bind_Ok_inv in H as ([placed existing] & _ & H).
  cbn [fst snd] in H. set (fl0 := {| fl_config := config |}) in H.
  destruct (start_shards env gap fl0 _) as [fl1|] eqn:Hst; [|done]. injection H as ->.
  destruct (plan_shards members placed existing config) as (shards & Hplan & Hperm & _).
  rewrite Hplan in Hst.
  assert (NoDup (sm_name <$> members)) as Hnd.
  { rewrite load_dir in Hl. injection Hl as <- _. rewrite (merge_sort_Permutation by_name).
    apply readable_nodup. }
  apply (start_shards_ok _ _ _ _ _ Hst).
  - split; [|intros name w Hw Hs; cbn in Hw; apply Hreg in Hw; congruence].
    split; cbn; [constructor..|]. intros i j rt rt' name Hi. by rewrite lookup_nil in Hi.
  - apply Forall_forall. intros [p ms] [Hne _]%elem_of_layout. done.
  - apply layout_dirs_nodup.
  - change (as_layout (fc_dir config) shards).*2 with (snd <$> as_layout (fc_dir config) shards).
    by rewrite concat_layout, Hperm.
  - intros d _. cbn. set_solver.
  - intros i rt name Hi. cbn in Hi. by rewrite lookup_nil in Hi.
Qed.

(** *** What a member can read *)

Lemma find_account (m : gmap string Z) name :
  List.find (λ e, bool_decide (e.1 = name)) (map_to_list m) = (name,.) <$> m !! name.
Proof.
  destruct (List.find _ _) as [[k v]|] eqn:E.
  - apply find_some in E as [Hin Hk]. apply bool_decide_eq_true in Hk. cbn in Hk. subst k.
    apply list_elem_of_In, elem_of_map_to_list in Hin. by rewrite Hin.
  - destruct (m !! name) as [v|] eqn:Hv; [|done].
    apply elem_of_map_to_list, list_elem_of_In in Hv. apply (find_none _ _ E) in Hv.
    by rewrite bool_decide_eq_false in Hv.
Qed.
Lemma sibling_scope rt name :
  account_scope (sibling rt name) =
    match act_accounts (rt_actor rt) !! name with
    | Some id => Only id
    | None => if wh_is_shard (rt_prototype rt) then NoAccount else Any
    end.
Proof.
  unfold account_scope, account. cbn [sibling wh_name wh_status wh_is_shard live_status ss_accounts].
  unfold shard_published_accounts. rewrite find_account. by destruct (act_accounts (rt_actor rt) !! name).
Qed.

Lemma runs_ok fl fl' : rtc fleet_step fl fl' → fleet_ok fl → fleet_ok fl'.
Proof. induction 1; [done|]. intros Hok. eauto using fleet_step_ok. Qed.

(** C5. A running fleet keeps its wallets apart, from its start and through every onboarding,
    unloading, import - accepted, refused or cut short - and stopped actor: no two shards share a
    directory; no wallet is in two shards; a view wallet that is served is held by a shard; and a
    wallet of a shard either has an account, and reads that account and no other, or has none yet,
    reads nothing - never the whole database it shares -, and is waiting for its import or on
    record as refused, not both. *)
Theorem fleet_invariant (env : FleetEnv) (config : FleetConfig) (t : ShardTemplate) (gap : Z)
    (configured : list string) (manifests : option Manifests) (dirs : gset string)
    (registry : WalletRegistry) (fl0 fl : Fleet) :
  spawn_fleet env config t gap configured manifests dirs registry = Ok (Some fl0) →
  (∀ name w, wr_wallets registry !! name = Some w → wh_is_shard w = false) →
  rtc fleet_step fl0 fl →
  NoDup (rt_dir <$> fl_shards fl) ∧
  (∀ i j rt rt' name, fl_shards fl !! i = Some rt → fl_shards fl !! j = Some rt' →
     name ∈ rt_members rt → name ∈ rt_members rt' → i = j) ∧
  (∀ name w, wr_wallets (fl_registry fl) !! name = Some w → wh_is_shard w = true →
     ∃ i rt, fl_shards fl !! i = Some rt ∧ name ∈ rt_members rt) ∧
  (∀ i rt name, fl_shards fl !! i = Some rt → name ∈ rt_members rt →
     let a := rt_actor rt in
     match act_accounts a !! name with
     | Some id => account_scope (sibling rt name) = Only id ∧ ¬ queued a name ∧
                  act_import_errors a !! name = None
     | None => account_scope (sibling rt name) = NoAccount ∧
               (queued a name ↔ act_import_errors a !! name = None)
     end).
Proof.
  intros Hsp Hreg Hrun. apply spawn_fleet_ok in Hsp; [|done].
  apply runs_ok in Hrun as [[Heach Hdirs _ Honce] Hserved]; [|done]. split_and!; [done..|].
  intros i rt name Hi Hin. rewrite Forall_lookup in Heach.
  destruct (Heach i rt Hi) as ([_ Hm Himp Hq _] & Hp & _). rewrite sibling_scope, Hp.
  cbn zeta. apply Hm in Hin. specialize (Himp name). specialize (Hq name).
  destruct (act_accounts (rt_actor rt) !! name) as [id|] eqn:E.
  - split; [done|]. by apply Himp.
  - split; [done|]. split; [done|]. intros Hnone. rewrite Hnone in Hin.
    destruct Hin as [[? ?]|[?|[? ?]]]; done.
Qed.
End fleet.

(** ** A fleet of one *)

(** A library whose viewing keys are their texts and whose tree states decode to a birthday. *)
Definition text_keys : ShardLibrary :=
  {| ViewingKey := string; ufvk_decode _ s := Ok s; ufvk_encode _ s := s;
     TreeState := Z; AccountBirthday := Z; from_treestate ts _ := Ok ts |}.
Definition small_template : ShardTemplate :=
  {| tp_network := Test; tp_coin := Zcash; tp_fetch_memos := true;
     tp_enabled_pools := single Orchard; tp_default_receivers := single Orchard |}.
Definition small_env : FleetEnv (SL := text_keys) :=
  {| en_write := At Keys.AtEnd; en_write_why := ""; en_remove := true; en_mkdir := Ok tt;
     en_db _ := Ok [] |}.

Definition small_start : result string (option Fleet) :=
  @spawn_fleet text_keys written_codec small_env small_fleet small_template 20 [] bobs_dir ∅ (registry_new "bob").

(** Alice is onboarded, and Bob's shard has its pass. *)
Definition small_run (fl : Fleet) : Fleet :=
  let fl := snd (@onboard text_keys small_env fl alice true) in
  match fl_shards fl !! 0%nat with
  | Some rt =>
      with_shards fl (<[0%nat := with_actor rt
        (@import_pending_shard_members text_keys Test (Some 1000) true (λ h, Some h) (λ _ _ _, Ok 7)
           (rt_actor rt)).1]> (fl_shards fl))
  | None => fl
  end.
Lemma small_run_steps fl : rtc (@fleet_step text_keys) fl (small_run fl).
Proof.
  unfold small_run. eapply rtc_l; [apply (@fs_onboard text_keys fl small_env alice true)|].
  destruct (fl_shards _ !! 0%nat) as [rt|] eqn:E; [|done]. apply rtc_once.
  by apply (@fs_import text_keys _ 0 rt Test (Some 1000) true (λ h : Z, Some h) (λ _ _ _, Ok 7)).
Qed.

(** Each shard's wallets, and the accounts they read. *)
Definition account_table (fl : Fleet) : list (list string * option Z * option Z) :=
  (λ rt, (elements (rt_members rt), act_accounts (rt_actor rt) !! "bob",
          act_accounts (rt_actor rt) !! "alice")) <$> fl_shards fl.

(** Then Bob reads his account, and Alice, in a shard of her own, nothing yet. *)
Lemma fleet_invariant_witness :
  match small_start with
  | Ok (Some fl0) =>
      NoDup (rt_dir <$> fl_shards (small_run fl0)) ∧
      match fl_shards (small_run fl0) with
      | [bobs; alices] =>
          account_scope (sibling bobs "bob") = Only 7 ∧ account_scope (sibling alices "alice") = NoAccount
      | _ => False
      end
  | _ => False
  end.
Proof.
  assert (match small_start with Ok (Some fl0) => account_table (small_run fl0) | _ => [] end =
          [(["bob"], Some 7, None); (["alice"], None, None)]) as Htable by (vm_compute; reflexivity).
  pose proof (λ fl, @fleet_invariant text_keys written_codec small_env small_fleet small_template 20 []
                      bobs_dir ∅ (registry_new "bob") fl (small_run fl)) as H.
  fold small_start in H. destruct small_start as [[fl0|]|e]; [|discriminate Htable..].
  destruct (H fl0 eq_refl) as (Hdirs & _ & _ & Hread); [done|apply small_run_steps|].
  split; [exact Hdirs|]. clear H Hdirs. unfold account_table in Htable.
  destruct (fl_shards (small_run fl0)) as [|bobs [|alices [|]]]; try discriminate Htable.
  cbn [fmap list_fmap] in Htable. injection Htable as Hb Hbob _ Ha _ Halice.
  pose proof (Hread 0%nat bobs "bob" eq_refl) as H1. pose proof (Hread 1%nat alices "alice" eq_refl) as H2.
  cbn zeta in H1, H2. rewrite Hbob in H1. rewrite Halice in H2. split.
  - apply H1. apply elem_of_elements. rewrite Hb. left.
  - apply H2. apply elem_of_elements. rewrite Ha. left.
Defined.

(** ** Two things the code does *)

(** A name some shard holds is served from the account it has there, whatever viewing key the
    wallet is onboarded with now. *)
Lemma reload_ignores_the_key `{SL : ShardLibrary} env fl i rt m :
  shard_holding fl (sm_name m) = Some (i, rt) → act_import_errors (rt_actor rt) !! sm_name m = None →
  place env fl m = (Ok (sibling rt (sm_name m)), fl).
Proof. intros H1 H2. unfold place. rewrite H1. unfold reload. by rewrite import_refused_actor, H2. Qed.

(** A running shard counts the wallets with a manifest, not the accounts: with the account of a
    wallet whose manifest is gone, a shard of two accounts takes a third where at most two may be. *)
Definition named_account (id : Z) (name : string) : ShardAccount (H := text_keys) :=
  Build_ShardAccount text_keys id (Some name) (Some ("uview" +:+ name)) 300.
Definition orphan_env : FleetEnv (SL := text_keys) :=
  {| en_write := At Keys.AtEnd; en_write_why := ""; en_remove := true; en_mkdir := Ok tt;
     en_db _ := Ok [named_account 1 "carol"; named_account 2 "bob"] |}.
Lemma orphan_overfills :
  match @spawn_fleet text_keys written_codec orphan_env
          {| fc_enabled := true; fc_manifest_dir := "fleet.d"; fc_dir := "fleet"; fc_coin := Zcash;
             fc_shard_size := 2; fc_cohort_depth := 1000 |} small_template 20 [] bobs_dir
          {["fleet/shard-0000"]} (registry_new "bob") with
  | Ok (Some fl) =>
      let fl' := snd (@onboard text_keys orphan_env fl alice true) in
      (λ rt, (rt_dir rt, size (rt_members rt), length (act_pending (rt_actor rt)))) <$> fl_shards fl' =
        [("fleet/shard-0000", 2%nat, 1%nat)]
  | _ => False
  end.
Proof. vm_compute. reflexivity. Qed.

(** The scan of the shards on the disk stops at a missing one, so a wallet whose account is in a
    shard above it is placed, and imported, anew. *)
Definition gap_env : FleetEnv (SL := text_keys) :=
  {| en_write := At Keys.AtEnd; en_write_why := ""; en_remove := true; en_mkdir := Ok tt;
     en_db dir := if bool_decide (dir = shard_engine_dir "fleet/shard-0002" Zcash)
                  then Ok [named_account 2 "bob"] else Ok [] |}.
Lemma gap_moves_wallets :
  match @spawn_fleet text_keys written_codec gap_env small_fleet small_template 20 [] bobs_dir
          {["fleet/shard-0000"; "fleet/shard-0002"]} (registry_new "bob") with
  | Ok (Some fl) =>
      (λ rt, (rt_dir rt, elements (rt_members rt), sm_name <$> act_pending (rt_actor rt))) <$> fl_shards fl =
        [("fleet/shard-0000", ["bob"], ["bob"])]
  | _ => False
  end.
Proof. vm_compute. reflexivity. Qed.
