(* ===== verification/WalletRpc.v ===== *)
(** * WalletRpc: the methods that manage wallets ([src/src/rpc/wallet_methods.rs])

    [listwallets], [listwalletdir], [createwallet], [unloadwallet] and [loadwallet], over the fleet
    of [Fleet]: arguments, refusals and answers, and what each leaves of the node. *)

From S2P Require Export Fleet Rpc.

(** ** The node *)

(** A node serves from the registry its fleet works on, or from one without a fleet; [wn_configured]
    are the names of [[wallets.<name>]]. *)
Record WalletNode := { wn_configured : gset string; wn_serving : WalletRegistry + Fleet }.

Definition wn_registry (n : WalletNode) : WalletRegistry :=
  match wn_serving n with inl r => r | inr fl => fl_registry fl end.
Definition with_serving_registry (n : WalletNode) (r : WalletRegistry) : WalletNode :=
  {| wn_configured := wn_configured n;
     wn_serving := match wn_serving n with inl _ => inl r | inr fl => inr (with_registry fl r) end |}.
Definition with_fleet (n : WalletNode) (fl : Fleet) : WalletNode :=
  {| wn_configured := wn_configured n; wn_serving := inr fl |}.

(** ** Listing *)

Definition listwallets (n : WalletNode) : json := JArray (JString <$> registry_names (wn_registry n)).

(** [Vec::dedup]. *)
Fixpoint dedup (l : list string) : list string :=
  match l with
  | a :: ((b :: _) as rest) => if bool_decide (a = b) then dedup rest else a :: dedup rest
  | _ => l
  end.
Definition str_le (a b : string) : Prop := String.le a b.
#[global] Instance str_le_dec a b : Decision (str_le a b) := string_le_dec' _ _.

Section methods.
Context `{SL : ShardLibrary} `{MC : ManifestCodec}.

(** The manifest directory, read; [unreadable_dir] is why it cannot be, if it cannot. *)
Definition read_manifests (fl : Fleet) (unreadable_dir : option string) :
    result string (list ShardMember * list SkippedManifest) :=
  load_manifests (fc_manifest_dir (fl_config fl))
    ((λ files, match unreadable_dir with None => Ok files | Some why => Err why end) <$> fl_manifests fl).

Definition wallet_dir (n : WalletNode) (unreadable_dir : option string) : list string * list string :=
  let configured := elements (wn_configured n) in
  match wn_serving n with
  | inl _ => (configured, [])
  | inr fl =>
      match read_manifests fl unreadable_dir with
      | Ok (members, skipped) =>
          (configured ++ (sm_name <$> members), (λ s, sk_path s +:+ ": " +:+ sk_reason s) <$> skipped)
      | Err e => (configured, [fc_manifest_dir (fl_config fl) +:+ ": " +:+ e])
      end
  end.
Definition listwalletdir (n : WalletNode) (unreadable_dir : option string) : json :=
  let '(names, warnings) := wallet_dir n unreadable_dir in
  let wallets := (λ name, JObject [("name", JString name)]) <$> dedup (merge_sort str_le names) in
  JObject (("wallets", JArray wallets)
           :: match warnings with [] => [] | _ => [("warnings", JArray (JString <$> warnings))] end).

(** ** Onboarding *)

Definition onboard_rpc_error (e : OnboardError) : RpcError :=
  match e with
  | NameTaken _ => RpcError.wallet (onboard_error_text e)
  | BadName _ | BadKey _ => RpcError.invalid_parameter (onboard_error_text e)
  | OnboardFailed _ => RpcError.wallet (onboard_error_text e)
  end.

Definition non_null (v : option json) : bool :=
  match v with Some v => negb (json_is_null v) | None => false end.
Definition unsupported_flag (flag : string) : RpcError :=
  RpcError.invalid_parameter
    ("createwallet does not support " +:+ flag +:+ ": a fleet wallet holds no spending material").

(** The flags that ask for a spending wallet. *)
Definition refuse_flags (params : list json) : result RpcError () :=
  if bool_decide (json_as_bool <$> params !! 1%nat = Some (Some false)) then
    Err (RpcError.invalid_parameter
      ("createwallet on zecd creates a watch-only wallet from a viewing key, so "
       +:+ "disable_private_keys must be true (or omitted). zecd loads at most one wallet "
       +:+ "with spending keys, created offline with `zecd init`."))
  else if non_null (params !! 3%nat) then Err (unsupported_flag "passphrase")
  else if non_null (params !! 7%nat) then Err (unsupported_flag "external_signer")
  else Ok tt.

(** The wallet [createwallet] is asked for. *)
Definition create_member (params : list json) : result RpcError ShardMember :=
  name ← ok_or (params !! 0%nat ≫= json_as_str)
           (RpcError.invalid_parameter "createwallet requires a wallet name");
  _ ← refuse_flags params;
  let options := default JNull (params !! 8%nat) in
  ufvk ← ok_or (json_get "ufvk" options ≫= json_as_str)
           (RpcError.invalid_parameter
              ("createwallet requires a " +:+ quoted "ufvk" +:+ " in its options object (param 8): a monitored "
               +:+ "Zcash wallet is defined by the viewing key it is given"));
  birthday ← ok_or (json_get "birthday" options ≫= json_as_u64)
           (RpcError.invalid_parameter
              ("createwallet requires a " +:+ quoted "birthday" +:+ " height in its options object (param 8): "
               +:+ "defaulting it would either rescan the whole chain or miss the wallet's funds"));
  if birthday <=? u32_max
  then Ok {| sm_name := name; sm_ufvk := ufvk; sm_birthday := birthday |}
  else Err (RpcError.invalid_parameter "birthday is not a block height").

Definition experimental : string :=
  "Set [fleet] enabled = true and restart. The fleet is experimental: its manifest format, "
  +:+ "[fleet] keys and wallet-management RPCs may change in a patch release. (An "
  +:+ "embedded host may also have been built without a fleet manager.)".

(** The onboarding a method ends in. *)
Definition onboard_answer (n : WalletNode) (env : FleetEnv) (fl : Fleet) (member : ShardMember)
    (persist : bool) (warning : string) : result RpcError json * WalletNode :=
  match onboard env fl member persist with
  | (Err e, fl) => (Err (onboard_rpc_error e), with_fleet n fl)
  | (Ok _, fl) =>
      (Ok (JObject [("name", JString (sm_name member)); ("warning", JString warning)]), with_fleet n fl)
  end.

Definition createwallet (n : WalletNode) (env : FleetEnv) (params : list json) :
    result RpcError json * WalletNode :=
  match create_member params with
  | Err e => (Err e, n)
  | Ok member =>
      match wn_serving n with
      | inl _ =>
          (Err (RpcError.wallet ("no fleet on this node, so view wallets cannot be onboarded. "
                                 +:+ experimental)), n)
      | inr fl =>
          onboard_answer n env fl member true
            ("the wallet is loaded; its balance and history are empty until the shard "
             +:+ "scans from its birthday")
      end
  end.

Definition loadwallet (n : WalletNode) (env : FleetEnv) (unreadable_dir : option string)
    (params : list json) : result RpcError json * WalletNode :=
  match params !! 0%nat ≫= json_as_str with
  | None => (Err (RpcError.invalid_parameter "loadwallet requires a wallet name"), n)
  | Some name =>
      match wn_serving n with
      | inl _ =>
          (Err (RpcError.wallet ("no fleet on this node, so wallets cannot be loaded at runtime. "
                                 +:+ experimental)), n)
      | inr fl =>
          match read_manifests fl unreadable_dir with
          | Err e => (Err (RpcError.wallet ("reading the fleet manifests: " +:+ e)), n)
          | Ok (members, _) =>
              match List.find (λ m, bool_decide (sm_name m = name)) members with
              | None =>
                  (Err (RpcError.wallet_not_found
                     ("no wallet '" +:+ name +:+ "' in the fleet manifest directory ("
                      +:+ fc_manifest_dir (fl_config fl) +:+ "); see listwalletdir")), n)
              | Some member => onboard_answer n env fl member false ""
              end
          end
      end
  end.
End methods.

(** ** Unloading *)

Definition unloadwallet_target (params : list json) (routed : option string) : result RpcError string :=
  named ← match params !! 0%nat with
          | None | Some JNull => Ok None
          | Some (JString name) => Ok (Some name)
          | Some _ => Err (RpcError.type_error "unloadwallet wallet_name must be a string")
          end;
  match named, routed with
  | Some named, Some routed =>
      if bool_decide (named = routed) then Ok named
      else Err (RpcError.invalid_parameter
             "RPC endpoint wallet and wallet_name parameter specify different wallets")
  | Some name, None => Ok name
  | None, Some routed => Ok routed
  | None, None => Err (RpcError.invalid_parameter "unloadwallet requires a wallet name")
  end.

Definition reject_unsupported_load_on_startup (value : option json) : result RpcError () :=
  match value with
  | None | Some JNull | Some (JBool true) => Ok tt
  | Some (JBool false) =>
      Err (RpcError.invalid_parameter
        ("unloadwallet does not support load_on_startup = false: a fleet wallet's manifest is "
         +:+ "zecd's startup list, and unloading leaves it in place so loadwallet can restore the "
         +:+ "wallet. Delete the wallet's manifest from the fleet manifest directory to keep it "
         +:+ "unloaded across restarts (its account stays in its shard either way)"))
  | Some _ => Err (RpcError.type_error "unloadwallet load_on_startup must be a boolean")
  end.

Definition configured_wallet (name : string) : RpcError :=
  RpcError.wallet
    ("wallet '" +:+ name +:+ "' is a configured [wallets." +:+ name +:+ "] entry, which stays loaded for the "
     +:+ "daemon's lifetime; only fleet wallets can be unloaded (to retire it, remove the "
     +:+ "config entry and restart)").

Definition unloadwallet (n : WalletNode) (params : list json) (routed : option string) :
    result RpcError json * WalletNode :=
  match name ← unloadwallet_target params routed;
        _ ← reject_unsupported_load_on_startup (params !! 1%nat);
        if bool_decide (name ∈ wn_configured n) then Err (configured_wallet name) else Ok name with
  | Err e => (Err e, n)
  | Ok name =>
      let '(removed, registry) := registry_remove (wn_registry n) name in
      let n := with_serving_registry n registry in
      if removed then
        (Ok (JObject [("name", JString name);
                      ("warning", JString
                         ("the wallet is no longer served; its account stays in its shard and is still "
                          +:+ "scanned, so unloading frees no scanning work, and a restart or loadwallet "
                          +:+ "serves this wallet again"))]), n)
      else (Err (RpcError.wallet_not_found
              ("Requested wallet does not exist or is not loaded: " +:+ name)), n)
  end.
