(* ===== verification/WalletRpcSpec.v ===== *)
(** * WalletRpcSpec: what managing wallets leaves served

    A fleet wallet unloaded and loaded again is served as it was; a configured wallet is served for
    as long as the node runs. *)

From S2P Require Export WalletRpc OnboardSpec.

Section spec.
Context `{SL : ShardLibrary} `{MC : ManifestCodec}.

Lemma member_readable path fl m ms sk :
  load_manifests path (Ok <$> fl_manifests fl) = Ok (ms, sk) → m ∈ ms →
  NoDup (sm_name <$> ms) ∧ check_wallet_name (sm_name m) (sm_name m) = Ok tt.
Proof.
  rewrite load_dir. intros [= <- <-]. rewrite !(merge_sort_Permutation by_name).
  intros (f & c & Hext & Hf & Hr)%elem_of_readable. split; [apply readable_nodup|].
  apply read_manifest_name in Hr as Hn. rewrite Hn. unfold read_manifest in Hr.
  apply bind_Ok_inv in Hr as ([] & Hr & _). by eapply check_name_path.
Qed.
Lemma find_member ms m :
  NoDup (sm_name <$> ms) → m ∈ ms → List.find (λ m', bool_decide (sm_name m' = sm_name m)) ms = Some m.
Proof.
  induction ms as [|x ms IH]; [by intros _ ?%elem_of_nil|]. cbn. intros [Hx Hnd]%NoDup_cons.
  intros [->|Hin]%elem_of_cons; [by rewrite bool_decide_eq_true_2|].
  rewrite bool_decide_eq_false_2; [by apply IH|]. intros Heq. apply Hx. rewrite Heq.
  by apply list_elem_of_fmap_2.
Qed.

(** A fleet wallet that is unloaded and loaded again is served as before - by its shard, under
    its name, whatever the wallets beside it - and in between it is not served, while its shard,
    its manifest and every other wallet stay as they are. *)
Theorem unload_load_round_trip (n : WalletNode) (fl : Fleet) (env : FleetEnv) (i : nat)
    (rt : ShardRuntime) (m : ShardMember) (ms : list ShardMember) (sk : list SkippedManifest) :
  wn_serving n = inr fl → fleet_ok fl → sm_name m ∉ wn_configured n →
  registry_contains (fl_registry fl) (sm_name m) = true →
  fl_shards fl !! i = Some rt → sm_name m ∈ rt_members rt →
  act_import_errors (rt_actor rt) !! sm_name m = None →
  load_manifests (fc_manifest_dir (fl_config fl)) (Ok <$> fl_manifests fl) = Ok (ms, sk) → m ∈ ms →
  is_Ok (decode_ufvk m (tp_network (fl_template fl))) →
  let '(unloaded, n1) := unloadwallet n [JString (sm_name m)] None in
  let '(loaded, n2) := loadwallet n1 env None [JString (sm_name m)] in
  is_Ok unloaded ∧
  wn_serving n1 = inr (with_registry fl (snd (registry_remove (fl_registry fl) (sm_name m)))) ∧
  is_Ok loaded ∧
  wn_serving n2 = inr (with_registry fl (registry_insert (fl_registry fl) (sibling rt (sm_name m)))).
Proof.
  intros Hn [Hok _] Hconf Hreg Hi Hin Herr Hload Hm [k Hkey].
  destruct (member_readable _ _ _ _ _ Hload Hm) as [Hnd Hname].
  assert (shard_holding fl (sm_name m) = Some (i, rt)) as Hhold.
  { destruct (shard_holding fl (sm_name m)) as [[j rt']|] eqn:E.
    - apply shard_holding_Some in E as [Hj Hin']. assert (j = i) as ->; [|congruence].
      by apply (so_once _ _ Hok j i rt' rt (sm_name m)).
    - exfalso. by eapply shard_holding_None. }
  unfold unloadwallet. cbn [lookup list_lookup unloadwallet_target mbind result_bind
    reject_unsupported_load_on_startup]. rewrite bool_decide_eq_false_2 by done.
  unfold wn_registry. rewrite Hn. unfold registry_remove.
  unfold registry_contains in Hreg. rewrite Hreg. unfold with_serving_registry. rewrite Hn.
  unfold loadwallet. cbn [lookup list_lookup mbind option_bind json_as_str wn_serving].
  set (fl1 := with_registry fl _).
  assert (read_manifests fl1 None = Ok (ms, sk)) as -> by exact Hload.
  rewrite find_member by done. unfold onboard_answer, onboard.
  assert (registry_contains (fl_registry fl1) (sm_name m) = false) as ->.
  { unfold registry_contains. cbn. by rewrite lookup_delete_eq. }
  rewrite Hname. cbn [fl_template fl1 with_registry]. rewrite Hkey.
  unfold place. assert (shard_holding (with_manifests fl1 (fl_manifests fl1)) (sm_name m) = Some (i, rt)) as ->
    by exact Hhold.
  unfold reload. rewrite import_refused_actor, Herr. cbn [is_some]. split_and!; [by eexists|done|by eexists|].
  unfold with_fleet. cbn [wn_serving]. f_equal. destruct fl as [c t sh ta mf di [ws d]].
  unfold fl1, with_registry, with_manifests, registry_insert. cbn. by rewrite insert_delete_eq.
Qed.

(** ** Configured wallets *)

(** A call of a method that manages wallets. *)
Inductive wallet_call (n : WalletNode) : WalletNode → Prop :=
  | wc_create env params : wallet_call n (snd (createwallet n env params))
  | wc_load env why params : wallet_call n (snd (loadwallet n env why params))
  | wc_unload params routed : wallet_call n (snd (unloadwallet n params routed)).

Lemma onboard_registry env fl m persist :
  let fl' := snd (onboard env fl m persist) in
  fl_registry fl' = fl_registry fl ∨
  registry_contains (fl_registry fl) (sm_name m) = false ∧
  ∃ w, wh_name w = sm_name m ∧ fl_registry fl' = registry_insert (fl_registry fl) w.
Proof.
  cbn zeta. unfold onboard. destruct (registry_contains _ _) eqn:Hreg; [by left|].
  destruct (check_wallet_name _ _); [|by left]. destruct (decode_ufvk m _); [|by left].
  destruct (if persist then _ else _) as [[[]|e] manifests]; [|by left].
  pose proof (place_spec env (with_manifests fl manifests) m) as Hp.
  destruct (place env _ m) as [[w|e] fl2].
  - apply placed_fields in Hp as (Hn & Hr & _). right. split; [done|]. exists w. cbn. by rewrite Hr.
  - left. assert (fl_registry fl2 = fl_registry fl) as Hr by by destruct Hp as [->|[dir ->]].
    destruct persist; [|done]. unfold roll_back. by destruct (en_remove env).
Qed.

Definition served (n : WalletNode) (name : string) : option WalletHandle :=
  wr_wallets (wn_registry n) !! name.

Lemma onboard_keeps n env fl m persist warning name w :
  wn_serving n = inr fl → served n name = Some w →
  let n' := snd (onboard_answer n env fl m persist warning) in
  wn_configured n' = wn_configured n ∧ served n' name = Some w.
Proof.
  unfold served, wn_registry. intros Hn Hw. rewrite Hn in Hw. unfold onboard_answer.
  pose proof (onboard_registry env fl m persist) as Hr. cbn zeta in Hr.
  destruct (onboard env fl m persist) as [r fl']. cbn [snd] in Hr.
  assert (wr_wallets (fl_registry fl') !! name = Some w); [|by destruct r].
  destruct Hr as [->|(Hnone & h & Hh & ->)]; [done|]. cbn. rewrite Hh, lookup_insert_ne; [done|].
  intros Heq. unfold registry_contains in Hnone. by rewrite Heq, Hw in Hnone.
Qed.
Lemma call_keeps n n' name w :
  wallet_call n n' → name ∈ wn_configured n → served n name = Some w →
  wn_configured n' = wn_configured n ∧ served n' name = Some w.
Proof.
  intros Hcall Hconf Hw. destruct Hcall as [env params|env why params|params routed].
  - unfold createwallet. destruct (create_member params); [|done].
    destruct (wn_serving n) as [r|fl] eqn:Hn; [done|]. by apply onboard_keeps.
  - unfold loadwallet. destruct (_ ≫= json_as_str) as [nm|]; [|done].
    destruct (wn_serving n) as [r|fl] eqn:Hn; [done|].
    destruct (read_manifests fl why) as [[ms sk]|]; [|done].
    destruct (List.find _ ms); [|done]. by apply onboard_keeps.
  - unfold unloadwallet. destruct (unloadwallet_target params routed) as [nm|]; [|done].
    cbn [mbind result_bind]. destruct (reject_unsupported_load_on_startup _) as [[]|]; [|done]. cbn [mbind result_bind].
    case_bool_decide as Hnm; [done|]. unfold registry_remove.
    assert (served (with_serving_registry n {| wr_wallets := delete nm (wr_wallets (wn_registry n));
                      wr_default := wr_default (wn_registry n) |}) name = Some w) as Hs.
    { unfold served, wn_registry in *. destruct (wn_serving n) eqn:E; unfold with_serving_registry;
        rewrite E; cbn; by rewrite lookup_delete_ne by congruence. }
    by destruct (is_some (wr_wallets (wn_registry n) !! nm)).
Qed.

(** C8. A configured wallet - the spending one with them - is served, by the same handle, through
    every sequence of createwallet, loadwallet and unloadwallet calls, whatever their arguments,
    the endpoint they come by and how the fleet answers. *)
Theorem configured_wallets_stay (n n' : WalletNode) (name : string) (w : WalletHandle) :
  rtc wallet_call n n' → name ∈ wn_configured n → served n name = Some w → served n' name = Some w.
Proof.
  induction 1 as [|n n1 n2 Hc _ IH]; [done|]. intros Hconf Hw.
  destruct (call_keeps _ _ _ _ Hc Hconf Hw) as [Heq Hs]. apply IH; [by rewrite Heq|done].
Qed.
End spec.

(** ** On a small fleet *)

(** Bob, of the fleet of one, unloaded and loaded. *)
Lemma unload_load_round_trip_witness :
  match small_start with
  | Ok (Some fl) =>
      let n := {| wn_configured := {["spender"]}; wn_serving := inr fl |} in
      let '(unloaded, n1) := unloadwallet n [JString "bob"] None in
      let '(loaded, n2) := @loadwallet text_keys written_codec n1 small_env None [JString "bob"] in
      is_Ok unloaded ∧ is_Ok loaded ∧
      (wh_name <$> wr_wallets (wn_registry n1) !! "bob") = None ∧
      (wh_name <$> wr_wallets (wn_registry n2) !! "bob") = Some "bob"
  | _ => False
  end.
Proof.
  assert (match small_start with
          | Ok (Some fl) =>
              (registry_contains (fl_registry fl) "bob",
               (λ rt, (bool_decide ("bob" ∈ rt_members rt), act_import_errors (rt_actor rt) !! "bob")) <$> fl_shards fl,
               bool_decide (fl_manifests fl = bobs_dir), fc_manifest_dir (fl_config fl))
          | _ => (false, [], false, "") end = (true, [(true, None)], true, "fleet.d")) as Hfacts
    by (vm_compute; reflexivity).
  pose proof (@spawn_fleet_ok text_keys written_codec small_env small_fleet small_template 20 []
                bobs_dir ∅ (registry_new "bob")) as Hok.
  fold small_start in Hok. destruct small_start as [[fl|]|e]; [|discriminate Hfacts..].
  injection Hfacts as Hreg Hshards Hdir Hpath.
  destruct (fl_shards fl) as [|rt [|]] eqn:Esh; try discriminate Hshards.
  cbn [fmap list_fmap] in Hshards. injection Hshards as Hin Herr.
  apply bool_decide_eq_true in Hin, Hdir.
  pose proof (@unload_load_round_trip text_keys written_codec
    {| wn_configured := {["spender"]}; wn_serving := inr fl |} fl small_env 0 rt bob [bob] [] eq_refl) as H.
  cbn [sm_name bob] in H. cbn zeta.
  destruct (unloadwallet _ _ _) as [unloaded n1].
  destruct (loadwallet n1 small_env None _) as [loaded n2]. destruct H as (H1 & H2 & H3 & H4); try done.
  - apply (Hok fl); [done|]. intros name w Hw. cbn in Hw. by rewrite lookup_empty in Hw.
  - by rewrite Esh.
  - rewrite Hpath, Hdir. vm_compute. reflexivity.
  - left.
  - by eexists.
  - split_and!; [done..| |]; unfold wn_registry.
    + rewrite H2. cbn [fl_registry with_registry registry_remove snd wr_wallets]. by rewrite lookup_delete_eq.
    + rewrite H4. cbn [fl_registry with_registry registry_insert wr_wallets sibling wh_name].
      by rewrite lookup_insert_eq.
Defined.

(** A node without a fleet and one configured wallet, which it is asked to unload. *)
Definition spender : WalletHandle := shard_handle small_template "wallets/spender" 100 20
  {| act_is_shard := false; act_alive := true; act_accounts := {["spender" := 1]}; act_pending := [];
     act_import_errors := ∅ |} "spender".
Definition lone_node : WalletNode :=
  {| wn_configured := {["spender"]}; wn_serving := inl (registry_insert (registry_new "spender") spender) |}.
Lemma configured_wallets_stay_witness :
  rtc (@wallet_call text_keys written_codec) lone_node (snd (unloadwallet lone_node [JString "spender"] None)) ∧
  served (snd (unloadwallet lone_node [JString "spender"] None)) "spender" = Some spender.
Proof.
  assert (rtc (@wallet_call text_keys written_codec) lone_node
            (snd (unloadwallet lone_node [JString "spender"] None))) as Hrun by (apply rtc_once, wc_unload).
  split; [exact Hrun|].
  apply (configured_wallets_stay lone_node _ "spender" spender Hrun).
  - unfold lone_node. cbn. by apply elem_of_singleton.
  - reflexivity.
Defined.

(** ** The flags that are dropped *)

(** [createwallet] reads its name, two flags it refuses, [disable_private_keys] and the options;
    [load_on_startup] and the others make no difference. *)
Lemma createwallet_drops_flags params params' :
  (∀ i, i ∈ [0; 1; 3; 7; 8]%nat → params !! i = params' !! i) →
  create_member params = create_member params'.
Proof. intros H. unfold create_member, refuse_flags. by rewrite !H by set_solver. Qed.
