(* ===== verification/Issue.v ===== *)
(** * Issue: handing out addresses ([src/src/rpc/wallet_methods.rs], [src/src/wallet/actor.rs])

    [getnewaddress] and [z_getaddressforaccount]: the receivers a call asks for, and the actor that
    derives the address, within the wallet's pools and its recovery horizon. The wallet database's
    address table is the library's. *)

From S2P Require Export Address ChainRpc.
From S2P Require Keys.

(** ** What is asked for *)

Inductive ReceiverRequest := ReqDefault | ReqShielded (set : ReceiverSet) | ReqTransparent.

Record DerivedAddress := { da_address : string; da_index : Z; da_receiver_types : list string }.

Definition eq_ignore_ascii_case (a b : string) : bool :=
  bool_decide (to_ascii_lowercase a = to_ascii_lowercase b).
Definition opt_str (req : RpcRequest) (i : nat) : option string := param req i ≫= json_as_str.

Definition receiver_set_error_text (e : ReceiverSetError) : string :=
  match e with
  | TransparentNotShielded =>
      "transparent is not a shielded pool; enable transparent receiving via the "
      +:+ "[pools] transparent flag, not as a pool/receiver"
  | NoShieldedPool => "at least one shielded pool is required"
  | BadToken e => parse_error_display quoted e
  end.

(** The pools of a comma-separated [address_type]. *)
Fixpoint type_tokens (tokens : list string) : result RpcError (list Receiver) :=
  match tokens with
  | [] => Ok []
  | raw :: rest =>
      let token := trim raw in
      pool ← map_err (λ e, RpcError.invalid_address_or_key
                        (match e with
                         | IronwoodToken => parse_error_display quoted e
                         | UnknownToken _ => "Unknown address type '" +:+ token +:+ "'"
                         end)) (from_config_str token);
      if is_transparent pool then
        Err (RpcError.invalid_address_or_key
          ("transparent cannot be combined with shielded receivers; "
           +:+ "request " +:+ quoted "transparent" +:+ " alone for a bare t-address"))
      else pools ← type_tokens rest; Ok (pool :: pools)
  end.

Definition parse_receiver_tokens (address_type : option string) : result RpcError ReceiverRequest :=
  match trim <$> address_type with
  | None | Some "" => Ok ReqDefault
  | Some raw =>
      if eq_ignore_ascii_case raw "unified" || eq_ignore_ascii_case raw "default" then Ok ReqDefault
      else if eq_ignore_ascii_case raw "transparent" then Ok ReqTransparent
      else
        pools ← type_tokens (split_char "," raw);
        set ← map_err (λ e, RpcError.invalid_address_or_key
                         ("Invalid address type: " +:+ receiver_set_error_text e)) (receiver_set_new pools);
        Ok (ReqShielded set)
  end.

(** *** [z_getaddressforaccount]'s arguments *)

Definition parse_account_arg (v : option json) : result RpcError Z :=
  let out_of_range := RpcError.invalid_parameter
                        "Invalid account number, must be 0 <= account <= (2^31)-2." in
  v ← ok_or v (RpcError.missing_param "z_getaddressforaccount requires an account number");
  n ← ok_or (json_as_i64 v) out_of_range;
  if negb ((0 <=? n) && (n <=? 2 ^ 31 - 2)) then Err out_of_range
  else if n =? 0 then Ok 0
  else Err (RpcError.wallet ("Error: account " +:+ dec n +:+ " has not been generated; "
                             +:+ "zecd wallets have a single account (account 0).")).

(** The receivers named and the names that are none. *)
Fixpoint type_array (items : list json) : result RpcError (list Receiver * list string) :=
  match items with
  | [] => Ok ([], [])
  | item :: rest =>
      s ← ok_or (json_as_str item) (RpcError.type_error "receiver type must be a string");
      if eq_ignore_ascii_case s "p2pkh" then
        more ← type_array rest; Ok (Transparent :: more.1, more.2)
      else
        match from_config_str s with
        | Ok p => more ← type_array rest; Ok (p :: more.1, more.2)
        | Err IronwoodToken => Err (RpcError.invalid_parameter (parse_error_display quoted IronwoodToken))
        | Err (UnknownToken _) => more ← type_array rest; Ok (more.1, s :: more.2)
        end
  end.

Definition invalid_types (invalid : list string) : RpcError :=
  RpcError.invalid_parameter
    (join ", " invalid +:+ " "
     +:+ (match invalid with [_] => "is an invalid receiver type" | _ => "are invalid receiver types" end)
     +:+ ". Arguments must be " +:+ quoted "p2pkh" +:+ ", " +:+ quoted "sapling" +:+ " or "
     +:+ quoted "orchard" +:+ ".").
Definition transparent_not_allowed : RpcError :=
  RpcError.invalid_parameter
    "transparent addresses are not enabled on this wallet; set [pools] transparent = true".

Definition parse_receiver_types_array (v : option json) (w : WalletHandle) :
    result RpcError ReceiverRequest :=
  match v with
  | None | Some JNull | Some (JArray []) => Ok ReqDefault
  | Some (JArray arr) =>
      named ← type_array arr;
      let '(pools, invalid) := named in
      match invalid with
      | _ :: _ => Err (invalid_types invalid)
      | [] =>
          if existsb is_transparent pools then
            if existsb (λ p, negb (is_transparent p)) pools then
              Err (RpcError.invalid_parameter
                ("p2pkh cannot be combined with a shielded receiver: a transparent receiver is "
                 +:+ "handed out as a bare t-address (ZIP-316 forbids a transparent-only unified "
                 +:+ "address, and zecd never mixes a transparent receiver into one). Request "
                 +:+ "[" +:+ quoted "p2pkh" +:+ "] alone for a transparent address."))
            else if negb (wh_transparent_enabled w) then Err transparent_not_allowed
            else Ok ReqTransparent
          else
            set ← map_err (λ e, RpcError.invalid_parameter
                             ("invalid receiver_types: " +:+ receiver_set_error_text e))
                    (receiver_set_new pools);
            if is_subset_of set (wh_enabled_pools w) then Ok (ReqShielded set)
            else Err (RpcError.invalid_parameter
                   ("receiver_types requests a pool not enabled on this wallet; enabled pools: "
                    +:+ display_names (wh_enabled_pools w)))
      end
  | Some _ =>
      Err (RpcError.invalid_parameter
        "Invalid parameter, expected receiver_types to be an array of strings")
  end.

(** The literal of the number, read as a [u128]. *)
Definition parse_diversifier_index_arg (v : option json) : result RpcError (option Z) :=
  let not_unsigned := RpcError.invalid_parameter
                        "Invalid diversifier index, must be an unsigned integer." in
  match v with
  | None | Some JNull => Ok None
  | Some (JNumber literal) =>
      parsed ← ok_or (parse_unsigned (2 ^ 128 - 1) literal) not_unsigned;
      if parsed <? 2 ^ 88 then Ok (Some parsed)
      else Err (RpcError.invalid_parameter "diversifier index is too large.")
  | Some _ => Err not_unsigned
  end.

(** ** The actor *)

(** How the address table refuses. *)
Inductive NextAddressError := ReachedGapLimit (why : string) | NextFailed (why : string).
Inductive AtIndexError := DiversifierIndexReuse (j : Z) | AtIndexFailed (why : string).

(** The wallet database's address table: the next unused address of an account with the receivers
    requested, and the address at an index - each may record it -; and the account's transparent
    receivers outside its change chain, whether each is exposed and its index. *)
Class AddressTable := {
  table : Type;
  get_next_available_address : table → Z → UnifiedAddressRequest →
    result NextAddressError (option (UnifiedAddress * Z)) * table;
  get_address_for_index : table → Z → Z → UnifiedAddressRequest →
    result AtIndexError (option UnifiedAddress) * table;
  get_transparent_receivers : table → Z → option (list (bool * option Z));
}.

(** The part of the actor that derives addresses. *)
Record Issuer `{AddressTable} := {
  is_network : ZNetwork; is_shard : bool; is_account_id : option Z; is_enabled_pools : ReceiverSet;
  is_default_receivers : ReceiverSet; is_transparent_enabled : bool; is_transparent_default : bool;
  is_initial_scan : Z; is_default_frontier : option Z; is_gap_limit : Z; is_allow_beyond : bool;
  is_set_dirty : bool; is_table : table;
}.

Section issue.
Context `{CD : AddressCodec} `{AT : AddressTable}.

Definition with_table (a : Issuer) (dirty : bool) (t : table) : Issuer :=
  {| is_network := is_network a; is_shard := is_shard a; is_account_id := is_account_id a; is_enabled_pools := is_enabled_pools a;
     is_default_receivers := is_default_receivers a; is_transparent_enabled := is_transparent_enabled a;
     is_transparent_default := is_transparent_default a; is_initial_scan := is_initial_scan a;
     is_default_frontier := is_default_frontier a; is_gap_limit := is_gap_limit a;
     is_allow_beyond := is_allow_beyond a; is_set_dirty := dirty; is_table := t |}.

(** A command's answer and the actor after it. *)
Abbreviation issue A := (result RpcError A * Issuer)%type.

Definition require_account (a : Issuer) (requested : option Z) : result RpcError Z :=
  ok_or (match requested with Some account => Some account | None => is_account_id a end)
    (if is_shard a then private_keys_disabled else Keys.account_not_ready).

Definition transparent_not_enabled : RpcError :=
  RpcError.invalid_parameter
    "transparent addresses are not enabled on this wallet (set [pools] transparent = true)".
Definition map_address_for_index_error (e : AtIndexError) : RpcError :=
  match e with
  | DiversifierIndexReuse j =>
      RpcError.wallet ("Error: address at diversifier index " +:+ dec j
                       +:+ " was already generated with different receiver types.")
  | AtIndexFailed why => RpcError.wallet ("address generation failed: " +:+ why)
  end.
Definition transparent_receiver (ua : UnifiedAddress) : result RpcError TransparentAddress :=
  ok_or (ua_transparent ua)
    (RpcError.wallet "derived address unexpectedly has no transparent receiver").
Definition not_at_index (j : Z) : RpcError :=
  RpcError.wallet ("Error: no address at diversifier index " +:+ dec j +:+ ".").

Definition transparent_recovery_horizon (a : Issuer) : Z :=
  recovery_horizon_for (is_initial_scan a) (is_default_frontier a) (is_gap_limit a).

(** One past the highest exposed index. *)
Definition next_external_transparent_index (a : Issuer) (account : Z) : Z :=
  match get_transparent_receivers (is_table a) account with
  | None => 0
  | Some rs =>
      foldr Z.max 0 (omap (λ r : bool * option Z, if r.1 then (λ i, u32_sat_add i 1) <$> r.2 else None) rs)
  end.

Definition beyond_horizon_error (index horizon : Z) : RpcError :=
  RpcError.wallet
    ("transparent address gap limit reached: external index (" +:+ dec index +:+ ") is "
     +:+ "beyond the recovery horizon (" +:+ dec horizon +:+ " = transparent_gap_limit past the "
     +:+ "restore floor), so it would not be recoverable from seed. Raise [pools] "
     +:+ "transparent_initial_scan to your issuance high-water mark (preferred - a "
     +:+ "large transparent_gap_limit makes every recorded transparent receive "
     +:+ "re-derive the whole window), fund a lower-index address, or set "
     +:+ "transparent_allow_beyond_recovery_window = true to issue beyond the horizon "
     +:+ "anyway.").

Definition expose_transparent_index (a : Issuer) (account index : Z) : issue string :=
  let horizon := transparent_recovery_horizon a in
  if (horizon <=? index) && negb (is_allow_beyond a) then (Err (beyond_horizon_error index horizon), a)
  else
    let '(got, t) := get_address_for_index (is_table a) account index transparent_extraction_request in
    (found ← map_err map_address_for_index_error got;
     ua ← ok_or found (not_at_index index);
     taddr ← transparent_receiver ua;
     Ok (encode_address (is_network a) (AddrTransparent taddr)),
     with_table a true t).

Definition new_transparent_address_beyond_gap (a : Issuer) (account : Z) : issue (string * Z) :=
  let next := next_external_transparent_index a account in
  let '(r, a) := expose_transparent_index a account next in
  (address ← r; Ok (address, next), a).

(** [new_transparent_address]: the address and its index. *)
Definition new_transparent_address (a : Issuer) (account : option Z) : issue (string * Z) :=
  if negb (is_transparent_enabled a) then (Err transparent_not_enabled, a)
  else
    match require_account a account with
    | Err e => (Err e, a)
    | Ok account =>
        let '(got, t) := get_next_available_address (is_table a) account transparent_extraction_request in
        let a := with_table a true t in
        match got with
        | Ok (Some (ua, j)) =>
            (taddr ← transparent_receiver ua;
             index ← ok_or (transparent_child_index j)
                       (RpcError.wallet
                          ("derived transparent address at diversifier index " +:+ dec j
                           +:+ " outside the BIP 44 non-hardened child range"));
             Ok (encode_address (is_network a) (AddrTransparent taddr), index), a)
        | Ok None =>
            (Err (RpcError.wallet
               ("no transparent address available for account; the account's viewing key may "
                +:+ "not support a transparent receiver")), a)
        | Err (ReachedGapLimit _) => new_transparent_address_beyond_gap a account
        | Err (NextFailed why) => (Err (RpcError.wallet ("address generation failed: " +:+ why)), a)
        end
    end.

Definition transparent_address_for_account (a : Issuer) (account : option Z)
    (diversifier_index : option Z) : issue DerivedAddress :=
  let derived r := ('(address, index) ← r;
                    Ok {| da_address := address; da_index := index; da_receiver_types := ["p2pkh"] |}) in
  if negb (is_transparent_enabled a) then (Err transparent_not_enabled, a)
  else
    match diversifier_index with
    | None => let '(r, a) := new_transparent_address a account in (derived r, a)
    | Some j =>
        match transparent_child_index j with
        | None =>
            (Err (RpcError.invalid_parameter
               ("diversifier index " +:+ dec j +:+ " is not a valid transparent child index: a "
                +:+ "transparent receiver is derived at a BIP 44 non-hardened index, so it "
                +:+ "must be less than " +:+ dec (2 ^ 31) +:+ ".")), a)
        | Some index =>
            match require_account a None with
            | Err e => (Err e, a)
            | Ok account =>
                let '(r, a) := expose_transparent_index a account index in
                (derived (address ← r; Ok (address, index)), a)
            end
        end
    end.

(** The receivers of a shielded request, or that the transparent side answers. *)
Definition shielded_receivers (a : Issuer) (request : ReceiverRequest) : result RpcError (option ReceiverSet) :=
  match request with
  | ReqTransparent => Ok None
  | ReqDefault => Ok (if is_transparent_default a then None else Some (is_default_receivers a))
  | ReqShielded set =>
      if is_subset_of set (is_enabled_pools a) then Ok (Some set)
      else Err (RpcError.invalid_parameter
             ("requested receivers (" +:+ display_names set +:+ ") include a pool not enabled on this wallet ("
              +:+ display_names (is_enabled_pools a) +:+ ")"))
  end.

(** The next unused address of an account with these receivers. *)
Definition next_shielded (a : Issuer) (account : Z) (receivers : ReceiverSet) :
    issue (UnifiedAddress * Z) :=
  let '(got, t) := get_next_available_address (is_table a) account (to_unified_address_request receivers) in
  (found ← map_err (λ e, RpcError.wallet
                      ("address generation failed: "
                       +:+ match e with ReachedGapLimit why | NextFailed why => why end)) got;
   ok_or found (RpcError.wallet
     ("no address available for account with receivers (" +:+ display_names receivers
      +:+ "); the account's viewing key may not support all requested pools")),
   with_table a (is_set_dirty a) t).

Definition get_new_address (a : Issuer) (account : option Z) (request : ReceiverRequest) : issue string :=
  match shielded_receivers a request with
  | Err e => (Err e, a)
  | Ok None => let '(r, a) := new_transparent_address a account in (fst <$> r, a)
  | Ok (Some receivers) =>
      match require_account a account with
      | Err e => (Err e, a)
      | Ok account =>
          let '(r, a) := next_shielded a account receivers in
          ('(ua, _) ← r; Ok (encode_address (is_network a) (AddrUnified ua)), a)
      end
  end.

Definition get_address_for_account (a : Issuer) (account : option Z) (request : ReceiverRequest)
    (diversifier_index : option Z) : issue DerivedAddress :=
  match shielded_receivers a request with
  | Err e => (Err e, a)
  | Ok None => transparent_address_for_account a account diversifier_index
  | Ok (Some receivers) =>
      match require_account a account with
      | Err e => (Err e, a)
      | Ok account =>
          let '(r, a) :=
            match diversifier_index with
            | None => next_shielded a account receivers
            | Some j =>
                let '(got, t) := get_address_for_index (is_table a) account j
                                   (to_unified_address_request receivers) in
                (found ← map_err map_address_for_index_error got;
                 ua ← ok_or found (not_at_index j); Ok (ua, j), with_table a (is_set_dirty a) t)
            end in
          ('(ua, j) ← r;
           Ok {| da_address := encode_address (is_network a) (AddrUnified ua); da_index := j;
                 da_receiver_types := names receivers |}, a)
      end
  end.

(** ** The methods, [a] being the actor of the wallet called *)

Definition dispatched {A} (w : WalletHandle) (a : Issuer) (command : Issuer → issue A) : issue A :=
  if wh_actor_alive w then command a else (Err (RpcError.misc "wallet actor is not running"), a).

(** The request of [getnewaddress], and the wallet it is for. *)
Definition getnewaddress_request (s : AppState) (wallet : option string) (req : RpcRequest) :
    result RpcError (WalletHandle * ReceiverRequest) :=
  _ ← (if bool_decide (default "" (opt_str req 0) = "") then Ok tt
       else Err (RpcError.invalid_parameter
              ("labels are not supported (zecd is stateless); call getnewaddress without a label")));
  request ← parse_receiver_tokens (opt_str req 1);
  w ← registry_get (as_registry s) wallet;
  match request with
  | ReqShielded set =>
      if is_subset_of set (wh_enabled_pools w) then Ok (w, request)
      else Err (RpcError.invalid_parameter
             ("address type requests a receiver not enabled on this wallet; enabled pools: "
              +:+ display_names (wh_enabled_pools w)))
  | ReqTransparent => if wh_transparent_enabled w then Ok (w, request) else Err transparent_not_allowed
  | ReqDefault => Ok (w, request)
  end.
Definition getnewaddress (s : AppState) (wallet : option string) (req : RpcRequest) (a : Issuer) : issue json :=
  match getnewaddress_request s wallet req with
  | Err e => (Err e, a)
  | Ok (w, request) =>
      let '(r, a) := dispatched w a (λ a, get_new_address a (account w) request) in
      (JString <$> r, a)
  end.

Definition z_getaddressforaccount_request (s : AppState) (wallet : option string) (req : RpcRequest) :
    result RpcError (WalletHandle * Z * ReceiverRequest * option Z) :=
  w ← registry_get (as_registry s) wallet;
  n ← parse_account_arg (param req 0);
  request ← parse_receiver_types_array (param req 1) w;
  index ← parse_diversifier_index_arg (param req 2);
  Ok (w, n, request, index).
Definition z_getaddressforaccount (s : AppState) (wallet : option string) (req : RpcRequest) (a : Issuer) :
    issue json :=
  match z_getaddressforaccount_request s wallet req with
  | Err e => (Err e, a)
  | Ok (w, n, request, index) =>
      let '(r, a) := dispatched w a (λ a, get_address_for_account a (account w) request index) in
      (d ← r;
       Ok (JObject [("account", json_num n); ("diversifier_index", json_num (da_index d));
                    ("receiver_types", JArray (JString <$> da_receiver_types d));
                    ("address", JString (da_address d))]), a)
  end.
End issue.
