(* ===== verification/IssueSpec.v ===== *)
(** * IssueSpec: what is handed out *)

From S2P Require Export Issue.

Section spec.
Context `{CD : AddressCodec} `{AT : AddressTable}.

(** An index a restore from the seed finds, or that the operator allows beyond that. *)
Definition within_policy (a : Issuer) (index : Z) : Prop :=
  index < transparent_recovery_horizon a ∨ is_allow_beyond a = true.
(** An index above every one the account has exposed. *)
Definition above_exposed (t : table) (account index : Z) : Prop :=
  ∀ rs i, get_transparent_receivers t account = Some rs → (true, Some i) ∈ rs → 0 ≤ i < 2 ^ 31 → i < index.

Lemma foldr_max_le (l : list Z) x : x ∈ l → x ≤ foldr Z.max 0 l.
Proof. induction l as [|y l IH]; [by intros ?%elem_of_nil|]. intros [->|?%IH]%elem_of_cons; cbn; lia. Qed.
Lemma next_above a account : above_exposed (is_table a) account (next_external_transparent_index a account).
Proof.
  intros rs i Hrs Hin Hi. unfold next_external_transparent_index. rewrite Hrs.
  assert (i + 1 = u32_sat_add i 1) as Hs by (unfold u32_sat_add, u32_max; lia).
  enough (i + 1 ≤ foldr Z.max 0 (omap (λ r : bool * option Z,
    if r.1 then (λ i, u32_sat_add i 1) <$> r.2 else None) rs)) by lia.
  rewrite Hs. apply foldr_max_le, list_elem_of_omap. by exists (true, Some i).
Qed.

Lemma expose_spec a account index r a' :
  expose_transparent_index a account index = (Ok r, a') → within_policy a index.
Proof.
  unfold expose_transparent_index, within_policy. cbn zeta.
  destruct (transparent_recovery_horizon a <=? index) eqn:Hi; cbn [andb]; [|lia].
  destruct (is_allow_beyond a); [by right|done].
Qed.

(** Where a transparent address with no index asked for comes from: the table's own window, or one
    past what is exposed and within the policy. *)
Definition next_transparent (a : Issuer) (account index : Z) : Prop :=
  let '(got, t) := get_next_available_address (is_table a) account transparent_extraction_request in
  (∃ ua, got = Ok (Some (ua, index))) ∨
  (∃ why, got = Err (ReachedGapLimit why)) ∧ above_exposed t account index ∧ within_policy a index.

Lemma child_index j i : transparent_child_index j = Some i → i = j ∧ 0 ≤ j < 2 ^ 31.
Proof. unfold transparent_child_index. repeat case_match; try done. intros [= <-]. lia. Qed.

Lemma new_transparent_spec a account address index a' :
  new_transparent_address a account = (Ok (address, index), a') →
  is_transparent_enabled a = true ∧ ∃ acct, require_account a account = Ok acct ∧ next_transparent a acct index.
Proof.
  unfold new_transparent_address. destruct (is_transparent_enabled a) eqn:Hen; cbn [negb]; [|done].
  destruct (require_account a account) as [acct|]; [|done]. intros H. split; [done|].
  exists acct. split; [done|]. unfold next_transparent.
  destruct (get_next_available_address _ _ _) as [[[[ua j]|]|[why|why]] t]; try done.
  - left. exists ua. destruct (transparent_receiver ua); [|done]. cbn [mbind result_bind] in H.
    destruct (transparent_child_index j) as [i|] eqn:E; [|done]. apply child_index in E as [-> _].
    by injection H as _ -> _.
  - right. unfold new_transparent_address_beyond_gap in H.
    destruct (expose_transparent_index _ _ _) as [[r|] a''] eqn:E; [|done]. injection H as _ <- _.
    apply expose_spec in E. split; [by eexists|]. split; [|exact E]. apply (next_above (with_table a true t)).
Qed.

(** [getnewaddress] hands out the address [z_getaddressforaccount] would at the next index. *)
Lemma new_address_is_next a account request :
  let '(r, a') := get_address_for_account a account request None in
  get_new_address a account request = (da_address <$> r, a').
Proof.
  unfold get_address_for_account, get_new_address.
  destruct (shielded_receivers a request) as [[receivers|]|]; [| |done].
  - destruct (require_account a account); [|done]. destruct (next_shielded _ _ _) as [[[ua j]|] a']; done.
  - unfold transparent_address_for_account, new_transparent_address.
    destruct (is_transparent_enabled a); cbn [negb]; [|done].
    destruct (require_account a account); [|done].
    destruct (get_next_available_address _ _ _) as [[[[ua j]|]|[why|why]] t]; try done.
    + destruct (transparent_receiver ua); [|done]. cbn [mbind result_bind].
      by destruct (transparent_child_index j).
    + unfold new_transparent_address_beyond_gap. destruct (expose_transparent_index _ _ _) as [[r|] a'']; done.
Qed.

(** What is handed out is within the wallet's policy. [getnewaddress] is
    [z_getaddressforaccount] at the next index, and an index asked for is the index used. A
    transparent address is handed out only where transparent receiving is enabled - where it is
    not, nothing is derived - and only if the address table's own gap window offers it, or its
    index is below the recovery horizon or the operator allows more, a next one then above every
    index the account has exposed; a shielded one has the wallet's default receivers or receivers
    of enabled pools, and is derived for exactly those, on the account the call is for. *)
Theorem issued_within_policy (a : Issuer) (account : option Z) (request : ReceiverRequest) (idx : option Z) :
  let '(r, a') := get_address_for_account a account request idx in
  let '(next, a'') := get_address_for_account a account request None in
  get_new_address a account request = (da_address <$> next, a'') ∧
  (shielded_receivers a request = Ok None → is_transparent_enabled a = false → ¬ is_Ok r ∧ a' = a) ∧
  match r with
  | Err _ => True
  | Ok d =>
      (∀ j, idx = Some j → da_index d = j) ∧
      ((da_receiver_types d = ["p2pkh"] ∧ is_transparent_enabled a = true ∧
        match idx with
        | Some j => within_policy a j ∧ 0 ≤ j < 2 ^ 31
        | None => ∃ acct, require_account a account = Ok acct ∧ next_transparent a acct (da_index d)
        end)
       ∨ ∃ receivers acct, da_receiver_types d = names receivers ∧
         (request = ReqDefault ∧ receivers = is_default_receivers a
          ∨ is_subset_of receivers (is_enabled_pools a) = true) ∧
         require_account a account = Ok acct ∧
         ∃ ua, da_address d = encode_address (is_network a) (AddrUnified ua) ∧
           let asked := to_unified_address_request receivers in
           match idx with
           | Some j => fst (get_address_for_index (is_table a) acct j asked) = Ok (Some ua)
           | None => fst (get_next_available_address (is_table a) acct asked) = Ok (Some (ua, da_index d))
           end)
  end.
Proof.
  pose proof (new_address_is_next a account request) as Hnext.
  destruct (get_address_for_account a account request idx) as [r a'] eqn:Hr.
  destruct (get_address_for_account a account request None) as [next a'']. split; [done|].
  clear Hnext. unfold get_address_for_account in Hr.
  destruct (shielded_receivers a request) as [[receivers|]|e] eqn:Hs.
  - split; [done|]. destruct r as [d|]; [|done].
    destruct (require_account a account) as [acct|]; [|done].
    assert (request = ReqDefault ∧ receivers = is_default_receivers a
            ∨ is_subset_of receivers (is_enabled_pools a) = true) as Hrec.
    { destruct request as [|set|]; cbn in Hs; [|destruct (is_subset_of _ _) eqn:E|done].
      - left. destruct (is_transparent_default a); [done|]. by injection Hs as <-.
      - right. by injection Hs as <-.
      - done. }
    destruct idx as [j|].
    + destruct (get_address_for_index _ _ _ _) as [[[ua|]|] t] eqn:Eg; try done.
      cbn [map_err mbind result_bind ok_or] in Hr. injection Hr as <- _. split; [by intros ? [= <-]|].
      right. exists receivers, acct. split_and!; try done. exists ua. cbn zeta. by rewrite Eg.
    + unfold next_shielded in Hr.
      destruct (get_next_available_address _ _ _) as [[[[ua j]|]|e] t] eqn:Eg; try done.
      cbn [map_err mbind result_bind ok_or] in Hr. injection Hr as <- _. split; [done|].
      right. exists receivers, acct. split_and!; try done. exists ua. cbn zeta. by rewrite Eg.
  - unfold transparent_address_for_account in Hr. cbn zeta in Hr.
    destruct (is_transparent_enabled a) eqn:Hen; cbn [negb] in Hr.
    2:{ injection Hr as <- <-. split; [|done]. intros _ _. split; [|done]. by intros [? ?]. }
    split; [done|]. destruct r as [d|]; [|done]. destruct idx as [j|].
    + destruct (transparent_child_index j) as [i|] eqn:Hj; [|done]. apply child_index in Hj as [-> Hj].
      destruct (require_account a None) as [acct|]; [|done].
      destruct (expose_transparent_index a acct j) as [[s|] a1] eqn:He; [|done].
      injection Hr as <- _. apply expose_spec in He. split; [by intros ? [= <-]|]. by left.
    + destruct (new_transparent_address a account) as [[[s i]|] a1] eqn:He; [|done].
      injection Hr as <- _. apply new_transparent_spec in He as [_ He]. split; [done|]. by left.
  - injection Hr as <- _. split; [done|exact I].
Qed.
End spec.
