(* ===== verification/Endpoint.v ===== *)
(** * Endpoint: the upstream a wallet dials ([src/src/backend.rs], [src/src/socks.rs], the gate of
      [src/src/chain/zebra.rs], the [[backend]] section of [src/src/config.rs])

    The [server] token, the SOCKS5 proxy token, TLS trust, credentials, and the checks between
    them and a connection. Sockets, TLS itself, URIs, PEM, base64 and SHA-256 are parameters. *)

From S2P Require Export Network Text.

(** ** IP literals: [core::net]'s parser *)

(** The value of a digit in a radix. *)
Definition digit_of (radix : Z) (c : ascii) : option Z :=
  let b := byte_of c in
  let v := if (48 <=? b) && (b <=? 57) then b - 48
           else if (97 <=? b) && (b <=? 122) then b - 87
           else if (65 <=? b) && (b <=? 90) then b - 55 else 36 in
  if v <? radix then Some v else None.

(** [read_number]: the digits read so far and their value; [None] past the maximum of either. *)
Fixpoint read_digits (radix limit : Z) (max_digits : nat) (count : nat) (value : Z) (s : string) :
    option (nat * Z * string) :=
  match s with
  | "" => Some (count, value, s)
  | String c rest =>
      match digit_of radix c with
      | None => Some (count, value, s)
      | Some d =>
          if (limit <? value * radix + d) || (max_digits <=? count)%nat then None
          else read_digits radix limit max_digits (S count) (value * radix + d) rest
      end
  end.
Definition read_number (radix limit : Z) (max_digits : nat) (allow_zero_prefix : bool) (s : string) :
    option (Z * string) :=
  let leading_zero := match s with String "0" _ => true | _ => false end in
  '(count, value, rest) ← read_digits radix limit max_digits 0 0 s;
  match count with
  | O => None
  | _ => if negb allow_zero_prefix && leading_zero && (1 <? count)%nat then None else Some (value, rest)
  end.

(** [read_separator]. *)
Definition after_separator (sep : ascii) (index : nat) (s : string) : option string :=
  match index with
  | O => Some s
  | _ => match s with String c rest => if bool_decide (c = sep) then Some rest else None | "" => None end
  end.

(** Four octets. *)
Fixpoint read_octets (n index : nat) (s : string) : option (list Z * string) :=
  match n with
  | O => Some ([], s)
  | S n =>
      s ← after_separator "." index s;
      '(octet, s) ← read_number 10 255 3 false s;
      '(octets, s) ← read_octets n (S index) s;
      Some (octet :: octets, s)
  end.
Definition read_ipv4 (s : string) : option (list Z * string) := read_octets 4 0 s.

(** [read_groups]: up to [limit] groups of an IPv6 address, the last two as an IPv4 one if they
    can be; whether they were; and the rest. *)
Fixpoint read_groups (n : nat) (limit index : nat) (s : string) : list Z * bool * string :=
  match n with
  | O => ([], false, s)
  | S n =>
      let ipv4 := if (index <? limit - 1)%nat
                  then (s ← after_separator ":" index s; read_ipv4 s) else None in
      match ipv4 with
      | Some ([a; b; c; d], rest) => ([a * 256 + b; c * 256 + d], true, rest)
      | _ =>
          match s' ← after_separator ":" index s; read_number 16 65535 4 true s' with
          | Some (group, rest) =>
              let '(groups, v4, rest) := read_groups n limit (S index) rest in
              (group :: groups, v4, rest)
          | None => ([], false, s)
          end
      end
  end.
Definition read_ipv6 (s : string) : option (list Z * string) :=
  let '(head, head_ipv4, rest) := read_groups 8 8 0 s in
  if (length head =? 8)%nat then Some (head, rest)
  else if head_ipv4 then None
  else
    match rest with
    | String ":" (String ":" rest) =>
        let limit := (8 - (length head + 1))%nat in
        let '(tail, _, rest) := read_groups limit limit 0 rest in
        Some (head ++ replicate (8 - length head - length tail) 0 ++ tail, rest)
    | _ => None
    end.

Inductive IpAddr := V4 (octets : list Z) | V6 (segments : list Z).
#[global] Instance IpAddr_eq_dec : EqDecision IpAddr.
Proof. solve_decision. Defined.

(** [str::parse::<IpAddr>], all of the text. *)
Definition parse_ip (s : string) : option IpAddr :=
  match read_ipv4 s with
  | Some (octets, rest) => if bool_decide (rest = "") then Some (V4 octets) else None
  | None =>
      '(segments, rest) ← read_ipv6 s;
      if bool_decide (rest = "") then Some (V6 segments) else None
  end.

(** ** Locality *)

Definition ipv4_is_private_network (o : list Z) : bool :=
  match o with
  | a :: b :: _ =>
      (a =? 10) || ((a =? 172) && (16 <=? b) && (b <=? 31)) || ((a =? 192) && (b =? 168))
      || ((a =? 169) && (b =? 254)) || ((a =? 100) && (64 <=? b) && (b <=? 127))
  | _ => false
  end.
(** [to_ipv4_mapped]. *)
Definition ipv4_mapped (segments : list Z) : option (list Z) :=
  match segments with
  | [0; 0; 0; 0; 0; 65535; x; y] => Some [x / 256; x mod 256; y / 256; y mod 256]
  | _ => None
  end.
Definition ip_is_private_network (ip : IpAddr) : bool :=
  match ip with
  | V4 o => ipv4_is_private_network o
  | V6 segments =>
      match ipv4_mapped segments with
      | Some o => ipv4_is_private_network o
      | None =>
          match segments with
          | seg0 :: _ => (Z.land seg0 0xfe00 =? 0xfc00) || (Z.land seg0 0xffc0 =? 0xfe80)
          | [] => false
          end
      end
  end.
(** [IpAddr::is_loopback]. *)
Definition ip_is_loopback (ip : IpAddr) : bool :=
  match ip with
  | V4 o => match o with a :: _ => a =? 127 | [] => false end
  | V6 segments => bool_decide (segments = [0; 0; 0; 0; 0; 0; 0; 1])
  end.

Definition unbracket (host : string) : option string :=
  strip_prefix "[" host ≫= strip_suffix_char "]".
Definition parse_host_ip (host : string) : option IpAddr := parse_ip (default host (unbracket host)).
Definition is_localhost (host : string) : bool := bool_decide (to_ascii_lowercase host = "localhost").

Definition host_is_loopback (host : string) : bool :=
  match parse_host_ip host with Some ip => ip_is_loopback ip | None => is_localhost host end.
Definition host_is_local (host : string) (rfc1918_is_local : bool) : bool :=
  match parse_host_ip host with
  | Some ip => ip_is_loopback ip || (rfc1918_is_local && ip_is_private_network ip)
  | None => is_localhost host
  end.

Example local_v4 : host_is_local "172.31.255.255" true = true. Proof. reflexivity. Qed.
Example remote_v4 : host_is_local "172.32.0.1" true = false. Proof. reflexivity. Qed.
Example local_v6 : host_is_local "[fc00::1]" true = true. Proof. reflexivity. Qed.
Example mapped_private : host_is_local "::ffff:10.0.0.5" true = true. Proof. reflexivity. Qed.
Example remote_v6 : host_is_local "2606:4700::1" true = false. Proof. reflexivity. Qed.
Example leading_zero : parse_ip "127.0.0.01" = None. Proof. reflexivity. Qed.

(** ** The proxy *)

Record SocksProxy := { px_host : string; px_port : Z }.
#[global] Instance SocksProxy_eq_dec : EqDecision SocksProxy.
Proof. solve_decision. Defined.

Definition bad_proxy (token why : string) : string := "invalid proxy '" +:+ token +:+ "': " +:+ why.
Definition path_byte (c : ascii) : bool :=
  (byte_of c =? 47) || (byte_of c =? 63) || (byte_of c =? 35).
Definition u16_max_z : Z := 65535.

(** [SocksProxy::parse]. *)
Definition socks_authority (token : string) : result string string :=
  match split_once "://" token with
  | Some (scheme, rest) =>
      if bool_decide (scheme = "socks5") || bool_decide (scheme = "socks5h") then Ok rest
      else Err ("unsupported proxy scheme '" +:+ scheme +:+ "' in '" +:+ token +:+ "': zecd supports "
                +:+ "socks5:// (and socks5h://, an alias - the destination is always resolved "
                +:+ "by the proxy)")
  | None => Err (bad_proxy token "expected socks5://host:port, e.g. socks5://127.0.0.1:9050")
  end.
(** The host without its brackets. *)
Definition socks_host (host : string) : string :=
  match strip_prefix "[" host with Some h => default h (strip_suffix_char "]" h) | None => host end.
Definition socks_parse (given : string) : result string SocksProxy :=
  let token := trim given in
  rest ← socks_authority token;
  if contains "@" rest then
    Err (bad_proxy token ("SOCKS username/password authentication is not "
      +:+ "supported, so credentials cannot be given here - use a proxy that authenticates "
      +:+ "by source address (a loopback or otherwise restricted listener)"))
  else
    match find_byte path_byte rest with
    | Some c => Err (bad_proxy token ("unexpected '" +:+ String c "" +:+ "' - a SOCKS proxy is addressed as "
                                      +:+ "host:port with no path"))
    | None =>
        '(host, port) ← ok_or (rsplit_once ":" rest)
          (bad_proxy token "missing ':port' (a SOCKS proxy has no default port; Tor's is 9050)");
        let host := socks_host host in
        if bool_decide (host = "") then Err (bad_proxy token "empty host")
        else
          n ← ok_or (parse_unsigned u16_max_z port)
                (bad_proxy token ("'" +:+ port +:+ "' is not a port number"));
          if n =? 0 then Err (bad_proxy token "port 0 is not connectable")
          else Ok {| px_host := host; px_port := n |}
    end.
Definition socks_display (p : SocksProxy) : string :=
  if contains ":" (px_host p) then "socks5://[" +:+ px_host p +:+ "]:" +:+ dec (px_port p)
  else "socks5://" +:+ px_host p +:+ ":" +:+ dec (px_port p).

(** The destination handed to the proxy: a name, never an address resolved here. *)
Definition socks_target (host : string) (port : option Z) (https : bool) : string :=
  host +:+ ":" +:+ dec (default (if https then 443 else 80) port).

(** ** TLS *)

Inductive TlsRoots := Native | Webpki.
#[global] Instance TlsRoots_eq_dec : EqDecision TlsRoots.
Proof. solve_decision. Defined.

Definition tls_roots_parse (s : string) : result string TlsRoots :=
  let mode := to_ascii_lowercase (trim s) in
  if bool_decide (mode ∈ ["native"; "system"]) then Ok Native
  else if bool_decide (mode ∈ ["webpki"; "mozilla"]) then Ok Webpki
  else Err ("invalid tls_roots '" +:+ mode +:+ "', expected 'native' or 'webpki'").
(** [None] is the locality heuristic. *)
Definition parse_tls_mode (s : string) : result string (option bool) :=
  let mode := to_ascii_lowercase (trim s) in
  if bool_decide (mode = "auto") then Ok None
  else if bool_decide (mode ∈ ["yes"; "true"; "on"; "tls"]) then Ok (Some true)
  else if bool_decide (mode ∈ ["no"; "false"; "off"; "plaintext"]) then Ok (Some false)
  else Err ("invalid tls '" +:+ mode +:+ "', expected 'auto', 'yes', or 'no'").

(** A fingerprint is its 32 bytes; the hex crate decodes. *)
Section fingerprint.
Context (hex_decode : string → result string string).

Definition fingerprint_hex (s : string) : string :=
  concat_str (List.filter (λ c, negb (bool_decide (c = ":"))) (chars (trim s))).
Definition fingerprint_parse (s : string) : result string string :=
  let hex_only := fingerprint_hex s in
  if negb (String.length hex_only =? 64)%nat then
    Err ("invalid SHA-256 certificate fingerprint '" +:+ s +:+ "': expected 64 hex digits "
         +:+ "(32 bytes), with or without ':' separators, got " +:+ dec (Z.of_nat (String.length hex_only)))
  else map_err (λ e, "invalid SHA-256 certificate fingerprint '" +:+ s +:+ "': " +:+ e) (hex_decode hex_only).
End fingerprint.

Record TlsOptions := {
  to_force_tls : option bool; to_roots : TlsRoots; to_insecure_skip_verify : bool;
  to_ca_pem : option string; to_pins : list string;
}.
Definition tls_default : TlsOptions :=
  {| to_force_tls := None; to_roots := Native; to_insecure_skip_verify := false; to_ca_pem := None;
     to_pins := [] |}.
Definition requires_tls (t : TlsOptions) : bool :=
  is_some (to_ca_pem t) || negb (bool_decide (to_pins t = [])).

(** How a certificate is checked: pinned, with a private CA's chain or without; against public
    roots and maybe a private CA; or not at all. *)
Inductive TlsVerification :=
  | Pinned (pins : list string) (chain : option string)
  | PublicRoots (roots : TlsRoots) (ca : option string)
  | Unverified.
#[global] Instance TlsVerification_eq_dec : EqDecision TlsVerification.
Proof. solve_decision. Defined.

(** [verify_server_cert] of each: [chain_ok] is the webpki check of the chain and the name against
    a private CA, [public_ok] against the public roots and maybe one. *)
Definition verify_server_cert (chain_ok : string → bool) (public_ok : TlsRoots → option string → bool)
    (v : TlsVerification) (fingerprint : string) : bool :=
  match v with
  | Pinned pins chain =>
      bool_decide (fingerprint ∈ pins) && match chain with Some ca => chain_ok ca | None => true end
  | PublicRoots roots ca => public_ok roots ca
  | Unverified => true
  end.

(** ** Credentials *)

Record ZebraAuth := { za_user : option string; za_password : option string; za_cookie : option string }.
#[global] Instance ZebraAuth_eq_dec : EqDecision ZebraAuth.
Proof. solve_decision. Defined.
Definition no_auth : ZebraAuth := {| za_user := None; za_password := None; za_cookie := None |}.

Definition auth_is_configured (a : ZebraAuth) : bool :=
  is_some (za_cookie a) || is_some (za_user a) || is_some (za_password a).
Definition set_together : string := "[zebra] rpc_user and rpc_password must be set together".
Definition auth_validate (a : ZebraAuth) : result string () :=
  if is_some (za_cookie a) then Ok tt
  else match za_user a, za_password a with
       | Some _, None | None, Some _ => Err set_together
       | _, _ => Ok tt
       end.

Record CleartextPolicy := { cp_rfc1918_is_local : bool; cp_allow_remote_cleartext : bool }.
Definition cleartext_default : CleartextPolicy :=
  {| cp_rfc1918_is_local := true; cp_allow_remote_cleartext := false |}.

Definition cleartext_gate (host : string) (credentialed : bool) (policy : CleartextPolicy) :
    result string () :=
  if credentialed && negb (host_is_local host (cp_rfc1918_is_local policy))
     && negb (cp_allow_remote_cleartext policy) then
    Err ("refusing to send zebra RPC credentials in cleartext to the globally-routable "
         +:+ "host '" +:+ host +:+ "': the zebra connection is plaintext HTTP, so the Authorization "
         +:+ "header would cross the public internet in the clear. Point zecd at a loopback or "
         +:+ "private-network zebra (127.0.0.1/localhost, an RFC1918/container address), tunnel "
         +:+ "the RPC port over SSH/WireGuard and use the local end, or set `[backend] "
         +:+ "allow_remote_cleartext = true` if the hop is already secured.")
  else Ok tt.

(** ** The endpoint *)

Inductive ServerKind := Lightwalletd | ZebraRpc.
#[global] Instance ServerKind_eq_dec : EqDecision ServerKind.
Proof. solve_decision. Defined.

Record Server := {
  sv_host : string; sv_port : Z; sv_kind : ServerKind; sv_network : ZNetwork; sv_tls : TlsOptions;
  sv_zebra_auth : ZebraAuth; sv_cleartext_policy : CleartextPolicy; sv_assume_transparent : bool;
  sv_proxy : option SocksProxy;
}.

Definition server_new (host : string) (port : Z) (kind : ServerKind) (n : ZNetwork)
    (force_tls : option bool) : Server :=
  {| sv_host := host; sv_port := port; sv_kind := kind; sv_network := n;
     sv_tls := {| to_force_tls := force_tls; to_roots := Native; to_insecure_skip_verify := false;
                  to_ca_pem := None; to_pins := [] |};
     sv_zebra_auth := no_auth; sv_cleartext_policy := cleartext_default; sv_assume_transparent := false;
     sv_proxy := None |}.

Definition ZEBRA_RPC_PORT_MAIN : Z := 8234.
Definition ZEBRA_RPC_PORT_TEST : Z := 18234.
Definition ZEC_ROCKS_MAINNET : string * Z := ("zec.rocks", 443).
Definition ZEC_ROCKS_TESTNET : string * Z := ("testnet.zec.rocks", 443).

(** [str::trim_end_matches(c)]. *)
Fixpoint trim_end_char (c : ascii) (s : string) : string :=
  match s with
  | "" => ""
  | String d rest =>
      match trim_end_char c rest with
      | "" => if bool_decide (c = d) then "" else String d ""
      | rest => String d rest
      end
  end.

(** The kind and the TLS mode a token's scheme names, and what follows it. *)
Definition token_scheme (server : string) : ServerKind * option bool * string :=
  match strip_prefix "zebra://" server with
  | Some rest => (ZebraRpc, None, rest)
  | None =>
      match strip_prefix "https://" server with
      | Some rest => (Lightwalletd, Some true, rest)
      | None =>
          match strip_prefix "http://" server with
          | Some rest => (Lightwalletd, Some false, rest)
          | None => (Lightwalletd, None, server)
          end
      end
  end.
Definition resolve (server : string) (n : ZNetwork) : result string Server :=
  if bool_decide (server = "zebra") then
    Ok (server_new "127.0.0.1" (match n with Main => ZEBRA_RPC_PORT_MAIN | _ => ZEBRA_RPC_PORT_TEST end)
          ZebraRpc n None)
  else if bool_decide (server = "zecrocks") then
    match n with
    | Main => Ok (server_new (fst ZEC_ROCKS_MAINNET) (snd ZEC_ROCKS_MAINNET) Lightwalletd n (Some true))
    | Test => Ok (server_new (fst ZEC_ROCKS_TESTNET) (snd ZEC_ROCKS_TESTNET) Lightwalletd n (Some true))
    | Regtest _ =>
        Err ("the 'zecrocks' preset serves mainnet and testnet only (regtest needs a "
             +:+ "local upstream)")
    end
  else
    let '(kind, force_tls, rest) := token_scheme server in
    let rest := trim_end_char "/" rest in
    '(host, port) ←
      match rsplit_once ":" rest with
      | Some (host, port) =>
          n ← ok_or (parse_unsigned u16_max_z port) ("invalid port in '" +:+ server +:+ "'"); Ok (host, n)
      | None =>
          if bool_decide (force_tls = Some true) then Ok (rest, 443)
          else Err ("invalid endpoint '" +:+ server +:+ "', expected host:port (or zebra | zecrocks | "
                    +:+ "zebra://host:port | https://host[:port] | http://host:port)")
      end;
    if bool_decide (host = "") then Err ("invalid endpoint '" +:+ server +:+ "': empty host")
    else Ok (server_new host port kind n force_tls).

(** *** What the configuration applies to it *)

Definition apply_zebra_auth (s : Server) (a : ZebraAuth) : Server :=
  match sv_kind s with
  | Lightwalletd => s
  | ZebraRpc =>
      {| sv_host := sv_host s; sv_port := sv_port s; sv_kind := sv_kind s; sv_network := sv_network s;
         sv_tls := sv_tls s; sv_zebra_auth := a; sv_cleartext_policy := sv_cleartext_policy s;
         sv_assume_transparent := sv_assume_transparent s; sv_proxy := sv_proxy s |}
  end.
Definition apply_cleartext_policy (s : Server) (policy : CleartextPolicy) : Server :=
  {| sv_host := sv_host s; sv_port := sv_port s; sv_kind := sv_kind s; sv_network := sv_network s;
     sv_tls := sv_tls s; sv_zebra_auth := sv_zebra_auth s; sv_cleartext_policy := policy;
     sv_assume_transparent := sv_assume_transparent s; sv_proxy := sv_proxy s |}.
(** The mode the token's scheme forced stands. *)
Definition apply_tls (s : Server) (opts : TlsOptions) : Server :=
  {| sv_host := sv_host s; sv_port := sv_port s; sv_kind := sv_kind s; sv_network := sv_network s;
     sv_tls := match to_force_tls (sv_tls s) with
               | Some forced =>
                   {| to_force_tls := Some forced; to_roots := to_roots opts;
                      to_insecure_skip_verify := to_insecure_skip_verify opts;
                      to_ca_pem := to_ca_pem opts; to_pins := to_pins opts |}
               | None => opts
               end;
     sv_zebra_auth := sv_zebra_auth s; sv_cleartext_policy := sv_cleartext_policy s;
     sv_assume_transparent := sv_assume_transparent s; sv_proxy := sv_proxy s |}.
Definition apply_transparent_capability_override (s : Server) (assume : bool) : Server :=
  if assume && negb (bool_decide (sv_kind s = Lightwalletd)) then s
  else {| sv_host := sv_host s; sv_port := sv_port s; sv_kind := sv_kind s; sv_network := sv_network s;
          sv_tls := sv_tls s; sv_zebra_auth := sv_zebra_auth s;
          sv_cleartext_policy := sv_cleartext_policy s; sv_assume_transparent := assume;
          sv_proxy := sv_proxy s |}.
Definition apply_proxy (s : Server) (proxy : option SocksProxy) : Server :=
  {| sv_host := sv_host s; sv_port := sv_port s; sv_kind := sv_kind s; sv_network := sv_network s;
     sv_tls := sv_tls s; sv_zebra_auth := sv_zebra_auth s; sv_cleartext_policy := sv_cleartext_policy s;
     sv_assume_transparent := sv_assume_transparent s; sv_proxy := proxy |}.

(** ** The [[backend]] section *)

(** The settings of an endpoint, and the daemon's policy for all of them; [bk_ca] is the CA's PEM
    and the file it was read from. *)
Record BackendConfig := {
  bk_server : string; bk_tls : option bool; bk_tls_roots : TlsRoots; bk_tls_insecure_skip_verify : bool;
  bk_tls_ca_pem : option string; bk_tls_ca_file : option string; bk_tls_pins : list string;
  bk_assume_transparent : bool;
  bk_connect_timeout_secs : Z; bk_reconnect_base_secs : Z; bk_reconnect_max_secs : Z;
  bk_rfc1918_is_local : bool; bk_allow_remote_cleartext : bool; bk_proxy : option SocksProxy;
}.
Record WalletBackendOverride := {
  wo_server : option string; wo_tls : option (option bool); wo_tls_roots : option TlsRoots;
  wo_tls_insecure_skip_verify : option bool; wo_tls_ca_pem : option string;
  wo_tls_ca_file : option string; wo_tls_pins : option (list string); wo_assume_transparent : option bool;
}.

Definition override_is_empty (o : WalletBackendOverride) : bool :=
  negb (is_some (wo_server o) || is_some (wo_tls o) || is_some (wo_tls_roots o)
        || is_some (wo_tls_insecure_skip_verify o) || is_some (wo_tls_ca_pem o)
        || is_some (wo_tls_pins o) || is_some (wo_assume_transparent o)).

(** [Option::or]. *)
Definition option_or {A} (a b : option A) : option A := match a with Some _ => a | None => b end.

Definition effective (o : WalletBackendOverride) (g : BackendConfig) : BackendConfig :=
  {| bk_server := default (bk_server g) (wo_server o);
     bk_tls := default (bk_tls g) (wo_tls o);
     bk_tls_roots := default (bk_tls_roots g) (wo_tls_roots o);
     bk_tls_insecure_skip_verify := default (bk_tls_insecure_skip_verify g) (wo_tls_insecure_skip_verify o);
     bk_tls_ca_pem := option_or (wo_tls_ca_pem o) (bk_tls_ca_pem g);
     bk_tls_ca_file := option_or (wo_tls_ca_file o) (bk_tls_ca_file g);
     bk_tls_pins := default (bk_tls_pins g) (wo_tls_pins o);
     bk_assume_transparent := default (bk_assume_transparent g) (wo_assume_transparent o);
     bk_connect_timeout_secs := bk_connect_timeout_secs g;
     bk_reconnect_base_secs := bk_reconnect_base_secs g;
     bk_reconnect_max_secs := bk_reconnect_max_secs g;
     bk_rfc1918_is_local := bk_rfc1918_is_local g;
     bk_allow_remote_cleartext := bk_allow_remote_cleartext g;
     bk_proxy := bk_proxy g |}.

Definition tls_options (b : BackendConfig) : TlsOptions :=
  {| to_force_tls := bk_tls b; to_roots := bk_tls_roots b;
     to_insecure_skip_verify := bk_tls_insecure_skip_verify b; to_ca_pem := bk_tls_ca_pem b;
     to_pins := bk_tls_pins b |}.
Definition backend_policy (b : BackendConfig) : CleartextPolicy :=
  {| cp_rfc1918_is_local := bk_rfc1918_is_local b; cp_allow_remote_cleartext := bk_allow_remote_cleartext b |}.

Definition DEFAULT_SERVER : string := "zebra".

(** [resolve_configured], of the [[backend]] and [[zebra]] sections. *)
Definition resolve_configured (b : BackendConfig) (auth : ZebraAuth) (n : ZNetwork) : result string Server :=
  s ← resolve (bk_server b) n;
  let s := apply_zebra_auth s auth in
  let s := apply_cleartext_policy s (backend_policy b) in
  let s := apply_tls s (tls_options b) in
  let s := apply_transparent_capability_override s (bk_assume_transparent b) in
  Ok (apply_proxy s (bk_proxy b)).
Definition resolve_for_wallet (o : WalletBackendOverride) (g : BackendConfig) (auth : ZebraAuth)
    (n : ZNetwork) : result string Server :=
  resolve_configured (effective o g) auth n.

(** ** Dialing *)

Definition use_tls (s : Server) : bool := default (negb (host_is_local (sv_host s) true)) (to_force_tls (sv_tls s)).
Definition endpoint (s : Server) : string :=
  (if use_tls s then "https" else "http") +:+ "://" +:+ sv_host s +:+ ":" +:+ dec (sv_port s).
Definition describe (s : Server) : string :=
  let via := match sv_proxy s with Some p => " via " +:+ socks_display p | None => "" end in
  match sv_kind s with
  | Lightwalletd =>
      "lightwalletd " +:+ sv_host s +:+ ":" +:+ dec (sv_port s) +:+ " (tls="
      +:+ (if use_tls s then "true" else "false") +:+ ")" +:+ via
  | ZebraRpc => "zebra-rpc " +:+ sv_host s +:+ ":" +:+ dec (sv_port s) +:+ via
  end.

Definition check_plaintext_lwd (s : Server) : result string () :=
  let at_ := sv_host s +:+ ":" +:+ dec (sv_port s) in
  if requires_tls (sv_tls s) then
    Err ("[backend] tls_pinned_sha256/tls_ca_file are set, but " +:+ at_ +:+ " resolved to a "
         +:+ "plaintext connection, where neither can be checked; set tls = " +:+ quoted "yes" +:+ " (or "
         +:+ "use an https:// endpoint) to require TLS")
  else if negb (host_is_local (sv_host s) (cp_rfc1918_is_local (sv_cleartext_policy s)))
          && negb (cp_allow_remote_cleartext (sv_cleartext_policy s)) then
    Err ("refusing plaintext lightwalletd connection to non-local host " +:+ at_ +:+ " - "
         +:+ "use https:// (or tls = " +:+ quoted "yes" +:+ "), or set [backend] "
         +:+ "allow_remote_cleartext = true if this hop is secured out-of-band")
  else Ok tt.

Definition preflight (s : Server) : result string () :=
  match sv_kind s with
  | Lightwalletd => if use_tls s then Ok tt else check_plaintext_lwd s
  | ZebraRpc =>
      _ ← auth_validate (sv_zebra_auth s);
      cleartext_gate (sv_host s) (auth_is_configured (sv_zebra_auth s)) (sv_cleartext_policy s)
  end.

(** A connection as it is opened: where, over which TLS, with which [Authorization] header and
    through which proxy. *)
Inductive Dial :=
  | DialLwd (uri : string) (tls : option TlsVerification) (via : option SocksProxy)
  | DialZebra (uri : string) (authorization : option string) (via : option SocksProxy).

Section dial.
(** The base64 of a credential; the cookie file's contents or why it cannot be read; whether a URI
    parses, whether a PEM holds a usable CA and whether TLS can be set up for a host, or why not;
    and SHA-256 in hexadecimal. *)
Context (b64 : string → string) (read_file : string → result string string)
        (uri_ok : string → result string ()) (pem_ok : string → result string ())
        (tls_ok : string → TlsVerification → result string ()) (sha256_hex : string → string).

Definition basic (cred : string) : string := "Basic " +:+ b64 cred.
(** [ZebraAuth::header]. *)
Definition auth_header (a : ZebraAuth) : result string (option string) :=
  _ ← auth_validate a;
  match za_cookie a with
  | Some path =>
      contents ← map_err (λ e, "reading zebra rpc cookie " +:+ path +:+ ": " +:+ e) (read_file path);
      let cred := trim contents in
      if contains ":" cred then Ok (Some (basic cred))
      else Err ("zebra rpc cookie " +:+ path +:+ " is not in user:password form")
  | None =>
      match za_user a, za_password a with
      | Some u, Some p => Ok (Some (basic (u +:+ ":" +:+ p)))
      | None, None => Ok None
      | _, _ => Err set_together
      end
  end.

(** What is hashed to tell two sets of credentials apart: each field tagged and with its length in
    eight bytes, the least significant first. *)
Fixpoint le_bytes (n : nat) (z : Z) : string :=
  match n with
  | O => ""
  | S n => String (ascii_of_nat (Z.to_nat (z mod 256))) (le_bytes n (z / 256))
  end.
Definition digest_field (tag : Z) (value : option string) : string :=
  le_bytes 1 tag
  +:+ match value with
      | Some v => le_bytes 1 1 +:+ le_bytes 8 (Z.of_nat (String.length v)) +:+ v
      | None => le_bytes 1 0
      end.
Definition identity_preimage (a : ZebraAuth) : string :=
  "zecd zebra auth v1" +:+ digest_field 0 (za_user a) +:+ digest_field 1 (za_password a)
  +:+ digest_field 2 (za_cookie a).
Definition identity_digest (a : ZebraAuth) : string := sha256_hex (identity_preimage a).

(** The TLS arm of [connect_lwd]. *)
Definition tls_verification (t : TlsOptions) : result string TlsVerification :=
  match to_pins t with
  | _ :: _ =>
      _ ← match to_ca_pem t with Some pem => pem_ok pem | None => Ok tt end;
      Ok (Pinned (to_pins t) (to_ca_pem t))
  | [] =>
      if to_insecure_skip_verify t then Ok Unverified else Ok (PublicRoots (to_roots t) (to_ca_pem t))
  end.
Definition connect_lwd (s : Server) : result string Dial :=
  if use_tls s then
    _ ← uri_ok (endpoint s);
    v ← tls_verification (sv_tls s);
    _ ← tls_ok (sv_host s) v;
    Ok (DialLwd (endpoint s) (Some v) (sv_proxy s))
  else
    _ ← check_plaintext_lwd s;
    _ ← uri_ok (endpoint s);
    Ok (DialLwd (endpoint s) None (sv_proxy s)).

(** [ZebraClient::new]. *)
Definition zebra_client (host : string) (port : Z) (a : ZebraAuth) (policy : CleartextPolicy)
    (proxy : option SocksProxy) : result string Dial :=
  let url := "http://" +:+ host +:+ ":" +:+ dec port +:+ "/" in
  _ ← map_err (λ e, "invalid zebra rpc address " +:+ host +:+ ":" +:+ dec port +:+ ": " +:+ e) (uri_ok url);
  header ← auth_header a;
  _ ← cleartext_gate host (is_some header) policy;
  Ok (DialZebra url header proxy).

(** [connect_timeout]: the connection opened; what is then asked of it is the upstream's. *)
Definition connect (s : Server) : result string Dial :=
  match sv_kind s with
  | Lightwalletd => connect_lwd s
  | ZebraRpc => zebra_client (sv_host s) (sv_port s) (sv_zebra_auth s) (sv_cleartext_policy s) (sv_proxy s)
  end.
End dial.
