(* ===== verification/EndpointSpec.v ===== *)
(** * EndpointSpec: what the dialing code of [Endpoint] promises

    No secret and no wallet query crosses a hop the policy does not allow; a pinned certificate is
    always checked; a check of the configuration agrees with a dial; the text of a proxy reads
    back, and credentials are told apart. *)

From S2P Require Export Endpoint.

(** ** What a resolved endpoint carries *)

(** A token that asks for TLS. *)
Definition token_forces_tls (token : string) : bool :=
  bool_decide (token = "zecrocks") || starts_with "https://" token.
Definition token_is_zebra (token : string) : bool :=
  bool_decide (token = "zebra") || starts_with "zebra://" token.
#[global] Arguments token_forces_tls : simpl never.
#[global] Arguments token_is_zebra : simpl never.

Lemma https_not_zebra token : starts_with "https://" token = true → strip_prefix "zebra://" token = None.
Proof. destruct token as [|c token]; [done|]. unfold starts_with. cbn. repeat case_bool_decide; congruence. Qed.

Lemma resolve_fields token n s :
  resolve token n = Ok s →
  (token_forces_tls token = true → sv_kind s = Lightwalletd ∧ to_force_tls (sv_tls s) = Some true) ∧
  (sv_kind s = ZebraRpc ↔ token_is_zebra token = true) ∧
  sv_zebra_auth s = no_auth ∧ sv_host s ≠ "" ∧ sv_network s = n.
Proof.
  unfold resolve, token_forces_tls, token_is_zebra. case_bool_decide as Hz.
  { intros [= <-]. subst. destruct n; by split_and!. }
  case_bool_decide as Hr.
  { subst. destruct n; intros [= <-]; by split_and!. }
  rewrite !orb_false_l. destruct (token_scheme token) as [[kind force] rest] eqn:Hs.
  intros (hp & _ & H)%bind_Ok_inv. destruct hp as [host port].
  case_bool_decide as Hh; [done|]. injection H as <-. cbn.
  unfold token_scheme, starts_with in *. split_and!; try done.
  - intros Hf. rewrite https_not_zebra in Hs by done. unfold starts_with in Hf.
    destruct (strip_prefix "https://" token); [|done]. by injection Hs as <- <- _.
  - destruct (strip_prefix "zebra://" token); [by injection Hs as <- _ _|].
    destruct (strip_prefix "https://" token); [by injection Hs as <- _ _|].
    destruct (strip_prefix "http://" token); by injection Hs as <- _ _.
Qed.

Lemma resolved_fields o g auth n s :
  resolve_for_wallet o g auth n = Ok s →
  let b := effective o g in
  (token_forces_tls (bk_server b) = true → sv_kind s = Lightwalletd ∧ use_tls s = true) ∧
  (sv_kind s = ZebraRpc ↔ token_is_zebra (bk_server b) = true) ∧
  to_pins (sv_tls s) = bk_tls_pins b ∧ to_ca_pem (sv_tls s) = bk_tls_ca_pem b ∧
  to_roots (sv_tls s) = bk_tls_roots b ∧
  to_insecure_skip_verify (sv_tls s) = bk_tls_insecure_skip_verify b ∧
  sv_zebra_auth s = (if token_is_zebra (bk_server b) then auth else no_auth) ∧
  sv_cleartext_policy s = backend_policy g ∧ sv_proxy s = bk_proxy g.
Proof.
  intros H b. unfold resolve_for_wallet in H. fold b in H.
  assert (backend_policy b = backend_policy g ∧ bk_proxy b = bk_proxy g) as [Hpol Hx] by done.
  rewrite <- Hpol, <- Hx. clear Hpol Hx. clearbody b. clear o g.
  apply bind_Ok_inv in H as (s0 & Hs0 & [= <-]). apply resolve_fields in Hs0 as (Hf & Hk & Ha & _ & _).
  destruct s0 as [host port kind net tls a policy t proxy]. cbn in *.
  unfold apply_transparent_capability_override, apply_zebra_auth. cbn.
  destruct kind; cbn; rewrite ?andb_false_r.
  - assert (token_is_zebra (bk_server b) = false) as -> by (apply not_true_iff_false; by intros ?%Hk).
    split_and!; try done; try (destruct (to_force_tls tls); done).
    intros [_ Ht]%Hf. unfold use_tls. cbn. by rewrite Ht.
  - assert (token_is_zebra (bk_server b) = true) as -> by by apply Hk.
    rewrite (bool_decide_eq_false_2 (ZebraRpc = Lightwalletd)) by done.
    destruct (bk_assume_transparent b); cbn; split_and!; try done; try (destruct (to_force_tls tls); done);
      by intros [? _]%Hf.
Qed.

(** ** A dial *)

Section dialing.
Context (b64 : string → string) (read_file : string → result string string)
        (uri_ok : string → result string ()) (pem_ok : string → result string ())
        (tls_ok : string → TlsVerification → result string ()).

#[local] Abbreviation connect := (connect b64 read_file uri_ok pem_ok tls_ok).

(** What a hop in the clear needs. *)
Definition hop_allowed (policy : CleartextPolicy) (host : string) : Prop :=
  host_is_local host (cp_rfc1918_is_local policy) = true ∨ cp_allow_remote_cleartext policy = true.

Lemma hop_checked policy host :
  negb (host_is_local host (cp_rfc1918_is_local policy)) && negb (cp_allow_remote_cleartext policy) = false ↔
  hop_allowed policy host.
Proof.
  unfold hop_allowed. destruct (host_is_local _ _), (cp_allow_remote_cleartext policy); cbn; naive_solver.
Qed.
Lemma gate_exact host credentialed policy :
  cleartext_gate host credentialed policy = Ok tt ↔ (credentialed = true → hop_allowed policy host).
Proof.
  unfold cleartext_gate. rewrite <- hop_checked. destruct credentialed; cbn.
  - destruct (negb _ && _); naive_solver.
  - naive_solver.
Qed.
Lemma plaintext_exact s :
  check_plaintext_lwd s = Ok tt ↔
  to_pins (sv_tls s) = [] ∧ to_ca_pem (sv_tls s) = None ∧ hop_allowed (sv_cleartext_policy s) (sv_host s).
Proof.
  unfold check_plaintext_lwd, requires_tls. rewrite <- hop_checked.
  destruct (to_ca_pem (sv_tls s)); cbn; [naive_solver|]. case_bool_decide; cbn; [|naive_solver].
  destruct (negb _ && _); naive_solver.
Qed.

(** The header carries the configured credential and there is one exactly when one is configured. *)
Lemma header_configured a h :
  auth_header b64 read_file a = Ok h → auth_validate a = Ok tt ∧ is_some h = auth_is_configured a.
Proof.
  unfold auth_header. intros ([] & Hv & H)%bind_Ok_inv. split; [done|]. unfold auth_is_configured, auth_validate in *.
  destruct (za_cookie a) as [path|].
  - apply bind_Ok_inv in H as (c & _ & H). destruct (contains _ _); [|done]. by injection H as <-.
  - destruct (za_user a), (za_password a); try done; by injection H as <-.
Qed.

Lemma dialed s d :
  connect s = Ok d →
  preflight s = Ok tt ∧
  match d with
  | DialLwd uri tls via =>
      sv_kind s = Lightwalletd ∧ uri = endpoint s ∧ via = sv_proxy s ∧
      match tls with
      | Some v => use_tls s = true ∧ tls_verification pem_ok (sv_tls s) = Ok v
      | None => use_tls s = false
      end
  | DialZebra uri header via =>
      sv_kind s = ZebraRpc ∧ uri = "http://" +:+ sv_host s +:+ ":" +:+ dec (sv_port s) +:+ "/" ∧
      via = sv_proxy s ∧ auth_header b64 read_file (sv_zebra_auth s) = Ok header
  end.
Proof.
  unfold connect, preflight. destruct (sv_kind s).
  - unfold connect_lwd. destruct (use_tls s) eqn:Ht.
    + intros (? & _ & (v & Hv & (? & _ & [= <-])%bind_Ok_inv)%bind_Ok_inv)%bind_Ok_inv. by split_and!.
    + intros ([] & Hc & (? & _ & [= <-])%bind_Ok_inv)%bind_Ok_inv. by split_and!.
  - unfold zebra_client. intros (? & _ & (h & Hh & ([] & Hg & [= <-])%bind_Ok_inv)%bind_Ok_inv)%bind_Ok_inv.
    destruct (header_configured _ _ Hh) as [-> <-]. cbn. by rewrite Hg.
Qed.

(** Pins, when there are any, are what a certificate is checked against, and a private CA with
    them; without pins or the opt-out, the public roots. *)
Lemma verification_exact t v :
  tls_verification pem_ok t = Ok v →
  v = match to_pins t with
      | [] => if to_insecure_skip_verify t then Unverified else PublicRoots (to_roots t) (to_ca_pem t)
      | pins => Pinned pins (to_ca_pem t)
      end.
Proof.
  unfold tls_verification. destruct (to_pins t) as [|p pins]; [destruct (to_insecure_skip_verify t); by intros [= <-]|].
  by intros (? & _ & [= <-])%bind_Ok_inv.
Qed.

(** C9. For every wallet: a connection that is opened carries an [Authorization] header only to a
    zebra endpoint whose host is local under the policy or explicitly allowed, and the header
    exists exactly when the deployment configured credentials (an endpoint it sends none to is
    dialed in the clear wherever it is); a lightwalletd connection without
    TLS goes only to such a host, never for a token that asks for TLS, and never when a pin or a
    private CA is configured; over TLS a certificate is accepted only if it is one of the pinned
    ones, if any, and unchecked only by the explicit opt-out; and the configured proxy, the only
    one, carries all of them. *)
Theorem dial_is_safe (o : WalletBackendOverride) (g : BackendConfig) (auth : ZebraAuth) (n : ZNetwork)
    (s : Server) (d : Dial)
    (Hresolved : resolve_for_wallet o g auth n = Ok s) (Hdial : connect s = Ok d) :
  let b := effective o g in
  let policy := backend_policy g in
  match d with
  | DialZebra uri header via =>
      token_is_zebra (bk_server b) = true ∧
      uri = "http://" +:+ sv_host s +:+ ":" +:+ dec (sv_port s) +:+ "/" ∧
      via = bk_proxy g ∧
      is_some header = auth_is_configured auth ∧
      (is_some header = true → hop_allowed policy (sv_host s))
  | DialLwd uri None via =>
      token_is_zebra (bk_server b) = false ∧ token_forces_tls (bk_server b) = false ∧
      uri = "http://" +:+ sv_host s +:+ ":" +:+ dec (sv_port s) ∧
      via = bk_proxy g ∧
      bk_tls_pins b = [] ∧ bk_tls_ca_pem b = None ∧ hop_allowed policy (sv_host s)
  | DialLwd uri (Some v) via =>
      token_is_zebra (bk_server b) = false ∧
      uri = "https://" +:+ sv_host s +:+ ":" +:+ dec (sv_port s) ∧
      via = bk_proxy g ∧
      (∀ chain_ok public_ok fingerprint, verify_server_cert chain_ok public_ok v fingerprint = true →
         (bk_tls_pins b ≠ [] → fingerprint ∈ bk_tls_pins b ∧
            (∀ ca, bk_tls_ca_pem b = Some ca → chain_ok ca = true)) ∧
         (bk_tls_pins b = [] → bk_tls_insecure_skip_verify b = false →
            public_ok (bk_tls_roots b) (bk_tls_ca_pem b) = true))
  end.
Proof.
  intros b policy. apply resolved_fields in Hresolved as (Hf & Hk & Hp & Hc & Hr & Hi & Ha & Hpol & Hx). fold b in Hf, Hk, Hp, Hc, Hr, Hi, Ha.
  apply dialed in Hdial as [Hpre Hd]. destruct d as [uri [v|] via|uri header via].
  all: destruct Hd as (Hkind & -> & -> & Hd); unfold preflight in Hpre; rewrite Hkind in Hpre; rewrite Hx.
  - assert (token_is_zebra (bk_server b) = false) by (apply not_true_iff_false; rewrite <- Hk; congruence).
    destruct Hd as [Ht Hv]. unfold endpoint. rewrite Ht. split_and!; try done.
    intros chain_ok public_ok fp. apply verification_exact in Hv as ->. rewrite Hp, Hc, Hr, Hi.
    destruct (bk_tls_pins b) as [|p pins].
    + intros Hok. split; [done|]. intros _ Hskip. by rewrite Hskip in Hok.
    + cbn. intros [Hin%bool_decide_eq_true Hca]%andb_true_iff. split; [|done]. intros _. split; [done|].
      intros ca Heq. by rewrite Heq in Hca.
  - assert (token_is_zebra (bk_server b) = false) by (apply not_true_iff_false; rewrite <- Hk; congruence).
    unfold endpoint. rewrite Hd in Hpre |- *. apply plaintext_exact in Hpre as (? & ? & ?).
    rewrite Hpol in *. rewrite Hp, Hc in *. split_and!; try done.
    apply not_true_iff_false. intros [_ ?]%Hf. congruence.
  - assert (token_is_zebra (bk_server b) = true) as Hz by by apply Hk.
    rewrite Hz in Ha. rewrite Ha in *. apply header_configured in Hd as [_ Hh].
    apply bind_Ok_inv in Hpre as ([] & _ & Hg). rewrite gate_exact, Hpol in Hg. rewrite Hh. by split_and!.
Qed.

(** What a dial needs beyond the configuration: an address that parses, a readable cookie in the
    form of one, and TLS that can be set up. *)
Definition dialable (s : Server) : Prop :=
  match sv_kind s with
  | ZebraRpc =>
      is_Ok (uri_ok ("http://" +:+ sv_host s +:+ ":" +:+ dec (sv_port s) +:+ "/")) ∧
      ∀ path, za_cookie (sv_zebra_auth s) = Some path →
        ∃ contents, read_file path = Ok contents ∧ contains ":" (trim contents) = true
  | Lightwalletd =>
      is_Ok (uri_ok (endpoint s)) ∧
      (use_tls s = true → ∃ v, tls_verification pem_ok (sv_tls s) = Ok v ∧ is_Ok (tls_ok (sv_host s) v))
  end.

Lemma header_readable a :
  is_Ok (auth_header b64 read_file a) ↔
  auth_validate a = Ok tt ∧
  ∀ path, za_cookie a = Some path → ∃ contents, read_file path = Ok contents ∧ contains ":" (trim contents) = true.
Proof.
  unfold auth_header. split.
  - intros [h ([] & Hv & H)%bind_Ok_inv]. split; [done|]. intros path Hpath. rewrite Hpath in H.
    apply bind_Ok_inv in H as (c & Hc & H). destruct (read_file path); [|done]. injection Hc as ->.
    destruct (contains _ _) eqn:E; [|done]. eauto.
  - intros [Hv Hc]. rewrite Hv. cbn. unfold auth_validate in Hv. destruct (za_cookie a) as [path|].
    + destruct (Hc path eq_refl) as (c & -> & E). cbn. rewrite E. by eexists.
    + destruct (za_user a), (za_password a); try done; by eexists.
Qed.

(** The check of a configuration never drifts from a dial: a connection opens exactly when the
    check passes and what the check may not look at - the address, the cookie file, the TLS set-up -
    is in order. *)
Theorem preflight_never_drifts (s : Server) :
  is_Ok (connect s) ↔ preflight s = Ok tt ∧ dialable s.
Proof.
  split.
  - intros [d H]. pose proof H as H'. apply dialed in H' as [Hpre _]. split; [done|]. unfold dialable.
    unfold Endpoint.connect in H. destruct (sv_kind s).
    + unfold connect_lwd in H. destruct (use_tls s).
      * apply bind_Ok_inv in H as (? & Hu & (v & Hv & (? & Ht & _)%bind_Ok_inv)%bind_Ok_inv).
        split; [by eexists|]. intros _. exists v. split; [done|]. by eexists.
      * apply bind_Ok_inv in H as (? & _ & (? & Hu & _)%bind_Ok_inv). split; [by eexists|done].
    + apply bind_Ok_inv in H as (? & Hu & (h & Hh & _)%bind_Ok_inv). split.
      * destruct (uri_ok _); [by eexists|done].
      * apply header_readable. by eexists.
  - intros [Hpre Hd]. unfold dialable, preflight, Endpoint.connect in *. destruct (sv_kind s).
    + destruct Hd as [[[] Hu] Ht]. unfold connect_lwd. destruct (use_tls s).
      * destruct (Ht eq_refl) as (v & Hv & [[] Hok]). rewrite Hu. cbn. rewrite Hv. cbn. rewrite Hok. by eexists.
      * rewrite Hpre. cbn. rewrite Hu. by eexists.
    + destruct Hd as [[[] Hu] Hc]. apply bind_Ok_inv in Hpre as ([] & Hv & Hg).
      destruct (proj2 (header_readable _) (conj Hv Hc)) as [h Hh]. unfold zebra_client. rewrite Hu. cbn. rewrite Hh.
      cbn. apply header_configured in Hh as [_ ->]. rewrite Hg. by eexists.
Qed.
End dialing.

(** ** The text of a proxy *)

Definition proxy_byte (c : ascii) : bool := negb (bool_decide ("@"%char = c)) && negb (path_byte c).

Lemma proxy_byte_at s : all_bytes proxy_byte s = true → contains "@" s = false ∧ find_byte path_byte s = None.
Proof.
  intros H. split.
  - rewrite contains_byte. apply negb_false_iff. eapply all_bytes_impl, H. by intros c [? _]%andb_true_iff.
  - apply find_byte_none. eapply all_bytes_impl, H. by intros c [_ ?]%andb_true_iff.
Qed.
Lemma proxy_byte_of s :
  contains "@" s = false → find_byte path_byte s = None → all_bytes proxy_byte s = true.
Proof.
  rewrite contains_byte, find_byte_none, negb_false_iff. intros H1 H2.
  induction s as [|c s IH]; [done|]. cbn in *. apply andb_true_iff in H1 as [H1 H1'], H2 as [H2 H2'].
  unfold proxy_byte. rewrite H1, H2. cbn. by apply IH.
Qed.
Lemma digit_facts c : is_ascii_digit c = true → proxy_byte c = true ∧ negb (bool_decide (":"%char = c)) = true.
Proof. destruct c as [[] [] [] [] [] [] [] []]; (done || by split). Qed.
Lemma digits_proxy_bytes s : digits s → all_bytes proxy_byte s = true.
Proof. apply all_bytes_impl. by intros c [? _]%digit_facts. Qed.
Lemma digits_no_colon s : digits s → all_bytes (λ d, negb (bool_decide (":"%char = d))) s = true.
Proof. apply all_bytes_impl. by intros c [_ ?]%digit_facts. Qed.

Lemma socks_parse_inv given p :
  socks_parse given = Ok p → px_host p ≠ "" ∧ all_bytes proxy_byte (px_host p) = true ∧ 1 ≤ px_port p ≤ u16_max_z.
Proof.
  unfold socks_parse. intros (rest & _ & H)%bind_Ok_inv. destruct (contains "@" rest) eqn:Hat; [done|].
  destruct (find_byte path_byte rest) eqn:Hpath; [done|]. pose proof (proxy_byte_of _ Hat Hpath) as Hc.
  apply bind_Ok_inv in H as ([host port] & Hsplit%ok_or_Ok & H). apply rsplit_inv in Hsplit as ->.
  rewrite all_bytes_append in Hc. apply andb_true_iff in Hc as [Hc _].
  case_bool_decide as Hne; [done|]. apply bind_Ok_inv in H as (n & Hn%ok_or_Ok & H). apply parse_unsigned_range in Hn.
  destruct (Z.eqb_spec n 0); [done|]. injection H as <-. cbn [px_host px_port]. split_and!; [done| |lia..].
  unfold socks_host. destruct (strip_prefix "[" host) as [h|] eqn:Hb; [|done]. apply strip_prefix_byte in Hb as ->.
  apply andb_true_iff in Hc as [_ Hc]. destruct (strip_suffix_char "]" h) as [h'|] eqn:Hs; [|done]. apply strip_suffix_inv in Hs as ->.
  rewrite all_bytes_append in Hc. by apply andb_true_iff in Hc as [Hc _].
Qed.

Lemma trim_authority rest d :
  is_ascii_digit d = true → trim ("socks5://" +:+ rest +:+ String d "") = "socks5://" +:+ rest +:+ String d "".
Proof.
  intros Hd. eapply (trim_id _ "s"); [done..| |by apply digit_not_whitespace].
  change ("socks5://" +:+ rest +:+ String d "") with (("socks5://" +:+ rest) +:+ String d "").
  apply chars_aux_last. by apply digit_not_continuation.
Qed.

(** What the printer prints, the parser reads as: the host with its brackets, or without. *)
Lemma socks_parse_shown shown host port :
  all_bytes proxy_byte shown = true → 1 ≤ port ≤ u16_max_z →
  socks_host shown = host → host ≠ "" →
  socks_parse ("socks5://" +:+ shown +:+ ":" +:+ dec port) = Ok {| px_host := host; px_port := port |}.
Proof.
  intros Hs Hp Hhost Hne. unfold socks_parse.
  assert (trim ("socks5://" +:+ shown +:+ ":" +:+ dec port) = "socks5://" +:+ shown +:+ ":" +:+ dec port) as ->.
  { destruct (digits_last (dec port)) as (q & d & -> & Hd); [apply dec_digits; lia|apply dec_nonempty|].
    rewrite <- (append_assoc ":" q), <- (append_assoc shown). by apply trim_authority. }
  assert (socks_authority ("socks5://" +:+ shown +:+ ":" +:+ dec port) = Ok (shown +:+ ":" +:+ dec port)) as -> by done.
  change (":" +:+ dec port) with (String ":" (dec port)). cbv beta iota zeta delta [mbind result_bind ok_or].
  assert (all_bytes proxy_byte (shown +:+ String ":" (dec port)) = true) as [-> ->]%proxy_byte_at.
  { rewrite all_bytes_append, Hs. change (all_bytes proxy_byte (dec port) = true). apply digits_proxy_bytes, dec_digits. lia. }
  rewrite rsplit_append by (apply digits_no_colon, dec_digits; lia).
  rewrite Hhost, bool_decide_eq_false_2, parse_unsigned_dec by (done || lia).
  by destruct (Z.eqb_spec port 0); [lia|].
Qed.

(** A proxy that was read prints back to itself, unless its host has a bracket of its own in front
    and no colon. *)
Lemma socks_round_trip given p :
  socks_parse given = Ok p → contains ":" (px_host p) = true ∨ starts_with "[" (px_host p) = false →
  socks_parse (socks_display p) = Ok p.
Proof.
  intros (Hne & Hc & Hp)%socks_parse_inv Hhost. destruct p as [host port]. unfold socks_display. cbn [px_host px_port] in *.
  destruct (contains ":" host) eqn:E.
  - assert ("socks5://[" +:+ host +:+ "]:" +:+ dec port =
            "socks5://" +:+ String "[" (host +:+ "]") +:+ ":" +:+ dec port) as -> by (cbn -[dec]; by rewrite append_assoc).
    apply socks_parse_shown; [|done| |done].
    + cbn. rewrite all_bytes_append, Hc. done.
    + unfold socks_host. cbn [strip_prefix]. rewrite bool_decide_eq_true_2 by done.
      change "]" with (String "]" ""). by rewrite strip_suffix_append.
  - destruct Hhost as [|Hb]; [done|]. apply socks_parse_shown; [done..| |done].
    unfold socks_host, starts_with in *. by destruct (strip_prefix "[" host).
Qed.

Lemma display_loses_a_bracket :
  ∃ p, socks_parse "socks5://[[x:1" = Ok p ∧ socks_parse (socks_display p) ≠ Ok p.
Proof. eexists. split; [reflexivity|]. by vm_compute. Qed.
Lemma bare_ipv6_proxy_accepted :
  socks_parse "socks5://fe80::1" = Ok {| px_host := "fe80:"; px_port := 1 |}.
Proof. reflexivity. Qed.
Lemma mapped_loopback_is_remote :
  host_is_local "127.0.0.1" true = true ∧ host_is_local "::ffff:127.0.0.1" true = false.
Proof. by split. Qed.

(** ** Credentials told apart *)

Lemma le_bytes_inj n a b :
  0 ≤ a < 256 ^ Z.of_nat n → 0 ≤ b < 256 ^ Z.of_nat n → le_bytes n a = le_bytes n b → a = b.
Proof.
  revert a b. induction n as [|n IH]; intros a b Ha Hb; [cbn in *; lia|].
  rewrite Nat2Z.inj_succ, Z.pow_succ_r in Ha, Hb by lia. cbn. intros [= H1 H2].
  assert (a mod 256 = b mod 256).
  { apply (f_equal nat_of_ascii) in H1. pose proof (Z.mod_pos_bound a 256). pose proof (Z.mod_pos_bound b 256).
    rewrite !nat_ascii_embedding in H1 by lia. lia. }
  apply IH in H2; [|split; [apply Z.div_pos; lia|apply Z.div_lt_upper_bound; lia]..].
  rewrite (Z.div_mod a 256), (Z.div_mod b 256) by lia. congruence.
Qed.
Lemma append_inj_length a a' b b' :
  String.length a = String.length a' → a +:+ b = a' +:+ b' → a = a' ∧ b = b'.
Proof.
  revert a'. induction a as [|c a IH]; intros [|c' a']; try done. cbn. intros [= Hl] [= -> H].
  by destruct (IH a' Hl H) as [-> ->].
Qed.
Lemma le_bytes_length n z : String.length (le_bytes n z) = n.
Proof. revert z. induction n as [|n IH]; intros z; [done|]. cbn. by rewrite IH. Qed.

(** A length fits eight bytes. *)
Definition sized (o : option string) : Prop :=
  match o with Some v => Z.of_nat (String.length v) < 2 ^ 64 | None => True end.
Lemma digest_field_inj tag v v' rest rest' :
  sized v → sized v' → digest_field tag v +:+ rest = digest_field tag v' +:+ rest' → v = v' ∧ rest = rest'.
Proof.
  intros Hv Hv'. unfold digest_field. rewrite !append_assoc. intros [_ H]%append_inj_length; [|by rewrite !le_bytes_length].
  destruct v as [v|], v' as [v'|]; try (by cbn in H).
  - rewrite !append_assoc in H. apply append_inj_length in H as [_ H]; [|done].
    apply append_inj_length in H as [Hlen H]; [|by rewrite !le_bytes_length].
    apply le_bytes_inj in Hlen; [|unfold sized in *; cbn; lia..].
    apply append_inj_length in H as [-> ->]; [done|lia].
  - by injection H as ->.
Qed.
(** Different credentials are hashed differently: what tells two connections apart never takes one
    wallet's credentials for another's, short of a collision of the hash. *)
Lemma identity_preimage_inj a a' :
  sized (za_user a) → sized (za_password a) → sized (za_cookie a) →
  sized (za_user a') → sized (za_password a') → sized (za_cookie a') →
  identity_preimage a = identity_preimage a' → a = a'.
Proof.
  intros ?????? [_ H]%append_inj_length; [|done].
  apply digest_field_inj in H as [Hu H]; [|done..]. apply digest_field_inj in H as [Hp H]; [|done..].
  rewrite <- (append_nil_r (digest_field 2 (za_cookie a))), <- (append_nil_r (digest_field 2 (za_cookie a'))) in H.
  apply digest_field_inj in H as [Hc _]; [|done..]. destruct a, a'. cbn in *. congruence.
Qed.

(** ** Overrides *)

Lemma effective_empty o g :
  override_is_empty o = true → wo_tls_ca_file o = None → effective o g = g.
Proof.
  destruct o as [[] [] [] [] [] ? [] []], g; try done. cbn. by intros _ ->.
Qed.
(** A wallet's server and TLS settings are its own where it has them; the rest is the daemon's. *)
Lemma effective_policy o g :
  backend_policy (effective o g) = backend_policy g ∧ bk_proxy (effective o g) = bk_proxy g ∧
  bk_connect_timeout_secs (effective o g) = bk_connect_timeout_secs g.
Proof. done. Qed.

(** ** Witnesses *)

Definition sample_backend (server : string) (proxy : option SocksProxy) (pins : list string) : BackendConfig :=
  {| bk_server := server; bk_tls := None; bk_tls_roots := Native; bk_tls_insecure_skip_verify := false;
     bk_tls_ca_pem := None; bk_tls_ca_file := None; bk_tls_pins := pins; bk_assume_transparent := false;
     bk_connect_timeout_secs := 10; bk_reconnect_base_secs := 1; bk_reconnect_max_secs := 60;
     bk_rfc1918_is_local := true; bk_allow_remote_cleartext := false; bk_proxy := proxy |}.
Definition no_override : WalletBackendOverride :=
  {| wo_server := None; wo_tls := None; wo_tls_roots := None; wo_tls_insecure_skip_verify := None;
     wo_tls_ca_pem := None; wo_tls_ca_file := None; wo_tls_pins := None; wo_assume_transparent := None |}.
Definition sample_auth : ZebraAuth := {| za_user := Some "u"; za_password := Some "p"; za_cookie := None |}.
Definition all_ok {A} (_ : A) : result string () := Ok tt.
Definition sample_connect : Server → result string Dial :=
  Endpoint.connect id (λ _, Err "no such file") all_ok all_ok (λ _, all_ok).

(** Credentials for a loopback destination pass the gate whatever proxy carries them. *)
Lemma credentials_cross_the_proxy :
  (s ← resolve_for_wallet no_override
         (sample_backend "zebra" (Some {| px_host := "203.0.113.7"; px_port := 1080 |}) []) sample_auth Main;
   sample_connect s) =
  Ok (DialZebra "http://127.0.0.1:8234/" (Some "Basic u:p") (Some {| px_host := "203.0.113.7"; px_port := 1080 |})).
Proof. reflexivity. Qed.

(** Pins configured for a [zebra] endpoint pass every check and are never consulted. *)
Lemma zebra_pins_never_consulted :
  (s ← resolve_for_wallet no_override (sample_backend "zebra" None ["pin"]) sample_auth Main;
   sample_connect s) =
  Ok (DialZebra "http://127.0.0.1:8234/" (Some "Basic u:p") None).
Proof. reflexivity. Qed.

Lemma dial_is_safe_witness :
  ∃ s, resolve_for_wallet no_override (sample_backend "zebra" None []) sample_auth Main = Ok s ∧
       sample_connect s = Ok (DialZebra "http://127.0.0.1:8234/" (Some "Basic u:p") None) ∧
       (is_some (Some "Basic u:p") = true → hop_allowed (backend_policy (sample_backend "zebra" None [])) (sv_host s)).
Proof.
  eexists. split; [reflexivity|]. split; [reflexivity|].
  exact (proj2 (proj2 (proj2 (proj2 (dial_is_safe id (λ _, Err "no such file") all_ok all_ok (λ _, all_ok) no_override
    (sample_backend "zebra" None []) sample_auth Main _ _ eq_refl eq_refl))))).
Defined.
