(* ===== verification/Hub.v ===== *)
(** * Hub: the upstream connection every wallet shares ([src/src/chain/hub.rs])

    The shared connection and its generations, the caches keyed to it, and the fan-out of the one
    mempool subscription. Each method of a consumer's handle is a function of the hub and of the
    upstream's answer, and says whether it reports its connection as failed; [event] and [step]
    interleave the consumers, the pump and the readers between the points where the code holds a
    lock. The clients of a connection, the hub's clock and what the upstream answers are inputs.

    The generations and the counters are [u64]s that grow by one per call on the upstream. *)

From S2P Require Export Engine Upstream.

Definition TIP_TTL : Z := 750.
Definition TX_CACHE_ENTRIES : nat := 2048.
Definition MEMPOOL_REPLAY_TXS : nat := 4096.
Definition MEMPOOL_CHANNEL_CAP : nat := 4096.

(** ** A small LRU *)

Record LruMap (V : Type) := { lru_cap : nat; lru_map : gmap string V; lru_order : list string }.
Arguments lru_cap {V} _.
Arguments lru_map {V} _.
Arguments lru_order {V} _.

Section lru.
Context {V : Type}.

Definition lru_new (cap : nat) : LruMap V := {| lru_cap := cap; lru_map := ∅; lru_order := [] |}.

(** [order.remove(order.iter().position(key))]. *)
Fixpoint remove_first (key : string) (order : list string) : list string :=
  match order with
  | [] => []
  | k :: order => if bool_decide (k = key) then order else k :: remove_first key order
  end.
(** A hit moves its key to the back. *)
Definition lru_get (m : LruMap V) (key : string) : option V * LruMap V :=
  match lru_map m !! key with
  | None => (None, m)
  | Some v =>
      (Some v,
       if bool_decide (key ∈ lru_order m) then
         {| lru_cap := lru_cap m; lru_map := lru_map m;
            lru_order := remove_first key (lru_order m) ++ [key] |}
       else m)
  end.
Fixpoint lru_evict (cap : nat) (map : gmap string V) (order : list string) : gmap string V * list string :=
  match order with
  | [] => (map, [])
  | evict :: rest => if (cap <? length order)%nat then lru_evict cap (delete evict map) rest else (map, order)
  end.
Definition lru_insert (m : LruMap V) (key : string) (value : V) : LruMap V :=
  let order := if is_some (lru_map m !! key) then remove_first key (lru_order m) else lru_order m in
  let '(map, order) := lru_evict (lru_cap m) (<[key := value]> (lru_map m)) (order ++ [key]) in
  {| lru_cap := lru_cap m; lru_map := map; lru_order := order |}.
Definition lru_clear (m : LruMap V) : LruMap V := {| lru_cap := lru_cap m; lru_map := ∅; lru_order := [] |}.
End lru.

(** ** The hub *)

Record ChainTip := { ct_height : Z; ct_hash : string }.
Record SubtreeRootInfo := { sr_root_hash : string; sr_completing_height : Z }.
Inductive ShieldedPool := Sapling | Orchard | Ironwood.
#[global] Instance ChainTip_eq_dec : EqDecision ChainTip.
Proof. solve_decision. Defined.
#[global] Instance ShieldedPool_eq_dec : EqDecision ShieldedPool.
Proof. solve_decision. Defined.

Definition pool_key (protocol : ShieldedPool) : Z :=
  match protocol with Sapling => 0 | Orchard => 1 | Ironwood => 2 end.

Record TipCache := { tc_tip : option (ChainTip * Z); tc_generation : Z }.
Record InfoCache := {
  ic_generation : Z; ic_server_info : option ServerInfo; ic_roots : gmap Z (list SubtreeRootInfo);
}.
Definition info_of (generation : Z) : InfoCache :=
  {| ic_generation := generation; ic_server_info := None; ic_roots := ∅ |}.
Record HubStats := {
  st_connects : Z; st_tip_fetches : Z; st_server_info_fetches : Z; st_subtree_root_fetches : Z;
  st_tx_fetches : Z; st_tx_cache_hits : Z; st_mempool_subscriptions : Z;
}.
Definition no_stats : HubStats :=
  {| st_connects := 0; st_tip_fetches := 0; st_server_info_fetches := 0; st_subtree_root_fetches := 0;
     st_tx_fetches := 0; st_tx_cache_hits := 0; st_mempool_subscriptions := 0 |}.

(** The mempool subscription: its generation and the fan-out it sends to, if any. The replay
    buffer, the closed flag and the pump are the fan-out's. *)
Record MempoolHub := { mh_generation : Z; mh_tx : option nat }.

Section hub.
Context {source : Type}.

Record Conn := { cn_source : option source; cn_generation : Z }.
Record ChainHub := {
  h_conn : Conn; h_tip : TipCache; h_info : InfoCache; h_txs : LruMap FetchedTx;
  h_mempool : MempoolHub; h_stats : HubStats;
}.
(** A handle: its generation and its clone of the client. *)
Record HubSource := { hs_generation : Z; hs_inner : source }.

Definition hub_new : ChainHub :=
  {| h_conn := {| cn_source := None; cn_generation := 0 |};
     h_tip := {| tc_tip := None; tc_generation := 0 |};
     h_info := info_of 0; h_txs := lru_new TX_CACHE_ENTRIES;
     h_mempool := {| mh_generation := 0; mh_tx := None |}; h_stats := no_stats |}.

(** *** Its fields, changed *)

Definition with_conn (h : ChainHub) (c : Conn) : ChainHub :=
  {| h_conn := c; h_tip := h_tip h; h_info := h_info h; h_txs := h_txs h; h_mempool := h_mempool h;
     h_stats := h_stats h |}.
Definition with_tip (h : ChainHub) (t : TipCache) : ChainHub :=
  {| h_conn := h_conn h; h_tip := t; h_info := h_info h; h_txs := h_txs h; h_mempool := h_mempool h;
     h_stats := h_stats h |}.
Definition with_info (h : ChainHub) (i : InfoCache) : ChainHub :=
  {| h_conn := h_conn h; h_tip := h_tip h; h_info := i; h_txs := h_txs h; h_mempool := h_mempool h;
     h_stats := h_stats h |}.
Definition with_txs (h : ChainHub) (t : LruMap FetchedTx) : ChainHub :=
  {| h_conn := h_conn h; h_tip := h_tip h; h_info := h_info h; h_txs := t; h_mempool := h_mempool h;
     h_stats := h_stats h |}.
Definition with_mempool (h : ChainHub) (m : MempoolHub) : ChainHub :=
  {| h_conn := h_conn h; h_tip := h_tip h; h_info := h_info h; h_txs := h_txs h; h_mempool := m;
     h_stats := h_stats h |}.
(** One more of a counter. *)
Inductive Counter := Connects | TipFetches | ServerInfoFetches | SubtreeRootFetches | TxFetches | TxCacheHits
  | MempoolSubscriptions.
Definition counted (c : Counter) (h : ChainHub) : ChainHub :=
  let s := h_stats h in
  {| h_conn := h_conn h; h_tip := h_tip h; h_info := h_info h; h_txs := h_txs h; h_mempool := h_mempool h;
     h_stats :=
       {| st_connects := st_connects s + match c with Connects => 1 | _ => 0 end;
          st_tip_fetches := st_tip_fetches s + match c with TipFetches => 1 | _ => 0 end;
          st_server_info_fetches := st_server_info_fetches s + match c with ServerInfoFetches => 1 | _ => 0 end;
          st_subtree_root_fetches := st_subtree_root_fetches s + match c with SubtreeRootFetches => 1 | _ => 0 end;
          st_tx_fetches := st_tx_fetches s + match c with TxFetches => 1 | _ => 0 end;
          st_tx_cache_hits := st_tx_cache_hits s + match c with TxCacheHits => 1 | _ => 0 end;
          st_mempool_subscriptions :=
            st_mempool_subscriptions s + match c with MempoolSubscriptions => 1 | _ => 0 end |} |}.

(** *** The connection *)

(** [acquire], with what a dial answers should one be needed. *)
Definition acquire (h : ChainHub) (dial : result string source) : result string HubSource * ChainHub :=
  match cn_source (h_conn h) with
  | Some s => (Ok {| hs_generation := cn_generation (h_conn h); hs_inner := s |}, h)
  | None =>
      match dial with
      | Err e => (Err e, h)
      | Ok s =>
          let generation := cn_generation (h_conn h) + 1 in
          (Ok {| hs_generation := generation; hs_inner := s |},
           counted Connects (with_conn h {| cn_source := Some s; cn_generation := generation |}))
      end
  end.

(** [invalidate], until it lets go of the connection; [false] when it stops there. *)
Definition invalidate_conn (h : ChainHub) (generation : Z) : bool * ChainHub :=
  if negb (bool_decide (cn_generation (h_conn h) = generation)) || negb (is_some (cn_source (h_conn h)))
  then (false, h)
  else (true, with_conn h {| cn_source := None; cn_generation := cn_generation (h_conn h) |}).

Definition note_tip (h : ChainHub) (previous : option ChainTip) (current : ChainTip) : ChainHub :=
  let same_tip := match previous with
                  | None => true
                  | Some prev => (ct_height current =? ct_height prev) && bool_decide (ct_hash current = ct_hash prev)
                  end in
  if same_tip then h else with_txs h (lru_clear (h_txs h)).

(** *** What a handle asks *)

(** [latest_block] at [now]; what the upstream answers and when, should it be asked. *)
Definition tip_cached (h : ChainHub) (generation now : Z) : option ChainTip :=
  let cache := h_tip h in
  if bool_decide (tc_generation cache = generation) then
    match tc_tip cache with
    | Some (tip, at_) => if sat_sub now at_ <? TIP_TTL then Some tip else None
    | None => None
    end
  else None.
Definition latest_block (h : ChainHub) (generation now : Z) (upstream : result string ChainTip) (after : Z) :
    result string ChainTip * ChainHub :=
  match tip_cached h generation now with
  | Some tip => (Ok tip, h)
  | None =>
      let previous := fst <$> tc_tip (h_tip h) in
      let h := counted TipFetches h in
      match upstream with
      | Err e => (Err e, h)
      | Ok tip =>
          (Ok tip, with_tip (note_tip h previous tip) {| tc_tip := Some (tip, after); tc_generation := generation |})
      end
  end.

(** The info cache, for a generation: another's is dropped. *)
Definition info_for (h : ChainHub) (generation : Z) : InfoCache :=
  if bool_decide (ic_generation (h_info h) = generation) then h_info h else info_of generation.
Definition subtree_roots (h : ChainHub) (generation : Z) (protocol : ShieldedPool)
    (upstream : result string (list SubtreeRootInfo)) : result string (list SubtreeRootInfo) * ChainHub :=
  let key := pool_key protocol in
  let cache := info_for h generation in
  match ic_roots cache !! key with
  | Some roots => (Ok roots, with_info h cache)
  | None =>
      let h := counted SubtreeRootFetches (with_info h cache) in
      match upstream with
      | Err e => (Err e, h)
      | Ok roots =>
          (Ok roots, with_info h {| ic_generation := ic_generation cache; ic_server_info := ic_server_info cache;
                                    ic_roots := <[key := roots]> (ic_roots cache) |})
      end
  end.
Definition server_info (h : ChainHub) (generation : Z) (upstream : result string ServerInfo) :
    result string ServerInfo * ChainHub :=
  let cache := info_for h generation in
  match ic_server_info cache with
  | Some info => (Ok info, with_info h cache)
  | None =>
      let h := counted ServerInfoFetches (with_info h cache) in
      match upstream with
      | Err e => (Err e, h)
      | Ok info =>
          (Ok info, with_info h {| ic_generation := ic_generation cache; ic_server_info := Some info;
                                   ic_roots := ic_roots cache |})
      end
  end.
(** [refresh_server_info], after the upstream answered: the cached copy is replaced if it is still
    this generation's. *)
Definition refreshed_server_info (h : ChainHub) (generation : Z) (info : ServerInfo) : ChainHub :=
  let cache := h_info h in
  if bool_decide (ic_generation cache = generation) then
    with_info h {| ic_generation := ic_generation cache; ic_server_info := Some info; ic_roots := ic_roots cache |}
  else h.

(** [fetch_tx]: the cache's answer, and what is stored once the upstream answered. *)
Definition fetch_tx_cached (h : ChainHub) (txid : string) : option FetchedTx * ChainHub :=
  let '(hit, txs) := lru_get (h_txs h) txid in
  let h := with_txs h txs in
  (hit, if is_some hit then counted TxCacheHits h else counted TxFetches h).
Definition fetch_tx_store (h : ChainHub) (txid : string) (fetched : option FetchedTx) : ChainHub :=
  match fetched with Some tx => with_txs h (lru_insert (h_txs h) txid tx) | None => h end.
End hub.
Arguments Conn : clear implicits.
Arguments ChainHub : clear implicits.
Arguments HubSource : clear implicits.

(** ** The mempool fan-out *)

Inductive MempoolItem := MI_Tx (raw : string) | MI_Closed.
#[global] Instance MempoolItem_eq_dec : EqDecision MempoolItem.
Proof. solve_decision. Defined.

(** The pump awaits the upstream, or is between two steps of handling what it read. *)
Inductive PumpState := Waiting | Buffered (raw : string) | Flagged | Ended.
#[global] Instance PumpState_eq_dec : EqDecision PumpState.
Proof. solve_decision. Defined.

(** A subscription's shared parts: what was sent on its channel, the replay buffer, the closed
    flag, the pump, whether it was aborted and whether the hub still holds the sender. *)
Record Fanout := {
  fo_sent : list MempoolItem; fo_replay : list string; fo_closed : bool; fo_pump : PumpState;
  fo_aborted : bool; fo_held : bool;
}.
Definition fanout_new : Fanout :=
  {| fo_sent := []; fo_replay := []; fo_closed := false; fo_pump := Waiting; fo_aborted := false;
     fo_held := true |}.

(** A reader: its fan-out, how much of the channel it has consumed, what it still replays. *)
Record HubMempoolStream := { hm_fanout : nat; hm_pos : nat; hm_replay : list string; hm_done : bool }.

(** The pump reads: a transaction, which goes to the buffer while it has room; or the end. *)
Definition pump_read (f : Fanout) (message : result string (option string)) : Fanout :=
  match message with
  | Ok (Some raw) =>
      {| fo_sent := fo_sent f;
         fo_replay := if (length (fo_replay f) <? MEMPOOL_REPLAY_TXS)%nat then fo_replay f ++ [raw] else fo_replay f;
         fo_closed := fo_closed f; fo_pump := Buffered raw; fo_aborted := fo_aborted f; fo_held := fo_held f |}
  | Ok None | Err _ =>
      {| fo_sent := fo_sent f; fo_replay := fo_replay f; fo_closed := true; fo_pump := Flagged;
         fo_aborted := fo_aborted f; fo_held := fo_held f |}
  end.
(** The pump sends what it read, and reads on or ends. *)
Definition pump_send (f : Fanout) : option Fanout :=
  match fo_pump f with
  | Buffered raw =>
      Some {| fo_sent := fo_sent f ++ [MI_Tx raw]; fo_replay := fo_replay f; fo_closed := fo_closed f;
              fo_pump := Waiting; fo_aborted := fo_aborted f; fo_held := fo_held f |}
  | Flagged =>
      Some {| fo_sent := fo_sent f ++ [MI_Closed]; fo_replay := fo_replay f; fo_closed := fo_closed f;
              fo_pump := Ended; fo_aborted := fo_aborted f; fo_held := fo_held f |}
  | Waiting | Ended => None
  end.
(** [shutdown], of the fan-out the hub holds. *)
Definition fanout_shutdown (f : Fanout) : Fanout :=
  {| fo_sent := fo_sent f ++ [MI_Closed]; fo_replay := fo_replay f; fo_closed := true; fo_pump := fo_pump f;
     fo_aborted := true; fo_held := false |}.
(** The hub lets go of a fan-out it replaces: the pump's handle and the sender are dropped. *)
Definition fanout_released (f : Fanout) : Fanout :=
  {| fo_sent := fo_sent f; fo_replay := fo_replay f; fo_closed := fo_closed f; fo_pump := fo_pump f;
     fo_aborted := true; fo_held := false |}.
(** No sender is left: the hub's is gone, and the pump ended or was aborted while it waited. *)
Definition fanout_disconnected (f : Fanout) : bool :=
  negb (fo_held f) && match fo_pump f with Ended => true | Waiting => fo_aborted f | _ => false end.

(** What [rx.recv()] does at a position: the channel keeps its last [MEMPOOL_CHANNEL_CAP] items. *)
Inductive Received := RecvItem (item : MempoolItem) | RecvLagged (pos : nat) | RecvClosed | RecvPending.
Definition recv (f : Fanout) (pos : nat) : Received :=
  let oldest := (length (fo_sent f) - MEMPOOL_CHANNEL_CAP)%nat in
  if (pos <? oldest)%nat then RecvLagged oldest
  else match fo_sent f !! pos with
       | Some item => RecvItem item
       | None => if fanout_disconnected f then RecvClosed else RecvPending
       end.

(** [message], one turn of its loop: [None] when it waits on. *)
Definition message (f : Fanout) (s : HubMempoolStream) : option (option string) * HubMempoolStream :=
  match hm_replay s with
  | raw :: replay =>
      (Some (Some raw), {| hm_fanout := hm_fanout s; hm_pos := hm_pos s; hm_replay := replay; hm_done := hm_done s |})
  | [] =>
      if hm_done s then (Some None, s)
      else
        match recv f (hm_pos s) with
        | RecvItem (MI_Tx raw) =>
            (Some (Some raw),
             {| hm_fanout := hm_fanout s; hm_pos := S (hm_pos s); hm_replay := []; hm_done := false |})
        | RecvItem MI_Closed =>
            (Some None, {| hm_fanout := hm_fanout s; hm_pos := S (hm_pos s); hm_replay := []; hm_done := true |})
        | RecvClosed => (Some None, {| hm_fanout := hm_fanout s; hm_pos := hm_pos s; hm_replay := []; hm_done := true |})
        | RecvLagged pos =>
            (None, {| hm_fanout := hm_fanout s; hm_pos := pos; hm_replay := []; hm_done := false |})
        | RecvPending => (None, s)
        end
  end.

(** ** Everybody at once *)

(** A subscription in the making, which holds the hub's mempool lock: the flag was found clear, the
    receiver is attached, or the upstream is being asked. *)
Inductive Joining := Checked (fanout : nat) | Attached (fanout pos : nat) | Opening (generation : Z).

Section world.
Context {source : Type}.

(** What the upstream was asked and answered, and what the consumers got: the history. *)
Inductive Upcall :=
  | Dialed (generation : Z) (s : source)
  | Dropped (generation : Z)
  | TipWas (generation at_ : Z) (tip : ChainTip)
  | InfoWas (generation : Z) (info : ServerInfo)
  | RootsWas (generation : Z) (protocol : ShieldedPool) (roots : list SubtreeRootInfo)
  | TxWas (generation : Z) (txid : string) (fetched : option FetchedTx).
Inductive Reply :=
  | GotTip (generation now : Z) (tip : ChainTip)
  | GotInfo (generation : Z) (info : ServerInfo)
  | GotRoots (generation : Z) (protocol : ShieldedPool) (roots : list SubtreeRootInfo)
  | GotTx (generation : Z) (txid : string) (fetched : option FetchedTx).

(** A fan-out with all its pump read; a reader with where it began, what it was to replay, what it
    got, and whether it ever fell behind. *)
Record FanoutHistory := { fh_fanout : Fanout; fh_read : list string }.
Record StreamHistory := {
  sh_stream : HubMempoolStream; sh_start : nat; sh_snapshot : list string; sh_got : list string;
  sh_lagged : bool;
}.

Record World := {
  w_hub : ChainHub source;
  w_handles : list (HubSource source);
  w_fanouts : list FanoutHistory;
  w_streams : list StreamHistory;
  w_joining : option Joining;
  (** Failures to report, and reports that dropped the connection but not yet the caches. *)
  w_failed : list Z;
  w_dropping : list Z;
  (** Transactions being asked for and answers about to be stored; likewise refreshed infos. *)
  w_asking : list (Z * string);
  w_storing : list (Z * string * option FetchedTx);
  w_refreshing : list (Z * ServerInfo);
  w_upcalls : list Upcall;
  w_replies : list Reply;
}.
Definition world0 : World :=
  {| w_hub := hub_new; w_handles := []; w_fanouts := []; w_streams := []; w_joining := None; w_failed := [];
     w_dropping := []; w_asking := []; w_storing := []; w_refreshing := []; w_upcalls := []; w_replies := [] |}.

Inductive event :=
  | EAcquire (dial : result string source)
  | ELatestBlock (generation now : Z) (upstream : result string ChainTip) (after : Z)
  | ESubtreeRoots (generation : Z) (protocol : ShieldedPool) (upstream : result string (list SubtreeRootInfo))
  | EServerInfo (generation : Z) (upstream : result string ServerInfo)
  | ERefresh (generation : Z) (upstream : result string ServerInfo)
  | ERefreshed (index : nat)
  | EFetch (generation : Z) (txid : string)
  | EFetched (generation : Z) (txid : string) (upstream : result string (option FetchedTx))
  | EStore (index : nat)
  | EPassthrough (generation : Z) (failed : bool)
  | EFail (generation : Z)
  | EDrop (generation : Z)
  | ESubscribe (generation : Z)
  | EAttach
  | ESnapshot
  | EOpen (upstream : result string ())
  | EPumpRead (fanout : nat) (message : result string (option string))
  | EPumpSend (fanout : nat)
  | EMessage (stream : nat).
End world.
Arguments Upcall : clear implicits.
Arguments World : clear implicits.
Arguments event : clear implicits.

(** *** Its fields, changed *)

Section step.
Context {source : Type}.

Definition to_hub (w : World source) (x : ChainHub source) : World source :=
  {| w_hub := x; w_handles := w_handles w; w_fanouts := w_fanouts w; w_streams := w_streams w; w_joining
     := w_joining w; w_failed := w_failed w; w_dropping := w_dropping w; w_asking := w_asking w;
     w_storing := w_storing w; w_refreshing := w_refreshing w; w_upcalls := w_upcalls w; w_replies :=
     w_replies w |}.
Definition to_handles (w : World source) (x : list (HubSource source)) : World source :=
  {| w_hub := w_hub w; w_handles := x; w_fanouts := w_fanouts w; w_streams := w_streams w; w_joining :=
     w_joining w; w_failed := w_failed w; w_dropping := w_dropping w; w_asking := w_asking w; w_storing
     := w_storing w; w_refreshing := w_refreshing w; w_upcalls := w_upcalls w; w_replies := w_replies w
     |}.
Definition to_fanouts (w : World source) (x : list FanoutHistory) : World source :=
  {| w_hub := w_hub w; w_handles := w_handles w; w_fanouts := x; w_streams := w_streams w; w_joining :=
     w_joining w; w_failed := w_failed w; w_dropping := w_dropping w; w_asking := w_asking w; w_storing
     := w_storing w; w_refreshing := w_refreshing w; w_upcalls := w_upcalls w; w_replies := w_replies w
     |}.
Definition to_streams (w : World source) (x : list StreamHistory) : World source :=
  {| w_hub := w_hub w; w_handles := w_handles w; w_fanouts := w_fanouts w; w_streams := x; w_joining :=
     w_joining w; w_failed := w_failed w; w_dropping := w_dropping w; w_asking := w_asking w; w_storing
     := w_storing w; w_refreshing := w_refreshing w; w_upcalls := w_upcalls w; w_replies := w_replies w
     |}.
Definition to_joining (w : World source) (x : option Joining) : World source :=
  {| w_hub := w_hub w; w_handles := w_handles w; w_fanouts := w_fanouts w; w_streams := w_streams w;
     w_joining := x; w_failed := w_failed w; w_dropping := w_dropping w; w_asking := w_asking w;
     w_storing := w_storing w; w_refreshing := w_refreshing w; w_upcalls := w_upcalls w; w_replies :=
     w_replies w |}.
Definition to_failed (w : World source) (x : list Z) : World source :=
  {| w_hub := w_hub w; w_handles := w_handles w; w_fanouts := w_fanouts w; w_streams := w_streams w;
     w_joining := w_joining w; w_failed := x; w_dropping := w_dropping w; w_asking := w_asking w;
     w_storing := w_storing w; w_refreshing := w_refreshing w; w_upcalls := w_upcalls w; w_replies :=
     w_replies w |}.
Definition to_dropping (w : World source) (x : list Z) : World source :=
  {| w_hub := w_hub w; w_handles := w_handles w; w_fanouts := w_fanouts w; w_streams := w_streams w;
     w_joining := w_joining w; w_failed := w_failed w; w_dropping := x; w_asking := w_asking w;
     w_storing := w_storing w; w_refreshing := w_refreshing w; w_upcalls := w_upcalls w; w_replies :=
     w_replies w |}.
Definition to_asking (w : World source) (x : list (Z * string)) : World source :=
  {| w_hub := w_hub w; w_handles := w_handles w; w_fanouts := w_fanouts w; w_streams := w_streams w;
     w_joining := w_joining w; w_failed := w_failed w; w_dropping := w_dropping w; w_asking := x;
     w_storing := w_storing w; w_refreshing := w_refreshing w; w_upcalls := w_upcalls w; w_replies :=
     w_replies w |}.
Definition to_storing (w : World source) (x : list (Z * string * option FetchedTx)) : World source :=
  {| w_hub := w_hub w; w_handles := w_handles w; w_fanouts := w_fanouts w; w_streams := w_streams w;
     w_joining := w_joining w; w_failed := w_failed w; w_dropping := w_dropping w; w_asking := w_asking
     w; w_storing := x; w_refreshing := w_refreshing w; w_upcalls := w_upcalls w; w_replies := w_replies
     w |}.
Definition to_refreshing (w : World source) (x : list (Z * ServerInfo)) : World source :=
  {| w_hub := w_hub w; w_handles := w_handles w; w_fanouts := w_fanouts w; w_streams := w_streams w;
     w_joining := w_joining w; w_failed := w_failed w; w_dropping := w_dropping w; w_asking := w_asking
     w; w_storing := w_storing w; w_refreshing := x; w_upcalls := w_upcalls w; w_replies := w_replies w
     |}.
Definition to_upcalls (w : World source) (x : list (Upcall source)) : World source :=
  {| w_hub := w_hub w; w_handles := w_handles w; w_fanouts := w_fanouts w; w_streams := w_streams w;
     w_joining := w_joining w; w_failed := w_failed w; w_dropping := w_dropping w; w_asking := w_asking
     w; w_storing := w_storing w; w_refreshing := w_refreshing w; w_upcalls := x; w_replies := w_replies
     w |}.
Definition to_replies (w : World source) (x : list Reply) : World source :=
  {| w_hub := w_hub w; w_handles := w_handles w; w_fanouts := w_fanouts w; w_streams := w_streams w;
     w_joining := w_joining w; w_failed := w_failed w; w_dropping := w_dropping w; w_asking := w_asking
     w; w_storing := w_storing w; w_refreshing := w_refreshing w; w_upcalls := w_upcalls w; w_replies :=
     x |}.

(** *** One step *)

Definition has_handle (w : World source) (generation : Z) : bool :=
  existsb (λ s, hs_generation s =? generation) (w_handles w).
Definition upcall (w : World source) (u : Upcall source) : World source := to_upcalls w (u :: w_upcalls w).
Definition reply (w : World source) (r : Reply) : World source := to_replies w (r :: w_replies w).
Definition report (w : World source) (generation : Z) : World source := to_failed w (generation :: w_failed w).
Definition if_handle (w : World source) (generation : Z) (w' : World source) : option (World source) :=
  if has_handle w generation then Some w' else None.

(** One element out of a list. *)
Fixpoint take_out {A} `{EqDecision A} (x : A) (l : list A) : option (list A) :=
  match l with
  | [] => None
  | y :: l => if bool_decide (y = x) then Some l else cons y <$> take_out x l
  end.

Definition fanout_at (w : World source) (i : nat) : option Fanout := fh_fanout <$> w_fanouts w !! i.
Definition set_fanout (w : World source) (i : nat) (f : Fanout) : World source :=
  to_fanouts w (alter (λ h, {| fh_fanout := f; fh_read := fh_read h |}) i (w_fanouts w)).
Definition shut_fanout (w : World source) (tx : option nat) (shut : Fanout → Fanout) : World source :=
  match tx with
  | Some i => match fanout_at w i with Some f => set_fanout w i (shut f) | None => w end
  | None => w
  end.
(** [MempoolHub::shutdown], the generation then being [generation]. *)
Definition shutdown (w : World source) (generation : Z) : World source :=
  let m := h_mempool (w_hub w) in
  let w := shut_fanout w (mh_tx m) fanout_shutdown in
  to_hub w (with_mempool (w_hub w) {| mh_generation := generation; mh_tx := None |}).
Definition add_stream (w : World source) (s : HubMempoolStream) : World source :=
  to_streams w (w_streams w ++ [{| sh_stream := s; sh_start := hm_pos s; sh_snapshot := hm_replay s;
                                   sh_got := []; sh_lagged := false |}]).

(** [subscribe_mempool] until it attaches or asks the upstream. *)
Definition subscribe (w : World source) (generation : Z) : World source :=
  let m := h_mempool (w_hub w) in
  let w := if mh_generation m <? generation then shutdown w generation else w in
  let opening :=
    to_joining (to_hub w (counted MempoolSubscriptions (w_hub w))) (Some (Opening generation)) in
  match mh_tx (h_mempool (w_hub w)) with
  | None => opening
  | Some i =>
      match fanout_at w i with
      | Some f => if fo_closed f then opening else to_joining w (Some (Checked i))
      | None => opening
      end
  end.
(** [MempoolHub::start]. *)
Definition start (w : World source) : World source :=
  let m := h_mempool (w_hub w) in
  let w := shut_fanout w (mh_tx m) fanout_released in
  let i := length (w_fanouts w) in
  let w := to_fanouts w (w_fanouts w ++ [{| fh_fanout := fanout_new; fh_read := [] |}]) in
  let w := to_hub w (with_mempool (w_hub w) {| mh_generation := mh_generation m; mh_tx := Some i |}) in
  add_stream w {| hm_fanout := i; hm_pos := 0; hm_replay := []; hm_done := false |}.

(** A reader's turn, recorded. *)
Definition read_turn (f : Fanout) (h : StreamHistory) : StreamHistory :=
  let '(got, s) := message f (sh_stream h) in
  {| sh_stream := s; sh_start := sh_start h; sh_snapshot := sh_snapshot h;
     sh_got := match got with Some (Some raw) => sh_got h ++ [raw] | _ => sh_got h end;
     sh_lagged := sh_lagged h ||
                  match recv f (hm_pos (sh_stream h)) with RecvLagged _ => true | _ => false end |}.

Definition step (w : World source) (e : event source) : option (World source) :=
  let h := w_hub w in
  match e with
  | EAcquire dial =>
      let '(handle, h') := acquire h dial in
      let w' := to_hub w h' in
      match handle with
      | Err _ => Some w'
      | Ok s =>
          let w' := to_handles w' (s :: w_handles w) in
          Some (if is_some (cn_source (h_conn h)) then w' else upcall w' (Dialed (hs_generation s) (hs_inner s)))
      end
  | ELatestBlock g now upstream after =>
      let '(tip, h') := latest_block h g now upstream after in
      let w' := to_hub w h' in
      let asked := negb (is_some (tip_cached h g now)) in
      if_handle w g match tip with
                    | Err _ => report w' g
                    | Ok tip => if asked then reply (upcall w' (TipWas g after tip)) (GotTip g after tip)
                                else reply w' (GotTip g now tip)
                    end
  | ESubtreeRoots g p upstream =>
      let '(roots, h') := subtree_roots h g p upstream in
      let w' := to_hub w h' in
      let asked := negb (is_some (ic_roots (info_for h g) !! pool_key p)) in
      if_handle w g match roots with
                    | Err _ => report w' g
                    | Ok roots => reply (if asked then upcall w' (RootsWas g p roots) else w') (GotRoots g p roots)
                    end
  | EServerInfo g upstream =>
      let '(info, h') := server_info h g upstream in
      let w' := to_hub w h' in
      let asked := negb (is_some (ic_server_info (info_for h g))) in
      if_handle w g match info with
                    | Err _ => report w' g
                    | Ok info => reply (if asked then upcall w' (InfoWas g info) else w') (GotInfo g info)
                    end
  | ERefresh g upstream =>
      let w' := to_hub w (counted ServerInfoFetches h) in
      if_handle w g match upstream with
                    | Err _ => report w' g
                    | Ok info => to_refreshing (upcall w' (InfoWas g info)) ((g, info) :: w_refreshing w)
                    end
  | EFetch g txid =>
      let '(hit, h') := fetch_tx_cached h txid in
      let w' := to_hub w h' in
      if_handle w g match hit with
                    | Some tx => reply w' (GotTx g txid (Some tx))
                    | None => to_asking w' ((g, txid) :: w_asking w)
                    end
  | EFetched g txid upstream =>
      asking ← take_out (g, txid) (w_asking w);
      let w' := to_asking w asking in
      Some match upstream with
           | Err _ => report w' g
           | Ok fetched => to_storing (upcall w' (TxWas g txid fetched)) ((g, txid, fetched) :: w_storing w)
           end
  | ERefreshed i =>
      '(g, info) ← w_refreshing w !! i;
      let w' := to_refreshing w (delete i (w_refreshing w)) in
      Some (reply (to_hub w' (refreshed_server_info h g info)) (GotInfo g info))
  | EStore i =>
      '(g, txid, fetched) ← w_storing w !! i;
      let w' := to_storing w (delete i (w_storing w)) in
      Some (reply (to_hub w' (fetch_tx_store h txid fetched)) (GotTx g txid fetched))
  | EPassthrough g failed => if_handle w g (if failed then report w g else w)
  | EDrop g =>
      dropping ← take_out g (w_dropping w);
      match w_joining w with
      | Some _ => None
      | None =>
          let w' := to_dropping w dropping in
          let w' := if bool_decide (mh_generation (h_mempool h) = g) then shutdown w' g else w' in
          Some (to_hub w' (with_txs (w_hub w') (lru_clear (h_txs (w_hub w')))))
      end
  | EFail g =>
      failed ← take_out g (w_failed w);
      let '(dropped, h') := invalidate_conn h g in
      let w' := to_hub (to_failed w failed) h' in
      Some (if dropped then upcall (to_dropping w' (g :: w_dropping w)) (Dropped g) else w')
  | ESubscribe g => match w_joining w with Some _ => None | None => if_handle w g (subscribe w g) end
  | EAttach =>
      match w_joining w with
      | Some (Checked i) => f ← fanout_at w i; Some (to_joining w (Some (Attached i (length (fo_sent f)))))
      | _ => None
      end
  | ESnapshot =>
      match w_joining w with
      | Some (Attached i pos) =>
          f ← fanout_at w i;
          Some (to_joining (add_stream w {| hm_fanout := i; hm_pos := pos; hm_replay := fo_replay f;
                                            hm_done := false |}) None)
      | _ => None
      end
  | EOpen upstream =>
      match w_joining w with
      | Some (Opening g) =>
          let w' := to_joining w None in
          Some (match upstream with Ok _ => start w' | Err _ => report w' g end)
      | _ => None
      end
  | EPumpRead i message =>
      fh ← w_fanouts w !! i;
      let f := fh_fanout fh in
      if bool_decide (fo_pump f = Waiting) && negb (fo_aborted f) then
        let read := match message with Ok (Some raw) => fh_read fh ++ [raw] | _ => fh_read fh end in
        Some (to_fanouts w (alter (λ _, {| fh_fanout := pump_read f message; fh_read := read |}) i (w_fanouts w)))
      else None
  | EPumpSend i => f ← fanout_at w i; f' ← pump_send f; Some (set_fanout w i f')
  | EMessage i =>
      sh ← w_streams w !! i;
      f ← fanout_at w (hm_fanout (sh_stream sh));
      Some (to_streams w (alter (read_turn f) i (w_streams w)))
  end.

Fixpoint run (w : World source) (es : list (event source)) : option (World source) :=
  match es with [] => Some w | e :: es => w ← step w e; run w es end.
Inductive reachable : World source → Prop :=
  | reach_start : reachable world0
  | reach_step w e w' : reachable w → step w e = Some w' → reachable w'.
End step.
