(* ===== verification/HubSpec.v ===== *)
(** * HubSpec: sharing one connection keeps every answer an answer of the upstream's

    The LRU is the recency list it means to be; whatever the interleaving, what a consumer is told
    was answered by the upstream, on the consumer's own connection where it is kept for one; an
    outage costs one dial; and a reader of the shared mempool that joined in time and never lagged
    gets everything its pump read. *)

From S2P Require Export Hub.

#[global] Arguments MEMPOOL_REPLAY_TXS : simpl never.
#[global] Arguments MEMPOOL_CHANNEL_CAP : simpl never.
#[local] Arguments Nat.ltb : simpl never.

(** ** The LRU, refined by a list of entries *)

Section lru.
Context {V : Type}.
Implicit Types m : LruMap V.

Record lru_wf m : Prop := {
  wf_nodup : NoDup (lru_order m);
  wf_keys : ∀ k, k ∈ lru_order m ↔ is_Some (lru_map m !! k);
  wf_bounded : (length (lru_order m) ≤ lru_cap m)%nat;
}.

(** The entries, the least recently used first. *)
Definition entries_of (map : gmap string V) (order : list string) : list (string * V) :=
  omap (λ k, pair k <$> map !! k) order.
#[local] Arguments entries_of : simpl never.
Definition lru_entries m : list (string * V) := entries_of (lru_map m) (lru_order m).

Fixpoint spec_lookup (key : string) (l : list (string * V)) : option V :=
  match l with [] => None | (k, v) :: l => if bool_decide (k = key) then Some v else spec_lookup key l end.
Definition spec_remove (key : string) (l : list (string * V)) : list (string * V) :=
  filter (λ kv, kv.1 ≠ key) l.
Definition spec_get (l : list (string * V)) (key : string) : option V * list (string * V) :=
  match spec_lookup key l with
  | None => (None, l)
  | Some v => (Some v, spec_remove key l ++ [(key, v)])
  end.
Definition spec_insert (cap : nat) (l : list (string * V)) (key : string) (value : V) : list (string * V) :=
  let l := spec_remove key l ++ [(key, value)] in drop (length l - cap) l.

Lemma filter_ne_id (key : string) (order : list string) : key ∉ order → filter (.≠ key) order = order.
Proof.
  induction order as [|k order IH]; [done|]. intros [Hne Hin]%not_elem_of_cons. rewrite filter_cons, decide_True by done.
  by rewrite IH.
Qed.
Lemma remove_first_filter key order : NoDup order → remove_first key order = filter (.≠ key) order.
Proof.
  induction 1 as [|k order Hk _ IH]; [done|]. cbn [remove_first]. rewrite filter_cons. case_bool_decide as Heq.
  - subst. rewrite decide_False by auto. by rewrite filter_ne_id.
  - by rewrite decide_True, IH.
Qed.
Lemma entries_cons map k order :
  entries_of map (k :: order) =
  match map !! k with Some v => (k, v) :: entries_of map order | None => entries_of map order end.
Proof. unfold entries_of. cbn. by destruct (map !! k). Qed.
Lemma entries_lookup map order key :
  spec_lookup key (entries_of map order) = if decide (key ∈ order) then map !! key else None.
Proof.
  induction order as [|k order IH]; [by rewrite decide_False by set_solver|]. rewrite entries_cons.
  destruct (map !! k) as [v|] eqn:Hk; cbn [spec_lookup]; [case_bool_decide as Heq|].
  - subst. by rewrite decide_True by set_solver.
  - rewrite IH. by destruct (decide (key ∈ order)), (decide (key ∈ k :: order)); set_solver.
  - rewrite IH. destruct (decide (key ∈ order)), (decide (key ∈ k :: order)) as [Hin|]; [done|set_solver| |done].
    apply elem_of_cons in Hin as [->|]; [|done]. by rewrite Hk.
Qed.
Lemma entries_remove map order key :
  spec_remove key (entries_of map order) = entries_of map (filter (.≠ key) order).
Proof.
  unfold spec_remove. induction order as [|k order IH]; [done|]. rewrite entries_cons, filter_cons.
  destruct (map !! k) as [v|] eqn:Hk.
  - rewrite filter_cons. cbn [fst]. case_decide; [|done]. by rewrite entries_cons, Hk, <- IH.
  - case_decide; [|done]. by rewrite entries_cons, Hk.
Qed.
Lemma entries_app map a b : entries_of map (a ++ b) = entries_of map a ++ entries_of map b.
Proof. apply omap_app. Qed.
Lemma lru_entries_ext map map' order :
  (∀ k, k ∈ order → map !! k = map' !! k) → entries_of map order = entries_of map' order.
Proof.
  induction order as [|k order IH]; [done|]. intros H. by rewrite !entries_cons, (H k), IH by set_solver.
Qed.

(** Eviction drops from the front until the bound holds. *)
Lemma evict_spec cap order : ∀ map map' order',
  NoDup order → (∀ k, k ∈ order → is_Some (map !! k)) → lru_evict cap map order = (map', order') →
  order' = drop (length order - cap) order ∧
  (∀ k, map' !! k = if decide (k ∈ take (length order - cap) order) then None else map !! k) ∧
  entries_of map' order' = drop (length order - cap) (entries_of map order).
Proof.
  induction order as [|e order IH]; intros map map' order' Hnd Hin; cbn [lru_evict].
  - intros [= <- <-]. cbn. split_and!; [done|set_solver|done].
  - apply NoDup_cons in Hnd as [He Hnd]. destruct (Hin e) as [v Hv]; [set_solver|].
    destruct (Nat.ltb_spec cap (length (e :: order))) as [Hlt|Hge].
    + intros H. apply IH in H as (-> & Hmap & Hent); [|done|].
      * cbn [length] in *. replace (S (length order) - cap)%nat with (S (length order - cap)) by lia.
        cbn [drop take]. split_and!; [done| |].
        -- intros k. rewrite Hmap. destruct (decide (k = e)) as [->|Hne].
           ++ rewrite lookup_delete_eq. rewrite (decide_True (P := e ∈ _ :: _)) by set_solver. by case_decide.
           ++ rewrite lookup_delete_ne by done. by destruct (decide (k ∈ take _ _)), (decide (k ∈ e :: _)); set_solver.
        -- rewrite Hent, entries_cons, Hv. cbn [drop]. f_equal. apply lru_entries_ext.
           intros k Hk. apply lookup_delete_ne. by intros ->.
      * intros k Hk. rewrite lookup_delete_ne by (by intros ->). apply Hin. set_solver.
    + intros [= <- <-]. replace (length (e :: order) - cap)%nat with 0%nat by lia. cbn [drop take].
      split_and!; [done| |done]. intros k. by rewrite decide_False by set_solver.
Qed.

Lemma nodup_moved (key : string) order : NoDup order → NoDup (filter (.≠ key) order ++ [key]).
Proof.
  intros. apply NoDup_app. split_and!; [by apply NoDup_filter| |apply NoDup_singleton].
  by intros x [Hx _]%list_elem_of_filter ->%list_elem_of_singleton.
Qed.
Lemma elem_of_moved (key k : string) order : k ∈ filter (.≠ key) order ++ [key] ↔ k = key ∨ k ∈ order.
Proof.
  rewrite elem_of_app, list_elem_of_filter, list_elem_of_singleton. destruct (decide (k = key)); naive_solver.
Qed.
Lemma entries_length map order :
  (∀ k, k ∈ order → is_Some (map !! k)) → length (entries_of map order) = length order.
Proof.
  induction order as [|k order IH]; [done|]. intros H. rewrite entries_cons.
  destruct (H k) as [v ->]; [set_solver|]. cbn [length]. rewrite IH; [done|]. set_solver.
Qed.
Lemma lru_get_refines m key :
  lru_wf m →
  lru_wf (lru_get m key).2 ∧ (lru_get m key).1 = (spec_get (lru_entries m) key).1 ∧
  lru_entries (lru_get m key).2 = (spec_get (lru_entries m) key).2 ∧ lru_map (lru_get m key).2 = lru_map m.
Proof.
  intros [Hnd Hk Hb]. unfold lru_get, spec_get, lru_entries. rewrite entries_lookup.
  destruct (lru_map m !! key) as [v|] eqn:Hv; cbn.
  - assert (key ∈ lru_order m) as Hin by (apply Hk; by rewrite Hv).
    rewrite bool_decide_eq_true_2, decide_True by done. cbn. rewrite entries_remove, remove_first_filter by done.
    split_and!; try done.
    + constructor; cbn.
      * by apply nodup_moved.
      * intros k. rewrite elem_of_moved, Hk. naive_solver.
      * assert (Permutation (lru_order m) (filter (.≠ key) (lru_order m) ++ [key])) as <-; [|done].
        apply NoDup_Permutation; [done| |].
        { by apply nodup_moved. }
        intros k. rewrite elem_of_moved. naive_solver.
    + by rewrite entries_app, entries_cons, Hv.
  - rewrite (decide_False (P := key ∈ _)); [done|]. rewrite Hk, Hv. by intros [].
Qed.

Lemma lru_insert_refines m key value :
  lru_wf m →
  lru_wf (lru_insert m key value) ∧ lru_cap (lru_insert m key value) = lru_cap m ∧
  lru_entries (lru_insert m key value) = spec_insert (lru_cap m) (lru_entries m) key value ∧
  (∀ k v, lru_map (lru_insert m key value) !! k = Some v → k = key ∧ v = value ∨ lru_map m !! k = Some v).
Proof.
  intros [Hnd Hk Hb]. unfold lru_insert.
  assert ((if is_some (lru_map m !! key) then remove_first key (lru_order m) else lru_order m)
          = filter (.≠ key) (lru_order m)) as ->.
  { destruct (lru_map m !! key) eqn:E; cbn; [by apply remove_first_filter|].
    rewrite filter_ne_id; [done|]. rewrite Hk, E. by intros []. }
  set (order := filter (.≠ key) (lru_order m) ++ [key]).
  assert (∀ k, k ∈ order ↔ is_Some (<[key:=value]> (lru_map m) !! k)) as Hin.
  { intros k. unfold order. rewrite elem_of_moved, lookup_insert_is_Some, Hk. destruct (decide (k = key)); naive_solver. }
  destruct (lru_evict _ _ _) as [map' order'] eqn:E.
  apply evict_spec in E as (-> & Hmap & Hent); [|by apply nodup_moved|intros; by apply Hin].
  split_and!; cbn [lru_cap lru_map lru_order]; [|done| |].
  - assert (NoDup order) as Hndo by by apply nodup_moved. set (n := (length order - lru_cap m)%nat) in *.
    rewrite <- (take_drop n order) in Hndo. apply NoDup_app in Hndo as (_ & Hdisj & Hd).
    constructor; cbn; [done| |rewrite length_drop; lia]. intros k. rewrite Hmap. split.
    + intros Hkd. rewrite decide_False by (intros ?; by eapply Hdisj). apply Hin.
      rewrite <- (take_drop n order). set_solver.
    + case_decide as Ht; [by intros []|]. intros Ho%Hin. rewrite <- (take_drop n order) in Ho. by apply elem_of_app in Ho as [].
  - unfold lru_entries, spec_insert. cbn [lru_map lru_order]. rewrite Hent, entries_remove.
    assert (entries_of (<[key:=value]> (lru_map m)) order =
            entries_of (lru_map m) (filter (.≠ key) (lru_order m)) ++ [(key, value)]) as Ho.
    { unfold order. rewrite entries_app, entries_cons, lookup_insert_eq. f_equal. apply lru_entries_ext.
      intros k [Hne _]%list_elem_of_filter. by apply lookup_insert_ne. }
    rewrite <- Ho, entries_length; [done|]. intros; by apply Hin.
  - intros k v. rewrite Hmap. case_decide; [done|]. intros [[-> ->]|[_ ?]]%lookup_insert_Some; auto.
Qed.
Lemma lru_clear_wf m : lru_wf (lru_clear m).
Proof. constructor; cbn; [constructor| |lia]. intros k. rewrite lookup_empty. split; [by intros ?%not_elem_of_nil|by intros []]. Qed.
End lru.

(** ** The caches and the connection *)

Section caches.
Context {source : Type}.
Implicit Types (U : list (Upcall source)) (h : ChainHub source) (w : World source).

Definition dials U : list Z := omap (λ u, match u with Dialed g _ => Some g | _ => None end) U.
Definition drops U : list Z := omap (λ u, match u with Dropped g => Some g | _ => None end) U.
Definition live h : Z := if is_some (cn_source (h_conn h)) then 1 else 0.

(** Everything kept was answered by the upstream, under the generation it is kept for. *)
Record caches_ok U h : Prop := {
  co_tip : ∀ tip at_, tc_tip (h_tip h) = Some (tip, at_) → TipWas (tc_generation (h_tip h)) at_ tip ∈ U;
  co_info : ∀ info, ic_server_info (h_info h) = Some info → InfoWas (ic_generation (h_info h)) info ∈ U;
  co_roots : ∀ p roots, ic_roots (h_info h) !! pool_key p = Some roots →
               RootsWas (ic_generation (h_info h)) p roots ∈ U;
  co_txs : ∀ txid tx, lru_map (h_txs h) !! txid = Some tx → ∃ g, TxWas g txid (Some tx) ∈ U;
  co_lru : lru_wf (h_txs h) ∧ lru_cap (h_txs h) = TX_CACHE_ENTRIES;
}.
(** Every generation is one dial, and a new one needs the last to have been dropped. *)
Record conn_ok U h (handles : list (HubSource source)) : Prop := {
  no_generation : cn_generation (h_conn h) = Z.of_nat (length (dials U));
  no_connects : st_connects (h_stats h) = cn_generation (h_conn h);
  no_old : ∀ g, g ∈ dials U → g ≤ cn_generation (h_conn h);
  no_once : NoDup (dials U);
  no_source : ∀ s, cn_source (h_conn h) = Some s → Dialed (cn_generation (h_conn h)) s ∈ U;
  no_handles : ∀ s, s ∈ handles → Dialed (hs_generation s) (hs_inner s) ∈ U;
  no_drops : Z.of_nat (length (dials U)) = Z.of_nat (length (drops U)) + live h;
}.
(** What the upstream answered that makes a reply right. *)
Definition justified U (r : Reply) : Prop :=
  match r with
  | GotTip g now tip => ∃ at_, TipWas g at_ tip ∈ U ∧ sat_sub now at_ < TIP_TTL
  | GotInfo g info => InfoWas g info ∈ U
  | GotRoots g p roots => RootsWas g p roots ∈ U
  | GotTx g txid None => TxWas g txid None ∈ U
  | GotTx _ txid (Some tx) => ∃ g, TxWas g txid (Some tx) ∈ U
  end.
Record hub_inv w : Prop := {
  hi_caches : caches_ok (w_upcalls w) (w_hub w);
  hi_conn : conn_ok (w_upcalls w) (w_hub w) (w_handles w);
  hi_storing : ∀ g txid f, (g, txid, f) ∈ w_storing w → TxWas g txid f ∈ w_upcalls w;
  hi_refreshing : ∀ g info, (g, info) ∈ w_refreshing w → InfoWas g info ∈ w_upcalls w;
  hi_replies : ∀ r, r ∈ w_replies w → justified (w_upcalls w) r;
}.

(** A call upstream that is no dial and no drop leaves what was known. *)
Definition is_query (u : Upcall source) : bool := match u with Dialed _ _ | Dropped _ => false | _ => true end.

Lemma caches_more U u h : caches_ok U h → caches_ok (u :: U) h.
Proof.
  intros []. constructor; intros; try (by constructor; eauto); [|done].
  destruct (co_txs0 txid tx) as [g ?]; [done|]. exists g. by right.
Qed.
Lemma justified_more U u r : justified U r → justified (u :: U) r.
Proof.
  destruct r as [| | |? ? []]; cbn; try (by right).
  - intros (at_ & ? & ?). exists at_. split; [by right|done].
  - intros [g ?]. exists g. by right.
Qed.
Lemma conn_query U u h handles : is_query u = true → conn_ok U h handles → conn_ok (u :: U) h handles.
Proof.
  intros Hq []. assert (dials (u :: U) = dials U ∧ drops (u :: U) = drops U) as [Hd Hp] by by destruct u.
  constructor; rewrite ?Hd, ?Hp; try done; intros; right; eauto.
Qed.

(** What the two depend on. *)
Definition same_core h h' : Prop :=
  h_conn h' = h_conn h ∧ h_tip h' = h_tip h ∧ h_info h' = h_info h ∧ h_txs h' = h_txs h ∧
  st_connects (h_stats h') = st_connects (h_stats h).
Lemma caches_core U h h' : same_core h h' → caches_ok U h → caches_ok U h'.
Proof. intros (_ & Ht & Hi & Hx & _) []. constructor; rewrite ?Ht, ?Hi, ?Hx; done. Qed.
Lemma conn_core U h h' handles :
  h_conn h' = h_conn h → st_connects (h_stats h') = st_connects (h_stats h) →
  conn_ok U h handles → conn_ok U h' handles.
Proof. intros Hc Hs []. constructor; unfold live in *; rewrite ?Hc, ?Hs; done. Qed.
Lemma counted_connects c h :
  c ≠ Connects → h_conn (counted c h) = h_conn h ∧ st_connects (h_stats (counted c h)) = st_connects (h_stats h).
Proof. intros Hc. split; [done|]. destruct c; [done|apply Z.add_0_r..]. Qed.

Lemma inv_core w w' :
  same_core (w_hub w) (w_hub w') → w_handles w' = w_handles w → w_upcalls w' = w_upcalls w →
  w_storing w' = w_storing w → w_refreshing w' = w_refreshing w → w_replies w' = w_replies w →
  hub_inv w → hub_inv w'.
Proof.
  intros Hcore Hh Hu Hs Hr Hp []. constructor; rewrite ?Hh, ?Hu, ?Hs, ?Hr, ?Hp; try done.
  - by eapply caches_core.
  - destruct Hcore as (? & _ & _ & _ & ?). by eapply conn_core.
Qed.
Lemma inv_same w w' :
  hub_inv w → w_hub w' = w_hub w → w_handles w' = w_handles w → w_upcalls w' = w_upcalls w →
  w_storing w' = w_storing w → w_refreshing w' = w_refreshing w → w_replies w' = w_replies w → hub_inv w'.
Proof. intros ? Hh. intros. eapply inv_core; [|done..]. by rewrite Hh. Qed.
(** A query, its effect on the hub, and the reply to it. *)
Lemma inv_query w w' us rs :
  hub_inv w → h_conn (w_hub w') = h_conn (w_hub w) →
  st_connects (h_stats (w_hub w')) = st_connects (h_stats (w_hub w)) → w_handles w' = w_handles w →
  w_upcalls w' = us ++ w_upcalls w → w_replies w' = rs ++ w_replies w →
  Forall (λ u, is_query u = true) us → caches_ok (us ++ w_upcalls w) (w_hub w') →
  Forall (justified (us ++ w_upcalls w)) rs →
  (∀ g txid f, (g, txid, f) ∈ w_storing w' → (g, txid, f) ∈ w_storing w ∨ TxWas g txid f ∈ us) →
  (∀ g info, (g, info) ∈ w_refreshing w' → (g, info) ∈ w_refreshing w ∨ InfoWas g info ∈ us) →
  hub_inv w'.
Proof.
  intros [Hc Hn Hs Hr Hp] Hconn Hst Hhan Hu Hrep Hq Hc' Hrs Hs' Hr'.
  assert (∀ r, justified (w_upcalls w) r → justified (us ++ w_upcalls w) r) as Hjust.
  { intros r Hj. clear -Hj. induction us as [|u us IH]; [done|]. by apply justified_more. }
  constructor; rewrite ?Hhan, ?Hu, ?Hrep.
  - done.
  - eapply conn_core; [done..|]. clear -Hn Hq. induction us as [|u us IH]; [done|].
    apply Forall_cons in Hq as [Hq Hqs]. apply conn_query; auto.
  - intros g txid f [?|?]%Hs'; apply elem_of_app; eauto.
  - intros g info [?|?]%Hr'; apply elem_of_app; eauto.
  - intros r [Hin|Hin]%elem_of_app; [by eapply Forall_forall in Hrs|eauto].
Qed.

Lemma caches_counted c U h : caches_ok U h → caches_ok U (counted c h).
Proof. by intros []. Qed.
Lemma caches_txs U h txs :
  caches_ok U h → (∀ txid tx, lru_map txs !! txid = Some tx → ∃ g, TxWas g txid (Some tx) ∈ U) →
  lru_wf txs → lru_cap txs = TX_CACHE_ENTRIES → caches_ok U (with_txs h txs).
Proof. intros []. by constructor. Qed.
Lemma caches_cleared U h : caches_ok U h → caches_ok U (with_txs h (lru_clear (h_txs h))).
Proof.
  intros Hc. apply caches_txs; [done| |apply lru_clear_wf|apply Hc]. intros txid tx. cbn. by rewrite lookup_empty.
Qed.
Lemma caches_note_tip U h previous current : caches_ok U h → caches_ok U (note_tip h previous current).
Proof. intros. unfold note_tip. by destruct previous; [case_match|]; [..|]; try apply caches_cleared. Qed.
Lemma note_tip_core h previous current :
  h_conn (note_tip h previous current) = h_conn h ∧ h_stats (note_tip h previous current) = h_stats h.
Proof. unfold note_tip. by destruct previous; [case_match|]. Qed.
Lemma caches_info U h cache :
  caches_ok U h →
  (∀ info, ic_server_info cache = Some info → InfoWas (ic_generation cache) info ∈ U) →
  (∀ p roots, ic_roots cache !! pool_key p = Some roots → RootsWas (ic_generation cache) p roots ∈ U) →
  caches_ok U (with_info h cache).
Proof. intros []. by constructor. Qed.
(** The info cache, for a generation, holds answers given under it. *)
Lemma info_for_ok U h g :
  caches_ok U h →
  ic_generation (info_for h g) = g ∧
  (∀ info, ic_server_info (info_for h g) = Some info → InfoWas g info ∈ U) ∧
  (∀ p roots, ic_roots (info_for h g) !! pool_key p = Some roots → RootsWas g p roots ∈ U).
Proof.
  intros []. unfold info_for. case_bool_decide as Hg; [subst; by split_and!|]. cbn. split_and!; [done..|].
  intros p roots. by rewrite lookup_empty.
Qed.
Lemma caches_info_for U h g : caches_ok U h → caches_ok U (with_info h (info_for h g)).
Proof. intros Hc. destruct (info_for_ok U h g Hc) as (Hg & Hi & Hr). by apply caches_info; rewrite ?Hg. Qed.
Lemma caches_store U h txid fetched g :
  caches_ok U h → TxWas g txid fetched ∈ U → caches_ok U (fetch_tx_store h txid fetched).
Proof.
  intros Hc Hin. destruct fetched as [tx|]; [|done]. destruct (co_lru _ _ Hc) as [Hwf Hcap].
  destruct (lru_insert_refines (h_txs h) txid tx Hwf) as (Hwf' & Hcap' & _ & Hmap).
  apply caches_txs; [done| |done|congruence]. intros k v [[-> ->]|Hv]%Hmap; [eauto|]. by apply Hc.
Qed.
Lemma caches_lookup U h txid :
  caches_ok U h →
  caches_ok U (fetch_tx_cached h txid).2 ∧ (fetch_tx_cached h txid).1 = lru_map (h_txs h) !! txid ∧
  h_conn (fetch_tx_cached h txid).2 = h_conn h ∧
  st_connects (h_stats (fetch_tx_cached h txid).2) = st_connects (h_stats h).
Proof.
  intros Hc. destruct (co_lru _ _ Hc) as [Hwf Hcap]. unfold fetch_tx_cached.
  assert (lru_cap (lru_get (h_txs h) txid).2 = lru_cap (h_txs h)) as Hcap'
    by (unfold lru_get; destruct (lru_map _ !! _); [by case_bool_decide|done]).
  assert ((lru_get (h_txs h) txid).1 = lru_map (h_txs h) !! txid) as Hget
    by (unfold lru_get; by destruct (lru_map _ !! _)).
  destruct (lru_get_refines (h_txs h) txid Hwf) as (Hwf' & _ & _ & Hmap).
  destruct (lru_get (h_txs h) txid) as [hit txs]. cbn [fst snd] in *. subst hit.
  assert (caches_ok U (with_txs h txs)).
  { apply caches_txs; [done| |done|congruence]. rewrite Hmap. apply Hc. }
  split_and!; [by case_match; apply caches_counted|done|by case_match|case_match; apply Z.add_0_r].
Qed.

#[local] Tactic Notation "query" uconstr(us) uconstr(rs) :=
  eapply (inv_query _ _ us rs);
    [eassumption|try reflexivity|try (reflexivity || apply Z.add_0_r)|reflexivity..|by rewrite ?Forall_cons, ?Forall_nil
    | | |try (intros ???; by left)|try (intros ??; by left)].

Lemma sat_sub_diag z : sat_sub z z = 0.
Proof. unfold sat_sub. lia. Qed.
Lemma step_latest_block w g now upstream after w' :
  hub_inv w → step w (ELatestBlock g now upstream after) = Some w' → hub_inv w'.
Proof.
  intros Hinv. pose proof (hi_caches w Hinv) as Hc. unfold step, latest_block, if_handle.
  destruct (tip_cached (w_hub w) g now) as [tip|] eqn:Ht.
  - case_match; [|done]. intros [= <-]. query [] [GotTip g now tip]; [done|].
    apply Forall_singleton. cbn. unfold tip_cached in Ht. case_bool_decide as Hg; [|done].
    destruct (tc_tip (h_tip (w_hub w))) as [[tip' at_]|] eqn:Htip; [|done]. case_match eqn:Hage; [|done].
    injection Ht as ->. exists at_. split; [subst g; by apply Hc|by apply Z.ltb_lt].
  - destruct upstream as [tip|e]; (case_match; [|done]); intros [= <-].
    + query [TipWas g after tip] [GotTip g after tip].
      * cbn. by rewrite (proj1 (note_tip_core _ _ _)).
      * cbn. rewrite (proj2 (note_tip_core _ _ _)). apply Z.add_0_r.
      * cbn. eapply (caches_counted TipFetches), (caches_note_tip _ _ (fst <$> tc_tip (h_tip (w_hub w))) tip) in Hc.
        apply (caches_more _ (TipWas g after tip)) in Hc.
        destruct Hc as [? Hi Hr Ht' Hl]. constructor; cbn; [|exact Hi|exact Hr|exact Ht'|exact Hl].
        intros ?? [= <- <-]. by left.
      * apply Forall_singleton. exists after. rewrite sat_sub_diag. split; [by left|done].
    + query [] []; [by apply caches_counted|done].
Qed.

(** An answer stored in the info cache. *)
Lemma caches_info_stored U h h' g :
  caches_ok U h → caches_ok U h' →
  let cache := info_for h g in
  (∀ info, InfoWas g info ∈ U →
     caches_ok U (with_info h' {| ic_generation := ic_generation cache; ic_server_info := Some info;
                                  ic_roots := ic_roots cache |})) ∧
  (∀ p roots, RootsWas g p roots ∈ U →
     caches_ok U (with_info h' {| ic_generation := ic_generation cache; ic_server_info := ic_server_info cache;
                                  ic_roots := <[pool_key p := roots]> (ic_roots cache) |})).
Proof.
  intros Hc Hc' cache. destruct (info_for_ok U h g Hc) as (Hg & Hi & Hr). subst cache. split; intros.
  - apply caches_info; [done|..]; cbn; rewrite Hg; [|done]. by intros ? [= <-].
  - apply caches_info; [done|..]; cbn; rewrite Hg; [done|]. intros p' roots' [[Hk <-]|[_ ?]]%lookup_insert_Some; [|eauto].
    by assert (p = p') as -> by (by destruct p, p').
Qed.

Lemma step_server_info w g upstream w' :
  hub_inv w → step w (EServerInfo g upstream) = Some w' → hub_inv w'.
Proof.
  intros Hinv. pose proof (hi_caches w Hinv) as Hc. unfold step, server_info, if_handle.
  destruct (info_for_ok _ _ g Hc) as (_ & Hi & _).
  destruct (ic_server_info (info_for (w_hub w) g)) as [info|] eqn:E.
  - case_match; [|done]. intros [= <-]. query [] [GotInfo g info]; [by apply caches_info_for|].
    apply Forall_singleton. by apply Hi.
  - destruct upstream as [info|e]; (case_match; [|done]); intros [= <-].
    + query [InfoWas g info] [GotInfo g info]; [|apply Forall_singleton; by left].
      pose proof (caches_more _ (InfoWas g info) _ Hc) as Hc'.
      by apply (caches_info_stored _ _ _ g Hc'); [apply caches_counted, caches_info_for|left].
    + query [] []; [by apply caches_counted, caches_info_for|done].
Qed.
Lemma step_subtree_roots w g p upstream w' :
  hub_inv w → step w (ESubtreeRoots g p upstream) = Some w' → hub_inv w'.
Proof.
  intros Hinv. pose proof (hi_caches w Hinv) as Hc. unfold step, subtree_roots, if_handle.
  destruct (info_for_ok _ _ g Hc) as (_ & _ & Hr).
  destruct (ic_roots (info_for (w_hub w) g) !! pool_key p) as [roots|] eqn:E.
  - case_match; [|done]. intros [= <-]. query [] [GotRoots g p roots]; [by apply caches_info_for|].
    apply Forall_singleton. by apply Hr.
  - destruct upstream as [roots|e]; (case_match; [|done]); intros [= <-].
    + query [RootsWas g p roots] [GotRoots g p roots]; [|apply Forall_singleton; by left].
      pose proof (caches_more _ (RootsWas g p roots) _ Hc) as Hc'.
      by apply (caches_info_stored _ _ _ g Hc'); [apply caches_counted, caches_info_for|left].
    + query [] []; [by apply caches_counted, caches_info_for|done].
Qed.
Lemma step_refresh w g upstream w' : hub_inv w → step w (ERefresh g upstream) = Some w' → hub_inv w'.
Proof.
  intros Hinv. pose proof (hi_caches w Hinv) as Hc. unfold step, if_handle.
  destruct upstream as [info|e]; (case_match; [|done]); intros [= <-].
  - query [InfoWas g info] []; [by apply caches_more, caches_counted|done|].
    cbn. intros g' info' [[= -> ->]|]%elem_of_cons; [right; by left|by left].
  - query [] []; [by apply caches_counted|done].
Qed.
(** One element less. *)
Lemma elem_of_delete {A} (i : nat) (x : A) (l : list A) : x ∈ delete i l → x ∈ l.
Proof.
  revert i. induction l as [|y l IH]; intros [|i]; [done..|by right|].
  intros [->|H]%elem_of_cons; [by left|right; by eapply IH].
Qed.
Lemma step_refreshed w i w' : hub_inv w → step w (ERefreshed i) = Some w' → hub_inv w'.
Proof.
  intros Hinv. pose proof (hi_caches w Hinv) as Hc. unfold step.
  destruct (w_refreshing w !! i) as [[g info]|] eqn:Hi; [|done]. intros [= <-].
  apply list_elem_of_lookup_2, (hi_refreshing _ Hinv) in Hi.
  query [] [GotInfo g info]; [| | |by apply Forall_singleton|].
  - cbn. unfold refreshed_server_info. by case_bool_decide.
  - cbn. unfold refreshed_server_info. by case_bool_decide.
  - cbn. unfold refreshed_server_info. case_bool_decide as Hg; [|done].
    apply caches_info; [done|..]; cbn; [intros ? [= <-]; by subst|apply Hc].
  - cbn. intros ?? ?%elem_of_delete. by left.
Qed.
Lemma step_fetch w g txid w' : hub_inv w → step w (EFetch g txid) = Some w' → hub_inv w'.
Proof.
  intros Hinv. pose proof (hi_caches w Hinv) as Hc. unfold step, if_handle.
  destruct (caches_lookup _ _ txid Hc) as (Hc' & Hhit & Hconn & Hst).
  destruct (fetch_tx_cached (w_hub w) txid) as [hit h']. cbn [fst snd] in *.
  destruct hit as [tx|]; (case_match; [|done]); intros [= <-].
  - query [] [GotTx g txid (Some tx)]; [done..|]. apply Forall_singleton. cbn. by apply (co_txs _ _ Hc).
  - query [] []; done.
Qed.
Lemma step_fetched w g txid upstream w' : hub_inv w → step w (EFetched g txid upstream) = Some w' → hub_inv w'.
Proof.
  intros Hinv. pose proof (hi_caches w Hinv) as Hc. unfold step.
  destruct (take_out _ _); [|done]. intros [= <-]. destruct upstream as [fetched|e].
  - query [TxWas g txid fetched] []; [by apply caches_more|done|].
    cbn. intros ??? [[= -> -> ->]|]%elem_of_cons; [right; by left|by left].
  - query [] []; done.
Qed.
Lemma step_store w i w' : hub_inv w → step w (EStore i) = Some w' → hub_inv w'.
Proof.
  intros Hinv. pose proof (hi_caches w Hinv) as Hc. unfold step.
  destruct (w_storing w !! i) as [[[g txid] fetched]|] eqn:Hi; [|done]. intros [= <-].
  apply list_elem_of_lookup_2, (hi_storing _ Hinv) in Hi.
  query [] [GotTx g txid fetched].
  - by destruct fetched.
  - by destruct fetched.
  - by eapply caches_store.
  - apply Forall_singleton. destruct fetched; [by eexists|done].
  - cbn. intros ??? ?%elem_of_delete. by left.
Qed.

(** A dial, or the drop that lets the next one happen. *)
Lemma step_acquire w dial w' : hub_inv w → step w (EAcquire dial) = Some w' → hub_inv w'.
Proof.
  intros [Hc Hn Hs Hr Hp]. unfold step, acquire. pose proof Hn as Hn0. destruct Hn as [Hgen Hcon Hold Honce Hsrc Hhan Hdrops].
  destruct (cn_source (h_conn (w_hub w))) as [s|] eqn:Hlive.
  - intros [= <-]. constructor; [done| |done..]. constructor; try done.
    + cbn. rewrite Hlive. apply Hsrc.
    + cbn. intros s' [->|]%elem_of_cons; [by apply Hsrc|by apply Hhan].
  - destruct dial as [s|e]; intros [= <-]; rewrite ?Hlive; [|by constructor].
    assert (∀ r, r ∈ w_replies w → justified (Dialed (cn_generation (h_conn (w_hub w)) + 1) s :: w_upcalls w) r)
      by (intros; apply justified_more; auto).
    constructor; cbn; try done; try (intros; right; eauto; fail).
    + apply (caches_more _ (Dialed (cn_generation (h_conn (w_hub w)) + 1) s)) in Hc. by destruct Hc.
    + unfold live in Hdrops. rewrite Hlive in Hdrops. cbn [is_some] in Hdrops.
      constructor; unfold live; cbn [h_conn cn_generation cn_source h_stats counted with_conn st_connects is_some];
        try change (dials (Dialed ?g s :: _)) with (g :: dials (w_upcalls w));
        try change (drops (Dialed _ s :: _)) with (drops (w_upcalls w)); cbn [length]; try lia.
      * intros g [->|?%Hold]%elem_of_cons; lia.
      * apply NoDup_cons. split; [|done]. intros Hin%Hold. lia.
      * intros ? [= <-]. by left.
      * intros ? [->|]%elem_of_cons; [by left|right; auto].
Qed.
Lemma step_fail w g w' : hub_inv w → step w (EFail g) = Some w' → hub_inv w'.
Proof.
  intros [Hc Hn Hs Hr Hp]. unfold step, invalidate_conn. destruct (take_out g (w_failed w)) as [failed|]; [|done].
  destruct (negb _ || negb _) eqn:E; cbn; intros [= <-]; [by constructor|].
  apply orb_false_iff in E as [Hg%negb_false_iff%bool_decide_eq_true Hlive%negb_false_iff].
  constructor; cbn; try (intros; right; eauto; fail).
  - apply (caches_more _ (Dropped g)) in Hc. by destruct Hc.
  - destruct Hn as [Hgen Hcon Hold Honce Hsrc Hhan Hdrops]. unfold live in Hdrops. rewrite Hlive in Hdrops.
    constructor; unfold live; cbn [h_conn cn_generation cn_source with_conn h_stats is_some];
      try change (dials (Dropped g :: _)) with (dials (w_upcalls w));
      try change (drops (Dropped g :: _)) with (g :: drops (w_upcalls w)); cbn [length is_some] in *; try done; try lia.
    intros. right. auto.
  - intros. apply justified_more. auto.
Qed.

(** What the mempool's part of the hub does leaves the rest. *)
Lemma shut_fanout_same w tx shut :
  w_hub (shut_fanout w tx shut) = w_hub w ∧ w_handles (shut_fanout w tx shut) = w_handles w ∧
  w_upcalls (shut_fanout w tx shut) = w_upcalls w ∧ w_storing (shut_fanout w tx shut) = w_storing w ∧
  w_refreshing (shut_fanout w tx shut) = w_refreshing w ∧ w_replies (shut_fanout w tx shut) = w_replies w.
Proof. unfold shut_fanout. destruct tx as [i|]; [|done]. by destruct (fanout_at w i). Qed.
Lemma shutdown_inv w g : hub_inv w → hub_inv (shutdown w g).
Proof.
  unfold shutdown. destruct (shut_fanout_same w (mh_tx (h_mempool (w_hub w))) fanout_shutdown) as (H1 & ? & ? & ? & ? & ?).
  apply inv_core; cbn; try done. by rewrite H1.
Qed.
Lemma subscribe_inv w g : hub_inv w → hub_inv (subscribe w g).
Proof.
  intros Hinv. unfold subscribe.
  set (w1 := if _ : bool then shutdown w g else w).
  assert (hub_inv w1) as Hinv1 by (subst w1; case_match; [by apply shutdown_inv|done]). clearbody w1.
  destruct (mh_tx _) as [i|]; [destruct (fanout_at w1 i) as [f|]; [case_match|]|];
    (eapply inv_core; [| | | | | |exact Hinv1]; try done; by split_and!; try apply Z.add_0_r).
Qed.
Lemma start_inv w : hub_inv w → hub_inv (start w).
Proof.
  unfold start. destruct (shut_fanout_same w (mh_tx (h_mempool (w_hub w))) fanout_released) as (H1 & ? & ? & ? & ? & ?).
  apply inv_core; cbn; try done. by rewrite H1.
Qed.
Lemma step_drop w g w' : hub_inv w → step w (EDrop g) = Some w' → hub_inv w'.
Proof.
  intros Hinv. unfold step. destruct (take_out _ _) as [dropping|]; [|done]. destruct (w_joining w); [done|]. cbn.
  set (w1 := if _ : bool then shutdown _ _ else _). intros [= <-].
  assert (hub_inv w1) as Hinv1.
  { subst w1. assert (hub_inv (to_dropping w dropping)) by by apply (inv_same w). case_match; [by apply shutdown_inv|done]. }
  clearbody w1. pose proof (hi_caches _ Hinv1) as Hc.
  query [] []; [by apply caches_cleared|done].
Qed.

Lemma step_inv w e w' : hub_inv w → step w e = Some w' → hub_inv w'.
Proof.
  intros Hinv. destruct e; intros H.
  - by eapply step_acquire.
  - by eapply step_latest_block.
  - by eapply step_subtree_roots.
  - by eapply step_server_info.
  - by eapply step_refresh.
  - by eapply step_refreshed.
  - by eapply step_fetch.
  - by eapply step_fetched.
  - by eapply step_store.
  - unfold step, if_handle in H. case_match; [|done]. injection H as <-. case_match; [|done]. by apply (inv_same w).
  - by eapply step_fail.
  - by eapply step_drop.
  - unfold step, if_handle in H. repeat (case_match; try done). injection H as <-. by apply subscribe_inv.
  - unfold step in H. repeat (case_match; try done). destruct (fanout_at w _); [|done]. injection H as <-. by apply (inv_same w).
  - unfold step in H. repeat (case_match; try done). destruct (fanout_at w _); [|done]. injection H as <-. by apply (inv_same w).
  - unfold step in H. repeat (case_match; try done); injection H as <-.
    + apply start_inv. by apply (inv_same w).
    + by apply (inv_same w).
  - unfold step in H. destruct (w_fanouts w !! _); [|done]. cbn in H. case_match; [|done]. injection H as <-. by apply (inv_same w).
  - unfold step in H. destruct (fanout_at w _); [|done]. cbn in H. destruct (pump_send _); [|done]. injection H as <-.
    by apply (inv_same w).
  - unfold step in H. destruct (w_streams w !! _); [|done]. cbn in H. destruct (fanout_at w _); [|done]. injection H as <-.
    by apply (inv_same w).
Qed.
Lemma world0_inv : hub_inv (@world0 source).
Proof.
  constructor; cbn; [| |set_solver..].
  - constructor; cbn; [done|done|intros ??; by rewrite lookup_empty|intros ??; by rewrite lookup_empty|].
    split; [apply (lru_clear_wf (lru_new TX_CACHE_ENTRIES))|done].
  - constructor; cbn; [done|done|set_solver|constructor|done|set_solver|done].
Qed.
Lemma reachable_inv w : reachable w → hub_inv w.
Proof. induction 1; [apply world0_inv|by eapply step_inv]. Qed.
Lemma run_reachable w es w' : reachable w → run w es = Some w' → reachable w'.
Proof.
  revert w. induction es as [|e es IH]; intros w Hw; cbn; [by intros [= <-]|].
  destruct (step w e) as [w1|] eqn:E; [|done]. cbn. apply IH. by eapply reach_step.
Qed.

End caches.

(** ** The mempool's readers *)

Section mempool.
Context {source : Type}.
Implicit Types (w : World source) (fh : FanoutHistory) (sh : StreamHistory).

Definition sent_txs (items : list MempoolItem) : list string :=
  omap (λ item, match item with MI_Tx raw => Some raw | MI_Closed => None end) items.
#[local] Arguments sent_txs : simpl never.
(** Read, and about to be sent. *)
Definition in_hand (p : PumpState) : list string := match p with Buffered raw => [raw] | _ => [] end.

(** A fan-out: what was sent is what was read, the buffer is its beginning, and unless it was torn
    down the end is sent once, last. *)
Record fan_ok fh : Prop := {
  fk_sent : sent_txs (fo_sent (fh_fanout fh)) ++ in_hand (fo_pump (fh_fanout fh)) = fh_read fh;
  fk_replay : fo_replay (fh_fanout fh) = take MEMPOOL_REPLAY_TXS (fh_read fh);
  fk_end : fo_aborted (fh_fanout fh) = false →
    fo_held (fh_fanout fh) = true ∧
    match fo_pump (fh_fanout fh) with
    | Ended => ∃ items, fo_sent (fh_fanout fh) = items ++ [MI_Closed] ∧ MI_Closed ∉ items
    | _ => MI_Closed ∉ fo_sent (fh_fanout fh)
    end;
}.
(** A reader of a fan-out: what it got, still replays and has ahead on the channel is what it was
    given to replay and what was sent since it attached. *)
Record str_ok fh sh : Prop := {
  sk_pos : (hm_pos (sh_stream sh) ≤ length (fo_sent (fh_fanout fh)))%nat;
  sk_start : (sh_start sh ≤ length (fo_sent (fh_fanout fh)))%nat;
  sk_account : sh_lagged sh = false →
    sh_got sh ++ hm_replay (sh_stream sh) ++ sent_txs (drop (hm_pos (sh_stream sh)) (fo_sent (fh_fanout fh))) =
    sh_snapshot sh ++ sent_txs (drop (sh_start sh) (fo_sent (fh_fanout fh)));
  sk_before : (length (sh_snapshot sh) < MEMPOOL_REPLAY_TXS)%nat →
    ∀ raw, raw ∈ sent_txs (take (sh_start sh) (fo_sent (fh_fanout fh))) → raw ∈ sh_snapshot sh;
  sk_snapshot : ∀ raw, raw ∈ sh_snapshot sh → raw ∈ fh_read fh;
  sk_replay : ∀ raw, raw ∈ hm_replay (sh_stream sh) → raw ∈ fh_read fh;
  sk_got : ∀ raw, raw ∈ sh_got sh → raw ∈ fh_read fh;
  sk_done : hm_done (sh_stream sh) = true → fo_aborted (fh_fanout fh) = false →
    hm_replay (sh_stream sh) = [] ∧ fo_pump (fh_fanout fh) = Ended ∧
    hm_pos (sh_stream sh) = length (fo_sent (fh_fanout fh));
}.

(** How a fan-out changes: more is sent and read, and an end that is not a teardown is final. *)
Definition fan_grows fh fh' : Prop :=
  (∃ more, fo_sent (fh_fanout fh') = fo_sent (fh_fanout fh) ++ more) ∧
  (∀ raw, raw ∈ fh_read fh → raw ∈ fh_read fh') ∧
  (fo_aborted (fh_fanout fh') = false →
     fo_aborted (fh_fanout fh) = false ∧
     (fo_pump (fh_fanout fh) = Ended →
        fo_pump (fh_fanout fh') = Ended ∧ fo_sent (fh_fanout fh') = fo_sent (fh_fanout fh))).
#[local] Instance fan_grows_refl : Reflexive fan_grows.
Proof. intros fh. split_and!; [exists []; by rewrite app_nil_r|done..]. Qed.

Lemma sent_txs_app a b : sent_txs (a ++ b) = sent_txs a ++ sent_txs b.
Proof. apply omap_app. Qed.
Lemma str_grows fh fh' sh : fan_grows fh fh' → str_ok fh sh → str_ok fh' sh.
Proof.
  intros ([more Hm] & Hr & Ha) []. constructor; rewrite ?Hm, ?length_app; try lia; auto.
  - intros Hlag. rewrite !drop_app_le, !sent_txs_app, !(assoc_L (++)), <- !(assoc_L (++)) by done.
    rewrite !(assoc_L (++)). f_equal. rewrite <- !(assoc_L (++)). auto.
  - rewrite take_app_le by done. auto.
  - intros Hd Hab. destruct (Ha Hab) as [Hab' He]. destruct sk_done0 as (? & Hp & Hl); [done..|].
    destruct (He Hp) as [? Hs]. rewrite Hm in Hs. split_and!; [done..|]. rewrite Hl, <- length_app, Hs. done.
Qed.

Lemma sent_in_read fh raw : fan_ok fh → raw ∈ sent_txs (fo_sent (fh_fanout fh)) → raw ∈ fh_read fh.
Proof. intros [<- _ _]. set_solver. Qed.

Lemma fan_new_ok : fan_ok {| fh_fanout := fanout_new; fh_read := [] |}.
Proof. constructor; cbn; [done|done|]. intros _. split; [done|set_solver]. Qed.
Lemma pump_read_ok fh message :
  fan_ok fh → fo_pump (fh_fanout fh) = Waiting → fo_aborted (fh_fanout fh) = false →
  let fh' := {| fh_fanout := pump_read (fh_fanout fh) message;
                fh_read := match message with Ok (Some raw) => fh_read fh ++ [raw] | _ => fh_read fh end |} in
  fan_ok fh' ∧ fan_grows fh fh'.
Proof.
  intros [Hs Hr He] Hp Ha fh'. rewrite Hp in Hs, He. cbn in Hs. rewrite app_nil_r in Hs.
  destruct (He Ha) as [Hh Hc].
  destruct message as [[raw|]|e]; subst fh'; cbn.
  1: split; [constructor; cbn|split_and!; cbn; [exists []; by rewrite app_nil_r|set_solver|naive_solver congruence]].
  - by rewrite Hs.
  - rewrite Hr. destruct (Nat.ltb_spec (length (take MEMPOOL_REPLAY_TXS (fh_read fh))) MEMPOOL_REPLAY_TXS) as [Hl|Hl];
      rewrite length_take in Hl.
    + rewrite (take_ge (fh_read fh)) by lia. rewrite take_ge; [done|]. rewrite length_app. cbn [length]. lia.
    + rewrite take_app_le by lia. done.
  - done.
  - split; [constructor; cbn; rewrite ?app_nil_r; done|].
    split_and!; cbn; [exists []; by rewrite app_nil_r|done|naive_solver congruence].
  - split; [constructor; cbn; rewrite ?app_nil_r; done|].
    split_and!; cbn; [exists []; by rewrite app_nil_r|done|naive_solver congruence].
Qed.
Lemma pump_send_ok fh f' :
  fan_ok fh → pump_send (fh_fanout fh) = Some f' →
  let fh' := {| fh_fanout := f'; fh_read := fh_read fh |} in fan_ok fh' ∧ fan_grows fh fh'.
Proof.
  intros [Hs Hr He] Hsend fh'. subst fh'. unfold pump_send in Hsend.
  destruct (fo_pump (fh_fanout fh)) as [|raw| |] eqn:Hp; try done; injection Hsend as <-; cbn in *.
  - split; [constructor; cbn|split_and!; cbn; [by eexists|done|intros; split; [done|congruence]]].
    + by rewrite sent_txs_app, app_nil_r.
    + done.
    + intros [Hh Hc]%He. split; [done|]. set_solver.
  - split; [constructor; cbn|split_and!; cbn; [by eexists|done|intros; split; [done|congruence]]].
    + by rewrite sent_txs_app, app_nil_r.
    + done.
    + intros [Hh Hc]%He. split; [done|]. by eexists.
Qed.
Lemma shutdown_ok fh :
  fan_ok fh → let fh' := {| fh_fanout := fanout_shutdown (fh_fanout fh); fh_read := fh_read fh |} in
  fan_ok fh' ∧ fan_grows fh fh'.
Proof.
  intros [Hs Hr He] fh'. subst fh'. split; [constructor; cbn; try done|split_and!; cbn; [by eexists|done|done]].
  by rewrite sent_txs_app, app_nil_r.
Qed.
Lemma released_ok fh :
  fan_ok fh → let fh' := {| fh_fanout := fanout_released (fh_fanout fh); fh_read := fh_read fh |} in
  fan_ok fh' ∧ fan_grows fh fh'.
Proof.
  intros [Hs Hr He] fh'. subst fh'.
  split; [by constructor|split_and!; cbn; [exists []; by rewrite app_nil_r|done|done]].
Qed.

(** A reader that attaches at the end of the channel and then copies the buffer. *)
Lemma joined_ok fh i pos :
  fan_ok fh → (pos ≤ length (fo_sent (fh_fanout fh)))%nat →
  let s := {| hm_fanout := i; hm_pos := pos; hm_replay := fo_replay (fh_fanout fh); hm_done := false |} in
  str_ok fh {| sh_stream := s; sh_start := pos; sh_snapshot := hm_replay s; sh_got := []; sh_lagged := false |}.
Proof.
  intros Hf Hpos. destruct (Hf) as [Hs Hr _].
  assert (∀ raw, raw ∈ fo_replay (fh_fanout fh) → raw ∈ fh_read fh) as Hsub.
  { rewrite Hr. intros raw Hin. rewrite <- (take_drop MEMPOOL_REPLAY_TXS). set_solver. }
  constructor; cbn; try done; [|set_solver].
  intros Hroom raw Hin. rewrite Hr, length_take in Hroom. rewrite Hr, take_ge by lia. apply sent_in_read; [done|].
  rewrite <- (take_drop pos (fo_sent _)), sent_txs_app. set_solver.
Qed.

(** Nothing is behind the end of a fan-out that was not torn down. *)
Lemma closed_is_last fh pos :
  fan_ok fh → fo_aborted (fh_fanout fh) = false → fo_sent (fh_fanout fh) !! pos = Some MI_Closed →
  fo_pump (fh_fanout fh) = Ended ∧ S pos = length (fo_sent (fh_fanout fh)).
Proof.
  intros [_ _ He] Ha Hpos. destruct (He Ha) as [_ Hend].
  destruct (fo_pump (fh_fanout fh)); try (by apply list_elem_of_lookup_2 in Hpos).
  destruct Hend as (items & Hs & Hnot). split; [done|]. rewrite Hs in *. rewrite length_app. cbn.
  apply lookup_app_Some in Hpos as [H|[Hle H]]; [by apply list_elem_of_lookup_2 in H|].
  apply list_lookup_singleton_Some in H as [? _]. lia.
Qed.
Lemma read_turn_ok fh sh : fan_ok fh → str_ok fh sh → str_ok fh (read_turn (fh_fanout fh) sh).
Proof.
  intros Hf [Hpos Hstart Hacc Hbef Hsnap Hrep Hgot Hdone]. unfold read_turn, message.
  destruct sh as [[fi pos replay done_] start snap got lag]. cbn in *.
  destruct replay as [|raw replay]; cbn.
  2: { constructor; cbn; try done.
    - intros [Hl _]%orb_false_iff. rewrite <- (Hacc Hl). by rewrite <- (assoc_L (++)).
    - intros r Hr. apply Hrep. by right.
    - intros r [?| ->%list_elem_of_singleton]%elem_of_app; [auto|]. apply Hrep. by left.
    - intros Hd Ha. by destruct (Hdone Hd Ha) as [? _]. }
  destruct done_; cbn; [constructor; cbn; try done; by intros [? _]%orb_false_iff; auto|].
  unfold recv. destruct (Nat.ltb_spec pos (length (fo_sent (fh_fanout fh)) - MEMPOOL_CHANNEL_CAP)) as [Hlag|Hlag]; cbn.
  { constructor; cbn; try done; [lia|]. by rewrite orb_true_r. }
  destruct (fo_sent (fh_fanout fh) !! pos) as [[raw|]|] eqn:Hitem; cbn.
  - pose proof (lookup_lt_Some _ _ _ Hitem) as Hlt. rewrite (drop_S _ _ _ Hitem) in Hacc.
    constructor; cbn; try done.
    + intros [Hl _]%orb_false_iff. rewrite <- (Hacc Hl). by rewrite <- (assoc_L (++)).
    + intros r [?| ->%list_elem_of_singleton]%elem_of_app; [auto|]. apply sent_in_read; [done|].
      unfold sent_txs. apply list_elem_of_omap. exists (MI_Tx raw). split; [by eapply list_elem_of_lookup_2|done].
  - pose proof (lookup_lt_Some _ _ _ Hitem) as Hlt. rewrite (drop_S _ _ _ Hitem) in Hacc.
    constructor; cbn; try done.
    + intros [Hl _]%orb_false_iff. rewrite <- (Hacc Hl). done.
    + intros _ Ha. split; [done|]. by apply closed_is_last.
  - destruct (fanout_disconnected _) eqn:Hdis; cbn.
    + constructor; cbn; try done; [by intros [? _]%orb_false_iff; auto|]. intros _ Ha.
      apply andb_true_iff in Hdis as [Hh%negb_true_iff _]. destruct (fk_end _ Hf Ha) as [? _]. congruence.
    + constructor; cbn; try done. by intros [? _]%orb_false_iff; auto.
Qed.

Record mem_inv w : Prop := {
  mi_fans : ∀ i fh, w_fanouts w !! i = Some fh → fan_ok fh;
  mi_streams : ∀ j sh, w_streams w !! j = Some sh →
    ∃ fh, w_fanouts w !! hm_fanout (sh_stream sh) = Some fh ∧ str_ok fh sh;
  mi_attached : ∀ i pos, w_joining w = Some (Attached i pos) →
    ∃ fh, w_fanouts w !! i = Some fh ∧ (pos ≤ length (fo_sent (fh_fanout fh)))%nat;
}.
Definition fans_grow (l l' : list FanoutHistory) : Prop :=
  ∀ i fh, l !! i = Some fh → ∃ fh', l' !! i = Some fh' ∧ fan_grows fh fh'.

Lemma mem_grow w w' :
  mem_inv w → fans_grow (w_fanouts w) (w_fanouts w') → (∀ i fh, w_fanouts w' !! i = Some fh → fan_ok fh) →
  w_streams w' = w_streams w →
  (∀ i pos, w_joining w' = Some (Attached i pos) → w_joining w = Some (Attached i pos)) →
  mem_inv w'.
Proof.
  intros [Hf Hs Ha] Hg Hf' Hst Hj. constructor; [done| |].
  - intros j sh. rewrite Hst. intros (fh & Hfh & Hok)%Hs. destruct (Hg _ _ Hfh) as (fh' & ? & ?).
    exists fh'. split; [done|]. by eapply str_grows.
  - intros i pos (fh & Hfh & Hok)%Hj%Ha. destruct (Hg _ _ Hfh) as (fh' & ? & [more Hm] & _).
    exists fh'. split; [done|]. rewrite Hm, length_app. lia.
Qed.
(** What leaves the fan-outs, the readers and an attached reader alone. *)
Lemma mem_same w w' :
  mem_inv w → w_fanouts w' = w_fanouts w → w_streams w' = w_streams w →
  (∀ i pos, w_joining w' = Some (Attached i pos) → w_joining w = Some (Attached i pos)) → mem_inv w'.
Proof.
  intros Hm Hf. apply mem_grow; [done| |rewrite Hf; apply Hm]. rewrite Hf. intros i fh Hi. exists fh. by split.
Qed.
(** One fan-out changes. *)
Lemma alter_grow l i fh fh' (f : FanoutHistory → FanoutHistory) :
  l !! i = Some fh → f fh = fh' → fan_grows fh fh' → fan_ok fh' → (∀ j fh, l !! j = Some fh → fan_ok fh) →
  fans_grow l (alter f i l) ∧ ∀ j fh, alter f i l !! j = Some fh → fan_ok fh.
Proof.
  intros Hi Hf Hg Hok Hall. split.
  - intros j fhj Hj. destruct (decide (i = j)) as [->|Hne].
    + exists fh'. rewrite list_lookup_alter_eq, Hj. simplify_eq. by split.
    + exists fhj. rewrite list_lookup_alter_ne by done. by split.
  - intros j fhj. destruct (decide (i = j)) as [->|Hne].
    + rewrite list_lookup_alter_eq, Hi. cbn. rewrite Hf. by intros [= <-].
    + rewrite list_lookup_alter_ne by done. apply Hall.
Qed.
Lemma shut_fanout_mem w tx shut :
  (∀ fh, fan_ok fh → let fh' := {| fh_fanout := shut (fh_fanout fh); fh_read := fh_read fh |} in
         fan_ok fh' ∧ fan_grows fh fh') →
  mem_inv w → mem_inv (shut_fanout w tx shut).
Proof.
  intros Hshut Hm. unfold shut_fanout, fanout_at. destruct tx as [i|]; [|done].
  destruct (w_fanouts w !! i) as [fh|] eqn:Hi; [|done]. cbn.
  destruct (Hshut fh (mi_fans _ Hm _ _ Hi)) as [Hok Hg].
  destruct (alter_grow _ _ _ _ (λ h, {| fh_fanout := shut (fh_fanout fh); fh_read := fh_read h |}) Hi eq_refl Hg Hok
    (mi_fans _ Hm)). by eapply mem_grow.
Qed.
Lemma shutdown_mem w g : mem_inv w → mem_inv (shutdown w g).
Proof. intros Hm. eapply mem_same; [by eapply (shut_fanout_mem _ _ _ shutdown_ok), Hm|done..]. Qed.
Lemma subscribe_mem w g : mem_inv w → mem_inv (subscribe w g).
Proof.
  intros Hinv. unfold subscribe. set (w1 := if _ : bool then shutdown w g else w).
  assert (mem_inv w1) as Hinv1 by (subst w1; case_match; [by apply shutdown_mem|done]). clearbody w1.
  destruct (mh_tx _) as [i|]; [destruct (fanout_at w1 i) as [f|]; [case_match|]|]; by eapply mem_same.
Qed.
(** A new reader. *)
Lemma add_stream_mem w s fh :
  mem_inv w → w_fanouts w !! hm_fanout s = Some fh →
  str_ok fh {| sh_stream := s; sh_start := hm_pos s; sh_snapshot := hm_replay s; sh_got := []; sh_lagged := false |} →
  mem_inv (add_stream w s).
Proof.
  intros [Hf Hs Ha] Hi Hok. constructor; [done| |done]. cbn.
  intros j sh [?|[_ [_ <-]%list_lookup_singleton_Some]]%lookup_app_Some; [eauto|]. by exists fh.
Qed.
Lemma start_mem w : mem_inv w → mem_inv (start w).
Proof.
  intros Hm. unfold start. apply (shut_fanout_mem _ (mh_tx (h_mempool (w_hub w))) _ released_ok) in Hm.
  set (w1 := shut_fanout _ _ _) in *. clearbody w1. set (new := {| fh_fanout := fanout_new; fh_read := [] |}).
  eapply (add_stream_mem _ _ new).
  - assert (∀ i fh, (w_fanouts w1 ++ [new]) !! i = Some fh → w_fanouts w1 !! i = Some fh ∨ fh = new) as Hnew
      by (intros i fh [?|[_ [_ <-]%list_lookup_singleton_Some]]%lookup_app_Some; auto).
    eapply mem_grow; [exact Hm|..]; cbn; [| |done|done].
    + intros i fh Hi. exists fh. split; [by apply lookup_app_l_Some|done].
    + intros i fh [?| ->]%Hnew; [by eapply mi_fans|apply fan_new_ok].
  - cbn. by rewrite lookup_app_r, Nat.sub_diag.
  - constructor; cbn; try done; set_solver.
Qed.

Lemma step_mem w e w' : mem_inv w → step w e = Some w' → mem_inv w'.
Proof.
  intros Hm. destruct e; unfold step, if_handle; intros H.
  - destruct (acquire _ _) as [[]]; injection H as <-; by repeat case_match; eapply mem_same.
  - destruct (latest_block _ _ _ _ _) as [[]]; case_match; try done; injection H as <-; [case_match|]; by eapply mem_same.
  - destruct (subtree_roots _ _ _ _) as [[]]; case_match; try done; injection H as <-; [case_match|]; by eapply mem_same.
  - destruct (server_info _ _ _) as [[]]; case_match; try done; injection H as <-; [case_match|]; by eapply mem_same.
  - case_match; [|done]. injection H as <-. case_match; by eapply mem_same.
  - destruct (w_refreshing w !! index) as [[]|]; [|done]. injection H as <-. by eapply mem_same.
  - destruct (fetch_tx_cached _ _) as [[]]; case_match; try done; injection H as <-; by eapply mem_same.
  - destruct (take_out _ _); [|done]. injection H as <-. case_match; by eapply mem_same.
  - destruct (w_storing w !! index) as [[[]]|]; [|done]. injection H as <-. by eapply mem_same.
  - case_match; [|done]. injection H as <-. case_match; by eapply mem_same.
  - destruct (take_out _ _); [|done]. destruct (invalidate_conn _ _) as [[]]; injection H as <-; by eapply mem_same.
  - destruct (take_out _ _); [|done]. case_match; [done|]. cbn in H. revert H. set (w1 := if _ : bool then shutdown _ _ else _).
    intros [= <-]. apply (mem_same w1); [|done..]. subst w1. assert (mem_inv (to_dropping w l)) by by apply (mem_same w).
    case_match; [by apply shutdown_mem|done].
  - repeat (case_match; try done). injection H as <-. by apply subscribe_mem.
  - case_match; [|done]. case_match; [|done..]. unfold fanout_at in H. destruct (w_fanouts w !! fanout) as [fh|] eqn:Hi; [|done].
    injection H as <-. destruct Hm as [Hf Hs Ha]. constructor; [done..|]. cbn. intros i pos [= <- <-]. by exists fh.
  - case_match eqn:Hj; [|done]. case_match; [done| |done]. unfold fanout_at in H.
    destruct (mi_attached _ Hm _ _ Hj) as (fh & Hi & Hpos). rewrite Hi in H. injection H as <-.
    eapply (mem_same (add_stream w _)); [|done..]. eapply add_stream_mem; [done|exact Hi|]. apply joined_ok; [by eapply mi_fans|done].
  - repeat (case_match; try done); injection H as <-; [apply start_mem|]; by apply (mem_same w); cbn; try congruence.
  - destruct (w_fanouts w !! fanout) as [fh|] eqn:Hi; [|done]. cbn in H. case_match eqn:Hg; [|done]. injection H as <-.
    apply andb_true_iff in Hg as [Hp%bool_decide_eq_true Ha%negb_true_iff].
    destruct (pump_read_ok fh message (mi_fans _ Hm _ _ Hi) Hp Ha) as [Hok Hgr].
    set (fh' := {| fh_fanout := pump_read _ _; fh_read := _ |}) in *.
    destruct (alter_grow _ _ _ _ (λ _, fh') Hi eq_refl Hgr Hok (mi_fans _ Hm)). by eapply mem_grow.
  - unfold fanout_at in H. destruct (w_fanouts w !! fanout) as [fh|] eqn:Hi; [|done]. cbn in H.
    destruct (pump_send (fh_fanout fh)) as [f'|] eqn:Hsend; [|done]. injection H as <-.
    destruct (pump_send_ok fh f' (mi_fans _ Hm _ _ Hi) Hsend) as [Hok Hgr].
    destruct (alter_grow _ _ _ _ (λ h, {| fh_fanout := f'; fh_read := fh_read h |}) Hi eq_refl Hgr Hok (mi_fans _ Hm)).
    by eapply mem_grow.
  - destruct (w_streams w !! stream) as [sh|] eqn:Hj; [|done]. cbn in H. unfold fanout_at in H.
    destruct (mi_streams _ Hm _ _ Hj) as (fh & Hi & Hok). rewrite Hi in H. injection H as <-.
    destruct Hm as [Hf Hs Ha]. constructor; [done| |done]. cbn. intros j sh'.
    destruct (decide (stream = j)) as [->|Hne]; [|rewrite list_lookup_alter_ne by done; apply Hs].
    rewrite list_lookup_alter_eq, Hj. cbn. intros [= <-]. exists fh.
    pose proof (read_turn_ok fh sh (Hf _ _ Hi) Hok). split; [|done].
    assert (hm_fanout (sh_stream (read_turn (fh_fanout fh) sh)) = hm_fanout (sh_stream sh)) as ->; [|done].
    unfold read_turn, message. destruct (hm_replay _); [|done]. destruct (hm_done _); [done|]. by destruct (recv _ _) as [[]| | |].
Qed.
Lemma reachable_mem w : reachable w → mem_inv w.
Proof. induction 1; [by constructor|by eapply step_mem]. Qed.

(** C34. Whatever the interleaving of the pump, the subscribers and the teardowns, a reader of the
    shared mempool never gets a transaction its pump did not read; and one that never fell behind
    the channel and joined before [MEMPOOL_REPLAY_TXS] transactions were buffered has got, or still has ahead of it, every
    transaction the pump read - those from before it joined included - and has got them all when it
    is told the end, unless the fan-out was torn down. *)
Theorem mempool_view_complete w j sh fh
    (Hreach : reachable w) (Hstream : w_streams w !! j = Some sh)
    (Hfanout : w_fanouts w !! hm_fanout (sh_stream sh) = Some fh) :
  let s := sh_stream sh in let f := fh_fanout fh in
  (∀ raw, raw ∈ sh_got sh → raw ∈ fh_read fh) ∧
  (sh_lagged sh = false → (length (sh_snapshot sh) < MEMPOOL_REPLAY_TXS)%nat →
     ∀ raw, raw ∈ fh_read fh →
       raw ∈ sh_got sh ∨
       (raw ∈ hm_replay s ∨ raw ∈ sent_txs (drop (hm_pos s) (fo_sent f)) ∨ fo_pump f = Buffered raw) ∧
       ¬ (hm_done s = true ∧ fo_aborted f = false)).
Proof.
  intros s f. pose proof (reachable_mem w Hreach) as Hm. destruct (mi_streams _ Hm _ _ Hstream) as (fh' & Hfh & Hok).
  rewrite Hfanout in Hfh. injection Hfh as <-. pose proof (mi_fans _ Hm _ _ Hfanout) as Hf.
  split; [apply Hok|]. intros Hlag Hroom raw Hraw. pose proof (sk_account _ _ Hok Hlag) as Hacc. fold s f in Hacc.
  assert (raw ∈ sent_txs (fo_sent f) ∨ fo_pump f = Buffered raw) as Hwhere.
  { rewrite <- (fk_sent _ Hf) in Hraw. apply elem_of_app in Hraw as [?|Hin]; [by left|right].
    subst f. destruct (fo_pump (fh_fanout fh)); try by apply not_elem_of_nil in Hin. cbn in Hin.
    by apply list_elem_of_singleton in Hin as ->. }
  assert (raw ∈ sh_got sh ∨ raw ∈ hm_replay s ∨ raw ∈ sent_txs (drop (hm_pos s) (fo_sent f)) ∨ fo_pump f = Buffered raw)
    as [?|Hahead].
  { destruct Hwhere as [Hsent|?]; [|by auto].
    assert (raw ∈ sh_got sh ++ hm_replay s ++ sent_txs (drop (hm_pos s) (fo_sent f))) as Hin; [|set_solver].
    rewrite Hacc. rewrite <- (take_drop (sh_start sh) (fo_sent f)), sent_txs_app in Hsent.
    apply elem_of_app in Hsent as [Hb%(sk_before _ _ Hok Hroom)|?]; set_solver. }
  - by left.
  - destruct (decide (hm_done s = true ∧ fo_aborted f = false)) as [[Hd Ha]|]; [|by right].
    destruct (sk_done _ _ Hok Hd Ha) as (Hrep & Hp & Hpos). exfalso. subst s f.
    rewrite Hrep, Hpos, drop_all, Hp in Hahead. destruct Hahead as [?%not_elem_of_nil|[?%not_elem_of_nil|]]; done.
Qed.
End mempool.

(** The transaction cache is the bounded recency list it stands for: a look-up finds what the
    list holds and makes it the most recent, an insertion puts its entry last and drops exactly the
    least recently used ones beyond the bound. *)
Theorem lru_refines_recency_list {V : Type} (m : LruMap V) (key : string) (value : V) (Hwf : lru_wf m) :
  (lru_wf (lru_get m key).2 ∧ (lru_get m key).1 = (spec_get (lru_entries m) key).1 ∧
   lru_entries (lru_get m key).2 = (spec_get (lru_entries m) key).2) ∧
  (lru_wf (lru_insert m key value) ∧
   lru_entries (lru_insert m key value) = spec_insert (lru_cap m) (lru_entries m) key value).
Proof.
  destruct (lru_get_refines m key Hwf) as (? & ? & ? & _), (lru_insert_refines m key value Hwf) as (? & _ & ? & _).
  done.
Qed.
Lemma lru_refines_recency_list_witness :
  let m := lru_insert (lru_insert (lru_new 2) "a" 1) "b" 2 in
  lru_entries (lru_get m "a").2 = [("b", 2); ("a", 1)] ∧
  lru_entries (lru_insert m "c" 3) = spec_insert 2 (lru_entries m) "c" 3.
Proof.
  intros m. split; [reflexivity|].
  exact (proj2 (proj2 (lru_refines_recency_list m "c" 3
    (proj1 (lru_insert_refines _ _ _ (proj1 (lru_insert_refines _ _ _ (lru_clear_wf (lru_new 2))))))))).
Defined.

(** ** Runs *)

(** Two consumers of one connection, one fan-out. *)
Definition sample_run : list (event nat) :=
  [EAcquire (Ok 7%nat); EAcquire (Err "not dialed"); ELatestBlock 1 0 (Ok {| ct_height := 100; ct_hash := "a" |}) 5;
   ELatestBlock 1 600 (Err "not asked") 600; ESubscribe 1; EOpen (Ok tt); EPumpRead 0 (Ok (Some "x")); ESubscribe 1;
   EAttach; EPumpSend 0; ESnapshot; EMessage 0; EMessage 1; EMessage 1; EFetch 1 "t";
   EFetched 1 "t" (Ok (Some {| ft_data := "d"; ft_mined_height := Some 100 |})); EStore 0; EFetch 1 "t"].

Definition sample_world : World nat := default world0 (run world0 sample_run).
Lemma sample_reached : run world0 sample_run = Some sample_world.
Proof. vm_compute. reflexivity. Qed.
Lemma sample_reachable : reachable sample_world.
Proof. exact (run_reachable _ _ _ reach_start sample_reached). Qed.

(** The transaction that arrives while the second reader attaches is in its buffer and on its
    channel: it gets it twice, and never misses it. *)
Lemma mempool_view_complete_witness :
  ∃ sh fh, w_streams sample_world !! 1%nat = Some sh ∧ w_fanouts sample_world !! 0%nat = Some fh ∧
    sh_got sh = ["x"; "x"] ∧ ∀ raw, raw ∈ sh_got sh → raw ∈ fh_read fh.
Proof.
  eexists _, _. split; [vm_compute; reflexivity|]. split; [vm_compute; reflexivity|]. split; [reflexivity|].
  refine (proj1 (mempool_view_complete sample_world 1%nat _ _ sample_reachable _ _)); vm_compute; reflexivity.
Defined.

(** A fetch that was answered before a new tip was noted, and is stored after, stays: its height is
    served in the new chain. *)
Lemma stale_transaction_served :
  let old := {| ft_data := "d"; ft_mined_height := Some 100 |} in
  ∃ w, run world0
    ([EAcquire (Ok 7%nat); ELatestBlock 1 0 (Ok {| ct_height := 100; ct_hash := "a" |}) 0; EFetch 1 "t";
      EFetched 1 "t" (Ok (Some old)); ELatestBlock 1 1000 (Ok {| ct_height := 101; ct_hash := "c" |}) 1000;
      EStore 0; EFetch 1 "t"] : list (event nat)) = Some w ∧
    w_replies w = [GotTx 1 "t" (Some old); GotTx 1 "t" (Some old);
                   GotTip 1 1000 {| ct_height := 101; ct_hash := "c" |}; GotTip 1 0 {| ct_height := 100; ct_hash := "a" |}].
Proof. eexists. split; vm_compute; reflexivity. Qed.
(** A reader that found the flag clear can attach after the end was sent: it waits, with nothing
    left to come, until somebody else subscribes. *)
Lemma close_can_be_missed :
  ∃ w sh fh, run world0
    ([EAcquire (Ok 7%nat); ESubscribe 1; EOpen (Ok tt); ESubscribe 1; EPumpRead 0 (Ok None); EPumpSend 0; EAttach;
      ESnapshot] : list (event nat)) = Some w ∧
    w_streams w !! 1%nat = Some sh ∧ w_fanouts w !! 0%nat = Some fh ∧ fo_pump (fh_fanout fh) = Ended ∧
    message (fh_fanout fh) (sh_stream sh) = (None, sh_stream sh).
Proof. eexists _, _, _. split_and!; [vm_compute; reflexivity|reflexivity..]. Qed.
