(* ===== verification/Zebra.v ===== *)
(** * Zebra: the upstream as a zebrad node's JSON-RPC ([src/src/chain/zebra.rs])

    One call and its error envelope, the replies decoded, the compact blocks and transparent data
    built from full blocks, the address-index query split until it fits, and the mempool poller.

    The node is a state that answers: [rpc] is one HTTP exchange. JSON text, hexadecimal and the
    block format are the libraries'; a block is the parts of it the code reads. *)

From S2P Require Export Hub Json.

(** ** Replies decoded: the derived [Deserialize]s *)

(** A struct: an object, or an array of its fields in order. *)
Definition struct_fields (names : list string) (v : json) : option (list (string * json)) :=
  match v with
  | JObject fields => Some fields
  | JArray l => if (length l <=? length names)%nat then Some (zip names l) else None
  | _ => None
  end.
Definition de_string (v : json) : option string := json_as_str v.
Definition de_u32 (v : json) : option Z :=
  match v with JNumber lit => parse_unsigned u32_max lit | _ => None end.
Definition de_i64 (v : json) : option Z :=
  match v with JNumber lit => parse_signed i64_min i64_max lit | _ => None end.
Definition de_list {A} (dec : json → option A) (v : json) : option (list A) :=
  match v with JArray l => mapM dec l | _ => None end.
(** A required field; one with a default; an optional one, with a default. *)
Definition field {A} (name : string) (dec : json → option A) (fields : list (string * json)) : option A :=
  assoc name fields ≫= dec.
Definition field_or {A} (name : string) (d : A) (dec : json → option A) (fields : list (string * json)) : option A :=
  match assoc name fields with None => Some d | Some v => dec v end.
Definition field_opt {A} (name : string) (dec : json → option A) (fields : list (string * json)) : option (option A) :=
  match assoc name fields with None | Some JNull => Some None | Some v => Some <$> dec v end.

Record UpgradeEntry := { ue_name : option string; ue_activation_height : option Z; ue_status : option string }.
Definition de_upgrade (v : json) : option UpgradeEntry :=
  f ← struct_fields ["name"; "activationheight"; "status"] v;
  n ← field_opt "name" de_string f; h ← field_opt "activationheight" de_u32 f; s ← field_opt "status" de_string f;
  Some {| ue_name := n; ue_activation_height := h; ue_status := s |}.
Record ConsensusBranchIds := { cb_chaintip : option string; cb_nextblock : option string }.
Definition de_consensus (v : json) : option ConsensusBranchIds :=
  f ← struct_fields ["chaintip"; "nextblock"] v;
  c ← field_opt "chaintip" de_string f; n ← field_opt "nextblock" de_string f;
  Some {| cb_chaintip := c; cb_nextblock := n |}.
Record BlockchainInfo := {
  bi_chain : string; bi_blocks : Z; bi_bestblockhash : string; bi_upgrades : list (string * UpgradeEntry);
  bi_consensus : option ConsensusBranchIds;
}.
Definition de_upgrades (v : json) : option (list (string * UpgradeEntry)) :=
  match v with
  | JObject fields => mapM (λ kv, e ← de_upgrade kv.2; Some (kv.1, e)) fields
  | _ => None
  end.
Definition de_blockchain_info (v : json) : option BlockchainInfo :=
  f ← struct_fields ["chain"; "blocks"; "bestblockhash"; "upgrades"; "consensus"] v;
  c ← field "chain" de_string f; b ← field "blocks" de_u32 f; h ← field "bestblockhash" de_string f;
  u ← field_or "upgrades" [] de_upgrades f; s ← field_opt "consensus" de_consensus f;
  Some {| bi_chain := c; bi_blocks := b; bi_bestblockhash := h; bi_upgrades := u; bi_consensus := s |}.

(** The tree sizes a verbose block reports for sapling, orchard and ironwood. *)
Definition TreeSizes : Type := Z * Z * Z.
Definition de_tree_size (v : json) : option (option Z) :=
  f ← struct_fields ["size"] v; field_opt "size" de_u32 f.
Definition de_trees (v : json) : option TreeSizes :=
  f ← struct_fields ["sapling"; "orchard"; "ironwood"] v;
  s ← field_opt "sapling" de_tree_size f; o ← field_opt "orchard" de_tree_size f; i ← field_opt "ironwood" de_tree_size f;
  let size t := default 0 (default None t) in
  Some (size s, size o, size i).
Definition de_verbose_block (v : json) : option TreeSizes :=
  f ← struct_fields ["trees"] v; t ← field_opt "trees" de_trees f; Some (default (0, 0, 0) t).

(** [PoolTreeState::final_state]. *)
Definition de_final_state (v : json) : option string :=
  f ← struct_fields ["commitments"] v;
  c ← field_opt "commitments"
        (λ v, f ← struct_fields ["finalState"] v; field_opt "finalState" de_string f) f;
  Some (default "" (default None c)).
Record TreeStateReply := {
  tr_hash : string; tr_height : Z; tr_time : Z; tr_sapling : string; tr_orchard : string; tr_ironwood : string;
}.
Definition de_tree_state (v : json) : option TreeStateReply :=
  f ← struct_fields ["hash"; "height"; "time"; "sapling"; "orchard"; "ironwood"] v;
  h ← field "hash" de_string f; n ← field "height" de_u32 f; t ← field "time" de_u32 f;
  s ← field_opt "sapling" de_final_state f; o ← field_opt "orchard" de_final_state f;
  i ← field_opt "ironwood" de_final_state f;
  Some {| tr_hash := h; tr_height := n; tr_time := t; tr_sapling := default "" s; tr_orchard := default "" o;
          tr_ironwood := default "" i |}.
Definition de_subtree (v : json) : option (string * Z) :=
  f ← struct_fields ["root"; "end_height"] v; r ← field "root" de_string f; h ← field "end_height" de_u32 f; Some (r, h).
Definition de_subtrees (v : json) : option (list (string * Z)) :=
  f ← struct_fields ["subtrees"] v; field_or "subtrees" [] (de_list de_subtree) f.
Record VerboseTx := { vt_hex : string; vt_height : option Z }.
Definition de_verbose_tx (v : json) : option VerboseTx :=
  f ← struct_fields ["hex"; "height"] v; x ← field "hex" de_string f; h ← field_opt "height" de_i64 f;
  Some {| vt_hex := x; vt_height := h |}.

(** ** One call *)

Definition MAX_RESPONSE_BYTES : Z := 64 * 1024 * 1024.
Definition MAX_REQUEST_ADDRESSES : Z := 10000.
Definition RPC_ERROR_UNSPECIFIED_CODE : Z := -1.
Definition REQUEST_TIMEOUT_TEXT : string := "30s".

(** What an exchange comes to: nothing in time, a failure, or a status with a body. *)
Inductive Exchange := TimedOut | Failed (error : string) | Answered (status : Z) (body : string).
Inductive CallError := Transport (text : string) | RpcRefused (code : Z) (message : string).

Definition into_anyhow (e : CallError) (method : string) : string :=
  match e with
  | Transport _ => "zebra rpc " +:+ method
  | RpcRefused code message => "zebra rpc " +:+ method +:+ " failed (" +:+ dec_signed code +:+ "): " +:+ message
  end.
Definition is_address_query_too_large (code : Z) (message : string) : bool :=
  (code =? -8) && contains "narrow the height range" message.

(** The code and the message of an error envelope. *)
Definition envelope_error (err : json) : CallError :=
  RpcRefused
    (match json_get "code" err ≫= json_as_i64 with
     | Some 0 | None => RPC_ERROR_UNSPECIFIED_CODE
     | Some code => code
     end)
    (default "unknown error" (json_get "message" err ≫= json_as_str)).

Section client.
(** The node, an exchange with it, and the JSON parser; the text of an HTTP status. *)
Context {node : Type} (rpc : node → string → json → node * Exchange).
Context (parse_json : string → result string json) (status_text : Z → string).
Context `{HX : HexCodec}.

Definition call_result (ex : Exchange) : result CallError json :=
  match ex with
  | TimedOut => Err (Transport ("zebra rpc timed out after " +:+ REQUEST_TIMEOUT_TEXT))
  | Failed e => Err (Transport e)
  | Answered status body =>
      if MAX_RESPONSE_BYTES <? Z.of_nat (String.length body) then
        Err (Transport "reading zebra rpc response: length limit exceeded")
      else
        match parse_json body with
        | Err e => Err (Transport ("zebra rpc returned non-JSON response (HTTP " +:+ status_text status +:+ "): " +:+ e))
        | Ok envelope =>
            match List.find (λ e, negb (json_is_null e)) (option_list (json_get "error" envelope)) with
            | Some err => Err (envelope_error err)
            | None =>
                if (200 <=? status) && (status <? 300) then Ok (default JNull (json_get "result" envelope))
                else Err (Transport ("zebra rpc returned HTTP " +:+ status_text status))
            end
        end
  end.
Definition call (n : node) (method : string) (params : list json) : node * result CallError json :=
  let '(n, ex) := rpc n method (JArray params) in (n, call_result ex).
Definition call_as {A} (decode : json → option A) (n : node) (method : string) (params : list json) :
    node * result string A :=
  let '(n, r) := call n method params in
  (n, v ← map_err (λ e, into_anyhow e method) r; ok_or (decode v) ("decoding zebra rpc " +:+ method +:+ " response")).

(** ** Queries *)

(** [parse_display_txid]. *)
Definition parse_display_txid (s : string) : result string string :=
  bytes ← ok_or (hex_decode (trim s)) "decoding txid hex";
  if negb (String.length bytes =? 32)%nat then Err ("txid is not 32 bytes: " +:+ quoted s) else Ok (string_rev bytes).

Definition blockchain_info (n : node) : node * result string BlockchainInfo :=
  call_as de_blockchain_info n "getblockchaininfo" [].
Definition best_block_hash (n : node) : node * result string string := call_as de_string n "getbestblockhash" [].
Definition block_raw (n : node) (hash_or_height : string) : node * result string string :=
  let '(n, r) := call_as de_string n "getblock" [JString hash_or_height; JNumber "0"] in
  (n, h ← r; ok_or (hex_decode (trim h)) "decoding raw block hex").
Definition block_trees (n : node) (hash : string) : node * result string TreeSizes :=
  call_as de_verbose_block n "getblock" [JString hash; JNumber "1"].

(** [address_tx_ids]: the pending ranges, the next on top; [None] when the fuel ends first. *)
Definition address_params (addresses : list string) (lo hi : Z) : list json :=
  [JObject [("addresses", JArray (JString <$> addresses)); ("start", JNumber (dec lo)); ("end", JNumber (dec hi))]].
Fixpoint address_loop (fuel : nat) (addresses : list string) (n : node) (out : list string) (pending : list (Z * Z)) :
    node * option (result string (list string)) :=
  match pending with
  | [] => (n, Some (Ok out))
  | (lo, hi) :: pending =>
      match fuel with
      | O => (n, None)
      | S fuel =>
          match call n "getaddresstxids" (address_params addresses lo hi) with
          | (n, Ok reply) =>
              match de_list de_string reply with
              | Some hexes => address_loop fuel addresses n (out ++ hexes) pending
              | None => (n, Some (Err "decoding zebra rpc getaddresstxids response"))
              end
          | (n, Err e) =>
              match e with
              | RpcRefused code message =>
                  if (lo <? hi) && is_address_query_too_large code message then
                    let mid := lo + (hi - lo) / 2 in
                    address_loop fuel addresses n out ((lo, mid) :: (mid + 1, hi) :: pending)
                  else (n, Some (Err (into_anyhow e "getaddresstxids")))
              | Transport _ => (n, Some (Err (into_anyhow e "getaddresstxids")))
              end
          end
      end
  end.
Definition address_fuel (lo hi : Z) : nat := S (Z.to_nat (2 * (hi - lo))).
Definition address_tx_ids (addresses : list string) (n : node) (lo hi : Z) :
    node * option (result string (list string)) :=
  address_loop (address_fuel lo hi) addresses n [] [(lo, hi)].

(** [slice::chunks]. *)
Fixpoint chunks_aux {A} (fuel : nat) (size : nat) (l : list A) : list (list A) :=
  match fuel, l with
  | _, [] | O, _ => []
  | S fuel, _ => take size l :: chunks_aux fuel size (drop size l)
  end.
Definition chunks {A} (size : nat) (l : list A) : list (list A) := chunks_aux (length l) size l.

(** [transparent_tx_evidence]: the txids, batch after batch. *)
Fixpoint evidence_batches (n : node) (batches : list (list string)) (lo hi : Z) (out : list string) :
    node * option (result string (list string)) :=
  match batches with
  | [] => (n, Some (Ok out))
  | batch :: batches =>
      match address_tx_ids batch n lo hi with
      | (n, Some (Ok hexes)) =>
          match mapM parse_display_txid hexes with
          | Ok txids => evidence_batches n batches lo hi (out ++ txids)
          | Err e => (n, Some (Err e))
          end
      | (n, Some (Err e)) => (n, Some (Err e))
      | (n, None) => (n, None)
      end
  end.
Definition transparent_tx_evidence (n : node) (addresses : list string) (lo hi : Z) :
    node * option (result string (list string)) :=
  evidence_batches n (chunks (Z.to_nat MAX_REQUEST_ADDRESSES) addresses) lo hi [].

(** ** What the node says of itself and of its chain *)

Definition hex_digit_value (c : ascii) : option Z :=
  let b := byte_of c in
  if (48 <=? b) && (b <=? 57) then Some (b - 48)
  else if (97 <=? b) && (b <=? 102) then Some (b - 87)
  else if (65 <=? b) && (b <=? 70) then Some (b - 55) else None.
Fixpoint hex_val (acc : Z) (s : string) : option Z :=
  match s with "" => Some acc | String c s => d ← hex_digit_value c; hex_val (acc * 16 + d) s end.
(** [u32::from_str_radix(s.trim(), 16)]. *)
Definition parse_branch_id (hex_str : string) : option Z :=
  let s := trim hex_str in
  let digits := match s with String "+" rest => rest | _ => s end in
  if bool_decide (digits = "") then None
  else v ← hex_val 0 digits; if v <=? u32_max then Some v else None.

(** The order of the upgrades: by height, those without one last, then by branch. *)
Definition upgrade_key (u : UpgradeInfo) : Z * Z := (default u32_max (ui_activation_height u), ui_branch_id u).
Definition upgrade_before (a b : UpgradeInfo) : bool :=
  (fst (upgrade_key a) <? fst (upgrade_key b))
  || ((fst (upgrade_key a) =? fst (upgrade_key b)) && (snd (upgrade_key a) <=? snd (upgrade_key b))).
Fixpoint insert_upgrade (u : UpgradeInfo) (l : list UpgradeInfo) : list UpgradeInfo :=
  match l with [] => [u] | v :: l => if upgrade_before u v then u :: v :: l else v :: insert_upgrade u l end.
Definition sort_upgrades (l : list UpgradeInfo) : list UpgradeInfo := foldr insert_upgrade [] l.
Definition upgrade_of (kv : string * UpgradeEntry) : option UpgradeInfo :=
  b ← parse_branch_id kv.1;
  Some {| ui_branch_id := b; ui_name := default "unknown upgrade" (ue_name kv.2);
          ui_activation_height := ue_activation_height kv.2;
          ui_status := match ue_status kv.2 with
                       | Some "active" => US_Active | Some "pending" => US_Pending | _ => US_Other end |}.
Definition server_info_from (info : BlockchainInfo) : ServerInfo :=
  {| chain_name := bi_chain info; tip_height := Some (bi_blocks info);
     upgrades := sort_upgrades (omap upgrade_of (bi_upgrades info));
     tip_branch_id := c ← bi_consensus info; t ← cb_chaintip c; parse_branch_id t;
     next_block_branch_id := c ← bi_consensus info; t ← cb_nextblock c; parse_branch_id t |}.

Definition latest_block (n : node) : node * result string ChainTip :=
  let '(n, r) := blockchain_info n in
  (n, info ← r; hash ← ok_or (hex_decode (bi_bestblockhash info)) "decoding bestblockhash";
      Ok {| ct_height := bi_blocks info; ct_hash := string_rev hash |}).
Definition server_info (n : node) : node * result string ServerInfo :=
  let '(n, r) := blockchain_info n in (n, server_info_from <$> r).

Record TreeState := {
  ts_network : string; ts_height : Z; ts_hash : string; ts_time : Z; ts_sapling : string; ts_orchard : string;
  ts_ironwood : string;
}.
Definition tree_state (chain : string) (n : node) (height : Z) : node * result string TreeState :=
  let '(n, r) := call_as de_tree_state n "z_gettreestate" [JString (dec height)] in
  (n, reply ← r;
      if negb (tr_height reply =? height) then
        Err ("zebra served tree state for height " +:+ dec (tr_height reply) +:+ " but height " +:+ dec height
             +:+ " was requested")
      else Ok {| ts_network := chain; ts_height := tr_height reply; ts_hash := tr_hash reply; ts_time := tr_time reply;
                 ts_sapling := tr_sapling reply; ts_orchard := tr_orchard reply; ts_ironwood := tr_ironwood reply |}).

Definition pool_name (p : ShieldedPool) : string :=
  match p with Sapling => "sapling" | Orchard => "orchard" | Ironwood => "ironwood" end.
Definition subtree_roots (n : node) (p : ShieldedPool) : node * result string (list SubtreeRootInfo) :=
  let '(n, r) := call_as de_subtrees n "z_getsubtreesbyindex" [JString (pool_name p); JNumber "0"] in
  (n, l ← r;
      mapM (λ rh, root ← ok_or (hex_decode rh.1) "decoding subtree root hex";
                  Ok {| sr_root_hash := root; sr_completing_height := rh.2 |}) l).

(** [ZebraSource::connect], the client once built: the node must answer; its chain's name is kept. *)
Definition source_connect (n : node) : node * result string string :=
  let '(n, r) := blockchain_info n in (n, bi_chain <$> r).
(** The block scan always sees a full block's transparent data. *)
Definition zebra_covers_transparent : bool := true.

(** ** Transactions *)

(** [BroadcastOutcome::accepted]. *)
Definition outcome_accepted : BroadcastOutcome := {| error_code := 0; error_message := "" |}.
Definition broadcast_tx (n : node) (data : string) : node * result string BroadcastOutcome :=
  let '(n, r) := call n "sendrawtransaction" [JString (hex_encode data)] in
  (n, match r with
      | Ok _ => Ok outcome_accepted
      | Err (RpcRefused code message) =>
          Ok {| error_code := if bool_decide (- 2 ^ 31 ≤ code ≤ i32_max) then code else - 2 ^ 31;
                error_message := message |}
      | Err e => Err (into_anyhow e "sendrawtransaction")
      end).

(** A refusal that says the node does not know the transaction. *)
Context (to_lowercase : string → string).
Definition tx_unknown (e : CallError) : bool :=
  match e with
  | RpcRefused code message => (code =? -5) || contains "no such mempool" (to_lowercase message)
  | Transport _ => false
  end.
(** A height the RPC reports: positive, or the transaction is unmined. *)
Definition mined_height (h : option Z) : option Z :=
  h ← h; if (0 <? h) && (h <=? u32_max) then Some h else None.
Definition fetch_tx (n : node) (txid : string) : node * result string (option FetchedTx) :=
  let '(n, r) := call n "getrawtransaction" [JString (txid_display txid); JNumber "1"] in
  (n, match r with
      | Ok v =>
          verbose ← ok_or (de_verbose_tx v) "decoding getrawtransaction response";
          data ← ok_or (hex_decode (trim (vt_hex verbose))) "decoding raw transaction hex";
          Ok (Some {| ft_data := data; ft_mined_height := mined_height (vt_height verbose) |})
      | Err e => if tx_unknown e then Ok None else Err (into_anyhow e "getrawtransaction")
      end).

(** ** Full blocks *)

(** The parts of a transaction the code reads; shielded spends, outputs and actions are the
    libraries', and so are their compact forms. *)
Context {spend output action cspend coutput caction : Type}.
Context (compact_spend : spend → cspend) (compact_output : output → coutput) (compact_action : action → caction).

Record TransparentBundle := { tb_is_coinbase : bool; tb_vin : list (string * Z); tb_vout : list (Z * string) }.
Record Transaction := {
  tx_id : string; tx_transparent : option TransparentBundle; tx_sapling : option (list spend * list output);
  tx_orchard : option (list action); tx_ironwood : option (list action);
}.
Record Block := {
  fb_claimed_height : Z; fb_hash : string; fb_prev : string; fb_time : Z; fb_vtx : list Transaction;
}.
Record CompactTx := {
  ctx_index : Z; ctx_txid : string; ctx_spends : list cspend; ctx_outputs : list coutput;
  ctx_actions : list caction; ctx_ironwood : list caction;
  ctx_vin : list (string * Z); ctx_vout : list (Z * string);
}.
Record CompactBlock := {
  cb_height : Z; cb_hash : string; cb_prev_hash : string; cb_time : Z; cb_vtx : list CompactTx; cb_trees : TreeSizes;
}.

Definition tx_outputs (height : Z) (tx : Transaction) : list BlockUtxo :=
  match tx_transparent tx with
  | None => []
  | Some bundle =>
      let coinbase_tx := if tb_is_coinbase bundle then Some (tx_id tx) else None in
      imap (λ i vout, {| u_txid := tx_id tx; u_index := wrap_u32 (Z.of_nat i); u_value_zat := fst vout;
                         u_script := snd vout; u_height := Some height; u_coinbase_tx := coinbase_tx;
                         u_coinbase := is_some coinbase_tx |}) (tb_vout bundle)
  end.
Definition block_transparent_outputs (block : Block) (height : Z) : list BlockUtxo :=
  concat (tx_outputs height <$> fb_vtx block).
Definition tx_spends (height : Z) (tx : Transaction) : list BlockInput :=
  match tx_transparent tx with
  | None => []
  | Some bundle =>
      if tb_is_coinbase bundle then []
      else (λ prevout, {| i_prevout_txid := fst prevout; i_prevout_index := snd prevout; i_spending_txid := tx_id tx;
                          i_height := height |}) <$> tb_vin bundle
  end.
Definition block_transparent_spends (block : Block) (height : Z) : list BlockInput :=
  concat (tx_spends height <$> fb_vtx block).

Definition tx_to_compact (index : nat) (tx : Transaction) : CompactTx :=
  {| ctx_index := Z.of_nat index; ctx_txid := tx_id tx;
     ctx_spends := default [] ((λ b : list spend * list output, compact_spend <$> fst b) <$> tx_sapling tx);
     ctx_outputs := default [] ((λ b : list spend * list output, compact_output <$> snd b) <$> tx_sapling tx);
     ctx_actions := default [] ((λ b : list action, compact_action <$> b) <$> tx_orchard tx);
     ctx_ironwood := default [] ((λ b : list action, compact_action <$> b) <$> tx_ironwood tx);
     ctx_vin := []; ctx_vout := [] |}.
Definition block_to_compact (block : Block) (sizes : TreeSizes) : CompactBlock :=
  {| cb_height := fb_claimed_height block; cb_hash := fb_hash block; cb_prev_hash := fb_prev block;
     cb_time := fb_time block; cb_vtx := imap tx_to_compact (fb_vtx block); cb_trees := sizes |}.

Definition MaterializedBlock : Type := CompactBlock * list BlockUtxo * list BlockInput.

(** [materialize_block]; the format of a full block is the library's. *)
Context (read_block : string → result string Block).
Definition check_block (height : Z) (raw : string) : result string Block :=
  block ← map_err (λ _, "parsing block " +:+ dec height) (read_block raw);
  if negb (fb_claimed_height block =? height) then
    Err ("zebra served block claiming height " +:+ dec (fb_claimed_height block) +:+ " for requested height "
         +:+ dec height)
  else if u16_max <? Z.of_nat (length (fb_vtx block)) then
    Err ("zebra served block " +:+ dec height +:+ " with " +:+ dec (Z.of_nat (length (fb_vtx block)))
         +:+ " transactions, exceeding the " +:+ dec u16_max +:+ " the scanner supports")
  else Ok block.
Definition materialize_block (n : node) (height : Z) (include_transparent : bool) :
    node * result string MaterializedBlock :=
  let '(n, raw) := block_raw n (dec height) in
  match raw ≫= check_block height with
  | Err e => (n, Err e)
  | Ok block =>
      let '(n, sizes) := block_trees n (txid_display (fb_hash block)) in
      (n, sizes ← sizes;
          Ok (block_to_compact block sizes,
              if include_transparent then block_transparent_outputs block height else [],
              if include_transparent then block_transparent_spends block height else []))
  end.

(** [pump_blocks]: what the channel carries, while its reader lives: the blocks in height order, up
    to the first failure and with it. The fetches overlap, so each meets the node at its own time. *)
Fixpoint until_failure {A} (l : list (result string A)) : list (result string A) :=
  match l with [] => [] | Ok a :: l => Ok a :: until_failure l | Err e :: _ => [Err e] end.
Definition heights (start end_ : Z) : list Z := seqZ start (end_ + 1 - start).
Definition pump_blocks (at_ : Z → node) (start end_ : Z) (include_transparent : bool) :
    list (result string MaterializedBlock) :=
  until_failure ((λ h, snd (materialize_block (at_ h) h include_transparent)) <$> heights start end_).
(** [ZebraBlockStream::next], of the channel's remaining contents once the pump is done. *)
Definition stream_next (channel : list (result string MaterializedBlock)) :
    result string (option MaterializedBlock) * list (result string MaterializedBlock) :=
  match channel with [] => (Ok None, []) | r :: channel => (Some <$> r, channel) end.

(** ** The mempool poller *)

Inductive PollEnd := PollAgain (seen : list string) | PollOver.

(** The transactions of one look at the mempool that were not seen before; [alive] is whether the
    subscriber still reads. *)
Context (alive : node → bool).
Fixpoint poll_txids (n : node) (seen : list string) (txids : list string) : node * list (result string string) * PollEnd :=
  match txids with
  | [] => (n, [], PollAgain seen)
  | txid :: txids =>
      if bool_decide (txid ∈ seen) then poll_txids n seen txids
      else
        let seen := txid :: seen in
        match call n "getrawtransaction" [JString txid; JNumber "1"] with
        | (n, Ok v) =>
            match de_verbose_tx v ≫= λ t, hex_decode (trim (vt_hex t)) with
            | None => poll_txids n seen txids
            | Some data =>
                if alive n then let '(n, sent, e) := poll_txids n seen txids in (n, Ok data :: sent, e)
                else (n, [], PollOver)
            end
        | (n, Err e) =>
            if tx_unknown e then poll_txids n seen txids
            else (n, [Err (into_anyhow e "getrawtransaction")], PollOver)
        end
  end.
(** One turn of [poll_mempool]; the sleep between the transactions and the best hash is time, which
    is the node's. *)
Definition poll_turn (baseline : string) (n : node) (seen : list string) :
    node * list (result string string) * PollEnd :=
  match call_as (de_list de_string) n "getrawmempool" [] with
  | (n, Err e) => (n, [Err e], PollOver)
  | (n, Ok txids) =>
      let seen := List.filter (λ t, bool_decide (t ∈ txids)) seen in
      match poll_txids n seen txids with
      | (n, sent, PollOver) => (n, sent, PollOver)
      | (n, sent, PollAgain seen) =>
          match best_block_hash n with
          | (n, Ok best) => (n, sent, if bool_decide (best = baseline) then PollAgain seen else PollOver)
          | (n, Err e) => (n, sent ++ [Err e], PollOver)
          end
      end
  end.
Fixpoint poll_mempool (turns : nat) (baseline : string) (n : node) (seen : list string) :
    node * list (result string string) * PollEnd :=
  match turns with
  | O => (n, [], PollAgain seen)
  | S turns =>
      match poll_turn baseline n seen with
      | (n, sent, PollAgain seen) =>
          let '(n, more, e) := poll_mempool turns baseline n seen in (n, sent ++ more, e)
      | over => over
      end
  end.
End client.
