(* ===== verification/Lwd.v ===== *)
(** * Lwd: the upstream as a lightwalletd server ([src/src/chain/lwd.rs], the dispatch of
      [src/src/chain/mod.rs])

    The calls mapped to the chain contract, the transparent data harvested from compact blocks, and
    the reader that drains a block stream into a buffer bounded in bytes. The gRPC calls are
    answers of the server's; the reader and its consumer are steps. *)

From S2P Require Export Zebra.

(** A failed call: whether its code is [NotFound], its message, its text as an error. *)
Record Status := { gs_not_found : bool; gs_message : string; gs_text : string }.
Record LightdInfo := {
  li_chain_name : string; li_block_height : Z; li_consensus_branch_id : string; li_protocol_version : string;
}.
Record RawTransaction := { rw_data : string; rw_height : Z }.
(** What a server stream delivers: messages, and how it ended. *)
Definition ServerStream (A : Type) : Type := list A * option Status.

(** [mined_height_from_raw]: a [u64]. *)
Definition mined_height_from_raw (height : Z) : option Z :=
  if (height <=? u32_max) && (0 <? height) then Some height else None.
Definition fetched_of (raw : RawTransaction) : FetchedTx :=
  {| ft_data := rw_data raw; ft_mined_height := mined_height_from_raw (rw_height raw) |}.

Section lwd.
Context (to_lowercase : string → string).

Definition is_tx_not_found (s : Status) : bool :=
  gs_not_found s
  || (let msg := to_lowercase (gs_message s) in
      contains "no such mempool" msg || contains "no information available about transaction" msg).

(** *** The source *)

(** [LwdSource::connect]: whether the server serves transparent data. *)
Definition lwd_connect (assume_capable : bool) (info : result Status LightdInfo) : result string bool :=
  info ← map_err gs_text info;
  Ok (negb (bool_decide (li_protocol_version info = "")) || assume_capable).
Definition lwd_latest_block (block_id : result Status ChainTip) : result string ChainTip := map_err gs_text block_id.
(** The height a tree state is for must be the one asked for; the server's is a [u64]. *)
Definition lwd_tree_state (height : Z) (reply : result Status TreeState) : result string TreeState :=
  t ← map_err gs_text reply;
  if negb (ts_height t =? height) then
    Err ("tree state height mismatch: requested " +:+ dec height +:+ ", got " +:+ dec (ts_height t))
  else Ok t.

Inductive PoolType := PT_Transparent | PT_Sapling | PT_Orchard | PT_Ironwood.
(** What a range is asked for, and whether its transparent data is extracted. *)
Definition extract_transparent (capable include_transparent : bool) : bool := include_transparent && capable.
Definition range_pool_types (capable include_transparent : bool) : list PoolType :=
  if extract_transparent capable include_transparent
  then [PT_Transparent; PT_Sapling; PT_Orchard; PT_Ironwood] else [].
Definition lwd_covers_transparent (capable : bool) : bool := capable.

(** Roots, until the stream ends, fails, or holds a height out of range. *)
Fixpoint lwd_roots (messages : list (string * Z)) (failure : option Status) : result string (list SubtreeRootInfo) :=
  match messages with
  | [] => match failure with Some e => Err (gs_text e) | None => Ok [] end
  | (root, height) :: messages =>
      if height <=? u32_max then
        roots ← lwd_roots messages failure;
        Ok ({| sr_root_hash := root; sr_completing_height := height |} :: roots)
      else Err "subtree root completing height out of range"
  end.
Definition lwd_subtree_roots (reply : result Status (ServerStream (string * Z))) :
    result string (list SubtreeRootInfo) :=
  '(messages, failure) ← map_err gs_text reply; lwd_roots messages failure.
Definition lwd_server_info (reply : result Status LightdInfo) : result string ServerInfo :=
  info ← map_err gs_text reply;
  Ok {| chain_name := li_chain_name info; tip_height := mined_height_from_raw (li_block_height info); upgrades := [];
        tip_branch_id := parse_branch_id (li_consensus_branch_id info); next_block_branch_id := None |}.
Definition lwd_broadcast_tx (response : result Status BroadcastOutcome) : result string BroadcastOutcome :=
  map_err gs_text response.
Definition lwd_fetch_tx (reply : result Status RawTransaction) : result string (option FetchedTx) :=
  match reply with
  | Ok raw => Ok (if bool_decide (rw_data raw = "") then None else Some (fetched_of raw))
  | Err status => if is_tx_not_found status then Ok None else Err (gs_text status)
  end.
(** The evidence for the addresses in turn, as the server answers each. *)
Fixpoint lwd_evidence (server : string → result Status (ServerStream RawTransaction)) (addresses : list string) :
    result string (list FetchedTx) :=
  match addresses with
  | [] => Ok []
  | address :: addresses =>
      '(messages, failure) ← map_err gs_text (server address);
      match failure with
      | Some e => Err (gs_text e)
      | None =>
          rest ← lwd_evidence server addresses;
          Ok ((fetched_of <$> List.filter (λ raw, negb (bool_decide (rw_data raw = ""))) messages) ++ rest)
      end
  end.
(** The forwarded mempool stream: messages, then its failure, then closed. *)
Definition lwd_mempool (reply : result Status (ServerStream RawTransaction)) : list (result string RawTransaction) :=
  match reply with
  | Err e => [Err (gs_text e)]
  | Ok (messages, failure) => (Ok <$> messages) ++ match failure with Some e => [Err (gs_text e)] | None => [] end
  end.
End lwd.

(** *** A compact block's transparent data *)

Section compact.
Context {cspend coutput caction : Type}.
Implicit Types block : @CompactBlock cspend coutput caction.

Definition is_txid (bytes : string) : bool := (String.length bytes =? 32)%nat.
Definition lwd_tx_spends (height : Z) (tx : @CompactTx cspend coutput caction) : list BlockInput :=
  if is_txid (ctx_txid tx) then
    (λ prevout, {| i_prevout_txid := fst prevout; i_prevout_index := snd prevout; i_spending_txid := ctx_txid tx;
                   i_height := height |}) <$> List.filter (λ prevout, is_txid (fst prevout)) (ctx_vin tx)
  else [].
Definition lwd_transparent_spends block : list BlockInput :=
  if cb_height block <=? u32_max then concat (lwd_tx_spends (cb_height block) <$> cb_vtx block) else [].
Definition lwd_tx_outputs (height : option Z) (tx : @CompactTx cspend coutput caction) : list BlockUtxo :=
  if is_txid (ctx_txid tx) then
    imap (λ i vout, {| u_txid := ctx_txid tx; u_index := wrap_u32 (Z.of_nat i); u_value_zat := fst vout;
                       u_script := snd vout; u_height := height; u_coinbase_tx := None;
                       u_coinbase := ctx_index tx =? 0 |}) (ctx_vout tx)
  else [].
Definition lwd_transparent_outputs block : list BlockUtxo :=
  let height := if cb_height block <=? u32_max then Some (cb_height block) else None in
  concat (lwd_tx_outputs height <$> cb_vtx block).

(** [LwdBlockStream::next], of the block taken off the channel. *)
Definition lwd_next (extract : bool) block : @MaterializedBlock cspend coutput caction :=
  (block, if extract then lwd_transparent_outputs block else [], if extract then lwd_transparent_spends block else []).

(** ** The reader *)

Definition BLOCK_BUFFER_BYTES : Z := 32 * 1024 * 1024.
Context (encoded_len : @CompactBlock cspend coutput caction → Z).

(** [encoded_len().clamp(1, buffer_bytes) as u32]. *)
Definition block_cost (buffer_bytes : Z) block : Z :=
  wrap_u32 (Z.min (Z.max (encoded_len block) 1) buffer_bytes).

(** The stream still to read, the block that waits for permits, what is in the channel, the permits
    left, whether the task is over; and what the consumer took. *)
Record Reader := {
  rd_stream : list (result string (@CompactBlock cspend coutput caction));
  rd_waiting : option (@CompactBlock cspend coutput caction);
  rd_channel : list (result string (@CompactBlock cspend coutput caction * Z));
  rd_permits : Z; rd_over : bool;
  rd_taken : list (result string (@CompactBlock cspend coutput caction));
}.
Definition reader_start (buffer_bytes : Z) (stream : list (result string (@CompactBlock cspend coutput caction))) : Reader :=
  {| rd_stream := stream; rd_waiting := None; rd_channel := []; rd_permits := buffer_bytes; rd_over := false;
     rd_taken := [] |}.

(** The task takes the next of the stream: a block, which waits; a failure, which it passes on; or
    the end. *)
Definition reader_next (r : Reader) : option Reader :=
  if rd_over r then None else
  match rd_waiting r, rd_stream r with
  | Some _, _ => None
  | None, Ok b :: stream =>
      Some {| rd_stream := stream; rd_waiting := Some b; rd_channel := rd_channel r; rd_permits := rd_permits r;
              rd_over := false; rd_taken := rd_taken r |}
  | None, Err e :: stream =>
      Some {| rd_stream := stream; rd_waiting := None; rd_channel := rd_channel r ++ [Err e];
              rd_permits := rd_permits r; rd_over := true; rd_taken := rd_taken r |}
  | None, [] =>
      Some {| rd_stream := []; rd_waiting := None; rd_channel := rd_channel r; rd_permits := rd_permits r;
              rd_over := true; rd_taken := rd_taken r |}
  end.
(** The waiting block gets its permits and goes into the channel with them. *)
Definition reader_send (buffer_bytes : Z) (r : Reader) : option Reader :=
  match rd_waiting r with
  | Some b =>
      let cost := block_cost buffer_bytes b in
      if cost <=? rd_permits r then
        Some {| rd_stream := rd_stream r; rd_waiting := None; rd_channel := rd_channel r ++ [Ok (b, cost)];
                rd_permits := rd_permits r - cost; rd_over := rd_over r; rd_taken := rd_taken r |}
      else None
  | None => None
  end.
(** The consumer takes one: the block's permits return. *)
Definition reader_take (r : Reader) : option Reader :=
  match rd_channel r with
  | [] => None
  | Ok (b, cost) :: channel =>
      Some {| rd_stream := rd_stream r; rd_waiting := rd_waiting r; rd_channel := channel;
              rd_permits := rd_permits r + cost; rd_over := rd_over r; rd_taken := rd_taken r ++ [Ok b] |}
  | Err e :: channel =>
      Some {| rd_stream := rd_stream r; rd_waiting := rd_waiting r; rd_channel := channel;
              rd_permits := rd_permits r; rd_over := rd_over r; rd_taken := rd_taken r ++ [Err e] |}
  end.
Inductive reader_step (buffer_bytes : Z) : Reader → Reader → Prop :=
  | step_next r r' : reader_next r = Some r' → reader_step buffer_bytes r r'
  | step_send r r' : reader_send buffer_bytes r = Some r' → reader_step buffer_bytes r r'
  | step_take r r' : reader_take r = Some r' → reader_step buffer_bytes r r'.
End compact.

(** ** h2's own load shed *)

(** [is_h2_load_shed], of the debug renderings of an error and of its causes. *)
Definition names_the_load_shed (text : string) : bool :=
  (contains "too_many_data_frames" text || contains "ENHANCE_YOUR_CALM" text) && contains "Library" text.
Definition is_h2_load_shed (debug : string) (causes : list string) : bool :=
  names_the_load_shed debug || existsb names_the_load_shed causes.

(** ** Either source: the streams *)

Inductive CompactBlockStream {cspend coutput caction : Type} :=
  | CBS_Zebra (channel : list (result string (@MaterializedBlock cspend coutput caction)))
  | CBS_Lwd (extract : bool) (channel : list (result string (@CompactBlock cspend coutput caction))).
Definition block_stream_next {cspend coutput caction} (s : @CompactBlockStream cspend coutput caction) :
    result string (option (@MaterializedBlock cspend coutput caction)) * CompactBlockStream :=
  match s with
  | CBS_Zebra channel => let '(r, channel) := stream_next channel in (r, CBS_Zebra channel)
  | CBS_Lwd extract channel =>
      match channel with
      | [] => (Ok None, s)
      | r :: channel => (Some <$> (lwd_next extract <$> r), CBS_Lwd extract channel)
      end
  end.
