(* ===== verification/SourceSpec.v ===== *)
(** * SourceSpec: what the two chain sources promise

    A split address query returns what one query would have; a broadcast is accepted only by a
    success of the node's; blocks arrive in order, each the one asked for; the transparent data of a
    block is the same from either source; the buffered reader loses nothing, keeps within its bytes
    and never blocks itself. *)

From S2P Require Export Lwd.

(** ** The split query *)

Section address.
Context {node : Type} (rpc : node → string → json → node * Exchange).
Context (parse_json : string → result string json) (status_text : Z → string).

#[local] Abbreviation call := (call rpc parse_json status_text).
#[local] Abbreviation address_loop := (address_loop rpc parse_json status_text).

(** What is left to ask for. *)
Definition range_measure (r : Z * Z) : nat := S (Z.to_nat (2 * (snd r - fst r))).
Fixpoint measure (pending : list (Z * Z)) : nat :=
  match pending with [] => 0 | r :: pending => range_measure r + measure pending end.
Lemma split_measure lo hi :
  lo < hi → let mid := lo + (hi - lo) / 2 in
  lo ≤ mid < hi ∧ (range_measure (lo, mid) + range_measure ((mid + 1)%Z, hi) < range_measure (lo, hi))%nat.
Proof.
  intros Hlt mid. assert (lo ≤ mid < hi).
  { subst mid. pose proof (Z.div_pos (hi - lo) 2). pose proof (Z.div_lt (hi - lo) 2). lia. }
  split; [done|]. unfold range_measure. cbn [fst snd]. lia.
Qed.

(** The fuel is enough, whatever the node answers. *)
Lemma address_loop_total fuel addresses : ∀ n out pending,
  (measure pending ≤ fuel)%nat → is_Some (snd (address_loop fuel addresses n out pending)).
Proof.
  induction fuel as [|fuel IH]; intros n out [|[lo hi] pending] Hm; cbn in *; try (by eexists); [lia|].
  destruct (call _ _ _) as [n' [reply|e]].
  - destruct (de_list de_string reply) as [hexes|]; [|by eexists]. apply IH. lia.
  - destruct e as [|code message]; [by eexists|]. destruct (Z.ltb_spec lo hi) as [Hlt|]; [|by eexists].
    destruct (is_address_query_too_large code message); [|by eexists]. cbn [andb]. apply IH.
    destruct (split_measure lo hi Hlt) as [_ Hs]. cbn [measure]. unfold range_measure in *. cbn [fst snd] in *. lia.
Qed.

(** A node that holds a history - the transactions of the addresses, in chain order - and refuses to
    answer with more than [limit] of them at once. *)
Definition matches (history : list (Z * string)) (lo hi : Z) : list string :=
  snd <$> List.filter (λ e, (lo <=? fst e) && (fst e <=? hi)) history.
Definition index_answer (history : list (Z * string)) (limit : nat) (lo hi : Z) : result CallError json :=
  if (limit <? length (matches history lo hi))%nat
  then Err (RpcRefused (-8) "more transactions match; narrow the height range")
  else Ok (JArray (JString <$> matches history lo hi)).

Lemma matches_split history lo mid hi :
  StronglySorted (λ a b, fst a ≤ fst b) history → lo ≤ mid < hi →
  matches history lo hi = matches history lo mid ++ matches history (mid + 1) hi.
Proof.
  intros Hsort Hmid. unfold matches. rewrite <- fmap_app. f_equal.
  induction Hsort as [|[h t] l Hl IH Hall]; [done|]. cbn. rewrite IH.
  destruct (Z.leb_spec lo h), (Z.leb_spec h hi), (Z.leb_spec h mid), (Z.leb_spec (mid + 1) h); cbn; try lia; try done.
  assert (List.filter (λ e : Z * string, (lo <=? fst e) && (fst e <=? mid)) l = []) as ->; [|done].
  clear -Hall H1. induction Hall as [|[h' t'] l Hh Hl IH]; [done|]. cbn in *.
  destruct (Z.leb_spec h' mid); [lia|]. by rewrite andb_false_r.
Qed.
Lemma decode_strings l : de_list de_string (JArray (JString <$> l)) = Some l.
Proof. unfold de_list. induction l as [|s l IH]; [done|]. cbn. cbn in IH. by rewrite IH. Qed.

Section index.
Context (history : list (Z * string)) (limit : nat) (addresses : list string).
Context (Hsorted : StronglySorted (λ a b, fst a ≤ fst b) history).
Context (Hnode : ∀ n lo hi, 0 ≤ lo ≤ hi → hi ≤ u32_max →
  call n "getaddresstxids" (address_params addresses lo hi) = (n, index_answer history limit lo hi)).
Context (Hblock : ∀ h, (length (matches history h h) ≤ limit)%nat).

Lemma address_loop_exact fuel n : ∀ out pending,
  (measure pending ≤ fuel)%nat → Forall (λ r, 0 ≤ fst r ≤ snd r ∧ snd r ≤ u32_max) pending →
  address_loop fuel addresses n out pending =
  (n, Some (Ok (out ++ concat ((λ r, matches history (fst r) (snd r)) <$> pending)))).
Proof using Hsorted Hnode Hblock.
  induction fuel as [|fuel IH]; intros out [|[lo hi] pending] Hm Hall; cbn in *; try (by rewrite app_nil_r); [lia|].
  apply Forall_cons in Hall as [Hle Hall]. cbn in Hle. rewrite Hnode by tauto. unfold index_answer.
  destruct (Nat.ltb_spec limit (length (matches history lo hi))) as [Hbig|Hfits].
  - assert (lo < hi) as Hlt.
    { destruct (Z.eq_dec lo hi) as [->|]; [|lia]. specialize (Hblock hi). lia. }
    rewrite (proj2 (Z.ltb_lt lo hi) Hlt). cbn [andb is_address_query_too_large].
    destruct (split_measure lo hi Hlt) as [Hmid Hs]. set (mid := lo + (hi - lo) / 2) in *.
    change (is_address_query_too_large _ _) with true. cbv beta iota.
    rewrite IH.
    + cbn. by rewrite (matches_split history lo mid hi), <- (assoc_L (++)).
    + cbn [measure]. unfold range_measure in *. cbn [fst snd] in *. lia.
    + repeat (apply Forall_cons; split; [cbn; lia|]). done.
  - rewrite decode_strings. rewrite IH; [by rewrite <- (assoc_L (++))|lia|done].
Qed.
End index.
End address.

(** Splitting is invisible: against a node that answers an address query only up to a limit, the
    query returns exactly the transactions of the whole range in chain order, if no single block
    alone exceeds the limit; and whatever the node answers, the query ends. *)
Theorem split_query_exact {node : Type} (rpc : node → string → json → node * Exchange)
    (parse_json : string → result string json) (status_text : Z → string)
    (addresses : list string) (history : list (Z * string)) (limit : nat) (n : node) (lo hi : Z)
    (Hsorted : StronglySorted (λ a b, fst a ≤ fst b) history)
    (Hnode : ∀ n lo hi, 0 ≤ lo ≤ hi → hi ≤ u32_max →
                        Zebra.call rpc parse_json status_text n "getaddresstxids" (address_params addresses lo hi) =
                        (n, index_answer history limit lo hi))
    (Hblock : ∀ h, (length (matches history h h) ≤ limit)%nat)
    (Hrange : 0 ≤ lo ≤ hi) (Hmax : hi ≤ u32_max) :
  address_tx_ids rpc parse_json status_text addresses n lo hi = (n, Some (Ok (matches history lo hi))) ∧
  ∀ rpc' n' lo' hi', is_Some (snd (@address_tx_ids node rpc' parse_json status_text addresses n' lo' hi')).
Proof.
  split.
  - unfold address_tx_ids. erewrite address_loop_exact; [|done..| |].
    + cbn. by rewrite app_nil_r.
    + cbn. unfold address_fuel, range_measure. cbn [fst snd]. lia.
    + by apply Forall_singleton.
  - intros. apply address_loop_total. cbn. unfold address_fuel, range_measure. cbn [fst snd]. lia.
Qed.

(** A node over two transactions that answers with one at most. *)
Definition two_txs : list (Z * string) := [(1, "a"); (2, "b")].
Definition param_height (key : string) (params : json) : option Z :=
  match params with JArray [v] => json_get key v ≫= de_u32 | _ => None end.
Definition indexer (n : nat) (_ : string) (params : json) : nat * Exchange :=
  (n, match param_height "start" params, param_height "end" params with
      | Some lo, Some hi => Answered 200 (match matches two_txs lo hi with [] => "none" | [t] => t | _ => "refused" end)
      | _, _ => Failed "no heights"
      end).
Definition sample_parse (s : string) : result string json :=
  if bool_decide (s = "none") then Ok (JObject [("result", JArray [])])
  else if bool_decide (s = "refused") then
    Ok (JObject [("error", JObject [("code", JNumber "-8"); ("message", JString "more transactions match; narrow the height range")])])
  else Ok (JObject [("result", JArray [JString s])]).

Lemma indexer_answers n lo hi :
  0 ≤ lo ≤ hi → hi ≤ u32_max →
  Zebra.call indexer sample_parse dec n "getaddresstxids" (address_params ["t1"] lo hi) =
  (n, index_answer two_txs 1 lo hi).
Proof.
  intros Hlo Hhi. unfold Zebra.call, indexer, index_answer.
  change (param_height "start" _) with (parse_unsigned u32_max (dec lo)).
  change (param_height "end" _) with (parse_unsigned u32_max (dec hi)).
  rewrite !parse_unsigned_dec by lia. unfold matches, two_txs. cbn [List.filter fst snd].
  destruct (lo <=? 1), (1 <=? hi), (lo <=? 2), (2 <=? hi); reflexivity.
Qed.
Lemma split_query_exact_witness :
  address_tx_ids indexer sample_parse dec ["t1"] 0%nat 1 2 = (0%nat, Some (Ok ["a"; "b"])).
Proof.
  refine (proj1 (split_query_exact indexer sample_parse dec ["t1"] two_txs 1 0%nat 1 2 _ indexer_answers _ _ _)).
  - repeat constructor; cbn; lia.
  - intros h. unfold matches, two_txs. cbn [List.filter fst snd].
    destruct (Z.leb_spec h 1), (Z.leb_spec 1 h), (Z.leb_spec h 2), (Z.leb_spec 2 h); cbn; lia.
  - lia.
  - unfold u32_max; lia.
Defined.

(** ** A broadcast's acceptance *)

(** C33. A transaction the node refused is never reported as accepted, whatever code the refusal
    carries: the outcome is an acceptance exactly when the node answered with a success status and a
    JSON body, within the size limit, that carries no error; a code beyond 32 bits stays a refusal. *)
Theorem broadcast_accepted_iff {node : Type} (rpc : node → string → json → node * Exchange)
    (parse_json : string → result string json) (status_text : Z → string) `{HX : HexCodec}
    (n : node) (data : string) :
  let ex := snd (rpc n "sendrawtransaction" (JArray [JString (hex_encode data)])) in
  let outcome := snd (broadcast_tx rpc parse_json status_text n data) in
  (∃ o, outcome = Ok o ∧ is_accepted o = true) ↔
  ∃ status body envelope, ex = Answered status body ∧ 200 ≤ status < 300 ∧
    Z.of_nat (String.length body) ≤ MAX_RESPONSE_BYTES ∧ parse_json body = Ok envelope ∧
    (json_get "error" envelope = None ∨ json_get "error" envelope = Some JNull).
Proof.
  cbv zeta. unfold broadcast_tx, Zebra.call.
  destruct (rpc n _ _) as [n' [|e|status body]]; cbn [snd fst call_result].
  { split; [intros (o & [=] & _)|intros (? & ? & ? & [=] & _)]. }
  { split; [intros (o & [=] & _)|intros (? & ? & ? & [=] & _)]. }
  destruct (Z.ltb_spec MAX_RESPONSE_BYTES (Z.of_nat (String.length body))) as [Hbig|Hfits].
  { split; [intros (o & [=] & _)|]. intros (? & ? & ? & [= <- <-] & _ & Hs & _). lia. }
  destruct (parse_json body) as [envelope|e] eqn:Hp; cycle 1.
  { split; [intros (o & [=] & _)|]. intros (? & ? & ? & [= <- <-] & _ & _ & Hq & _). congruence. }
  destruct (List.find _ _) as [err|] eqn:Hf.
  - apply find_some in Hf as [Hin Hnn].
    assert (Herr : json_get "error" envelope = Some err)
      by (destruct (json_get "error" envelope); cbn in Hin; [destruct Hin as [->|[]]; done|done]).
    unfold envelope_error. split.
    + intros (o & [= <-] & Ha). exfalso. revert Ha. unfold is_accepted. cbn [error_code].
      destruct (json_get "code" err ≫= json_as_i64) as [[|c|c]|]; [done| | |done]; case_bool_decide; done.
    + intros (? & ? & ? & [= <- <-] & _ & _ & Hq & Hnone). rewrite Hp in Hq. injection Hq as <-.
      rewrite Herr in Hnone. destruct Hnone as [|[= ->]]; done.
  - assert (Hnone : json_get "error" envelope = None ∨ json_get "error" envelope = Some JNull).
    { destruct (json_get "error" envelope) as [[]|]; cbn in Hf; try done; [by right|by left]. }
    destruct ((200 <=? status) && (status <? 300)) eqn:Hs.
    + apply andb_true_iff in Hs as [H1%Z.leb_le H2%Z.ltb_lt]. split; [|intros _; by eexists].
      intros _. exists status, body, envelope. split_and!; try done; lia.
    + split; [intros (o & [=] & _)|]. intros (? & ? & ? & [= <- <-] & Hr & _).
      apply andb_false_iff in Hs as [?%Z.leb_gt|?%Z.ltb_ge]; lia.
Qed.

(** ** Full blocks *)

Section blocks.
Context {node : Type} (rpc : node → string → json → node * Exchange).
Context (parse_json : string → result string json) (status_text : Z → string) `{HX : HexCodec}.
Context {spend output action cspend coutput caction : Type}.
Context (compact_spend : spend → cspend) (compact_output : output → coutput) (compact_action : action → caction).
Context (read_block : string → result string (@Block spend output action)).

#[local] Abbreviation materialize :=
  (materialize_block rpc parse_json status_text compact_spend compact_output compact_action read_block).
#[local] Abbreviation pump :=
  (pump_blocks rpc parse_json status_text compact_spend compact_output compact_action read_block).

(** A block delivered is the one asked for: its height, at most as many transactions as an index
    holds, numbered by position. *)
Definition right_block (height : Z) (block : @CompactBlock cspend coutput caction) : Prop :=
  cb_height block = height ∧ Z.of_nat (length (cb_vtx block)) ≤ u16_max ∧
  ∀ i tx, cb_vtx block !! i = Some tx → ctx_index tx = Z.of_nat i.
Lemma materialize_right n height incl n' block outs ins :
  materialize n height incl = (n', Ok (block, outs, ins)) → right_block height block.
Proof.
  unfold materialize_block. destruct (block_raw _ _ _ n (dec height)) as [n1 raw].
  destruct (raw ≫= _) as [full|e] eqn:Hc; [|done]. destruct (block_trees _ _ _ n1 _) as [n2 [sizes|e]]; [|done].
  cbn. intros [= _ <- _ _]. unfold right_block, block_to_compact. cbn [cb_height cb_vtx].
  destruct raw as [raw|e]; cbn in Hc; [|done]. unfold check_block in Hc.
  destruct (map_err _ (read_block raw)) as [b|e]; cbn in Hc; [|done].
  destruct (Z.eqb_spec (fb_claimed_height b) height) as [Hh|]; cbn in Hc; [|done].
  destruct (Z.ltb_spec u16_max (Z.of_nat (length (fb_vtx b)))) as [|Hl]; [done|]. injection Hc as ->.
  split_and!; [done|by rewrite length_imap|].
  intros i tx. rewrite list_lookup_imap. intros (t & _ & ->)%fmap_Some. done.
Qed.

Lemma until_failure_lookup {A} (l : list (result string A)) i a :
  until_failure l !! i = Some (Ok a) → l !! i = Some (Ok a).
Proof. revert i. induction l as [|[b|e] l IH]; intros [|i]; cbn; try done. apply IH. Qed.
Lemma until_failure_failure {A} (l : list (result string A)) i e :
  until_failure l !! i = Some (Err e) → length (until_failure l) = S i.
Proof. revert i. induction l as [|[b|e'] l IH]; intros [|i]; cbn; try done. intros H. by rewrite (IH _ H). Qed.
Lemma until_failure_all {A} (l : list (result string A)) :
  (∀ e, Err e ∉ until_failure l) → until_failure l = l.
Proof.
  induction l as [|[b|e] l IH]; intros H; [done| |].
  - cbn. f_equal. apply IH. intros e He. apply (H e). by right.
  - destruct (H e). by left.
Qed.

(** Whatever the node serves, and however it changes while the fetches overlap, the blocks of a
    range arrive in height order without a gap, each claiming the height asked for and no more
    transactions than the scanner can number; a failure is the last thing delivered, and without one
    the whole range is. *)
Theorem pump_in_order (at_ : Z → node) (start end_ : Z) (incl : bool) :
  let channel := pump at_ start end_ incl in
  (∀ i block outs ins, channel !! i = Some (Ok (block, outs, ins)) →
     right_block (start + Z.of_nat i) block ∧ start + Z.of_nat i ≤ end_) ∧
  (∀ i e, channel !! i = Some (Err e) → length channel = S i) ∧
  ((∀ e, Err e ∉ channel) → Z.of_nat (length channel) = Z.max 0 (end_ + 1 - start)).
Proof.
  cbv zeta. unfold pump_blocks. split_and!.
  - intros i block outs ins H%until_failure_lookup. rewrite list_lookup_fmap in H.
    apply fmap_Some in H as (h & Hh & Heq). unfold heights in Hh. apply lookup_seqZ in Hh as [-> Hlt].
    destruct (materialize _ _ _) as [n' r] eqn:Hm. cbn in Heq. subst r. apply materialize_right in Hm. split; [done|lia].
  - intros i e. apply until_failure_failure.
  - intros H. rewrite (until_failure_all _ H), length_fmap. unfold heights. rewrite length_seqZ. lia.
Qed.

(** ** Both sources *)

(** What a lightwalletd server that serves transparent data sends for a block: the compact block
    with the outputs, and the inputs but of the coinbase. *)
Definition served_tx (index : nat) (tx : @Transaction spend output action) : @CompactTx cspend coutput caction :=
  let c := tx_to_compact compact_spend compact_output compact_action index tx in
  {| ctx_index := ctx_index c; ctx_txid := ctx_txid c; ctx_spends := ctx_spends c; ctx_outputs := ctx_outputs c;
     ctx_actions := ctx_actions c; ctx_ironwood := ctx_ironwood c;
     ctx_vin := match tx_transparent tx with Some b => if tb_is_coinbase b then [] else tb_vin b | None => [] end;
     ctx_vout := match tx_transparent tx with Some b => tb_vout b | None => [] end |}.
Definition served_block (block : @Block spend output action) (sizes : TreeSizes) : @CompactBlock cspend coutput caction :=
  {| cb_height := fb_claimed_height block; cb_hash := fb_hash block; cb_prev_hash := fb_prev block;
     cb_time := fb_time block; cb_vtx := imap served_tx (fb_vtx block); cb_trees := sizes |}.

(** A block as consensus has it: ids of 32 bytes, a coinbase at position 0 and there only. *)
Definition consensus_tx (i : nat) (tx : @Transaction spend output action) : Prop :=
  is_txid (tx_id tx) = true ∧
  ∀ b, tx_transparent tx = Some b → tb_is_coinbase b = bool_decide (i = 0%nat) ∧ Forall (λ p, is_txid (fst p) = true) (tb_vin b).
Definition consensus_block (block : @Block spend output action) : Prop :=
  0 ≤ fb_claimed_height block ≤ u32_max ∧ ∀ i tx, fb_vtx block !! i = Some tx → consensus_tx i tx.

(** An output but for the full coinbase transaction, which only a full block has. *)
Definition light_utxo (u : BlockUtxo) : BlockUtxo :=
  {| u_txid := u_txid u; u_index := u_index u; u_value_zat := u_value_zat u; u_script := u_script u;
     u_height := u_height u; u_coinbase_tx := None; u_coinbase := u_coinbase u |}.

Lemma served_outputs height i tx :
  consensus_tx i tx → lwd_tx_outputs (Some height) (served_tx i tx) = light_utxo <$> tx_outputs height tx.
Proof.
  intros [Hid Hcb]. unfold lwd_tx_outputs, served_tx, tx_outputs, tx_to_compact. cbn [ctx_txid ctx_vout ctx_index].
  rewrite Hid. destruct (tx_transparent tx) as [b|]; [|done]. destruct (Hcb b eq_refl) as [Hc _].
  rewrite fmap_imap. apply imap_ext. intros j vout _. unfold light_utxo. cbn. rewrite Hc.
  destruct i; done.
Qed.
Lemma served_spends height i tx :
  consensus_tx i tx → lwd_tx_spends height (served_tx i tx) = tx_spends height tx.
Proof.
  intros [Hid Hcb]. unfold lwd_tx_spends, served_tx, tx_spends, tx_to_compact. cbn [ctx_txid ctx_vin].
  rewrite Hid. destruct (tx_transparent tx) as [b|]; [|done]. destruct (Hcb b eq_refl) as [_ Hv].
  destruct (tb_is_coinbase b); [done|]. f_equal. induction Hv as [|p l Hp _ IH]; [done|]. cbn. by rewrite Hp, IH.
Qed.
Lemma imap_agree {A B C} (f : nat → A → B) (g : B → C) (h : A → C) l :
  (∀ i a, l !! i = Some a → g (f i a) = h a) → g <$> imap f l = h <$> l.
Proof.
  intros H. apply list_eq. intros i. rewrite !list_lookup_fmap, list_lookup_imap.
  destruct (l !! i) as [a|] eqn:E; [|done]. cbn. by rewrite (H _ _ E).
Qed.

(** C11. The two backends agree on a block: the transparent outputs and spends the sync engine gets
    from lightwalletd's compact block are those Zebra's full block gives, in the same order, but for
    the coinbase transaction's body; and the coinbase flag is the same. *)
Theorem backends_agree (block : @Block spend output action) (sizes : TreeSizes) (Hcons : consensus_block block) :
  let height := fb_claimed_height block in
  lwd_transparent_outputs (served_block block sizes) = light_utxo <$> block_transparent_outputs block height ∧
  lwd_transparent_spends (served_block block sizes) = block_transparent_spends block height.
Proof.
  destruct Hcons as [[_ Hmax] Htx]. cbv zeta. unfold lwd_transparent_outputs, lwd_transparent_spends, served_block.
  cbn [cb_height cb_vtx]. rewrite (proj2 (Z.leb_le _ _) Hmax).
  unfold block_transparent_outputs, block_transparent_spends. split.
  - rewrite (imap_agree _ _ (λ tx, light_utxo <$> tx_outputs (fb_claimed_height block) tx)).
    + clear Htx. induction (fb_vtx block) as [|tx l IH]; [done|]. cbn. rewrite fmap_app. f_equal. apply IH.
    + intros i tx H. by apply served_outputs, Htx.
  - f_equal. apply imap_agree. intros i tx H. by apply served_spends, Htx.
Qed.
End blocks.

(** A coinbase that pays two outputs, and a transaction that spends one. *)
Definition id32 (c : ascii) : string := Nat.iter 32 (String c) "".
Definition two_tx_block : @Block nat nat nat :=
  let tx c coinbase vin vout :=
    {| tx_id := id32 c; tx_transparent := Some {| tb_is_coinbase := coinbase; tb_vin := vin; tb_vout := vout |};
       tx_sapling := None; tx_orchard := None; tx_ironwood := None |} in
  {| fb_claimed_height := 7; fb_hash := id32 "h"; fb_prev := id32 "g"; fb_time := 0;
     fb_vtx := [tx "a"%char true [(id32 "0", u32_max)] [(50, "s1"); (12, "s2")];
                tx "b"%char false [(id32 "a", 1)] [(11, "s3")]] |}.
Lemma backends_agree_witness :
  length (block_transparent_outputs two_tx_block 7) = 3%nat ∧
  lwd_transparent_spends (@served_block _ _ _ nat nat nat id id id two_tx_block (0, 0, 0)) =
    block_transparent_spends two_tx_block 7.
Proof.
  split; [reflexivity|]. refine (proj2 (backends_agree id id id two_tx_block (0, 0, 0) _)).
  split; [vm_compute; split; discriminate|].
  intros [|[|i]] tx; cbn; intros [= <-]; (split; [reflexivity|]); intros b [= <-]; (split; [reflexivity|]);
    repeat constructor.
Defined.

(** ** The buffered reader *)

Section reader.
Context {cspend coutput caction : Type} (encoded_len : @CompactBlock cspend coutput caction → Z).
Context (buffer_bytes : Z) (Hbuf : 1 ≤ buffer_bytes ≤ u32_max).
Context (stream : list (result string (@CompactBlock cspend coutput caction))).
Implicit Types r : @Reader cspend coutput caction.

Definition content (m : result string (@CompactBlock cspend coutput caction * Z)) := fst <$> m.
Definition cost_of (m : result string (@CompactBlock cspend coutput caction * Z)) : Z :=
  match m with Ok (_, cost) => cost | Err _ => 0 end.
Fixpoint buffered (l : list (result string (@CompactBlock cspend coutput caction * Z))) : Z :=
  match l with [] => 0 | m :: l => cost_of m + buffered l end.
(** What is still to be delivered, in order. *)
Definition undelivered r : list (result string (@CompactBlock cspend coutput caction)) :=
  (content <$> rd_channel r) ++ (Ok <$> option_list (rd_waiting r)) ++ (if rd_over r then [] else until_failure (rd_stream r)).
Definition costed (m : result string (@CompactBlock cspend coutput caction * Z)) : Prop :=
  match m with Ok (b, cost) => cost = block_cost encoded_len buffer_bytes b ∧ 1 ≤ cost | Err _ => True end.

Record reader_ok r : Prop := {
  ro_all : rd_taken r ++ undelivered r = until_failure stream;
  ro_bytes : buffered (rd_channel r) + rd_permits r = buffer_bytes;
  ro_permits : 0 ≤ rd_permits r;
  ro_costs : Forall costed (rd_channel r);
  ro_over : rd_over r = true → rd_waiting r = None;
}.

Lemma block_cost_range b : 1 ≤ block_cost encoded_len buffer_bytes b ≤ buffer_bytes.
Proof using Hbuf. unfold block_cost, wrap_u32. rewrite Z.mod_small; [lia|]. unfold u32_max in *. lia. Qed.
Lemma buffered_app l1 l2 : buffered (l1 ++ l2) = buffered l1 + buffered l2.
Proof. induction l1 as [|m l1 IH]; cbn; [done|]. rewrite IH. lia. Qed.

Lemma reader_start_ok : reader_ok (reader_start buffer_bytes stream).
Proof using Hbuf. split; cbn; try done; lia. Qed.
Lemma reader_step_ok r r' : reader_step encoded_len buffer_bytes r r' → reader_ok r → reader_ok r'.
Proof using Hbuf.
  intros Hstep [Hall Hbytes Hperm Hcosts Hover]. destruct r as [s w ch p over taken]. cbn in *.
  unfold undelivered in Hall; cbn in Hall. inversion Hstep as [? ? H|? ? H|? ? H]; subst; clear Hstep.
  - unfold reader_next in H. cbn in H. destruct over; [done|]. destruct w; [done|].
    destruct s as [|[b|e] s]; injection H as <-; split; unfold undelivered; cbn in *; try done;
      rewrite <- ?Hall, ?fmap_app, ?buffered_app, ?app_nil_r; cbn; rewrite <- ?(assoc_L (++)); try done; try lia.
    by apply Forall_app; split; [|constructor].
  - unfold reader_send in H. cbn in H. destruct w as [b|]; [|done].
    destruct (Z.leb_spec (block_cost encoded_len buffer_bytes b) p) as [Hc|]; [|done]. injection H as <-.
    pose proof (block_cost_range b).
    split; unfold undelivered; cbn in *; rewrite ?fmap_app, ?buffered_app; cbn; try lia; try done.
    + rewrite <- Hall, <- !(assoc_L (++)). done.
    + apply Forall_app; split; [done|]. constructor; [|done]. cbn. split; [done|lia].
  - unfold reader_take in H. cbn in H. destruct ch as [|[[b cost]|e] ch]; [done| |]; injection H as <-;
      apply Forall_cons in Hcosts as [Hc Hcosts]; cbn in Hc, Hbytes;
      split; unfold undelivered; cbn; try done; try lia; rewrite <- Hall, <- !(assoc_L (++)); done.
Qed.
Lemma reader_reachable_ok r : rtc (reader_step encoded_len buffer_bytes) (reader_start buffer_bytes stream) r → reader_ok r.
Proof using Hbuf.
  intros H. pose proof reader_start_ok as H0. induction H as [|a b c Hs _ IH]; [done|]. eauto using reader_step_ok.
Qed.

(** A bound on the steps left. *)
Definition steps_left r : nat :=
  3 * length (rd_stream r) + 2 * length (option_list (rd_waiting r)) + length (rd_channel r) + (if rd_over r then 0 else 1).
Lemma reader_progress r r' :
  reader_step encoded_len buffer_bytes r r' → (steps_left r' < steps_left r)%nat.
Proof.
  intros Hstep. destruct r as [s w ch p over taken]. unfold steps_left.
  inversion Hstep as [? ? H|? ? H|? ? H]; subst; clear Hstep.
  - unfold reader_next in H. cbn in H. destruct over; [done|]. destruct w; [done|].
    destruct s as [|[b|e] s]; injection H as <-; cbn; rewrite ?length_app; cbn; lia.
  - unfold reader_send in H. cbn in H. destruct w as [b|]; [|done]. destruct (_ <=? p); [|done].
    injection H as <-. cbn. rewrite length_app. cbn. lia.
  - unfold reader_take in H. cbn in H. destruct ch as [|[[b cost]|e] ch]; [done| |]; injection H as <-; cbn; lia.
Qed.
(** The reader never waits for permits that cannot come. *)
Lemma reader_stuck r :
  reader_ok r → (∀ r', ¬ reader_step encoded_len buffer_bytes r r') → undelivered r = [].
Proof using Hbuf.
  intros [_ Hbytes _ _ Hover] Hstuck. destruct r as [s w ch p over taken]. unfold undelivered. cbn in *.
  destruct ch as [|m ch].
  2: { exfalso. destruct m as [[b cost]|e]; by eapply Hstuck, step_take. }
  destruct w as [b|].
  { exfalso. pose proof (block_cost_range b) as [_ Hc]. eapply Hstuck, step_send. unfold reader_send. cbn.
    cbn in Hbytes. by rewrite (proj2 (Z.leb_le (block_cost encoded_len buffer_bytes b) p)) by lia. }
  destruct over; [done|]. exfalso. destruct s as [|[b|e] s]; by eapply Hstuck, step_next.
Qed.
(** The blocks in the buffer fit in it, but for one alone that is larger than all of it. *)
Definition block_bytes (m : result string (@CompactBlock cspend coutput caction * Z)) : Z :=
  match m with Ok (b, _) => encoded_len b | Err _ => 0 end.
Fixpoint channel_bytes (l : list (result string (@CompactBlock cspend coutput caction * Z))) : Z :=
  match l with [] => 0 | m :: l => block_bytes m + channel_bytes l end.
Definition channel_blocks (l : list (result string (@CompactBlock cspend coutput caction * Z))) :=
  List.filter (λ m, match m with Ok _ => true | Err _ => false end) l.
Lemma buffered_nonneg l : Forall costed l → 0 ≤ buffered l.
Proof. induction 1 as [|[[b c]|e] l Hm _ IH]; cbn in *; lia. Qed.
Lemma buffered_blocks l :
  Forall costed l → (1 ≤ buffered l ∨ channel_blocks l = []).
Proof.
  induction 1 as [|[[b c]|e] l Hm Hl IH]; cbn in *; [by right| |].
  - left. pose proof (buffered_nonneg _ Hl). lia.
  - destruct IH; [left; lia|by right].
Qed.
Lemma no_blocks_bytes l : channel_blocks l = [] → channel_bytes l = 0.
Proof. induction l as [|[[b c]|e] l IH]; cbn; [done|done|]. intros H. rewrite IH; [done|done]. Qed.
Lemma small_blocks_fit l :
  Forall costed l → Forall (λ m, block_bytes m ≤ buffer_bytes) l → channel_bytes l ≤ buffered l.
Proof using Hbuf.
  induction 1 as [|[[b c]|e] l Hm _ IH]; intros Hs; cbn; [done| |]; apply Forall_cons in Hs as [Hb Hs];
    specialize (IH Hs); [|done].
  destruct Hm as [-> _]. cbn in Hb. enough (encoded_len b ≤ block_cost encoded_len buffer_bytes b) by lia.
  unfold block_cost, wrap_u32. rewrite Z.mod_small; [lia|]. unfold u32_max in *. lia.
Qed.
Lemma buffer_fits l :
  Forall costed l → buffered l ≤ buffer_bytes →
  channel_bytes l ≤ buffer_bytes ∨ length (channel_blocks l) = 1%nat.
Proof using Hbuf.
  intros Hl Hfit. destruct (decide (Forall (λ m, block_bytes m ≤ buffer_bytes) l)) as [Hs|Hs].
  { left. pose proof (small_blocks_fit _ Hl Hs). lia. }
  right. apply not_Forall_Exists in Hs; [|apply _]. apply Exists_exists in Hs as (m & Hin & Hbig).
  apply list_elem_of_split in Hin as (l1 & l2 & ->). apply Forall_app in Hl as [H1 [Hm H2]%Forall_cons].
  destruct m as [[b c]|e]; cbn in Hbig; [|lia]. destruct Hm as [-> _].
  assert (block_cost encoded_len buffer_bytes b = buffer_bytes) as Hc.
  { unfold block_cost, wrap_u32. rewrite Z.mod_small; [lia|]. unfold u32_max in *. lia. }
  rewrite buffered_app in Hfit. cbn in Hfit. rewrite Hc in Hfit.
  pose proof (buffered_nonneg _ H1). pose proof (buffered_nonneg _ H2).
  destruct (buffered_blocks _ H1) as [|E1]; [lia|]. destruct (buffered_blocks _ H2) as [|E2]; [lia|].
  unfold channel_blocks in *. rewrite List.filter_app, E1. cbn. by rewrite E2.
Qed.

(** C35. The reader between a block stream and its slow consumer loses nothing and never blocks
    itself: at every moment the consumer has got a prefix of the stream up to its first failure, in
    order; what waits in the buffer is within its bytes, unless it is one block alone; every step
    brings the end closer, and when no step is left everything was delivered. *)
Theorem reader_delivers r :
  rtc (reader_step encoded_len buffer_bytes) (reader_start buffer_bytes stream) r →
  (∃ rest, rd_taken r ++ rest = until_failure stream) ∧
  (channel_bytes (rd_channel r) ≤ buffer_bytes ∨ length (channel_blocks (rd_channel r)) = 1%nat) ∧
  (∀ r', reader_step encoded_len buffer_bytes r r' → (steps_left r' < steps_left r)%nat) ∧
  ((∀ r', ¬ reader_step encoded_len buffer_bytes r r') → rd_taken r = until_failure stream).
Proof using Hbuf.
  intros H%reader_reachable_ok. split_and!.
  - eexists. apply (ro_all r H).
  - apply buffer_fits; [apply (ro_costs r H)|]. pose proof (ro_bytes r H). pose proof (ro_permits r H). lia.
  - intros r'. apply reader_progress.
  - intros Hstuck. pose proof (ro_all r H) as Hall. rewrite (reader_stuck r H Hstuck) in Hall.
    by rewrite app_nil_r in Hall.
Qed.
End reader.

(** A buffer of 10 bytes, blocks of 6, 6 and 25: the second waits for the first to be taken, and the
    last has the whole buffer to itself. *)
Definition block_of (n : Z) : @CompactBlock nat nat nat :=
  {| cb_height := n; cb_hash := ""; cb_prev_hash := ""; cb_time := 0; cb_vtx := []; cb_trees := (0, 0, 0) |}.
Definition sample_stream : list (result string (@CompactBlock nat nat nat)) :=
  [Ok (block_of 6); Ok (block_of 6); Ok (block_of 25)].
Definition first_sent : option (@Reader nat nat nat) :=
  r ← reader_next (reader_start 10 sample_stream); r ← reader_send cb_height 10 r; reader_next r.
Definition last_sent : option (@Reader nat nat nat) :=
  r ← first_sent; r ← reader_take r; r ← reader_send cb_height 10 r; r ← reader_take r; r ← reader_next r;
  reader_send cb_height 10 r.
Lemma reader_delivers_witness :
  (r ← first_sent; reader_send cb_height 10 r) = None ∧
  ∃ r, last_sent = Some r ∧ rd_taken r = [Ok (block_of 6); Ok (block_of 6)] ∧ channel_bytes cb_height (rd_channel r) = 25 ∧
    (∃ rest, rd_taken r ++ rest = until_failure sample_stream) ∧ rd_permits r = 0.
Proof.
  split; [reflexivity|]. eexists. split; [reflexivity|]. split; [reflexivity|]. split; [reflexivity|]. split; [|reflexivity].
  apply (reader_delivers cb_height 10 ltac:(unfold u32_max; lia) sample_stream).
  eapply rtc_l; [by apply step_next|]. eapply rtc_l; [by apply step_send|]. eapply rtc_l; [by apply step_next|].
  eapply rtc_l; [by apply step_take|]. eapply rtc_l; [by apply step_send|]. eapply rtc_l; [by apply step_take|].
  eapply rtc_l; [by apply step_next|]. eapply rtc_l; [by apply step_send|]. apply rtc_refl.
Defined.
