(* ===== verification/Settings.v ===== *)
(** * Settings: the configuration file ([src/src/config.rs], the [*File] structs)

    TOML documents as the decoder sees them, and the derived decoders of the file's sections, which
    refuse a key they do not know. The TOML text reader is the toml crate's. *)

From S2P Require Export Text.

#[warnings="-register-all"]
Inductive toml :=
  | TString (s : string) | TInteger (z : Z) | TBoolean (b : bool) | TArray (l : list toml)
  | TTable (fields : list (string * toml)) | TOther.

(** The crate: the reader of a document; the text of a string value and of an array of strings; what
    its deserializer makes of an array where a struct's table is expected; and what it says of a document it refuses. *)
Class Toml := {
  toml_parse : string → result string (list (string * toml));
  toml_string : string → string;
  toml_strings : list string → string;
  toml_seq : list string → list toml → option (list (string * toml));
  toml_refusal : list (string * toml) → string;
}.

(** ** Decoders *)

Definition t_string (v : toml) : option string := match v with TString s => Some s | _ => None end.
Definition t_bool (v : toml) : option bool := match v with TBoolean b => Some b | _ => None end.
Definition t_unsigned (max : Z) (v : toml) : option Z :=
  match v with TInteger z => if (0 <=? z) && (z <=? max) then Some z else None | _ => None end.
Definition t_u16 : toml → option Z := t_unsigned u16_max.
Definition t_u32 : toml → option Z := t_unsigned u32_max.
Definition t_u64 : toml → option Z := t_unsigned u64_max.
Definition t_usize : toml → option Z := t_unsigned usize_max.
Definition t_strings (v : toml) : option (list string) := match v with TArray l => mapM t_string l | _ => None end.

Definition lookup_key {A} (name : string) (fields : list (string * A)) : option A :=
  snd <$> List.find (λ kv, bool_decide (fst kv = name)) fields.
(** An [Option] field: absent, or present and decoded. *)
Definition opt {A} (dec : toml → option A) (name : string) (fields : list (string * toml)) : option (option A) :=
  match lookup_key name fields with None => Some None | Some v => Some <$> dec v end.

(** [#[serde(deny_unknown_fields)]]. *)
Definition deny_unknown (names : list string) (fields : list (string * toml)) : option (list (string * toml)) :=
  if forallb (λ kv, bool_decide (fst kv ∈ names)) fields then Some fields else None.
Definition section `{Toml} (names : list string) (v : toml) : option (list (string * toml)) :=
  match v with
  | TTable fields => deny_unknown names fields
  | TArray l => toml_seq names l
  | _ => None
  end.

(** ** Sections *)

Section sections.
Context `{HT : Toml}.

(** The eight settings of pools: [[pools]] and, under the name [pools] for the first, a wallet's. *)
Record PoolsFile := {
  pf_enabled : option (list string); pf_default_receivers : option (list string);
  pf_transparent : option bool; pf_transparent_default : option bool; pf_gap_limit : option Z;
  pf_initial_scan : option Z; pf_allow_beyond : option bool; pf_warn_threshold : option Z;
}.
Definition pools_keys (enabled : string) : list string :=
  [enabled; "default_receivers"; "transparent"; "transparent_default"; "transparent_gap_limit";
   "transparent_initial_scan"; "transparent_allow_beyond_recovery_window"; "transparent_gap_warn_threshold"].
Definition pools_fields (enabled : string) (f : list (string * toml)) : option PoolsFile :=
  e ← opt t_strings enabled f; r ← opt t_strings "default_receivers" f; t ← opt t_bool "transparent" f;
  d ← opt t_bool "transparent_default" f; g ← opt t_u32 "transparent_gap_limit" f;
  i ← opt t_u32 "transparent_initial_scan" f; b ← opt t_bool "transparent_allow_beyond_recovery_window" f;
  w ← opt t_u32 "transparent_gap_warn_threshold" f;
  Some {| pf_enabled := e; pf_default_receivers := r; pf_transparent := t; pf_transparent_default := d;
          pf_gap_limit := g; pf_initial_scan := i; pf_allow_beyond := b; pf_warn_threshold := w |}.
Definition t_pools (v : toml) : option PoolsFile := f ← section (pools_keys "enabled") v; pools_fields "enabled" f.

Record WalletFile := {
  wf_dir : option string; wf_keys_file : option string; wf_server : option string; wf_tls : option string;
  wf_tls_roots : option string; wf_tls_insecure_skip_verify : option bool; wf_tls_ca_file : option string;
  wf_tls_pinned_sha256 : option (list string); wf_assume_transparent : option bool; wf_pools : PoolsFile;
}.
Definition wallet_keys : list string :=
  ["dir"; "keys_file"; "server"; "tls"; "tls_roots"; "tls_insecure_skip_verify"; "tls_ca_file"; "tls_pinned_sha256";
   "assume_transparent_in_compact_blocks"] ++ pools_keys "pools".
Definition t_wallet (v : toml) : option WalletFile :=
  f ← section wallet_keys v;
  d ← opt t_string "dir" f; k ← opt t_string "keys_file" f; s ← opt t_string "server" f; t ← opt t_string "tls" f;
  r ← opt t_string "tls_roots" f; i ← opt t_bool "tls_insecure_skip_verify" f; c ← opt t_string "tls_ca_file" f;
  p ← opt t_strings "tls_pinned_sha256" f; a ← opt t_bool "assume_transparent_in_compact_blocks" f;
  q ← pools_fields "pools" f;
  Some {| wf_dir := d; wf_keys_file := k; wf_server := s; wf_tls := t; wf_tls_roots := r;
          wf_tls_insecure_skip_verify := i; wf_tls_ca_file := c; wf_tls_pinned_sha256 := p;
          wf_assume_transparent := a; wf_pools := q |}.

Record BackendFile := {
  bf_server : option string; bf_connect_timeout_secs : option Z; bf_reconnect_base_secs : option Z;
  bf_reconnect_max_secs : option Z; bf_rfc1918_is_local : option bool; bf_allow_remote_cleartext : option bool;
  bf_tls : option string; bf_tls_roots : option string; bf_tls_insecure_skip_verify : option bool;
  bf_tls_ca_file : option string; bf_tls_pinned_sha256 : option (list string); bf_assume_transparent : option bool;
  bf_proxy : option string;
}.
Definition no_backend : BackendFile :=
  {| bf_server := None; bf_connect_timeout_secs := None; bf_reconnect_base_secs := None; bf_reconnect_max_secs := None;
     bf_rfc1918_is_local := None; bf_allow_remote_cleartext := None; bf_tls := None; bf_tls_roots := None;
     bf_tls_insecure_skip_verify := None; bf_tls_ca_file := None; bf_tls_pinned_sha256 := None;
     bf_assume_transparent := None; bf_proxy := None |}.
Definition backend_keys : list string :=
  ["server"; "connect_timeout_secs"; "reconnect_base_secs"; "reconnect_max_secs"; "rfc1918_is_local";
   "allow_remote_cleartext"; "tls"; "tls_roots"; "tls_insecure_skip_verify"; "tls_ca_file"; "tls_pinned_sha256";
   "assume_transparent_in_compact_blocks"; "proxy"].
Definition t_backend (v : toml) : option BackendFile :=
  f ← section backend_keys v;
  s ← opt t_string "server" f; c ← opt t_u64 "connect_timeout_secs" f; b ← opt t_u64 "reconnect_base_secs" f;
  m ← opt t_u64 "reconnect_max_secs" f; l ← opt t_bool "rfc1918_is_local" f; r ← opt t_bool "allow_remote_cleartext" f;
  t ← opt t_string "tls" f; o ← opt t_string "tls_roots" f; i ← opt t_bool "tls_insecure_skip_verify" f;
  a ← opt t_string "tls_ca_file" f; p ← opt t_strings "tls_pinned_sha256" f;
  z ← opt t_bool "assume_transparent_in_compact_blocks" f; x ← opt t_string "proxy" f;
  Some {| bf_server := s; bf_connect_timeout_secs := c; bf_reconnect_base_secs := b; bf_reconnect_max_secs := m;
          bf_rfc1918_is_local := l; bf_allow_remote_cleartext := r; bf_tls := t; bf_tls_roots := o;
          bf_tls_insecure_skip_verify := i; bf_tls_ca_file := a; bf_tls_pinned_sha256 := p;
          bf_assume_transparent := z; bf_proxy := x |}.

Record ZebraFile := { zf_rpc_user : option string; zf_rpc_password : option string; zf_rpc_cookie : option string }.
Definition t_zebra (v : toml) : option ZebraFile :=
  f ← section ["rpc_user"; "rpc_password"; "rpc_cookie"] v;
  u ← opt t_string "rpc_user" f; p ← opt t_string "rpc_password" f; c ← opt t_string "rpc_cookie" f;
  Some {| zf_rpc_user := u; zf_rpc_password := p; zf_rpc_cookie := c |}.

Record RpcFile := {
  rf_bind : option string; rf_port : option Z; rf_user : option string; rf_password : option string;
  rf_password_file : option string; rf_auth : option (list string); rf_cookiefile : option string;
  rf_work_queue : option Z; rf_allowed_methods : option (list string); rf_allow_duplicate : option bool;
}.
Definition no_rpc : RpcFile :=
  {| rf_bind := None; rf_port := None; rf_user := None; rf_password := None; rf_password_file := None; rf_auth := None;
     rf_cookiefile := None; rf_work_queue := None; rf_allowed_methods := None; rf_allow_duplicate := None |}.
Definition rpc_keys : list string :=
  ["bind"; "port"; "user"; "password"; "password_file"; "auth"; "cookiefile"; "work_queue"; "allowed_methods";
   "allow_duplicate_shielded_recipients"].
Definition t_rpc (v : toml) : option RpcFile :=
  f ← section rpc_keys v;
  b ← opt t_string "bind" f; p ← opt t_u16 "port" f; u ← opt t_string "user" f; w ← opt t_string "password" f;
  x ← opt t_string "password_file" f; a ← opt t_strings "auth" f; c ← opt t_string "cookiefile" f;
  q ← opt t_usize "work_queue" f; m ← opt t_strings "allowed_methods" f;
  d ← opt t_bool "allow_duplicate_shielded_recipients" f;
  Some {| rf_bind := b; rf_port := p; rf_user := u; rf_password := w; rf_password_file := x; rf_auth := a;
          rf_cookiefile := c; rf_work_queue := q; rf_allowed_methods := m; rf_allow_duplicate := d |}.

Record KeysFile := {
  kf_age_identity : option string; kf_auto_unlock : option bool; kf_keys_file : option string;
  kf_bootstrap_from_keys : option bool; kf_allow_multiple : option bool;
}.
Definition no_keys : KeysFile :=
  {| kf_age_identity := None; kf_auto_unlock := None; kf_keys_file := None; kf_bootstrap_from_keys := None;
     kf_allow_multiple := None |}.
Definition t_keys (v : toml) : option KeysFile :=
  f ← section ["age_identity"; "auto_unlock"; "keys_file"; "bootstrap_from_keys"; "allow_multiple_spending_wallets"] v;
  i ← opt t_string "age_identity" f; a ← opt t_bool "auto_unlock" f; k ← opt t_string "keys_file" f;
  b ← opt t_bool "bootstrap_from_keys" f; m ← opt t_bool "allow_multiple_spending_wallets" f;
  Some {| kf_age_identity := i; kf_auto_unlock := a; kf_keys_file := k; kf_bootstrap_from_keys := b; kf_allow_multiple := m |}.

Record SyncFile := {
  yf_interval_secs : option Z; yf_rebroadcast_secs : option Z; yf_fetch_memos : option bool; yf_batch_size : option Z;
  yf_writer_cache_mib : option Z; yf_enhance_concurrency : option Z;
}.
Definition no_sync : SyncFile :=
  {| yf_interval_secs := None; yf_rebroadcast_secs := None; yf_fetch_memos := None; yf_batch_size := None;
     yf_writer_cache_mib := None; yf_enhance_concurrency := None |}.
Definition t_sync (v : toml) : option SyncFile :=
  f ← section ["interval_secs"; "rebroadcast_secs"; "fetch_memos"; "batch_size"; "writer_cache_mib"; "enhance_concurrency"] v;
  i ← opt t_u64 "interval_secs" f; r ← opt t_u64 "rebroadcast_secs" f; m ← opt t_bool "fetch_memos" f;
  b ← opt t_u32 "batch_size" f; w ← opt t_u32 "writer_cache_mib" f; e ← opt t_usize "enhance_concurrency" f;
  Some {| yf_interval_secs := i; yf_rebroadcast_secs := r; yf_fetch_memos := m; yf_batch_size := b;
          yf_writer_cache_mib := w; yf_enhance_concurrency := e |}.

Record SpendFile := {
  sf_trusted_confirmations : option Z; sf_untrusted_confirmations : option Z; sf_trust_own_transactions : option bool;
  sf_privacy_policy : option string; sf_orchard_action_limit : option Z; sf_max_tx_bytes : option Z;
  sf_cache_proving_key : option bool; sf_pipeline_proving : option bool; sf_target_note_count : option Z;
  sf_min_split_output_value : option Z; sf_shutdown_drain_secs : option Z; sf_max_send_catchup_blocks : option Z;
}.
Definition no_spend : SpendFile :=
  {| sf_trusted_confirmations := None; sf_untrusted_confirmations := None; sf_trust_own_transactions := None;
     sf_privacy_policy := None; sf_orchard_action_limit := None; sf_max_tx_bytes := None; sf_cache_proving_key := None;
     sf_pipeline_proving := None; sf_target_note_count := None; sf_min_split_output_value := None;
     sf_shutdown_drain_secs := None; sf_max_send_catchup_blocks := None |}.
Definition spend_keys : list string :=
  ["trusted_confirmations"; "untrusted_confirmations"; "trust_own_transactions"; "privacy_policy"; "orchard_action_limit";
   "max_tx_bytes"; "cache_proving_key"; "pipeline_proving"; "target_note_count"; "min_split_output_value";
   "shutdown_drain_secs"; "max_send_catchup_blocks"].
Definition t_spend (v : toml) : option SpendFile :=
  f ← section spend_keys v;
  a ← opt t_u32 "trusted_confirmations" f; b ← opt t_u32 "untrusted_confirmations" f;
  c ← opt t_bool "trust_own_transactions" f; d ← opt t_string "privacy_policy" f; e ← opt t_usize "orchard_action_limit" f;
  g ← opt t_usize "max_tx_bytes" f; h ← opt t_bool "cache_proving_key" f; i ← opt t_bool "pipeline_proving" f;
  j ← opt t_usize "target_note_count" f; k ← opt t_u64 "min_split_output_value" f; l ← opt t_u64 "shutdown_drain_secs" f;
  m ← opt t_u32 "max_send_catchup_blocks" f;
  Some {| sf_trusted_confirmations := a; sf_untrusted_confirmations := b; sf_trust_own_transactions := c;
          sf_privacy_policy := d; sf_orchard_action_limit := e; sf_max_tx_bytes := g; sf_cache_proving_key := h;
          sf_pipeline_proving := i; sf_target_note_count := j; sf_min_split_output_value := k;
          sf_shutdown_drain_secs := l; sf_max_send_catchup_blocks := m |}.

Record HealthFile := {
  hf_enabled : option bool; hf_bind : option string; hf_port : option Z; hf_readiness : option string;
  hf_max_scan_lag : option Z;
}.
Definition no_health : HealthFile :=
  {| hf_enabled := None; hf_bind := None; hf_port := None; hf_readiness := None; hf_max_scan_lag := None |}.
Definition t_health (v : toml) : option HealthFile :=
  f ← section ["enabled"; "bind"; "port"; "readiness"; "max_scan_lag"] v;
  e ← opt t_bool "enabled" f; b ← opt t_string "bind" f; p ← opt t_u16 "port" f; r ← opt t_string "readiness" f;
  m ← opt t_u32 "max_scan_lag" f;
  Some {| hf_enabled := e; hf_bind := b; hf_port := p; hf_readiness := r; hf_max_scan_lag := m |}.

Record LogFile := { lf_level : option string; lf_format : option string }.
Definition no_log : LogFile := {| lf_level := None; lf_format := None |}.
Definition t_log (v : toml) : option LogFile :=
  f ← section ["level"; "format"] v; l ← opt t_string "level" f; m ← opt t_string "format" f;
  Some {| lf_level := l; lf_format := m |}.

Record FleetFile := {
  ff_enabled : option bool; ff_manifest_dir : option string; ff_dir : option string; ff_shard_size : option Z;
  ff_cohort_depth : option Z;
}.
Definition no_fleet : FleetFile :=
  {| ff_enabled := None; ff_manifest_dir := None; ff_dir := None; ff_shard_size := None; ff_cohort_depth := None |}.
Definition t_fleet (v : toml) : option FleetFile :=
  f ← section ["enabled"; "manifest_dir"; "dir"; "shard_size"; "cohort_depth"] v;
  e ← opt t_bool "enabled" f; m ← opt t_string "manifest_dir" f; d ← opt t_string "dir" f;
  s ← opt t_usize "shard_size" f; c ← opt t_u32 "cohort_depth" f;
  Some {| ff_enabled := e; ff_manifest_dir := m; ff_dir := d; ff_shard_size := s; ff_cohort_depth := c |}.

(** *** A map in key order ([BTreeMap]) *)

(** Byte order. *)
Definition key_lt (a b : string) : bool := String.leb a b && negb (bool_decide (a = b)).
Fixpoint bt_insert {A} (k : string) (v : A) (m : list (string * A)) : list (string * A) :=
  match m with
  | [] => [(k, v)]
  | (k', v') :: rest =>
      if key_lt k k' then (k, v) :: m
      else if bool_decide (k = k') then (k, v) :: rest
      else (k', v') :: bt_insert k v rest
  end.
Definition bt_of {A} (l : list (string * A)) : list (string * A) := foldl (λ m kv, bt_insert (fst kv) (snd kv) m) [] l.

(** *** The file *)

Record ConfigFile := {
  cf_network : option string; cf_datadir : option string; cf_default_wallet : option string;
  cf_wallets : list (string * WalletFile); cf_backend : option BackendFile; cf_zebra : option ZebraFile;
  cf_rpc : option RpcFile; cf_keys : option KeysFile; cf_sync : option SyncFile; cf_spend : option SpendFile;
  cf_pools : option PoolsFile; cf_health : option HealthFile; cf_log : option LogFile; cf_fleet : option FleetFile;
}.
Definition config_default : ConfigFile :=
  {| cf_network := None; cf_datadir := None; cf_default_wallet := None; cf_wallets := []; cf_backend := None;
     cf_zebra := None; cf_rpc := None; cf_keys := None; cf_sync := None; cf_spend := None; cf_pools := None;
     cf_health := None; cf_log := None; cf_fleet := None |}.
Definition t_wallets (v : toml) : option (list (string * WalletFile)) :=
  match v with
  | TTable fields => bt_of <$> mapM (λ kv, w ← t_wallet (snd kv); Some (fst kv, w)) fields
  | _ => None
  end.
Definition config_keys : list string :=
  ["network"; "datadir"; "default_wallet"; "wallets"; "backend"; "zebra"; "rpc"; "keys"; "sync"; "spend"; "pools";
   "health"; "log"; "fleet"].
Definition t_config (fields : list (string * toml)) : option ConfigFile :=
  f ← deny_unknown config_keys fields;
  n ← opt t_string "network" f; d ← opt t_string "datadir" f; w ← opt t_string "default_wallet" f;
  ws ← opt t_wallets "wallets" f; b ← opt t_backend "backend" f; z ← opt t_zebra "zebra" f; r ← opt t_rpc "rpc" f;
  k ← opt t_keys "keys" f; y ← opt t_sync "sync" f; s ← opt t_spend "spend" f; p ← opt t_pools "pools" f;
  h ← opt t_health "health" f; l ← opt t_log "log" f; t ← opt t_fleet "fleet" f;
  Some {| cf_network := n; cf_datadir := d; cf_default_wallet := w; cf_wallets := default [] ws; cf_backend := b;
          cf_zebra := z; cf_rpc := r; cf_keys := k; cf_sync := y; cf_spend := s; cf_pools := p; cf_health := h;
          cf_log := l; cf_fleet := t |}.
(** [toml::from_str]. *)
Definition from_str (text : string) : result string ConfigFile :=
  doc ← toml_parse text; ok_or (t_config doc) (toml_refusal doc).
End sections.
