(* ===== verification/Config.v ===== *)
(** * Config: the effective configuration ([src/src/config.rs])

    The command line, the environment, the file and the defaults resolved into one configuration;
    its start-up refusals; and what a reload changes in a running daemon. Reading a file is an
    input; a [ConfirmationsPolicy] is the library's. *)

From S2P Require Export Settings.
From S2P Require Export Endpoint.
From S2P Require Import Pools Network Spend Health Fleet Amount.
From S2P Require Auth Rpc Engine.

(** ** Paths *)

Definition slash : ascii := "/"%char.
Definition is_absolute (p : string) : bool := starts_with "/" p.
Fixpoint ends_with_slash (p : string) : bool :=
  match p with "" => false | String c "" => bool_decide (c = slash) | String _ p => ends_with_slash p end.
(** [Path::join]. *)
Definition path_join (base p : string) : string :=
  if is_absolute p then p
  else if bool_decide (base = "") || ends_with_slash base then base +:+ p
  else base +:+ "/" +:+ p.
Fixpoint split_slash (acc : string) (p : string) : list string :=
  match p with
  | "" => [acc]
  | String c p => if bool_decide (c = slash) then acc :: split_slash "" p else split_slash (acc +:+ String c "") p
  end.
(** [Path::components]: repeated separators and [.] count for nothing but a leading [.]. *)
Definition path_components (p : string) : list string :=
  let parts := split_slash "" p in
  (if is_absolute p then ["/"] else match parts with "." :: _ => ["."] | _ => [] end)
  ++ List.filter (λ c, negb (bool_decide (c = "")) && negb (bool_decide (c = "."))) parts.
Fixpoint is_prefix (l1 l2 : list string) : bool :=
  match l1, l2 with
  | [], _ => true
  | a :: l1, b :: l2 => bool_decide (a = b) && is_prefix l1 l2
  | _, [] => false
  end.
(** [Path::starts_with]. *)
Definition path_starts_with (p base : string) : bool := is_prefix (path_components base) (path_components p).

Definition wallet_dir (datadir name : string) : string := path_join datadir name.
Definition coin_dir (parent : string) (coin : Coin) : string := path_join parent (coin_data_dir coin).
Definition DEFAULT_FLEET_ROOT : string := "fleet".
Definition DEFAULT_FLEET_MANIFEST_DIR : string := "wallets.d".
Definition DEFAULT_FLEET_SHARD_DIR : string := "shards".
Definition fleet_root (datadir : string) : string := path_join datadir DEFAULT_FLEET_ROOT.
Definition fleet_coin_dir (datadir : string) (coin : Coin) : string := coin_dir (fleet_root datadir) coin.
Definition fleet_manifest_dir (datadir : string) (coin : Coin) : string :=
  path_join (fleet_coin_dir datadir coin) DEFAULT_FLEET_MANIFEST_DIR.
Definition fleet_dir (datadir : string) (coin : Coin) : string :=
  path_join (fleet_coin_dir datadir coin) DEFAULT_FLEET_SHARD_DIR.
Definition engine_dir (wallet_dir : string) (coin : Coin) : string :=
  path_join (coin_dir wallet_dir coin) (coin_engine_dir coin).

(** ** The configuration *)

Record BinaryDefaults := {
  bd_conf_file : string; bd_datadir : string; bd_datadir_env : string; bd_rpc_port_main : Z; bd_rpc_port_test : Z;
  bd_health_port : Z;
}.
Definition ZECD_DEFAULTS : BinaryDefaults :=
  {| bd_conf_file := "zecd.toml"; bd_datadir := "./zecd-data"; bd_datadir_env := "ZECD_DATADIR";
     bd_rpc_port_main := 8232; bd_rpc_port_test := 18232; bd_health_port := 9233 |}.

(** What the command line overrides. *)
Record ConfigOverrides := {
  co_conf : option string; co_datadir : option string; co_testnet : bool; co_regtest : bool; co_network : option string;
  co_rpc_bind : option string; co_rpc_port : option Z; co_rpc_user : option string; co_rpc_password : option string;
  co_rpc_auth : list string; co_server : option string; co_proxy : option string; co_age_identity : option string;
  co_keys_file : option string;
}.
Definition no_overrides : ConfigOverrides :=
  {| co_conf := None; co_datadir := None; co_testnet := false; co_regtest := false; co_network := None;
     co_rpc_bind := None; co_rpc_port := None; co_rpc_user := None; co_rpc_password := None; co_rpc_auth := [];
     co_server := None; co_proxy := None; co_age_identity := None; co_keys_file := None |}.

(** The pool settings, global or a wallet's. *)
Record PoolsConfig := {
  pc_enabled : ReceiverSet; pc_default_receivers : ReceiverSet; pc_transparent_enabled : bool;
  pc_transparent_default : bool; pc_gap_limit : Z; pc_initial_scan : Z; pc_allow_beyond : bool; pc_warn_threshold : Z;
}.
(** A wallet: where it lives, its chain, its endpoint's overrides, its pool settings. *)
Record WalletEntry := {
  we_dir : string; we_keys_file : option string; we_coin : Coin; we_chain : CoinNetwork;
  we_backend : WalletBackendOverride; we_pools : PoolsConfig;
}.
Definition zcash_network (w : WalletEntry) : ZNetwork := match we_chain w with CN_Zcash n => n end.
Definition entry_engine_dir (w : WalletEntry) : string := engine_dir (we_dir w) (we_coin w).
Definition entry_keys_path (w : WalletEntry) : string := default (path_join (we_dir w) "keys.toml") (we_keys_file w).

(** The RPC settings: the credentials, and the rest. *)
Record RpcSettings := {
  rs_bind : IpAddr; rs_port : Z; rs_credentials : Auth.RpcConfig; rs_work_queue : Z; rs_allowed_methods : list string;
  rs_allow_duplicate : bool;
}.
Record KeysConfig := {
  kc_age_identity : option string; kc_auto_unlock : bool; kc_bootstrap_from_keys : bool; kc_allow_multiple : bool;
}.
Record SyncConfig := {
  yc_interval_secs : Z; yc_rebroadcast_secs : Z; yc_fetch_memos : bool; yc_batch_size : Z; yc_writer_cache_mib : Z;
  yc_enhance_concurrency : Z;
}.
Record SpendConfig := {
  sc_trusted_confirmations : Z; sc_untrusted_confirmations : Z; sc_trust_own_transactions : bool; sc_privacy : SendPrivacy;
  sc_orchard_action_limit : Z; sc_max_tx_bytes : Z; sc_cache_proving_key : bool; sc_pipeline_proving : bool;
  sc_target_note_count : Z; sc_min_split_output_value : Z; sc_shutdown_drain_secs : Z; sc_max_send_catchup_blocks : Z;
}.
Record HealthSettings := {
  hs_enabled : bool; hs_bind : IpAddr; hs_port : Z; hs_readiness : ReadinessMode; hs_max_scan_lag : Z;
}.
Record LogConfig := { lc_level : string; lc_format : string }.
Record AppConfig := {
  ac_network : ZNetwork; ac_datadir : string; ac_default_wallet : string; ac_wallets : list (string * WalletEntry);
  ac_backend : BackendConfig; ac_zebra : ZebraAuth; ac_rpc : RpcSettings; ac_keys : KeysConfig; ac_sync : SyncConfig;
  ac_spend : SpendConfig; ac_pools : PoolsConfig; ac_health : HealthSettings; ac_log : LogConfig; ac_fleet : FleetConfig;
}.

Definition DEFAULT_FLEET_SHARD_SIZE : Z := 128.
Definition DEFAULT_FLEET_COHORT_DEPTH : Z := 10000.
Definition DEFAULT_TRANSPARENT_ALLOW_BEYOND : bool := true.
Definition DEFAULT_TRANSPARENT_GAP_WARN_THRESHOLD : Z := 5.
Definition DEFAULT_ENHANCE_CONCURRENCY : Z := 16.
Definition DEFAULT_WRITER_CACHE_MIB : Z := 256.
Definition DEFAULT_ORCHARD_ACTION_LIMIT : Z := 50.
Definition DEFAULT_MAX_TX_BYTES : Z := 250000.
Definition DEFAULT_TARGET_NOTE_COUNT : Z := 4.
Definition DEFAULT_MIN_SPLIT_OUTPUT_VALUE : Z := 10000000.
Definition DEFAULT_SHUTDOWN_DRAIN_SECS : Z := 60.
Definition DEFAULT_MAX_SEND_CATCHUP_BLOCKS : Z := 100.

(** ** Resolution *)

(** A refusal, with its causes; or the start-up panic of a regtest chain. *)
Inductive failure := Bail (text : string) | Panics (p : RegtestPanic).
Definition bail {A} (r : result string A) : result failure A := map_err Bail r.
(** [with_context]. *)
Definition with_context {A} (context : string) (r : result string A) : result failure A :=
  map_err (λ e, Bail (context +:+ ": " +:+ e)) r.

Definition set_error_text (e : ReceiverSetError) : string :=
  match e with
  | TransparentNotShielded =>
      "transparent is not a shielded pool; enable transparent receiving via the [pools] transparent flag, not as a pool/receiver"
  | NoShieldedPool => "at least one shielded pool is required"
  | BadToken e => parse_error_display quoted e
  end.
Definition parse_receivers (tokens : list string) : result string ReceiverSet :=
  map_err set_error_text (receiver_set_parse tokens).

Definition validate_transparent_flags (ctx : string) (enabled dflt : bool) (gap_limit : Z) : result failure () :=
  if dflt && negb enabled then
    Err (Bail (ctx +:+ " transparent_default = true requires transparent = true (transparent receiving must be enabled to default to it)"))
  else if gap_limit =? 0 then Err (Bail (ctx +:+ " transparent_gap_limit must be at least 1"))
  else Ok tt.
Definition receivers_not_subset (ctx : string) (receivers enabled : ReceiverSet) : failure :=
  Bail (ctx +:+ " default_receivers (" +:+ display_names receivers +:+ ") must be a subset of enabled pools ("
        +:+ display_names enabled +:+ ")").

Definition resolve_global_pools (file : option PoolsFile) : result failure PoolsConfig :=
  enabled ← match file ≫= pf_enabled with
            | Some tokens => with_context "[pools] enabled" (parse_receivers tokens)
            | None => Ok (single Orchard)
            end;
  receivers ← match file ≫= pf_default_receivers with
              | Some tokens => with_context "[pools] default_receivers" (parse_receivers tokens)
              | None => Ok enabled
              end;
  if negb (is_subset_of receivers enabled) then Err (receivers_not_subset "[pools]" receivers enabled)
  else
    let transparent := default false (file ≫= pf_transparent) in
    let dflt := default false (file ≫= pf_transparent_default) in
    let gap_limit := default DEFAULT_TRANSPARENT_GAP_LIMIT (file ≫= pf_gap_limit) in
    _ ← validate_transparent_flags "[pools]" transparent dflt gap_limit;
    Ok {| pc_enabled := enabled; pc_default_receivers := receivers; pc_transparent_enabled := transparent;
          pc_transparent_default := dflt; pc_gap_limit := gap_limit;
          pc_initial_scan := default 0 (file ≫= pf_initial_scan);
          pc_allow_beyond := default DEFAULT_TRANSPARENT_ALLOW_BEYOND (file ≫= pf_allow_beyond);
          pc_warn_threshold := default DEFAULT_TRANSPARENT_GAP_WARN_THRESHOLD (file ≫= pf_warn_threshold) |}.

Definition wallet_ctx (name : string) : string := "[wallets." +:+ name +:+ "]".
Definition resolve_wallet_pools (name : string) (file : PoolsFile) (global : PoolsConfig) : result failure PoolsConfig :=
  let ctx := wallet_ctx name in
  enabled ← match pf_enabled file with
            | Some tokens => with_context (ctx +:+ " pools") (parse_receivers tokens)
            | None => Ok (pc_enabled global)
            end;
  receivers ← match pf_default_receivers file, pf_enabled file with
              | Some tokens, _ => with_context (ctx +:+ " default_receivers") (parse_receivers tokens)
              | None, Some _ => Ok enabled
              | None, None => Ok (pc_default_receivers global)
              end;
  if negb (is_subset_of receivers enabled) then Err (receivers_not_subset ctx receivers enabled)
  else
    let transparent := default (pc_transparent_enabled global) (pf_transparent file) in
    let dflt := default (pc_transparent_default global) (pf_transparent_default file) in
    let gap_limit := default (pc_gap_limit global) (pf_gap_limit file) in
    _ ← validate_transparent_flags ctx transparent dflt gap_limit;
    Ok {| pc_enabled := enabled; pc_default_receivers := receivers; pc_transparent_enabled := transparent;
          pc_transparent_default := dflt; pc_gap_limit := gap_limit;
          pc_initial_scan := default (pc_initial_scan global) (pf_initial_scan file);
          pc_allow_beyond := default (pc_allow_beyond global) (pf_allow_beyond file);
          pc_warn_threshold := default (pc_warn_threshold global) (pf_warn_threshold file) |}.

(** An optional setting, parsed under a context. *)
Definition parse_opt {A} (context : string) (parse : string → result string A) (o : option string) : result failure (option A) :=
  match o with Some s => Some <$> with_context context (parse s) | None => Ok None end.

Definition select_server_token (cli_server file_server : option string) : string :=
  default DEFAULT_SERVER (option_or cli_server file_server).

(** A secret file's last line ends are not part of the secret. *)
Fixpoint trim_line_ends (s : string) : string :=
  match s with
  | "" => ""
  | String c rest =>
      let t := trim_line_ends rest in
      if bool_decide (t = "") && ((byte_of c =? 10) || (byte_of c =? 13)) then "" else String c t
  end.

Definition validate_backend_tls (b : BackendConfig) : result string () :=
  let authenticating := is_some (bk_tls_ca_pem b) || negb (bool_decide (bk_tls_pins b = [])) in
  if authenticating && bk_tls_insecure_skip_verify b then
    Err ("[backend] tls_insecure_skip_verify = true cannot be combined with tls_pinned_sha256/tls_ca_file: it disables "
         +:+ "the very check they configure. Remove tls_insecure_skip_verify - a pin authenticates a self-signed "
         +:+ "certificate without giving up verification")
  else if authenticating && bool_decide (bk_tls b = Some false) then
    Err ("[backend] tls_pinned_sha256/tls_ca_file require TLS, but tls = " +:+ quoted "no" +:+ " forces a plaintext "
         +:+ "connection where neither can be checked")
  else if authenticating && starts_with "http://" (bk_server b) then
    Err ("[backend] tls_pinned_sha256/tls_ca_file require TLS, but the http:// server token forces a plaintext "
         +:+ "connection where neither can be checked; use https://")
  else Ok tt.

(** The first wallet whose directory holds one of the fleet's or is held by it. *)
Definition overlaps (fleet_path dir : string) : bool := path_starts_with fleet_path dir || path_starts_with dir fleet_path.
Fixpoint fleet_path_conflict (wallets : list (string * WalletEntry)) (fleet : FleetConfig) :
    option (string * string * string) :=
  match wallets with
  | [] => None
  | (name, entry) :: wallets =>
      match List.find (λ p, overlaps p (we_dir entry)) [fc_manifest_dir fleet; fc_dir fleet] with
      | Some p => Some (name, we_dir entry, p)
      | None => fleet_path_conflict wallets fleet
      end
  end.

Section resolve.
(** The environment; whether a file exists, and what reading it gives; and whether the library takes
    a pair of confirmation counts, and the hex crate. *)
Context `{HT : Toml} (env : string → option string) (exists_ : string → bool) (read : string → result string string).
Context (policy_ok : Z → Z → bool) (hex : string → result string string).

Definition parse_pins (pins : list string) : result string (list string) := mapM (fingerprint_parse hex) pins.

Definition read_secret_file (path : string) : result failure string :=
  trim_line_ends <$> with_context ("reading secret file " +:+ path) (read path).

Definition resolve_wallet_backend (name : string) (w : WalletFile) : result failure WalletBackendOverride :=
  let ctx := wallet_ctx name in
  tls ← parse_opt (ctx +:+ " tls") parse_tls_mode (wf_tls w);
  roots ← parse_opt (ctx +:+ " tls_roots") tls_roots_parse (wf_tls_roots w);
  ca ← match wf_tls_ca_file w with
       | Some path => Some <$> with_context ("reading " +:+ ctx +:+ " tls_ca_file " +:+ path) (read path)
       | None => Ok None
       end;
  pins ← match wf_tls_pinned_sha256 w with
         | Some pins => Some <$> with_context (ctx +:+ " tls_pinned_sha256") (parse_pins pins)
         | None => Ok None
         end;
  Ok {| wo_server := wf_server w; wo_tls := tls; wo_tls_roots := roots;
        wo_tls_insecure_skip_verify := wf_tls_insecure_skip_verify w; wo_tls_ca_pem := ca;
        wo_tls_ca_file := wf_tls_ca_file w; wo_tls_pins := pins; wo_assume_transparent := wf_assume_transparent w |}.

(** *** Its parts *)

Definition cli_datadir (cli : ConfigOverrides) (d : BinaryDefaults) : option string :=
  option_or (co_datadir cli) (env (bd_datadir_env d)).
Definition conf_path_overrides_with (cli : ConfigOverrides) (d : BinaryDefaults) : string :=
  default (path_join (default (bd_datadir d) (cli_datadir cli d)) (bd_conf_file d)) (co_conf cli).
Definition read_config (path : string) : result failure ConfigFile :=
  if exists_ path then
    text ← with_context ("reading config " +:+ path) (read path);
    with_context ("parsing config " +:+ path) (from_str text)
  else Ok config_default.

Definition parse_network (s : string) : result failure ZNetwork :=
  match network_parse env s with
  | None => Err (Bail ("unsupported network: " +:+ trim s))
  | Some r => map_err Panics r
  end.
Definition resolve_network (cli : ConfigOverrides) (file : ConfigFile) : result failure ZNetwork :=
  if co_regtest cli then map_err Panics (regtest env)
  else if co_testnet cli then Ok Test
  else match option_or (co_network cli) (cf_network file) with
       | Some n => parse_network n
       | None => Ok Test
       end.

Definition resolve_wallet (datadir : string) (network : ZNetwork) (pools : PoolsConfig) (default_wallet : string)
    (keys_file_global : option string) (name : string) (w : WalletFile) : result failure WalletEntry :=
  let keys_file := option_or (wf_keys_file w) (if bool_decide (name = default_wallet) then keys_file_global else None) in
  backend ← resolve_wallet_backend name w;
  resolved ← resolve_wallet_pools name (wf_pools w) pools;
  Ok {| we_dir := default (wallet_dir datadir name) (wf_dir w); we_keys_file := keys_file; we_coin := Zcash;
        we_chain := coin_chain Zcash network; we_backend := backend; we_pools := resolved |}.
Definition no_override : WalletBackendOverride :=
  {| wo_server := None; wo_tls := None; wo_tls_roots := None; wo_tls_insecure_skip_verify := None; wo_tls_ca_pem := None;
     wo_tls_ca_file := None; wo_tls_pins := None; wo_assume_transparent := None |}.
(** The wallets of the file in name order, and the default one if it is not among them. *)
Definition resolve_wallets (datadir : string) (network : ZNetwork) (pools : PoolsConfig) (default_wallet : string)
    (keys_file_global : option string) (file : list (string * WalletFile)) : result failure (list (string * WalletEntry)) :=
  wallets ← mapM (λ kv, e ← resolve_wallet datadir network pools default_wallet keys_file_global (fst kv) (snd kv);
                        Ok (fst kv, e)) file;
  Ok (match lookup_key default_wallet wallets with
      | Some _ => wallets
      | None =>
          bt_insert default_wallet
            {| we_dir := wallet_dir datadir default_wallet; we_keys_file := keys_file_global; we_coin := Zcash;
               we_chain := coin_chain Zcash network; we_backend := no_override; we_pools := pools |} wallets
      end).

Definition resolve_backend (cli : ConfigOverrides) (b : BackendFile) : result failure BackendConfig :=
  let base := Z.max (default 1 (bf_reconnect_base_secs b)) 1 in
  tls ← match bf_tls b with Some m => with_context "[backend] tls" (parse_tls_mode m) | None => Ok None end;
  roots ← match bf_tls_roots b with
          | Some r => with_context "[backend] tls_roots" (tls_roots_parse r)
          | None => Ok Native
          end;
  ca ← match bf_tls_ca_file b with
       | Some path => Some <$> with_context ("reading [backend] tls_ca_file " +:+ path) (read path)
       | None => Ok None
       end;
  pins ← with_context "[backend] tls_pinned_sha256" (parse_pins (default [] (bf_tls_pinned_sha256 b)));
  proxy ← parse_opt "[backend] proxy" socks_parse (option_or (co_proxy cli) (bf_proxy b));
  Ok {| bk_server := select_server_token (co_server cli) (bf_server b); bk_tls := tls; bk_tls_roots := roots;
        bk_tls_insecure_skip_verify := default false (bf_tls_insecure_skip_verify b); bk_tls_ca_pem := ca;
        bk_tls_ca_file := bf_tls_ca_file b; bk_tls_pins := pins;
        bk_assume_transparent := default false (bf_assume_transparent b);
        bk_connect_timeout_secs := Z.max (default 10 (bf_connect_timeout_secs b)) 1; bk_reconnect_base_secs := base;
        bk_reconnect_max_secs := Z.max (default 60 (bf_reconnect_max_secs b)) base;
        bk_rfc1918_is_local := default true (bf_rfc1918_is_local b);
        bk_allow_remote_cleartext := default false (bf_allow_remote_cleartext b); bk_proxy := proxy |}.
(** Every wallet that overrides the endpoint, against its effective settings. *)
Fixpoint validate_overrides (g : BackendConfig) (wallets : list (string * WalletEntry)) : result failure () :=
  match wallets with
  | [] => Ok tt
  | (name, entry) :: wallets =>
      _ ← if override_is_empty (we_backend entry) then Ok tt
          else with_context (wallet_ctx name) (validate_backend_tls (effective (we_backend entry) g));
      validate_overrides g wallets
  end.

Definition parse_bind (context : string) (s : string) : result failure IpAddr :=
  with_context context (ok_or (parse_ip s) "invalid IP address syntax").
Definition unknown_method (m : string) : failure :=
  Bail ("[rpc] allowed_methods contains unknown method " +:+ quoted m
        +:+ "; it is not an RPC method this build implements (see the example config for the full list)").
Definition resolve_rpc (cli : ConfigOverrides) (d : BinaryDefaults) (datadir : string) (network : ZNetwork) (r : RpcFile) :
    result failure RpcSettings :=
  from_file ← match rf_password_file r with Some path => Some <$> read_secret_file path | None => Ok None end;
  let allowed := default [] (rf_allowed_methods r) in
  _ ← match List.find (λ m, negb (Rpc.is_known_method m)) allowed with
      | Some m => Err (unknown_method m)
      | None => Ok tt
      end;
  bind ← parse_bind "parsing rpc bind address" (default "127.0.0.1" (option_or (co_rpc_bind cli) (rf_bind r)));
  Ok {| rs_bind := bind;
        rs_port := default (match network with Main => bd_rpc_port_main d | Test | Regtest _ => bd_rpc_port_test d end)
                     (option_or (co_rpc_port cli) (rf_port r));
        rs_credentials :=
          {| Auth.rc_user := option_or (co_rpc_user cli) (rf_user r);
             Auth.rc_password := option_or (option_or (co_rpc_password cli) from_file) (rf_password r);
             Auth.rc_auth := co_rpc_auth cli ++ default [] (rf_auth r);
             Auth.rc_cookiefile := option_or (rf_cookiefile r) (Some (path_join datadir ".cookie")) |};
        rs_work_queue := Z.max (default 100 (rf_work_queue r)) 1; rs_allowed_methods := allowed;
        rs_allow_duplicate := default false (rf_allow_duplicate r) |}.

Definition resolve_keys (cli : ConfigOverrides) (datadir : string) (k : KeysFile) : KeysConfig :=
  {| kc_age_identity := option_or (option_or (co_age_identity cli) (kf_age_identity k))
                          (Some (path_join datadir "identity.txt"));
     kc_auto_unlock := default true (kf_auto_unlock k); kc_bootstrap_from_keys := default true (kf_bootstrap_from_keys k);
     kc_allow_multiple := default false (kf_allow_multiple k) |}.
Definition resolve_sync (y : SyncFile) : SyncConfig :=
  {| yc_interval_secs := Z.max (default 20 (yf_interval_secs y)) 1;
     yc_rebroadcast_secs := Z.max (default 60 (yf_rebroadcast_secs y)) 1;
     yc_fetch_memos := default true (yf_fetch_memos y);
     yc_batch_size := Z.max (default Engine.DEFAULT_BATCH_SIZE (yf_batch_size y)) 1;
     yc_writer_cache_mib := Z.max (default DEFAULT_WRITER_CACHE_MIB (yf_writer_cache_mib y)) 1;
     yc_enhance_concurrency := Z.max (default DEFAULT_ENHANCE_CONCURRENCY (yf_enhance_concurrency y)) 1 |}.

Definition confirmations_policy (s : SpendConfig) : result failure () :=
  if policy_ok (Z.max (sc_trusted_confirmations s) 1) (Z.max (sc_untrusted_confirmations s) 1) then Ok tt
  else Err (Bail ("[spend] trusted_confirmations (" +:+ dec (sc_trusted_confirmations s)
                  +:+ ") must not exceed untrusted_confirmations (" +:+ dec (sc_untrusted_confirmations s) +:+ ")")).
Definition validate_change_splitting (s : SpendConfig) : result failure () :=
  if sc_target_note_count s =? 0 then
    Err (Bail "[spend] target_note_count must be at least 1 (it is the number of notes a send aims to leave the wallet holding)")
  else if MAX_MONEY <? sc_min_split_output_value s then
    Err (Bail ("[spend] min_split_output_value = " +:+ dec (sc_min_split_output_value s) +:+ " is not a valid amount of zatoshis"))
  else Ok tt.
Definition resolve_spend (s : SpendFile) : result failure SpendConfig :=
  privacy ← match sf_privacy_policy s with Some p => bail (privacy_parse p) | None => Ok AllowRevealedRecipients end;
  let spend :=
    {| sc_trusted_confirmations := default 3 (sf_trusted_confirmations s);
       sc_untrusted_confirmations := default 10 (sf_untrusted_confirmations s);
       sc_trust_own_transactions := default true (sf_trust_own_transactions s); sc_privacy := privacy;
       sc_orchard_action_limit := default DEFAULT_ORCHARD_ACTION_LIMIT (sf_orchard_action_limit s);
       sc_max_tx_bytes := default DEFAULT_MAX_TX_BYTES (sf_max_tx_bytes s);
       sc_cache_proving_key := default true (sf_cache_proving_key s);
       sc_pipeline_proving := default false (sf_pipeline_proving s);
       sc_target_note_count := default DEFAULT_TARGET_NOTE_COUNT (sf_target_note_count s);
       sc_min_split_output_value := default DEFAULT_MIN_SPLIT_OUTPUT_VALUE (sf_min_split_output_value s);
       sc_shutdown_drain_secs := default DEFAULT_SHUTDOWN_DRAIN_SECS (sf_shutdown_drain_secs s);
       sc_max_send_catchup_blocks := default DEFAULT_MAX_SEND_CATCHUP_BLOCKS (sf_max_send_catchup_blocks s) |} in
  _ ← confirmations_policy spend; _ ← validate_change_splitting spend; Ok spend.

Definition resolve_health (d : BinaryDefaults) (h : HealthFile) : result failure HealthSettings :=
  bind ← parse_bind "parsing health bind address" (default "127.0.0.1" (hf_bind h));
  readiness ← match hf_readiness h with Some m => bail (readiness_parse m) | None => Ok RM_Synced end;
  Ok {| hs_enabled := default true (hf_enabled h); hs_bind := bind; hs_port := default (bd_health_port d) (hf_port h);
        hs_readiness := readiness; hs_max_scan_lag := default 4 (hf_max_scan_lag h) |}.

Definition fleet_overlap (conflict : string * string * string) : failure :=
  let '(name, wallet_path, fleet_path) := conflict in
  Bail ("wallet '" +:+ name +:+ "' has its data directory at " +:+ wallet_path +:+ ", which overlaps the fleet's "
        +:+ fleet_path +:+ ". Rename the wallet, or point " +:+ wallet_ctx name
        +:+ " dir (or the [fleet] manifest_dir/dir) somewhere else").
Definition resolve_fleet (datadir : string) (wallets : list (string * WalletEntry)) (f : FleetFile) : result failure FleetConfig :=
  let fleet :=
    {| fc_enabled := default false (ff_enabled f);
       fc_manifest_dir := match ff_manifest_dir f with
                          | Some p => path_join datadir p | None => fleet_manifest_dir datadir Zcash end;
       fc_dir := match ff_dir f with Some p => path_join datadir p | None => fleet_dir datadir Zcash end;
       fc_coin := Zcash; fc_shard_size := default DEFAULT_FLEET_SHARD_SIZE (ff_shard_size f);
       fc_cohort_depth := default DEFAULT_FLEET_COHORT_DEPTH (ff_cohort_depth f) |} in
  if fc_shard_size fleet =? 0 then Err (Bail "[fleet] shard_size must be at least 1")
  else if fc_enabled fleet then
    match fleet_path_conflict wallets fleet with Some c => Err (fleet_overlap c) | None => Ok fleet end
  else Ok fleet.
Definition resolve_log (l : LogFile) : result failure LogConfig :=
  let log := {| lc_level := default "info" (lf_level l); lc_format := default "text" (lf_format l) |} in
  if existsb (λ v, bool_decide (to_ascii_lowercase (lc_format log) = v)) ["text"; "json"] then Ok log
  else Err (Bail ("[log] format must be " +:+ quoted "text" +:+ " or " +:+ quoted "json" +:+ ", got " +:+ quoted (lc_format log))).

(** *** All of it *)

Definition resolve_file (cli : ConfigOverrides) (d : BinaryDefaults) (file : ConfigFile) : result failure AppConfig :=
  let datadir := default (bd_datadir d) (option_or (cli_datadir cli d) (cf_datadir file)) in
  network ← resolve_network cli file;
  let default_wallet := default "default" (cf_default_wallet file) in
  let keys_file_global := option_or (co_keys_file cli) (cf_keys file ≫= kf_keys_file) in
  pools ← resolve_global_pools (cf_pools file);
  wallets ← resolve_wallets datadir network pools default_wallet keys_file_global (cf_wallets file);
  backend ← resolve_backend cli (default no_backend (cf_backend file));
  _ ← bail (validate_backend_tls backend);
  _ ← validate_overrides backend wallets;
  let zebra := default {| zf_rpc_user := None; zf_rpc_password := None; zf_rpc_cookie := None |} (cf_zebra file) in
  rpc ← resolve_rpc cli d datadir network (default no_rpc (cf_rpc file));
  spend ← resolve_spend (default no_spend (cf_spend file));
  health ← resolve_health d (default no_health (cf_health file));
  fleet ← resolve_fleet datadir wallets (default no_fleet (cf_fleet file));
  log ← resolve_log (default no_log (cf_log file));
  Ok {| ac_network := network; ac_datadir := datadir; ac_default_wallet := default_wallet; ac_wallets := wallets;
        ac_backend := backend;
        ac_zebra := {| za_user := zf_rpc_user zebra; za_password := zf_rpc_password zebra; za_cookie := zf_rpc_cookie zebra |};
        ac_rpc := rpc; ac_keys := resolve_keys cli datadir (default no_keys (cf_keys file));
        ac_sync := resolve_sync (default no_sync (cf_sync file)); ac_spend := spend; ac_pools := pools;
        ac_health := health; ac_log := log; ac_fleet := fleet |}.
Definition resolve_overrides_with (cli : ConfigOverrides) (d : BinaryDefaults) : result failure AppConfig :=
  file ← read_config (conf_path_overrides_with cli d); resolve_file cli d file.
End resolve.

(** ** Refusals at start-up *)

Definition reject_multiple_spenders_in_daemon (c : AppConfig) : result string () :=
  if kc_allow_multiple (ac_keys c) then
    Err ("[keys] allow_multiple_spending_wallets is set, which the zecd daemon does not support: over RPC a credential is "
         +:+ "spend authority for whichever wallet a request routes to, so more than one loaded spending wallet leaves no "
         +:+ "single answer to which key can this credential spend. The option exists for applications embedding zecd as a "
         +:+ "library, where the host application is the authorization boundary and names the wallet on every call.")
  else Ok tt.
Definition reject_placeholder_password (c : AppConfig) : result string () :=
  let placeholder := match Auth.rc_password (rs_credentials (ac_rpc c)) with
                     | Some p => bool_decide (to_ascii_lowercase (trim p) = "change-me")
                     | None => false
                     end in
  if bool_decide (ac_network c = Main) && placeholder then
    Err ("[rpc] password is still the example placeholder " +:+ quoted "CHANGE-ME"
         +:+ "; set a real password before running on mainnet")
  else Ok tt.
