(* ===== verification/ConfigSpec.v ===== *)
(** * ConfigSpec: what a resolved configuration is

    Every configuration the daemon starts on is coherent, whatever the command line, the environment
    and the file say. *)

From S2P Require Import Pools Network Spend Health Fleet Amount.
From S2P Require Export Config.
From S2P Require Auth Rpc Engine.

(** The steps of a resolution that gave a value. *)
Ltac steps H :=
  repeat match type of H with
  | (_ ≫= _) = Ok _ => let x := fresh "x" in let Hx := fresh "Hx" in apply bind_Ok_inv in H as (x & Hx & H); cbv beta in H
  end.

(** ** Coherence *)

Record pools_ok (p : PoolsConfig) : Prop := {
  po_enabled : wf_set (pc_enabled p);
  po_receivers : wf_set (pc_default_receivers p);
  po_subset : ∀ r, r ∈ pools (pc_default_receivers p) → r ∈ pools (pc_enabled p);
  po_default : pc_transparent_default p = true → pc_transparent_enabled p = true;
  po_gap : pc_gap_limit p ≠ 0;
}.
(** No pin and no private CA beside a setting that keeps it from being looked at. *)
Definition tls_coherent (b : BackendConfig) : Prop :=
  bk_tls_ca_pem b ≠ None ∨ bk_tls_pins b ≠ [] →
  bk_tls_insecure_skip_verify b = false ∧ bk_tls b ≠ Some false ∧ starts_with "http://" (bk_server b) = false.

(** One wallet: a chain of its own daemon's network, an endpoint and pools that hold together. *)
Record wallet_ok (c : AppConfig) (w : WalletEntry) : Prop := {
  wk_network : zcash_network w = ac_network c;
  wk_pools : pools_ok (we_pools w);
  wk_endpoint : tls_coherent (effective (we_backend w) (ac_backend c));
}.
Record coherent (policy_ok : Z → Z → bool) (c : AppConfig) : Prop := {
  ch_default : ac_default_wallet c ∈ fst <$> ac_wallets c;
  ch_wallets : ∀ name w, (name, w) ∈ ac_wallets c → wallet_ok c w;
  ch_pools : pools_ok (ac_pools c);
  ch_endpoint : tls_coherent (ac_backend c);
  ch_reconnect : 1 ≤ bk_reconnect_base_secs (ac_backend c) ≤ bk_reconnect_max_secs (ac_backend c);
  ch_connect : 1 ≤ bk_connect_timeout_secs (ac_backend c);
  ch_methods : ∀ m, m ∈ rs_allowed_methods (ac_rpc c) → Rpc.is_known_method m = true;
  ch_queue : 1 ≤ rs_work_queue (ac_rpc c);
  ch_sync : 1 ≤ yc_interval_secs (ac_sync c) ∧ 1 ≤ yc_rebroadcast_secs (ac_sync c) ∧ 1 ≤ yc_batch_size (ac_sync c) ∧
            1 ≤ yc_writer_cache_mib (ac_sync c) ∧ 1 ≤ yc_enhance_concurrency (ac_sync c);
  ch_confirmations : policy_ok (Z.max (sc_trusted_confirmations (ac_spend c)) 1)
                               (Z.max (sc_untrusted_confirmations (ac_spend c)) 1) = true;
  ch_notes : sc_target_note_count (ac_spend c) ≠ 0 ∧ sc_min_split_output_value (ac_spend c) ≤ MAX_MONEY;
  ch_shards : fc_shard_size (ac_fleet c) ≠ 0;
  ch_fleet : fc_enabled (ac_fleet c) = true → ∀ name w p, (name, w) ∈ ac_wallets c →
             p ∈ [fc_manifest_dir (ac_fleet c); fc_dir (ac_fleet c)] → overlaps p (we_dir w) = false;
  ch_log : to_ascii_lowercase (lc_format (ac_log c)) = "text" ∨ to_ascii_lowercase (lc_format (ac_log c)) = "json";
}.

(** ** Pools *)

Lemma wf_single_orchard : wf_set (single Orchard).
Proof. apply wf_set_cases. auto. Qed.
Lemma parse_receivers_wf context tokens s : with_context context (parse_receivers tokens) = Ok s → wf_set s.
Proof.
  unfold parse_receivers, receiver_set_parse. destruct tokens as [|t tokens]; [done|].
  destruct (parse_tokens (t :: tokens)) as [given|e]; cbn; [|done]. pose proof (receiver_set_new_spec given) as Hs.
  destruct (receiver_set_new given) as [s'|e]; cbn; [|done]. intros [= <-]. tauto.
Qed.
Lemma subset_members r e : is_subset_of r e = true → ∀ p, p ∈ pools r → p ∈ pools e.
Proof.
  unfold is_subset_of. intros H p Hp. rewrite forallb_forall in H. apply list_elem_of_In in Hp.
  by apply receiver_mem_spec, H.
Qed.
Lemma flags_ok ctx enabled dflt gap u :
  validate_transparent_flags ctx enabled dflt gap = Ok u → (dflt = true → enabled = true) ∧ gap ≠ 0.
Proof.
  unfold validate_transparent_flags. destruct dflt, enabled; cbn; try done;
    destruct (Z.eqb_spec gap 0); done.
Qed.
Lemma global_pools_ok file p : resolve_global_pools file = Ok p → pools_ok p.
Proof.
  unfold resolve_global_pools. intros H. steps H.
  destruct (negb (is_subset_of x0 x)) eqn:Hsub; [done|]. apply negb_false_iff in Hsub. steps H. injection H as <-.
  apply flags_ok in Hx1 as [Hd Hg].
  assert (wf_set x) by (destruct (file ≫= pf_enabled); [by eapply parse_receivers_wf|injection Hx as <-; apply wf_single_orchard]).
  split; cbn; [done| |by apply subset_members|done|done].
  destruct (file ≫= pf_default_receivers); [by eapply parse_receivers_wf|by injection Hx0 as <-].
Qed.
Lemma wallet_pools_ok name file g p : pools_ok g → resolve_wallet_pools name file g = Ok p → pools_ok p.
Proof.
  intros [Hge Hgr _ _ _]. unfold resolve_wallet_pools. intros H. steps H.
  destruct (negb (is_subset_of x0 x)) eqn:Hsub; [done|]. apply negb_false_iff in Hsub. steps H. injection H as <-.
  apply flags_ok in Hx1 as [Hd Hg].
  assert (wf_set x) by (destruct (pf_enabled file); [by eapply parse_receivers_wf|by injection Hx as <-]).
  split; cbn; [done| |by apply subset_members|done|done].
  destruct (pf_default_receivers file); [by eapply parse_receivers_wf|].
  destruct (pf_enabled file); by injection Hx0 as <-.
Qed.

(** ** Endpoints *)

Lemma validated b u : validate_backend_tls b = Ok u → tls_coherent b.
Proof.
  unfold validate_backend_tls, tls_coherent. intros H Hauth.
  assert (is_some (bk_tls_ca_pem b) || negb (bool_decide (bk_tls_pins b = [])) = true) as Ha.
  { destruct Hauth as [Hc|Hp]; [by destruct (bk_tls_ca_pem b)|]. by rewrite bool_decide_eq_false_2, orb_true_r. }
  rewrite Ha in H. clear Ha. cbn in H. destruct (bk_tls_insecure_skip_verify b); [done|]. case_bool_decide; [done|].
  destruct (starts_with "http://" (bk_server b)); [done|]. split_and!; done.
Qed.
Lemma empty_override o g : override_is_empty o = true → tls_coherent g → tls_coherent (effective o g).
Proof.
  unfold override_is_empty, tls_coherent, effective. destruct o as [[] [] [] [] [] ? [] []]; cbn; done.
Qed.
Lemma overrides_validated g wallets u :
  validate_overrides g wallets = Ok u → tls_coherent g →
  ∀ name w, (name, w) ∈ wallets → tls_coherent (effective (we_backend w) g).
Proof.
  intros H Hg. induction wallets as [|[n e] wallets IH]; intros name w Hin; [by apply not_elem_of_nil in Hin|].
  cbn in H. steps H. apply elem_of_cons in Hin as [[= -> ->]|Hin]; [|by eapply IH].
  destruct (override_is_empty (we_backend e)) eqn:He; [by apply empty_override|].
  destruct (validate_backend_tls _) eqn:Hv; [by eapply validated|done].
Qed.

(** ** Wallets *)

Lemma lookup_key_elem {A} k (l : list (string * A)) v : lookup_key k l = Some v → (k, v) ∈ l.
Proof.
  unfold lookup_key. destruct (List.find _ l) as [[k' v']|] eqn:E; [|done]. cbn. intros [= <-].
  apply find_some in E as [Hin Hk]. apply bool_decide_eq_true in Hk. cbn in Hk. subst. by apply list_elem_of_In.
Qed.
Lemma lookup_key_none {A} k (l : list (string * A)) : lookup_key k l = None ↔ k ∉ fst <$> l.
Proof.
  unfold lookup_key. induction l as [|[k' v] l IH]; cbn; [set_solver|]. case_bool_decide as E; cbn.
  - subst. split; [done|]. intros H. destruct H. by left.
  - rewrite IH. split; [intros H [?|?]%elem_of_cons; naive_solver|intros H Hin; apply H; by right].
Qed.
Lemma bt_insert_elem {A} k (v : A) m kv : kv ∈ bt_insert k v m → kv = (k, v) ∨ kv ∈ m.
Proof.
  induction m as [|[k' v'] m IH]; cbn; [set_solver|].
  destruct (key_lt k k'); [set_solver|]. case_bool_decide; set_solver.
Qed.
Lemma bt_insert_key {A} k (v : A) m : k ∈ fst <$> bt_insert k v m.
Proof.
  induction m as [|[k' v'] m IH]; cbn; [set_solver|]. destruct (key_lt k k'); [set_solver|].
  case_bool_decide; set_solver.
Qed.

Section resolution.
Context `{HT : Toml} (env : string → option string) (exists_ : string → bool) (read : string → result string string).
Context (policy_ok : Z → Z → bool) (hex : string → result string string).

Lemma wallets_ok datadir network pools dw kf file wallets :
  resolve_wallets read hex datadir network pools dw kf file = Ok wallets → pools_ok pools →
  dw ∈ fst <$> wallets ∧
  ∀ name w, (name, w) ∈ wallets → zcash_network w = network ∧ pools_ok (we_pools w).
Proof.
  unfold resolve_wallets. intros H Hp. steps H. rename x into l. injection H as <-.
  assert (∀ name w, (name, w) ∈ l → zcash_network w = network ∧ pools_ok (we_pools w)) as Hl.
  { revert l Hx. induction file as [|[n f] file IH]; intros l Hx; cbn in Hx; [injection Hx as <-; set_solver|].
    apply bind_Ok_inv in Hx as ([n' e] & He & Hx). apply bind_Ok_inv in Hx as (rest & Hrest & Hx). injection Hx as <-.
    apply bind_Ok_inv in He as (e' & He' & He). injection He as <- <-. unfold resolve_wallet in He'. steps He'.
    injection He' as <-. intros name w [[= -> ->]|Hin]%elem_of_cons; [|by eapply IH].
    split; [done|]. cbn. by eapply wallet_pools_ok. }
  destruct (lookup_key dw l) as [w|] eqn:E.
  - split; [|done]. apply lookup_key_elem in E. by apply (list_elem_of_fmap_2 fst l (dw, w)).
  - split; [apply bt_insert_key|]. intros name w Hin. apply bt_insert_elem in Hin as [[= -> ->]|Hin]; [done|by eapply Hl].
Qed.

Lemma no_conflict wallets fleet :
  fleet_path_conflict wallets fleet = None →
  ∀ name w p, (name, w) ∈ wallets → p ∈ [fc_manifest_dir fleet; fc_dir fleet] → overlaps p (we_dir w) = false.
Proof.
  induction wallets as [|[n e] wallets IH]; intros H name w p Hin Hp; [by apply not_elem_of_nil in Hin|].
  cbn [fleet_path_conflict] in H. destruct (List.find _ _) eqn:Hf; [done|].
  apply elem_of_cons in Hin as [[= -> ->]|Hin]; [|by eapply IH].
  apply (find_none _ _ Hf). by apply list_elem_of_In.
Qed.

Lemma backend_ok cli b g :
  resolve_backend read hex cli b = Ok g →
  1 ≤ bk_reconnect_base_secs g ≤ bk_reconnect_max_secs g ∧ 1 ≤ bk_connect_timeout_secs g.
Proof. unfold resolve_backend. intros H. steps H. injection H as <-. cbn. lia. Qed.
Lemma rpc_ok cli d datadir network r s :
  resolve_rpc read cli d datadir network r = Ok s →
  (∀ m, m ∈ rs_allowed_methods s → Rpc.is_known_method m = true) ∧ 1 ≤ rs_work_queue s.
Proof.
  unfold resolve_rpc. intros H. steps H. injection H as <-. cbn. split; [|lia].
  destruct (List.find _ _) eqn:Hf in Hx0; [done|]. intros m Hm%list_elem_of_In.
  apply (find_none _ _ Hf) in Hm. by apply negb_false_iff.
Qed.
Lemma spend_ok f s :
  resolve_spend policy_ok f = Ok s →
  policy_ok (Z.max (sc_trusted_confirmations s) 1) (Z.max (sc_untrusted_confirmations s) 1) = true ∧
  sc_target_note_count s ≠ 0 ∧ sc_min_split_output_value s ≤ MAX_MONEY.
Proof.
  unfold resolve_spend. intros H. apply bind_Ok_inv in H as (privacy & _ & H). cbv zeta in H.
  apply bind_Ok_inv in H as (u & Hpol & H). apply bind_Ok_inv in H as (u' & Hsplit & H). injection H as <-.
  revert Hpol Hsplit. set (s := Build_SpendConfig _ _ _ _ _ _ _ _ _ _ _ _). clearbody s.
  unfold confirmations_policy, validate_change_splitting. destruct (policy_ok _ _); [|done]. intros _.
  destruct (Z.eqb_spec (sc_target_note_count s) 0); [done|].
  destruct (Z.ltb_spec MAX_MONEY (sc_min_split_output_value s)); [done|]. done.
Qed.
Lemma fleet_ok datadir wallets f fleet :
  resolve_fleet datadir wallets f = Ok fleet →
  fc_shard_size fleet ≠ 0 ∧ (fc_enabled fleet = true → fleet_path_conflict wallets fleet = None).
Proof.
  unfold resolve_fleet. cbv zeta. set (fl := Build_FleetConfig _ _ _ _ _ _). clearbody fl.
  destruct (Z.eqb_spec (fc_shard_size fl) 0); [done|].
  destruct (fc_enabled fl) eqn:He; [destruct (fleet_path_conflict wallets fl) eqn:Hc; [done|]|];
    intros [= <-]; (split; [done|congruence]).
Qed.
Lemma log_ok f l :
  resolve_log f = Ok l → to_ascii_lowercase (lc_format l) = "text" ∨ to_ascii_lowercase (lc_format l) = "json".
Proof.
  unfold resolve_log. cbv zeta. set (log := Build_LogConfig _ _). clearbody log. cbn [existsb].
  case_bool_decide; [intros [= <-]; by left|]. case_bool_decide; [intros [= <-]; by right|done].
Qed.

(** C23. A configuration that resolves is coherent: the default wallet exists; every wallet is on
    the daemon's network and hands out only receivers of pools it enables; no pin and no private CA
    stands beside [tls_insecure_skip_verify], [tls = no] or an [http://] endpoint, globally or in a
    wallet's effective settings (a [zebra] endpoint, or a bare local one, keeps its pins); no
    interval, batch, cache or queue is zero and the longest back-off is no shorter than the first;
    the safelist names known methods only; and a fleet that runs shares no directory with a wallet. *)
Theorem resolved_is_coherent (cli : ConfigOverrides) (d : BinaryDefaults) (c : AppConfig)
    (Hres : resolve_overrides_with env exists_ read policy_ok hex cli d = Ok c) : coherent policy_ok c.
Proof.
  unfold resolve_overrides_with in Hres. steps Hres. clear Hx. rename x into file. unfold resolve_file in Hres. steps Hres.
  injection Hres as <-.
  pose proof (global_pools_ok _ _ Hx0) as Hp. destruct (wallets_ok _ _ _ _ _ _ _ Hx1 Hp) as [Hdef Hw].
  assert (tls_coherent x2) as Ht by (destruct (validate_backend_tls x2) eqn:E; [by eapply validated|done]).
  destruct (backend_ok _ _ _ Hx2) as [Hb1 Hb2], (rpc_ok _ _ _ _ _ _ Hx5) as [Hm Hq], (spend_ok _ _ Hx6) as (Hpol & Hnotes & Hmin),
    (fleet_ok _ _ _ _ Hx8) as [Hsize Hconf]. pose proof (log_ok _ _ Hx9) as Hlog.
  split; cbn; try done; try lia.
  - intros name w Hin. destruct (Hw _ _ Hin). split; [done|done|]. by eapply overrides_validated.
  - intros He name w p. apply no_conflict, Hconf, He.
Qed.
End resolution.

(** ** Concretely *)

(** A reader that takes each text for a given document; a string prints quoted. *)
Definition toml_of_docs (docs : string → list (string * toml)) : Toml :=
  {| toml_parse := λ text, Ok (docs text); toml_string := quoted; toml_strings := λ l, "[" +:+ join ", " (quoted <$> l) +:+ "]";
     toml_seq := λ _ _, None; toml_refusal := λ _, "invalid" |}.
Definition example_doc : list (string * toml) :=
  [("network", TString "regtest"); ("datadir", TString "/data");
   ("backend", TTable [("server", TString "lwd.example.com:443"); ("tls", TString "yes");
                       ("proxy", TString "socks5://127.0.0.1:9050"); ("reconnect_base_secs", TInteger 0)]);
   ("rpc", TTable [("password", TString "secret"); ("allowed_methods", TArray [TString "getbalance"])]);
   ("pools", TTable [("enabled", TArray [TString "orchard"; TString "sapling"]); ("transparent", TBoolean true)]);
   ("fleet", TTable [("enabled", TBoolean true); ("dir", TString "/shards")]);
   ("wallets", TTable [("ops", TTable [("transparent_default", TBoolean true); ("tls", TString "no")])])].
Definition no_env (_ : string) : option string := None.
Definition any_policy (trusted untrusted : Z) : bool := trusted <=? untrusted.
Definition no_hex (_ : string) : result string string := Err "not hex".
Definition example_resolve (doc : list (string * toml)) (cli : ConfigOverrides) : result failure AppConfig :=
  resolve_overrides_with (HT := toml_of_docs (λ _, doc)) no_env (λ _, true) (λ _, Ok "") any_policy no_hex cli ZECD_DEFAULTS.
Definition value_of {E A} (r : result E A) : match r with Ok _ => A | Err _ => () end :=
  match r with Ok a => a | Err _ => tt end.
Definition example_config : AppConfig := Eval vm_compute in value_of (example_resolve example_doc no_overrides).
Lemma resolved_is_coherent_witness : coherent any_policy example_config.
Proof.
  apply (resolved_is_coherent (HT := toml_of_docs (λ _, example_doc)) no_env (λ _, true) (λ _, Ok "") any_policy no_hex
           no_overrides ZECD_DEFAULTS).
  vm_compute. reflexivity.
Defined.
