(* ===== verification/Show.v ===== *)
(** * Show: the effective configuration printed, compared and reloaded ([src/src/config_show.rs],
      the reload of [src/src/config.rs])

    The rendering is a list of items - a table's header, a key, a key whose value carries a note,
    the names of secrets - and its text. A reload compares two renderings line by line. *)

From S2P Require Import Pools Network Spend Health Fleet.
From S2P Require Export Config.
From S2P Require Auth.

(** ** Values and items *)

Inductive rvalue := RStr (s : string) | RNum (z : Z) | RBool (b : bool) | RList (l : list string).
Inductive item :=
  | Table (name : string) | Kv (key : string) (v : rvalue) | KvNote (key : string) (v : rvalue) (note : string)
  | Redacted (keys : list string).

Definition bool_text (b : bool) : string := if b then "true" else "false".
Definition newline : string := String (ascii_of_nat 10) "".

(** [IpAddr]'s Display. *)
Definition hex_group (z : Z) : string := hex_aux (S (Z.to_nat (Z.log2 z))) z.
Fixpoint zero_run (l : list Z) : nat := match l with 0 :: l => S (zero_run l) | _ => 0 end.
(** Where the longest run of zero groups starts, the first of them, and its length. *)
Fixpoint longest_run (at_ : nat) (l : list Z) (best : nat * nat) : nat * nat :=
  match l with
  | [] => best
  | _ :: rest => longest_run (S at_) rest (if (snd best <? zero_run l)%nat then (at_, zero_run l) else best)
  end.
Definition groups (l : list Z) : string := join ":" (hex_group <$> l).
Definition ip_display (ip : IpAddr) : string :=
  match ip with
  | V4 octets => join "." (dec <$> octets)
  | V6 segments =>
      match ipv4_mapped segments with
      | Some octets => "::ffff:" +:+ join "." (dec <$> octets)
      | None =>
          let '(start, len) := longest_run 0 segments (0%nat, 0%nat) in
          if (1 <? len)%nat then groups (take start segments) +:+ "::" +:+ groups (drop (start + len) segments)
          else groups segments
      end
  end.
(** A fingerprint's Display. *)
Definition upper_hex_byte (c : ascii) : string :=
  let upper z := if z <? 10 then ascii_of_nat (Z.to_nat (z + 48)) else ascii_of_nat (Z.to_nat (z + 55)) in
  String (upper (byte_of c / 16)) (String (upper (byte_of c mod 16)) "").
Definition fingerprint_display (pin : string) : string := join ":" (upper_hex_byte <$> String.list_ascii_of_string pin).

Definition tls_text (t : option bool) : string := match t with None => "auto" | Some true => "yes" | Some false => "no" end.
Definition roots_text (r : TlsRoots) : string := match r with Native => "native" | Webpki => "webpki" end.

Definition kv_opt {A} (key : string) (f : A → rvalue) (o : option A) : list item :=
  match o with Some a => [Kv key (f a)] | None => [] end.
Definition redacted_pair (keys : list string) (set : bool) : list item := if set then [Redacted keys] else [].

(** ** The rendering *)

Definition resolved_note (r : result string Server) : string :=
  match r with Ok s => describe s | Err e => "UNRESOLVED: " +:+ e end.

Definition pool_items (enabled : string) (p : PoolsConfig) : list item :=
  [Kv enabled (RList (names (pc_enabled p))); Kv "default_receivers" (RList (names (pc_default_receivers p)));
   Kv "transparent" (RBool (pc_transparent_enabled p)); Kv "transparent_default" (RBool (pc_transparent_default p));
   Kv "transparent_gap_limit" (RNum (pc_gap_limit p)); Kv "transparent_initial_scan" (RNum (pc_initial_scan p));
   Kv "transparent_allow_beyond_recovery_window" (RBool (pc_allow_beyond p));
   Kv "transparent_gap_warn_threshold" (RNum (pc_warn_threshold p))].

Definition backend_items (c : AppConfig) : list item :=
  let b := ac_backend c in
  [KvNote "server" (RStr (bk_server b)) (resolved_note (resolve_configured b (ac_zebra c) (ac_network c)))]
  ++ kv_opt "proxy" (λ p, RStr (socks_display p)) (bk_proxy b)
  ++ [Kv "connect_timeout_secs" (RNum (bk_connect_timeout_secs b)); Kv "reconnect_base_secs" (RNum (bk_reconnect_base_secs b));
      Kv "reconnect_max_secs" (RNum (bk_reconnect_max_secs b)); Kv "rfc1918_is_local" (RBool (bk_rfc1918_is_local b));
      Kv "allow_remote_cleartext" (RBool (bk_allow_remote_cleartext b)); Kv "tls" (RStr (tls_text (bk_tls b)));
      Kv "tls_roots" (RStr (roots_text (bk_tls_roots b)));
      Kv "tls_insecure_skip_verify" (RBool (bk_tls_insecure_skip_verify b))]
  ++ kv_opt "tls_ca_file" RStr (bk_tls_ca_file b)
  ++ (if bool_decide (bk_tls_pins b = []) then []
      else [Kv "tls_pinned_sha256" (RList (fingerprint_display <$> bk_tls_pins b))])
  ++ [Kv "assume_transparent_in_compact_blocks" (RBool (bk_assume_transparent b))].

Definition rpc_items (r : RpcSettings) : list item :=
  let k := rs_credentials r in
  [Kv "bind" (RStr (ip_display (rs_bind r))); Kv "port" (RNum (rs_port r))]
  ++ redacted_pair ["user"; "password"] (is_some (Auth.rc_user k) || is_some (Auth.rc_password k))
  ++ redacted_pair ["auth"] (negb (bool_decide (Auth.rc_auth k = [])))
  ++ kv_opt "cookiefile" RStr (Auth.rc_cookiefile k)
  ++ [Kv "work_queue" (RNum (rs_work_queue r)); Kv "allowed_methods" (RList (rs_allowed_methods r));
      Kv "allow_duplicate_shielded_recipients" (RBool (rs_allow_duplicate r))].
Definition keys_items (k : KeysConfig) : list item :=
  kv_opt "age_identity" RStr (kc_age_identity k)
  ++ [Kv "auto_unlock" (RBool (kc_auto_unlock k)); Kv "allow_multiple_spending_wallets" (RBool (kc_allow_multiple k));
      Kv "bootstrap_from_keys" (RBool (kc_bootstrap_from_keys k))].
Definition sync_items (y : SyncConfig) : list item :=
  [Kv "interval_secs" (RNum (yc_interval_secs y)); Kv "rebroadcast_secs" (RNum (yc_rebroadcast_secs y));
   Kv "fetch_memos" (RBool (yc_fetch_memos y)); Kv "batch_size" (RNum (yc_batch_size y));
   Kv "writer_cache_mib" (RNum (yc_writer_cache_mib y)); Kv "enhance_concurrency" (RNum (yc_enhance_concurrency y))].
Definition spend_items (s : SpendConfig) : list item :=
  [Kv "trusted_confirmations" (RNum (sc_trusted_confirmations s)); Kv "untrusted_confirmations" (RNum (sc_untrusted_confirmations s));
   Kv "trust_own_transactions" (RBool (sc_trust_own_transactions s)); Kv "privacy_policy" (RStr (policy_name (sc_privacy s)));
   Kv "orchard_action_limit" (RNum (sc_orchard_action_limit s)); Kv "max_tx_bytes" (RNum (sc_max_tx_bytes s));
   Kv "cache_proving_key" (RBool (sc_cache_proving_key s)); Kv "pipeline_proving" (RBool (sc_pipeline_proving s));
   Kv "target_note_count" (RNum (sc_target_note_count s)); Kv "min_split_output_value" (RNum (sc_min_split_output_value s));
   Kv "shutdown_drain_secs" (RNum (sc_shutdown_drain_secs s));
   Kv "max_send_catchup_blocks" (RNum (sc_max_send_catchup_blocks s))].
Definition health_items (h : HealthSettings) : list item :=
  [Kv "enabled" (RBool (hs_enabled h)); Kv "bind" (RStr (ip_display (hs_bind h))); Kv "port" (RNum (hs_port h));
   Kv "readiness" (RStr (readiness_as_str (hs_readiness h))); Kv "max_scan_lag" (RNum (hs_max_scan_lag h))].
Definition fleet_items (f : FleetConfig) : list item :=
  [Kv "enabled" (RBool (fc_enabled f)); Kv "manifest_dir" (RStr (fc_manifest_dir f)); Kv "dir" (RStr (fc_dir f));
   Kv "shard_size" (RNum (fc_shard_size f)); Kv "cohort_depth" (RNum (fc_cohort_depth f))].
Definition wallet_items (c : AppConfig) (w : WalletEntry) : list item :=
  let o := we_backend w in
  [Kv "dir" (RStr (we_dir w))] ++ kv_opt "keys_file" RStr (we_keys_file w)
  ++ match wo_server o with
     | Some server =>
         [KvNote "server" (RStr server) (resolved_note (resolve_for_wallet o (ac_backend c) (ac_zebra c) (ac_network c)))]
     | None => []
     end
  ++ kv_opt "tls" (λ t, RStr (tls_text t)) (wo_tls o) ++ kv_opt "tls_roots" (λ r, RStr (roots_text r)) (wo_tls_roots o)
  ++ kv_opt "tls_insecure_skip_verify" RBool (wo_tls_insecure_skip_verify o)
  ++ kv_opt "tls_ca_file" RStr (wo_tls_ca_file o)
  ++ kv_opt "tls_pinned_sha256" (λ pins, RList (fingerprint_display <$> pins)) (wo_tls_pins o)
  ++ kv_opt "assume_transparent_in_compact_blocks" RBool (wo_assume_transparent o)
  ++ pool_items "pools" (we_pools w).

Definition zebra_items (z : ZebraAuth) : list item :=
  kv_opt "rpc_cookie" RStr (za_cookie z) ++ redacted_pair ["rpc_user"; "rpc_password"] (is_some (za_user z) || is_some (za_password z)).
Definition log_items (l : LogConfig) : list item := [Kv "level" (RStr (lc_level l)); Kv "format" (RStr (lc_format l))].
Definition render_items (c : AppConfig) : list item :=
  [Kv "network" (RStr (network_name (ac_network c))); Kv "datadir" (RStr (ac_datadir c));
   Kv "default_wallet" (RStr (ac_default_wallet c))]
  ++ Table "backend" :: backend_items c
  ++ Table "zebra" :: zebra_items (ac_zebra c)
  ++ Table "rpc" :: rpc_items (ac_rpc c) ++ Table "keys" :: keys_items (ac_keys c)
  ++ Table "sync" :: sync_items (ac_sync c) ++ Table "spend" :: spend_items (ac_spend c)
  ++ Table "pools" :: pool_items "enabled" (ac_pools c) ++ Table "health" :: health_items (ac_health c)
  ++ Table "fleet" :: fleet_items (ac_fleet c)
  ++ Table "log" :: log_items (ac_log c)
  ++ concat ((λ nw, Table ("wallets." +:+ fst nw) :: wallet_items c (snd nw)) <$> ac_wallets c).

(** ** Its text *)

Definition HEADER : string := concat_str ((λ l, l +:+ newline) <$>
  ["# The EFFECTIVE zecd configuration: the config file, CLI flags and environment resolved";
   "# together, with every unset key filled in by this build's default. Diff two zecd versions'";
   "# output to see which defaults moved."; "#";
   "# Secrets (the RPC password, rpcauth hashes, [zebra] credentials) are shown as commented-out";
   "# key names, never values - so this is an inspection view, not a drop-in config file."]).

Section text.
Context `{HT : Toml}.

Definition value_text (v : rvalue) : string :=
  match v with
  | RStr s => toml_string s
  | RNum z => dec z
  | RBool b => bool_text b
  | RList l => toml_strings l
  end.
Definition item_text (i : item) : string :=
  match i with
  | Table name => newline +:+ "[" +:+ name +:+ "]" +:+ newline
  | Kv key v => key +:+ " = " +:+ value_text v +:+ newline
  | KvNote key v note => key +:+ " = " +:+ value_text v +:+ "  # " +:+ note +:+ newline
  | Redacted keys => "# " +:+ join ", " keys +:+ " = <redacted>" +:+ newline
  end.
Definition render (c : AppConfig) : string := HEADER +:+ newline +:+ concat_str (item_text <$> render_items c).

(** ** Two configurations compared *)

(** [str::lines]. *)
Fixpoint lines_aux (line s : string) : list string :=
  match s with
  | "" => if bool_decide (line = "") then [] else [line]
  | String c s => if byte_of c =? 10 then line :: lines_aux "" s else lines_aux (line +:+ String c "") s
  end.
Definition strip_cr (line : string) : string := default line (strip_suffix_char (ascii_of_nat 13) line).
Definition lines (s : string) : list string := strip_cr <$> lines_aux "" s.

(** The keys of a rendering under their table's name, with their values. *)
Fixpoint keyed_lines (section : string) (l : list string) : list (string * string) :=
  match l with
  | [] => []
  | line :: l =>
      let line := trim line in
      if bool_decide (line = "") || starts_with "#" line then keyed_lines section l
      else match strip_prefix "[" line ≫= strip_suffix_char "]" with
           | Some name => keyed_lines (name +:+ ".") l
           | None =>
               match split_once "=" line with
               | Some (key, value) => (section +:+ trim key, trim value) :: keyed_lines section l
               | None => keyed_lines section l
               end
           end
  end.
Definition keyed (text : string) : list (string * string) := keyed_lines "" (lines text).
(** [sort] and [dedup]. *)
Definition sort_dedup (l : list string) : list string := fst <$> bt_of ((λ k, (k, tt)) <$> l).
Definition changed_of (a b : list (string * string)) : list string :=
  let am := bt_of a in let bm := bt_of b in
  let changed := fst <$> List.filter (λ kv, match lookup_key (fst kv) bm with
                                            | Some other => negb (bool_decide (other = snd kv))
                                            | None => false
                                            end) a in
  let gained := fst <$> List.filter (λ kv, negb (is_some (lookup_key (fst kv) am))) b in
  let dropped := fst <$> List.filter (λ kv, negb (is_some (lookup_key (fst kv) bm))) a in
  sort_dedup (changed ++ gained ++ dropped).
Definition changed_keys (running fresh : AppConfig) : list string := changed_of (keyed (render running)) (keyed (render fresh)).

(** ** Reload *)

Record SpendLimits := { sl_orchard_action_limit : Z; sl_max_tx_bytes : Z }.
Definition limits_of (s : SpendConfig) : SpendLimits :=
  {| sl_orchard_action_limit := sc_orchard_action_limit s; sl_max_tx_bytes := sc_max_tx_bytes s |}.
Record ReloadReport := { rr_applied : list (string * string * string); rr_requires_restart : list string }.
Definition report_is_empty (r : ReloadReport) : bool :=
  bool_decide (rr_applied r = []) && bool_decide (rr_requires_restart r = []).
Definition RELOADABLE_KEYS : list string := ["spend.orchard_action_limit"; "spend.max_tx_bytes"].

Definition apply_reload (running fresh : AppConfig) (limits : SpendLimits) : ReloadReport * SpendLimits :=
  let actions := sc_orchard_action_limit (ac_spend fresh) in
  let bytes := sc_max_tx_bytes (ac_spend fresh) in
  let moved (key : string) (current new : Z) := if new =? current then [] else [(key, dec current, dec new)] in
  ({| rr_applied := moved "spend.orchard_action_limit" (sl_orchard_action_limit limits) actions
                    ++ moved "spend.max_tx_bytes" (sl_max_tx_bytes limits) bytes;
      rr_requires_restart := List.filter (λ k, negb (bool_decide (k ∈ RELOADABLE_KEYS))) (changed_keys running fresh) |},
   {| sl_orchard_action_limit := actions; sl_max_tx_bytes := bytes |}).
(** [run_with_reload] on a hangup: a configuration that does not resolve changes nothing. *)
Definition on_hangup (running : AppConfig) (fresh : result failure AppConfig) (limits : SpendLimits) :
    option ReloadReport * SpendLimits :=
  match fresh with
  | Err _ => (None, limits)
  | Ok fresh => let '(report, limits) := apply_reload running fresh limits in (Some report, limits)
  end.
End text.
