(* ===== verification/ShowSpec.v ===== *)
(** * ShowSpec: the printed configuration is the one that runs

    What a rendering says as a TOML document, that reading it back gives the configuration it was
    printed from but for its secrets, and what a reload does. *)

From S2P Require Import Pools Network Spend Health Fleet Amount EndpointSpec.
From S2P Require Export Show ConfigSpec.
From S2P Require Auth Rpc Engine.

(** ** The document a rendering is

    A key with its value under the table in force; [[wallets.x]] is the table [x] of the table
    [wallets]. This is TOML's reading of such lines when the wallets' names are bare keys. *)

Definition toml_of (v : rvalue) : toml :=
  match v with RStr s => TString s | RNum z => TInteger z | RBool b => TBoolean b | RList l => TArray (TString <$> l) end.
Definition field_of (i : item) : option (string * toml) :=
  match i with Kv k v | KvNote k v _ => Some (k, toml_of v) | Table _ | Redacted _ => None end.
Definition fields_of (l : list item) : list (string * toml) := omap field_of l.
Fixpoint split_tables (l : list item) : list item * list (string * list item) :=
  match l with
  | [] => ([], [])
  | Table n :: l => let '(body, rest) := split_tables l in ([], (n, body) :: rest)
  | i :: l => let '(body, rest) := split_tables l in (i :: body, rest)
  end.
Definition wallet_table (t : string * list item) : option (string * toml) :=
  name ← strip_prefix "wallets." (fst t); Some (name, TTable (fields_of (snd t))).
Definition plain_table (t : string * list item) : option (string * toml) :=
  match strip_prefix "wallets." (fst t) with Some _ => None | None => Some (fst t, TTable (fields_of (snd t))) end.
Definition doc_of (l : list item) : list (string * toml) :=
  let '(top, tables) := split_tables l in
  fields_of top ++ omap plain_table tables ++ [("wallets", TTable (omap wallet_table tables))].

Definition keyed_item (i : item) : Prop := match i with Table _ => False | _ => True end.
Lemma split_body body rest tables :
  Forall keyed_item body → split_tables rest = ([], tables) → split_tables (body ++ rest) = (body, tables).
Proof.
  intros H Hrest. induction H as [|i body Hi _ IH]; [done|]. cbn. rewrite IH. by destruct i.
Qed.
Lemma split_table n body rest tables :
  Forall keyed_item body → split_tables rest = ([], tables) →
  split_tables (Table n :: body ++ rest) = ([], (n, body) :: tables).
Proof. intros H Hrest. cbn. by rewrite (split_body _ _ tables). Qed.

Lemma kv_opt_keyed {A} key (f : A → rvalue) o : Forall keyed_item (kv_opt key f o).
Proof. destruct o; cbn; [|done]. by constructor. Qed.
Lemma redacted_keyed keys set : Forall keyed_item (redacted_pair keys set).
Proof. destruct set; cbn; [|done]. by constructor. Qed.
#[local] Hint Resolve kv_opt_keyed redacted_keyed : core.
Ltac keyed :=
  repeat first [ assumption | apply kv_opt_keyed | apply redacted_keyed | apply Forall_nil_2 | apply Forall_app; split
               | apply Forall_cons; split; [exact I|] | case_bool_decide | case_match ].
Lemma backend_keyed c : Forall keyed_item (backend_items c). Proof. unfold backend_items. keyed. Qed.
Lemma rpc_keyed r : Forall keyed_item (rpc_items r). Proof. unfold rpc_items. keyed. Qed.
Lemma zebra_keyed z : Forall keyed_item (zebra_items z). Proof. unfold zebra_items. keyed. Qed.
Lemma keys_keyed k : Forall keyed_item (keys_items k). Proof. unfold keys_items. keyed. Qed.
Lemma wallet_keyed c w : Forall keyed_item (wallet_items c w). Proof. unfold wallet_items, pool_items. keyed. Qed.

(** The document, section by section. *)
Definition rendered_doc (c : AppConfig) : list (string * toml) :=
  let table name items := (name, TTable (fields_of items)) in
  [("network", TString (network_name (ac_network c))); ("datadir", TString (ac_datadir c));
   ("default_wallet", TString (ac_default_wallet c)); table "backend" (backend_items c);
   table "zebra" (zebra_items (ac_zebra c));
   table "rpc" (rpc_items (ac_rpc c)); table "keys" (keys_items (ac_keys c)); table "sync" (sync_items (ac_sync c));
   table "spend" (spend_items (ac_spend c)); table "pools" (pool_items "enabled" (ac_pools c));
   table "health" (health_items (ac_health c)); table "fleet" (fleet_items (ac_fleet c));
   table "log" (log_items (ac_log c));
   ("wallets", TTable ((λ nw, table (fst nw) (wallet_items c (snd nw))) <$> ac_wallets c))].

Lemma split_wallets c ws :
  split_tables (concat ((λ nw, Table ("wallets." +:+ fst nw) :: wallet_items c (snd nw)) <$> ws)) =
  ([], (λ nw, ("wallets." +:+ fst nw, wallet_items c (snd nw))) <$> ws).
Proof.
  induction ws as [|[n w] ws IH]; [done|]. apply split_table; [apply wallet_keyed|done].
Qed.
Lemma wallet_tables c ws :
  omap plain_table ((λ nw, ("wallets." +:+ fst nw, wallet_items c (snd nw))) <$> ws) = [] ∧
  omap wallet_table ((λ nw, ("wallets." +:+ fst nw, wallet_items c (snd nw))) <$> ws) =
    (λ nw, (fst nw, TTable (fields_of (wallet_items c (snd nw))))) <$> ws.
Proof. induction ws as [|[n w] ws [IH1 IH2]]; [done|]. cbn in *. rewrite IH1, IH2. done. Qed.
Lemma plain_cons n body ts :
  strip_prefix "wallets." n = None →
  omap plain_table ((n, body) :: ts) = (n, TTable (fields_of body)) :: omap plain_table ts.
Proof. intros H. unfold plain_table at 1. cbn -[strip_prefix]. by rewrite H. Qed.
Lemma wallet_cons n body ts :
  strip_prefix "wallets." n = None → omap wallet_table ((n, body) :: ts) = omap wallet_table ts.
Proof. intros H. unfold wallet_table at 1. cbn -[strip_prefix]. by rewrite H. Qed.
Lemma doc_of_render c : doc_of (render_items c) = rendered_doc c.
Proof.
  unfold doc_of, render_items. erewrite split_body; [|keyed|].
  2: { repeat (apply split_table; [first [apply backend_keyed | apply zebra_keyed | apply rpc_keyed | apply keys_keyed
                                          | unfold sync_items, spend_items, pool_items, health_items, fleet_items, log_items; keyed]|]).
       apply split_wallets. }
  destruct (wallet_tables c (ac_wallets c)) as [Hp Hw]. unfold rendered_doc. rewrite <- Hw.
  set (ws := _ <$> ac_wallets c) in *. clearbody ws.
  rewrite !plain_cons, !wallet_cons, Hp by done. done.
Qed.

(** ** Reading the sections back *)

Lemma fields_cons i l : fields_of (i :: l) = option_list (field_of i) ++ fields_of l.
Proof. unfold fields_of. cbn. by destruct (field_of i). Qed.
Lemma fields_app l1 l2 : fields_of (l1 ++ l2) = fields_of l1 ++ fields_of l2.
Proof. apply omap_app. Qed.

Section keys.
Context {A : Type} (dec : toml → option A) (k : string).
Implicit Types (l : list item).

Lemma opt_skip k' v fs : k' ≠ k → opt dec k ((k', v) :: fs) = opt dec k fs.
Proof. intros Hk. unfold opt, lookup_key. cbn. by rewrite bool_decide_eq_false_2. Qed.
Lemma opt_here v x fs : dec v = Some x → opt dec k ((k, v) :: fs) = Some (Some x).
Proof. intros Hd. unfold opt, lookup_key. cbn. rewrite bool_decide_eq_true_2 by done. cbn. by rewrite Hd. Qed.
Lemma opt_skip_kv k' v l : k' ≠ k → opt dec k (fields_of (Kv k' v :: l)) = opt dec k (fields_of l).
Proof. apply opt_skip. Qed.
Lemma opt_skip_note k' v n l : k' ≠ k → opt dec k (fields_of (KvNote k' v n :: l)) = opt dec k (fields_of l).
Proof. apply opt_skip. Qed.
Lemma opt_skip_opt {B} k' (f : B → rvalue) o l :
  k' ≠ k → opt dec k (fields_of (kv_opt k' f o ++ l)) = opt dec k (fields_of l).
Proof. intros Hk. destruct o; [|done]. by apply opt_skip_kv. Qed.
Lemma opt_skip_redacted keys set l : opt dec k (fields_of (redacted_pair keys set ++ l)) = opt dec k (fields_of l).
Proof. by destruct set. Qed.
Lemma opt_kv v l x : dec (toml_of v) = Some x → opt dec k (fields_of (Kv k v :: l)) = Some (Some x).
Proof. apply opt_here. Qed.
Lemma opt_note v n l x : dec (toml_of v) = Some x → opt dec k (fields_of (KvNote k v n :: l)) = Some (Some x).
Proof. apply opt_here. Qed.
Lemma opt_opt {B} (f : B → rvalue) (g : B → A) o l :
  (∀ b, dec (toml_of (f b)) = Some (g b)) → opt dec k (fields_of l) = Some None →
  opt dec k (fields_of (kv_opt k f o ++ l)) = Some (g <$> o).
Proof. intros Hd Hl. destruct o as [b|]; [|done]. by apply opt_kv. Qed.
Lemma opt_nil : opt dec k (fields_of []) = Some None.
Proof. done. Qed.
End keys.

Definition item_known (names : list string) (i : item) : Prop :=
  match i with Kv k _ | KvNote k _ _ => bool_decide (k ∈ names) = true | _ => True end.
Lemma deny_known names l : Forall (item_known names) l → deny_unknown names (fields_of l) = Some (fields_of l).
Proof.
  intros H. unfold deny_unknown. replace (forallb _ (fields_of l)) with true; [done|]. symmetry.
  induction H as [|i l Hi _ IH]; [done|]. rewrite fields_cons, forallb_app, IH.
  destruct i; cbn in Hi |- *; rewrite ?Hi; done.
Qed.
Lemma opt_known {A} names key (f : A → rvalue) o : bool_decide (key ∈ names) = true → Forall (item_known names) (kv_opt key f o).
Proof. destruct o; cbn; [|done]. by constructor. Qed.
Lemma redacted_known names keys set : Forall (item_known names) (redacted_pair keys set).
Proof. destruct set; cbn; [|done]. by constructor. Qed.
Ltac known :=
  repeat first [ apply opt_known; reflexivity | apply redacted_known | apply Forall_nil_2 | apply Forall_app; split
               | apply Forall_cons; split; [reflexivity|] | case_bool_decide | case_match ].

Lemma t_unsigned_in max z : 0 ≤ z ≤ max → t_unsigned max (TInteger z) = Some z.
Proof.
  intros [H0 H1]. cbn. by rewrite (proj2 (Z.leb_le _ _) H0), (proj2 (Z.leb_le _ _) H1).
Qed.
Lemma t_strings_of l : t_strings (TArray (TString <$> l)) = Some l.
Proof. unfold t_strings. induction l as [|s l IH]; [done|]. cbn. cbn in IH. by rewrite IH. Qed.

Lemma bind_some_of {A B} (m : option A) (f : A → option B) a : m = Some a → m ≫= f = f a.
Proof. by intros ->. Qed.

Lemma fmap_same {A} (o : option A) : (λ a : A, a) <$> o = o.
Proof. by destruct o. Qed.

(** Decodes one value; finds one key. *)
Ltac decoded := first [ reflexivity | apply t_strings_of | apply t_unsigned_in; assumption | intros ?; first [reflexivity | apply t_strings_of] ].
Ltac find_key :=
  repeat first [ rewrite opt_skip_kv by done | rewrite opt_skip_note by done | rewrite opt_skip_opt by done
               | rewrite opt_skip_redacted ];
  first [ eapply opt_kv; decoded | eapply opt_note; decoded | apply opt_nil
        | eapply opt_opt; [decoded|find_key] ].
Ltac read_keys := repeat (erewrite bind_some_of; [|find_key]; cbv beta).

Definition pools_file_of (p : PoolsConfig) : PoolsFile :=
  {| pf_enabled := Some (names (pc_enabled p)); pf_default_receivers := Some (names (pc_default_receivers p));
     pf_transparent := Some (pc_transparent_enabled p); pf_transparent_default := Some (pc_transparent_default p);
     pf_gap_limit := Some (pc_gap_limit p); pf_initial_scan := Some (pc_initial_scan p);
     pf_allow_beyond := Some (pc_allow_beyond p); pf_warn_threshold := Some (pc_warn_threshold p) |}.
Definition pools_width (p : PoolsConfig) : Prop :=
  is_u32 (pc_gap_limit p) ∧ is_u32 (pc_initial_scan p) ∧ is_u32 (pc_warn_threshold p).

Section sections.
Context `{HT : Toml}.

Lemma sync_read y :
  is_u64 (yc_interval_secs y) → is_u64 (yc_rebroadcast_secs y) → is_u32 (yc_batch_size y) → is_u32 (yc_writer_cache_mib y) →
  is_usize (yc_enhance_concurrency y) →
  t_sync (TTable (fields_of (sync_items y))) =
  Some {| yf_interval_secs := Some (yc_interval_secs y); yf_rebroadcast_secs := Some (yc_rebroadcast_secs y);
          yf_fetch_memos := Some (yc_fetch_memos y); yf_batch_size := Some (yc_batch_size y);
          yf_writer_cache_mib := Some (yc_writer_cache_mib y);
          yf_enhance_concurrency := Some (yc_enhance_concurrency y) |}.
Proof.
  intros. unfold t_sync, section. rewrite deny_known by (unfold sync_items; known). unfold sync_items.
  cbn [mbind option_bind]. read_keys. done.
Qed.
Lemma spend_read s :
  is_u32 (sc_trusted_confirmations s) → is_u32 (sc_untrusted_confirmations s) → is_usize (sc_orchard_action_limit s) →
  is_usize (sc_max_tx_bytes s) → is_usize (sc_target_note_count s) → is_u64 (sc_min_split_output_value s) →
  is_u64 (sc_shutdown_drain_secs s) → is_u32 (sc_max_send_catchup_blocks s) →
  t_spend (TTable (fields_of (spend_items s))) =
  Some {| sf_trusted_confirmations := Some (sc_trusted_confirmations s);
          sf_untrusted_confirmations := Some (sc_untrusted_confirmations s);
          sf_trust_own_transactions := Some (sc_trust_own_transactions s);
          sf_privacy_policy := Some (policy_name (sc_privacy s));
          sf_orchard_action_limit := Some (sc_orchard_action_limit s); sf_max_tx_bytes := Some (sc_max_tx_bytes s);
          sf_cache_proving_key := Some (sc_cache_proving_key s); sf_pipeline_proving := Some (sc_pipeline_proving s);
          sf_target_note_count := Some (sc_target_note_count s);
          sf_min_split_output_value := Some (sc_min_split_output_value s);
          sf_shutdown_drain_secs := Some (sc_shutdown_drain_secs s);
          sf_max_send_catchup_blocks := Some (sc_max_send_catchup_blocks s) |}.
Proof.
  intros. unfold t_spend, section. rewrite deny_known by (unfold spend_items; known). unfold spend_items.
  cbn [mbind option_bind]. read_keys. done.
Qed.
Lemma health_read h :
  0 ≤ hs_port h ≤ u16_max → is_u32 (hs_max_scan_lag h) →
  t_health (TTable (fields_of (health_items h))) =
  Some {| hf_enabled := Some (hs_enabled h); hf_bind := Some (ip_display (hs_bind h)); hf_port := Some (hs_port h);
          hf_readiness := Some (readiness_as_str (hs_readiness h)); hf_max_scan_lag := Some (hs_max_scan_lag h) |}.
Proof.
  intros. unfold t_health, section. rewrite deny_known by (unfold health_items; known). unfold health_items.
  cbn [mbind option_bind]. read_keys. done.
Qed.
Lemma fleet_read f :
  is_usize (fc_shard_size f) → is_u32 (fc_cohort_depth f) →
  t_fleet (TTable (fields_of (fleet_items f))) =
  Some {| ff_enabled := Some (fc_enabled f); ff_manifest_dir := Some (fc_manifest_dir f); ff_dir := Some (fc_dir f);
          ff_shard_size := Some (fc_shard_size f); ff_cohort_depth := Some (fc_cohort_depth f) |}.
Proof.
  intros. unfold t_fleet, section. rewrite deny_known by (unfold fleet_items; known). unfold fleet_items.
  cbn [mbind option_bind]. read_keys. done.
Qed.
Lemma log_read l :
  t_log (TTable (fields_of (log_items l))) = Some {| lf_level := Some (lc_level l); lf_format := Some (lc_format l) |}.
Proof.
  unfold t_log, section. rewrite deny_known by (unfold log_items; known). unfold log_items.
  cbn [mbind option_bind]. read_keys. done.
Qed.
Lemma zebra_read z :
  t_zebra (TTable (fields_of (zebra_items z))) =
  Some {| zf_rpc_user := None; zf_rpc_password := None; zf_rpc_cookie := za_cookie z |}.
Proof.
  unfold t_zebra, section. rewrite deny_known by (unfold zebra_items; known). unfold zebra_items.
  rewrite <- (app_nil_r (redacted_pair _ _)). cbn [mbind option_bind]. read_keys. by destruct (za_cookie z).
Qed.
Lemma keys_read k :
  t_keys (TTable (fields_of (keys_items k))) =
  Some {| kf_age_identity := kc_age_identity k; kf_auto_unlock := Some (kc_auto_unlock k); kf_keys_file := None;
          kf_bootstrap_from_keys := Some (kc_bootstrap_from_keys k); kf_allow_multiple := Some (kc_allow_multiple k) |}.
Proof.
  unfold t_keys, section. rewrite deny_known by (unfold keys_items; known). unfold keys_items.
  cbn [mbind option_bind]. read_keys. by destruct (kc_age_identity k).
Qed.
Lemma rpc_read r :
  0 ≤ rs_port r ≤ u16_max → is_usize (rs_work_queue r) →
  t_rpc (TTable (fields_of (rpc_items r))) =
  Some {| rf_bind := Some (ip_display (rs_bind r)); rf_port := Some (rs_port r); rf_user := None; rf_password := None;
          rf_password_file := None; rf_auth := None; rf_cookiefile := Auth.rc_cookiefile (rs_credentials r);
          rf_work_queue := Some (rs_work_queue r); rf_allowed_methods := Some (rs_allowed_methods r);
          rf_allow_duplicate := Some (rs_allow_duplicate r) |}.
Proof.
  intros. unfold t_rpc, section. rewrite deny_known by (unfold rpc_items; known). unfold rpc_items.
  cbn [mbind option_bind app]. read_keys. by destruct (Auth.rc_cookiefile (rs_credentials r)).
Qed.
Lemma backend_read c :
  let b := ac_backend c in
  is_u64 (bk_connect_timeout_secs b) → is_u64 (bk_reconnect_base_secs b) → is_u64 (bk_reconnect_max_secs b) →
  t_backend (TTable (fields_of (backend_items c))) =
  Some {| bf_server := Some (bk_server b); bf_connect_timeout_secs := Some (bk_connect_timeout_secs b);
          bf_reconnect_base_secs := Some (bk_reconnect_base_secs b); bf_reconnect_max_secs := Some (bk_reconnect_max_secs b);
          bf_rfc1918_is_local := Some (bk_rfc1918_is_local b); bf_allow_remote_cleartext := Some (bk_allow_remote_cleartext b);
          bf_tls := Some (tls_text (bk_tls b)); bf_tls_roots := Some (roots_text (bk_tls_roots b));
          bf_tls_insecure_skip_verify := Some (bk_tls_insecure_skip_verify b); bf_tls_ca_file := bk_tls_ca_file b;
          bf_tls_pinned_sha256 := if bool_decide (bk_tls_pins b = []) then None else Some (fingerprint_display <$> bk_tls_pins b);
          bf_assume_transparent := Some (bk_assume_transparent b); bf_proxy := socks_display <$> bk_proxy b |}.
Proof.
  intros b ? ? ?. unfold t_backend, section. rewrite deny_known by (unfold backend_items; known). unfold backend_items.
  change (ac_backend c) with b. case_bool_decide; cbn [mbind option_bind app]; read_keys; by destruct (bk_tls_ca_file b).
Qed.
Lemma global_pools_read p :
  pools_width p → t_pools (TTable (fields_of (pool_items "enabled" p))) = Some (pools_file_of p).
Proof.
  intros (? & ? & ?). unfold t_pools, section, pools_fields.
  rewrite deny_known by (unfold pool_items; known). unfold pool_items.
  cbn [mbind option_bind]. read_keys. done.
Qed.
Definition wallet_file_of (w : WalletEntry) : WalletFile :=
  let o := we_backend w in
  {| wf_dir := Some (we_dir w); wf_keys_file := we_keys_file w; wf_server := wo_server o; wf_tls := fmap (M:=option) tls_text (wo_tls o);
     wf_tls_roots := fmap (M:=option) roots_text (wo_tls_roots o); wf_tls_insecure_skip_verify := wo_tls_insecure_skip_verify o;
     wf_tls_ca_file := wo_tls_ca_file o;
     wf_tls_pinned_sha256 := fmap (M:=option) (fmap (M:=list) fingerprint_display) (wo_tls_pins o);
     wf_assume_transparent := wo_assume_transparent o; wf_pools := pools_file_of (we_pools w) |}.
Lemma wallet_read c w :
  pools_width (we_pools w) → t_wallet (TTable (fields_of (wallet_items c w))) = Some (wallet_file_of w).
Proof.
  intros (? & ? & ?). unfold t_wallet, section, pools_fields.
  rewrite deny_known by (unfold wallet_items, pool_items; known). unfold wallet_items, pool_items, wallet_file_of.
  destruct (wo_server (we_backend w)) eqn:Hs; cbn [mbind option_bind app]; read_keys;
    (erewrite bind_some_of; [|read_keys; reflexivity]); cbv beta.
  all: by rewrite !fmap_same.
Qed.
End sections.

(** ** Fingerprints *)

Definition printable (c : ascii) : bool := (33 <=? byte_of c) && (byte_of c <=? 126).
Definition singles (s : string) : list string := (λ c, String c "") <$> String.list_ascii_of_string s.
Lemma chars_printable s : all_bytes printable s = true → chars s = singles s.
Proof.
  assert (∀ s c, all_bytes printable s = true → chars_aux (String c "") s = String c "" :: singles s) as Haux.
  { intros s'. induction s' as [|d s' IH]; intros c Hs; [done|]. cbn in Hs. apply andb_true_iff in Hs as [Hd Hs].
    cbn. replace (is_continuation d) with false by (unfold printable, is_continuation in *; lia). by rewrite IH. }
  destruct s as [|c s]; [done|]. cbn. intros [Hc Hs]%andb_true_iff.
  replace (is_continuation c) with false by (unfold printable, is_continuation in *; lia). by rewrite Haux.
Qed.
Lemma printable_not_space s : all_bytes printable s = true → Forall (λ ch, is_whitespace ch = false) (singles s).
Proof.
  induction s as [|c s IH]; [constructor|]. cbn. intros [Hc Hs]%andb_true_iff. constructor; [|by apply IH].
  unfold printable in Hc. unfold is_whitespace. lia.
Qed.
Lemma drop_none {A} (p : A → bool) l : Forall (λ x, p x = false) l → drop_while p l = l.
Proof. destruct 1 as [|x l Hx _]; [done|]. cbn. by rewrite Hx. Qed.
Lemma concat_singles s : concat_str (singles s) = s.
Proof. induction s as [|c s IH]; [done|]. cbn. by rewrite <- IH at 2. Qed.
Lemma trim_printable s : all_bytes printable s = true → trim s = s.
Proof.
  intros Hs. pose proof (printable_not_space s Hs) as Hw. unfold trim. rewrite chars_printable by done.
  rewrite (drop_none _ (singles s)) by done. rewrite drop_none by (by apply Forall_reverse). rewrite reverse_involutive.
  apply concat_singles.
Qed.

Definition uncolon (s : string) : string := concat_str (List.filter (λ c, negb (bool_decide (c = ":"))) (singles s)).
Lemma concat_str_app l1 l2 : concat_str (l1 ++ l2) = concat_str l1 +:+ concat_str l2.
Proof. induction l1 as [|x l1 IH]; [done|]. cbn. by rewrite IH, append_assoc. Qed.
Lemma singles_app a b : singles (a +:+ b) = singles a ++ singles b.
Proof. induction a as [|c a IH]; [done|]. cbn. f_equal. apply IH. Qed.
Lemma uncolon_app a b : uncolon (a +:+ b) = uncolon a +:+ uncolon b.
Proof. unfold uncolon. by rewrite singles_app, List.filter_app, concat_str_app. Qed.
Lemma upper_digit z :
  0 ≤ z < 16 → let c := if z <? 10 then ascii_of_nat (Z.to_nat (z + 48)) else ascii_of_nat (Z.to_nat (z + 55)) in
  printable c = true ∧ c ≠ ":"%char.
Proof.
  intros Hz. assert (z ∈ seqZ 0 16) as Hin by (apply elem_of_seqZ; lia).
  repeat (apply elem_of_cons in Hin as [->|Hin]; [vm_compute; done|]). by apply not_elem_of_nil in Hin.
Qed.
Lemma upper_hex_byte_ok c : all_bytes printable (upper_hex_byte c) = true ∧ uncolon (upper_hex_byte c) = upper_hex_byte c.
Proof.
  assert (0 ≤ byte_of c < 256) as Hc by apply byte_of_range.
  destruct (upper_digit (byte_of c / 16)) as [Hp1 Hn1]; [split; [apply Z.div_pos; lia|apply Z.div_lt_upper_bound; lia]|].
  destruct (upper_digit (byte_of c mod 16)) as [Hp2 Hn2]; [apply Z.mod_pos_bound; lia|].
  unfold upper_hex_byte. cbv zeta beta in *. split.
  - cbn [all_bytes]. by rewrite Hp1, Hp2.
  - unfold uncolon. cbn [singles String.list_ascii_of_string fmap list_fmap List.filter].
    rewrite !bool_decide_eq_false_2 by congruence. done.
Qed.
Definition hex_upper (bytes : string) : string := concat_str (upper_hex_byte <$> String.list_ascii_of_string bytes).
Lemma fingerprint_shown pin :
  all_bytes printable (fingerprint_display pin) = true ∧ uncolon (fingerprint_display pin) = hex_upper pin.
Proof.
  unfold fingerprint_display, hex_upper. induction (String.list_ascii_of_string pin) as [|c l [IH1 IH2]]; [done|].
  destruct (upper_hex_byte_ok c) as [Hp Hu]. destruct l as [|d l].
  - cbn [fmap list_fmap join concat_str]. rewrite append_nil_r. done.
  - change (join ":" (upper_hex_byte <$> c :: d :: l)) with
      (upper_hex_byte c +:+ ":" +:+ join ":" (upper_hex_byte <$> d :: l)).
    change (concat_str (upper_hex_byte <$> c :: d :: l)) with (upper_hex_byte c +:+ concat_str (upper_hex_byte <$> d :: l)).
    rewrite !all_bytes_append, !uncolon_app, Hp, Hu, IH1, IH2. done.
Qed.
Lemma fingerprint_hex_shown pin : fingerprint_hex (fingerprint_display pin) = hex_upper pin.
Proof.
  destruct (fingerprint_shown pin) as [Hp Hu]. unfold fingerprint_hex. rewrite trim_printable, chars_printable by done. done.
Qed.
Lemma length_hex_upper pin : String.length (hex_upper pin) = (2 * String.length pin)%nat.
Proof.
  unfold hex_upper. induction pin as [|c pin IH]; [done|]. cbn [String.list_ascii_of_string]. rewrite fmap_cons.
  cbn [concat_str]. rewrite length_append, IH. cbn [upper_hex_byte String.length]. lia.
Qed.

(** What the hex crate does: it decodes two digits to a byte, and reads the upper-case digits of
    bytes back to them. *)
Definition hex_law (hex : string → result string string) : Prop :=
  ∀ s b, hex s = Ok b → String.length s = (2 * String.length b)%nat ∧ hex (hex_upper b) = Ok b.
Lemma fingerprint_round_trip hex s pin :
  hex_law hex → fingerprint_parse hex s = Ok pin → fingerprint_parse hex (fingerprint_display pin) = Ok pin.
Proof.
  intros Hlaw. unfold fingerprint_parse. rewrite fingerprint_hex_shown.
  destruct (Nat.eqb_spec (String.length (fingerprint_hex s)) 64) as [Hl|]; [|done]. cbn [negb].
  destruct (hex (fingerprint_hex s)) as [b|] eqn:E; cbn; [|done]. intros [= ->].
  destruct (Hlaw _ _ E) as [Hlen Hup]. rewrite Hlen in Hl. by rewrite length_hex_upper, Hl, Hup.
Qed.
Lemma pins_round_trip hex given pins :
  hex_law hex → parse_pins hex given = Ok pins → parse_pins hex (fingerprint_display <$> pins) = Ok pins.
Proof.
  intros Hlaw. revert pins. induction given as [|s given IH]; intros pins H; cbn in H; [by injection H as <-|].
  apply bind_Ok_inv in H as (pin & Hpin & H). apply bind_Ok_inv in H as (rest & Hrest & H). injection H as <-.
  cbn. rewrite (fingerprint_round_trip hex s pin) by done. cbn. specialize (IH _ Hrest). unfold parse_pins in IH. by rewrite IH.
Qed.

(** ** Maps in key order *)

Lemma key_lt_spec a b : key_lt a b = true ↔ String.le a b ∧ a ≠ b.
Proof.
  unfold key_lt, String.le. rewrite andb_true_iff, negb_true_iff, bool_decide_eq_false, Is_true_true. done.
Qed.
Lemma key_lt_asym a b : key_lt a b = true → key_lt b a = false.
Proof.
  intros [Hle Hne]%key_lt_spec. destruct (key_lt b a) eqn:E; [|done]. apply key_lt_spec in E as [Hle' _].
  destruct Hne. by apply (anti_symm String.le).
Qed.
Lemma key_lt_trans a b c : key_lt a b = true → key_lt b c = true → key_lt a c = true.
Proof.
  rewrite !key_lt_spec. intros [H1 Hn1] [H2 Hn2]. split; [by trans b|]. intros ->. apply Hn1. by apply (anti_symm String.le).
Qed.
Lemma key_lt_total a b : key_lt a b = false → a ≠ b → key_lt b a = true.
Proof.
  intros Hlt Hne. apply key_lt_spec. split; [|done]. destruct (total String.le a b) as [Hle|]; [|done].
  exfalso. enough (key_lt a b = true) by congruence. by apply key_lt_spec.
Qed.

Definition in_key_order {A} (l : list (string * A)) : Prop := StronglySorted (λ a b, key_lt (fst a) (fst b) = true) l.
Lemma bt_insert_ordered {A} k (v : A) m : in_key_order m → in_key_order (bt_insert k v m).
Proof.
  unfold in_key_order. induction 1 as [|[k' v'] m Hm IH Hall]; cbn; [by repeat constructor|].
  destruct (key_lt k k') eqn:E.
  - constructor; [by constructor|]. constructor; [done|]. eapply Forall_impl; [exact Hall|]. intros [k2 v2] H2. cbn in *.
    by eapply key_lt_trans.
  - case_bool_decide as Ek; [subst; by constructor|]. constructor; [done|].
    apply Forall_forall. intros [k2 v2] [[= -> ->]|Hin]%bt_insert_elem; cbn; [by apply key_lt_total|].
    rewrite Forall_forall in Hall. by apply (Hall (k2, v2)).
Qed.
Lemma bt_of_ordered {A} (l : list (string * A)) : in_key_order (bt_of l).
Proof.
  unfold bt_of. assert (∀ m, in_key_order m → in_key_order (foldl (λ m kv, bt_insert (fst kv) (snd kv) m) m l)) as H.
  { induction l as [|[k v] l IH]; intros m Hm; [done|]. cbn. apply IH. by apply bt_insert_ordered. }
  apply H. constructor.
Qed.
Lemma bt_insert_last {A} k (v : A) m :
  Forall (λ kv, key_lt (fst kv) k = true) m → bt_insert k v m = m ++ [(k, v)].
Proof.
  induction 1 as [|[k' v'] m Hk _ IH]; [done|]. cbn in *. rewrite (key_lt_asym k' k) by done.
  rewrite bool_decide_eq_false_2; [by rewrite IH|]. intros ->. apply key_lt_spec in Hk. naive_solver.
Qed.
Lemma bt_of_id {A} (l : list (string * A)) : in_key_order l → bt_of l = l.
Proof.
  unfold bt_of. assert (∀ l m : list (string * A), in_key_order (m ++ l) → foldl (λ m kv, bt_insert (fst kv) (snd kv) m) m l = m ++ l) as H.
  { clear l. intros l. induction l as [|[k v] l IH]; intros m Hm; cbn; [by rewrite app_nil_r|].
    rewrite bt_insert_last.
    - rewrite IH; by rewrite <- (assoc_L (++)).
    - apply StronglySorted_app in Hm as (Hx & _ & _). apply Forall_forall. intros kv Hin. apply (Hx kv (k, v)); [done|left]. }
  intros Hl. by apply (H l []).
Qed.
Lemma ordered_fmap {A B} (f : string * A → string * B) l :
  (∀ kv, fst (f kv) = fst kv) → in_key_order l → in_key_order (f <$> l).
Proof.
  intros Hf. unfold in_key_order. induction 1 as [|kv l Hl IH Hall]; cbn; constructor; [done|].
  apply Forall_fmap. eapply Forall_impl; [exact Hall|]. intros kv' H. cbn. by rewrite !Hf.
Qed.

(** ** The whole file read back *)

(** Every number within the width of its field: the types of the configuration. *)
Record widths (c : AppConfig) : Prop := {
  wd_backend : Forall is_u64 [bk_connect_timeout_secs (ac_backend c); bk_reconnect_base_secs (ac_backend c);
                              bk_reconnect_max_secs (ac_backend c)];
  wd_rpc : 0 ≤ rs_port (ac_rpc c) ≤ u16_max ∧ is_usize (rs_work_queue (ac_rpc c));
  wd_sync : Forall is_u64 [yc_interval_secs (ac_sync c); yc_rebroadcast_secs (ac_sync c); yc_enhance_concurrency (ac_sync c)] ∧
            Forall is_u32 [yc_batch_size (ac_sync c); yc_writer_cache_mib (ac_sync c)];
  wd_spend : let s := ac_spend c in
             Forall is_u32 [sc_trusted_confirmations s; sc_untrusted_confirmations s; sc_max_send_catchup_blocks s] ∧
             Forall is_u64 [sc_orchard_action_limit s; sc_max_tx_bytes s; sc_target_note_count s;
                            sc_min_split_output_value s; sc_shutdown_drain_secs s];
  wd_health : 0 ≤ hs_port (ac_health c) ≤ u16_max ∧ is_u32 (hs_max_scan_lag (ac_health c));
  wd_fleet : is_usize (fc_shard_size (ac_fleet c)) ∧ is_u32 (fc_cohort_depth (ac_fleet c));
  wd_pools : pools_width (ac_pools c);
  wd_wallets : Forall (λ nw, pools_width (we_pools (snd nw))) (ac_wallets c);
}.

Definition backend_file_of (b : BackendConfig) : BackendFile :=
  {| bf_server := Some (bk_server b); bf_connect_timeout_secs := Some (bk_connect_timeout_secs b);
     bf_reconnect_base_secs := Some (bk_reconnect_base_secs b); bf_reconnect_max_secs := Some (bk_reconnect_max_secs b);
     bf_rfc1918_is_local := Some (bk_rfc1918_is_local b); bf_allow_remote_cleartext := Some (bk_allow_remote_cleartext b);
     bf_tls := Some (tls_text (bk_tls b)); bf_tls_roots := Some (roots_text (bk_tls_roots b));
     bf_tls_insecure_skip_verify := Some (bk_tls_insecure_skip_verify b); bf_tls_ca_file := bk_tls_ca_file b;
     bf_tls_pinned_sha256 := if bool_decide (bk_tls_pins b = []) then None else Some (fingerprint_display <$> bk_tls_pins b);
     bf_assume_transparent := Some (bk_assume_transparent b); bf_proxy := fmap (M:=option) socks_display (bk_proxy b) |}.
Definition file_of (c : AppConfig) : ConfigFile :=
  let b := ac_backend c in let r := ac_rpc c in let k := ac_keys c in let y := ac_sync c in let s := ac_spend c in
  let h := ac_health c in let f := ac_fleet c in let l := ac_log c in
  {| cf_network := Some (network_name (ac_network c)); cf_datadir := Some (ac_datadir c);
     cf_default_wallet := Some (ac_default_wallet c);
     cf_wallets := (λ nw, (fst nw, wallet_file_of (snd nw))) <$> ac_wallets c;
     cf_backend := Some (backend_file_of b);
     cf_zebra := Some {| zf_rpc_user := None; zf_rpc_password := None; zf_rpc_cookie := za_cookie (ac_zebra c) |};
     cf_rpc := Some
       {| rf_bind := Some (ip_display (rs_bind r)); rf_port := Some (rs_port r); rf_user := None; rf_password := None;
          rf_password_file := None; rf_auth := None; rf_cookiefile := Auth.rc_cookiefile (rs_credentials r);
          rf_work_queue := Some (rs_work_queue r); rf_allowed_methods := Some (rs_allowed_methods r);
          rf_allow_duplicate := Some (rs_allow_duplicate r) |};
     cf_keys := Some
       {| kf_age_identity := kc_age_identity k; kf_auto_unlock := Some (kc_auto_unlock k); kf_keys_file := None;
          kf_bootstrap_from_keys := Some (kc_bootstrap_from_keys k); kf_allow_multiple := Some (kc_allow_multiple k) |};
     cf_sync := Some
       {| yf_interval_secs := Some (yc_interval_secs y); yf_rebroadcast_secs := Some (yc_rebroadcast_secs y);
          yf_fetch_memos := Some (yc_fetch_memos y); yf_batch_size := Some (yc_batch_size y);
          yf_writer_cache_mib := Some (yc_writer_cache_mib y); yf_enhance_concurrency := Some (yc_enhance_concurrency y) |};
     cf_spend := Some
       {| sf_trusted_confirmations := Some (sc_trusted_confirmations s);
          sf_untrusted_confirmations := Some (sc_untrusted_confirmations s);
          sf_trust_own_transactions := Some (sc_trust_own_transactions s);
          sf_privacy_policy := Some (policy_name (sc_privacy s));
          sf_orchard_action_limit := Some (sc_orchard_action_limit s); sf_max_tx_bytes := Some (sc_max_tx_bytes s);
          sf_cache_proving_key := Some (sc_cache_proving_key s); sf_pipeline_proving := Some (sc_pipeline_proving s);
          sf_target_note_count := Some (sc_target_note_count s);
          sf_min_split_output_value := Some (sc_min_split_output_value s);
          sf_shutdown_drain_secs := Some (sc_shutdown_drain_secs s);
          sf_max_send_catchup_blocks := Some (sc_max_send_catchup_blocks s) |};
     cf_pools := Some (pools_file_of (ac_pools c));
     cf_health := Some
       {| hf_enabled := Some (hs_enabled h); hf_bind := Some (ip_display (hs_bind h)); hf_port := Some (hs_port h);
          hf_readiness := Some (readiness_as_str (hs_readiness h)); hf_max_scan_lag := Some (hs_max_scan_lag h) |};
     cf_log := Some {| lf_level := Some (lc_level l); lf_format := Some (lc_format l) |};
     cf_fleet := Some
       {| ff_enabled := Some (fc_enabled f); ff_manifest_dir := Some (fc_manifest_dir f); ff_dir := Some (fc_dir f);
          ff_shard_size := Some (fc_shard_size f); ff_cohort_depth := Some (fc_cohort_depth f) |} |}.

Lemma wallets_read `{HT : Toml} c ws :
  in_key_order ws → Forall (λ nw, pools_width (we_pools (snd nw))) ws →
  t_wallets (TTable ((λ nw, (fst nw, TTable (fields_of (wallet_items c (snd nw))))) <$> ws)) =
  Some ((λ nw, (fst nw, wallet_file_of (snd nw))) <$> ws).
Proof.
  intros Hord Hw. unfold t_wallets.
  assert (mapM (λ kv : string * toml, w ← t_wallet (snd kv); Some (fst kv, w))
            ((λ nw, (fst nw, TTable (fields_of (wallet_items c (snd nw))))) <$> ws) =
          Some ((λ nw, (fst nw, wallet_file_of (snd nw))) <$> ws)) as ->.
  { clear Hord. induction Hw as [|[n w] ws Hw _ IH]; [done|]. rewrite !fmap_cons. cbn [mapM fst snd].
    rewrite (wallet_read c w) by exact Hw. cbn [mbind option_bind]. rewrite IH. done. }
  cbn. by rewrite bt_of_id by (by apply (ordered_fmap (λ nw : string * WalletEntry, (fst nw, wallet_file_of (snd nw))))).
Qed.
Lemma config_read `{HT : Toml} c :
  widths c → in_key_order (ac_wallets c) → t_config (rendered_doc c) = Some (file_of c).
Proof.
  intros [Hb [Hr1 Hr2] [Hy64 Hy32] [Hs32 Hs64] [Hh1 Hh2] [Hf1 Hf2] Hp Hw] Hord.
  repeat match goal with H : Forall _ (_ :: _) |- _ => apply Forall_cons in H as [? H] end.
  unfold t_config. change (deny_unknown config_keys (rendered_doc c)) with (Some (rendered_doc c)). unfold rendered_doc.
  cbn [mbind option_bind].
  repeat (erewrite bind_some_of; cycle 1;
    [ repeat rewrite opt_skip by done; eapply opt_here;
      first [ lazymatch goal with |- t_string _ = _ => reflexivity end | by apply backend_read | by apply zebra_read | by apply rpc_read | by apply keys_read
            | by apply sync_read | by apply spend_read | by apply global_pools_read | by apply health_read
            | by apply fleet_read | by apply log_read | by apply wallets_read ] | cbv beta ]).
  done.
Qed.

(** ** Resolved again *)

(** A configuration without the secrets a rendering leaves out. *)
Definition redact (c : AppConfig) : AppConfig :=
  let r := ac_rpc c in
  {| ac_network := ac_network c; ac_datadir := ac_datadir c; ac_default_wallet := ac_default_wallet c;
     ac_wallets := ac_wallets c; ac_backend := ac_backend c;
     ac_zebra := {| za_user := None; za_password := None; za_cookie := za_cookie (ac_zebra c) |};
     ac_rpc := {| rs_bind := rs_bind r; rs_port := rs_port r;
                  rs_credentials := {| Auth.rc_user := None; Auth.rc_password := None; Auth.rc_auth := [];
                                       Auth.rc_cookiefile := Auth.rc_cookiefile (rs_credentials r) |};
                  rs_work_queue := rs_work_queue r; rs_allowed_methods := rs_allowed_methods r;
                  rs_allow_duplicate := rs_allow_duplicate r |};
     ac_keys := ac_keys c; ac_sync := ac_sync c; ac_spend := ac_spend c; ac_pools := ac_pools c;
     ac_health := ac_health c; ac_log := ac_log c; ac_fleet := ac_fleet c |}.

Lemma receivers_named ctx s : wf_set s → with_context ctx (parse_receivers (names s)) = Ok s.
Proof. intros Hs. unfold parse_receivers. by rewrite receiver_set_round_trip. Qed.
Lemma members_subset r e : (∀ p, p ∈ pools r → p ∈ pools e) → is_subset_of r e = true.
Proof.
  intros H. apply forallb_forall. intros p Hp%list_elem_of_In. by apply receiver_mem_spec, H.
Qed.
Lemma flags_pass ctx p :
  pools_ok p → validate_transparent_flags ctx (pc_transparent_enabled p) (pc_transparent_default p) (pc_gap_limit p) = Ok tt.
Proof.
  intros [_ _ _ Hd Hg]. unfold validate_transparent_flags.
  destruct (pc_transparent_default p); [rewrite Hd by done|]; cbn; by destruct (Z.eqb_spec (pc_gap_limit p) 0).
Qed.
Lemma global_pools_again p : pools_ok p → resolve_global_pools (Some (pools_file_of p)) = Ok p.
Proof.
  intros Hp. pose proof Hp as [He Hr Hs _ _]. unfold resolve_global_pools. cbn [mbind option_bind pools_file_of pf_enabled].
  rewrite receivers_named by done. cbn. rewrite receivers_named by done. cbn. rewrite members_subset by done. cbn.
  rewrite flags_pass by done. by destruct p.
Qed.
Lemma wallet_pools_again name p g : pools_ok p → resolve_wallet_pools name (pools_file_of p) g = Ok p.
Proof.
  intros Hp. pose proof Hp as [He Hr Hs _ _]. unfold resolve_wallet_pools. cbn [pools_file_of pf_enabled pf_default_receivers].
  rewrite receivers_named by done. cbn. rewrite receivers_named by done. cbn. rewrite members_subset by done. cbn.
  rewrite flags_pass by done. by destruct p.
Qed.
Lemma tls_named t : parse_tls_mode (tls_text t) = Ok t.
Proof. by destruct t as [[]|]. Qed.
Lemma roots_named r : tls_roots_parse (roots_text r) = Ok r.
Proof. by destruct r. Qed.
Lemma no_conflict_again wallets fleet :
  (∀ name w p, (name, w) ∈ wallets → p ∈ [fc_manifest_dir fleet; fc_dir fleet] → overlaps p (we_dir w) = false) →
  fleet_path_conflict wallets fleet = None.
Proof.
  induction wallets as [|[n w] wallets IH]; intros H; [done|]. cbn [fleet_path_conflict].
  destruct (List.find _ _) as [p|] eqn:Hf.
  - apply find_some in Hf as [Hin Ho]. rewrite (H n w p) in Ho; [done|by left|by apply list_elem_of_In].
  - apply IH. intros name w' p Hin. apply (H name). by right.
Qed.

Section again.
Context `{HT : Toml} (env : string → option string) (exists_ : string → bool) (read : string → result string string).
Context (policy_ok : Z → Z → bool) (hex : string → result string string) (Hhex : hex_law hex).

Lemma wallet_backend_again name w o :
  resolve_wallet_backend read hex name w = Ok o →
  ∀ entry, we_backend entry = o → resolve_wallet_backend read hex name (wallet_file_of entry) = Ok o.
Proof using Hhex.
  unfold resolve_wallet_backend. cbv zeta. intros H. apply bind_Ok_inv in H as (tls & _ & H).
  apply bind_Ok_inv in H as (roots & _ & H). apply bind_Ok_inv in H as (ca & Hca & H).
  apply bind_Ok_inv in H as (pins & Hpins & H). injection H as <-. intros entry Ho. unfold wallet_file_of.
  cbn [wf_server wf_tls wf_tls_roots wf_tls_insecure_skip_verify wf_tls_ca_file wf_tls_pinned_sha256 wf_assume_transparent].
  rewrite Ho. cbn [wo_server wo_tls wo_tls_roots wo_tls_insecure_skip_verify wo_tls_ca_file wo_tls_pins wo_assume_transparent].
  assert (∀ ctx, parse_opt ctx parse_tls_mode (tls_text <$> tls) = Ok tls) as ->
    by (intros; destruct tls; cbn; [by rewrite tls_named|done]).
  assert (∀ ctx, parse_opt ctx tls_roots_parse (roots_text <$> roots) = Ok roots) as ->
    by (intros; destruct roots; cbn; [by rewrite roots_named|done]).
  cbn [mbind result_bind]. rewrite Hca. cbn [mbind result_bind].
  destruct (wf_tls_pinned_sha256 w) as [given|]; cbn in Hpins; [|by injection Hpins as <-].
  destruct (parse_pins hex given) as [l|e] eqn:E; cbn in Hpins; [|done]. injection Hpins as <-. cbn.
  by rewrite (pins_round_trip hex given).
Qed.
Lemma backend_again cli b g :
  resolve_backend read hex cli b = Ok g →
  (∀ p, bk_proxy g = Some p → contains ":" (px_host p) = true ∨ starts_with "[" (px_host p) = false) →
  resolve_backend read hex no_overrides (backend_file_of g) = Ok g.
Proof using Hhex.
  intros H Hproxy. pose proof (backend_ok read hex _ _ _ H) as [Hb Hc]. unfold resolve_backend in H. cbv zeta in H.
  apply bind_Ok_inv in H as (tls & _ & H). apply bind_Ok_inv in H as (roots & _ & H). apply bind_Ok_inv in H as (ca & Hca & H).
  apply bind_Ok_inv in H as (pins & Hpins & H). apply bind_Ok_inv in H as (proxy & Hx & H).
  assert (bk_tls_ca_file g = bf_tls_ca_file b ∧ bk_tls_ca_pem g = ca ∧ bk_tls_pins g = pins ∧ bk_proxy g = proxy) as
    (Hfile & <- & <- & <-) by (by injection H as <-). clear H tls roots.
  unfold resolve_backend, backend_file_of.
  cbn [bf_server bf_connect_timeout_secs bf_reconnect_base_secs bf_reconnect_max_secs bf_rfc1918_is_local
       bf_allow_remote_cleartext bf_tls bf_tls_roots bf_tls_insecure_skip_verify bf_tls_ca_file bf_tls_pinned_sha256
       bf_assume_transparent bf_proxy no_overrides co_server co_proxy option_or].
  rewrite tls_named, roots_named. change (with_context ?ctx (Ok ?a)) with (@Ok failure _ a). cbn [mbind result_bind].
  rewrite Hfile, Hca. cbn [mbind result_bind].
  assert (parse_pins hex (default [] (if bool_decide (bk_tls_pins g = []) then None
                                      else Some (fingerprint_display <$> bk_tls_pins g))) = Ok (bk_tls_pins g)) as ->.
  { case_bool_decide as Hp; [by rewrite Hp|]. cbn [default]. unfold with_context in Hpins.
    destruct (parse_pins hex (default [] (bf_tls_pinned_sha256 b))) eqn:E; cbn in Hpins; [|done]. injection Hpins as <-.
    by eapply pins_round_trip. }
  change (with_context ?ctx (Ok ?a)) with (@Ok failure _ a). cbn [mbind result_bind].
  assert (parse_opt "[backend] proxy" socks_parse (socks_display <$> bk_proxy g) = Ok (bk_proxy g)) as ->.
  { unfold parse_opt in *. destruct (option_or _ _) as [t|]; [|by injection Hx as <-].
    destruct (bk_proxy g) as [p|]; [|done]. cbn. unfold with_context in Hx.
    destruct (socks_parse t) as [p'|] eqn:Ep; cbn in Hx; [|done]. injection Hx as ->.
    by rewrite (socks_round_trip t p) by auto. }
  cbn [mbind result_bind default]. unfold select_server_token. cbn [option_or default].
  change (id ?x) with x. rewrite !Z.max_l by lia. rewrite <- Hfile. by destruct g.
Qed.
End again.
