(* ===== verification/ReloadSpec.v ===== *)
(** * ReloadSpec: the printed configuration is the one that runs, and what a reload changes *)

From S2P Require Import Pools Network Spend Health Fleet Amount EndpointSpec.
From S2P Require Export ShowSpec.
From S2P Require Auth Rpc Engine.

(** ** The wallets, in the order of their names *)

Lemma mapM_keys {A B} (f : string * A → result failure B) l l' :
  mapM (λ kv, e ← f kv; Ok (fst kv, e)) l = Ok l' → fst <$> l' = fst <$> l.
Proof.
  revert l'. induction l as [|[k a] l IH]; intros l' H; cbn in H; [by injection H as <-|].
  apply bind_Ok_inv in H as (x & Hx & H). apply bind_Ok_inv in H as (rest & Hrest & H). injection H as <-.
  apply bind_Ok_inv in Hx as (e & _ & Hx). injection Hx as <-. cbn. f_equal. by apply IH.
Qed.
Lemma in_key_order_keys {A B} (l : list (string * A)) (l' : list (string * B)) :
  fst <$> l = fst <$> l' → in_key_order l → in_key_order l'.
Proof.
  unfold in_key_order. intros Hk Hl. revert l' Hk. induction Hl as [|[k a] l Hl IH Hall]; intros [|[k' b] l'] Hk; try done.
  - constructor.
  - cbn in Hk. injection Hk as -> Hk. constructor; [by apply IH|]. rewrite Forall_forall in Hall. apply Forall_forall.
    intros [k2 b2] Hin. apply (list_elem_of_fmap_2 fst) in Hin. cbn in Hin. rewrite <- Hk in Hin.
    apply list_elem_of_fmap in Hin as ([k3 a3] & Heq & Hin). cbn in Heq. subst k3. apply (Hall _ Hin).
Qed.
Lemma opt_inv {A} (dec : toml → option A) k fs o : opt dec k fs = Some o → o = None ∨ ∃ v x, dec v = Some x ∧ o = Some x.
Proof.
  unfold opt. destruct (lookup_key k fs) as [v|]; [|intros [= <-]; by left].
  destruct (dec v) as [x|] eqn:E; cbn; [|done]. intros [= <-]. right. eauto.
Qed.
Lemma file_ordered `{HT : Toml} text f : from_str text = Ok f → in_key_order (cf_wallets f).
Proof.
  unfold from_str. intros H. apply bind_Ok_inv in H as (doc & _ & H). unfold ok_or in H.
  destruct (t_config doc) as [f'|] eqn:E; [|done]. injection H as ->. unfold t_config in E.
  apply bind_Some in E as (fs & _ & E).
  repeat (apply bind_Some in E as (? & ? & E)). injection E as <-. cbn.
  match goal with H : opt t_wallets _ _ = Some ?ws |- _ => apply opt_inv in H as [->|(v & l & Hv & ->)] end; [constructor|].
  destruct v; try done. cbn in Hv. destruct (mapM _ _) as [given|]; [|done]. injection Hv as <-. cbn. apply bt_of_ordered.
Qed.

Section settled.
Context `{HT : Toml} (env : string → option string) (exists_ : string → bool) (read : string → result string string).
Context (policy_ok : Z → Z → bool) (hex : string → result string string) (Hhex : hex_law hex).
Context (cli : ConfigOverrides) (d : BinaryDefaults).

(** A wallet that reads back to itself. *)
Definition reads_back (g : PoolsConfig) (network : ZNetwork) (nw : string * WalletEntry) : Prop :=
  ∀ datadir dw, resolve_wallet read hex datadir network g dw None (fst nw) (wallet_file_of (snd nw)) = Ok (snd nw).

Lemma wallet_again datadir network g dw kf name w e :
  pools_ok g → resolve_wallet read hex datadir network g dw kf name w = Ok e → reads_back g network (name, e).
Proof using Hhex.
  unfold resolve_wallet. intros Hg H. apply bind_Ok_inv in H as (o & Ho & H). apply bind_Ok_inv in H as (p & Hp & H).
  injection H as <-. intros datadir' dw'. unfold resolve_wallet. cbn [fst snd].
  erewrite wallet_backend_again by (done || exact Ho). cbn [mbind result_bind wallet_file_of wf_pools we_pools].
  rewrite wallet_pools_again by (by eapply wallet_pools_ok). cbn. f_equal. f_equal.
  destruct (option_or (wf_keys_file w) _); cbn; [done|]. by case_bool_decide.
Qed.
Lemma wallets_again datadir network g dw kf file wallets :
  pools_ok g → in_key_order file → resolve_wallets read hex datadir network g dw kf file = Ok wallets →
  in_key_order wallets ∧ Forall (reads_back g network) wallets.
Proof using Hhex.
  intros Hg Hord. unfold resolve_wallets. intros H. apply bind_Ok_inv in H as (l & Hl & H). injection H as <-.
  assert (in_key_order l) as Hlo.
  { eapply in_key_order_keys; [|exact Hord]. symmetry.
    apply (mapM_keys (λ kv, resolve_wallet read hex datadir network g dw kf (fst kv) (snd kv)) _ _ Hl). }
  assert (Forall (reads_back g network) l) as Hall.
  { clear Hlo Hord. revert l Hl. induction file as [|[n w] file IH]; intros l Hl; cbn in Hl; [by injection Hl as <-|].
    apply bind_Ok_inv in Hl as (x & Hx & Hl). apply bind_Ok_inv in Hl as (rest & Hrest & Hl). injection Hl as <-.
    apply bind_Ok_inv in Hx as (e & He & Hx). injection Hx as <-. constructor; [|by apply IH]. by eapply wallet_again. }
  destruct (lookup_key dw l); [done|]. split; [by apply bt_insert_ordered|].
  apply Forall_forall. intros nw [->|Hin]%bt_insert_elem; [|by rewrite Forall_forall in Hall; apply Hall].
  intros datadir' dw'. unfold resolve_wallet. cbn -[resolve_wallet_pools]. rewrite wallet_pools_again by done. cbn. f_equal. f_equal.
  destruct kf; cbn; [done|]. by case_bool_decide.
Qed.
Lemma wallets_resolved g network datadir dw wallets :
  dw ∈ fst <$> wallets → Forall (reads_back g network) wallets →
  resolve_wallets read hex datadir network g dw None ((λ nw, (fst nw, wallet_file_of (snd nw))) <$> wallets) = Ok wallets.
Proof.
  intros Hdw Hall. unfold resolve_wallets.
  assert (mapM (λ kv : string * WalletFile, e ← resolve_wallet read hex datadir network g dw None (fst kv) (snd kv); Ok (fst kv, e))
            ((λ nw : string * WalletEntry, (fst nw, wallet_file_of (snd nw))) <$> wallets) = Ok wallets) as ->.
  { clear Hdw. induction Hall as [|[n w] wallets Hw _ IH]; [done|]. rewrite fmap_cons. cbn [mapM fst snd].
    pose proof (Hw datadir dw) as Hn. cbn [fst snd] in Hn. rewrite Hn. cbn [mbind result_bind] in IH |- *. by rewrite IH. }
  cbn [mbind result_bind]. destruct (lookup_key dw wallets) eqn:E; [done|]. by apply lookup_key_none in E.
Qed.

(** *** The other sections *)

Lemma network_again file n : resolve_network env cli file = Ok n → parse_network env (network_name n) = Ok n.
Proof.
  assert (∀ r, regtest env = Ok r → network_name r = "regtest") as Hreg.
  { intros r Hr. unfold regtest in Hr. apply bind_Ok_inv in Hr as (a & _ & Hr). apply bind_Ok_inv in Hr as (b & _ & Hr).
    apply bind_Ok_inv in Hr as (u & _ & Hr). by injection Hr as <-. }
  assert (∀ r, regtest env = Ok r → parse_network env (network_name r) = Ok r) as Hagain.
  { intros r Hr. rewrite (Hreg _ Hr). change (map_err Panics (regtest env) = Ok r). by rewrite Hr. }
  unfold resolve_network. destruct (co_regtest cli).
  { destruct (regtest env) as [r|] eqn:E; cbn; [|done]. intros [= <-]. by apply Hagain. }
  destruct (co_testnet cli); [by intros [= <-]|]. destruct (option_or _ _) as [s|]; [|by intros [= <-]].
  unfold parse_network at 1, network_parse. cbv zeta. destruct (_ || _); [by intros [= <-]|].
  destruct (_ || _); [by intros [= <-]|]. destruct (bool_decide _); [|done].
  destruct (regtest env) as [r|] eqn:E; cbn; [|done]. intros [= <-]. by apply Hagain.
Qed.
Lemma privacy_named p : privacy_parse (policy_name p) = Ok p.
Proof. by destruct p. Qed.
Lemma readiness_named r : readiness_parse (readiness_as_str r) = Ok r.
Proof. by destruct r. Qed.
Lemma rpc_again cli' datadir datadir' network r s :
  resolve_rpc read cli' d datadir network r = Ok s → parse_ip (ip_display (rs_bind s)) = Some (rs_bind s) →
  resolve_rpc read no_overrides d datadir' network
    {| rf_bind := Some (ip_display (rs_bind s)); rf_port := Some (rs_port s); rf_user := None; rf_password := None;
       rf_password_file := None; rf_auth := None; rf_cookiefile := Auth.rc_cookiefile (rs_credentials s);
       rf_work_queue := Some (rs_work_queue s); rf_allowed_methods := Some (rs_allowed_methods s);
       rf_allow_duplicate := Some (rs_allow_duplicate s) |} =
  Ok {| rs_bind := rs_bind s; rs_port := rs_port s;
        rs_credentials := {| Auth.rc_user := None; Auth.rc_password := None; Auth.rc_auth := [];
                             Auth.rc_cookiefile := Auth.rc_cookiefile (rs_credentials s) |};
        rs_work_queue := rs_work_queue s; rs_allowed_methods := rs_allowed_methods s;
        rs_allow_duplicate := rs_allow_duplicate s |}.
Proof.
  unfold resolve_rpc. intros H Hip. steps H. injection H as <-.
  cbn -[Rpc.is_known_method parse_ip ip_display List.find Z.max] in *.
  destruct (List.find _ _); [done|]. cbn -[parse_ip ip_display Z.max]. unfold parse_bind. rewrite Hip.
  cbn -[Z.max]. rewrite Z.max_l by lia. by destruct (rf_cookiefile r).
Qed.
Lemma spend_again f s :
  resolve_spend policy_ok f = Ok s →
  resolve_spend policy_ok
    {| sf_trusted_confirmations := Some (sc_trusted_confirmations s);
       sf_untrusted_confirmations := Some (sc_untrusted_confirmations s);
       sf_trust_own_transactions := Some (sc_trust_own_transactions s); sf_privacy_policy := Some (policy_name (sc_privacy s));
       sf_orchard_action_limit := Some (sc_orchard_action_limit s); sf_max_tx_bytes := Some (sc_max_tx_bytes s);
       sf_cache_proving_key := Some (sc_cache_proving_key s); sf_pipeline_proving := Some (sc_pipeline_proving s);
       sf_target_note_count := Some (sc_target_note_count s);
       sf_min_split_output_value := Some (sc_min_split_output_value s);
       sf_shutdown_drain_secs := Some (sc_shutdown_drain_secs s);
       sf_max_send_catchup_blocks := Some (sc_max_send_catchup_blocks s) |} = Ok s.
Proof.
  intros H. apply spend_ok in H as (Hpol & Hnotes & Hmin). unfold resolve_spend. cbn [sf_privacy_policy].
  rewrite privacy_named. cbv zeta. cbn. unfold confirmations_policy, validate_change_splitting. cbn. rewrite Hpol. cbn.
  destruct (Z.eqb_spec (sc_target_note_count s) 0); [done|].
  destruct (Z.ltb_spec MAX_MONEY (sc_min_split_output_value s)); [lia|]. cbn. by destruct s.
Qed.
Lemma health_again f s :
  resolve_health d f = Ok s → parse_ip (ip_display (hs_bind s)) = Some (hs_bind s) →
  resolve_health d {| hf_enabled := Some (hs_enabled s); hf_bind := Some (ip_display (hs_bind s)); hf_port := Some (hs_port s);
                      hf_readiness := Some (readiness_as_str (hs_readiness s)); hf_max_scan_lag := Some (hs_max_scan_lag s) |} = Ok s.
Proof.
  intros _ Hip. unfold resolve_health, parse_bind. cbn [hf_bind hf_readiness default]. change (id ?x) with x. rewrite Hip.
  rewrite readiness_named. cbn. by destruct s.
Qed.
Lemma fleet_again datadir wallets f s :
  resolve_fleet datadir wallets f = Ok s → is_absolute (fc_manifest_dir s) = true → is_absolute (fc_dir s) = true →
  ∀ datadir', resolve_fleet datadir' wallets
    {| ff_enabled := Some (fc_enabled s); ff_manifest_dir := Some (fc_manifest_dir s); ff_dir := Some (fc_dir s);
       ff_shard_size := Some (fc_shard_size s); ff_cohort_depth := Some (fc_cohort_depth s) |} = Ok s.
Proof.
  intros H Hm Hd datadir'.
  assert (fc_coin s = Zcash) as Hc.
  { unfold resolve_fleet in H. cbv zeta in H. destruct (_ =? 0); [done|].
    destruct (fc_enabled _); [destruct (fleet_path_conflict _ _); [done|]|]; by injection H as <-. }
  apply fleet_ok in H as [Hsize Hconf]. unfold resolve_fleet, path_join.
  cbn [ff_enabled ff_manifest_dir ff_dir ff_shard_size ff_cohort_depth default]. rewrite Hm, Hd. change (id ?x) with x. cbv zeta.
  replace (Build_FleetConfig _ _ _ _ _ _) with s by (destruct s; cbn in *; by subst).
  destruct (Z.eqb_spec (fc_shard_size s) 0); [done|]. destruct (fc_enabled s); [|done]. by rewrite Hconf.
Qed.
Lemma log_again f s : resolve_log f = Ok s → resolve_log {| lf_level := Some (lc_level s); lf_format := Some (lc_format s) |} = Ok s.
Proof.
  unfold resolve_log. cbv zeta. cbn [lf_level lf_format default]. change (id ?x) with x. set (l := Build_LogConfig _ _).
  destruct (existsb _ _) eqn:E; [|done]. intros [= <-]. cbn [lc_format lc_level]. unfold l in E |- *. cbn [lc_format] in E.
  cbn [lc_format lc_level]. change (id ?x) with x in E |- *. by rewrite E.
Qed.
Lemma sync_again f :
  resolve_sync (let y := resolve_sync f in
    {| yf_interval_secs := Some (yc_interval_secs y); yf_rebroadcast_secs := Some (yc_rebroadcast_secs y);
       yf_fetch_memos := Some (yc_fetch_memos y); yf_batch_size := Some (yc_batch_size y);
       yf_writer_cache_mib := Some (yc_writer_cache_mib y); yf_enhance_concurrency := Some (yc_enhance_concurrency y) |})
  = resolve_sync f.
Proof. unfold resolve_sync. cbn -[Z.max]. f_equal; lia. Qed.
Lemma keys_again datadir datadir' f :
  resolve_keys no_overrides datadir' (let k := resolve_keys cli datadir f in
    {| kf_age_identity := kc_age_identity k; kf_auto_unlock := Some (kc_auto_unlock k); kf_keys_file := None;
       kf_bootstrap_from_keys := Some (kc_bootstrap_from_keys k); kf_allow_multiple := Some (kc_allow_multiple k) |})
  = resolve_keys cli datadir f.
Proof. unfold resolve_keys. cbn. f_equal. destruct (co_age_identity cli); [done|]. by destruct (kf_age_identity f). Qed.

(** What the rendering of a configuration relies on: the widths of its fields, addresses and a proxy
    whose text names them, and the fleet's directories written as absolute paths. *)
Record printable_config (c : AppConfig) : Prop := {
  pr_widths : widths c;
  pr_rpc_bind : parse_ip (ip_display (rs_bind (ac_rpc c))) = Some (rs_bind (ac_rpc c));
  pr_health_bind : parse_ip (ip_display (hs_bind (ac_health c))) = Some (hs_bind (ac_health c));
  pr_proxy : ∀ p, bk_proxy (ac_backend c) = Some p → contains ":" (px_host p) = true ∨ starts_with "[" (px_host p) = false;
  pr_manifests : is_absolute (fc_manifest_dir (ac_fleet c)) = true;
  pr_shards : is_absolute (fc_dir (ac_fleet c)) = true;
}.
Lemma file_again file c :
  in_key_order (cf_wallets file) → resolve_file env read policy_ok hex cli d file = Ok c → printable_config c →
  co_datadir cli = None ∨ env (bd_datadir_env d) = None →
  in_key_order (ac_wallets c) ∧ resolve_file env read policy_ok hex no_overrides d (file_of c) = Ok (redact c).
Proof using Hhex.
  intros Hord H [_ Hrb Hhb Hproxy Hman Hshard] Hdir. unfold resolve_file in H.
  apply bind_Ok_inv in H as (network & Hnet & H). apply bind_Ok_inv in H as (p & Hp & H).
  apply bind_Ok_inv in H as (wallets & Hw & H). apply bind_Ok_inv in H as (backend & Hb & H).
  apply bind_Ok_inv in H as ([] & Hv & H). apply bind_Ok_inv in H as ([] & Hvo & H). cbv zeta in H.
  apply bind_Ok_inv in H as (rpc & Hrpc & H). apply bind_Ok_inv in H as (spend & Hspend & H).
  apply bind_Ok_inv in H as (health & Hhealth & H). apply bind_Ok_inv in H as (fleet & Hfleet & H).
  apply bind_Ok_inv in H as (log & Hlog & H). injection H as <-.
  cbn [ac_rpc ac_health ac_backend ac_fleet ac_wallets] in *.
  pose proof (global_pools_ok _ _ Hp) as Hpok.
  destruct (wallets_again _ _ _ _ _ _ _ Hpok Hord Hw) as [Hword Hback].
  destruct (wallets_ok read hex _ _ _ _ _ _ _ Hw Hpok) as [Hdef _].
  split; [done|]. unfold resolve_file, file_of. cbv zeta. cbn [ac_network ac_datadir ac_default_wallet ac_wallets ac_backend ac_zebra
    ac_rpc ac_keys ac_sync ac_spend ac_pools ac_health ac_log ac_fleet cf_network cf_datadir cf_default_wallet cf_wallets
    cf_backend cf_zebra cf_rpc cf_keys cf_sync cf_spend cf_pools cf_health cf_log cf_fleet default].
  change (id ?x) with x.
  unfold resolve_network at 1. cbn [no_overrides co_regtest co_testnet co_network option_or cf_network].
  rewrite (network_again _ _ Hnet). cbn [mbind result_bind]. rewrite (global_pools_again _ Hpok). cbn [mbind result_bind].
  cbn [option_bind kf_keys_file co_keys_file no_overrides option_or].
  rewrite wallets_resolved by done. cbn [mbind result_bind].
  erewrite backend_again by done. cbn [mbind result_bind]. rewrite Hv. cbn [mbind result_bind]. rewrite Hvo.
  cbn [mbind result_bind]. cbv zeta.
  erewrite rpc_again by done. cbn [mbind result_bind]. erewrite spend_again by done. cbn [mbind result_bind].
  erewrite health_again by done. cbn [mbind result_bind]. erewrite fleet_again by done. cbn [mbind result_bind].
  erewrite log_again by done. cbn [mbind result_bind]. f_equal. unfold redact.
  cbn [ac_network ac_datadir ac_default_wallet ac_wallets ac_backend ac_zebra ac_rpc ac_keys ac_sync ac_spend ac_pools
       ac_health ac_log ac_fleet zf_rpc_user zf_rpc_password zf_rpc_cookie za_user za_password za_cookie].
  f_equal.
  - unfold cli_datadir. cbn [no_overrides co_datadir option_or]. destruct (env (bd_datadir_env d)) eqn:E; [|done].
    destruct Hdir as [->|]; [|done]. done.
  - apply keys_again.
  - apply sync_again.
Qed.
End settled.

(** C27. What [config show] prints is what runs. For a configuration with absolute fleet directories,
    addresses and a proxy that read back as they print, and no data directory given on the command
    line over one in the environment: when the TOML reader takes the printed text for the document
    printed (it does not when a wallet's name has a dot or a space), read back as a
    configuration file it resolves, with nothing on the command line, to the configuration it was
    printed from, less its secrets - every key under its name, every default written out, the
    wallets with their endpoints and pools. *)
Theorem show_round_trip `{HT : Toml} (env : string → option string) (exists_ : string → bool)
    (read : string → result string string) (policy_ok : Z → Z → bool) (hex : string → result string string)
    (cli : ConfigOverrides) (d : BinaryDefaults) (c : AppConfig) (Hhex : hex_law hex)
    (Hres : resolve_overrides_with env exists_ read policy_ok hex cli d = Ok c) (Hprint : printable_config c)
    (Hdir : co_datadir cli = None ∨ env (bd_datadir_env d) = None)
    (Htoml : toml_parse (render c) = Ok (doc_of (render_items c))) :
  ∃ file, from_str (render c) = Ok file ∧ resolve_file env read policy_ok hex no_overrides d file = Ok (redact c).
Proof.
  unfold resolve_overrides_with in Hres. apply bind_Ok_inv in Hres as (file & Hfile & Hres).
  assert (in_key_order (cf_wallets file)) as Hord.
  { unfold read_config in Hfile. destruct (exists_ _); [|injection Hfile as <-; constructor].
    apply bind_Ok_inv in Hfile as (text & _ & Hfile). unfold with_context in Hfile.
    destruct (from_str text) as [f|] eqn:E; cbn in Hfile; [|done]. injection Hfile as ->. by eapply file_ordered. }
  destruct (file_again env read policy_ok hex Hhex cli d file c Hord Hres Hprint Hdir) as [Hw Hagain].
  exists (file_of c). split; [|done]. unfold from_str. rewrite Htoml, doc_of_render. cbn [mbind result_bind].
  rewrite config_read; [done|by destruct Hprint|done].
Qed.

(** ** What changed *)

Lemma lookup_bt_insert {A} k j (v : A) m :
  lookup_key j (bt_insert k v m) = if bool_decide (j = k) then Some v else lookup_key j m.
Proof.
  assert (∀ (x : A) i l, lookup_key j ((i, x) :: l) = if bool_decide (i = j) then Some x else lookup_key j l) as Hc.
  { intros x i l. unfold lookup_key. cbn. by case_bool_decide. }
  induction m as [|[k' v'] m IH]; cbn [bt_insert]; [rewrite Hc; repeat case_bool_decide; congruence|].
  destruct (key_lt k k') eqn:E; [rewrite !Hc; repeat case_bool_decide; congruence|].
  destruct (decide (k = k')) as [<-|Hne]; [rewrite bool_decide_eq_true_2 by done|rewrite bool_decide_eq_false_2 by done].
  - rewrite !Hc. repeat case_bool_decide; congruence.
  - rewrite !Hc, IH. repeat case_bool_decide; congruence.
Qed.
Lemma lookup_bt_of {A} (l : list (string * A)) k : NoDup (fst <$> l) → lookup_key k (bt_of l) = lookup_key k l.
Proof.
  assert (∀ m, NoDup (fst <$> l) →
    lookup_key k (foldl (λ m kv, bt_insert (fst kv) (snd kv) m) m l) = option_or (lookup_key k l) (lookup_key k m)) as H.
  { induction l as [|[k' v] l IH]; intros m Hd; [done|]. cbn in Hd. apply NoDup_cons in Hd as [Hnot Hd].
    cbn [foldl fst snd]. rewrite IH by done. rewrite lookup_bt_insert. unfold lookup_key at 3. cbn [List.find fst].
    destruct (decide (k = k')) as [->|Hne].
    - rewrite !bool_decide_eq_true_2 by done. by rewrite (proj2 (lookup_key_none k' l) Hnot).
    - rewrite (bool_decide_eq_false_2 (k = k')), (bool_decide_eq_false_2 (k' = k)) by congruence. done. }
  intros Hd. unfold bt_of. rewrite H by done. by destruct (lookup_key k l).
Qed.
Lemma bt_of_keys {A} k (l : list (string * A)) : k ∈ fst <$> bt_of l ↔ k ∈ fst <$> l.
Proof.
  assert (∀ m, k ∈ fst <$> foldl (λ m kv, bt_insert (fst kv) (snd kv) m) m l ↔ k ∈ fst <$> m ∨ k ∈ fst <$> l) as H.
  { induction l as [|[k' v] l IH]; intros m; cbn [foldl]; [set_solver|]. rewrite IH. cbn.
    assert (k ∈ (bt_insert k' v m).*1 ↔ k = k' ∨ k ∈ m.*1) as ->; [|set_solver]. clear IH.
    destruct (decide (k = k')) as [->|Hne]; [split; [by left|intros _; apply bt_insert_key]|].
    pose proof (lookup_bt_insert k' k v m) as Hl. rewrite bool_decide_eq_false_2 in Hl by done.
    destruct (lookup_key k m) as [x|] eqn:E.
    - apply lookup_key_elem, (list_elem_of_fmap_2 fst) in E. apply lookup_key_elem, (list_elem_of_fmap_2 fst) in Hl.
      cbn in *. tauto.
    - apply lookup_key_none in E, Hl. tauto. }
  unfold bt_of. rewrite H. set_solver.
Qed.
Lemma lookup_nodup {A} (l : list (string * A)) k v : NoDup (fst <$> l) → (k, v) ∈ l ↔ lookup_key k l = Some v.
Proof.
  intros Hd. split; [|apply lookup_key_elem]. induction l as [|[k' v'] l IH]; [set_solver|].
  cbn in Hd. apply NoDup_cons in Hd as [Hnot Hd]. unfold lookup_key. cbn [List.find fst].
  intros [[= -> ->]|Hin]%elem_of_cons; [by rewrite bool_decide_eq_true_2|].
  rewrite bool_decide_eq_false_2; [by apply IH|]. intros ->. apply Hnot. by apply (list_elem_of_fmap_2 fst l (k, v)).
Qed.
Lemma filter_elem {A} (f : A → bool) l x : x ∈ List.filter f l ↔ x ∈ l ∧ f x = true.
Proof. rewrite !list_elem_of_In. apply filter_In. Qed.

(** The keys reported are those whose values differ, one of them missing counting as different. *)
Lemma changed_of_spec a b k :
  NoDup (fst <$> a) → NoDup (fst <$> b) → k ∈ changed_of a b ↔ lookup_key k a ≠ lookup_key k b.
Proof.
  intros Ha Hb. unfold changed_of, sort_dedup. cbv zeta. rewrite bt_of_keys.
  rewrite <- list_fmap_compose. change (fst ∘ (λ k0 : string, (k0, ()))) with (λ k0 : string, k0). rewrite list_fmap_id.
  rewrite !elem_of_app, !list_elem_of_fmap.
  assert (∀ (l l' : list (string * string)), NoDup (fst <$> l') →
    (∃ kv, k = fst kv ∧ kv ∈ List.filter (λ kv, negb (is_some (lookup_key (fst kv) (bt_of l')))) l) ↔
    lookup_key k l ≠ None ∧ lookup_key k l' = None) as Hgone.
  { intros l l' Hd. split.
    - intros ([k' v] & -> & [Hin Hf]%filter_elem). cbn in Hf |- *. rewrite lookup_bt_of in Hf by done. split.
      + rewrite lookup_key_none. intros Hn. apply Hn. by apply (list_elem_of_fmap_2 fst l (k', v)).
      + by destruct (lookup_key k' l').
    - intros [Hl Hl']. destruct (lookup_key k l) as [v|] eqn:E; [|done]. exists (k, v). split; [done|].
      apply filter_elem. split; [by apply lookup_key_elem|]. cbn. by rewrite lookup_bt_of, Hl'. }
  rewrite (Hgone b a Ha), (Hgone a b Hb).
  assert ((∃ kv, k = fst kv ∧ kv ∈ List.filter (λ kv, match lookup_key (fst kv) (bt_of b) with
      | Some other => negb (bool_decide (other = snd kv)) | None => false end) a) ↔
    ∃ v w, lookup_key k a = Some v ∧ lookup_key k b = Some w ∧ v ≠ w) as ->.
  { split.
    - intros ([k' v] & -> & [Hin Hf]%filter_elem). cbn in Hf |- *. rewrite lookup_bt_of in Hf by done.
      apply lookup_nodup in Hin; [|done]. destruct (lookup_key k' b) as [w|]; [|done].
      exists v, w. split_and!; [done..|]. by apply negb_true_iff, bool_decide_eq_false in Hf.
    - intros (v & w & Hv & Hw & Hne). exists (k, v). split; [done|]. apply filter_elem. split; [by apply lookup_nodup|].
      cbn. rewrite lookup_bt_of, Hw by done. apply negb_true_iff, bool_decide_eq_false. congruence. }
  destruct (lookup_key k a) as [v|], (lookup_key k b) as [w|]; naive_solver.
Qed.
Lemma changed_of_ordered a b : StronglySorted (λ j k, key_lt j k = true) (changed_of a b).
Proof.
  unfold changed_of, sort_dedup. cbv zeta. set (l := bt_of _). pose proof (bt_of_ordered _ : in_key_order l) as Hl. clearbody l.
  unfold in_key_order in Hl. induction Hl as [|kv l Hl IH Hall]; cbn; constructor; [done|]. by apply Forall_fmap.
Qed.
Lemma filter_ordered {A} (R : A → A → Prop) (f : A → bool) l : StronglySorted R l → StronglySorted R (List.filter f l).
Proof.
  induction 1 as [|x l Hl IH Hall]; cbn; [constructor|]. destruct (f x); [|done]. constructor; [done|].
  rewrite Forall_forall in Hall. apply Forall_forall. intros y [Hin _]%filter_elem. by apply Hall.
Qed.

(** A reload moves exactly the reloadable limits to the file's values: it reports those that
    moved, with the value before and after, and nothing when run again; every other key whose value
    the file changes, gains or loses is named once, in order, as waiting for a restart, and no key
    that does not differ is. *)
Theorem reload_exact `{HT : Toml} (running fresh : AppConfig) (limits : SpendLimits)
    (Hr : NoDup (fst <$> keyed (render running))) (Hf : NoDup (fst <$> keyed (render fresh))) :
  let report := fst (apply_reload running fresh limits) in
  let after := snd (apply_reload running fresh limits) in
  after = limits_of (ac_spend fresh) ∧
  rr_applied (fst (apply_reload running fresh after)) = [] ∧
  (∀ change, change ∈ rr_applied report ↔
     (sl_orchard_action_limit after ≠ sl_orchard_action_limit limits ∧
      change = ("spend.orchard_action_limit", dec (sl_orchard_action_limit limits), dec (sl_orchard_action_limit after))) ∨
     (sl_max_tx_bytes after ≠ sl_max_tx_bytes limits ∧
      change = ("spend.max_tx_bytes", dec (sl_max_tx_bytes limits), dec (sl_max_tx_bytes after)))) ∧
  (∀ key, key ∈ rr_requires_restart report ↔
     key ∉ RELOADABLE_KEYS ∧ lookup_key key (keyed (render running)) ≠ lookup_key key (keyed (render fresh))) ∧
  StronglySorted (λ j k, key_lt j k = true) (rr_requires_restart report).
Proof.
  unfold apply_reload. cbv zeta. cbn [fst snd rr_applied rr_requires_restart sl_orchard_action_limit sl_max_tx_bytes].
  split; [done|]. split; [by rewrite !Z.eqb_refl|]. split; [|split].
  - intros change. rewrite elem_of_app. f_equiv.
    + destruct (Z.eqb_spec (sc_orchard_action_limit (ac_spend fresh)) (sl_orchard_action_limit limits));
        [set_solver|]. rewrite list_elem_of_singleton. tauto.
    + destruct (Z.eqb_spec (sc_max_tx_bytes (ac_spend fresh)) (sl_max_tx_bytes limits));
        [set_solver|]. rewrite list_elem_of_singleton. tauto.
  - intros key. rewrite filter_elem. unfold changed_keys. rewrite changed_of_spec by done.
    rewrite negb_true_iff, bool_decide_eq_false. tauto.
  - apply filter_ordered, changed_of_ordered.
Qed.

(** ** Two limits of it *)

Definition with_password (c : AppConfig) (password : string) : AppConfig :=
  let r := ac_rpc c in let k := rs_credentials r in
  {| ac_network := ac_network c; ac_datadir := ac_datadir c; ac_default_wallet := ac_default_wallet c;
     ac_wallets := ac_wallets c; ac_backend := ac_backend c; ac_zebra := ac_zebra c;
     ac_rpc := {| rs_bind := rs_bind r; rs_port := rs_port r;
                  rs_credentials := {| Auth.rc_user := Auth.rc_user k; Auth.rc_password := Some password;
                                       Auth.rc_auth := Auth.rc_auth k; Auth.rc_cookiefile := Auth.rc_cookiefile k |};
                  rs_work_queue := rs_work_queue r; rs_allowed_methods := rs_allowed_methods r;
                  rs_allow_duplicate := rs_allow_duplicate r |};
     ac_keys := ac_keys c; ac_sync := ac_sync c; ac_spend := ac_spend c; ac_pools := ac_pools c;
     ac_health := ac_health c; ac_log := ac_log c; ac_fleet := ac_fleet c |}.

Lemma same_unchanged a : NoDup (fst <$> a) → changed_of a a = [].
Proof.
  intros Ha. destruct (changed_of a a) as [|k l] eqn:E; [done|]. exfalso.
  assert (k ∈ changed_of a a) as Hk by (rewrite E; by left). by apply changed_of_spec in Hk.
Qed.
(** A password changed in the file is not reported, as the code documents: the comparison is of
    renderings, where secrets are commented out, and the daemon goes on with the old one. *)
Fact rotated_password_unreported `{HT : Toml} (c : AppConfig) (old new : string)
    (Hold : Auth.rc_password (rs_credentials (ac_rpc c)) = Some old) (Hkeys : NoDup (fst <$> keyed (render c))) :
  report_is_empty (fst (apply_reload c (with_password c new) (limits_of (ac_spend c)))) = true.
Proof.
  assert (render (with_password c new) = render c) as Hsame.
  { unfold render. f_equal. f_equal. f_equal. f_equal. unfold render_items.
    assert (rpc_items (ac_rpc (with_password c new)) = rpc_items (ac_rpc c)) as ->; [|done].
    unfold rpc_items. cbn. rewrite Hold. done. }
  unfold apply_reload, changed_keys. rewrite Hsame, same_unchanged by done.
  unfold report_is_empty. cbn. by rewrite !Z.eqb_refl.
Qed.

(** The fleet's directories are printed as they resolved under the data directory, and the default
    one is relative: read back they land under the data directory once more. *)
Fact fleet_dirs_not_absolute :
  ∃ c c', example_resolve [] no_overrides = Ok c ∧
    fc_manifest_dir (ac_fleet c) = "./zecd-data/fleet/zec/wallets.d" ∧
    resolve_file no_env (λ _, Ok "") any_policy no_hex no_overrides ZECD_DEFAULTS (file_of c) = Ok c' ∧
    fc_manifest_dir (ac_fleet c') = "./zecd-data/./zecd-data/fleet/zec/wallets.d".
Proof. eexists _, _. repeat split; vm_compute; reflexivity. Qed.

(** ** Concretely *)

(** The two texts read: the operator's file, and the rendering. *)
Definition example_toml : Toml :=
  toml_of_docs (λ text, if bool_decide (text = "") then example_doc else doc_of (render_items example_config)).

Lemma show_round_trip_witness :
  ∃ file, from_str (HT := example_toml) (render (HT := example_toml) example_config) = Ok file ∧
          resolve_file no_env (λ _, Ok "") any_policy no_hex no_overrides ZECD_DEFAULTS file = Ok (redact example_config).
Proof.
  apply (show_round_trip (HT := example_toml) no_env (λ _, true) (λ _, Ok "") any_policy no_hex no_overrides ZECD_DEFAULTS).
  - intros s b. discriminate.
  - vm_compute. reflexivity.
  - split; [split|..].
    1-8: cbv zeta; unfold pools_width, is_usize; apply (bool_decide_unpack _); vm_compute; exact I.
    1-2, 4-5: vm_compute; reflexivity.
    intros p H. vm_compute in H. injection H as <-. right. reflexivity.
  - left. reflexivity.
  - vm_compute. reflexivity.
Defined.
Lemma reload_exact_witness :
  let r := apply_reload (HT := example_toml) example_config (redact example_config) {| sl_orchard_action_limit := 7; sl_max_tx_bytes := 250000 |} in
  ("spend.orchard_action_limit", "7", "50") ∈ rr_applied (fst r).
Proof.
  assert (NoDup (fst <$> keyed (render (HT := example_toml) example_config))) as Hr by (apply (bool_decide_unpack _); vm_compute; exact I).
  assert (NoDup (fst <$> keyed (render (HT := example_toml) (redact example_config)))) as Hf by (apply (bool_decide_unpack _); vm_compute; exact I).
  apply (proj1 (proj2 (proj2 (reload_exact (HT := example_toml) example_config (redact example_config)
                               {| sl_orchard_action_limit := 7; sl_max_tx_bytes := 250000 |} Hr Hf)))).
  left. vm_compute. split; [discriminate|reflexivity].
Defined.
