(* ===== verification/Migrate.v ===== *)
(** * Migrate: the data directory's layout ([src/src/migrate.rs])

    The engine's files of a wallet moved from its root into the engine's directory, one rename at a
    time. The file system is what lies at each path; a directory moved as a whole carries what it
    holds, and one that is created holds nothing, what is put in it later lying at its own path. *)

From stdpp Require Import gmap.
From S2P Require Import Network.
From S2P Require Export Config.

Inductive node := File (bytes : string) | Directory (holds : string).
Abbreviation Fs := (gmap string node).
Definition path_exists (fs : Fs) (p : string) : bool := is_some (fs !! p).
Definition is_file (fs : Fs) (p : string) : bool := match fs !! p with Some (File _) => true | _ => false end.

Definition ENGINE_ARTIFACTS : list string :=
  ["data.sqlite"; "data.sqlite-wal"; "data.sqlite-shm"; "blockmeta.sqlite"; "blockmeta.sqlite-wal"; "blockmeta.sqlite-shm";
   "blocks"].
Definition PRIMARY_ARTIFACT : string := "data.sqlite".

(** A wallet's databases to move, and between which directories. *)
Record WalletMove := { wm_wallet : string; wm_from : string; wm_to : string; wm_artifacts : list string }.

Definition both_places (name artifact from to_ : string) : string :=
  "wallet '" +:+ name +:+ "' has " +:+ artifact +:+ " both at " +:+ path_join from artifact +:+ " and at "
  +:+ path_join to_ artifact +:+ ". zecd will not choose between them: keep the one you want (the current layout is "
  +:+ to_ +:+ "), move the other out of the wallet directory, and start zecd again".
Fixpoint plan_artifacts (fs : Fs) (name from to_ : string) (artifacts : list string) : result string (list string) :=
  match artifacts with
  | [] => Ok []
  | a :: artifacts =>
      if negb (path_exists fs (path_join from a)) then plan_artifacts fs name from to_ artifacts
      else if path_exists fs (path_join to_ a) then Err (both_places name a from to_)
      else rest ← plan_artifacts fs name from to_ artifacts; Ok (a :: rest)
  end.
Fixpoint plan (wallets : list (string * WalletEntry)) (fs : Fs) : result string (list WalletMove) :=
  match wallets with
  | [] => Ok []
  | (name, entry) :: wallets =>
      let from := we_dir entry in
      let to_ := entry_engine_dir entry in
      artifacts ← plan_artifacts fs name from to_ ENGINE_ARTIFACTS;
      moves ← plan wallets fs;
      Ok (if bool_decide (artifacts = []) then moves
          else {| wm_wallet := name; wm_from := from; wm_to := to_; wm_artifacts := artifacts |} :: moves)
  end.

(** ** The moves *)

(** The directories a path lies under, and itself. *)
Fixpoint ancestors_aux (acc : string) (p : string) : list string :=
  match p with
  | "" => [acc]
  | String c p =>
      (if bool_decide (c = slash) && negb (bool_decide (acc = "")) then [acc] else [])
      ++ ancestors_aux (acc +:+ String c "") p
  end.
Definition ancestors (p : string) : list string := ancestors_aux "" p.

Inductive fs_call := CreateDirAll (dir : string) | Rename (from to_ : string).

Section host.
(** Whether the system refuses a call, and why: it has no room, the two paths are on different file
    systems, or the process dies there. *)
Context (refuses : fs_call → option string).

(** [std::fs::create_dir_all]. *)
Definition create_dir_all (dir : string) (fs : Fs) : Fs * result string () :=
  match refuses (CreateDirAll dir) with
  | Some e => (fs, Err e)
  | None =>
      if existsb (is_file fs) (ancestors dir) then (fs, Err "Not a directory")
      else (foldr (λ p fs, if path_exists fs p then fs else <[p := Directory ""]> fs) fs (ancestors dir), Ok tt)
  end.
(** [std::fs::rename], into a directory. *)
Definition rename (dir from to_ : string) (fs : Fs) : Fs * result string () :=
  match refuses (Rename from to_) with
  | Some e => (fs, Err e)
  | None =>
      match fs !! from, fs !! dir with
      | Some n, Some (Directory _) => (<[to_ := n]> (delete from fs), Ok tt)
      | _, _ => (fs, Err "No such file or directory")
      end
  end.

Definition moving (m : WalletMove) (from to_ e : string) : string :=
  "moving " +:+ from +:+ " to " +:+ to_ +:+ " for wallet '" +:+ wm_wallet m +:+ "'. The data is untouched at " +:+ from
  +:+ "; if the two paths are on different filesystems, move it there yourself and start zecd again: " +:+ e.
Fixpoint apply_artifacts (m : WalletMove) (artifacts : list string) (fs : Fs) : Fs * result string () :=
  match artifacts with
  | [] => (fs, Ok tt)
  | a :: artifacts =>
      let from := path_join (wm_from m) a in
      let to_ := path_join (wm_to m) a in
      match rename (wm_to m) from to_ fs with
      | (fs, Err e) => (fs, Err (moving m from to_ e))
      | (fs, Ok _) => apply_artifacts m artifacts fs
      end
  end.
Definition apply (m : WalletMove) (fs : Fs) : Fs * result string () :=
  match create_dir_all (wm_to m) fs with
  | (fs, Err e) => (fs, Err ("creating " +:+ wm_to m +:+ ": " +:+ e))
  | (fs, Ok _) => apply_artifacts m (wm_artifacts m) fs
  end.
Fixpoint apply_all (moves : list WalletMove) (fs : Fs) : Fs * result string () :=
  match moves with
  | [] => (fs, Ok tt)
  | m :: moves => match apply m fs with (fs, Err e) => (fs, Err e) | (fs, Ok _) => apply_all moves fs end
  end.
Definition migrate (wallets : list (string * WalletEntry)) (fs : Fs) : Fs * result string (list WalletMove) :=
  match plan wallets fs with
  | Err e => (fs, Err e)
  | Ok moves =>
      match apply_all moves fs with
      | (fs, Err e) => (fs, Err e)
      | (fs, Ok _) => (fs, Ok moves)
      end
  end.
End host.

(** ** Reading without moving *)

Definition engine_dir_for_reading (fs : Fs) (entry : WalletEntry) : string :=
  let engine := entry_engine_dir entry in
  if is_file fs (path_join engine PRIMARY_ARTIFACT) || negb (is_file fs (path_join (we_dir entry) PRIMARY_ARTIFACT))
  then engine else we_dir entry.
Definition awaits_migration (fs : Fs) (wallet_path : string) (coin : Coin) : bool :=
  is_file fs (path_join wallet_path PRIMARY_ARTIFACT)
  && negb (is_file fs (path_join (engine_dir wallet_path coin) PRIMARY_ARTIFACT)).
