(* ===== verification/MigrateSpec.v ===== *)
(** * MigrateSpec: no database is lost or doubled by the layout migration

    Whatever the system refuses and wherever the process dies, every file is in one of its two
    places; the next migration finishes the move. *)

From stdpp Require Import gmap.
From S2P Require Import Network.
From S2P Require Export Migrate ConfigSpec.

(** ** What moves between two states *)

(** A file's place in the older layout and in the current one. *)
Abbreviation slot := (string * string)%type.
Definition paths (sl : list slot) : list string := (fst <$> sl) ++ (snd <$> sl).
Definition slots_of (from to_ : string) (artifacts : list string) : list slot :=
  (λ a, (path_join from a, path_join to_ a)) <$> artifacts.

Definition kept (fs fs' : Fs) (s : slot) : Prop := fs' !! fst s = fs !! fst s ∧ fs' !! snd s = fs !! snd s.
Definition went (fs fs' : Fs) (s : slot) : Prop :=
  ∃ n, fs !! fst s = Some n ∧ fs !! snd s = None ∧ fs' !! fst s = None ∧ fs' !! snd s = Some n.
(** Some files moved from one place to the other, some directories created, nothing else. *)
Record moved (sl : list slot) (dirs : list string) (fs fs' : Fs) : Prop := {
  mv_slots : ∀ s, s ∈ sl → kept fs fs' s ∨ went fs fs' s;
  mv_dirs : ∀ p, p ∈ dirs → fs' !! p = fs !! p ∨ (fs !! p = None ∧ fs' !! p = Some (Directory ""));
  mv_others : ∀ p, p ∉ paths sl → p ∉ dirs → fs' !! p = fs !! p;
}.

Lemma moved_refl sl dirs fs : moved sl dirs fs fs.
Proof. split; [intros s _; by left|intros p _; by left|done]. Qed.
Lemma paths_app sl1 sl2 p : p ∈ paths (sl1 ++ sl2) ↔ p ∈ paths sl1 ∨ p ∈ paths sl2.
Proof. unfold paths. rewrite !fmap_app. set_solver. Qed.
Lemma paths_slot s sl : s ∈ sl → fst s ∈ paths sl ∧ snd s ∈ paths sl.
Proof. intros H. unfold paths. split; apply elem_of_app; [left|right]; by apply list_elem_of_fmap_2. Qed.

Definition apart (l1 l2 : list string) : Prop := ∀ p, p ∈ l1 → p ∈ l2 → False.
Lemma nodup_paths sl1 sl2 :
  NoDup (paths (sl1 ++ sl2)) → NoDup (paths sl1) ∧ NoDup (paths sl2) ∧ apart (paths sl1) (paths sl2).
Proof.
  assert (paths (sl1 ++ sl2) ≡ₚ paths sl1 ++ paths sl2) as -> by (unfold paths; rewrite !fmap_app; solve_Permutation).
  intros (H1 & H2 & H3)%NoDup_app. split_and!; [done..|]. exact H2.
Qed.
Lemma nodup_slot s : NoDup (paths [s]) → fst s ≠ snd s.
Proof. intros [H _]%NoDup_cons. set_solver. Qed.
Lemma moved_app sl1 sl2 dirs fs fs1 fs2 :
  moved sl1 dirs fs fs1 → moved sl2 dirs fs1 fs2 →
  apart (paths sl1) (paths sl2) → apart (paths (sl1 ++ sl2)) dirs →
  moved (sl1 ++ sl2) dirs fs fs2.
Proof.
  intros [Hs1 Hd1 Ho1] [Hs2 Hd2 Ho2] Hap Hdirs. unfold apart in *. split.
  - intros s Hs. assert (fst s ∉ dirs ∧ snd s ∉ dirs) as [Hf Hg].
    { apply paths_slot in Hs as [??]. split; intros ?; by eauto. }
    apply elem_of_app in Hs as [Hs|Hs]; pose proof (paths_slot _ _ Hs) as [Hp Hq].
    + assert (fs2 !! fst s = fs1 !! fst s ∧ fs2 !! snd s = fs1 !! snd s) as [E1 E2].
      { split; apply Ho2; eauto. }
      unfold kept, went. rewrite E1, E2. by apply Hs1.
    + assert (fs1 !! fst s = fs !! fst s ∧ fs1 !! snd s = fs !! snd s) as [E1 E2].
      { split; apply Ho1; eauto. }
      unfold kept, went. rewrite <- E1, <- E2. by apply Hs2.
  - intros p Hp. destruct (Hd1 p Hp) as [E1|[E1 E1']], (Hd2 p Hp) as [E2|[E2 E2']];
      [left|right; split|right; split|exfalso]; congruence.
  - intros p Hp Hd. rewrite paths_app in Hp. rewrite Ho2, Ho1; tauto.
Qed.

Lemma create_moved refuses dir fs dirs :
  (∀ p, p ∈ ancestors dir → p ∈ dirs) → moved [] dirs fs (fst (create_dir_all refuses dir fs)).
Proof.
  intros Hsub. unfold create_dir_all. destruct (refuses _); [apply moved_refl|]. destruct (existsb _ _); [apply moved_refl|]. cbn.
  induction (ancestors dir) as [|a l IH]; [apply moved_refl|]. cbn.
  set (fs1 := foldr _ _ _) in *. destruct IH as [_ Hd Ho]; [intros p ?; apply Hsub; by right|].
  unfold path_exists. destruct (fs1 !! a) as [n|] eqn:E; cbn; [split; [intros s Hs; by apply not_elem_of_nil in Hs|done..]|]. split; [intros s Hs; by apply not_elem_of_nil in Hs| |].
  - intros p Hp. destruct (decide (p = a)) as [->|Hne].
    + right. rewrite lookup_insert_eq. split; [|done]. destruct (Hd a Hp) as [Hk|[? Hk]]; [by rewrite <- Hk|done].
    + rewrite lookup_insert_ne by done. by apply Hd.
  - intros p Hp Hdir. rewrite lookup_insert_ne; [by apply Ho|]. intros ->. apply Hdir, Hsub. by left.
Qed.
Lemma ancestors_self dir : dir ∈ ancestors dir.
Proof.
  unfold ancestors. assert (∀ p acc, acc +:+ p ∈ ancestors_aux acc p) as H; [|apply (H dir "")].
  induction p as [|c p IH]; intros acc; cbn; [rewrite append_nil_r; left|apply elem_of_app; right].
  specialize (IH (acc +:+ String c "")). by rewrite append_assoc in IH.
Qed.
Lemma create_ok dir fs :
  (∀ p, p ∈ ancestors dir → is_file fs p = false) →
  ∃ fs', create_dir_all (λ _, None) dir fs = (fs', Ok tt) ∧ ∃ h, fs' !! dir = Some (Directory h).
Proof.
  intros H. unfold create_dir_all. replace (existsb (is_file fs) (ancestors dir)) with false.
  2: { symmetry. apply not_true_iff_false. rewrite existsb_exists. intros (p & Hp & Hf). rewrite H in Hf; [done|].
       by apply list_elem_of_In. }
  eexists. split; [done|].
  assert (∀ l, (∀ p, p ∈ l → is_file fs p = false) → ∀ p, (p ∈ l ∨ ∃ h, fs !! p = Some (Directory h)) →
    ∃ h, foldr (λ p fs, if path_exists fs p then fs else <[p := Directory ""]> fs) fs l !! p = Some (Directory h)) as Hl.
  2: { apply Hl; [done|]. left. apply ancestors_self. }
  clear H. induction l as [|a l IH]; intros Hfile p Hp; [destruct Hp as [?|?]; [set_solver|done]|]. cbn.
  set (fs1 := foldr _ _ _) in *.
  assert (∀ q, (q ∈ l ∨ ∃ h, fs !! q = Some (Directory h)) → ∃ h, fs1 !! q = Some (Directory h)) as IH'.
  { intros q Hq. apply IH; [intros r Hr; apply Hfile; by right|done]. }
  destruct (decide (p = a)) as [->|Hne].
  - unfold path_exists. destruct (fs1 !! a) as [n|] eqn:E; cbn; [|rewrite lookup_insert_eq; by eexists].
    destruct n as [b|h]; [|by eexists]. exfalso.
    assert (fs1 !! a = fs !! a) as Hsame.
    { destruct (decide (a ∈ l)) as [Hin|Hnot].
      - destruct (IH' a (or_introl Hin)) as [h Hh]. congruence.
      - unfold fs1. clear -Hnot. induction l as [|b l IHl]; [done|]. cbn. case_match; [apply IHl; set_solver|].
        rewrite lookup_insert_ne by set_solver. apply IHl. set_solver. }
    specialize (Hfile a (list_elem_of_here _ _)). unfold is_file in Hfile. rewrite <- Hsame, E in Hfile. done.
  - assert (p ∈ l ∨ ∃ h, fs !! p = Some (Directory h)) as Hp' by set_solver. destruct (IH' p Hp') as [h Hh].
    destruct (path_exists fs1 a); [by eexists|]. rewrite lookup_insert_ne by done. by eexists.
Qed.

(** ** One wallet's files *)

Definition one_place (fs : Fs) (s : slot) : Prop := fs !! fst s = None ∨ fs !! snd s = None.
Definition held (fs : Fs) (from : string) (artifacts : list string) : list string :=
  List.filter (λ a, path_exists fs (path_join from a)) artifacts.

Lemma Ok_inj {E A} (x y : A) : @Ok E A x = Ok y → x = y.
Proof. by intros [=]. Qed.
Lemma plan_artifacts_ok fs name from to_ artifacts l :
  plan_artifacts fs name from to_ artifacts = Ok l ↔
  l = held fs from artifacts ∧ ∀ s, s ∈ slots_of from to_ artifacts → one_place fs s.
Proof.
  revert l. induction artifacts as [|a artifacts IH]; intros l; cbn.
  { split; [intros [= <-]; split; [done|]; intros s Hs; by apply not_elem_of_nil in Hs|by intros [-> _]]. }
  unfold one_place at 1, path_exists at 1 2 3. destruct (fs !! path_join from a) as [n|] eqn:E; cbn.
  - destruct (fs !! path_join to_ a) as [n'|] eqn:E'; cbn.
    + split; [done|]. intros [_ H]. specialize (H (path_join from a, path_join to_ a) (list_elem_of_here _ _)). cbn in H. naive_solver congruence.
    + split.
      * intros H. apply bind_Ok_inv in H as (rest & Hrest & H). injection H as <-. apply IH in Hrest as [-> H].
        split; [done|]. intros s [->|Hs]%elem_of_cons; [by right|by apply H].
      * intros [-> H]. assert (plan_artifacts fs name from to_ artifacts = Ok (held fs from artifacts)) as ->; [|done].
        apply IH. split; [done|]. intros s Hs. apply H. by right.
  - rewrite IH. split; intros [-> H]; (split; [done|]); intros s Hs; [|by apply H; right].
    apply elem_of_cons in Hs as [->|Hs]; [by left|by apply H].
Qed.

Lemma rename_moved refuses dir s fs dirs :
  fst s ≠ snd s → fs !! snd s = None → apart (paths [s]) dirs →
  moved [s] dirs fs (fst (rename refuses dir (fst s) (snd s) fs)) ∧
  (snd (rename refuses dir (fst s) (snd s) fs) = Ok tt → fst (rename refuses dir (fst s) (snd s) fs) !! fst s = None).
Proof.
  intros Hne Hto Hap. unfold rename. destruct (refuses _); [split; [apply moved_refl|done]|].
  destruct (fs !! fst s) as [n|] eqn:E; [|split; [apply moved_refl|done]].
  destruct (fs !! dir) as [[]|]; try (split; [apply moved_refl|done]). cbn. split.
  - split.
    + intros s' ->%list_elem_of_singleton. right. exists n. rewrite lookup_insert_ne, lookup_delete_eq, lookup_insert_eq by done. done.
    + intros p Hp. left. unfold paths in Hap. cbn in Hap.
      rewrite lookup_insert_ne, lookup_delete_ne; [done|..]; intros <-; (eapply Hap; [|exact Hp]); set_solver.
    + intros p Hp _. unfold paths in Hp. cbn in Hp. rewrite lookup_insert_ne, lookup_delete_ne; set_solver.
  - intros _. by rewrite lookup_insert_ne, lookup_delete_eq by done.
Qed.

Lemma artifacts_moved refuses m dirs fs0 artifacts fs :
  let sl := slots_of (wm_from m) (wm_to m) artifacts in
  let r := apply_artifacts refuses m (held fs0 (wm_from m) artifacts) fs in
  (∀ s, s ∈ sl → one_place fs s ∧ fs !! fst s = fs0 !! fst s) → NoDup (paths sl) → apart (paths sl) dirs →
  moved sl dirs fs (fst r) ∧ (snd r = Ok tt → ∀ s, s ∈ sl → fst r !! fst s = None).
Proof.
  cbv zeta. revert fs. induction artifacts as [|a artifacts IH]; intros fs Hs Hnd Hap.
  { split; [apply moved_refl|]. intros _ s Hin. by apply not_elem_of_nil in Hin. }
  set (s := (path_join (wm_from m) a, path_join (wm_to m) a)).
  change (slots_of _ _ (a :: artifacts)) with ([s] ++ slots_of (wm_from m) (wm_to m) artifacts) in *.
  set (rest := slots_of _ _ artifacts) in *.
  destruct (nodup_paths _ _ Hnd) as (Hne%nodup_slot & Hnd' & Hsr).
  assert (apart (paths [s]) dirs ∧ apart (paths rest) dirs) as [Hap1 Hap2].
  { unfold apart. split; intros p Hp; apply Hap, paths_app; tauto. }
  destruct (Hs s) as [Hsingle Hsame]; [by left|].
  unfold held. cbn [List.filter]. fold (held fs0 (wm_from m) artifacts).
  assert (∀ s', s' ∈ rest → one_place fs s' ∧ fs !! s'.1 = fs0 !! s'.1) as Hrest by (intros s' Hin; apply Hs; by right).
  unfold path_exists. change (path_join (wm_from m) a) with (fst s). destruct (fs0 !! fst s) as [n|] eqn:E; cbn.
  - destruct (rename_moved refuses (wm_to m) s fs dirs) as [Hm Hgone]; [done| |done|].
    { destruct Hsingle as [Hx|Hx]; [congruence|done]. }
    change (path_join (wm_to m) a) with (snd s). change (path_join (wm_from m) a) with (fst s).
    destruct (rename refuses (wm_to m) (fst s) (snd s) fs) as [fs1 [[]|e]]; cbn [fst snd] in *.
    + assert (∀ p, p ∈ paths rest → fs1 !! p = fs !! p) as Hk.
      { intros p Hp. apply Hm; [intros Hp'; by eapply Hsr|intros Hp'; by eapply Hap2]. }
      destruct (IH fs1) as [IHm IHg]; [|done|done|].
      { intros s' Hin. destruct (paths_slot _ _ Hin) as [Hp1 Hp2]. destruct (Hrest s' Hin). unfold one_place. by rewrite !Hk. }
      split; [by apply (moved_app [s] rest dirs fs fs1)|]. intros Hok s' [->|Hin]%elem_of_cons; [|by apply IHg].
      destruct IHm as [_ _ Ho]. rewrite Ho; [by apply Hgone| |].
      * intros Hp. eapply (Hsr (fst s)); [|done]. unfold paths. set_solver.
      * intros Hp. eapply (Hap1 (fst s)); [|done]. unfold paths. set_solver.
    + split; [|done]. by apply (moved_app [s] rest dirs fs fs1 fs1 Hm (moved_refl _ _ _)).
  - destruct (IH fs) as [IHm IHg]; [done..|]. split; [by apply (moved_app [s] rest dirs fs fs _ (moved_refl _ _ _) IHm)|].
    intros Hok s' [->|Hin]%elem_of_cons; [|by apply IHg]. destruct IHm as [_ _ Ho]. rewrite Ho; [by rewrite Hsame| |].
    * intros Hp. eapply (Hsr (fst s)); [|done]. unfold paths. set_solver.
    * intros Hp. eapply (Hap1 (fst s)); [|done]. unfold paths. set_solver.
Qed.
Lemma artifacts_done m fs0 artifacts fs h :
  let sl := slots_of (wm_from m) (wm_to m) artifacts in
  (∀ s, s ∈ sl → fs !! fst s = fs0 !! fst s) → NoDup (paths sl) → wm_to m ∉ paths sl → fs !! wm_to m = Some (Directory h) →
  ∃ fs', apply_artifacts (λ _, None) m (held fs0 (wm_from m) artifacts) fs = (fs', Ok tt).
Proof.
  cbv zeta. revert fs. induction artifacts as [|a artifacts IH]; intros fs Hs Hnd Hto Hdir; [by eexists|].
  destruct (nodup_paths [(path_join (wm_from m) a, path_join (wm_to m) a)] _ Hnd) as (_ & Hnd' & Hsr).
  assert (∀ s, s ∈ slots_of (wm_from m) (wm_to m) artifacts → fst s ≠ path_join (wm_from m) a ∧ fst s ≠ path_join (wm_to m) a) as Hne.
  { intros s Hin. apply paths_slot in Hin as [Hin _]. split; intros Heq; (eapply Hsr; [|exact Hin]); rewrite Heq; unfold paths; cbn; set_solver. }
  unfold held. cbn [List.filter]. fold (held fs0 (wm_from m) artifacts).
  assert (wm_to m ∉ paths (slots_of (wm_from m) (wm_to m) artifacts) ∧ wm_to m ≠ path_join (wm_from m) a ∧
          wm_to m ≠ path_join (wm_to m) a) as (Hto' & Hf & Ht).
  { unfold paths in Hto |- *. cbn in Hto. set_solver. }
  assert (fs !! path_join (wm_from m) a = fs0 !! path_join (wm_from m) a) as Hsame by apply (Hs _ (list_elem_of_here _ _)).
  unfold path_exists. destruct (fs0 !! path_join (wm_from m) a) as [n|] eqn:E; cbn.
  - unfold rename. cbn [fst snd]. rewrite Hsame, Hdir. apply IH; [|done|done|].
    + intros s Hin. destruct (Hne s Hin). rewrite lookup_insert_ne, lookup_delete_ne by done. apply Hs. by right.
    + by rewrite lookup_insert_ne, lookup_delete_ne by done.
  - apply IH; [|done..]. intros s Hin. apply Hs. by right.
Qed.

(** ** All the wallets *)

Definition entry_slots (e : WalletEntry) : list slot := slots_of (we_dir e) (entry_engine_dir e) ENGINE_ARTIFACTS.
Definition all_slots (wallets : list (string * WalletEntry)) : list slot := concat ((λ nw, entry_slots (snd nw)) <$> wallets).
(** The directories a migration may create. *)
Definition all_dirs (wallets : list (string * WalletEntry)) : list string :=
  concat ((λ nw, ancestors (entry_engine_dir (snd nw))) <$> wallets).
(** No two of the files, older place or current, are at one path, and none is where a directory of
    the current layout goes. *)
Record laid_out (wallets : list (string * WalletEntry)) (fs : Fs) : Prop := {
  lo_distinct : NoDup (paths (all_slots wallets));
  lo_apart : Forall (λ p, p ∉ all_dirs wallets) (paths (all_slots wallets));
  lo_dirs : Forall (λ p, is_file fs p = false) (all_dirs wallets);
}.

Definition move_of (fs : Fs) (nw : string * WalletEntry) : option WalletMove :=
  let e := snd nw in
  let artifacts := held fs (we_dir e) ENGINE_ARTIFACTS in
  if bool_decide (artifacts = []) then None
  else Some {| wm_wallet := fst nw; wm_from := we_dir e; wm_to := entry_engine_dir e; wm_artifacts := artifacts |}.
Lemma plan_ok wallets fs moves :
  plan wallets fs = Ok moves ↔ moves = omap (move_of fs) wallets ∧ ∀ s, s ∈ all_slots wallets → one_place fs s.
Proof.
  revert moves. induction wallets as [|[name e] wallets IH]; intros moves.
  { cbn. split; [intros [= <-]; split; [done|]; intros s Hs; by apply not_elem_of_nil in Hs|by intros [-> _]]. }
  change (all_slots ((name, e) :: wallets)) with (entry_slots e ++ all_slots wallets). cbn [plan omap list_omap].
  unfold move_of at 1. cbn [fst snd]. split.
  - intros H. apply bind_Ok_inv in H as (l & Hl & H). apply plan_artifacts_ok in Hl as [-> Hl].
    apply bind_Ok_inv in H as (rest & Hrest & H). apply IH in Hrest as [-> Hr]. apply Ok_inj in H as <-.
    split; [by case_bool_decide|]. intros s Hs. apply elem_of_app in Hs as [Hs|Hs]; [by apply Hl|by apply Hr].
  - intros [-> H]. assert (plan_artifacts fs name (we_dir e) (entry_engine_dir e) ENGINE_ARTIFACTS
                           = Ok (held fs (we_dir e) ENGINE_ARTIFACTS)) as ->.
    { apply plan_artifacts_ok. split; [done|]. intros s Hs. apply H, elem_of_app. by left. }
    assert (plan wallets fs = Ok (omap (move_of fs) wallets)) as ->.
    { apply IH. split; [done|]. intros s Hs. apply H, elem_of_app. by right. }
    cbn [mbind result_bind]. by case_bool_decide.
Qed.

Lemma apply_one refuses fs0 dirs (name : string) e fs :
  let r := match move_of fs0 (name, e) with Some m => Migrate.apply refuses m fs | None => (fs, Ok tt) end in
  (∀ s, s ∈ entry_slots e → one_place fs s ∧ fs !! fst s = fs0 !! fst s) → NoDup (paths (entry_slots e)) →
  apart (paths (entry_slots e)) dirs → (∀ p, p ∈ ancestors (entry_engine_dir e) → p ∈ dirs) →
  moved (entry_slots e) dirs fs (fst r) ∧ (snd r = Ok tt → ∀ s, s ∈ entry_slots e → fst r !! fst s = None).
Proof.
  cbv zeta. intros Hs Hnd Hap Hdirs. unfold move_of. cbn [fst snd]. case_bool_decide as Hheld.
  { split; [apply moved_refl|]. intros _ s Hin. change (fs !! fst s = None). destruct (Hs s Hin) as [_ ->].
    unfold entry_slots, slots_of in Hin. apply list_elem_of_fmap in Hin as (a & -> & Ha). cbn.
    destruct (fs0 !! path_join (we_dir e) a) eqn:E; [|done]. exfalso. apply (not_elem_of_nil a). rewrite <- Hheld.
    apply list_elem_of_In, filter_In. split; [by apply list_elem_of_In|]. unfold path_exists. by rewrite E. }
  unfold Migrate.apply. cbn [wm_to wm_artifacts wm_wallet wm_from]. set (m := Build_WalletMove _ _ _ _).
  pose proof (create_moved refuses (entry_engine_dir e) fs dirs Hdirs) as Hc.
  destruct (create_dir_all refuses (entry_engine_dir e) fs) as [fs1 [[]|err]]; cbn [fst snd] in *.
  - destruct (artifacts_moved refuses m dirs fs0 ENGINE_ARTIFACTS fs1) as [Hm Hgone]; [|done|done|].
    + intros s Hin. change (slots_of (wm_from m) (wm_to m) ENGINE_ARTIFACTS) with (entry_slots e) in Hin.
      destruct (paths_slot _ _ Hin) as [Hp1 Hp2], (Hs s Hin). unfold one_place.
      assert (∀ p, p ∈ paths (entry_slots e) → fs1 !! p = fs !! p) as Hk.
      { intros p Hp. apply Hc; [by apply not_elem_of_nil|]. intros Hd. by eapply Hap. }
      by rewrite !Hk.
    + split; [|done]. apply (moved_app [] (entry_slots e) dirs fs fs1); [done|done| |done].
      intros p Hp. by apply not_elem_of_nil in Hp.
  - split; [|done]. apply (moved_app [] (entry_slots e) dirs fs fs1 fs1 Hc (moved_refl _ _ _)); [|done].
    intros p Hp. by apply not_elem_of_nil in Hp.
Qed.
Lemma apply_all_cons refuses fs0 nw wallets fs :
  apply_all refuses (omap (move_of fs0) (nw :: wallets)) fs =
  match (match move_of fs0 nw with Some m => Migrate.apply refuses m fs | None => (fs, Ok tt) end) with
  | (fs1, Err e) => (fs1, Err e)
  | (fs1, Ok _) => apply_all refuses (omap (move_of fs0) wallets) fs1
  end.
Proof. cbn [omap list_omap]. by destruct (move_of fs0 nw). Qed.

Lemma apart_paths l1 l2 dirs : apart (paths (l1 ++ l2)) dirs → apart (paths l1) dirs ∧ apart (paths l2) dirs.
Proof. intros H. split; intros p Hp; apply H, paths_app; tauto. Qed.

Lemma apply_all_moved refuses fs0 dirs wallets fs :
  let r := apply_all refuses (omap (move_of fs0) wallets) fs in
  (∀ s, s ∈ all_slots wallets → one_place fs s ∧ fs !! fst s = fs0 !! fst s) → NoDup (paths (all_slots wallets)) →
  apart (paths (all_slots wallets)) dirs → (∀ p, p ∈ all_dirs wallets → p ∈ dirs) →
  moved (all_slots wallets) dirs fs (fst r) ∧ (snd r = Ok tt → ∀ s, s ∈ all_slots wallets → fst r !! fst s = None).
Proof.
  cbv zeta. revert fs. induction wallets as [|[name e] wallets IH]; intros fs Hs Hnd Hap Hdirs.
  { split; [apply moved_refl|]. intros _ s Hin. by apply not_elem_of_nil in Hin. }
  change (all_slots ((name, e) :: wallets)) with (entry_slots e ++ all_slots wallets) in *.
  change (all_dirs ((name, e) :: wallets)) with (ancestors (entry_engine_dir e) ++ all_dirs wallets) in *.
  destruct (nodup_paths _ _ Hnd) as (Hnd1 & Hnd2 & Hsr), (apart_paths _ _ _ Hap) as [Hap1 Hap2].
  rewrite apply_all_cons.
  destruct (apply_one refuses fs0 dirs name e fs) as [Hm1 Hg1]; [|done|done| |].
  { intros s Hin. apply Hs, elem_of_app. by left. }
  { intros p Hp. apply Hdirs, elem_of_app. by left. }
  set (r1 := match move_of fs0 (name, e) with Some _ => _ | None => _ end) in *.
  destruct r1 as [fs1 [[]|err]]; cbn [fst snd] in Hm1, Hg1.
  - assert (∀ p, p ∈ paths (all_slots wallets) → fs1 !! p = fs !! p) as Hk.
    { intros p Hp. apply Hm1; [intros Hp'; by eapply Hsr|intros Hp'; by eapply Hap2]. }
    destruct (IH fs1) as [Hm2 Hg2]; [|done|done| |].
    { intros s Hin. destruct (paths_slot _ _ Hin) as [Hp1 Hp2]. unfold one_place. rewrite !Hk by done.
      apply Hs, elem_of_app. by right. }
    { intros p Hp. apply Hdirs, elem_of_app. by right. }
    split; [by apply (moved_app _ _ dirs fs fs1)|]. intros Hok s [Hin|Hin]%elem_of_app; [|by apply Hg2].
    destruct (paths_slot _ _ Hin) as [Hp _], Hm2 as [_ _ Ho].
    rewrite Ho; [by apply Hg1|intros Hp'; by eapply Hsr|intros Hp'; by eapply Hap1].
  - split; [|done]. by apply (moved_app _ _ dirs fs fs1 fs1 Hm1 (moved_refl _ _ _)).
Qed.
Lemma no_file_moved sl dirs fs fs' :
  moved sl dirs fs fs' → (∀ p, p ∈ dirs → is_file fs p = false) → ∀ p, p ∈ dirs → is_file fs' p = false.
Proof.
  intros [_ Hd _] Hf p Hp. specialize (Hf p Hp). unfold is_file in *. by destruct (Hd p Hp) as [->|[_ ->]].
Qed.
Lemma apply_all_done fs0 dirs wallets fs :
  (∀ s, s ∈ all_slots wallets → one_place fs s ∧ fs !! fst s = fs0 !! fst s) → NoDup (paths (all_slots wallets)) →
  apart (paths (all_slots wallets)) dirs → (∀ p, p ∈ all_dirs wallets → p ∈ dirs) →
  (∀ p, p ∈ dirs → is_file fs p = false) →
  snd (apply_all (λ _, None) (omap (move_of fs0) wallets) fs) = Ok tt.
Proof.
  revert fs. induction wallets as [|[name e] wallets IH]; intros fs Hs Hnd Hap Hdirs Hfile; [done|].
  change (all_slots ((name, e) :: wallets)) with (entry_slots e ++ all_slots wallets) in *.
  change (all_dirs ((name, e) :: wallets)) with (ancestors (entry_engine_dir e) ++ all_dirs wallets) in *.
  destruct (nodup_paths _ _ Hnd) as (Hnd1 & Hnd2 & Hsr), (apart_paths _ _ _ Hap) as [Hap1 Hap2].
  assert (∀ s, s ∈ entry_slots e → one_place fs s ∧ fs !! fst s = fs0 !! fst s) as Hs1.
  { intros s Hin. apply Hs, elem_of_app. by left. }
  assert (∀ p, p ∈ ancestors (entry_engine_dir e) → p ∈ dirs) as Hd1 by (intros p Hp; apply Hdirs, elem_of_app; by left).
  rewrite apply_all_cons. destruct (apply_one (λ _, None) fs0 dirs name e fs) as [Hm1 _]; [done..|].
  set (r1 := match move_of fs0 (name, e) with Some _ => _ | None => _ end) in *.
  assert (∃ fs1, r1 = (fs1, Ok tt)) as [fs1 Hr1].
  { unfold r1, move_of. cbn [fst snd]. case_bool_decide; [by eexists|]. unfold Migrate.apply. cbn [wm_to wm_artifacts].
    set (m := Build_WalletMove _ _ _ _). destruct (create_ok (entry_engine_dir e) fs) as (fs1 & Hc & h & Hh).
    { intros p Hp. apply Hfile. by apply Hd1. }
    rewrite Hc. pose proof (create_moved (λ _, None) (entry_engine_dir e) fs dirs Hd1) as Hcm. rewrite Hc in Hcm. cbn in Hcm.
    apply (artifacts_done m fs0 ENGINE_ARTIFACTS fs1 h).
    - intros s Hin. change (slots_of (wm_from m) (wm_to m) ENGINE_ARTIFACTS) with (entry_slots e) in Hin.
      destruct (Hs1 s Hin) as [_ <-]. apply Hcm; [by apply not_elem_of_nil|]. intros Hd.
      eapply Hap1; [|exact Hd]. by apply paths_slot.
    - done.
    - intros Hp. eapply Hap1; [exact Hp|]. apply Hd1, ancestors_self.
    - done. }
  rewrite Hr1 in Hm1 |- *. cbn in Hm1. apply IH; [|done|done| |].
  - intros s Hin. assert (∀ p, p ∈ paths (all_slots wallets) → fs1 !! p = fs !! p) as Hk.
    { intros p Hp. apply Hm1; [intros Hp'; by eapply Hsr|intros Hp'; by eapply Hap2]. }
    destruct (paths_slot _ _ Hin) as [Hp1 Hp2]. unfold one_place. rewrite !Hk by done. apply Hs, elem_of_app. by right.
  - intros p Hp. apply Hdirs, elem_of_app. by right.
  - by eapply no_file_moved.
Qed.

Lemma moved_trans sl dirs fs fs1 fs2 : moved sl dirs fs fs1 → moved sl dirs fs1 fs2 → moved sl dirs fs fs2.
Proof.
  intros [Hs1 Hd1 Ho1] [Hs2 Hd2 Ho2]. split.
  - intros s Hs. destruct (Hs1 s Hs) as [[E1 E1']|(n & E1 & E1' & E2 & E2')], (Hs2 s Hs) as [[F1 F1']|(n' & F1 & F1' & F2 & F2')].
    + left. split; congruence.
    + right. exists n'. split_and!; congruence.
    + right. exists n. split_and!; congruence.
    + congruence.
  - intros p Hp. destruct (Hd1 p Hp) as [E1|[E1 E1']], (Hd2 p Hp) as [E2|[E2 E2']];
      [left|right; split|right; split|exfalso]; congruence.
  - intros p Hp Hd. by rewrite Ho2, Ho1.
Qed.
Lemma moved_single sl dirs fs fs' s : moved sl dirs fs fs' → s ∈ sl → one_place fs s → one_place fs' s.
Proof.
  intros [Hs _ _] Hin. unfold one_place. destruct (Hs s Hin) as [[-> ->]|(n & _ & _ & -> & _)]; [done|]. by left.
Qed.

(** ** The migration *)

Lemma laid_out_moved wallets fs fs' :
  laid_out wallets fs → moved (all_slots wallets) (all_dirs wallets) fs fs' → laid_out wallets fs'.
Proof.
  intros [Hnd Hap Hf] Hm. split; [done|done|]. rewrite Forall_forall in Hf. apply Forall_forall. by eapply no_file_moved.
Qed.
Lemma laid_out_apart wallets fs : laid_out wallets fs → apart (paths (all_slots wallets)) (all_dirs wallets).
Proof. intros [_ Hap _] p Hp Hd. rewrite Forall_forall in Hap. by apply (Hap p). Qed.
Lemma planned wallets fs moves :
  plan wallets fs = Ok moves →
  moves = omap (move_of fs) wallets ∧ ∀ s, s ∈ all_slots wallets → one_place fs s ∧ fs !! fst s = fs !! fst s.
Proof. intros [-> H]%plan_ok. split; [done|]. intros s Hs. by split; [apply H|]. Qed.
Lemma migrate_moved refuses wallets fs :
  laid_out wallets fs →
  moved (all_slots wallets) (all_dirs wallets) fs (fst (migrate refuses wallets fs)) ∧
  ∀ moves, snd (migrate refuses wallets fs) = Ok moves → ∀ s, s ∈ all_slots wallets → fst (migrate refuses wallets fs) !! fst s = None.
Proof.
  intros Hout. unfold migrate. destruct (plan wallets fs) as [moves|why] eqn:Hp; [|split; [apply moved_refl|done]].
  apply planned in Hp as [-> Hs].
  destruct (apply_all_moved refuses fs (all_dirs wallets) wallets fs) as [Hm Hg];
    [done|apply Hout|by eapply laid_out_apart|done|].
  destruct (apply_all refuses (omap (move_of fs) wallets) fs) as [fs1 [[]|e]]; cbn in *; (split; [done|]); [|done].
  intros _ _. by apply Hg.
Qed.
Lemma migrate_done wallets fs moves :
  laid_out wallets fs → plan wallets fs = Ok moves → snd (migrate (λ _, None) wallets fs) = Ok moves.
Proof.
  intros Hout Hp. unfold migrate. rewrite Hp. apply planned in Hp as [-> Hs].
  pose proof (apply_all_done fs (all_dirs wallets) wallets fs Hs (lo_distinct _ _ Hout) (laid_out_apart _ _ Hout)) as Hd.
  destruct (apply_all (λ _, None) (omap (move_of fs) wallets) fs) as [fs1 [[]|e]]; [done|]. cbn in Hd. exfalso.
  enough (Err e = Ok tt) by done. apply Hd; [done|]. destruct Hout as [_ _ Hf]. by rewrite Forall_forall in Hf.
Qed.
Lemma nothing_left wallets fs : (∀ s, s ∈ all_slots wallets → fs !! fst s = None) → plan wallets fs = Ok [].
Proof.
  intros H. apply plan_ok. split; [|intros s Hs; left; by apply H]. symmetry.
  induction wallets as [|[name e] wallets IH]; [done|].
  change (all_slots ((name, e) :: wallets)) with (entry_slots e ++ all_slots wallets) in H.
  cbn [omap list_omap]. assert (move_of fs (name, e) = None) as ->.
  { unfold move_of. rewrite bool_decide_eq_true_2; [done|]. cbn [snd].
    destruct (held fs (we_dir e) ENGINE_ARTIFACTS) as [|a l] eqn:E; [done|]. exfalso.
    assert (a ∈ held fs (we_dir e) ENGINE_ARTIFACTS) as Ha by (rewrite E; left).
    apply list_elem_of_In, filter_In in Ha as [Hin Hx]. apply list_elem_of_In in Hin. unfold path_exists in Hx.
    assert (fs !! path_join (we_dir e) a = None) as Hn; [|by rewrite Hn in Hx].
    apply (H (path_join (we_dir e) a, path_join (entry_engine_dir e) a)), elem_of_app. left.
    unfold entry_slots, slots_of. by apply (list_elem_of_fmap_2 (λ a, (path_join (we_dir e) a, path_join (entry_engine_dir e) a))). }
  apply IH. intros s Hs. apply H, elem_of_app. by right.
Qed.
Lemma reading_moved wallets dirs fs fs' (name : string) e b :
  moved (all_slots wallets) dirs fs fs' → (∀ s, s ∈ all_slots wallets → one_place fs s) → (name, e) ∈ wallets →
  fs !! path_join (engine_dir_for_reading fs e) PRIMARY_ARTIFACT = Some (File b) →
  fs' !! path_join (engine_dir_for_reading fs' e) PRIMARY_ARTIFACT = Some (File b).
Proof.
  intros [Hm _ _] Hsingle Hin. set (s := (path_join (we_dir e) PRIMARY_ARTIFACT, path_join (entry_engine_dir e) PRIMARY_ARTIFACT)).
  assert (s ∈ all_slots wallets) as Hs.
  { unfold all_slots. apply list_elem_of_In, in_concat. exists (entry_slots e). rewrite <- !list_elem_of_In. split.
    - by apply (list_elem_of_fmap_2 (λ nw, entry_slots (snd nw)) wallets (name, e)).
    - unfold entry_slots, slots_of.
      apply (list_elem_of_fmap_2 (λ a, (path_join (we_dir e) a, path_join (entry_engine_dir e) a)) _ PRIMARY_ARTIFACT).
      by left. }
  assert (∀ fs, fs !! path_join (engine_dir_for_reading fs e) PRIMARY_ARTIFACT = Some (File b) ↔
     fs !! snd s = Some (File b) ∨ (is_file fs (snd s) = false ∧ fs !! fst s = Some (File b))) as Hread.
  { intros fs0. unfold engine_dir_for_reading. change (path_join (entry_engine_dir e) PRIMARY_ARTIFACT) with (snd s).
    change (path_join (we_dir e) PRIMARY_ARTIFACT) with (fst s). unfold is_file.
    destruct (fs0 !! snd s) as [[]|] eqn:E2, (fs0 !! fst s) as [[]|] eqn:E1; cbn;
      fold (snd s); fold (fst s); rewrite ?E1, ?E2; naive_solver. }
  rewrite !Hread. unfold is_file. destruct (Hm s Hs) as [[-> ->]|(n & -> & -> & -> & ->)]; [done|]. naive_solver.
Qed.

(** C20. The migration of the data directory's layout loses and doubles nothing. Whatever call the
    system refuses or the process dies at, every file is in its old place or, with the same content,
    in its new one, and the wallet database is read as before; when it succeeds nothing is left to
    move; a database found in both places stops it before anything is touched; and run again it
    finishes what an earlier run began. *)
Theorem migration_safe (refuses : fs_call → option string) (wallets : list (string * WalletEntry)) (fs : Fs)
    (Hout : laid_out wallets fs) :
  let fs' := fst (migrate refuses wallets fs) in
  let again := migrate (λ _, None) wallets fs' in
  moved (all_slots wallets) (all_dirs wallets) fs fs' ∧
  (∀ name e b, (name, e) ∈ wallets → fs !! path_join (engine_dir_for_reading fs e) PRIMARY_ARTIFACT = Some (File b) →
     fs' !! path_join (engine_dir_for_reading fs' e) PRIMARY_ARTIFACT = Some (File b)) ∧
  (∀ moves, snd (migrate refuses wallets fs) = Ok moves → plan wallets fs' = Ok []) ∧
  (∀ why, plan wallets fs = Err why → fs' = fs ∧ snd (migrate refuses wallets fs) = Err why) ∧
  (∀ moves, plan wallets fs = Ok moves →
     (∃ rest, snd again = Ok rest) ∧ moved (all_slots wallets) (all_dirs wallets) fs (fst again) ∧
     plan wallets (fst again) = Ok []).
Proof.
  cbv zeta. destruct (migrate_moved refuses wallets fs Hout) as [Hm Hg]. split; [done|]. split; [|split; [|split]].
  - intros name e b Hin Hb. destruct (plan wallets fs) as [moves|why] eqn:Hp.
    + apply planned in Hp as [_ Hs]. eapply reading_moved; [exact Hm| |exact Hin|exact Hb]. intros s Hin'. by apply Hs.
    + unfold migrate. by rewrite Hp.
  - intros moves Hok. apply nothing_left. by eapply Hg.
  - intros why Hp. unfold migrate. by rewrite Hp.
  - intros moves Hp. apply planned in Hp as [_ Hs]. set (fs' := fst (migrate refuses wallets fs)) in *.
    pose proof (laid_out_moved _ _ _ Hout Hm) as Hout'.
    assert (plan wallets fs' = Ok (omap (move_of fs') wallets)) as Hp'.
    { apply plan_ok. split; [done|]. intros s Hin. eapply moved_single; [exact Hm|done|]. by apply Hs. }
    destruct (migrate_moved (λ _, None) wallets fs' Hout') as [Hm' Hg']. pose proof (migrate_done _ _ _ Hout' Hp') as Hok.
    split; [by eexists|]. split; [by eapply moved_trans|]. apply nothing_left. by eapply Hg'.
Qed.

(** ** Concretely *)

Definition example_wallets : list (string * WalletEntry) := Eval vm_compute in ac_wallets example_config.
(** A database with its log in the older layout; and the process killed between the two. *)
Definition example_fs : Fs :=
  {[ "/data" := Directory ""; "/data/ops" := Directory ""; "/data/ops/data.sqlite" := File "db";
     "/data/ops/data.sqlite-wal" := File "wal" ]}.
Definition killed (c : fs_call) : option string :=
  match c with Rename "/data/ops/data.sqlite-wal" _ => Some "killed" | _ => None end.

Lemma migration_safe_witness :
  let fs' := fst (migrate killed example_wallets example_fs) in
  fs' !! "/data/ops/zec/lrz/data.sqlite" = Some (File "db") ∧ fs' !! "/data/ops/data.sqlite-wal" = Some (File "wal") ∧
  plan example_wallets (fst (migrate (λ _, None) example_wallets fs')) = Ok [].
Proof.
  assert (laid_out example_wallets example_fs) as Hout.
  { split; apply (bool_decide_unpack _); vm_compute; exact I. }
  split; [vm_compute; reflexivity|]. split; [vm_compute; reflexivity|].
  destruct (migration_safe killed example_wallets example_fs Hout) as (_ & _ & _ & _ & H).
  destruct (H (omap (move_of example_fs) example_wallets)) as (_ & _ & Hp); [vm_compute; reflexivity|exact Hp].
Defined.
