(* ===== verification/Check.v ===== *)
(** * Check: a configuration checked without starting on it ([src/src/config_check.rs])

    The findings about a resolved configuration and the verdict drawn from them; and, to compare it
    with, what the daemon does with the same configuration before it serves
    ([src/src/daemon.rs], [src/src/node.rs]). *)

From stdpp Require Import gmap.
From S2P Require Import Pools Network Spend Fleet TxSize.
From S2P Require Export Migrate Show.
From S2P Require Auth.

Inductive Level := Error | Warning.
#[global] Instance Level_eq_dec : EqDecision Level.
Proof. solve_decision. Defined.
Definition label (l : Level) : string := match l with Error => "error" | Warning => "warning" end.
Record Finding := { fi_level : Level; fi_message : string }.
Definition finding_error (m : string) : Finding := {| fi_level := Error; fi_message := m |}.
Definition finding_warning (m : string) : Finding := {| fi_level := Warning; fi_message := m |}.

(** An error pushed; a warning pushed on a condition. *)
Definition refused {A} (context : string) (r : result string A) : list Finding :=
  match r with Ok _ => [] | Err e => [finding_error (context +:+ e)] end.
Definition warn_if (b : bool) (m : string) : list Finding := if b then [finding_warning m] else [].

Definition BATCH_SIZE_MEMORY_WARN : Z := 50000.
Definition WRITER_CACHE_TOTAL_WARN_MIB : Z := 2048.
Definition ENHANCE_CONCURRENCY_WARN : Z := 64.
Definition SUPERVISOR_STOP_TIMEOUT_HINT_SECS : Z := 90.
Definition LIGHT_TRANSPARENT_ADDR_WARN : Z := 1000.
Definition TRANSPARENT_GAP_LIMIT_SEVERE : Z := 10000.
Definition TRANSPARENT_GAP_LIMIT_COSTLY : Z := 1000.

Definition is_lightwalletd (s : Server) : bool := match sv_kind s with Lightwalletd => true | ZebraRpc => false end.

(** *** The endpoints *)

Definition wallet_backend_warnings (name : string) (p : PoolsConfig) (lightwalletd assume_transparent : bool) : list Finding :=
  if negb (pc_transparent_enabled p) then []
  else
    warn_if (lightwalletd && negb assume_transparent)
      ("wallet '" +:+ name +:+ "' has [pools] transparent = true against a lightwalletd upstream: the wallet refuses to run "
       +:+ "unless the server advertises that it serves transparent data in compact blocks, which lightwalletd 0.5.4 and "
       +:+ "later do. Against 0.5.0-0.5.3, which serve the data without advertising it, set [backend] "
       +:+ "assume_transparent_in_compact_blocks = true to assert it; otherwise point [backend] server at your own zebra")
    ++ warn_if (lightwalletd && ((LIGHT_TRANSPARENT_ADDR_WARN <=? pc_initial_scan p) || (LIGHT_TRANSPARENT_ADDR_WARN <=? pc_gap_limit p)))
         ("wallet '" +:+ name +:+ "': transparent_initial_scan = " +:+ dec (pc_initial_scan p) +:+ " / transparent_gap_limit = "
          +:+ dec (pc_gap_limit p) +:+ " on a lightwalletd backend - spend detection queries each funded address separately, "
          +:+ "one remote round trip apiece. Running your own zebra (server = " +:+ quoted "zebra"
          +:+ ") is recommended at this scale").
Definition check_wallet_backend (c : AppConfig) (lightwalletd : bool) (name : string) (w : WalletEntry) : list Finding :=
  let context := wallet_ctx name +:+ " server: " in
  if override_is_empty (we_backend w) then
    wallet_backend_warnings name (we_pools w) lightwalletd (bk_assume_transparent (ac_backend c))
  else
    match resolve_for_wallet (we_backend w) (ac_backend c) (ac_zebra c) (zcash_network w) with
    | Err e => [finding_error (context +:+ e)]
    | Ok s =>
        refused context (preflight s)
        ++ wallet_backend_warnings name (we_pools w) (is_lightwalletd s)
             (bk_assume_transparent (effective (we_backend w) (ac_backend c)))
    end.
Definition check_backend (c : AppConfig) : list Finding :=
  let b := ac_backend c in
  match resolve_configured b (ac_zebra c) (ac_network c) with
  | Err e => [finding_error ("[backend] server: " +:+ e)]
  | Ok server =>
      refused "" (preflight server)
      ++ warn_if (bk_assume_transparent b && negb (is_lightwalletd server))
           ("[backend] assume_transparent_in_compact_blocks is set but the upstream is not a lightwalletd; it will be ignored "
            +:+ "(a zebra backend always covers transparent data)")
      ++ warn_if (is_some (bk_proxy b) && host_is_loopback (sv_host server))
           ("[backend] proxy is set, but the upstream host '" +:+ sv_host server +:+ "' is loopback: the proxy will dial its OWN "
            +:+ "loopback, not this machine's. Name the host as the proxy sees it, or drop the proxy for a local upstream")
      ++ warn_if (bk_tls_insecure_skip_verify b)
           ("[backend] tls_insecure_skip_verify = true accepts any lightwalletd certificate: the connection is encrypted but "
            +:+ "unauthenticated, so an on-path attacker can impersonate the server. Prefer tls_pinned_sha256 for a self-signed "
            +:+ "certificate")
      ++ concat ((λ nw, check_wallet_backend c (is_lightwalletd server) (fst nw) (snd nw)) <$> ac_wallets c)
  end.

(** *** The rest of the sections *)

Definition check_sync (c : AppConfig) (dirs : gset string) : list Finding :=
  let y := ac_sync c in
  let shards := if fc_enabled (ac_fleet c) then Z.of_nat (length (existing_shard_dirs dirs (fc_dir (ac_fleet c)))) else 0 in
  let writers := Z.of_nat (length (ac_wallets c)) + shards in
  let ceiling_mib := wrap_u64 (yc_writer_cache_mib y * writers) in
  let fleet_note := if fc_enabled (ac_fleet c)
                    then " (" +:+ dec shards +:+ " existing fleet shards counted; every shard the fleet adds at runtime raises it "
                         +:+ "by the same amount)"
                    else "" in
  warn_if (ENHANCE_CONCURRENCY_WARN <? yc_enhance_concurrency y)
    ("[sync] enhance_concurrency = " +:+ dec (yc_enhance_concurrency y) +:+ ": this many transaction fetches go to the upstream at "
     +:+ "once during the enhancement drain. The gain flattens past 64 (measured: 64 in flight 136 s, 256 in flight 105 s on the "
     +:+ "same drain), and a public lightwalletd may throttle a client opening that many streams; a zebra upstream caps them at "
     +:+ "its own in-flight limit regardless")
  ++ warn_if (BATCH_SIZE_MEMORY_WARN <? yc_batch_size y)
       ("[sync] batch_size = " +:+ dec (yc_batch_size y) +:+ ": a batch lives in memory while it scans, and the next one is fetched "
        +:+ "alongside it, so two batches of compact blocks are resident at once - on mainnet's densest ranges hundreds of "
        +:+ "megabytes at this size. The measured sweet spot is 25000; the scan gains nothing past it")
  ++ warn_if (WRITER_CACHE_TOTAL_WARN_MIB <? ceiling_mib)
       ("[sync] writer_cache_mib = " +:+ dec (yc_writer_cache_mib y) +:+ ": with " +:+ dec writers +:+ " writer connection"
        +:+ (if writers =? 1 then "" else "s") +:+ " that is a " +:+ dec ceiling_mib +:+ " MiB page-cache ceiling for the daemon"
        +:+ fleet_note +:+ ". It is a ceiling, not an allocation, but a cache that has grown is kept for the process lifetime, so "
        +:+ "a memory-capped host should be sized for it or set a lower value")
  ++ warn_if (negb (yc_fetch_memos y))
       ("[sync] fetch_memos = false: this wallet never fetches the full data of a transaction it saw only as a compact block, so "
        +:+ "memos are never reported (the history RPCs omit them entirely, and getwalletinfo reports fetch_memos: false). "
        +:+ "Everything else stays exact - balances, receives, and the wallet's own sends with their recipients and fees. Keep it "
        +:+ "true if depositors are identified BY MEMO. Reversible: setting it back to true backfills the skipped memos with no "
        +:+ "rescan").

Section check.
Context `{AC : Auth.AuthCrypto} `{MC : ManifestCodec} `{SL : ShardLibrary}.

Definition check_rpc (c : AppConfig) : list Finding :=
  let k := rs_credentials (ac_rpc c) in
  refused "" (Auth.check_config k)
  ++ warn_if (is_some (Auth.rc_user k) && is_some (Auth.rc_password k) && negb (ip_is_loopback (rs_bind (ac_rpc c))))
       ("[rpc] bind = " +:+ ip_display (rs_bind (ac_rpc c)) +:+ " is not loopback and a bare rpcuser/rpcpassword is set; credentials "
        +:+ "would cross the network in plaintext (zecd serves plaintext HTTP). Bind to localhost, or place zecd behind a "
        +:+ "TLS-terminating proxy").

Definition check_spend (c : AppConfig) : list Finding :=
  let s := ac_spend c in
  let ceiling := sc_max_tx_bytes s in
  let fit := default 0 (max_orchard_family_actions ceiling) in
  let cap := if sc_orchard_action_limit s =? 0 then "is disabled" else "is " +:+ dec (sc_orchard_action_limit s) in
  warn_if ((0 <? ceiling) && ((sc_orchard_action_limit s =? 0) || (fit <? sc_orchard_action_limit s)))
    ("[spend] orchard_action_limit " +:+ cap +:+ ", but [spend] max_tx_bytes = " +:+ dec ceiling +:+ " holds only about " +:+ dec fit
     +:+ " Orchard actions - so a large send is refused for its size rather than its action count. That is the intended order "
     +:+ "(the size ceiling is what a node will actually relay); raise max_tx_bytes only if every node between this wallet and a "
     +:+ "miner accepts the larger size")
  ++ warn_if (SUPERVISOR_STOP_TIMEOUT_HINT_SECS <? sc_shutdown_drain_secs s)
       ("[spend] shutdown_drain_secs = " +:+ dec (sc_shutdown_drain_secs s) +:+ " is longer than the default stop timeout of every "
        +:+ "common supervisor (systemd 90s, Kubernetes 30s, `docker stop` 10s). Unless yours is raised to match, the drain will be "
        +:+ "cut short by SIGKILL and accepted sends will be lost anyway").

Definition check_layout (c : AppConfig) (fs : Fs) : list Finding :=
  match plan (ac_wallets c) fs with
  | Err e => [finding_error e]
  | Ok moves =>
      (λ m, finding_warning ("wallet '" +:+ wm_wallet m +:+ "' still keeps its databases in the older layout, at the root of " +:+ wm_from m
                     +:+ "; the next `zecd run`, `zecd init` or `zecd rescan` moves " +:+ join ", " (wm_artifacts m) +:+ " into "
                     +:+ wm_to m)) <$> moves
  end.

Definition check_wallet_path (fs : Fs) (name : string) (w : WalletEntry) : list Finding :=
  let p := we_pools w in
  let gap := pc_gap_limit p in
  warn_if (negb (path_exists fs (entry_keys_path w)))
    ("wallet '" +:+ name +:+ "' is not initialized (" +:+ entry_keys_path w +:+ " is missing); the daemon skips it (run `zecd init "
     +:+ "--wallet " +:+ name +:+ "`)")
  ++ (if negb (pc_transparent_enabled p) then []
      else if TRANSPARENT_GAP_LIMIT_SEVERE <? gap then
        [finding_warning ("wallet '" +:+ name +:+ "': transparent_gap_limit = " +:+ dec gap +:+ " will effectively STALL restores and slow every "
                  +:+ "incoming transparent payment (recording one transparent receive re-derives the entire gap window, roughly "
                  +:+ dec (gap / 1200) +:+ "s of address derivation per received UTXO). Use a small gap limit plus [pools] "
                  +:+ "transparent_initial_scan for deep restore coverage instead")]
      else warn_if (TRANSPARENT_GAP_LIMIT_COSTLY <? gap)
             ("wallet '" +:+ name +:+ "': transparent_gap_limit = " +:+ dec gap +:+ " is unusually large; every transparent receive "
              +:+ "re-derives the entire gap window. Prefer a small gap limit plus [pools] transparent_initial_scan"))
  ++ warn_if (is_multi_receiver (pc_default_receivers p))
       ("wallet '" +:+ name +:+ "': default_receivers = [" +:+ display_names (pc_default_receivers p) +:+ "] hands out multi-receiver "
        +:+ "Unified Addresses, which transaction history does not report - listtransactions, gettransaction, listsinceblock and "
        +:+ "z_listtransactions name the single receiver each output actually paid, because only that receiver reaches the chain "
        +:+ "and zecd is stateless. Match a payment by deconstructing the issued address into its receivers, or with "
        +:+ "getreceivedbyaddress, which accepts any encoding of an address the wallet owns").
Definition check_paths (c : AppConfig) (fs : Fs) : list Finding :=
  match za_cookie (ac_zebra c) with
  | Some cookie =>
      warn_if (negb (path_exists fs cookie))
        ("[zebra] rpc_cookie " +:+ cookie +:+ " does not exist; it is read on every connect, so the wallet cannot reach zebrad until "
         +:+ "zebrad has written it")
  | None => []
  end
  ++ concat ((λ nw, check_wallet_path fs (fst nw) (snd nw)) <$> ac_wallets c)
  ++ warn_if (negb (existsb (λ nw, path_exists fs (entry_keys_path (snd nw))) (ac_wallets c)) && negb (bool_decide (ac_wallets c = [])))
       ("no configured wallet is initialized; the daemon would exit with " +:+ quoted "no usable wallets" +:+ " (datadir: "
        +:+ ac_datadir c +:+ ")").

(** The fleet's manifests, as the directory holds them; the shards' directories that exist. *)
Definition check_fleet (c : AppConfig) (manifests : option (result string Manifests)) : list Finding :=
  let f := ac_fleet c in
  let n := match load_manifests (fc_manifest_dir f) manifests with
           | Ok (members, _) => Z.of_nat (length members)
           | Err _ => 0
           end in
  if negb (fc_enabled f) then
    match fleet_path_conflict (ac_wallets c) f with
    | Some (name, wallet_path, fleet_path) =>
        [finding_warning ("wallet '" +:+ name +:+ "' has its data directory at " +:+ wallet_path +:+ ", which overlaps the fleet's " +:+ fleet_path
                  +:+ ". Harmless while [fleet] enabled is false - those paths are never read - but setting it true would make zecd "
                  +:+ "refuse to start. Rename the wallet, or point " +:+ wallet_ctx name +:+ " dir (or the [fleet] manifest_dir/dir) "
                  +:+ "somewhere else")]
    | None => []
    end
    ++ warn_if (0 <? n)
         (dec n +:+ " fleet manifest(s) in " +:+ fc_manifest_dir f +:+ " are not being served: [fleet] enabled is false, so the "
          +:+ "directory is never read. Set [fleet] enabled = true to watch them, or move the files aside")
  else
    [finding_warning ("[fleet] is enabled and is EXPERIMENTAL: the manifest format, the [fleet] keys and the wallet-management RPCs may change "
              +:+ "in a patch release. " +:+ fc_manifest_dir f +:+ " holds viewing keys that exist nowhere else in zecd and is written at "
              +:+ "runtime - back it up like keys.toml. Known limitations: placement groups wallets by arrival rather than birthday, so "
              +:+ "a recent wallet can wait behind the oldest member of its shard; and a wallet cannot be removed from a shard once "
              +:+ "imported")].

(** What a check looks at on the host: the files, the fleet's manifests and its shards. *)
Record Host := { ho_fs : Fs; ho_manifests : option (result string Manifests); ho_shards : gset string }.

Definition inspect (c : AppConfig) (h : Host) : list Finding :=
  refused "" (reject_placeholder_password c) ++ refused "" (reject_multiple_spenders_in_daemon c)
  ++ check_backend c ++ check_sync c (ho_shards h) ++ check_rpc c ++ check_spend c ++ check_layout c (ho_fs h)
  ++ check_paths c (ho_fs h) ++ check_fleet c (ho_manifests h).

(** *** The verdict *)

Definition errors (l : list Finding) : nat := length (List.filter (λ f, bool_decide (fi_level f = Error)) l).
Definition warnings (l : list Finding) : nat := (length l - errors l)%nat.
Definition passes (strict : bool) (l : list Finding) : bool :=
  (errors l =? 0)%nat && negb (strict && (0 <? warnings l)%nat).

Definition count (n : nat) (noun : string) : string := dec (Z.of_nat n) +:+ " " +:+ noun +:+ (if (n =? 1)%nat then "" else "s").
(** [config check]: what goes to stdout, what to stderr, and how the command ends; the
    configuration is what resolving gave. *)
Definition run `{HT : Toml} (version conf_path : string) (found : bool) (resolved : result string AppConfig) (h : Host)
    (strict quiet : bool) : string * string * result string () :=
  let header := "zecd " +:+ version +:+ newline +:+ "config file: " +:+ conf_path +:+ newline in
  if negb found then
    ("", header, Err ("no config file at " +:+ conf_path +:+ " (the daemon would fall back to built-in defaults; pass --conf FILE or "
                      +:+ "--datadir DIR to point at the file to check)"))
  else
    match resolved with
    | Err e =>
        ("", header +:+ newline +:+ label Error +:+ ": " +:+ e +:+ newline,
         Err (conf_path +:+ " is not valid for zecd " +:+ version))
    | Ok c =>
        let l := inspect c h in
        let stdout := if quiet then "" else render c in
        let report :=
          (if bool_decide (l = []) then ""
           else newline +:+ concat_str ((λ f, label (fi_level f) +:+ ": " +:+ fi_message f +:+ newline) <$> l))
          +:+ (if passes strict l && negb quiet
               then newline +:+ "OK: " +:+ conf_path +:+ " is valid for zecd " +:+ version
                    +:+ (if (warnings l =? 0)%nat then "" else " (" +:+ count (warnings l) "warning" +:+ ")") +:+ newline
               else "") in
        (stdout, header +:+ report,
         if (0 <? errors l)%nat then Err (count (errors l) "error" +:+ " in " +:+ conf_path)
         else if strict && (0 <? warnings l)%nat then Err (count (warnings l) "warning" +:+ " in " +:+ conf_path +:+ " (--strict)")
         else Ok tt)
    end.

(** ** What the daemon does with it *)

(** The library's test of a confirmations policy. *)
Context (policy_ok : Z → Z → bool).

(** A wallet's actor spawned: its handle; why its database and its keys file do not belong together,
    which is fatal; or why it could not be opened, which is not. *)
Inductive Spawned := Opened (h : WalletHandle) | Mismatched (why : string) | NotOpened (why : string).
(** What the daemon meets on the host, besides the files: the lock, the cookie's salt, secret and
    writing, what the system refuses a migration, the wallets' databases, and the fleet's manifests,
    shard directories and databases. *)
Record DaemonHost := {
  dh_lock : result string (); dh_salt : string; dh_cookie_password : string;
  dh_write_cookie : string → string → string → result string (); dh_refuses : fs_call → option string;
  dh_spawn : string → WalletEntry → Server → Spawned;
  dh_fleet : FleetEnv; dh_manifests : option Manifests; dh_dirs : gset string;
}.

(** The endpoint of each initialised wallet, in order, and the wallets loaded. *)
Fixpoint spawn_wallets (c : AppConfig) (d : DaemonHost) (fs : Fs) (wallets : list (string * WalletEntry)) :
    result string (list (string * Server) * list WalletHandle) :=
  match wallets with
  | [] => Ok ([], [])
  | (name, w) :: wallets =>
      if path_exists fs (entry_keys_path w) then
        s ← resolve_for_wallet (we_backend w) (ac_backend c) (ac_zebra c) (zcash_network w);
        match dh_spawn d name w s with
        | Mismatched why => Err why
        | Opened h => rest ← spawn_wallets c d fs wallets; Ok ((name, s) :: rest.1, h :: rest.2)
        | NotOpened _ => rest ← spawn_wallets c d fs wallets; Ok ((name, s) :: rest.1, rest.2)
        end
      else spawn_wallets c d fs wallets
  end.
(** What the fleet's shards are built with, and the fleet. *)
Definition shard_template (c : AppConfig) : ShardTemplate :=
  {| tp_network := ac_network c; tp_coin := fc_coin (ac_fleet c); tp_fetch_memos := yc_fetch_memos (ac_sync c);
     tp_enabled_pools := pc_enabled (ac_pools c); tp_default_receivers := pc_default_receivers (ac_pools c) |}.
Definition start_fleet (c : AppConfig) (d : DaemonHost) (registry : WalletRegistry) : result string (option Fleet) :=
  spawn_fleet (dh_fleet d) (ac_fleet c) (shard_template c) (pc_gap_limit (ac_pools c)) (fst <$> ac_wallets c)
    (dh_manifests d) (dh_dirs d) registry.
Definition no_usable_wallets (c : AppConfig) : string :=
  "no usable wallets; run `zecd init` (datadir: " +:+ ac_datadir c +:+ ")".
Definition ensure_single_spending_wallet (loaded : list WalletHandle) (allow_multiple : bool) : result string () :=
  match wh_name <$> List.filter (λ h, negb (ss_watch_only (wh_status h))) loaded with
  | first :: second :: _ =>
      if allow_multiple then Ok tt
      else Err ("multiple spending wallets configured ('" +:+ first +:+ "' and '" +:+ second +:+ "'); zecd allows at "
                +:+ "most one wallet with spending keys (any number of watch-only UFVK wallets may be "
                +:+ "loaded alongside it). Convert one to watch-only (`zecd export-ufvk` + "
                +:+ "`zecd init --ufvk`) or remove it from the configuration. An application embedding "
                +:+ "zecd as a library can instead set [keys] allow_multiple_spending_wallets.")
  | _ => Ok tt
  end.
(** The node it starts: the endpoints of its wallets and of its fleet, and the wallets it serves. *)
Record Started := { sd_servers : list (string * Server); sd_fleet_server : Server; sd_registry : WalletRegistry }.
(** [Node::start] once the layout is current: the policy derived again, the wallets, the fleet, and
    the refusals to serve nothing or two spenders. *)
Definition start_node (c : AppConfig) (d : DaemonHost) (fs : Fs) : result string Started :=
  _ ← match confirmations_policy policy_ok (ac_spend c) with
      | Err (Bail e) => Err e
      | _ => Ok tt
      end;
  wallets ← spawn_wallets c d fs (ac_wallets c);
  fleet_server ← resolve_configured (ac_backend c) (ac_zebra c) (ac_network c);
  let registry := foldl registry_insert (registry_new (ac_default_wallet c)) wallets.2 in
  fleet ← start_fleet c d registry;
  let registry := match fleet with Some fl => fl_registry fl | None => registry end in
  if registry_is_empty registry then Err (no_usable_wallets c)
  else
    _ ← ensure_single_spending_wallet wallets.2 (kc_allow_multiple (ac_keys c));
    Ok {| sd_servers := wallets.1; sd_fleet_server := fleet_server; sd_registry := registry |}.
(** The daemon's start, in order: the refusals before the data directory is locked and after, the
    credentials and the cookie, the layout, and the node. *)
Definition startup (c : AppConfig) (d : DaemonHost) (fs : Fs) : Fs * result string Started :=
  match (_ ← reject_multiple_spenders_in_daemon c; _ ← dh_lock d; _ ← reject_placeholder_password c;
         Auth.from_config (rs_credentials (ac_rpc c)) (dh_salt d) (dh_cookie_password d) (dh_write_cookie d)) with
  | Err e => (fs, Err e)
  | Ok _ =>
      match migrate (dh_refuses d) (ac_wallets c) fs with
      | (fs, Err e) => (fs, Err e)
      | (fs, Ok _) => (fs, start_node c d fs)
      end
  end.
End check.
