(* ===== verification/CheckSpec.v ===== *)
(** * CheckSpec: the check reaches the daemon's verdict

    Without an error found the daemon starts on the configuration, unless what it opens refuses, and
    can dial every endpoint it names; with one, and every wallet initialised, it cannot do both. *)

From stdpp Require Import gmap.
From S2P Require Import Pools Network Spend Fleet TxSize.
From S2P Require Export Check MigrateSpec.
From S2P Require Auth.

(** ** Errors counted *)

Lemma errors_app l1 l2 : errors (l1 ++ l2) = (errors l1 + errors l2)%nat.
Proof. unfold errors. by rewrite List.filter_app, length_app. Qed.
Lemma errors_none l : Forall (λ f, fi_level f = Warning) l → errors l = 0%nat.
Proof. unfold errors. induction 1 as [|f l Hf _ IH]; [done|]. cbn. by rewrite Hf. Qed.
Lemma errors_warn_if b m : errors (warn_if b m) = 0%nat.
Proof. by destruct b. Qed.
Lemma errors_refused {A} context (r : result string A) : errors (refused context r) = 0%nat ↔ ∃ a, r = Ok a.
Proof. destruct r; cbn; naive_solver. Qed.
Lemma errors_concat l : errors (concat l) = 0%nat ↔ ∀ x, x ∈ l → errors x = 0%nat.
Proof.
  induction l as [|x l IH]; cbn [concat]; [split; [intros _ x Hx; by apply not_elem_of_nil in Hx|done]|].
  rewrite errors_app, Nat.eq_add_0, IH. split; [intros [Hx Hl] y [->|Hy]%elem_of_cons; auto|].
  intros H. split; [apply H; by left|]. intros y Hy. apply H. by right.
Qed.
Lemma Nat_sum_0 (a b : nat) : (a + b = 0)%nat ↔ a = 0%nat ∧ b = 0%nat.
Proof. lia. Qed.

(** An endpoint that resolves to one that can be dialled. *)
Definition reachable (r : result string Server) : Prop := ∃ s, r = Ok s ∧ preflight s = Ok tt.
Definition wallet_server (c : AppConfig) (w : WalletEntry) : result string Server :=
  resolve_for_wallet (we_backend w) (ac_backend c) (ac_zebra c) (zcash_network w).

Lemma wallet_warnings name p lwd assume : errors (wallet_backend_warnings name p lwd assume) = 0%nat.
Proof. unfold wallet_backend_warnings. destruct (negb _); [done|]. by rewrite errors_app, !errors_warn_if. Qed.
Lemma no_override_same c w :
  override_is_empty (we_backend w) = true → zcash_network w = ac_network c →
  wallet_server c w = resolve_configured (ac_backend c) (ac_zebra c) (ac_network c).
Proof.
  intros He Hn. unfold wallet_server, resolve_for_wallet, resolve_configured. rewrite Hn. unfold override_is_empty in He.
  by destruct (we_backend w) as [[] [] [] [] [] ? [] []].
Qed.
Lemma preflight_unit s : (∃ a, preflight s = Ok a) ↔ preflight s = Ok tt.
Proof. split; [by intros [[] ?]|by eexists]. Qed.
Lemma wallet_backend_errors c lwd name w :
  override_is_empty (we_backend w) = false → errors (check_wallet_backend c lwd name w) = 0%nat ↔ reachable (wallet_server c w).
Proof.
  intros He. unfold check_wallet_backend, reachable, wallet_server. rewrite He.
  destruct (resolve_for_wallet _ _ _ _) as [s|e]; [|cbn; naive_solver].
  rewrite errors_app, wallet_warnings, Nat.add_0_r, errors_refused, preflight_unit. naive_solver.
Qed.
Lemma backend_errors c :
  (∀ name w, (name, w) ∈ ac_wallets c → zcash_network w = ac_network c) →
  errors (check_backend c) = 0%nat ↔
  reachable (resolve_configured (ac_backend c) (ac_zebra c) (ac_network c)) ∧
  ∀ name w, (name, w) ∈ ac_wallets c → reachable (wallet_server c w).
Proof.
  intros Hnet. unfold check_backend. destruct (resolve_configured _ _ _) as [s|e] eqn:E.
  2: { cbn. split; [done|]. by intros [(s & ? & _) _]. }
  rewrite !errors_app, !errors_warn_if, !Nat_sum_0, errors_refused, preflight_unit, errors_concat. unfold reachable at 1.
  assert (∀ name w, (name, w) ∈ ac_wallets c → preflight s = Ok tt →
            errors (check_wallet_backend c (is_lightwalletd s) name w) = 0%nat ↔ reachable (wallet_server c w)) as Hw.
  { intros name w Hin Hpre. destruct (override_is_empty (we_backend w)) eqn:He; [|by apply wallet_backend_errors].
    rewrite no_override_same by eauto. unfold check_wallet_backend. rewrite He, wallet_warnings, E.
    unfold reachable. naive_solver. }
  split.
  - intros (Hpre & _ & _ & _ & Hall). split; [by eexists|]. intros name w Hin. apply (Hw name w Hin Hpre), Hall.
    by apply (list_elem_of_fmap_2 (λ nw, check_wallet_backend c (is_lightwalletd s) (fst nw) (snd nw)) _ (name, w)).
  - intros [(s' & [= <-] & Hpre) Hall]. split_and!; [done..|]. intros x ([name w] & -> & Hin)%list_elem_of_fmap. cbn.
    apply (Hw name w Hin Hpre). by eapply Hall.
Qed.

Section verdict.
Context `{AC : Auth.AuthCrypto} `{MC : ManifestCodec} `{SL : ShardLibrary} (policy_ok : Z → Z → bool).
Abbreviation startup := (Check.startup policy_ok).

(** The rules a configuration is held to. *)
Definition accepted (c : AppConfig) (fs : Fs) : Prop :=
  reject_placeholder_password c = Ok tt ∧ reject_multiple_spenders_in_daemon c = Ok tt ∧
  Auth.check_config (rs_credentials (ac_rpc c)) = Ok tt ∧ (∃ moves, plan (ac_wallets c) fs = Ok moves) ∧
  reachable (resolve_configured (ac_backend c) (ac_zebra c) (ac_network c)) ∧
  ∀ name w, (name, w) ∈ ac_wallets c → reachable (wallet_server c w).

Lemma no_errors c h :
  (∀ name w, (name, w) ∈ ac_wallets c → zcash_network w = ac_network c) →
  errors (inspect c h) = 0%nat ↔ accepted c (ho_fs h).
Proof.
  intros Hnet. unfold inspect. rewrite !errors_app, !Nat_sum_0, !errors_refused, backend_errors by done.
  assert (errors (check_sync c (ho_shards h)) = 0%nat ∧ errors (check_spend c) = 0%nat ∧ errors (check_paths c (ho_fs h)) = 0%nat ∧
          errors (check_fleet c (ho_manifests h)) = 0%nat) as (Hsync & Hspend & Hpaths & Hfleet).
  { split_and!.
    - unfold check_sync. cbv zeta. by rewrite !errors_app, !errors_warn_if.
    - unfold check_spend. cbv zeta. by rewrite !errors_app, !errors_warn_if.
    - unfold check_paths. rewrite !errors_app, errors_warn_if, Nat.add_0_r. apply Nat_sum_0. split.
      + destruct (za_cookie _); [apply errors_warn_if|done].
      + apply errors_concat. intros x ([name w] & -> & _)%list_elem_of_fmap. unfold check_wallet_path. cbv zeta.
        rewrite !errors_app, !errors_warn_if. destruct (negb _); [done|]. destruct (_ <? _); [done|]. by rewrite errors_warn_if.
    - unfold check_fleet. cbv zeta. destruct (negb _); [|done]. rewrite errors_app, errors_warn_if.
      by destruct (fleet_path_conflict _ _) as [[[]]|]. }
  assert (errors (check_rpc c) = 0%nat ↔ Auth.check_config (rs_credentials (ac_rpc c)) = Ok tt) as ->.
  { unfold check_rpc. cbv zeta. rewrite errors_app, errors_warn_if, Nat.add_0_r, errors_refused.
    split; [by intros [[] ?]|by eexists]. }
  assert (errors (check_layout c (ho_fs h)) = 0%nat ↔ ∃ moves, plan (ac_wallets c) (ho_fs h) = Ok moves) as ->.
  { unfold check_layout. destruct (plan _ _) as [moves|e]; [|cbn; naive_solver]. split; [by eexists|]. intros _.
    apply errors_none, Forall_fmap, Forall_forall. done. }
  unfold accepted. rewrite Hsync, Hspend, Hpaths, Hfleet.
  assert ((∃ a, reject_placeholder_password c = Ok a) ↔ reject_placeholder_password c = Ok tt) as -> by (split; [by intros [[] ?]|by eexists]).
  assert ((∃ a, reject_multiple_spenders_in_daemon c = Ok a) ↔ reject_multiple_spenders_in_daemon c = Ok tt) as ->
    by (split; [by intros [[] ?]|by eexists]).
  tauto.
Qed.

(** ** The daemon's start *)

Lemma from_config_checked rpc salt cookie write users :
  Auth.from_config rpc salt cookie write = Ok users → Auth.check_config rpc = Ok tt.
Proof.
  unfold Auth.from_config, Auth.check_config. intros H. apply bind_Ok_inv in H as (us & -> & H). cbn.
  apply bind_Ok_inv in H as ([] & -> & H). cbn. destruct (Auth.rc_user rpc), (Auth.rc_password rpc); cbn [is_some andb orb] in *;
    [done|..]; apply bind_Ok_inv in H as (file & Hf & _); by destruct (Auth.rc_cookiefile rpc).
Qed.
Lemma checked_from_config rpc salt cookie write :
  (∀ p u f, write p u f = Ok tt) → Auth.check_config rpc = Ok tt → ∃ users, Auth.from_config rpc salt cookie write = Ok users.
Proof.
  unfold Auth.from_config, Auth.check_config. intros Hw H. apply bind_Ok_inv in H as (us & -> & H). cbn.
  apply bind_Ok_inv in H as ([] & -> & H). cbn. destruct (Auth.rc_user rpc), (Auth.rc_password rpc), (Auth.rc_cookiefile rpc);
    cbn in *; try done; rewrite ?Hw; by eexists.
Qed.
(** Wallets whose endpoints can be reached are spawned, and their endpoints listed, unless a
    database is not its keys file's. *)
Lemma servers_reachable c d fs wallets :
  (∀ name w, (name, w) ∈ wallets → reachable (wallet_server c w)) →
  match spawn_wallets c d fs wallets with
  | Ok l => Forall (λ ns, preflight (snd ns) = Ok tt) l.1
  | Err e => ∃ name w s, (name, w) ∈ wallets ∧ path_exists fs (entry_keys_path w) = true ∧ dh_spawn d name w s = Mismatched e
  end.
Proof.
  induction wallets as [|[name w] wallets IH]; intros H; [by constructor|]. cbn.
  specialize (IH (λ n w' Hin, H n w' (list_elem_of_further _ _ _ Hin))).
  assert (∀ e, (∃ name' w' s, (name', w') ∈ wallets ∧ path_exists fs (entry_keys_path w') = true ∧ dh_spawn d name' w' s = Mismatched e) →
     ∃ name' w' s, (name', w') ∈ (name, w) :: wallets ∧ path_exists fs (entry_keys_path w') = true ∧ dh_spawn d name' w' s = Mismatched e)
    as Hlater by (intros e (n & w' & s & Hin & ?); exists n, w', s; split; [by right|done]).
  destruct (path_exists _ _) eqn:Hk; [|destruct (spawn_wallets c d fs wallets); auto].
  destruct (H name w (list_elem_of_here _ _)) as (s & Hr & Hpre). unfold wallet_server in Hr. rewrite Hr. cbn.
  destruct (dh_spawn d name w s) eqn:Hs; [| |].
  2: { exists name, w, s. split; [by left|done]. }
  all: destruct (spawn_wallets c d fs wallets) as [l|e]; cbn; [by constructor|auto].
Qed.
Lemma reachable_servers c d fs wallets l :
  (∀ name w, (name, w) ∈ wallets → path_exists fs (entry_keys_path w) = true) →
  spawn_wallets c d fs wallets = Ok l → Forall (λ ns, preflight (snd ns) = Ok tt) l.1 →
  ∀ name w, (name, w) ∈ wallets → reachable (wallet_server c w).
Proof.
  revert l. induction wallets as [|[n w] wallets IH]; intros l Hk Hs Hall name w' Hin; [by apply not_elem_of_nil in Hin|].
  cbn in Hs. rewrite (Hk n w) in Hs by left. apply bind_Ok_inv in Hs as (s & Hr & Hs).
  assert (∃ rest, spawn_wallets c d fs wallets = Ok rest ∧ l.1 = (n, s) :: rest.1) as (rest & Hrest & E).
  { destruct (dh_spawn d n w s); [|done|]; apply bind_Ok_inv in Hs as (rest & Hrest & [= <-]); by exists rest. }
  rewrite E in Hall. apply Forall_cons in Hall as [Hpre Hall]. apply elem_of_cons in Hin as [[= -> ->]|Hin].
  - by exists s.
  - eapply IH; [|exact Hrest|done|exact Hin]. intros n' w0 Hin'. apply (Hk n'). by right.
Qed.

(** What can keep a node from starting that is not its configuration's doing: a wallet whose database
    is not its keys file's, a fleet that cannot be started, no wallet to serve, two spenders. *)
Definition host_refuses (c : AppConfig) (d : DaemonHost) (e : string) : Prop :=
  (∃ name w s, (name, w) ∈ ac_wallets c ∧ dh_spawn d name w s = Mismatched e) ∨
  (∃ registry, start_fleet c d registry = Err e) ∨
  (∃ fs l registry, spawn_wallets c d fs (ac_wallets c) = Ok l ∧
     registry = foldl registry_insert (registry_new (ac_default_wallet c)) l.2 ∧
     ((e = no_usable_wallets c ∧
       (start_fleet c d registry = Ok None ∧ registry_is_empty registry = true ∨
        ∃ fl, start_fleet c d registry = Ok (Some fl) ∧ registry_is_empty (fl_registry fl) = true)) ∨
      ensure_single_spending_wallet l.2 (kc_allow_multiple (ac_keys c)) = Err e)).

(** C24. [config check] reaches the daemon's verdict, on a configuration with its wallets on its
    network and a confirmations policy the library takes - what resolving ensures - and files that
    are not in each other's places. When it finds no error, a daemon that gets its
    lock, its cookie and its moves starts, with every endpoint it then dials passing the checks made
    before dialling; unless what it opens refuses: a wallet's database that is not its keys file's,
    the fleet, no wallet left to serve, or two that can spend. When it finds one, a daemon whose
    wallets are all initialised does not start, whatever the host does, or is left with an endpoint it
    can never dial. *)
Theorem check_is_the_daemons_verdict (c : AppConfig) (h : Host)
    (Hnet : ∀ name w, (name, w) ∈ ac_wallets c → zcash_network w = ac_network c) (Hout : laid_out (ac_wallets c) (ho_fs h))
    (Hpolicy : confirmations_policy policy_ok (ac_spend c) = Ok tt) :
  (errors (inspect c h) = 0%nat → ∀ d,
   dh_lock d = Ok tt → (∀ p u f, dh_write_cookie d p u f = Ok tt) → dh_refuses d = (λ _, None) →
   match snd (startup c d (ho_fs h)) with
   | Ok s => preflight (sd_fleet_server s) = Ok tt ∧ Forall (λ ns, preflight (snd ns) = Ok tt) (sd_servers s) ∧
             registry_is_empty (sd_registry s) = false
   | Err e => host_refuses c d e
   end) ∧
  (errors (inspect c h) ≠ 0%nat → ∀ d,
   let '(fs', r) := startup c d (ho_fs h) in
   (∀ name w, (name, w) ∈ ac_wallets c → path_exists fs' (entry_keys_path w) = true) →
   ∀ s, r = Ok s → ¬ (preflight (sd_fleet_server s) = Ok tt ∧ Forall (λ ns, preflight (snd ns) = Ok tt) (sd_servers s))).
Proof.
  rewrite no_errors by done. split.
  - intros (Hplace & Hmulti & Hauth & (moves & Hplan) & (fleet & Hfleet & Hpre) & Hwallets) d Hlock Hwrite Href. unfold Check.startup.
    rewrite Hmulti, Hlock. cbn [mbind result_bind]. rewrite Hplace. cbn [mbind result_bind].
    destruct (checked_from_config _ (dh_salt d) (dh_cookie_password d) _ Hwrite Hauth) as [users ->].
    pose proof (migrate_done _ _ _ Hout Hplan) as Hm. rewrite Href.
    destruct (migrate (λ _, None) (ac_wallets c) (ho_fs h)) as [fs' r]. cbn in Hm. subst r. cbn [snd].
    unfold start_node. rewrite Hpolicy. cbn [mbind result_bind].
    pose proof (servers_reachable c d fs' (ac_wallets c) Hwallets) as Hs.
    destruct (spawn_wallets c d fs' (ac_wallets c)) as [l|e] eqn:El; cbn [mbind result_bind];
      [|left; destruct Hs as (n & w & s & ? & _ & ?); by exists n, w, s].
    rewrite Hfleet. cbn [mbind result_bind]. set (registry := foldl _ _ _).
    destruct (start_fleet c d registry) as [fl|e] eqn:Ef; cbn [mbind result_bind]; [|right; left; by exists registry].
    destruct (registry_is_empty _) eqn:Hempty.
    { right; right. exists fs', l, registry. split_and!; [done|done|]. left. split; [done|]. destruct fl as [fl|]; [right; by exists fl|by left]. }
    destruct (ensure_single_spending_wallet _ _) eqn:He; cbn; [done|].
    right; right. exists fs', l, registry. split_and!; [done|done|by right].
  - intros Hno d. unfold Check.startup.
    destruct (reject_multiple_spenders_in_daemon c) as [[]|] eqn:Hmulti; cbn; [|done]. destruct (dh_lock d) as [[]|]; cbn; [|done].
    destruct (reject_placeholder_password c) as [[]|] eqn:Hplace; cbn; [|done].
    destruct (Auth.from_config _ _ _ _) as [users|] eqn:Hauth; [|done].
    assert (∀ fs' l, migrate (dh_refuses d) (ac_wallets c) (ho_fs h) = (fs', Ok l) → plan (ac_wallets c) (ho_fs h) = Ok l) as Hplan.
    { intros fs' l. unfold migrate. destruct (plan _ _) as [moves|]; [|done].
      destruct (apply_all _ _ _) as [? [|]]; congruence. }
    destruct (migrate (dh_refuses d) (ac_wallets c) (ho_fs h)) as [fs' [l|]]; [|done].
    intros Hkeys s H [Hpre Hall]. apply Hno. unfold start_node in H. apply bind_Ok_inv in H as (u & _ & H).
    apply bind_Ok_inv in H as (wallets & Hs & H). apply bind_Ok_inv in H as (fleet & Hf & H).
    apply bind_Ok_inv in H as (fl & _ & H). destruct (registry_is_empty _); [done|].
    apply bind_Ok_inv in H as (u' & _ & [= <-]). cbn in Hpre, Hall.
    split_and!; [done|done|by eapply from_config_checked|by eexists; eapply Hplan|by exists fleet|].
    by eapply reachable_servers.
Qed.
End verdict.

(** The command succeeds exactly when the file is there, resolves and passes, and prints the
    configuration it checked and nothing else. *)
Lemma run_verdict `{AC : Auth.AuthCrypto} `{MC : ManifestCodec} `{HT : Toml} version path found resolved h strict quiet :
  let '(stdout, _, r) := run version path found resolved h strict quiet in
  (r = Ok tt ↔ found = true ∧ ∃ c, resolved = Ok c ∧ passes strict (inspect c h) = true) ∧
  stdout = match found, quiet, resolved with true, false, Ok c => render c | _, _, _ => "" end.
Proof.
  unfold run. destruct found; cbn [negb]; [|split; [split; [done|by intros [? _]]|done]].
  destruct resolved as [c|e]; [|split; [split; [done|by intros (_ & ? & ? & _)]|by destruct quiet]].
  cbv zeta. split; [|by destruct quiet].
  assert ((∃ c', Ok c = @Ok string _ c' ∧ passes strict (inspect c' h) = true) ↔ passes strict (inspect c h) = true) as ->
    by (split; [by intros (? & [= <-] & ?)|by exists c]).
  unfold passes. destruct (errors (inspect c h)) as [|n]; cbn [Nat.ltb Nat.leb Nat.eqb andb]; [|by split; [|intros []]].
  destruct strict, (warnings (inspect c h)); cbn [andb negb]; intuition congruence.
Qed.

(** ** Concretely *)

(** The wallet [ops] of the example overrides TLS away towards a remote host. *)
#[local] Instance example_codec : ManifestCodec := {| manifest_parse := λ _, Err "not a manifest" |}.
#[local] Instance example_crypto : Auth.AuthCrypto :=
  {| Auth.hmac_sha256 := λ key text, key +:+ text; Auth.hex_encode := λ bytes, bytes; Auth.hex_decode_32 := Some;
     Auth.base64_decode := Some; Auth.base64_url_encode := λ bytes, bytes |}.
Definition example_host : Host :=
  {| ho_fs := <["/data/default/keys.toml" := File "keys"]> (<["/data/ops/keys.toml" := File "keys"]> example_fs);
     ho_manifests := None; ho_shards := ∅ |}.

(** A host on which both wallets open, watch-only, and which has no fleet. *)
#[local] Instance example_library : ShardLibrary :=
  {| ViewingKey := string; ufvk_decode _ s := Ok s; ufvk_encode _ s := s; TreeState := Z; AccountBirthday := Z;
     from_treestate t _ := Ok t |}.
Definition example_handle (name : string) : WalletHandle :=
  {| wh_name := name; wh_coin := Zcash; wh_status := default_status; wh_actor_alive := true;
     wh_network := ac_network example_config; wh_engine_dir := "/data"; wh_enabled_pools := {| pools := [Orchard] |};
     wh_default_receivers := {| pools := [Orchard] |}; wh_transparent_enabled := false;
     wh_transparent_default := false; wh_transparent_gap_limit := 20; wh_fetch_memos := true;
     wh_is_shard := false; wh_first_seen := ∅ |}.
Definition example_daemon : DaemonHost :=
  {| dh_lock := Ok tt; dh_salt := "salt"; dh_cookie_password := "cookie"; dh_write_cookie _ _ _ := Ok tt; dh_refuses _ := None;
     dh_spawn name _ _ := Opened (example_handle name);
     dh_fleet := {| en_write := At Keys.AtEnd; en_write_why := ""; en_remove := true; en_mkdir := Ok tt; en_db _ := Ok [] |};
     dh_manifests := None; dh_dirs := ∅ |}.

Lemma check_is_the_daemons_verdict_witness :
  errors (inspect example_config example_host) = 1%nat ∧
  ∀ s, snd (startup Z.leb example_config example_daemon (ho_fs example_host)) = Ok s →
    ¬ (preflight (sd_fleet_server s) = Ok tt ∧ Forall (λ ns, preflight (snd ns) = Ok tt) (sd_servers s)).
Proof.
  split; [vm_compute; reflexivity|].
  assert (∀ name w, (name, w) ∈ ac_wallets example_config → zcash_network w = ac_network example_config) as Hnet.
  { intros name w Hin. vm_compute in Hin.
    repeat (apply elem_of_cons in Hin as [[= -> ->]|Hin]; [vm_compute; reflexivity|]). by apply not_elem_of_nil in Hin. }
  assert (laid_out (ac_wallets example_config) (ho_fs example_host)) as Hout.
  { split; apply (bool_decide_unpack _); vm_compute; exact I. }
  destruct (check_is_the_daemons_verdict Z.leb example_config example_host Hnet Hout eq_refl) as [_ H].
  specialize (H ltac:(vm_compute; discriminate) example_daemon).
  destruct (startup _ _ _ _) as [fs' r] eqn:E. apply H.
  assert (fs' = fst (startup Z.leb example_config example_daemon (ho_fs example_host))) as -> by (by rewrite E).
  intros name w Hin. vm_compute in Hin.
  repeat (apply elem_of_cons in Hin as [[= -> ->]|Hin]; [vm_compute; reflexivity|]). destruct (not_elem_of_nil _ Hin).
Defined.
