(* ===== verification/Init.v ===== *)
(** * Init: setting a wallet up and taking it down ([src/src/init.rs], [src/src/lock.rs],
    [src/src/wallet/open.rs])

    [zecd init], [export-ufvk] and [rescan]: a wallet created from a fresh mnemonic, a restored one
    or a viewing key, under the data directory's lock; the viewing key read back; the database
    deleted for a rebuild. A command is an action on the host's file system that may fail part way,
    leaving what it had done. The databases, the mnemonic's cryptography, the upstream and the
    operator's answers are arguments. *)

From S2P Require Import Keys.
From S2P Require Export Migrate.
From S2P Require Import Pools Network.

(** ** Actions on the host *)

(** An action: the file system after it, and its value or why it failed. *)
Definition io (A : Type) : Type := Fs → Fs * result string A.
#[global] Instance io_ret : MRet io := λ A a fs, (fs, Ok a).
#[global] Instance io_bind : MBind io := λ A B f m fs,
  match m fs with
  | (fs, Ok a) => f a fs
  | (fs, Err e) => (fs, Err e)
  end.
Definition lift {A} (r : result string A) : io A := λ fs, (fs, r).
Definition refuse {A} (e : string) : io A := lift (Err e).
Definition look {A} (f : Fs → A) : io A := λ fs, (fs, Ok (f fs)).
Definition check {A} (f : Fs → result string A) : io A := λ fs, (fs, f fs).
(** [anyhow]'s [context]. *)
Definition context {A} (c : string) (r : result string A) : result string A :=
  map_err (λ e, c +:+ ": " +:+ e) r.

(** The regular files and their text. *)
Definition texts (fs : Fs) : Files := omap (λ n, match n with File b => Some b | Directory _ => None end) fs.
Definition is_dir (fs : Fs) (p : string) : bool := match fs !! p with Some (Directory _) => true | _ => false end.
Definition dirs_of (fs : Fs) : Fs := omap (λ n, match n with File _ => None | Directory h => Some (Directory h) end) fs.
(** A change of the files alone. *)
Definition on_texts (f : Files → bool * Files) (e : string) : io () := λ fs,
  let '(done, files) := f (texts fs) in
  ((File <$> files) ∪ dirs_of fs, if done then Ok tt else Err e).
Definition parent (p : string) : option string :=
  match rsplit_once "/" p with
  | Some ("", _) => Some "/"
  | Some (d, _) => Some d
  | None => if bool_decide (p = "") then None else Some ""
  end.

(** ** The library's databases and the mnemonic *)

(** The databases by the engine directory they lie in: opened and migrated for writing, with the
    external gap limit; opened for reading; and a handle's contents written through. *)
Class EngineStore `{WalletDb} := {
  init_dbs : ZNetwork → string → option Z → io db;
  open_read : ZNetwork → string → Fs → result string db;
  save : ZNetwork → string → db → Fs → Fs;
}.
Definition DATA_DB : string := "data.sqlite".
Definition data_db_path (engine_dir : string) : string := path_join engine_dir DATA_DB.

(** The mnemonic, its seed and its two encryptions; the age identity file; and the height of an
    account birthday. *)
Class SetupCrypto `{WalletDb} := {
  mnemonic : Type; recipients : Type;
  from_phrase : string → result string mnemonic;
  phrase : mnemonic → string;
  to_seed : mnemonic → seed;
  encrypt_mnemonic : recipients → mnemonic → result string string;
  encrypt_phrase : string → mnemonic → result string string;
  read_recipients : string → result string recipients;
  birthday_height : birthday_t → Z;
}.

(** The upstream a command dials: its tip, and the tree state at a height. *)
Record Chain `{WalletDb} := {
  ch_latest : result string Z;
  ch_tree_state : Z → result string tree_state;
}.

(** ** Heights, passphrases and entries *)

Definition nl : string := String (ascii_of_nat 10) "".

Definition FRESH_WALLET_BIRTHDAY_MARGIN : Z := 100.
Definition fresh_wallet_birthday (chain_tip : Z) : Z := sat_sub chain_tip FRESH_WALLET_BIRTHDAY_MARGIN.
Definition MIN_PASSPHRASE_CHARS : Z := 12.
Definition validate_passphrase (p : string) : result string () :=
  let n := Z.of_nat (length (chars p)) in
  if n <? MIN_PASSPHRASE_CHARS
  then Err ("passphrase must be at least " +:+ dec MIN_PASSPHRASE_CHARS +:+ " characters (got " +:+ dec n +:+ ")")
  else Ok tt.
(** [read_encryption_passphrase]: the environment's, or two lines of the terminal. *)
Definition read_encryption_passphrase (env : option string) (line1 line2 : result string string) :
    result string string :=
  match env with
  | Some s => _ ← validate_passphrase s; Ok s
  | None =>
      p1 ← line1;
      p2 ← line2;
      let p1 := trim_line_ends p1 in
      if negb (bool_decide (p1 = trim_line_ends p2)) then Err "passphrases do not match"
      else _ ← validate_passphrase p1; Ok p1
  end.

(** The default layout of a wallet the configuration does not name. *)
Definition resolve_wallet_entry (c : AppConfig) (wallet : string) : WalletEntry :=
  default
    {| we_dir := wallet_dir (ac_datadir c) wallet; we_keys_file := None; we_coin := Zcash;
       we_chain := CN_Zcash (ac_network c); we_backend := no_override; we_pools := ac_pools c |}
    (lookup_key wallet (ac_wallets c)).

Section setup.
Context `{W : WalletDb} `{ES : !EngineStore} `{SC : !SetupCrypto}.
(** What the system refuses: a directory's creation or a rename, and a write or a removal at a
    path; a file's metadata; and the processes that hold the lock of a data directory. *)
Context (refuses : fs_call → option string) (fails : string → option string) (metadata : string → option FileMeta)
        (locked : string → bool) (hostname : string) (pid : Z).
(** The TOML codec, the environment and the networks' activation heights. *)
Context (to_toml : StoreEncoding → option string) (from_toml : string → option StoreEncoding)
        (env : string → option string) (activation : ZNetwork → NetworkUpgrade → option Z).
(** The texts of a database's errors, of a keys file's that cannot be read, and of a key's. *)
Context (db_error store_error key_error : string).

Abbreviation nu5 := (λ n, default 0 (activation n Nu5)).
Abbreviation read_store := (λ fs path, ok_or (store_read from_toml env nu5 (texts fs) path) store_error).

(** ** The data directory's lock *)

Definition LOCKFILE_NAME : string := ".lock".
Definition datadir_lock_path (datadir : string) : string := path_join datadir LOCKFILE_NAME.
Definition datadir_locked (datadir : string) : string :=
  "Cannot lock data directory " +:+ datadir +:+ ". Another zecd is already running on this "
  +:+ "host; the lock clears when it exits, so just retry (no lockfile to "
  +:+ "delete). Note the lock is host-local: it does NOT protect a datadir shared "
  +:+ "across hosts (e.g. a network/ReadWriteMany volume) - keep the datadir "
  +:+ "host-local.".
Definition write_file (p bytes : string) : io () := λ fs,
  match fails p with
  | Some e => (fs, Err e)
  | None => if is_dir fs p then (fs, Err "Is a directory") else (<[p := File bytes]> fs, Ok tt)
  end.
(** Opened for appending, and created if it is not there. *)
Definition touch (p : string) : io () := λ fs,
  if is_file fs p then (fs, match fails p with Some e => Err e | None => Ok tt end) else write_file p "" fs.
Definition host_stamp : string :=
  (if bool_decide (hostname = "") then "unknown" else hostname) +:+ ":" +:+ dec pid +:+ nl.
(** [lock_datadir]: the guard is held until the command returns. *)
Definition lock_datadir (datadir : string) : io () :=
  _ ← (λ fs, let '(fs, r) := create_dir_all refuses datadir fs in
             (fs, context ("creating data directory " +:+ datadir) r) : Fs * result string ()) : io ();
  let lockfile := datadir_lock_path datadir in
  _ ← (λ fs, let '(fs, r) := touch lockfile fs in
             (fs, context ("creating lockfile " +:+ lockfile) r) : Fs * result string ()) : io ();
  if locked datadir then refuse (datadir_locked datadir)
  else λ fs, ((write_file lockfile host_stamp fs).1, Ok tt).

(** ** [zecd init] *)

Inductive MnemonicInput := Phrase (m : mnemonic) | Deferred (asked : result string mnemonic).
Definition mnemonic_input (i : MnemonicInput) : result string mnemonic :=
  match i with Phrase m => Ok m | Deferred r => r end.
Inductive EncryptionInput :=
  | AgeIdentity | Passphrase (p : string) | DeferredPassphrase (asked : result string string).
Inductive InitKey := Generate | RestoreFrom (i : MnemonicInput) | WatchOnly (encoded : string).
Record InitOptions := {
  io_wallet : string; io_key : InitKey; io_encryption : EncryptionInput; io_birthday : option Z;
}.
Record InitOutcome := {
  oc_wallet : string; oc_wallet_dir : string; oc_keys_path : string; oc_network : ZNetwork; oc_birthday : Z;
  oc_watch_only : bool; oc_encrypted : bool; oc_identity_path : option string; oc_generated : option mnemonic;
}.

(** [restore_birthday_default]: the height and its label. *)
Definition restore_birthday_default (n : ZNetwork) (pools : ReceiverSet) : Z * string :=
  if set_contains pools Sapling then (default 0 (activation n Sapling_), "Sapling") else (nu5 n, "Orchard (NU5)").

(** Whether an account that is first in its database can spend; a database that cannot be read, or
    has no account, counts as one that cannot. *)
Definition wallet_has_spending_keys (n : ZNetwork) (engine_dir : string) (fs : Fs) : bool :=
  match open_read n engine_dir fs with
  | Ok d =>
      match get_account_ids d with
      | Some (id :: _) =>
          match get_account d id with Some (Some account) => negb (ac_view_only account) | _ => false end
      | _ => false
      end
  | Err _ => false
  end.
Definition existing_spending_wallet (n : ZNetwork) (wallets : list (string * WalletEntry)) (exclude : string)
    (fs : Fs) : option string :=
  fst <$> find_first (λ nw, wallet_has_spending_keys n (entry_engine_dir (snd nw)) fs)
    (List.filter (λ nw, path_exists fs (entry_keys_path (snd nw)))
       (List.filter (λ nw, negb (bool_decide (fst nw = exclude))) wallets)).
Definition ensure_no_preexisting_account (d : db) (wallet engine_dir : string) : result string () :=
  ids ← ok_or (get_account_ids d) db_error;
  match ids with
  | [] => Ok tt
  | _ => Err ("wallet '" +:+ wallet +:+ "' has no keys.toml, but its database at " +:+ data_db_path engine_dir
              +:+ " already contains " +:+ dec (Z.of_nat (length ids)) +:+ " account(s). "
              +:+ "Refusing to initialize into an unexpected pre-existing database: it may belong to a "
              +:+ "different wallet, and the daemon would serve its first account's addresses. Move the "
              +:+ "existing data directory aside (or delete it, if it is not yours) and re-run `zecd "
              +:+ "init`.")
  end.
Definition spender_exists (wallet existing : string) : string :=
  "cannot create spending wallet '" +:+ wallet +:+ "': wallet '" +:+ existing +:+ "' already holds spending keys, "
  +:+ "and zecd allows at most one spending wallet (any number of watch-only "
  +:+ "UFVK wallets may be added alongside it). Create this wallet watch-only with "
  +:+ "`--ufvk` (see `zecd export-ufvk`), or remove/convert the existing spending "
  +:+ "wallet.".

(** *** The age identity *)

(** A file's mode in octal, with its prefix. *)
Fixpoint oct_aux (fuel : nat) (n : Z) : string :=
  match fuel with
  | O => ""
  | S fuel => if n <? 8 then String (digit_char n) "" else oct_aux fuel (n / 8) +:+ String (digit_char (n mod 8)) ""
  end.
Definition oct (n : Z) : string := "0o" +:+ oct_aux (S (Z.to_nat (Z.log2 n))) n.
Definition identity_refusal (path : string) (e : IdentityRefusal) : string :=
  match e with
  | Unreadable => "reading the age identity file " +:+ path
  | NotRegular => "age identity path " +:+ path +:+ " does not resolve to a regular file; refusing to load "
                  +:+ "the wallet's decryption key from an unexpected file type"
  | InsecureMode mode =>
      "age identity file " +:+ path +:+ " has insecure permissions " +:+ oct mode +:+ ": it is accessible "
      +:+ "to group/other and could leak the wallet seed to other local users. It must be "
      +:+ "readable only by its owner. (try chmod 600)"
  end.
(** [ensure_identity]: a fresh identity is its public half, its secret half and its recipient. *)
Definition ensure_identity (path : string) (fresh : string * string * recipients) : io recipients :=
  there ← look (λ fs, path_exists fs path);
  if (there : bool) then
    _ ← lift (map_err (identity_refusal path) (check_identity_file_permissions (metadata path)));
    check (λ fs, text ← ok_or (texts fs !! path) "reading the identity"; read_recipients text)
  else
    let '(public, secret, recipient) := fresh in
    _ ← match parent path with Some p => create_dir_all refuses p : io () | None => mret tt end;
    _ ← write_file path ("# zecd age identity (KEEP SECRET)" +:+ nl +:+ "# public key: " +:+ public +:+ nl
                         +:+ secret +:+ nl);
    mret recipient.

(** *** The command *)

Inductive AtRest := ViewOnly | AtRestPassphrase (p : string) | AtRestIdentity (r : recipients).

(** [chain_probe::account_birthday]: the account birthday of a height, from the tree state of the
    block before it. *)
Definition account_birthday (ch : Chain) (height : Z) (recover_until : option Z) : result string birthday_t :=
  let prior := Z.max (sat_sub height 1) 1 in
  t ← context ("fetching the tree state at height " +:+ dec prior) (ch_tree_state ch prior);
  ok_or (from_treestate t recover_until) ("deriving an account birthday from the tree state at " +:+ dec prior).

(** What the operator and the host give a run: the identity and the mnemonic it would generate, the
    upstream a server leads to, and how far the write of the keys file gets. *)
Record World := {
  wd_identity : string * string * recipients;
  wd_mnemonic : mnemonic;
  wd_dial : Server → result string Chain;
  wd_keys_write : WritePoint;
}.

(** What a key input amounts to: the viewing key imported, or the mnemonic asked for. *)
Definition init_key (n : ZNetwork) (k : InitKey) : result string (option ufvk * option MnemonicInput) :=
  match k with
  | WatchOnly encoded =>
      u ← ok_or (ufvk_decode n (trim encoded)) ("invalid unified full viewing key: " +:+ key_error);
      Ok (Some u, None)
  | RestoreFrom i => Ok (None, Some i)
  | Generate => Ok (None, None)
  end.
Definition identity_path_of (c : AppConfig) : string :=
  default (path_join (ac_datadir c) "identity.txt") (kc_age_identity (ac_keys c)).
Definition settle_at_rest (c : AppConfig) (w : World) (imported : option ufvk) (e : EncryptionInput) : io AtRest :=
  match imported with
  | Some _ => mret ViewOnly
  | None =>
      match e with
      | Passphrase p => mret (AtRestPassphrase p)
      | DeferredPassphrase asked => lift (AtRestPassphrase <$> asked)
      | AgeIdentity => r ← ensure_identity (identity_path_of c) (wd_identity w); mret (AtRestIdentity r)
      end
  end.
(** The mnemonic, and the height a recovery runs to. *)
Definition settle_mnemonic (w : World) (imported : option ufvk) (input : option MnemonicInput) (chain_tip : Z) :
    result string (option mnemonic * option Z) :=
  match imported, input with
  | Some _, _ => Ok (None, Some chain_tip)
  | None, Some i => m ← mnemonic_input i; Ok (Some m, Some chain_tip)
  | None, None => Ok (Some (wd_mnemonic w), None)
  end.
Definition settle_birthday (n : ZNetwork) (pools : ReceiverSet) (given : option Z) (may_have_history : bool)
    (chain_tip : Z) : Z :=
  match given with
  | Some b => b
  | None => if may_have_history then (restore_birthday_default n pools).1 else fresh_wallet_birthday chain_tip
  end.

(** The keys file of a new wallet. *)
Definition store_keys (w : World) (keys_path : string) (f : Files → WritePoint → bool * Files) : io () :=
  _ ← match parent keys_path with Some p => create_dir_all refuses p : io () | None => mret tt end;
  on_texts (λ files, f files (wd_keys_write w)) ("creating " +:+ keys_path).
Definition record_keys (w : World) (n : ZNetwork) (keys_path : string) (at_rest : AtRest) (m : option mnemonic)
    (height : Z) (pin : string) : io () :=
  let the_mnemonic := ok_or m "non-view-only init always has a mnemonic" in
  match at_rest with
  | ViewOnly => store_keys w keys_path (λ files, init_view_only to_toml files keys_path height n pin)
  | AtRestPassphrase p =>
      ct ← lift (m ← the_mnemonic; encrypt_phrase p m);
      store_keys w keys_path (λ files, init_with_passphrase to_toml files keys_path ct height n pin)
  | AtRestIdentity r =>
      ct ← lift (m ← the_mnemonic; encrypt_mnemonic r m);
      store_keys w keys_path (λ files, init_with_mnemonic to_toml files keys_path ct height n pin)
  end.

(** The account, and its viewing key against the one recorded: the account is the only one of the
    database, which had none. *)
Definition create_the_account (n : ZNetwork) (engine_dir : string) (d : db) (imported : option ufvk) (s : option seed)
    (birthday : birthday_t) (pin : string) : io () :=
  d ← lift (ok_or (match imported, s with
                   | Some u, _ => import_account_ufvk d u birthday
                   | None, Some s => create_account d s birthday
                   | None, None => None
                   end) db_error);
  _ ← (λ fs, (save n engine_dir d fs, Ok tt)) : io ();
  created ← lift (ok_or (ids ← get_account_ids d; id ← head ids; account_ufvk_encoded d id) db_error);
  if bool_decide (created = pin) then mret tt
  else refuse
    ("internal error: the created account's viewing key does not match the key derived "
     +:+ "for the keys.toml pin; refusing to leave an inconsistent wallet. Please report "
     +:+ "this bug.").

(** The upstream: the global one, with the deployment's credentials, policy, trust and proxy. *)
Definition init_server (c : AppConfig) (n : ZNetwork) : result string Server :=
  resolve_configured (ac_backend c) (ac_zebra c) n.
Definition dial_tip (w : World) (server : Server) : result string (Chain * Z) :=
  ch ← context ("connecting to " +:+ describe server) (wd_dial w server);
  tip ← ch_latest ch;
  if tip <=? u32_max then Ok (ch, tip) else Err "chain tip height does not fit into u32".

(** What is refused before the wallet's directory is made. *)
Definition init_refusals (c : AppConfig) (o : InitOptions) (entry : WalletEntry) :
    io (option ufvk * option MnemonicInput) :=
  check (λ fs,
    _ ← (if path_exists fs (entry_keys_path entry)
         then Err ("wallet '" +:+ io_wallet o +:+ "' is already initialized (" +:+ entry_keys_path entry +:+ " exists)")
         else Ok tt);
    key ← init_key (zcash_network entry) (io_key o);
    if negb (is_some key.1) && negb (kc_allow_multiple (ac_keys c)) then
      match existing_spending_wallet (zcash_network entry) (ac_wallets c) (io_wallet o) fs with
      | Some existing => Err (spender_exists (io_wallet o) existing)
      | None => Ok key
      end
    else Ok key).

(** The chain's part: the mnemonic, the account birthday and the viewing key to pin. *)
Definition init_chain (c : AppConfig) (o : InitOptions) (w : World) (entry : WalletEntry) (imported : option ufvk)
    (input : option MnemonicInput) : result string (option mnemonic * birthday_t * string) :=
  let n := zcash_network entry in
  server ← init_server c n;
  ch_tip ← dial_tip w server;
  m ← settle_mnemonic w imported input ch_tip.2;
  let height := settle_birthday n (pc_enabled (we_pools entry)) (io_birthday o)
                  (is_some input || is_some imported) ch_tip.2 in
  birthday ← account_birthday ch_tip.1 height m.2;
  pin ← match imported, m.1 with
        | Some u, _ => Ok (ufvk_encode n u)
        | None, Some m => ok_or (seed_ufvk_encoded n (to_seed m) 0) key_error
        | None, None => Err "init either imports a UFVK or has a mnemonic"
        end;
  Ok (m.1, birthday, pin).

(** What [init_wallet] does once it holds the lock and the layout is the current one. *)
Definition init_locked (c : AppConfig) (o : InitOptions) (w : World) : io InitOutcome :=
  let entry := resolve_wallet_entry c (io_wallet o) in
  let n := zcash_network entry in
  let pools := we_pools entry in
  let gap_limit := if pc_transparent_enabled pools then Some (pc_gap_limit pools) else None in
  '(imported, input) ← init_refusals c o entry;
  _ ← create_dir_all refuses (we_dir entry) : io ();
  d ← init_dbs n (entry_engine_dir entry) gap_limit;
  _ ← lift (ensure_no_preexisting_account d (io_wallet o) (entry_engine_dir entry));
  at_rest ← settle_at_rest c w imported (io_encryption o);
  '(m, birthday, pin) ← lift (init_chain c o w entry imported input);
  _ ← record_keys w n (entry_keys_path entry) at_rest m (birthday_height birthday) pin;
  _ ← create_the_account n (entry_engine_dir entry) d imported (to_seed <$> m) birthday pin;
  mret {| oc_wallet := io_wallet o; oc_wallet_dir := we_dir entry; oc_keys_path := entry_keys_path entry;
          oc_network := n; oc_birthday := birthday_height birthday;
          oc_watch_only := match at_rest with ViewOnly => true | _ => false end;
          oc_encrypted := match at_rest with AtRestPassphrase _ => true | _ => false end;
          oc_identity_path := match at_rest with AtRestIdentity _ => Some (identity_path_of c) | _ => None end;
          oc_generated := if is_some input then None else m |}.
Definition init_wallet (c : AppConfig) (o : InitOptions) (w : World) : io InitOutcome :=
  _ ← lock_datadir (ac_datadir c);
  _ ← migrate refuses (ac_wallets c) : io (list WalletMove);
  init_locked c o w.

(** [run]: the flags as options, with what the operator would be asked for; and what is printed, the
    notes on standard error and the mnemonic on standard output. *)
Record InitArgs := {
  ia_wallet : string; ia_ufvk : option string; ia_restore : bool; ia_mnemonic_file : option (string * result string string);
  ia_encrypt : bool; ia_birthday : option Z;
}.
(** [read_mnemonic_phrase]: the environment's, the file's, or a line of the terminal. *)
Definition read_mnemonic_phrase (from_env : option string) (file : option (string * result string string))
    (line : result string string) : result string mnemonic :=
  text ← match from_env, file with
         | Some p, _ => Ok (trim p)
         | None, Some (path, read) => trim <$> context ("reading mnemonic file " +:+ path) read
         | None, None => trim <$> line
         end;
  from_phrase text.
Definition run_options (a : InitArgs) (env_mnemonic env_passphrase : option string) (line line1 line2 : result string string) :
    InitOptions :=
  {| io_wallet := ia_wallet a;
     io_key := match ia_ufvk a with
               | Some encoded => WatchOnly encoded
               | None => if ia_restore a
                         then RestoreFrom (Deferred (read_mnemonic_phrase env_mnemonic (ia_mnemonic_file a) line))
                         else Generate
               end;
     io_encryption := if ia_encrypt a
                      then DeferredPassphrase (read_encryption_passphrase env_passphrase line1 line2) else AgeIdentity;
     io_birthday := ia_birthday a |}.
Definition run_report (o : InitOutcome) : list string * list string :=
  (["Wallet '" +:+ oc_wallet o +:+ "' initialized at " +:+ oc_wallet_dir o]
   ++ (if oc_watch_only o then
         ["Watch-only wallet (imported UFVK): balances, history, and addresses are "
          +:+ "available; spending and wallet-encryption RPCs are disabled."]
       else if oc_encrypted o then
         ["Wallet is passphrase-encrypted; it starts locked. Call walletpassphrase " +:+ quoted "<pass>"
          +:+ " <timeout> to unlock for sending."]
       else match oc_identity_path o with Some p => ["age identity: " +:+ p] | None => [] end),
   match oc_generated o with Some m => [phrase m] | None => [] end).

(** ** [zecd export-ufvk] *)

Definition ensure_store_matches (st : WalletStore) (wallet : string) (n : ZNetwork) : result string () :=
  if bool_decide (ws_network st = n) then Ok tt
  else Err ("wallet '" +:+ wallet +:+ "' is a " +:+ network_name (ws_network st)
            +:+ " wallet, but the configuration selects " +:+ network_name n).
Definition export_ufvk_string (c : AppConfig) (wallet : string) (fs : Fs) : result string string :=
  let entry := resolve_wallet_entry c wallet in
  let keys_path := entry_keys_path entry in
  let n := zcash_network entry in
  if negb (path_exists fs keys_path)
  then Err ("wallet '" +:+ wallet +:+ "' is not initialized (" +:+ keys_path +:+ " missing)")
  else
    st ← read_store fs keys_path;
    _ ← ensure_store_matches st wallet n;
    d ← open_read n (engine_dir_for_reading fs entry) fs;
    ids ← ok_or (get_account_ids d) db_error;
    id ← ok_or (head ids) "wallet has no accounts; run `init` first";
    account ← ok_or (get_account d id) db_error;
    account ← ok_or account "selected account not found";
    ok_or (ac_ufvk account) "account has no unified full viewing key".

(** ** [zecd rescan] *)

(** [remove_dir_all] or [remove_file], by what lies at the path; [None] is a path that holds
    nothing. *)
Definition remove_artifact (path artifact : string) (fs : Fs) : Fs * option (result string string) :=
  match fs !! path with
  | None => (fs, None)
  | Some n =>
      match fails path with
      | Some e => (fs, Some (Err e))
      | None =>
          match n with
          | Directory _ => (filter (λ kv, path_starts_with kv.1 path = false) fs, Some (Ok (artifact +:+ "/")))
          | File _ => (delete path fs, Some (Ok artifact))
          end
      end
  end.
Fixpoint remove_artifacts (engine_dir : string) (artifacts : list string) : io (list string) := λ fs,
  match artifacts with
  | [] => (fs, Ok [])
  | a :: artifacts =>
      let path := path_join engine_dir a in
      match remove_artifact path a fs with
      | (fs, Some (Err e)) => (fs, Err ("removing " +:+ path +:+ ": " +:+ e))
      | (fs, Some (Ok name)) =>
          let '(fs, r) := remove_artifacts engine_dir artifacts fs in (fs, cons name <$> r)
      | (fs, None) => remove_artifacts engine_dir artifacts fs
      end
  end.
(** What a rescan needs before it deletes. *)
Definition rescan_refusals (n : ZNetwork) (wallet keys_path : string) (fs : Fs) : result string WalletStore :=
  if negb (path_exists fs keys_path) then
    Err ("wallet '" +:+ wallet +:+ "' is not initialized (" +:+ keys_path +:+ " missing); there is no database to rebuild - "
         +:+ "run `zecd init` to create a wallet")
  else
    st ← read_store fs keys_path;
    _ ← ensure_store_matches st wallet n;
    if negb (has_seed st) && negb (is_some (ws_pinned_ufvk st)) then
      Err ("wallet '" +:+ wallet +:+ "' is watch-only and its keys.toml holds no pinned viewing key (it "
           +:+ "predates the pin), so nothing on disk can rebuild its account. Delete the wallet "
           +:+ "directory and recreate it with `zecd init --wallet " +:+ wallet +:+ " --ufvk <key> --birthday "
           +:+ "<height>` (export the key from the spending wallet with `zecd export-ufvk`) "
           +:+ "instead.")
    else Ok st.
Definition rescan_wallet (n : ZNetwork) (wallet : string) (datadir : option string) (keys_path engine_dir : string)
    (confirm : WalletStore → result string bool) : io (list string) :=
  _ ← match datadir with Some d => lock_datadir d | None => mret tt end;
  st ← check (rescan_refusals n wallet keys_path);
  confirmed ← lift (confirm st);
  if (confirmed : bool) then remove_artifacts engine_dir ENGINE_ARTIFACTS
  else refuse "rescan aborted (expected 'yes')".
(** [rescan]: the answer to the prompt, unless [--yes] is given; what was removed, and the store
    the report names. *)
Definition rescan (c : AppConfig) (wallet : string) (yes : bool) (line : result string string) :
    io (list string * WalletStore) :=
  _ ← lock_datadir (ac_datadir c);
  _ ← migrate refuses (ac_wallets c) : io (list WalletMove);
  let entry := resolve_wallet_entry c wallet in
  removed ← rescan_wallet (zcash_network entry) wallet None (entry_keys_path entry) (entry_engine_dir entry)
              (λ _, if yes then Ok true else l ← line; Ok (bool_decide (trim l = "yes")));
  st ← check (λ fs, read_store fs (entry_keys_path entry));
  mret (removed, st).
End setup.
