(* ===== verification/InitSpec.v ===== *)
(** * InitSpec: a wallet is set up whole, or the next start can set it up, and a rescan takes away
    only what can be rebuilt *)

From S2P Require Import Keys KeysSpec.
From S2P Require Export Init.
From S2P Require Import Pools Network MigrateSpec.

(** ** Paths of a directory's entries *)

Definition plain (a : string) : bool :=
  all_bytes (λ c, negb (bool_decide (slash = c))) a && negb (bool_decide (a = "")) && negb (bool_decide (a = ".")).

Lemma split_plain acc a : all_bytes (λ c, negb (bool_decide (slash = c))) a = true → split_slash acc a = [acc +:+ a].
Proof.
  revert acc. induction a as [|c a IH]; intros acc; cbn [split_slash all_bytes]; [by rewrite append_nil_r|].
  intros [Hc Ha]%andb_true_iff. apply negb_true_iff in Hc. rewrite (bool_decide_ext (c = slash) (slash = c)), Hc by done.
  rewrite IH by done. by rewrite append_assoc.
Qed.
Lemma split_at_slash x y : ∀ acc, split_slash acc (x +:+ String slash y) = split_slash acc x ++ split_slash "" y.
Proof.
  induction x as [|c x IH]; intros acc; cbn [split_slash String.append].
  - by rewrite bool_decide_eq_true_2.
  - case_bool_decide; rewrite IH; done.
Qed.
Lemma split_nonempty acc x : split_slash acc x ≠ [].
Proof. revert acc. induction x as [|c x IH]; intros acc; cbn; [done|]. case_bool_decide; [done|apply IH]. Qed.

(** What a directory's components are before an entry's name. *)
Definition stem_components (dir : string) : list string :=
  if bool_decide (dir = "") then [] else if ends_with_slash dir then path_components dir else path_components (dir +:+ "/").

Lemma ends_slash p : ends_with_slash p = true → ∃ q, p = q +:+ "/".
Proof.
  induction p as [|c p IH]; [done|]. destruct p as [|d p].
  - cbn. intros ->%bool_decide_eq_true. by exists "".
  - intros H. destruct IH as [q E]; [exact H|]. exists (String c q). by rewrite E.
Qed.
Lemma components_entry x a : plain a = true → path_components (x +:+ String slash a) = path_components (x +:+ "/") ++ [a].
Proof.
  unfold plain. intros [[Hs He]%andb_true_iff Hd]%andb_true_iff. apply negb_true_iff, bool_decide_eq_false in He, Hd.
  unfold path_components. change "/" with (String slash ""). rewrite !split_at_slash, (split_plain "" a Hs). cbn [split_slash].
  rewrite !List.filter_app. cbn [List.filter String.append]. rewrite (bool_decide_eq_false_2 (a = "")), (bool_decide_eq_false_2 (a = ".")) by done.
  cbn [andb negb]. rewrite (bool_decide_eq_true_2 ("" = "")) by done. cbn [andb negb]. rewrite app_nil_r, app_assoc. f_equal. f_equal.
  unfold is_absolute. destruct x as [|c x]; [done|]. cbn [String.append].
  assert (∀ t, starts_with "/" (String c t) = bool_decide (c = slash)) as E.
  { intros t. unfold starts_with. cbn. unfold slash. destruct (Ascii.ascii_dec "/" c) as [<-|Hn]; by repeat case_bool_decide. }
  rewrite !E. case_bool_decide; [done|].
  destruct (split_slash "" (String c x)) as [|h t] eqn:Es; [by apply split_nonempty in Es|]. done.
Qed.
Lemma components_join dir a : plain a = true → path_components (path_join dir a) = stem_components dir ++ [a].
Proof.
  intros Ha. pose proof Ha as Ha'. unfold plain in Ha. apply andb_true_iff in Ha as [[Hs He]%andb_true_iff Hd].
  apply negb_true_iff, bool_decide_eq_false in He, Hd.
  assert (is_absolute a = false) as Habs.
  { unfold is_absolute, starts_with. destruct a as [|c a]; [done|]. cbn in Hs |- *.
    apply andb_true_iff in Hs as [Hc _]. apply negb_true_iff in Hc. apply bool_decide_eq_false in Hc.
    unfold slash in Hc. by repeat case_bool_decide. }
  unfold path_join, stem_components. rewrite Habs. case_bool_decide as Ed; cbn [orb].
  - subst dir. cbn [String.append app]. unfold path_components. rewrite Habs, (split_plain "" a Hs). cbn.
    rewrite (bool_decide_eq_false_2 (a = "")), (bool_decide_eq_false_2 (a = ".")) by done. cbn.
    destruct a as [|c a]; [done|]. by repeat (case_match; simplify_eq/=).
  - destruct (ends_with_slash dir) eqn:Es.
    + apply ends_slash in Es as [q ->]. rewrite append_assoc. by apply components_entry.
    + by apply components_entry.
Qed.
Lemma prefix_entry l a b : is_prefix (l ++ [a]) (l ++ [b]) = bool_decide (a = b).
Proof.
  induction l as [|x l IH]; cbn; [|by rewrite bool_decide_eq_true_2]. by rewrite andb_true_r.
Qed.
Lemma prefix_refl l : is_prefix l l = true.
Proof. induction l as [|x l IH]; cbn; [done|]. by rewrite bool_decide_eq_true_2. Qed.
Lemma starts_with_entry dir a b :
  plain a = true → plain b = true → path_starts_with (path_join dir b) (path_join dir a) = bool_decide (a = b).
Proof. intros Ha Hb. unfold path_starts_with. rewrite !components_join by done. apply prefix_entry. Qed.
Lemma starts_with_refl p : path_starts_with p p = true.
Proof. apply prefix_refl. Qed.

(** An entry lies under its directory. *)
Lemma components_slash x : x ≠ "" → path_components (x +:+ "/") = path_components x.
Proof.
  intros Hx. unfold path_components. change "/" with (String slash ""). rewrite split_at_slash, List.filter_app. cbn [split_slash].
  cbn [List.filter]. rewrite (bool_decide_eq_true_2 ("" = "")) by done. cbn [negb andb]. rewrite app_nil_r. f_equal.
  destruct x as [|c x]; [done|]. cbn [String.append].
  assert (∀ t, is_absolute (String c t) = bool_decide (c = slash)) as E.
  { intros t. unfold is_absolute, starts_with. cbn. unfold slash. destruct (Ascii.ascii_dec "/" c) as [<-|Hn]; by repeat case_bool_decide. }
  rewrite !E. case_bool_decide; [done|].
  destruct (split_slash "" (String c x)) as [|h t] eqn:Es; [by apply split_nonempty in Es|]. done.
Qed.
Lemma prefix_app l l' : is_prefix l (l ++ l') = true.
Proof. induction l as [|x l IH]; cbn; [done|]. by rewrite bool_decide_eq_true_2. Qed.
Lemma entry_under dir a : plain a = true → path_starts_with (path_join dir a) dir = true.
Proof.
  intros Ha. unfold path_starts_with. rewrite components_join by done.
  assert (stem_components dir = path_components dir) as ->; [|apply prefix_app].
  unfold stem_components. case_bool_decide as E; [by subst|]. case_match; [done|]. by apply components_slash.
Qed.

(** ** Actions *)

Lemma io_Ok_inv {A B} (m : io A) (f : A → io B) fs fs' b :
  (m ≫= f) fs = (fs', Ok b) → ∃ fs1 a, m fs = (fs1, Ok a) ∧ f a fs1 = (fs', Ok b).
Proof. unfold mbind, io_bind. destruct (m fs) as [fs1 [a|e]]; [|done]. eauto. Qed.
Lemma io_inv {A B} (m : io A) (f : A → io B) fs fs' r :
  (m ≫= f) fs = (fs', r) →
  (∃ e, m fs = (fs', Err e) ∧ r = Err e) ∨ (∃ fs1 a, m fs = (fs1, Ok a) ∧ f a fs1 = (fs', r)).
Proof. unfold mbind, io_bind. destruct (m fs) as [fs1 [a|e]]; [eauto|]. intros [= -> <-]. eauto. Qed.

Lemma lookup_texts fs p b : texts fs !! p = Some b ↔ fs !! p = Some (File b).
Proof. unfold texts. rewrite lookup_omap. destruct (fs !! p) as [[]|]; simpl; naive_solver. Qed.
Lemma texts_none fs p : fs !! p = None → texts fs !! p = None.
Proof. intros E. unfold texts. by rewrite lookup_omap, E. Qed.
Lemma lookup_texts_eq fs fs' p : fs !! p = fs' !! p → texts fs !! p = texts fs' !! p.
Proof. intros E. unfold texts. by rewrite !lookup_omap, E. Qed.
Lemma texts_on_texts f e fs : texts (on_texts f e fs).1 = (f (texts fs)).2.
Proof.
  unfold on_texts. destruct (f (texts fs)) as [done files]. cbn. apply map_eq. intros p.
  unfold texts. rewrite lookup_omap, lookup_union, lookup_fmap. unfold dirs_of. rewrite lookup_omap.
  destruct (files !! p), (fs !! p) as [[]|]; done.
Qed.
Lemma texts_mkdir fs p : texts (if path_exists fs p then fs else <[p := Directory ""]> fs) = texts fs.
Proof.
  unfold path_exists. destruct (fs !! p) eqn:E; [done|]. cbn. apply map_eq. intros q. unfold texts.
  rewrite !lookup_omap. destruct (decide (q = p)) as [->|].
  - by rewrite lookup_insert_eq, E.
  - by rewrite lookup_insert_ne by done.
Qed.
Lemma texts_create_dir_all refuses d fs : texts (create_dir_all refuses d fs).1 = texts fs.
Proof.
  unfold create_dir_all. case_match; [done|]. case_match; [done|]. cbn. clear.
  induction (ancestors d) as [|p l IH]; [done|]. cbn. by rewrite texts_mkdir.
Qed.
Lemma create_dir_texts refuses d fs fs' r : create_dir_all refuses d fs = (fs', r) → texts fs' = texts fs.
Proof. intros H. rewrite <- (texts_create_dir_all refuses d fs). by rewrite H. Qed.
Lemma lookup_write_file fails p b fs fs' r q : write_file fails p b fs = (fs', r) → q ≠ p → fs' !! q = fs !! q.
Proof.
  unfold write_file. destruct (fails p); [by intros [= <- _]|]. destruct (is_dir fs p); intros [= <- _]; [done|].
  intros Hq. by apply lookup_insert_ne.
Qed.

(** ** The lock and the layout, before a command's own work *)

Section arranged.
Context (refuses : fs_call → option string) (fails : string → option string)
        (locked : string → bool) (hostname : string) (pid : Z).

Abbreviation lock_held := (lock_datadir refuses fails locked hostname pid).
(** The host once the data directory is locked and its layout the current one. *)
Definition arranged (c : AppConfig) (fs fs1 : Fs) : Prop :=
  locked (ac_datadir c) = false ∧
  ∃ fs0 moves, lock_held (ac_datadir c) fs = (fs0, Ok tt) ∧ migrate refuses (ac_wallets c) fs0 = (fs1, Ok moves).
(** A path that is neither the lock's file nor an engine artifact's of a configured wallet. *)
Definition aside (c : AppConfig) (p : string) : Prop :=
  p ≠ datadir_lock_path (ac_datadir c) ∧ p ∉ paths (all_slots (ac_wallets c)).

Lemma rename_texts dir from to_ fs p :
  p ≠ from → p ≠ to_ → texts (rename refuses dir from to_ fs).1 !! p = texts fs !! p.
Proof.
  intros Hf Ht. apply lookup_texts_eq. unfold rename. repeat case_match; try done. cbn.
  by rewrite lookup_insert_ne, lookup_delete_ne.
Qed.
Lemma apply_artifacts_texts m artifacts fs p :
  p ∉ paths (slots_of (wm_from m) (wm_to m) artifacts) →
  texts (apply_artifacts refuses m artifacts fs).1 !! p = texts fs !! p.
Proof.
  revert fs. induction artifacts as [|a l IH]; intros fs Hp; [done|]. cbn.
  change (slots_of (wm_from m) (wm_to m) (a :: l))
    with ([(path_join (wm_from m) a, path_join (wm_to m) a)] ++ slots_of (wm_from m) (wm_to m) l) in Hp.
  rewrite paths_app in Hp. pose proof (rename_texts (wm_to m) (path_join (wm_from m) a) (path_join (wm_to m) a) fs p) as Hr.
  destruct (rename _ _ _ _ fs) as [fs1 [|]]; cbn in Hr |- *; [rewrite IH by tauto|]; apply Hr; intros ->; apply Hp; left;
    unfold paths; set_solver.
Qed.
Lemma apply_texts m fs p :
  p ∉ paths (slots_of (wm_from m) (wm_to m) (wm_artifacts m)) → texts (Migrate.apply refuses m fs).1 !! p = texts fs !! p.
Proof.
  intros Hp. unfold Migrate.apply. rewrite <- (texts_create_dir_all refuses (wm_to m) fs).
  destruct (create_dir_all _ _ fs) as [fs2 [|]]; [by apply apply_artifacts_texts|done].
Qed.
(** A planned move concerns slots of its wallet. *)
Lemma held_paths fs from to_ l p : p ∈ paths (slots_of from to_ (held fs from l)) → p ∈ paths (slots_of from to_ l).
Proof.
  unfold paths, slots_of, held. rewrite <- !list_fmap_compose, !elem_of_app, !list_elem_of_fmap.
  intros [(a & Ha & [_ Hin]%elem_of_filter_bool)|(a & Ha & [_ Hin]%elem_of_filter_bool)]; [left|right]; by exists a.
Qed.
Lemma move_of_slots fs nw m p :
  move_of fs nw = Some m → p ∈ paths (slots_of (wm_from m) (wm_to m) (wm_artifacts m)) → p ∈ paths (entry_slots (snd nw)).
Proof. unfold move_of. case_bool_decide; [done|]. intros <-%(inj Some). apply held_paths. Qed.
Lemma migrate_texts c fs p :
  p ∉ paths (all_slots (ac_wallets c)) → texts (migrate refuses (ac_wallets c) fs).1 !! p = texts fs !! p.
Proof.
  intros Hp. unfold migrate. destruct (plan _ fs) as [moves|e] eqn:Ep; [|done]. apply plan_ok in Ep as [-> _].
  assert (∀ fs1, texts (apply_all refuses (omap (move_of fs) (ac_wallets c)) fs1).1 !! p = texts fs1 !! p) as Ha.
  { revert Hp. induction (ac_wallets c) as [|nw l IH]; intros Hp fs1; [done|].
    change (all_slots (nw :: l)) with (entry_slots (snd nw) ++ all_slots l) in Hp. rewrite paths_app in Hp.
    rewrite apply_all_cons. destruct (move_of fs nw) as [m|] eqn:Em; [|apply IH; tauto].
    pose proof (apply_texts m fs1 p) as Ht. destruct (Migrate.apply refuses m fs1) as [fs2 [|]]; cbn [fst] in Ht |- *.
    - rewrite IH by tauto. apply Ht. intros Hin%(move_of_slots _ _ _ _ Em). tauto.
    - apply Ht. intros Hin%(move_of_slots _ _ _ _ Em). tauto. }
  specialize (Ha fs). by destruct (apply_all _ _ fs) as [fs1 [|]].
Qed.
Lemma lock_texts datadir fs p :
  p ≠ datadir_lock_path datadir → texts (lock_held datadir fs).1 !! p = texts fs !! p.
Proof.
  intros Hp. unfold lock_datadir, mbind, io_bind.
  pose proof (texts_create_dir_all refuses datadir fs) as Hc. destruct (create_dir_all _ _ fs) as [fs1 [|]];
    cbn [fst] in Hc; rewrite <- Hc; [|done]. clear Hc.
  assert (∀ b fs2, texts (write_file fails (datadir_lock_path datadir) b fs2).1 !! p = texts fs2 !! p) as Hw.
  { intros b fs2. destruct (write_file _ _ _ fs2) eqn:E. apply lookup_texts_eq. by eapply lookup_write_file. }
  assert (texts (touch fails (datadir_lock_path datadir) fs1).1 !! p = texts fs1 !! p) as Ht.
  { unfold touch. by destruct (is_file fs1 _). }
  destruct (touch _ _ fs1) as [fs2 [|]]; cbn [fst] in Ht; [|exact Ht]. rewrite <- Ht. cbn [context map_err].
  destruct (locked datadir); [done|]. apply Hw.
Qed.

(** A command's work starts on the host so arranged, or does not start; either way the other files
    are as they were. *)
Lemma arrange_inv {A} c (m : io A) fs fs' r :
  (_ ← lock_held (ac_datadir c); _ ← migrate refuses (ac_wallets c) : io (list WalletMove); m) fs = (fs', r) →
  (is_Err r ∧ ∀ p, aside c p → texts fs' !! p = texts fs !! p) ∨
  ∃ fs1, arranged c fs fs1 ∧ (∀ p, aside c p → texts fs1 !! p = texts fs !! p) ∧ m fs1 = (fs', r).
Proof.
  intros H. apply io_inv in H as [(e & H & ->)|(fs0 & [] & H0 & H)].
  { left. split; [by eexists|]. intros p [Hp _]. rewrite <- (lock_texts _ fs p Hp). by rewrite H. }
  assert (∀ p, aside c p → texts fs0 !! p = texts fs !! p) as Hl.
  { intros p [Hp _]. rewrite <- (lock_texts _ fs p Hp). by rewrite H0. }
  apply io_inv in H as [(e & H & ->)|(fs1 & moves & H1 & H)].
  { left. split; [by eexists|]. intros p Hp. rewrite <- Hl by done. rewrite <- (migrate_texts c fs0 p) by apply Hp. by rewrite H. }
  right. exists fs1. split_and!; [|intros p Hp; rewrite <- Hl, <- (migrate_texts c fs0 p) by apply Hp; by rewrite H1|done].
  split; [|by exists fs0, moves]. clear -H0. unfold lock_datadir in H0. apply io_Ok_inv in H0 as (? & ? & _ & H0).
  apply io_Ok_inv in H0 as (? & ? & _ & H0). by destruct (locked _).
Qed.
End arranged.

Section init.
Context `{W : WalletDb} `{ES : !EngineStore} `{SC : !SetupCrypto}.
Context (refuses : fs_call → option string) (fails : string → option string) (metadata : string → option FileMeta)
        (locked : string → bool) (hostname : string) (pid : Z).
Context (to_toml : StoreEncoding → option string) (from_toml : string → option StoreEncoding)
        (env : string → option string) (activation : ZNetwork → NetworkUpgrade → option Z).
Context (db_error key_error : string).

Abbreviation nu5 := (λ n, default 0 (activation n Nu5)).
Abbreviation init_run := (init_locked refuses fails metadata to_toml activation db_error key_error).

(** The databases: opening one, and writing one through, concern the files under its directory
    alone, which are all that reading it looks at; it reads as it was opened or written. *)
Class EngineStoreLaws : Prop := {
  init_frame n dir g fs p :
    path_starts_with p dir = false → texts (init_dbs n dir g fs).1 !! p = texts fs !! p;
  init_reads n dir g fs fs' d : init_dbs n dir g fs = (fs', Ok d) → open_read n dir fs' = Ok d;
  save_frame n dir d fs p : path_starts_with p dir = false → texts (save n dir d fs) !! p = texts fs !! p;
  save_reads n dir d fs : open_read n dir (save n dir d fs) = Ok d;
  read_frame n dir fs fs' :
    (∀ p, path_starts_with p dir = true → texts fs !! p = texts fs' !! p) →
    open_read n dir fs = open_read n dir fs';
}.
(** The library on a network's database without accounts: an account created derives from its seed
    at index 0 and can spend, one imported is its viewing key and cannot; a viewing key's text
    decodes; what was encrypted to the identity decrypts to the seed. *)
Class SetupLaws (n : ZNetwork) : Prop := {
  created d s b d' :
    get_account_ids d = Some [] → create_account d s b = Some d' →
    ∃ id acc, get_account_ids d' = Some [id] ∧ get_account d' id = Some (Some acc) ∧
      ac_index acc = Some 0 ∧ ac_ufvk acc = seed_ufvk_encoded n s 0 ∧ ac_view_only acc = false;
  imported d u b d' :
    get_account_ids d = Some [] → import_account_ufvk d u b = Some d' →
    ∃ id acc, get_account_ids d' = Some [id] ∧ get_account d' id = Some (Some acc) ∧
      ac_ufvk acc = Some (ufvk_encode n u) ∧ ac_view_only acc = true;
  ufvk_decodes u : ufvk_decode n (ufvk_encode n u) = Some u;
  identity_decrypts r m ct s : encrypt_mnemonic r m = Ok ct → decrypt_identity ct = Some s → s = to_seed m;
}.

(** ** The keys file *)

(** What the keys file of a new wallet says. *)
Definition recorded (n : ZNetwork) (at_rest : AtRest) (m : option mnemonic) (height : Z) (pin : string)
    (e : StoreEncoding) : Prop :=
  se_network e = Some (network_name n) ∧ se_birthday e = Some height ∧ se_ufvk e = Some pin ∧
  match at_rest with
  | ViewOnly => se_mnemonic e = None ∧ se_encryption e = None
  | AtRestPassphrase p =>
      (∃ (x : mnemonic) (ct : string), m = Some x ∧ encrypt_phrase p x = Ok ct ∧ se_mnemonic e = Some ct) ∧
      se_encryption e = Some ENC_PASSPHRASE
  | AtRestIdentity r =>
      (∃ (x : mnemonic) (ct : string), m = Some x ∧ encrypt_mnemonic r x = Ok ct ∧ se_mnemonic e = Some ct) ∧ se_encryption e = None
  end.
(** The files after the write: the whole text at [p], the same files, or a write that was cut. *)
Definition whole (P : StoreEncoding → Prop) (p : string) (files files' : Files) : Prop :=
  ∃ e text, P e ∧ to_toml e = Some text ∧ files' = <[p := text]> files.
Definition cut (upto : WritePoint) : Prop := ∃ k, upto = AtWrite k.

Lemma write_new (P : StoreEncoding → Prop) files p e upto ok files' :
  P e → write_keys_atomic to_toml files p e true upto = (ok, files') →
  if ok then whole P p files files' else files' = files ∨ whole P p files files' ∨ cut upto.
Proof.
  intros HP. unfold write_keys_atomic, whole, cut. destruct (to_toml e) as [text|] eqn:Et; [|intros [= <- <-]; auto].
  destruct (is_some _); [intros [= <- <-]; auto|].
  destruct upto; intros [= <- <-]; eauto 10.
Qed.
Lemma store_keys_spec (P : StoreEncoding → Prop) w kp f fs fs' r :
  (∀ files upto (ok : bool) files', f files upto = (ok, files') →
     if ok then whole P kp files files' else files' = files ∨ whole P kp files files' ∨ cut upto) →
  store_keys refuses w kp f fs = (fs', r) →
  match r with
  | Ok _ => whole P kp (texts fs) (texts fs')
  | Err _ => texts fs' = texts fs ∨ whole P kp (texts fs) (texts fs') ∨ cut (wd_keys_write w)
  end.
Proof.
  intros Hf H. unfold store_keys in H. apply io_inv in H as [(e & H & ->)|(fs1 & u & H1 & H)].
  { left. destruct (parent kp) as [p|]; [|done]. by apply create_dir_texts in H. }
  assert (texts fs1 = texts fs) as <-.
  { destruct (parent kp) as [p|]; [|by injection H1 as ->].
    by apply create_dir_texts in H1. }
  assert (texts fs' = (f (texts fs1) (wd_keys_write w)).2) as E.
  { rewrite <- (texts_on_texts (λ files, f files (wd_keys_write w)) ("creating " +:+ kp)). by rewrite H. }
  unfold on_texts in H. destruct (f (texts fs1) (wd_keys_write w)) as [ok files'] eqn:Ef.
  injection H as _ <-. simpl in E. rewrite E. specialize (Hf _ _ _ _ Ef). by destruct ok.
Qed.
Lemma record_keys_spec w n kp at_rest m h pin fs fs' r :
  record_keys refuses to_toml w n kp at_rest m h pin fs = (fs', r) →
  match r with
  | Ok _ => whole (recorded n at_rest m h pin) kp (texts fs) (texts fs')
  | Err _ => texts fs' = texts fs ∨ whole (recorded n at_rest m h pin) kp (texts fs) (texts fs') ∨ cut (wd_keys_write w)
  end.
Proof.
  intros H. destruct at_rest as [|p|rc]; cbn [record_keys] in H.
  - eapply store_keys_spec; [|exact H]. intros files upto ok files'. apply write_new. by split_and!.
  - apply io_inv in H as [(e & [= <- _] & ->)|(fs1 & ct & [= <- Hct] & H)]; [by left|].
    destruct m as [x|]; [|done]. eapply store_keys_spec; [|exact H].
    intros files upto ok files'. apply write_new. by split_and!; [..|exists x, ct|].
  - apply io_inv in H as [(e & [= <- _] & ->)|(fs1 & ct & [= <- Hct] & H)]; [by left|].
    destruct m as [x|]; [|done]. eapply store_keys_spec; [|exact H].
    intros files upto ok files'. apply write_new. by split_and!; [..|exists x, ct|].
Qed.

(** It reads back as the store the wallet starts from. *)
Lemma recorded_reads n at_rest m h pin files files' kp :
  codec_laws to_toml from_toml → network_parse env (network_name n) = Some (Ok n) →
  whole (recorded n at_rest m h pin) kp files files' →
  ∃ st, store_read from_toml env nu5 files' kp = Some st ∧ ws_network st = n ∧ ws_birthday st = h ∧
    ws_pinned_ufvk st = Some pin ∧
    ws_encrypted st = match at_rest with AtRestPassphrase _ => true | _ => false end ∧
    match at_rest with
    | ViewOnly => seed_ciphertext st = None
    | AtRestPassphrase p => ∃ x ct, m = Some x ∧ seed_ciphertext st = Some ct ∧ encrypt_phrase p x = Ok ct
    | AtRestIdentity r => ∃ x ct, m = Some x ∧ seed_ciphertext st = Some ct ∧ encrypt_mnemonic r x = Ok ct
    end.
Proof.
  intros Hc Hn (e & text & (En & Eb & Eu & Em) & Et & ->).
  unfold store_read. rewrite lookup_insert_eq. cbn [mbind option_bind]. rewrite (Hc _ _ Et). cbn [mbind option_bind].
  unfold store_of. rewrite En, Hn. cbn [mbind option_bind result_ok]. eexists. split; [done|]. cbn.
  rewrite Eb, Eu. destruct at_rest as [|p|r]; [destruct Em as [Em Ee]|destruct Em as [(x & ct & -> & E & Em) Ee]..];
    rewrite Em, Ee; split_and!; eauto; by rewrite bool_decide_eq_true_2.
Qed.

(** ** The account *)

(** The material a run settled on: the account the pin names. *)
Definition settled (n : ZNetwork) (at_rest : AtRest) (imp : option ufvk) (m : option mnemonic) (pin : string) : Prop :=
  match imp, m with
  | Some u, _ => pin = ufvk_encode n u ∧ at_rest = ViewOnly
  | None, Some x => seed_ufvk_encoded n (to_seed x) 0 = Some pin ∧ at_rest ≠ ViewOnly
  | None, None => False
  end.
Definition is_view_only (at_rest : AtRest) : bool := match at_rest with ViewOnly => true | _ => false end.

(** A database without accounts is left so, or holds the account the pin names. *)
Lemma create_the_account_spec `{EL : !EngineStoreLaws} n `{SL : !SetupLaws n} dir d imp m b pin at_rest fs fs' r :
  settled n at_rest imp m pin → get_account_ids d = Some [] →
  create_the_account db_error n dir d imp (to_seed <$> m) b pin fs = (fs', r) →
  match r with
  | Ok _ => ∃ d' id acc, fs' = save n dir d' fs ∧ get_account_ids d' = Some [id] ∧
      get_account d' id = Some (Some acc) ∧ ac_ufvk acc = Some pin ∧ ac_view_only acc = is_view_only at_rest ∧
      (imp = None → ac_index acc = Some 0)
  | Err _ => fs' = fs
  end.
Proof.
  intros Hs Hd H. unfold create_the_account in H.
  set (o := match imp with Some u => import_account_ufvk d u b | None => _ end) in H.
  apply io_inv in H as [(e & [= <- _] & ->)|(fs1 & d' & [= <- Ho] & H)]; [done|].
  apply ok_or_Ok in Ho.
  assert (∃ id acc, get_account_ids d' = Some [id] ∧ get_account d' id = Some (Some acc) ∧ ac_ufvk acc = Some pin ∧
            ac_view_only acc = is_view_only at_rest ∧ (imp = None → ac_index acc = Some 0))
    as (id & acc & Hids & Hacc & Hu & Hv & Hi).
  { unfold settled in Hs. destruct imp as [u|]; [|destruct m as [x|]; [|done]].
    - destruct Hs as [-> ->]. destruct (imported _ _ _ _ Hd Ho) as (id & acc & ? & ? & ? & ?). by exists id, acc.
    - destruct Hs as [Hp Hn]. destruct (created _ _ _ _ Hd Ho) as (id & acc & ? & ? & ? & Hu & ?).
      exists id, acc. rewrite Hu. split_and!; [done..|by destruct at_rest|done]. }
  apply io_inv in H as [(e & H & ->)|(fs2 & u & [= <- _] & H)]; [done|].
  cbn in H. rewrite Hids in H. cbn in H. unfold account_ufvk_encoded in H. rewrite Hacc in H. cbn in H.
  rewrite Hu in H.
  cbn [ok_or lift] in H. unfold mbind, io_bind, lift in H. rewrite bool_decide_eq_true_2 in H by done. injection H as <- <-.
  by exists d', id, acc.
Qed.

(** ** What the daemon makes of it *)

Context (kcfg : KeyConfig).
Abbreviation start := (start_custody to_toml from_toml env nu5 kcfg).

Lemma start_custody_ok st d files id idx vo u s :
  store_read from_toml env nu5 files (kc_keys_path kcfg) = Some st →
  try_select_account d = Some (Some (id, idx, vo)) → account_ufvk_encoded d id = Some u →
  ws_pinned_ufvk st = Some u → start_seed kcfg st vo (Some u) idx = Ok s →
  ∃ c, start d files AtEnd = (Ok c, files) ∧ c_account_id c = Some id ∧ c_pending_bootstrap c = None ∧
    c_watch_only c = vo ∧ c_encrypted c = ws_encrypted st ∧ c_db c = d.
Proof.
  intros Hst Hsel Hu Hp Hs. unfold start_custody. rewrite Hst. cbn [ok_or mbind result_bind].
  unfold start_account. rewrite Hsel. cbn [ok_or mbind result_bind]. rewrite Hu. cbn [ok_or mbind result_bind].
  rewrite Hs. cbn [mbind result_bind]. unfold verify_or_pin_account. rewrite Hp, bool_decide_eq_true_2 by done.
  eexists. split; [done|]. by split_and!.
Qed.

(** The wallet an [init] set up starts: its account is bound to its keys file, and nothing is
    rebuilt. *)
Definition ready (dir : string) (fs : Fs) (watch_only encrypted : bool) (birthday : Z) : Prop :=
  ∃ d st c id, open_read (kc_network kcfg) dir fs = Ok d ∧
    store_read from_toml env nu5 (texts fs) (kc_keys_path kcfg) = Some st ∧ ws_birthday st = birthday ∧
    start d (texts fs) AtEnd = (Ok c, texts fs) ∧ c_account_id c = Some id ∧ c_pending_bootstrap c = None ∧
    c_watch_only c = watch_only ∧ c_encrypted c = encrypted.
(** A wallet the next start rebuilds from its keys file. *)
Definition rebuildable (dir : string) (fs : Fs) : Prop :=
  ∃ d st key, open_read (kc_network kcfg) dir fs = Ok d ∧
    store_read from_toml env nu5 (texts fs) (kc_keys_path kcfg) = Some st ∧
    start_account kcfg st d
      = Ok (None, None, match key with FromUfvk _ => true | FromSeed => false end, Some (ws_birthday st, key)).

Lemma start_account_rebuilds st d key :
  kc_bootstrap kcfg = true → get_account_ids d = Some [] → bootstrap_key kcfg st = Ok (Some key) →
  start_account kcfg st d
    = Ok (None, None, match key with FromUfvk _ => true | FromSeed => false end, Some (ws_birthday st, key)).
Proof.
  intros Hb Hd Hk. unfold start_account, try_select_account. rewrite Hd. cbn. rewrite Hk. cbn. by rewrite Hb.
Qed.
Lemma whole_rebuildable `{SL : !SetupLaws (kc_network kcfg)} dir at_rest imp m h pin d files fs :
  codec_laws to_toml from_toml → network_parse env (network_name (kc_network kcfg)) = Some (Ok (kc_network kcfg)) →
  kc_bootstrap kcfg = true → settled (kc_network kcfg) at_rest imp m pin →
  whole (recorded (kc_network kcfg) at_rest m h pin) (kc_keys_path kcfg) files (texts fs) →
  open_read (kc_network kcfg) dir fs = Ok d → get_account_ids d = Some [] → rebuildable dir fs.
Proof.
  intros Hc Hn Hb Hs Hw Ho Hd. destruct (recorded_reads _ _ _ _ _ _ _ _ Hc Hn Hw) as (st & Hst & Hnet & Hh & Hp & He & Hct).
  enough (∃ key, bootstrap_key kcfg st = Ok (Some key)) as [key Hk].
  { exists d, st, key. split_and!; [done..|]. by apply start_account_rebuilds. }
  unfold bootstrap_key, has_seed. destruct at_rest as [|p|rc].
  - rewrite Hct, Hp. cbn. unfold settled in Hs. destruct imp as [u|]; [|destruct m; naive_solver].
    destruct Hs as [-> _]. rewrite ufvk_decodes. eauto.
  - destruct Hct as (x & ct & _ & -> & _). eauto.
  - destruct Hct as (x & ct & _ & -> & _). eauto.
Qed.

Lemma start_seed_ok `{SL : !SetupLaws (kc_network kcfg)} at_rest imp m pin idx st :
  settled (kc_network kcfg) at_rest imp m pin → (imp = None → idx = Some 0) →
  ws_encrypted st = match at_rest with AtRestPassphrase _ => true | _ => false end →
  match at_rest with
  | AtRestIdentity r => ∃ x ct, m = Some x ∧ seed_ciphertext st = Some ct ∧ encrypt_mnemonic r x = Ok ct
  | _ => True
  end →
  ∃ s, start_seed kcfg st (is_view_only at_rest) (Some pin) idx = Ok s.
Proof.
  intros Hs Hi He Hct. unfold start_seed. rewrite He. destruct at_rest as [|p|r]; cbn; [eauto..|].
  destruct Hct as (x & ct & -> & Hct & Henc). unfold settled in Hs.
  destruct imp as [u|]; [by destruct Hs as [_ ?]|]. rewrite (Hi eq_refl). destruct Hs as [Hs _].
  destruct (negb _); [eauto|]. destruct (kc_identity kcfg) as [meta|]; [|eauto].
  destruct (negb (has_seed st)); [eauto|].
  unfold decrypt_seed_with_identity. destruct (check_identity_file_permissions meta); [|eauto].
  rewrite Hct. destruct (decrypt_identity ct) as [s|] eqn:Ed; cbn; [|eauto].
  rewrite (identity_decrypts _ _ _ _ Henc Ed), Hs. cbn. rewrite bool_decide_eq_true_2 by done. eauto.
Qed.

(** The end of a run: the keys file, then the account. *)
Lemma finish_spec `{EL : !EngineStoreLaws} `{SL : !SetupLaws (kc_network kcfg)} dir at_rest imp m birthday pin d w fs fs' r :
  codec_laws to_toml from_toml → network_parse env (network_name (kc_network kcfg)) = Some (Ok (kc_network kcfg)) →
  kc_bootstrap kcfg = true → path_starts_with (kc_keys_path kcfg) dir = false →
  settled (kc_network kcfg) at_rest imp m pin →
  open_read (kc_network kcfg) dir fs = Ok d → get_account_ids d = Some [] →
  (record_keys refuses to_toml w (kc_network kcfg) (kc_keys_path kcfg) at_rest m (birthday_height birthday) pin
   ≫= λ _, create_the_account db_error (kc_network kcfg) dir d imp (to_seed <$> m) birthday pin) fs = (fs', r) →
  match r with
  | Ok _ => ready dir fs' (is_view_only at_rest) (match at_rest with AtRestPassphrase _ => true | _ => false end)
              (birthday_height birthday)
  | Err _ => texts fs' = texts fs ∨ cut (wd_keys_write w) ∨ rebuildable dir fs'
  end.
Proof.
  intros Hc Hn Hb Hk Hs Ho Hd H.
  assert (∀ fs1, whole (recorded (kc_network kcfg) at_rest m (birthday_height birthday) pin) (kc_keys_path kcfg)
                   (texts fs) (texts fs1) → open_read (kc_network kcfg) dir fs1 = Ok d) as Hread.
  { intros fs1 (e & text & _ & _ & E). rewrite <- Ho. apply read_frame. intros p Hp. rewrite E.
    apply lookup_insert_ne. intros <-. congruence. }
  apply io_inv in H as [(e & H & ->)|(fs1 & u & H1 & H)]; apply record_keys_spec in H || apply record_keys_spec in H1.
  { destruct H as [H|[H|H]]; [by left| |by right; left].
    right; right. by eapply whole_rebuildable; eauto. }
  specialize (Hread _ H1). apply (create_the_account_spec _ _ _ _ _ _ _ _ _ _ _ Hs Hd) in H.
  destruct r as [u'|e]; [|subst fs'; right; right; by eapply whole_rebuildable].
  destruct H as (d' & id & acc & -> & Hids & Hacc & Hu & Hv & Hi).
  assert (store_read from_toml env nu5 (texts (save (kc_network kcfg) dir d' fs1)) (kc_keys_path kcfg)
          = store_read from_toml env nu5 (texts fs1) (kc_keys_path kcfg)) as Eread
    by (unfold store_read; by rewrite save_frame).
  destruct (recorded_reads _ _ _ _ _ _ _ _ Hc Hn H1) as (st & Hst & Hnet & Hh & Hp & He & Hct).
  destruct (start_seed_ok at_rest imp m pin (ac_index acc) st Hs Hi He) as [s Hseed]; [by destruct at_rest|].
  rewrite <- Eread in Hst.
  destruct (start_custody_ok st d' _ id (ac_index acc) (is_view_only at_rest) pin s Hst) as (c & Hstart & ? & ? & ? & ? & _);
    [|by unfold account_ufvk_encoded; rewrite Hacc|done|done|].
  { unfold try_select_account. rewrite Hids. cbn. rewrite Hacc. cbn. by rewrite Hv. }
  exists d', st, c, id. rewrite save_reads, <- He. by split_and!.
Qed.

(** ** The run *)

Lemma ensure_identity_frame path fresh fs fs' r p :
  ensure_identity refuses fails metadata path fresh fs = (fs', r) → p ≠ path → texts fs' !! p = texts fs !! p.
Proof.
  intros H Hp. unfold ensure_identity in H. apply io_inv in H as [(e & [=] & _)|(fs0 & there & [= <- <-] & H)].
  destruct (path_exists fs path).
  - apply io_inv in H as [(e & [= <- _] & _)|(fs1 & u & [= <- _] & H)]; [done|]. by injection H as <-.
  - destruct fresh as [[public secret] recipient].
    apply io_inv in H as [(e & H & _)|(fs1 & u & H1 & H)].
    { destruct (parent path) as [d|]; [|done]. by apply create_dir_texts in H as ->. }
    assert (texts fs1 = texts fs) as <-.
    { destruct (parent path) as [d|]; [|by injection H1 as ->]. by apply create_dir_texts in H1. }
    apply lookup_texts_eq.
    apply io_inv in H as [(e & H & _)|(fs2 & u' & H & [= <- _])]; by eapply lookup_write_file.
Qed.
Lemma settle_at_rest_spec c w imp e fs fs' r :
  settle_at_rest refuses fails metadata c w imp e fs = (fs', r) →
  (∀ p, p ≠ identity_path_of c → texts fs' !! p = texts fs !! p) ∧
  (∀ at_rest, r = Ok at_rest → is_view_only at_rest = is_some imp).
Proof.
  unfold settle_at_rest. destruct imp as [u|]; [by intros [= <- <-]; split; [|intros ? [= <-]]|].
  destruct e as [|p|asked].
  - intros H. apply io_inv in H as [(e & H & ->)|(fs1 & rc & H & [= <- <-])].
    + split; [|done]. intros p. by eapply ensure_identity_frame.
    + split; [|by intros ? [= <-]]. intros p. by eapply ensure_identity_frame.
  - by intros [= <- <-]; split; [|intros ? [= <-]].
  - intros [= <- <-]. split; [done|]. destruct asked; [|done]. by intros ? [= <-].
Qed.

Lemma find_first_none {A} (f : A → bool) l : find_first f l = None → ∀ x, x ∈ l → f x = false.
Proof.
  induction l as [|y l IH]; cbn; [by intros _ x ?%elem_of_nil|]. destruct (f y) eqn:E; [done|].
  intros H x [->|Hx]%elem_of_cons; [done|by apply IH].
Qed.
(** No other configured wallet that is initialised can spend. *)
Definition no_other_spender (c : AppConfig) (n : ZNetwork) (wallet : string) (fs : Fs) : Prop :=
  ∀ name e, (name, e) ∈ ac_wallets c → name ≠ wallet → path_exists fs (entry_keys_path e) = true →
    wallet_has_spending_keys n (entry_engine_dir e) fs = false.
Lemma existing_none c n wallet fs :
  existing_spending_wallet n (ac_wallets c) wallet fs = None → no_other_spender c n wallet fs.
Proof.
  unfold existing_spending_wallet. intros H%fmap_None name e Hin Hne Hex.
  apply (find_first_none _ _ H (name, e)). apply elem_of_filter_bool. split; [done|].
  apply elem_of_filter_bool. split; [|done]. by rewrite bool_decide_eq_false_2.
Qed.
Lemma init_refusals_spec c o entry fs fs' r :
  init_refusals key_error c o entry fs = (fs', r) →
  fs' = fs ∧ ∀ key, r = Ok key →
    fs !! entry_keys_path entry = None ∧
    (key.1 = None → kc_allow_multiple (ac_keys c) = false →
     no_other_spender c (zcash_network entry) (io_wallet o) fs).
Proof.
  unfold init_refusals. intros [= <- <-]. split; [done|]. intros key H.
  unfold path_exists in H. destruct (fs !! entry_keys_path entry); [done|]. cbn in H. split; [done|].
  destruct (init_key _ _ _) as [k|]; [|done]. cbn in H. intros Hk Ha.
  destruct (is_some k.1) eqn:E; cbn in H; [injection H as <-; by destruct k.1|].
  rewrite Ha in H. cbn in H. apply existing_none. by destruct (existing_spending_wallet _ _ _ _).
Qed.
Lemma init_chain_spec c o w entry imp input at_rest m b pin :
  init_chain activation key_error c o w entry imp input = Ok (m, b, pin) → is_view_only at_rest = is_some imp →
  settled (zcash_network entry) at_rest imp m pin.
Proof.
  unfold init_chain, settled. intros H Hv.
  apply bind_Ok_inv in H as (server & _ & H). apply bind_Ok_inv in H as (ct & _ & H).
  apply bind_Ok_inv in H as (sm & _ & H). apply bind_Ok_inv in H as (bd & _ & H).
  apply bind_Ok_inv in H as (pn & Hp & [= <- <- <-]).
  destruct imp as [u|]; [injection Hp as <-; by destruct at_rest|].
  destruct sm.1; [|done]. apply ok_or_Ok in Hp. split; [done|]. by intros ->.
Qed.

Lemma ensure_empty d wallet dir u : ensure_no_preexisting_account db_error d wallet dir = Ok u → get_account_ids d = Some [].
Proof. unfold ensure_no_preexisting_account. destruct (get_account_ids d) as [[|]|]; done. Qed.

Lemma init_dbs_frame {EL : EngineStoreLaws} n dir g fs fs' r p :
  init_dbs n dir g fs = (fs', r) → path_starts_with p dir = false → texts fs' !! p = texts fs !! p.
Proof. intros H Hp. rewrite <- (init_frame n dir g fs p Hp). by rewrite H. Qed.

(** A run stops before the keys file is written, which stays as it was, or settles on the material
    of the account with the file absent and the database open, without accounts. *)
Lemma init_prepares {EL : EngineStoreLaws} c o w entry fs fs' r :
  entry = resolve_wallet_entry c (io_wallet o) →
  path_starts_with (entry_keys_path entry) (entry_engine_dir entry) = false →
  entry_keys_path entry ≠ identity_path_of c → path_starts_with (identity_path_of c) (entry_engine_dir entry) = false →
  init_run c o w fs = (fs', r) →
  (∃ e, r = Err e) ∧ texts fs' !! entry_keys_path entry = texts fs !! entry_keys_path entry ∨
  ∃ fs1 imp d at_rest m b pin out,
    texts fs !! entry_keys_path entry = None ∧ texts fs1 !! entry_keys_path entry = None ∧
    (imp = None → kc_allow_multiple (ac_keys c) = false →
     no_other_spender c (zcash_network entry) (io_wallet o) fs) ∧
    open_read (zcash_network entry) (entry_engine_dir entry) fs1 = Ok d ∧ get_account_ids d = Some [] ∧
    settled (zcash_network entry) at_rest imp m pin ∧ is_view_only at_rest = is_some imp ∧
    oc_watch_only out = is_view_only at_rest ∧
    oc_encrypted out = (match at_rest with AtRestPassphrase _ => true | _ => false end) ∧
    oc_birthday out = birthday_height b ∧
    ((record_keys refuses to_toml w (zcash_network entry) (entry_keys_path entry) at_rest m (birthday_height b) pin
      ≫= λ _, create_the_account db_error (zcash_network entry) (entry_engine_dir entry) d imp (to_seed <$> m) b pin)
     ≫= λ _, mret out) fs1 = (fs', r).
Proof.
  intros -> Hk Hki Hi H. set (entry := resolve_wallet_entry c (io_wallet o)) in *.
  unfold init_locked in H. fold entry in H. cbv zeta in H. set (kp := entry_keys_path entry) in *.
  apply io_inv in H as [(e & H & ->)|(fs0 & key & H0 & H)].
  { apply init_refusals_spec in H as [-> _]. left. eauto. }
  apply init_refusals_spec in H0 as [-> Hkey]. destruct (Hkey _ eq_refl) as [Hnone Hspend]. clear Hkey.
  destruct key as [imp input]. cbn [fst] in Hspend. apply texts_none in Hnone. fold kp in Hnone.
  apply io_inv in H as [(e & H & ->)|(fs1 & u & H1 & H)];
    [apply create_dir_texts in H as E1|apply create_dir_texts in H1 as E1].
  { left. rewrite E1. eauto. }
  apply io_inv in H as [(e & H & ->)|(fs2 & d & H2 & H)];
    [pose proof (init_dbs_frame _ _ _ _ _ _ _ H Hk) as E2|pose proof (init_dbs_frame _ _ _ _ _ _ _ H2 Hk) as E2];
    rewrite E1 in E2.
  { left. eauto. }
  apply io_inv in H as [(e & [= <- _] & ->)|(fs2' & u' & [= <- Hd%ensure_empty] & H)]; [left; eauto|].
  apply io_inv in H as [(e & H & ->)|(fs3 & at_rest & H3 & H)];
    [apply settle_at_rest_spec in H as [Hf _]|apply settle_at_rest_spec in H3 as [Hf Hv]].
  { left. rewrite (Hf kp) by done. eauto. }
  specialize (Hv _ eq_refl). pose proof (Hf kp Hki) as E3. rewrite E2 in E3.
  apply io_inv in H as [(e & [= <- _] & ->)|(fs3' & [[m b] pin] & [= <- Hch] & H)]; [left; eauto|].
  right. exists fs3, imp, d, at_rest, m, b, pin. eexists.
  split_and!; [done|by rewrite E3|done| |done|by eapply init_chain_spec|done| | | |].
  { rewrite <- (init_reads _ _ _ _ _ _ H2). symmetry. apply read_frame. intros p Hp. symmetry. apply Hf.
    intros ->. congruence. }
  4: { rewrite <- H. unfold mbind, io_bind. by destruct (record_keys _ _ _ _ _ _ _ _ _ _) as [? [|]]. }
  all: done.
Qed.

(** Once the lock is held and the layout current. *)
Lemma init_locked_sets_up {EL : EngineStoreLaws} {SL : SetupLaws (kc_network kcfg)} c o w fs fs' r :
  let entry := resolve_wallet_entry c (io_wallet o) in
  let dir := entry_engine_dir entry in
  codec_laws to_toml from_toml →
  network_parse env (network_name (kc_network kcfg)) = Some (Ok (kc_network kcfg)) →
  kc_bootstrap kcfg = true → zcash_network entry = kc_network kcfg → entry_keys_path entry = kc_keys_path kcfg →
  path_starts_with (kc_keys_path kcfg) dir = false →
  kc_keys_path kcfg ≠ identity_path_of c → path_starts_with (identity_path_of c) dir = false →
  init_run c o w fs = (fs', r) →
  match r with
  | Ok out =>
      texts fs !! kc_keys_path kcfg = None ∧
      ready dir fs' (oc_watch_only out) (oc_encrypted out) (oc_birthday out) ∧
      (oc_watch_only out = false → kc_allow_multiple (ac_keys c) = false →
       no_other_spender c (kc_network kcfg) (io_wallet o) fs)
  | Err _ =>
      texts fs' !! kc_keys_path kcfg = texts fs !! kc_keys_path kcfg ∨
      texts fs !! kc_keys_path kcfg = None ∧ (cut (wd_keys_write w) ∨ rebuildable dir fs')
  end.
Proof.
  intros entry dir Hc Hn Hb Hnet Hkp Hk Hki Hi H.
  assert (path_starts_with (entry_keys_path entry) dir = false) as Hk' by congruence.
  apply (init_prepares c o w entry) in H as [[[e ->] E]|H]; [left; congruence| |done..|congruence|done].
  destruct H as (fs1 & imp & d & at_rest & m & b & pin & out & Hnone & Hnone1 & Hsp & Ho & Hd & Hs & Hv & Ew & Ee & Eb & H).
  rewrite Hnet, Hkp in *.
  apply io_inv in H as [(e & H & ->)|(fs2 & u & H1 & [= <- <-])];
    [apply (finish_spec _ _ _ _ _ _ _ _ _ _ _ Hc Hn Hb Hk Hs Ho Hd) in H
    |apply (finish_spec _ _ _ _ _ _ _ _ _ _ _ Hc Hn Hb Hk Hs Ho Hd) in H1].
  - destruct H as [->|H]; [left; congruence|by right].
  - rewrite Ew, Ee, Eb. split_and!; [done..|]. intros Hv' Ha. apply Hsp; [|done]. destruct imp; [|done].
    rewrite Hv in Hv'. done.
Qed.

End init.

(** ** A concrete run *)

(** A database is nothing or one account: whether it is for viewing only, and its viewing key; its
    file is that in a letter and the key. A seed is the mnemonic, a viewing key ["u"] before it. *)
#[local] Instance toy_db : WalletDb := {|
  db := option (bool * string); account_uuid := (); seed := string; usk := string; ufvk := string;
  birthday_t := Z; tree_state := Z;
  get_account_ids d := Some (match d with Some _ => [tt] | None => [] end);
  get_account d _ := Some ((λ a : bool * string, {| ac_ufvk := Some a.2; ac_index := if a.1 then None else Some 0;
                                                    ac_view_only := a.1 |}) <$> d);
  create_account d s _ := match d with None => Some (Some (false, "u" +:+ s)) | Some _ => None end;
  import_account_ufvk d k _ := match d with None => Some (Some (true, k)) | Some _ => None end;
  update_chain_tip d _ := d;
  ufvk_decode _ s := Some s; ufvk_encode _ k := k;
  usk_from_seed _ s _ := Ok s; usk_ufvk k := "u" +:+ k;
  from_treestate t _ := Some (t + 1);
  decrypt_passphrase ct p := strip_prefix ("p" +:+ p) ct; decrypt_identity ct := strip_prefix "i" ct;
|}.
Definition toy_file (dir : string) : string := path_join dir DATA_DB.
Definition toy_text (d : option (bool * string)) : string :=
  match d with None => "-" | Some (true, u) => "v" +:+ u | Some (false, u) => "s" +:+ u end.
Definition toy_parse (t : string) : result string (option (bool * string)) :=
  match t with
  | String "-" "" => Ok None | String "v" u => Ok (Some (true, u)) | String "s" u => Ok (Some (false, u))
  | _ => Err "not a database"
  end.
#[local] Instance toy_store : EngineStore := {|
  init_dbs _ dir _ fs :=
    match texts fs !! toy_file dir with
    | Some t => (fs, toy_parse t)
    | None => (<[toy_file dir := File "-"]> fs, Ok None)
    end;
  open_read _ dir fs := t ← ok_or (texts fs !! toy_file dir) "no database"; toy_parse t;
  save _ dir d fs := <[toy_file dir := File (toy_text d)]> fs;
|}.
#[local] Instance toy_crypto : SetupCrypto := {|
  mnemonic := string; recipients := (); from_phrase s := Ok s; phrase m := m; to_seed m := m;
  encrypt_mnemonic _ m := Ok ("i" +:+ m); encrypt_phrase p m := Ok ("p" +:+ p +:+ m);
  read_recipients _ := Ok tt; birthday_height b := b;
|}.

Lemma toy_parse_text d : toy_parse (toy_text d) = Ok d.
Proof. by destruct d as [[[] u]|]. Qed.
Lemma texts_insert p b fs : texts (<[p := File b]> fs) = <[p := b]> (texts fs).
Proof.
  apply map_eq. intros q. unfold texts. rewrite lookup_omap. destruct (decide (q = p)) as [->|].
  - by rewrite !lookup_insert_eq.
  - rewrite !lookup_insert_ne by done. by rewrite lookup_omap.
Qed.
Lemma toy_under dir : path_starts_with (toy_file dir) dir = true.
Proof. by apply entry_under. Qed.
Lemma toy_outside dir p b fs : path_starts_with p dir = false → texts (<[toy_file dir := File b]> fs) !! p = texts fs !! p.
Proof. intros Hp. rewrite texts_insert. apply lookup_insert_ne. intros <-. by rewrite toy_under in Hp. Qed.
#[local] Instance toy_store_laws : EngineStoreLaws.
Proof.
  split; cbn; intros.
  - case_match; [done|]. by apply toy_outside.
  - case_match; simplify_eq; cbn; [by rewrite H0|]. by rewrite texts_insert, lookup_insert_eq.
  - by apply toy_outside.
  - rewrite texts_insert, lookup_insert_eq. apply toy_parse_text.
  - rewrite H by apply toy_under. done.
Qed.
#[local] Instance toy_laws n : SetupLaws n.
Proof.
  split; cbn.
  - intros [|] s b d' Hd Hc; simplify_eq/=. eexists tt, _. by split_and!.
  - intros [|] k b d' Hd Hc; simplify_eq/=. eexists tt, _. by split_and!.
  - done.
  - by intros r m ct s [= <-] [= <-].
Qed.

Definition toy_encoding : StoreEncoding :=
  {| se_mnemonic := Some "iabandon"; se_network := Some "regtest"; se_birthday := Some 500; se_encryption := None;
     se_ufvk := Some "uabandon" |}.
Definition toy_to_toml (e : StoreEncoding) : option string := if bool_decide (e = toy_encoding) then Some "keys" else None.
Definition toy_from_toml (t : string) : option StoreEncoding := if bool_decide (t = "keys") then Some toy_encoding else None.
Lemma toy_codec : codec_laws toy_to_toml toy_from_toml.
Proof. intros e t. unfold toy_to_toml, toy_from_toml. case_bool_decide; [|done]. intros [= <-]. by subst. Qed.
Definition toy_activation (n : ZNetwork) (nu : NetworkUpgrade) : option Z := Some 1.
Definition toy_world : World := {|
  wd_identity := ("age1", "AGE-SECRET-KEY-1", tt); wd_mnemonic := "fresh";
  wd_dial _ := Ok {| ch_latest := Ok 1000; ch_tree_state h := Ok h |}; wd_keys_write := AtEnd |}.
Definition toy_options : InitOptions :=
  {| io_wallet := "ops"; io_key := RestoreFrom (Phrase "abandon"); io_encryption := AgeIdentity; io_birthday := Some 500 |}.
Definition toy_kcfg : KeyConfig :=
  {| kc_name := "ops"; kc_network := ac_network example_config; kc_keys_path := "/data/ops/keys.toml"; kc_bootstrap := true;
     Keys.kc_auto_unlock := true; kc_identity := Some (Some {| Keys.is_file := true; file_mode := 384 |}) |}.
Definition toy_run : Fs * result string InitOutcome :=
  init_wallet (λ _, None) (λ _, None) (λ _, None) (λ _, false) "host" 7 toy_to_toml toy_activation "db" "key" example_config
    toy_options toy_world ∅.

Definition toy_after : Fs * result string InitOutcome := Eval vm_compute in toy_run.
Lemma toy_runs : toy_run = (toy_after.1, toy_after.2).
Proof. vm_compute. reflexivity. Qed.


(** * A rescan

    It takes away the database's files, all of them and nothing else, and only of a wallet the next
    start can rebuild. *)

(** ** The removal *)

(** What an artifact is called in the report, and whether its removal takes a path away. *)
Definition reported (fs : Fs) (dir a : string) : option string :=
  match fs !! path_join dir a with Some (File _) => Some a | Some (Directory _) => Some (a +:+ "/") | None => None end.
Definition takes (fs : Fs) (dir p a : string) : bool :=
  match fs !! path_join dir a with
  | Some (File _) => bool_decide (p = path_join dir a)
  | Some (Directory _) => path_starts_with p (path_join dir a)
  | None => false
  end.
Definition gone (fs : Fs) (dir : string) (artifacts : list string) (p : string) : bool :=
  existsb (takes fs dir p) artifacts.

Section removal.
Context (fails : string → option string).

Lemma remove_artifact_spec dir a fs fs' r :
  remove_artifact fails (path_join dir a) a fs = (fs', r) →
  match r with
  | Some (Err _) => fs' = fs
  | Some (Ok name) => reported fs dir a = Some name ∧ ∀ p, fs' !! p = if takes fs dir p a then None else fs !! p
  | None => fs' = fs ∧ fs !! path_join dir a = None
  end.
Proof.
  unfold remove_artifact, reported, takes. destruct (fs !! path_join dir a) as [nd|] eqn:E; [|by intros [= <- <-]].
  destruct (fails _); [by intros [= <- <-]|]. destruct nd as [b|h]; intros [= <- <-]; (split; [done|]); intros p.
  - case_bool_decide as Hp; [subst; apply lookup_delete_eq|by apply lookup_delete_ne].
  - rewrite map_lookup_filter. destruct (fs !! p); cbn; [|by case_match].
    destruct (path_starts_with p _); [by rewrite option_guard_False|by rewrite option_guard_True].
Qed.

Lemma takes_under fs dir p a : takes fs dir p a = true → path_starts_with p (path_join dir a) = true.
Proof. unfold takes. repeat case_match; [|done..]. intros ->%bool_decide_eq_true. apply starts_with_refl. Qed.
(** The removal of one entry leaves the others. *)
Lemma takes_other fs dir a b : plain a = true → plain b = true → a ≠ b → takes fs dir (path_join dir b) a = false.
Proof.
  intros Ha Hb Hab. apply not_true_iff_false. intros H%takes_under. rewrite starts_with_entry in H by done.
  by apply bool_decide_eq_true in H.
Qed.

Lemma remove_artifacts_spec dir artifacts fs fs' r :
  Forall (λ a, plain a = true) artifacts → NoDup artifacts →
  remove_artifacts fails dir artifacts fs = (fs', r) →
  (∀ p, fs' !! p = fs !! p ∨ fs' !! p = None ∧ gone fs dir artifacts p = true) ∧
  match r with
  | Ok names => names = omap (reported fs dir) artifacts ∧
      ∀ p, fs' !! p = if gone fs dir artifacts p then None else fs !! p
  | Err _ => True
  end.
Proof.
  revert fs fs' r. induction artifacts as [|a l IH]; intros fs fs' r Hp Hn H; cbn in H.
  { injection H as <- <-. split; [by left|done]. }
  inversion Hp as [|? ? Ha Hl]; subst. inversion Hn as [|? ? Hna Hnl]; subst.
  destruct (remove_artifact fails (path_join dir a) a fs) as [fs1 r1] eqn:E1. apply remove_artifact_spec in E1.
  destruct r1 as [[name|e]|].
  - destruct E1 as [Hname E1]. destruct (remove_artifacts fails dir l fs1) as [fs2 r2] eqn:E2.
    injection H as <- <-. destruct (IH _ _ _ Hl Hnl E2) as [Hk Hr].
    assert (∀ b, b ∈ l → fs1 !! path_join dir b = fs !! path_join dir b) as Hsame.
    { intros b Hb. rewrite E1, takes_other; [done|done| |by intros ->].
      by eapply Forall_forall in Hl. }
    assert (∀ p, gone fs1 dir l p = gone fs dir l p) as Hgone.
    { intros p. unfold gone. clear -Hsame. induction l as [|b l IH]; [done|]. cbn.
      rewrite IH by (intros; apply Hsame; by right). f_equal. unfold takes. by rewrite Hsame by left. }
    split.
    + intros p. unfold gone. cbn. fold (gone fs dir l p). destruct (Hk p) as [->|[-> Hg]].
      * rewrite E1. destruct (takes fs dir p a); [by right|by left].
      * right. split; [done|]. rewrite Hgone in Hg. rewrite Hg. by destruct (takes fs dir p a).
    + destruct r2 as [names|e]; [|done]. destruct Hr as [-> Hr]. cbn. rewrite Hname. split.
      * cbn. f_equal. clear -Hsame. induction l as [|b l IH]; [done|]. cbn.
        rewrite IH by (intros; apply Hsame; by right).
        assert (reported fs1 dir b = reported fs dir b) as -> by (unfold reported; by rewrite Hsame by left). done.
      * intros p. rewrite Hr, Hgone, E1. unfold gone. cbn. by destruct (takes fs dir p a), (existsb _ _).
  - injection H as <- <-. subst. split; [by left|done].
  - destruct E1 as [-> Hnone]. destruct (IH _ _ _ Hl Hnl H) as [Hk Hr].
    assert (∀ p, gone fs dir (a :: l) p = gone fs dir l p) as Hg.
    { intros p. unfold gone. cbn. unfold takes at 1. by rewrite Hnone. }
    split; [intros p; rewrite Hg; apply Hk|]. destruct r as [names|e]; [|done]. destruct Hr as [-> Hr].
    assert (reported fs dir a = None) as Hrep by (unfold reported; by rewrite Hnone).
    split; [cbn; by rewrite Hrep|]. intros p. rewrite Hg. apply Hr.
Qed.

(** Once they are gone, there is nothing to remove. *)
Lemma remove_nothing dir artifacts fs :
  Forall (λ a, fs !! path_join dir a = None) artifacts → remove_artifacts fails dir artifacts fs = (fs, Ok []).
Proof.
  induction artifacts as [|a l IH]; [done|]. intros [Ha Hl]%Forall_cons. cbn. unfold remove_artifact. rewrite Ha. by apply IH.
Qed.
Lemma gone_self fs dir artifacts a : a ∈ artifacts → gone fs dir artifacts (path_join dir a) = true ∨ fs !! path_join dir a = None.
Proof.
  intros Ha. destruct (fs !! path_join dir a) as [nd|] eqn:E; [left|by right].
  unfold gone. apply existsb_exists. exists a. split; [by apply list_elem_of_In|]. unfold takes. rewrite E.
  destruct nd; [by apply bool_decide_eq_true_2|apply starts_with_refl].
Qed.
Lemma artifacts_plain : Forall (λ a, plain a = true) ENGINE_ARTIFACTS ∧ NoDup ENGINE_ARTIFACTS.
Proof. split; [repeat constructor|]. apply (bool_decide_eq_true_1 _). vm_compute. reflexivity. Qed.
End removal.

(** ** The command *)

Section rescan.
Context `{W : WalletDb}.
Context (refuses : fs_call → option string) (fails : string → option string)
        (locked : string → bool) (hostname : string) (pid : Z).
Context (from_toml : string → option StoreEncoding)
        (env : string → option string) (activation : ZNetwork → NetworkUpgrade → option Z) (store_error : string).

Abbreviation nu5 := (λ n, default 0 (activation n Nu5)).
Abbreviation rescan_held := (λ n wallet keys_path dir confirm,
  rescan_wallet refuses fails locked hostname pid from_toml env activation store_error n wallet None keys_path dir confirm).
Abbreviation refusals := (rescan_refusals from_toml env activation store_error).

Lemma refusals_spec n wallet keys_path fs st :
  refusals n wallet keys_path fs = Ok st →
  store_read from_toml env nu5 (texts fs) keys_path = Some st ∧ ws_network st = n ∧
  (has_seed st = true ∨ ∃ pin, ws_pinned_ufvk st = Some pin).
Proof.
  unfold rescan_refusals. destruct (path_exists _ _); [|done]. cbn [negb]. intros H.
  apply bind_Ok_inv in H as (st' & Hst%ok_or_Ok & H). apply bind_Ok_inv in H as (u & Hm & H).
  unfold ensure_store_matches in Hm. case_bool_decide as En; [|done].
  destruct (has_seed st') eqn:Es, (ws_pinned_ufvk st') as [pin|] eqn:Ep; cbn in H; try discriminate;
    injection H as <-; (split; [done|split; [done|]]); first [by left|right; by exists pin].
Qed.
Lemma refusals_again n wallet keys_path fs fs' :
  fs' !! keys_path = fs !! keys_path → refusals n wallet keys_path fs' = refusals n wallet keys_path fs.
Proof.
  intros E. unfold rescan_refusals, path_exists, store_read. rewrite E. by rewrite (lookup_texts_eq fs' fs).
Qed.

(** What the next start makes of the emptied database: it rebuilds the account from the seed or the
    pinned viewing key, unless that text does not decode. *)
Definition rebuilds_from (kcfg : KeyConfig) (st : WalletStore) : Prop :=
  ∀ d, get_account_ids d = Some [] →
    (∃ key, start_account kcfg st d
       = Ok (None, None, match key with FromUfvk _ => true | FromSeed => false end, Some (ws_birthday st, key)))
    ∨ has_seed st = false ∧ ∃ pin, ws_pinned_ufvk st = Some pin ∧ ufvk_decode (kc_network kcfg) pin = None.
Lemma has_key_rebuilds kcfg st :
  kc_bootstrap kcfg = true → (has_seed st = true ∨ ∃ pin, ws_pinned_ufvk st = Some pin) → rebuilds_from kcfg st.
Proof.
  intros Hb Hk d Hd. unfold start_account, try_select_account, bootstrap_key. rewrite Hd. cbn. rewrite Hb.
  destruct (has_seed st); [left; by exists FromSeed|].
  destruct Hk as [|[pin ->]]; [done|]. destruct (ufvk_decode (kc_network kcfg) pin) as [k|] eqn:E; [|eauto].
  left. by exists (FromUfvk k).
Qed.

(** What a rescan comes to on a host whose lock is held and whose layout is current: [fs] before the
    deletion, [fs'] after it, and [r] what was removed. *)
Definition deletes_only_the_database (kcfg : KeyConfig) wallet dir confirm (fs fs' : Fs) (r : result string (list string)) : Prop :=
  (∀ p, fs' !! p = fs !! p ∨ fs' !! p = None ∧ gone fs dir ENGINE_ARTIFACTS p = true) ∧
  fs' !! kc_keys_path kcfg = fs !! kc_keys_path kcfg ∧
  (¬ (∃ st, refusals (kc_network kcfg) wallet (kc_keys_path kcfg) fs = Ok st ∧ confirm st = Ok true) → fs' = fs ∧ is_Err r) ∧
  ∀ removed, r = Ok removed →
    ∃ st, store_read from_toml env nu5 (texts fs') (kc_keys_path kcfg) = Some st ∧ ws_network st = kc_network kcfg ∧
      confirm st = Ok true ∧ removed = omap (reported fs dir) ENGINE_ARTIFACTS ∧
      (∀ p, fs' !! p = if gone fs dir ENGINE_ARTIFACTS p then None else fs !! p) ∧
      (has_seed st = true ∨ is_Some (ws_pinned_ufvk st)) ∧ rebuilds_from kcfg st ∧
      rescan_held (kc_network kcfg) wallet (kc_keys_path kcfg) dir confirm fs' = (fs', Ok []).
Lemma rescan_held_deletes (kcfg : KeyConfig) wallet dir confirm fs fs' r :
  kc_bootstrap kcfg = true →
  (∀ a, a ∈ ENGINE_ARTIFACTS → path_starts_with (kc_keys_path kcfg) (path_join dir a) = false) →
  rescan_held (kc_network kcfg) wallet (kc_keys_path kcfg) dir confirm fs = (fs', r) →
  deletes_only_the_database kcfg wallet dir confirm fs fs' r.
Proof.
  intros Hb Hk H. unfold rescan_wallet in H. apply io_inv in H as [(e & [=] & _)|(fs0 & u & [= <- _] & H)].
  apply io_inv in H as [(e & [= <- Hr] & ->)|(fs1 & st & [= <- Hst] & H)].
  { split_and!; [by left|done| |done]. split; [done|by exists e]. }
  apply io_inv in H as [(e & [= <- Hc] & ->)|(fs1 & ok & [= <- Hc] & H)].
  { split_and!; [by left|done| |done]. split; [done|by exists e]. }
  destruct ok.
  2: { injection H as <- <-. split_and!; [by left|done| |done]. split; [done|by eexists]. }
  destruct artifacts_plain as [Hp Hn]. pose proof (remove_artifacts_spec fails _ _ _ _ _ Hp Hn H) as [Hkeep Hall].
  assert (fs' !! kc_keys_path kcfg = fs !! kc_keys_path kcfg) as Hkeys.
  { destruct (Hkeep (kc_keys_path kcfg)) as [|[_ Hg]]; [done|]. exfalso. unfold gone in Hg.
    apply existsb_exists in Hg as (a & Ha & Ht%takes_under). apply list_elem_of_In in Ha. by rewrite (Hk a Ha) in Ht. }
  split_and!; [done|done|intros Hno; exfalso; apply Hno; eauto|].
  intros removed ->. destruct Hall as [-> Hall]. pose proof (refusals_spec _ _ _ _ _ Hst) as (Hread & Hnet & Hkey).
  exists st. split_and!; [|done|done|done|done|destruct Hkey as [?|[pin ->]]; [by left|right; by eexists]|by apply has_key_rebuilds|].
  - unfold store_read in *. by rewrite (lookup_texts_eq fs' fs).
  - unfold rescan_wallet, mbind, io_bind, mret, io_ret, check, lift. rewrite (refusals_again _ _ _ fs fs') by done.
    rewrite Hst, Hc. apply remove_nothing. apply Forall_forall. intros a Ha. rewrite Hall.
    destruct (gone_self fs dir _ a Ha) as [->| ->]; [done|by case_match].
Qed.

(** C19. A rescan deletes only the wallet's database; for a daemon that bootstraps from keys, and a
    keys file that is neither the lock nor under an engine artifact. The command takes the data directory's lock and
    brings the layout up to date, or fails with every file as it was but the lock's and the engine
    artifacts the layout moves. After that, whatever happens, nothing but the
    engine's artifacts in the wallet's engine directory goes, and the keys file stays; without a
    keys file that reads, is this network's and holds a seed or a pinned viewing key, or without
    the operator's yes, nothing goes at all. When it succeeds all of them are gone and reported,
    a start on the empty database rebuilds the account from the birthday recorded - unless the
    wallet has no seed and its pin is a text that decodes to no viewing key, which a rescan does
    not look at - and a second rescan finds nothing to delete. *)
Theorem rescan_deletes_only_the_database (kcfg : KeyConfig) c wallet yes line fs fs' r :
  let entry := resolve_wallet_entry c wallet in
  let confirm := λ _ : WalletStore, if yes : bool then Ok true else l ← line; Ok (bool_decide (trim l = "yes")) in
  kc_bootstrap kcfg = true → zcash_network entry = kc_network kcfg → entry_keys_path entry = kc_keys_path kcfg →
  (∀ a, a ∈ ENGINE_ARTIFACTS → path_starts_with (kc_keys_path kcfg) (path_join (entry_engine_dir entry) a) = false) →
  aside c (kc_keys_path kcfg) →
  rescan refuses fails locked hostname pid from_toml env activation store_error c wallet yes line fs = (fs', r) →
  (is_Err r ∧ ∀ p, aside c p → texts fs' !! p = texts fs !! p) ∨
  ∃ fs1 removed, arranged refuses fails locked hostname pid c fs fs1 ∧
    texts fs1 !! kc_keys_path kcfg = texts fs !! kc_keys_path kcfg ∧
    deletes_only_the_database kcfg wallet (entry_engine_dir entry) confirm fs1 fs' removed ∧
    match removed with
    | Ok names => ∃ st, store_read from_toml env nu5 (texts fs') (kc_keys_path kcfg) = Some st ∧ r = Ok (names, st)
    | Err e => r = Err e
    end.
Proof.
  intros entry confirm Hb Hn Hkp Hk Ha H. unfold rescan in H.
  apply arrange_inv in H as [?|(fs1 & H1 & Hs & H)]; [by left|right]. fold entry confirm in H. rewrite Hn, Hkp in H.
  exists fs1. apply io_inv in H as [(e & H & ->)|(fs2 & names & H & Hr)]; apply rescan_held_deletes in H; try done.
  - exists (Err e). split_and!; [done|by apply Hs|done|done].
  - exists (Ok names). pose proof H as (_ & _ & _ & Hst). destruct (Hst _ eq_refl) as (st & Hread & _).
    apply io_inv in Hr as [(e & [= <- He] & ->)|(fs3 & st' & [= <- Hread'] & [= <- <-])].
    + exfalso. rewrite Hread in He. done.
    + split_and!; [done|by apply Hs|done|]. exists st'. split; [|done]. by apply ok_or_Ok in Hread'.
Qed.
End rescan.

(** ** A concrete rescan, of the wallet [init] set up *)

Definition toy_rescan (fs : Fs) : Fs * result string (list string * WalletStore) :=
  rescan (λ _, None) (λ _, None) (λ _, false) "host" 7 toy_from_toml no_env toy_activation "store"
    example_config "ops" true (Err "no answer") fs.
Definition toy_rescanned : Fs * result string (list string * WalletStore) := Eval vm_compute in toy_rescan toy_after.1.
Lemma toy_rescans : toy_rescan toy_after.1 = (toy_rescanned.1, toy_rescanned.2).
Proof. vm_compute. reflexivity. Qed.

Lemma rescan_deletes_only_the_database_witness :
  match toy_rescanned.2 with Ok (names, _) => names = ["data.sqlite"] | Err _ => False end ∧
  texts toy_rescanned.1 !! kc_keys_path toy_kcfg = texts toy_after.1 !! kc_keys_path toy_kcfg.
Proof.
  assert (∀ a, a ∈ ENGINE_ARTIFACTS →
            path_starts_with (kc_keys_path toy_kcfg)
              (path_join (entry_engine_dir (resolve_wallet_entry example_config "ops")) a) = false) as Hk.
  { apply Forall_forall. vm_compute. repeat constructor. }
  assert (aside example_config (kc_keys_path toy_kcfg)) as Ha.
  { split; [vm_compute; discriminate|]. apply (bool_decide_eq_true_1 (_ ∉ _)). vm_compute. reflexivity. }
  split; [vm_compute; reflexivity|].
  destruct (rescan_deletes_only_the_database (λ _, None) (λ _, None) (λ _, false) "host" 7 toy_from_toml no_env
              toy_activation "store" toy_kcfg example_config "ops" true (Err "no answer") toy_after.1 toy_rescanned.1
              toy_rescanned.2 eq_refl eq_refl eq_refl Hk Ha toy_rescans) as [[_ H]|(fs1 & removed & _ & H & (_ & H2 & _) & _)].
  - by apply H.
  - rewrite <- H. by apply lookup_texts_eq.
Defined.
