(* ===== verification/Derive.v ===== *)
(** * Derive: addresses without a daemon ([src/src/derive_address.rs])

    [zecd derive-address]: the addresses of a range of indices from a viewing key, a mnemonic or the
    pin of a keys file, checked against the pin of a wallet that is named, with notes on what the
    daemon would not watch. It reads the keys file and writes nothing. *)

From S2P Require Import Keys Issue.
From S2P Require Export Init.
From S2P Require Import Spend Address Pools Network.

Definition DEFAULT_WALLET : string := "default".

Inductive KeySource := FromKeysFile | FromMnemonic | FromViewingKey.
#[global] Instance KeySource_eq_dec : EqDecision KeySource.
Proof. solve_decision. Defined.
Definition source_str (s : KeySource) : string :=
  match s with FromKeysFile => "keys.toml" | FromMnemonic => "mnemonic" | FromViewingKey => "ufvk" end.

Inductive DeriveNote :=
  | WalletNotInitializedUnchecked (wallet keys_path : string)
  | NoPinUnchecked (wallet keys_path : string)
  | PinVerified (wallet keys_path : string)
  | TransparentNotEnabled (wallet : string)
  | BeyondRecoveryHorizon (wallet : string) (last horizon : Z)
  | ReceiversNotEnabled (wallet receivers enabled : string).
Definition note_display (n : DeriveNote) : string :=
  match n with
  | WalletNotInitializedUnchecked wallet keys_path =>
      "note: wallet '" +:+ wallet +:+ "' is not initialized (" +:+ keys_path +:+ " missing), so the supplied key "
      +:+ "was not checked against a pinned viewing key."
  | NoPinUnchecked wallet keys_path =>
      "note: wallet '" +:+ wallet +:+ "' pins no viewing key in " +:+ keys_path +:+ " (created by an older zecd), "
      +:+ "so the supplied key was not checked against it."
  | PinVerified wallet keys_path =>
      "Verified: the supplied key derives the account pinned for wallet '" +:+ wallet +:+ "' "
      +:+ "in " +:+ keys_path +:+ "."
  | TransparentNotEnabled wallet =>
      "note: transparent receiving is not enabled for wallet '" +:+ wallet +:+ "' ([pools] "
      +:+ "transparent = false), so a running daemon would not credit payments to "
      +:+ "these addresses."
  | BeyondRecoveryHorizon wallet last horizon =>
      "warning: index " +:+ dec last +:+ " is at or beyond the recovery horizon of wallet "
      +:+ "'" +:+ wallet +:+ "' (transparent_initial_scan + transparent_gap_limit = " +:+ dec horizon +:+ "). "
      +:+ "Funds received there may be UNRECOVERABLE from seed - raise [pools] "
      +:+ "transparent_initial_scan past your issuance high-water mark before handing "
      +:+ "these addresses out."
  | ReceiversNotEnabled wallet receivers enabled =>
      "note: receivers (" +:+ receivers +:+ ") include a pool not enabled for wallet "
      +:+ "'" +:+ wallet +:+ "' (" +:+ enabled +:+ "), so a running daemon would refuse to hand out this "
      +:+ "address type."
  end.

(** What to derive at each index. *)
Inductive Receivers := BareTransparent | Shielded (set : ReceiverSet).
Definition describe_receivers (r : Receivers) : string :=
  match r with BareTransparent => "transparent" | Shielded set => join "," (as_str <$> pools set) end.
Definition receivers_request (r : Receivers) : UnifiedAddressRequest :=
  match r with BareTransparent => transparent_extraction_request | Shielded set => to_unified_address_request set end.

(** [ufvk.address(index, request)]: the address of a viewing key at an index, or why there is none. *)
Class Derivation `{WalletDb} := { ufvk_address : ufvk → Z → UnifiedAddressRequest → result string UnifiedAddress }.

Section derive.
Context `{W : WalletDb} `{SC : !SetupCrypto} `{DV : !Derivation} `{CD : AddressCodec}.
Context (from_toml : string → option StoreEncoding) (env : string → option string)
        (activation : ZNetwork → NetworkUpgrade → option Z) (store_error key_error : string).

Abbreviation nu5 := (λ n, default 0 (activation n Nu5)).

Inductive KeyInput := InKeysFile | InMnemonic (m : mnemonic) | InUfvk (encoded : string).
Record DeriveOptions := {
  do_wallet : option string; do_key : KeyInput; do_address_type : option string; do_index : Z; do_count : Z;
}.
Record DeriveOutcome := {
  dv_network : ZNetwork; dv_wallet : string; dv_source : KeySource; dv_pin_matches : option bool; dv_ufvk : string;
  dv_address_type : string; dv_addresses : list (Z * string); dv_notes : list DeriveNote;
}.

(** ** The key *)

(** [ensure_network_matches] is [Init]'s [ensure_store_matches]. *)
Definition ensure_network_matches (st : WalletStore) (wallet : string) (n : ZNetwork) : result string () :=
  ensure_store_matches st wallet n.
(** [ufvk_from_seed]. *)
Definition ufvk_from_seed (n : ZNetwork) (s : seed) : result string ufvk :=
  usk_ufvk <$> map_err (λ _, "deriving the unified spending key from the mnemonic failed") (usk_from_seed n s 0).
Definition read_pinned (files : Files) (keys_path wallet : string) (n : ZNetwork) : result string (option string) :=
  st ← ok_or (store_read from_toml env nu5 files keys_path) store_error;
  _ ← ensure_network_matches st wallet n;
  Ok (ws_pinned_ufvk st).

(** [load_key]: the network is the configuration's. *)
Definition load_key (c : AppConfig) (files : Files) (key : KeyInput) (wallet keys_path : string) :
    result string (ufvk * KeySource) :=
  let n := ac_network c in
  match key with
  | InUfvk encoded =>
      u ← ok_or (ufvk_decode n (trim encoded)) ("invalid unified full viewing key: " +:+ key_error);
      Ok (u, FromViewingKey)
  | InMnemonic m => u ← ufvk_from_seed n (to_seed m); Ok (u, FromMnemonic)
  | InKeysFile =>
      if negb (is_some (files !! keys_path)) then
        Err ("wallet '" +:+ wallet +:+ "' is not initialized (" +:+ keys_path +:+ " missing). Derive from key material "
             +:+ "instead: --mnemonic (phrase on stdin, ZECD_MNEMONIC, or --mnemonic-file) or "
             +:+ "--ufvk <key>.")
      else
        pinned ← read_pinned files keys_path wallet n;
        pinned ← ok_or pinned
          ("wallet '" +:+ wallet +:+ "' has no unified full viewing key pinned in " +:+ keys_path +:+ " (it was created by "
           +:+ "an older zecd; the daemon records one at the next startup). Derive from key "
           +:+ "material instead: --mnemonic or --ufvk <key>.");
        u ← ok_or (ufvk_decode n pinned)
              ("the viewing key pinned in " +:+ keys_path +:+ " is not a valid " +:+ network_name n
               +:+ " unified full viewing key: " +:+ key_error);
        Ok (u, FromKeysFile)
  end.

(** [verify_against_pin]: whether the pin was checked, and the note it leaves. *)
Definition verify_against_pin (n : ZNetwork) (u : ufvk) (files : Files) (wallet keys_path : string) :
    result string (option bool * list DeriveNote) :=
  if negb (is_some (files !! keys_path)) then Ok (None, [WalletNotInitializedUnchecked wallet keys_path])
  else
    pinned ← read_pinned files keys_path wallet n;
    match pinned with
    | None => Ok (None, [NoPinUnchecked wallet keys_path])
    | Some pinned =>
        if bool_decide (pinned = ufvk_encode n u) then Ok (Some true, [PinVerified wallet keys_path])
        else
          Err ("the supplied key does not match the viewing key pinned for wallet '" +:+ wallet +:+ "' in "
               +:+ keys_path +:+ ": these are different wallets, and the addresses below would NOT be watched by "
               +:+ "that wallet.")
    end.

(** ** The addresses *)

Definition resolve_receivers (entry : WalletEntry) (address_type : option string) : result string Receivers :=
  request ← map_err err_message (parse_receiver_tokens address_type);
  Ok (match request with
      | ReqTransparent => BareTransparent
      | ReqDefault => if pc_transparent_default (we_pools entry) then BareTransparent
                      else Shielded (pc_default_receivers (we_pools entry))
      | ReqShielded set => Shielded set
      end).

Definition derive_horizon (entry : WalletEntry) : Z :=
  u32_sat_add (pc_initial_scan (we_pools entry)) (pc_gap_limit (we_pools entry)).
Definition warn_if_daemon_would_not_watch (entry : WalletEntry) (wallet : string) (r : Receivers) (index count : Z) :
    list DeriveNote :=
  match r with
  | BareTransparent =>
      let last := u64_sat_add index (count - 1) in
      (if pc_transparent_enabled (we_pools entry) then [] else [TransparentNotEnabled wallet])
      ++ (if derive_horizon entry <=? last then [BeyondRecoveryHorizon wallet last (derive_horizon entry)] else [])
  | Shielded set =>
      if is_subset_of set (pc_enabled (we_pools entry)) then []
      else [ReceiversNotEnabled wallet (display_names set) (display_names (pc_enabled (we_pools entry)))]
  end.

Definition address_hint (r : Receivers) : string :=
  match r with
  | BareTransparent => " (a transparent receiver requires an index below 2^31)"
  | Shielded set =>
      if set_contains set Sapling
      then " (about half of all diversifier indexes are invalid for Sapling; try "
           +:+ "another index, or --address-type orchard)"
      else ""
  end.
Definition address_at (u : ufvk) (r : Receivers) (index : Z) : result string UnifiedAddress :=
  map_err (λ e, "no address at index " +:+ dec index +:+ ": " +:+ e +:+ address_hint r)
    (ufvk_address u index (receivers_request r)).
Definition derive_one (n : ZNetwork) (u : ufvk) (r : Receivers) (index : Z) : result string string :=
  ua ← address_at u r index;
  match r with
  | BareTransparent =>
      t ← ok_or (ua_transparent ua) "the derived address unexpectedly has no transparent receiver";
      Ok (encode_address n (AddrTransparent t))
  | Shielded _ => Ok (encode_address n (AddrUnified ua))
  end.
(** The addresses at a range's indices, in order, up to the first that has none. *)
Fixpoint derive_range (n : ZNetwork) (u : ufvk) (r : Receivers) (indices : list Z) : result string (list (Z * string)) :=
  match indices with
  | [] => Ok []
  | j :: indices => a ← derive_one n u r j; rest ← derive_range n u r indices; Ok ((j, a) :: rest)
  end.

Definition derive (c : AppConfig) (files : Files) (o : DeriveOptions) : result string DeriveOutcome :=
  if do_count o =? 0 then Err "--count must be at least 1"
  else
    let wallet := default DEFAULT_WALLET (do_wallet o) in
    let entry := resolve_wallet_entry c wallet in
    let n := zcash_network entry in
    let keys_path := entry_keys_path entry in
    '(u, source) ← load_key c files (do_key o) wallet keys_path;
    '(pin_matches, notes) ←
      (if negb (bool_decide (source = FromKeysFile)) && is_some (do_wallet o)
       then verify_against_pin n u files wallet keys_path else Ok (None, []));
    r ← resolve_receivers entry (do_address_type o);
    let notes := notes ++ warn_if_daemon_would_not_watch entry wallet r (do_index o) (do_count o) in
    if u64_max <? do_index o + (do_count o - 1) then Err "--index + --count overflows the diversifier index space"
    else
      addresses ← derive_range n u r (seqZ (do_index o) (do_count o));
      Ok {| dv_network := n; dv_wallet := wallet; dv_source := source; dv_pin_matches := pin_matches;
            dv_ufvk := ufvk_encode n u; dv_address_type := describe_receivers r; dv_addresses := addresses;
            dv_notes := notes |}.

(** ** The command *)

Record DeriveArgs := {
  da_wallet : option string; da_ufvk : option string; da_mnemonic : bool;
  da_mnemonic_file : option (string * result string string); da_type : option string; da_index_arg : Z; da_count : Z;
  da_json : bool;
}.
Definition derive_key_input (a : DeriveArgs) (from_env : option string) (line : result string string) : result string KeyInput :=
  match da_ufvk a with
  | Some encoded => Ok (InUfvk encoded)
  | None =>
      if da_mnemonic a || is_some (da_mnemonic_file a)
      then InMnemonic <$> read_mnemonic_phrase from_env (da_mnemonic_file a) line
      else Ok InKeysFile
  end.
(** What the report prints: on standard output, an object or the addresses; and on standard error. *)
Inductive Printed := PrintedJson (v : json) | PrintedLines (header : string) (l : list string).
Definition index_range (addresses : list (Z * string)) : string :=
  match addresses, last addresses with
  | [(only, _)], _ => "index " +:+ dec only
  | (first, _) :: _, Some (final, _) => "indices " +:+ dec first +:+ "-" +:+ dec final
  | _, _ => "no indices"
  end.
Definition report (as_json : bool) (o : DeriveOutcome) : Printed :=
  if as_json then
    PrintedJson (JObject
      ([("network", JString (network_name (dv_network o))); ("wallet", JString (dv_wallet o));
        ("source", JString (source_str (dv_source o))); ("address_type", JString (dv_address_type o));
        ("ufvk", JString (dv_ufvk o));
        ("addresses", JArray ((λ e : Z * string, JObject [("index", json_num e.1); ("address", JString e.2)])
                                <$> dv_addresses o))]
       ++ match dv_pin_matches o with Some b => [("pin_matches", JBool b)] | None => [] end))
  else
    PrintedLines
      ("Wallet '" +:+ dv_wallet o +:+ "' (" +:+ network_name (dv_network o) +:+ "), receivers: " +:+ dv_address_type o
       +:+ ", " +:+ index_range (dv_addresses o) +:+ ", key source: " +:+ source_str (dv_source o))
      (snd <$> dv_addresses o).
Definition derive_run (c : AppConfig) (files : Files) (a : DeriveArgs) (from_env : option string) (line : result string string) :
    result string (list string * Printed) :=
  if da_count a =? 0 then Err "--count must be at least 1"
  else
    key ← derive_key_input a from_env line;
    outcome ← derive c files
                {| do_wallet := da_wallet a; do_key := key; do_address_type := da_type a; do_index := da_index_arg a;
                   do_count := da_count a |};
    Ok (note_display <$> dv_notes outcome, report (da_json a) outcome).
End derive.
