(* ===== verification/DeriveSpec.v ===== *)
(** * DeriveSpec: an address derived offline is the one the daemon hands out *)

From S2P Require Import Keys Issue.
From S2P Require Export Derive.
From S2P Require Import Spend Address Pools Network ConfigSpec InitSpec.

Section spec.
Context `{W : WalletDb} `{SC : !SetupCrypto} `{DV : !Derivation} `{CD : AddressCodec} `{AT : AddressTable}.
Context (from_toml : string → option StoreEncoding) (env : string → option string)
        (activation : ZNetwork → NetworkUpgrade → option Z) (store_error key_error : string).

Abbreviation nu5 := (λ n, default 0 (activation n Nu5)).
Abbreviation derives := (derive from_toml env activation store_error key_error).

(** The daemon's actor runs a wallet as its configuration says. *)
Definition serves (a : Issuer) (entry : WalletEntry) : Prop :=
  is_network a = zcash_network entry ∧ is_enabled_pools a = pc_enabled (we_pools entry) ∧
  is_default_receivers a = pc_default_receivers (we_pools entry) ∧
  is_transparent_enabled a = pc_transparent_enabled (we_pools entry) ∧
  is_transparent_default a = pc_transparent_default (we_pools entry) ∧
  is_initial_scan a = pc_initial_scan (we_pools entry) ∧ is_gap_limit a = pc_gap_limit (we_pools entry).

(** The address table of the account of a viewing key: an address at an index is the viewing key's,
    and an index with a transparent receiver is a non-hardened child index. *)
Class TableOf (k : ufvk) : Prop := {
  table_derives t acct j req ua t' :
    get_address_for_index t acct j req = (Ok (Some ua), t') → ufvk_address k j req = Ok ua;
  transparent_below j ua : ufvk_address k j transparent_extraction_request = Ok ua → 0 ≤ j < 2 ^ 31;
}.

Lemma derive_range_spec n u r indices l :
  derive_range n u r indices = Ok l → l.*1 = indices ∧ ∀ j addr, (j, addr) ∈ l → derive_one n u r j = Ok addr.
Proof.
  revert l. induction indices as [|i indices IH]; intros l; cbn.
  { intros [= <-]. split; [done|]. by intros j addr ?%elem_of_nil. }
  intros H. apply bind_Ok_inv in H as (a & Ha & H). apply bind_Ok_inv in H as (rest & Hr & [= <-]).
  destruct (IH _ Hr) as [<- Hrest]. split; [done|]. intros j addr [[= -> ->]|Hin]%elem_of_cons; [done|by apply Hrest].
Qed.

(** A note that the daemon would refuse an address, or that the wallet's restore would not find it. *)
Definition warns (note : DeriveNote) : bool :=
  match note with
  | TransparentNotEnabled _ | BeyondRecoveryHorizon _ _ _ | ReceiversNotEnabled _ _ _ => true
  | _ => false
  end.
Lemma no_warning entry wallet r index count :
  Forall (λ n, warns n = false) (warn_if_daemon_would_not_watch entry wallet r index count) →
  match r with
  | BareTransparent => pc_transparent_enabled (we_pools entry) = true ∧ u64_sat_add index (count - 1) < derive_horizon entry
  | Shielded set => is_subset_of set (pc_enabled (we_pools entry)) = true
  end.
Proof.
  destruct r as [|set]; cbn.
  - destruct (pc_transparent_enabled _), (derive_horizon entry <=? _) eqn:E; cbn; rewrite ?Forall_cons; try naive_solver.
    intros _. split; [done|lia].
  - destruct (is_subset_of _ _); [done|]. rewrite Forall_cons. naive_solver.
Qed.

(** The receivers of a request. *)
Definition receivers_of (entry : WalletEntry) (request : ReceiverRequest) : Receivers :=
  match request with
  | ReqTransparent => BareTransparent
  | ReqDefault => if pc_transparent_default (we_pools entry) then BareTransparent
                  else Shielded (pc_default_receivers (we_pools entry))
  | ReqShielded set => Shielded set
  end.
(** The daemon at an index, against the address derived there. *)
Lemma daemon_at (a : Issuer) entry k `{TK : !TableOf k} request r j addr d a' :
  serves a entry →
  receivers_of entry request = r →
  derive_one (zcash_network entry) k r j = Ok addr →
  get_address_for_account a None request (Some j) = (Ok d, a') → da_address d = addr ∧ da_index d = j.
Proof.
  intros (Hn & He & Hd & Hte & Htd & Hs & Hg) Hr Hone H.
  assert (shielded_receivers a request = match r with BareTransparent => Ok None | Shielded set => Ok (Some set) end
          ∨ ∃ e, shielded_receivers a request = Err e) as [Hrec|[e Hrec]].
  { unfold shielded_receivers. subst r. unfold receivers_of. destruct request; rewrite ?Htd, ?Hd; repeat case_match; eauto; simplify_eq; eauto. }
  2: { unfold get_address_for_account in H. by rewrite Hrec in H. }
  unfold get_address_for_account in H. rewrite Hrec in H. unfold derive_one, address_at in Hone.
  destruct r as [|set].
  - unfold transparent_address_for_account in H. destruct (negb _); [done|].
    destruct (transparent_child_index j) as [i|] eqn:Ei; [|done].
    assert (i = j) as -> by (unfold transparent_child_index in Ei; repeat case_match; simplify_eq; done).
    destruct (require_account a None) as [acct|]; [|done].
    unfold expose_transparent_index in H. destruct (_ && _); [done|].
    destruct (get_address_for_index _ _ _ _) as [[[ua|]|e] t] eqn:Eg; [|done..].
    apply table_derives in Eg. cbn in Hone. rewrite Eg in Hone. cbn in Hone, H. unfold transparent_receiver in H.
    destruct (ua_transparent ua); [|done]. cbn in Hone, H. injection Hone as <-. injection H as <- _. by rewrite Hn.
  - destruct (require_account a None) as [acct|]; [|done].
    destruct (get_address_for_index _ _ _ _) as [[[ua|]|e] t] eqn:Eg; [|done..].
    apply table_derives in Eg. cbn in Hone. rewrite Eg in Hone. cbn in Hone, H.
    injection Hone as <-. injection H as <- _. by rewrite Hn.
Qed.

(** The table gives an address of the account at the index. *)
Definition table_gives (a : Issuer) (acct j : Z) (r : Receivers) : Prop :=
  ∃ ua, (get_address_for_index (is_table a) acct j (receivers_request r)).1 = Ok (Some ua).
Lemma daemon_gives (a : Issuer) entry k `{TK : !TableOf k} wallet request r j addr index count acct :
  serves a entry →
  receivers_of entry request = r →
  Forall (λ n, warns n = false) (warn_if_daemon_would_not_watch entry wallet r index count) →
  j ≤ u64_sat_add index (count - 1) →
  derive_one (zcash_network entry) k r j = Ok addr → require_account a None = Ok acct → table_gives a acct j r →
  ∃ d a', get_address_for_account a None request (Some j) = (Ok d, a').
Proof.
  intros (Hn & He & Hd & Hte & Htd & Hs & Hg) Hr Hw%no_warning Hj Hone Hacct [ua Hua].
  assert (shielded_receivers a request = match r with BareTransparent => Ok None | Shielded set => Ok (Some set) end) as Hrec.
  { unfold shielded_receivers. subst r. unfold receivers_of in *. destruct request as [|set|]; rewrite ?Htd, ?Hd, ?He; [by case_match| |done]. by rewrite Hw. }
  unfold get_address_for_account. rewrite Hrec. unfold derive_one, address_at in Hone.
  destruct r as [|set]; cbn in Hua, Hone.
  - destruct Hw as [Hen Hlt]. unfold transparent_address_for_account. rewrite Hte, Hen. cbn [negb].
    destruct (get_address_for_index _ _ _ _) as [got t] eqn:Eg. cbn in Hua. subst got. pose proof Eg as Eg'.
    apply table_derives in Eg'. rewrite Eg' in Hone. cbn in Hone. pose proof (transparent_below _ _ Eg') as Hb.
    assert (transparent_child_index j = Some j) as ->.
    { unfold transparent_child_index. assert (((0 <=? j) && (j <=? u32_max)) = true) as -> by width.
      by assert ((j <? 2 ^ 31) = true) as -> by lia. }
    rewrite Hacct. unfold expose_transparent_index.
    assert ((transparent_recovery_horizon a <=? j) = false) as ->.
    { unfold transparent_recovery_horizon, recovery_horizon_for. rewrite Hs, Hg. unfold derive_horizon in Hlt. width. }
    cbn [andb]. rewrite Eg. cbn. unfold transparent_receiver. destruct (ua_transparent ua); [|done]. cbn. eauto.
  - rewrite Hacct. destruct (get_address_for_index _ _ _ _) as [got t] eqn:Eg. cbn in Hua. subst got. cbn. eauto.
Qed.

(** C22. An address derived offline is the one the daemon hands out. What [derive-address] prints is
    one address per index of the range asked for, in order; wherever a daemon serving the wallet,
    with the account of that viewing key, answers [z_getaddressforaccount] at one of those indices
    for the same receivers, it answers the very address; and when no note warned, it does answer,
    if it has an account and its table gives an address there. A key that was supplied for a named
    wallet is the one that wallet's keys file pins, if it pins one, and the keys file's own key is
    what its pin decodes to. *)
Theorem derived_is_issued (c : AppConfig) (files : Files) (o : DeriveOptions) (out : DeriveOutcome) :
  derives c files o = Ok out →
  let wallet := default DEFAULT_WALLET (do_wallet o) in
  let entry := resolve_wallet_entry c wallet in
  ∃ k request, dv_ufvk out = ufvk_encode (zcash_network entry) k ∧ parse_receiver_tokens (do_address_type o) = Ok request ∧
    (dv_addresses out).*1 = seqZ (do_index o) (do_count o) ∧ do_index o + do_count o ≤ 2 ^ 64 ∧
    (∀ st pin, store_read from_toml env nu5 files (entry_keys_path entry) = Some st → ws_pinned_ufvk st = Some pin →
       if bool_decide (dv_source out = FromKeysFile) then ufvk_decode (ac_network c) pin = Some k
       else do_wallet o ≠ None → pin = dv_ufvk out ∧ dv_pin_matches out = Some true) ∧
    ∀ (a : Issuer), TableOf k → serves a entry → ∀ j addr, (j, addr) ∈ dv_addresses out →
      (∀ d a', get_address_for_account a None request (Some j) = (Ok d, a') → da_address d = addr ∧ da_index d = j) ∧
      (Forall (λ n, warns n = false) (dv_notes out) → ∀ acct, require_account a None = Ok acct → table_gives a acct j (receivers_of entry request) →
       ∃ d a', get_address_for_account a None request (Some j) = (Ok d, a')).
Proof.
  intros H wallet entry. unfold derive in H. fold wallet in H. fold entry in H. cbv zeta in H.
  destruct (do_count o =? 0) eqn:Hc; [done|].
  apply bind_Ok_inv in H as ([k source] & Hk & H). apply bind_Ok_inv in H as ([pin_matches notes] & Hp & H).
  apply bind_Ok_inv in H as (r & Hr & H). destruct (u64_max <? _) eqn:Ho; [done|].
  apply bind_Ok_inv in H as (addresses & Ha & [= <-]). cbn.
  unfold resolve_receivers in Hr. apply bind_Ok_inv in Hr as (request & Hreq & [= Hr]).
  destruct (parse_receiver_tokens _) as [request'|] eqn:Ep; [|done]. injection Hreq as ->.
  apply derive_range_spec in Ha as [Ha Hone]. exists k, request.
  split_and!; [done|done|done|unfold u64_max in Ho; lia| |].
  - intros st pin Hst Hpin.
    assert (is_some (files !! entry_keys_path entry) = true) as Hex
      by (unfold store_read in Hst; destruct (files !! entry_keys_path entry); done).
    case_bool_decide as Es.
    + subst source. destruct (do_key o); cbn in Hk; [|by apply bind_Ok_inv in Hk as (? & _ & [=])..].
      rewrite Hex in Hk. cbn in Hk. apply bind_Ok_inv in Hk as (p & Hrd & Hk). unfold read_pinned in Hrd. rewrite Hst in Hrd.
      cbn in Hrd. apply bind_Ok_inv in Hrd as (_ & _ & [= <-]). rewrite Hpin in Hk. cbn in Hk.
      apply bind_Ok_inv in Hk as (u & Hu%ok_or_Ok & [= <-]). done.
    + intros Hw. destruct (do_wallet o) as [name|]; [|done]. cbn in Hp.
      unfold verify_against_pin in Hp. rewrite Hex in Hp. cbn in Hp.
      apply bind_Ok_inv in Hp as (p & Hrd & Hp). unfold read_pinned in Hrd. rewrite Hst in Hrd.
      cbn in Hrd. apply bind_Ok_inv in Hrd as (_ & _ & [= <-]). rewrite Hpin in Hp.
      case_bool_decide as E; [|done]. by injection Hp as <- <-.
  - intros a TK Hs j addr Hin. fold (receivers_of entry request) in Hr. rewrite Hr. split; [intros d a'; by eapply daemon_at, Hone|].
    intros [_ Hw]%Forall_app acct Hacct Ht. apply (daemon_gives a entry k wallet request r j addr _ _ acct Hs Hr Hw); [|by apply Hone|done|done].
    assert (j ∈ seqZ (do_index o) (do_count o)) as Hj by (rewrite <- Ha; apply list_elem_of_fmap; by exists (j, addr)).
    apply elem_of_seqZ in Hj. unfold u64_sat_add. lia.
Qed.
End spec.

(** ** A concrete derivation, against the wallet [init] set up *)

#[local] Existing Instance toy_db.
#[local] Existing Instance toy_crypto.
Definition toy_address (k : string) (j : Z) (req : UnifiedAddressRequest) : result string UnifiedAddress :=
  let p2pkh := match req_p2pkh req with Require_ => true | Omit_ => false end in
  if p2pkh && negb ((0 <=? j) && (j <? 2 ^ 31)) then Err "no such child"
  else Ok {| ua_orchard := Some (k +:+ "o" +:+ dec j); ua_sapling := None;
             ua_transparent := if p2pkh then Some (PublicKeyHash (k +:+ "t" +:+ dec j)) else None |}.
#[local] Instance toy_derivation : Derivation := {| ufvk_address := toy_address |}.
#[local] Instance toy_table : AddressTable := {|
  table := (); get_next_available_address t _ _ := (Ok None, t);
  get_address_for_index t _ j req := (match toy_address "uabandon" j req with Ok ua => Ok (Some ua) | Err e => Ok None end, t);
  get_transparent_receivers _ _ := Some [];
|}.
#[local] Instance toy_codec_of_addresses : AddressCodec := {|
  from_receivers _ _ _ := None; can_receive_as _ _ := false; decode_address _ _ := None; is_encoded_address _ := false;
  encode_address _ a := match a with
                        | AddrTransparent (PublicKeyHash h) => "tm" +:+ h
                        | AddrUnified ua => "uregtest" +:+ default "" (ua_orchard ua) | _ => "?" end;
  hash_hex h := h;
|}.
Definition toy_derive_options : DeriveOptions :=
  {| do_wallet := Some "ops"; do_key := InMnemonic "abandon"; do_address_type := Some "transparent"; do_index := 3; do_count := 2 |}.
Definition toy_derive : result string DeriveOutcome :=
  derive toy_from_toml no_env toy_activation "store" "key" example_config (texts toy_after.1) toy_derive_options.
Definition toy_derived : DeriveOutcome := Eval vm_compute in value_of toy_derive.
Lemma toy_derives : toy_derive = Ok toy_derived.
Proof. vm_compute. reflexivity. Qed.
Definition toy_issuer : Issuer :=
  let pools := we_pools (resolve_wallet_entry example_config "ops") in
  {| is_network := ac_network example_config; is_shard := false; is_account_id := Some 0; is_enabled_pools := pc_enabled pools;
     is_default_receivers := pc_default_receivers pools; is_transparent_enabled := pc_transparent_enabled pools;
     is_transparent_default := pc_transparent_default pools; is_initial_scan := pc_initial_scan pools;
     is_default_frontier := None; is_gap_limit := pc_gap_limit pools; is_allow_beyond := false; is_set_dirty := false;
     is_table := tt |}.
Lemma toy_table_of : TableOf "uabandon".
Proof.
  split; cbn.
  - intros t acct j req ua t' H. destruct (toy_address _ j req) eqn:E; simplify_eq. done.
  - intros j ua. unfold toy_address. cbn [req_p2pkh transparent_extraction_request andb]. destruct (negb _) eqn:E; [done|]. lia.
Qed.

Definition toy_entry : WalletEntry := resolve_wallet_entry example_config (default DEFAULT_WALLET (do_wallet toy_derive_options)).
Definition toy_read : option WalletStore :=
  store_read toy_from_toml no_env (λ n, default 0 (toy_activation n Nu5)) (texts toy_after.1) (entry_keys_path toy_entry).
Lemma toy_read_pinned : ∃ st, toy_read = Some st ∧ ws_pinned_ufvk st = Some "uabandon".
Proof. vm_compute. by eexists. Qed.
Lemma toy_serves : serves toy_issuer toy_entry.
Proof. vm_compute. auto 10. Qed.
Lemma toy_key : dv_ufvk toy_derived = "uabandon" ∧ dv_source toy_derived = FromMnemonic ∧ (4, "tmuabandont4") ∈ dv_addresses toy_derived
  ∧ parse_receiver_tokens (do_address_type toy_derive_options) = Ok ReqTransparent
  ∧ Forall (λ n, warns n = false) (dv_notes toy_derived).
Proof. split_and!; [done|done|right; left|done|by repeat constructor]. Qed.
Lemma toy_gives : table_gives toy_issuer 0 4 BareTransparent.
Proof. by eexists. Qed.

Lemma derived_is_issued_witness :
  dv_pin_matches toy_derived = Some true ∧
  ∃ d a', get_address_for_account toy_issuer None ReqTransparent (Some 4) = (Ok d, a') ∧ da_address d = "tmuabandont4".
Proof.
  destruct (derived_is_issued toy_from_toml no_env toy_activation "store" "key" example_config (texts toy_after.1)
              toy_derive_options toy_derived toy_derives) as (k & request & Hk & Hreq & _ & _ & Hpin & Hall).
  destruct toy_key as (Ek & Es & Hin & Er & Hw). rewrite Ek in Hk. cbn in Hk. subst k.
  rewrite Er in Hreq. injection Hreq as <-. split.
  - destruct toy_read_pinned as (st & Hst & Hp). specialize (Hpin st "uabandon" Hst Hp).
    rewrite bool_decide_eq_false_2 in Hpin by (rewrite Es; discriminate).
    apply Hpin. discriminate.
  - destruct (Hall toy_issuer toy_table_of toy_serves 4 "tmuabandont4" Hin) as [Hsame Hgives].
    destruct (Hgives Hw 0 eq_refl toy_gives) as (d & a' & E). exists d, a'. split; [exact E|].
    exact (proj1 (Hsame d a' E)).
Defined.
