(* ===== verification/RawTx.v ===== *)
(** * RawTx: raw transactions ([src/src/rpc/rawtx.rs], [src/src/wallet/actor.rs])

    [getrawtransaction] and [sendrawtransaction]: where the bytes of a transaction come from, the
    object a verbose call renders, and the broadcast of bytes a caller built. Transactions are the
    protocol crate's: what it reads from bytes is [Transaction], by the getters the code calls. *)

From S2P Require Export History Upstream.

(** ** Transactions *)

Record TxVersion := {
  tv_overwinter : bool; tv_sapling : bool; tv_orchard : bool; tv_ironwood : bool;
  tv_header : Z; tv_group_id : Z;
}.
Record TxIn := { ti_hash : string; ti_n : Z; ti_script_sig : string; ti_sequence : Z }.
Record TxOut := { to_value : Z; to_script_pubkey : string }.
Record TransparentBundle := { tb_coinbase : bool; tb_vin : list TxIn; tb_vout : list TxOut }.
Record SpendDescription := {
  sd_cv : string; sd_anchor : string; sd_nullifier : string; sd_rk : string; sd_proof : string; sd_sig : string;
}.
Record OutputDescription := {
  od_cv : string; od_cmu : string; od_epk : string; od_enc : string; od_out : string; od_proof : string;
}.
Record SaplingBundle := {
  sb_value_balance : Z; sb_spends : list SpendDescription; sb_outputs : list OutputDescription; sb_binding_sig : string;
}.
Record OrchardAction := {
  oa_cv : string; oa_nullifier : string; oa_rk : string; oa_cmx : string; oa_epk : string; oa_enc : string;
  oa_out : string; oa_sig : string;
}.
Record OrchardBundle := {
  ob_actions : list OrchardAction; ob_value_balance : Z; ob_spends_enabled : bool; ob_outputs_enabled : bool;
  ob_anchor : string; ob_proof : string; ob_binding_sig : string;
}.
Record Transaction := {
  tx_version : TxVersion; tx_txid : string; tx_auth_commitment : string; tx_lock_time : Z; tx_expiry : Z;
  tx_transparent : option TransparentBundle; tx_sapling : option SaplingBundle;
  tx_orchard : option OrchardBundle; tx_ironwood : option OrchardBundle;
}.

(** The standard scripts the script library recognises. *)
Inductive ScriptKind :=
  | SK_PubKeyHash (hash : string) | SK_ScriptHash (hash : string) | SK_PubKey (data : string)
  | SK_MultiSig (pubkeys : list string) | SK_NullData.

(** The protocol and script crates: a transaction read from bytes under the consensus branch of a
    height, or the reader's complaint; a script in assembly, its standard form, that form's name and
    the signatures it takes; and the two hashes. *)
Class TxCodec := {
  tx_read : ZNetwork → Z → string → result string Transaction;
  to_asm : bool → string → string;
  standard : string → option ScriptKind;
  kind_str : ScriptKind → string;
  req_sigs : ScriptKind → Z;
  sha256 : string → string;
  ripemd160 : string → string;
}.

Section rawtx.
Context `{HX : HexCodec} `{TC : TxCodec} `{CD : AddressCodec}.

Definition rev_hex (bytes : string) : string := hex_encode (string_rev bytes).

(** [parse_txid_param]: the id's internal bytes. *)
Definition parse_txid_param (s : string) : result RpcError string :=
  if negb (String.length s =? 64)%nat then
    Err (RpcError.invalid_parameter
      ("parameter 1 must be of length 64 (not " +:+ dec (Z.of_nat (String.length s)) +:+ ", for '" +:+ s +:+ "')"))
  else
    bytes ← ok_or (hex_decode s)
              (RpcError.invalid_parameter ("parameter 1 must be hexadecimal string (not '" +:+ s +:+ "')"));
    if (String.length bytes =? 32)%nat then Ok (string_rev bytes)
    else Err (RpcError.invalid_parameter ("parameter 1 must be of length 64 (not '" +:+ s +:+ "')")).

(** ** The verbose object *)

Definition str (s : string) : json := JString s.
Definition hex (bytes : string) : json := JString (hex_encode bytes).

Definition vin_json (coinbase : bool) (i : TxIn) : json :=
  if coinbase then JObject [("coinbase", hex (ti_script_sig i)); ("sequence", json_num (ti_sequence i))]
  else
    JObject [("txid", str (txid_display (ti_hash i))); ("vout", json_num (ti_n i));
             ("scriptSig", JObject [("asm", str (to_asm true (ti_script_sig i))); ("hex", hex (ti_script_sig i))]);
             ("sequence", json_num (ti_sequence i))].

Definition hash160 (data : string) : string := ripemd160 (sha256 data).
Definition classify (code : string) : string * option Z * list TransparentAddress :=
  match standard code with
  | None => ("nonstandard", None, [])
  | Some SK_NullData => ("nulldata", None, [])
  | Some kind =>
      (kind_str kind, Some (req_sigs kind),
       match kind with
       | SK_PubKeyHash h => [PublicKeyHash h]
       | SK_ScriptHash h => [ScriptHash h]
       | SK_PubKey data => [PublicKeyHash (hash160 data)]
       | SK_MultiSig pubkeys => (λ pk, PublicKeyHash (hash160 pk)) <$> pubkeys
       | SK_NullData => []
       end)
  end.
Definition vout_json (n : ZNetwork) (index : nat) (o : TxOut) : json :=
  let '(kind, sigs, addresses) := classify (to_script_pubkey o) in
  JObject [("value", zats_json (to_value o)); ("valueZat", json_num (to_value o)); ("valueSat", json_num (to_value o));
           ("n", json_num (Z.of_nat index));
           ("scriptPubKey", JObject
              ([("asm", str (to_asm false (to_script_pubkey o))); ("hex", hex (to_script_pubkey o))]
               ++ match sigs with Some k => [("reqSigs", json_num k)] | None => [] end
               ++ [("type", str kind)]
               ++ match addresses with
                  | [] => []
                  | _ => [("addresses", JArray ((λ a, str (encode_address n (AddrTransparent a))) <$> addresses))]
                  end))].

Definition sapling_spend_json (d : SpendDescription) : json :=
  JObject [("cv", str (rev_hex (sd_cv d))); ("anchor", str (rev_hex (sd_anchor d)));
           ("nullifier", str (rev_hex (sd_nullifier d))); ("rk", str (rev_hex (sd_rk d)));
           ("proof", hex (sd_proof d)); ("spendAuthSig", hex (sd_sig d))].
Definition sapling_output_json (d : OutputDescription) : json :=
  JObject [("cv", str (rev_hex (od_cv d))); ("cmu", str (rev_hex (od_cmu d)));
           ("ephemeralKey", str (rev_hex (od_epk d))); ("encCiphertext", hex (od_enc d));
           ("outCiphertext", hex (od_out d)); ("proof", hex (od_proof d))].
Definition orchard_action_json (a : OrchardAction) : json :=
  JObject [("cv", hex (oa_cv a)); ("nullifier", hex (oa_nullifier a)); ("rk", hex (oa_rk a)); ("cmx", hex (oa_cmx a));
           ("ephemeralKey", hex (oa_epk a)); ("encCiphertext", hex (oa_enc a)); ("outCiphertext", hex (oa_out a));
           ("spendAuthSig", hex (oa_sig a))].
Definition orchard_json (bundle : option OrchardBundle) : json :=
  match bundle with
  | None => JObject [("actions", JArray []); ("valueBalance", signed_json 0); ("valueBalanceZat", json_num 0)]
  | Some b =>
      JObject [("actions", JArray (orchard_action_json <$> ob_actions b));
               ("valueBalance", signed_json (ob_value_balance b)); ("valueBalanceZat", json_num (ob_value_balance b));
               ("flags", JObject [("enableSpends", JBool (ob_spends_enabled b));
                                  ("enableOutputs", JBool (ob_outputs_enabled b))]);
               ("anchor", hex (ob_anchor b)); ("proof", hex (ob_proof b)); ("bindingSig", hex (ob_binding_sig b))]
  end.

Definition sapling_fields (v : TxVersion) (bundle : option SaplingBundle) : list (string * json) :=
  match bundle with
  | Some b =>
      [("valueBalance", signed_json (sb_value_balance b)); ("valueBalanceZat", json_num (sb_value_balance b));
       ("vShieldedSpend", JArray (sapling_spend_json <$> sb_spends b));
       ("vShieldedOutput", JArray (sapling_output_json <$> sb_outputs b)); ("bindingSig", hex (sb_binding_sig b))]
  | None =>
      if tv_sapling v then
        [("valueBalance", signed_json 0); ("valueBalanceZat", json_num 0); ("vShieldedSpend", JArray []);
         ("vShieldedOutput", JArray [])]
      else []
  end.
(** [tx_json]. *)
Definition tx_json (n : ZNetwork) (t : Transaction) (size : Z) : list (string * json) :=
  let v := tx_version t in
  let when (b : bool) (f : list (string * json)) := if b then f else [] in
  let '(vin, vout) := match tx_transparent t with
                      | Some b => (vin_json (tb_coinbase b) <$> tb_vin b, imap (vout_json n) (tb_vout b))
                      | None => ([], [])
                      end in
  [("txid", str (txid_display (tx_txid t))); ("authdigest", str (rev_hex (tx_auth_commitment t)));
   ("size", json_num size); ("overwintered", JBool (tv_overwinter v));
   ("version", json_num (Z.land (tv_header v) 2147483647))]
  ++ when (tv_overwinter v) [("versiongroupid", str (hex_pad 8 (tv_group_id v)))]
  ++ [("locktime", json_num (tx_lock_time t))]
  ++ when (tv_overwinter v) [("expiryheight", json_num (tx_expiry t))]
  ++ [("vin", JArray vin); ("vout", JArray vout)]
  ++ sapling_fields v (tx_sapling t)
  ++ when (tv_orchard v) [("orchard", orchard_json (tx_orchard t))]
  ++ when (tv_ironwood v) [("ironwood", orchard_json (tx_ironwood t))].

(** ** The actor's part *)

Record RawTx := { rt_data : string; rt_mined_height : option Z }.

(** [fetch_tx_from_upstream]: whether there is a client, the error a connect would give, and the
    node's reply, an [Err] when the transport failed or timed out; and whether a client is left. *)
Definition fetch_tx_from_upstream (client : bool) (connects : option string) (reply : result string (option RawTx)) :
    result RpcError (option RawTx) * bool :=
  match (if client then None else connects) with
  | Some e => (Err (upstream_error e "could not connect to the upstream node"), false)
  | None =>
      match reply with
      | Ok found => (Ok found, true)
      | Err _ => (Err (RpcError.misc "transaction fetch from the upstream node failed"), false)
      end
  end.
(** [do_get_raw_tx]: [local] is the wallet database's transaction, serialised. *)
Definition do_get_raw_tx (local : option (result string string)) (client : bool) (connects : option string)
    (reply : result string (option RawTx)) : result RpcError (option RawTx) * bool :=
  match local with
  | Some (Ok data) => (Ok (Some {| rt_data := data; rt_mined_height := None |}), client)
  | Some (Err e) => (Err (RpcError.misc ("failed to serialize transaction: " +:+ e)), client)
  | None => fetch_tx_from_upstream client connects reply
  end.
(** A command to the wallet's actor. *)
Definition to_actor {A} (w : WalletHandle) (r : result RpcError A) : result RpcError A :=
  if wh_actor_alive w then r else Err (RpcError.misc "wallet actor is not running").

(** ** The methods *)

Context `{WL : WalletLibrary}.

Definition verbose_arg (v : option json) : result RpcError bool :=
  match v with
  | None | Some JNull => Ok false
  | Some (JBool b) => Ok b
  | Some v =>
      n ← ok_or (json_as_i64 v) (RpcError.type_error "verbose must be a boolean or integer");
      Ok (negb (n =? 0))
  end.
(** The height whose branch parses a transaction: its block's, or the next block's. *)
Definition branch_height (mined tip : option Z) : Z :=
  default u32_max (match mined with Some h => Some h | None => (λ t, u32_sat_add t 1) <$> tip end).
Definition decode_failed (why : string) : RpcError := RpcError.new RPC_DESERIALIZATION_ERROR why.

(** The bytes of a transaction and the height of its block: the wallet's record, or the actor's
    answer. *)
Definition raw_source (rec : option TxRecord) (asked : result RpcError (option RawTx)) :
    result RpcError (string * option Z) :=
  let rec_height := rec ≫= tx_mined_height in
  match rec ≫= tx_raw with
  | Some raw => Ok (raw, rec_height)
  | None =>
      found ← asked;
      raw ← ok_or found (RpcError.invalid_address_or_key "No such mempool or blockchain transaction");
      Ok (rt_data raw, match rec_height with Some h => Some h | None => rt_mined_height raw end)
  end.
Definition block_fields (w : WalletHandle) (rec : option TxRecord) (mined : option Z) : list (string * json) :=
  match mined with
  | None => []
  | Some h =>
      [("height", json_num h); ("confirmations", json_num (confirmations (wh_status w) (Some h)))]
      ++ match block_info_at w h with
         | Ok (Some (hash, time)) =>
             let time := default time (rec ≫= tx_block_time) in
             [("blockhash", str hash); ("time", json_num time); ("blocktime", json_num time)]
         | _ => []
         end
  end.
(** [ask w txid] is the actor's reply to [get_raw_tx]. *)
Definition getrawtransaction (ask : WalletHandle → string → result RpcError (option RawTx)) (s : AppState)
    (wallet : option string) (req : RpcRequest) : result RpcError json :=
  txid_str ← require_str req 0 "getrawtransaction requires a txid";
  verbose ← verbose_arg (param req 1);
  _ ← (if is_some (param_given req 2)
       then Err (RpcError.invalid_parameter "blockhash argument must be unset (for now).") else Ok tt);
  txid ← parse_txid_param txid_str;
  w ← registry_get (as_registry s) wallet;
  let rec := match get_transaction (wh_network w) (wh_engine_dir w) (account_scope w) txid_str
                     (negb (wh_fetch_memos w)) with Ok r => r | Err _ => None end in
  source ← raw_source rec (to_actor w (ask w txid));
  let '(data, mined) := source in
  if negb verbose then Ok (hex data)
  else
    tx ← map_err (λ e, decode_failed ("TX decode failed: " +:+ e))
           (tx_read (wh_network w) (branch_height mined (ss_chain_tip (wh_status w))) data);
    Ok (JObject (tx_json (wh_network w) tx (Z.of_nat (String.length data)) ++ [("hex", hex data)]
                 ++ block_fields w rec mined)).

(** The bytes handed to the actor, if any, and the answer; [deliver] is the actor's reply to
    [broadcast]. *)
Definition sendrawtransaction (deliver : WalletHandle → string → result RpcError ()) (s : AppState)
    (wallet : option string) (req : RpcRequest) : option string * result RpcError json :=
  match (hexstr ← require_str req 0 "sendrawtransaction requires a hex string";
         data ← ok_or (hex_decode hexstr) (decode_failed "TX decode failed");
         w ← registry_get (as_registry s) wallet;
         tx ← map_err (λ _, decode_failed "TX decode failed")
                (tx_read (wh_network w) (branch_height None (ss_chain_tip (wh_status w))) data);
         Ok (data, w, tx)) with
  | Err e => (None, Err e)
  | Ok (data, w, tx) =>
      (if wh_actor_alive w then Some data else None,
       _ ← to_actor w (deliver w data); Ok (str (txid_display (tx_txid tx))))
  end.
End rawtx.
