(* ===== verification/RawTxSpec.v ===== *)
(** * RawTxSpec: a transaction's bytes pass whole, and only what parses is broadcast *)

From S2P Require Export RawTx.
From S2P Require Import HistorySpec ChainRpcSpec.

(** An encoding has two digits a byte. *)
Class HexLength `{HexCodec} : Prop := hex_length s : String.length (hex_encode s) = (2 * String.length s)%nat.

Section spec.
Context `{HX : HexCodec} `{HL : !HexLaws} `{HN : !HexLength} `{TC : TxCodec} `{CD : AddressCodec} `{WL : WalletLibrary}.

(** An id that was printed is accepted, and is that id. *)
Lemma parse_displayed txid : String.length txid = 32%nat → parse_txid_param (txid_display txid) = Ok txid.
Proof.
  intros Hl. unfold parse_txid_param, txid_display. rewrite hex_length, string_rev_length, Hl. cbn [Nat.mul Nat.add Nat.eqb negb].
  rewrite hex_decode_encode. cbn. rewrite string_rev_length, Hl. cbn. by rewrite string_rev_involutive.
Qed.
Lemma parse_txid_length s txid : parse_txid_param s = Ok txid → String.length txid = 32%nat.
Proof.
  unfold parse_txid_param. destruct (negb _); [done|]. destruct (hex_decode s) as [b|]; [|done]. cbn.
  destruct (String.length b =? 32)%nat eqn:E; [|done]. intros [= <-]. rewrite string_rev_length. by apply Nat.eqb_eq.
Qed.

Lemma parse_txid_internal s txid : parse_txid_param s = Ok txid → txid_internal s = Some txid.
Proof.
  unfold parse_txid_param, txid_internal. destruct (negb _); [done|]. destruct (hex_decode s) as [b|]; [|done]. cbn.
  destruct (String.length b =? 32)%nat; [|done]. by intros [= <-].
Qed.
(** The wallet's record of the transaction an id parameter names, if it has one; it is of that id,
    and its bytes are those the wallet database serialises for it. *)
Definition wallet_record (w : WalletHandle) (id_param : string) : option TxRecord :=
  match get_transaction (wh_network w) (wh_engine_dir w) (account_scope w) id_param (negb (wh_fetch_memos w)) with
  | Ok r => r
  | Err _ => None
  end.
Lemma wallet_record_named w id_param txid rec :
  parse_txid_param id_param = Ok txid → wallet_record w id_param = Some rec →
  tx_txid_hex rec = txid_display txid ∧ tx_raw rec = raw_tx_bytes (wh_network w) (wh_engine_dir w) txid.
Proof.
  intros Hp%parse_txid_internal. unfold wallet_record, get_transaction. rewrite Hp. cbn [is_some].
  destruct (open_conn _) as [db|]; [|done]. cbn. unfold Reads.read_transaction. rewrite Hp. cbn.
  destruct (find_tx db txid) as [t|] eqn:Ht; [|done]. cbn. case_bool_decide; [done|]. intros [= <-]. cbn.
  apply find_some in Ht as [_ Ht%bool_decide_eq_true]. by subst.
Qed.
(** Where the bytes answered for an id come from: the wallet's record of that transaction, or, if it
    has none with bytes, what the actor answers for that id; and the height it was mined at. *)
Definition sourced (ask : WalletHandle → string → result RpcError (option RawTx)) (w : WalletHandle)
    (id_param txid data : string) (mined : option Z) : Prop :=
  (∃ rec, wallet_record w id_param = Some rec ∧ tx_txid_hex rec = txid_display txid ∧
     raw_tx_bytes (wh_network w) (wh_engine_dir w) txid = Some data ∧ mined = tx_mined_height rec) ∨
  (wallet_record w id_param ≫= tx_raw = None ∧ wh_actor_alive w = true ∧
   ∃ raw, ask w txid = Ok (Some raw) ∧ data = rt_data raw ∧
     mined = match wallet_record w id_param ≫= tx_mined_height with Some h => Some h | None => rt_mined_height raw end).
Lemma raw_source_sourced ask w id_param txid data mined :
  parse_txid_param id_param = Ok txid →
  raw_source (wallet_record w id_param) (to_actor w (ask w txid)) = Ok (data, mined) →
  sourced ask w id_param txid data mined.
Proof.
  intros Hp. unfold raw_source, sourced. destruct (wallet_record w id_param ≫= tx_raw) as [raw|] eqn:Er.
  - destruct (wallet_record w id_param) as [rec|] eqn:Hrec; [|done]. cbn in Er. intros [= <- <-]. left. exists rec.
    destruct (wallet_record_named _ _ _ _ Hp Hrec) as [Hid Hraw]. split_and!; [done..|congruence|done].
  - unfold to_actor. destruct (wh_actor_alive w); [|done]. intros H. right. split_and!; [done..|].
    apply bind_Ok_inv in H as (found & Hf & H). apply bind_Ok_inv in H as (raw & ->%ok_or_Ok & [= <- <-]). by exists raw.
Qed.

(** The fields the verbose object is asked for. *)
Lemma tx_json_fields n t size rest :
  Json.assoc "txid" (tx_json n t size ++ rest) = Some (JString (txid_display (tx_txid t))) ∧
  Json.assoc "size" (tx_json n t size ++ rest) = Some (json_num size) ∧
  Json.assoc "hex" (tx_json n t size ++ rest) = Json.assoc "hex" rest.
Proof.
  unfold tx_json, sapling_fields.
  destruct (tx_transparent t), (tv_overwinter (tx_version t)), (tx_sapling t), (tv_sapling (tx_version t)),
    (tv_orchard (tx_version t)), (tv_ironwood (tx_version t)); by split_and!.
Qed.

(** What a broadcast of given bytes answers. *)
Definition send_answer (deliver : WalletHandle → string → result RpcError ()) (w : WalletHandle) (data : string) :
    option string * result RpcError json :=
  match tx_read (wh_network w) (branch_height None (ss_chain_tip (wh_status w))) data with
  | Ok tx => (if wh_actor_alive w then Some data else None,
              _ ← to_actor w (deliver w data); Ok (JString (txid_display (tx_txid tx))))
  | Err _ => (None, Err (decode_failed "TX decode failed"))
  end.
Lemma send_spec deliver s wallet req hexstr w data :
  require_str req 0 "sendrawtransaction requires a hex string" = Ok hexstr → hex_decode hexstr = Some data →
  registry_get (as_registry s) wallet = Ok w → sendrawtransaction deliver s wallet req = send_answer deliver w data.
Proof.
  intros Hr Hh Hw. unfold sendrawtransaction, send_answer. rewrite Hr. cbn. rewrite Hh. cbn. rewrite Hw. cbn.
  by destruct (tx_read _ _ _).
Qed.

(** C28. A transaction's bytes pass whole. An id the daemon prints is an id it accepts. What
    [getrawtransaction] renders is exactly the bytes the wallet's database has for the transaction
    of the id asked for, or, when it has none, those the actor answers for that id - as the whole reply, or in the object of the transaction those bytes parse to, with
    their length - and [sendrawtransaction], given that text, hands the actor those very bytes if
    they parse, and answers the id they parse to once the actor accepts them; bytes that do not
    parse never leave. Nothing reaches the actor but the bytes of a caller's text. *)
Theorem raw_tx_round_trip ask deliver s wallet :
  (∀ txid, String.length txid = 32%nat → parse_txid_param (txid_display txid) = Ok txid) ∧
  (∀ req j, getrawtransaction ask s wallet req = Ok j →
     ∃ w id_param txid data mined verbose,
       registry_get (as_registry s) wallet = Ok w ∧
       require_str req 0 "getrawtransaction requires a txid" = Ok id_param ∧ parse_txid_param id_param = Ok txid ∧
       sourced ask w id_param txid data mined ∧ verbose_arg (param req 1) = Ok verbose ∧
       (if verbose then json_get "hex" j else Some j) = Some (JString (hex_encode data)) ∧
       (verbose = true → ∃ tx,
          tx_read (wh_network w) (branch_height mined (ss_chain_tip (wh_status w))) data = Ok tx ∧
          json_get "txid" j = Some (JString (txid_display (tx_txid tx))) ∧
          json_get "size" j = Some (json_num (Z.of_nat (String.length data)))) ∧
       ∀ params, sendrawtransaction deliver s wallet
                   (positional "sendrawtransaction" (JString (hex_encode data) :: params)) = send_answer deliver w data) ∧
  (∀ req data, (sendrawtransaction deliver s wallet req).1 = Some data →
     ∃ hexstr w tx, require_str req 0 "sendrawtransaction requires a hex string" = Ok hexstr ∧ hex_decode hexstr = Some data ∧
       registry_get (as_registry s) wallet = Ok w ∧ wh_actor_alive w = true ∧
       tx_read (wh_network w) (branch_height None (ss_chain_tip (wh_status w))) data = Ok tx ∧
       (sendrawtransaction deliver s wallet req).2 = (_ ← deliver w data; Ok (JString (txid_display (tx_txid tx))))).
Proof.
  split; [apply parse_displayed|split].
  - intros req j H. unfold getrawtransaction in H.
    apply bind_Ok_inv in H as (txid_str & Hid & H). apply bind_Ok_inv in H as (verbose & Hv & H).
    apply bind_Ok_inv in H as (u & _ & H). apply bind_Ok_inv in H as (txid & Ht & H).
    apply bind_Ok_inv in H as (w & Hw & H). cbv zeta in H.
    fold (wallet_record w txid_str) in H.
    apply bind_Ok_inv in H as ([data mined] & Hs & H).
    apply (raw_source_sourced _ _ _ _ _ _ Ht) in Hs. exists w, txid_str, txid, data, mined, verbose.
    split_and!; [done..| | |].
    + destruct verbose; cbn [negb] in H; [|by injection H as <-].
      apply bind_Ok_inv in H as (tx & _ & [= <-]). cbn [json_get]. by rewrite (proj2 (proj2 (tx_json_fields _ _ _ _))).
    + intros ->. cbn [negb] in H. apply bind_Ok_inv in H as (tx & Htx & [= <-]). exists tx.
      split; [by destruct (tx_read _ _ data); simplify_eq/=|]. cbn [json_get].
      destruct (tx_json_fields (wh_network w) tx (Z.of_nat (String.length data)) ([("hex", hex data)] ++ block_fields w (wallet_record w txid_str) mined))
        as (E1 & E2 & _). by split.
    + intros params. apply (send_spec _ _ _ _ (hex_encode data)); [done|apply hex_decode_encode|done].
  - intros req data H. destruct (require_str req 0 "sendrawtransaction requires a hex string") as [hexstr|] eqn:Er;
      [|unfold sendrawtransaction in H; by rewrite Er in H].
    destruct (hex_decode hexstr) as [data'|] eqn:Eh; [|unfold sendrawtransaction in H; rewrite Er in H; cbn in H; by rewrite Eh in H].
    destruct (registry_get (as_registry s) wallet) as [w|] eqn:Ew;
      [|unfold sendrawtransaction in H; rewrite Er in H; cbn in H; rewrite Eh in H; cbn in H; by rewrite Ew in H].
    rewrite (send_spec _ _ _ _ _ _ _ Er Eh Ew) in *. unfold send_answer in *.
    destruct (tx_read _ _ data') as [tx|] eqn:Et; [|done]. cbn in H |- *.
    destruct (wh_actor_alive w) eqn:Ea; [|done]. injection H as <-. exists hexstr, w, tx. unfold to_actor. rewrite Ea. by split_and!.
Qed.
End spec.

(** ** A concrete transaction *)

(** An encoding that writes each byte twice; a reader that takes every text but one. *)
Module RawExample.
Fixpoint twice (s : string) : string := match s with "" => "" | String c s => String c (String c (twice s)) end.
Fixpoint once (s : string) : option string :=
  match s with
  | "" => Some ""
  | String c (String _ s) => String c <$> once s
  | _ => None
  end.
#[local] Instance hex : HexCodec := {| hex_encode := twice; hex_decode := once |}.
#[local] Instance hex_laws : HexLaws.
Proof. intros s. cbn. induction s as [|c s IH]; [done|]. cbn. by rewrite IH. Qed.
#[local] Instance hex_double : HexLength.
Proof. intros s. cbn [hex hex_encode]. induction s as [|c s IH]; [done|]. cbn [twice String.length]. rewrite IH. lia. Qed.
Definition id : string := "0123456789abcdef0123456789abcdef".
Definition tx : Transaction := {|
  tx_version := {| tv_overwinter := true; tv_sapling := true; tv_orchard := true; tv_ironwood := false;
                   tv_header := 2147483653; tv_group_id := 648488714 |};
  tx_txid := id; tx_auth_commitment := id; tx_lock_time := 0; tx_expiry := 40; tx_transparent := None; tx_sapling := None;
  tx_orchard := None; tx_ironwood := None |}.
#[local] Instance codec : TxCodec := {|
  tx_read _ _ data := if bool_decide (data = "bad") then Err "short" else Ok tx;
  to_asm _ s := s; standard _ := None; kind_str _ := ""; req_sigs _ := 1; sha256 s := s; ripemd160 s := s |}.
#[local] Instance library : WalletLibrary := {|
  open_conn _ := Err (RpcError.misc "no database"); ConfirmationsPolicy := Z; handle_confirmations _ := 3;
  new_symmetrical n _ := n; get_wallet_summary _ _ _ := Ok None; chain_height _ _ := Ok (Some 10);
  select_unspent_notes _ _ _ _ := []; raw_tx_bytes _ _ _ := None; nu7_activation _ := None |}.
#[local] Instance addresses : AddressCodec := {|
  from_receivers _ _ _ := None; can_receive_as _ _ := false; decode_address _ _ := None; is_encoded_address _ := false;
  encode_address _ _ := ""; hash_hex h := h |}.
Definition state : AppState := WaitExample.ex_state 5.
(** The upstream knows the transaction, mined at height 5. *)
Definition ask (w : WalletHandle) (txid : string) : result RpcError (option RawTx) :=
  (do_get_raw_tx None true None (Ok (Some {| rt_data := "bytes"; rt_mined_height := Some 5 |}))).1.
Definition deliver (w : WalletHandle) (data : string) : result RpcError () :=
  (do_broadcast true None (Some {| error_code := 0; error_message := "" |})).1.
Definition request : RpcRequest := positional "getrawtransaction" [JString (txid_display id)].

Lemma gets : getrawtransaction ask state None request = Ok (JString (twice "bytes")).
Proof. vm_compute. reflexivity. Qed.
Lemma twice_inj a b : twice a = twice b → a = b.
Proof. revert b. induction a as [|c a IH]; intros [|d b]; try done. cbn. intros [= -> E]. f_equal. by apply IH. Qed.

Lemma raw_tx_round_trip_witness :
  parse_txid_param (txid_display id) = Ok id ∧
  sendrawtransaction deliver state None (positional "sendrawtransaction" [JString (twice "bytes")])
  = (Some "bytes", Ok (JString (txid_display id))).
Proof.
  destruct (raw_tx_round_trip ask deliver state None) as (Hid & Hget & _). split; [exact (Hid id eq_refl)|].
  destruct (Hget _ _ gets) as (w & id_param & txid & data & mined & verbose & Hw & _ & _ & _ & Hv & Hj & _ & Hsend).
  injection Hv as <-. injection Hj as Hd. cbn in Hd. apply (twice_inj "bytes") in Hd. subst data.
  specialize (Hsend []). cbn [hex_encode hex] in Hsend. rewrite Hsend.
  vm_compute in Hw. injection Hw as <-. reflexivity.
Defined.
End RawExample.
