(* ===== verification/SignMessage.v ===== *)
(** * SignMessage: messages signed with a transparent key ([src/src/rpc/signmessage.rs],
    [src/src/wallet/actor.rs])

    [signmessage] and [verifymessage]: the digest, the recoverable signature and its header byte, the
    gates before the actor derives a key, and the check against an address. Hashes, elliptic-curve
    signatures, base64 and the address codec are the crates'. *)

From S2P Require Export Keys.
From S2P Require Export Address ChainRpc.

(** The crates the code calls. A recovery is from a digest, a recovery id and 64 bytes, and fails on
    bytes that are no signature. The wallet database knows the derivation of an address it has
    recorded. *)
Class MessageCrypto `{WalletDb} := {
  secret_key : Type; public_key : Type;
  compact_size : Z → string;
  sha256 : string → string;
  sign_ecdsa_recoverable : string → secret_key → Z * string;
  recover_ecdsa : string → Z → string → option public_key;
  public_of : secret_key → public_key;
  address_of : public_key → TransparentAddress;
  base64_encode : string → string;
  base64_decode : string → option string;
  decode_transparent : ZNetwork → string → option TransparentAddress;
  encode_transparent : ZNetwork → TransparentAddress → string;
  address_metadata : db → account_uuid → TransparentAddress → result string (option (Z * Z));
  derive_secret_key : usk → Z → Z → result string secret_key;
}.

Section messages.
Context `{W : WalletDb} `{MC : !MessageCrypto}.

Definition MESSAGE_MAGIC : string := "Zcash Signed Message:" +:+ String (ascii_of_nat 10) "".
Definition message_preimage (message : string) : string :=
  compact_size (Z.of_nat (String.length MESSAGE_MAGIC)) +:+ MESSAGE_MAGIC
  +:+ compact_size (Z.of_nat (String.length message)) +:+ message.
Definition message_hash (message : string) : string := sha256 (sha256 (message_preimage message)).

(** [sign_message_with_key]: the header byte, then the 64 bytes. *)
Definition header_byte (recovery_id : Z) : ascii := ascii_of_nat (Z.to_nat (31 + recovery_id)).
Definition sign_message_with_key (k : secret_key) (message : string) : string :=
  let '(recovery_id, sig_bytes) := sign_ecdsa_recoverable (message_hash message) k in
  base64_encode (String (header_byte recovery_id) sig_bytes).

Definition is_script (t : TransparentAddress) : bool := match t with Address.ScriptHash _ => true | Address.PublicKeyHash _ => false end.
Definition verify_message (n : ZNetwork) (zcashaddress signature message : string) : result RpcError bool :=
  addr ← ok_or (decode_transparent n zcashaddress) (RpcError.type_error "Invalid address");
  if is_script addr then Err (RpcError.type_error "Address does not refer to key")
  else
    sig_bytes ← ok_or (base64_decode signature) (RpcError.invalid_address_or_key "Malformed base64 encoding");
    match sig_bytes with
    | String h rest =>
        if negb (String.length sig_bytes =? 65)%nat then Ok false
        else
          let header := byte_of h in
          if (27 <=? header) && (header <=? 30) then
            Err (RpcError.type_error "Uncompressed key signatures are not supported.")
          else if negb ((31 <=? header) && (header <=? 34)) then Ok false
          else
            match recover_ecdsa (message_hash message) (Z.land (header - 27) 3) rest with
            | Some pubkey => Ok (bool_decide (address_of pubkey = addr))
            | None => Ok false
            end
    | "" => Ok false
    end.

(** ** The methods *)

(** [signmessage]; [sign] is the actor's reply. *)
Definition signmessage (sign : WalletHandle → TransparentAddress → string → result RpcError string) (s : AppState)
    (wallet : option string) (req : RpcRequest) : result RpcError json :=
  t_addr ← require_str req 0 "signmessage requires a transparent address";
  message ← require_str req 1 "signmessage requires a message";
  w ← registry_get (as_registry s) wallet;
  addr ← ok_or (decode_transparent (wh_network w) t_addr)
           (RpcError.invalid_address_or_key "Invalid Zcash transparent address");
  if is_script addr then Err (RpcError.type_error "Address does not refer to key")
  else
    signature ← (if wh_actor_alive w then sign w addr message else Err (RpcError.misc "wallet actor is not running"));
    Ok (JString signature).
Definition verifymessage (s : AppState) (wallet : option string) (req : RpcRequest) : result RpcError json :=
  address ← require_str req 0 "verifymessage requires a transparent address";
  signature ← require_str req 1 "verifymessage requires a signature";
  message ← require_str req 2 "verifymessage requires a message";
  w ← registry_get (as_registry s) wallet;
  verified ← verify_message (wh_network w) address signature message;
  Ok (JBool verified).

(** [do_sign_message], at the clock reading [now]: the signature, and the custody after it. *)
Definition signing_key (n : ZNetwork) (c : Custody) (addr : TransparentAddress) : result RpcError secret_key :=
  account_id ← require_account c None;
  account_index ← ok_or (c_account_index c) private_keys_disabled;
  meta ← map_err RpcError.database_internal (address_metadata (c_db c) account_id addr);
  place ← ok_or meta (RpcError.wallet "Unknown address");
  k ← derive_usk n c account_index;
  map_err (λ e, RpcError.wallet ("transparent key derivation failed: " +:+ e)) (derive_secret_key k place.1 place.2).
Definition do_sign_message (n : ZNetwork) (now : Z) (c : Custody) (addr : TransparentAddress) (message : string) :
    result RpcError string * Custody :=
  let c := relock_if_expired now c in
  (k ← signing_key n c addr; Ok (sign_message_with_key k message), c).
End messages.
