(* ===== verification/SignMessageSpec.v ===== *)
(** * SignMessageSpec: a signature verifies for its own address alone, and needs a live unlock *)

From S2P Require Export SignMessage.
From S2P Require Import KeysSpec InitSpec.

Section spec.
Context `{W : WalletDb} `{MC : !MessageCrypto}.

(** The crates, as documented: the length prefix tells its length; a signature is four-way
    recoverable, 64 bytes, and gives back the key's public half; base64 and the address codec read
    what they write. *)
Class MessageLaws : Prop := {
  compact_prefix_free a b x y : 0 ≤ a → 0 ≤ b → compact_size a +:+ x = compact_size b +:+ y → a = b;
  recovery_range digest k : 0 ≤ (sign_ecdsa_recoverable digest k).1 < 4;
  signature_length digest k : String.length (sign_ecdsa_recoverable digest k).2 = 64%nat;
  recovers digest k :
    recover_ecdsa digest (sign_ecdsa_recoverable digest k).1 (sign_ecdsa_recoverable digest k).2 = Some (public_of k);
  key_address p : is_script (address_of p) = false;
  base64_decodes s : base64_decode (base64_encode s) = Some s;
  address_decodes n t : decode_transparent n (encode_transparent n t) = Some t;
}.
(** The database's record of an address is where the account's key derives it. *)
Definition records_derivations (c : Custody) (u : usk) : Prop :=
  ∀ id addr scope index k, c_account_id c = Some id → address_metadata (c_db c) id addr = Ok (Some (scope, index)) →
    derive_secret_key u scope index = Ok k → address_of (public_of k) = addr.

Lemma preimage_inj `{ML : !MessageLaws} m m' : message_preimage m = message_preimage m' → m = m'.
Proof.
  unfold message_preimage. intros E%append_inj_l%append_inj_l. assert (Z.of_nat (String.length m) = Z.of_nat (String.length m')) as El
    by (eapply compact_prefix_free; [lia|lia|exact E]).
  rewrite El in E. by apply append_inj_l in E.
Qed.

Lemma header_value r : 0 ≤ r < 4 → byte_of (header_byte r) = 31 + r.
Proof. intros Hr. assert (r = 0 ∨ r = 1 ∨ r = 2 ∨ r = 3) as [-> |[-> |[-> | ->]]] by lia; reflexivity. Qed.
Lemma header_recovery r : 0 ≤ r < 4 → Z.land (31 + r - 27) 3 = r.
Proof. intros Hr. assert (r = 0 ∨ r = 1 ∨ r = 2 ∨ r = 3) as [-> |[-> |[-> | ->]]] by lia; reflexivity. Qed.

(** A verdict of yes, exactly. *)
Lemma verify_true_iff n zaddr signature message :
  verify_message n zaddr signature message = Ok true ↔
  ∃ addr h rest p, decode_transparent n zaddr = Some addr ∧ is_script addr = false ∧
    base64_decode signature = Some (String h rest) ∧ String.length rest = 64%nat ∧ 31 ≤ byte_of h ≤ 34 ∧
    recover_ecdsa (message_hash message) (Z.land (byte_of h - 27) 3) rest = Some p ∧ address_of p = addr.
Proof.
  unfold verify_message. split.
  - intros H. apply bind_Ok_inv in H as (addr & Ha%ok_or_Ok & H). destruct (is_script addr) eqn:Es; [done|].
    apply bind_Ok_inv in H as (b & Hb%ok_or_Ok & H). destruct b as [|h rest]; [done|].
    destruct (String.length (String h rest) =? 65)%nat eqn:El; cbn [negb] in H; [|done].
    destruct ((27 <=? byte_of h) && (byte_of h <=? 30)); [done|].
    destruct ((31 <=? byte_of h) && (byte_of h <=? 34)) eqn:Eh; cbn [negb] in H; [|done].
    destruct (recover_ecdsa _ _ _) as [p|] eqn:Er; [|done]. injection H as Hp%bool_decide_eq_true.
    exists addr, h, rest, p. cbn in El. apply Nat.eqb_eq in El. split_and!; try done; lia.
  - intros (addr & h & rest & p & -> & Hs & -> & Hl & Hh & Hr & Hp). cbn. rewrite Hs. cbn. rewrite Hl. cbn.
    assert (((27 <=? byte_of h) && (byte_of h <=? 30)) = false) as -> by lia.
    assert (((31 <=? byte_of h) && (byte_of h <=? 34)) = true) as -> by lia. cbn. rewrite Hr. by rewrite bool_decide_eq_true_2.
Qed.

Lemma sign_verifies `{ML : !MessageLaws} n k message zaddr :
  verify_message n zaddr (sign_message_with_key k message) message = Ok true ↔
  decode_transparent n zaddr = Some (address_of (public_of k)).
Proof.
  unfold sign_message_with_key. pose proof (recovery_range (message_hash message) k) as Hr.
  pose proof (signature_length (message_hash message) k) as Hl. pose proof (recovers (message_hash message) k) as Hk.
  destruct (sign_ecdsa_recoverable _ k) as [r sig]. cbn in Hr, Hl, Hk. rewrite verify_true_iff. split.
  - intros (addr & h & rest & p & -> & _ & Hb & _ & _ & Hp & <-). rewrite base64_decodes in Hb. injection Hb as <- <-.
    rewrite header_value, header_recovery, Hk in Hp by done. by injection Hp as <-.
  - intros Hz. exists (address_of (public_of k)), (header_byte r), sig, (public_of k).
    rewrite header_value, header_recovery by done. split_and!; [done|apply key_address|apply base64_decodes|done|lia|lia|done|done].
Qed.

Lemma relock_live now c : c_seed (relock_if_expired now c) ≠ None →
  relock_if_expired now c = c ∧ ∀ t, c_unlock_until c = Some t → now < t.
Proof.
  unfold relock_if_expired. destruct (c_unlock_until c) as [t|]; [|done]. destruct (t <=? now) eqn:E; [done|].
  intros _. split; [done|]. intros t' [= <-]. lia.
Qed.

(** C18. A signed message verifies for the signer's address alone, and signing needs a live unlock.
    When the actor signs, the seed is in memory and its deadline, if any, has not passed, and the
    signature is made with a key that seed derives for the account; [verifymessage] then says yes
    for that address's encoding, and for no text that is another address's. It says yes to nothing
    else than a header byte of a compressed key and 64 bytes the key is recovered from; and the
    digest's input is the message's alone: no two messages share it. *)
Theorem signed_verifies_for_its_address `{ML : !MessageLaws} n now c addr message signature c' :
  do_sign_message n now c addr message = (Ok signature, c') →
  c' = c ∧ (∀ t, c_unlock_until c = Some t → now < t) ∧
  (∃ s i u, c_seed c = Some s ∧ c_account_index c = Some i ∧ usk_from_seed n s i = Ok u ∧
     (records_derivations c u →
        verify_message n (encode_transparent n addr) signature message = Ok true ∧
        ∀ zaddr, verify_message n zaddr signature message = Ok true → decode_transparent n zaddr = Some addr)) ∧
  ∀ message', message_preimage message' = message_preimage message → message' = message.
Proof.
  unfold do_sign_message. intros [= H <-]. apply bind_Ok_inv in H as (k & Hk & [= <-]). unfold signing_key in Hk.
  apply bind_Ok_inv in Hk as (id & Hid & Hk). apply bind_Ok_inv in Hk as (i & Hi%ok_or_Ok & Hk).
  apply bind_Ok_inv in Hk as (meta & Hm & Hk). apply bind_Ok_inv in Hk as ([scope index] & Hp%ok_or_Ok & Hk).
  apply bind_Ok_inv in Hk as (u & Hu & Hk). subst meta. unfold derive_usk in Hu.
  apply bind_Ok_inv in Hu as (s & Hs%ok_or_Ok & Hu).
  destruct (relock_live now c) as [Er Hlive]; [by rewrite Hs|]. rewrite Er in *. split_and!; [done|done| |].
  2: { intros message' E. by apply preimage_inj. }
  exists s, i, u. split_and!; [done|done|by destruct (usk_from_seed n s i); simplify_eq/=|]. intros Hrec.
  assert (address_of (public_of k) = addr) as <-.
  { apply (Hrec id addr scope index k).
    - unfold require_account in Hid. by destruct (c_account_id c); simplify_eq/=.
    - by destruct (address_metadata _ _ _); simplify_eq/=.
    - cbn in Hk. by destruct (derive_secret_key _ _ _); simplify_eq/=. }
  split; [apply sign_verifies, address_decodes|]. intros zaddr Hz. by apply sign_verifies in Hz.
Qed.
End spec.

(** ** A concrete signature *)

(** Keys are letters; a signature is its key's letter sixty-four times. *)
Module SignExample.
#[local] Existing Instance toy_db.
Definition sixty_four (k : ascii) : string := String.concat "" (repeat (String k "") 64).
#[local] Instance crypto : MessageCrypto := {|
  secret_key := ascii; public_key := ascii;
  compact_size n := String.concat "" (repeat "1" (Z.to_nat n)) +:+ "0";
  SignMessage.sha256 s := s;
  sign_ecdsa_recoverable _ k := (1, sixty_four k);
  recover_ecdsa _ _ sig := match sig with String k _ => Some k | "" => None end;
  public_of k := k; address_of p := Address.PublicKeyHash (String p "");
  base64_encode s := s; base64_decode s := Some s;
  decode_transparent _ s := match s with
                            | String "t" h => Some (Address.PublicKeyHash h) | String "s" h => Some (Address.ScriptHash h)
                            | _ => None end;
  encode_transparent _ t := match t with Address.PublicKeyHash h => String "t" h | Address.ScriptHash h => String "s" h end;
  address_metadata _ _ t := Ok (if bool_decide (t = Address.PublicKeyHash "k") then Some (0, 0) else None);
  derive_secret_key _ _ _ := Ok "k"%char;
|}.
Lemma unary_prefix a b x y :
  String.concat "" (repeat "1" a) +:+ "0" +:+ x = String.concat "" (repeat "1" b) +:+ "0" +:+ y → a = b.
Proof.
  assert (∀ n, String.concat "" (repeat "1" (S n)) = "1" +:+ String.concat "" (repeat "1" n)) as Hs by (by intros [|n]).
  revert b. induction a as [|a IH]; intros [|b]; rewrite ?Hs; try done.
  intros E. f_equal. apply IH. by injection E.
Qed.
#[local] Instance laws : MessageLaws.
Proof.
  split; cbn; try done.
  - intros a b x y Ha Hb. rewrite !append_assoc. intros E%unary_prefix. lia.
  - by intros n [].
Qed.
Definition custody : Custody := {|
  c_encrypted := true; c_watch_only := false; c_is_shard := false; c_account_id := Some tt; c_account_index := Some 0;
  c_pending_bootstrap := None; c_seed := Some "abandon"; c_unlock_until := Some 1060; c_client := true;
  c_tip_height := Some 500; c_db := Some (false, "uabandon"); c_files := ∅ |}.
Definition signature : string := sign_message_with_key "k"%char "hello".
Lemma signs : do_sign_message Test 1030 custody (Address.PublicKeyHash "k") "hello" = (Ok signature, custody).
Proof. reflexivity. Qed.

Lemma signed_verifies_for_its_address_witness :
  verify_message Test "tk" signature "hello" = Ok true ∧
  ∀ zaddr, verify_message Test zaddr signature "hello" = Ok true →
    decode_transparent Test zaddr = Some (Address.PublicKeyHash "k").
Proof.
  destruct (signed_verifies_for_its_address Test 1030 custody (Address.PublicKeyHash "k") "hello" signature custody signs)
    as (_ & _ & (s & i & u & _ & _ & _ & H) & _).
  apply H. intros id addr scope index k _ Hm [= <-]. cbn in Hm. by case_bool_decide; subst.
Defined.
End SignExample.
