(* ===== verification/ChainProbe.v ===== *)
(** * ChainProbe: the upstream without a wallet ([src/src/chain_probe.rs])

    [zecd chain info]: dial the configured upstream, report its tip and the birthday a new wallet
    would get, and say whether a wallet could sync against it. What the endpoint answers is an
    argument. Whether the command refuses an endpoint is whether the daemon would refuse to sync a
    wallet against it, and the birthday it suggests is the one [init] records. *)

From S2P Require Import Keys.
From S2P Require Export Init Upstream UpstreamSpec.
From S2P Require Import Health Json Pools Network ConfigSpec.

(** What an endpoint answers: its information, and its tip's height and hash. *)
Record Answers := { an_info : result string ServerInfo; an_latest : result string (Z * string) }.

Record ChainInfo := {
  ci_server : string; ci_network : ZNetwork; ci_chain_name : string; ci_network_matches : option bool;
  ci_tip_height : Z; ci_tip_hash : option string; ci_suggested_birthday : Z; ci_tip_branch_id : option Z;
  ci_unsupported : list UnsupportedUpgrade; ci_elapsed_ms : Z;
}.
Definition is_usable (i : ChainInfo) : bool :=
  negb (bool_decide (ci_network_matches i = Some false)) && bool_decide (ci_unsupported i = []).

(** A tip with the time of its block. *)
Record TipStatus := { ts_height : Z; ts_hash : string; ts_time : Z }.
(** [tip_status]: the tree state's hash and time are [state_hash] and [state_time]. *)
Definition tip_status `{W : WalletDb} (state_hash : Keys.tree_state → string) (state_time : Keys.tree_state → Z) (ch : Chain) :
    result string TipStatus :=
  tip ← context "fetching chain tip" (ch_latest ch);
  if negb (tip <=? u32_max) then Err ("upstream reported tip height " +:+ dec tip)
  else
    t ← context "fetching the tip's tree state for its block time" (ch_tree_state ch tip);
    Ok {| ts_height := tip; ts_hash := state_hash t; ts_time := state_time t |}.

Section probe.
Context `{HX : HexCodec}.
(** The configured network's activation heights and branches; and a text in Rust's debug form. *)
Context (activation : NetworkUpgrade → option Z) (branch_code : BranchId → Z)
        (branch_of : Z → option BranchId) (for_height : Z → BranchId).

Definition unsupported (info : ServerInfo) : list UnsupportedUpgrade :=
  unsupported_upgrades activation branch_code branch_of for_height info.
Definition with_server (c : AppConfig) (token : string) : AppConfig :=
  let b := ac_backend c in
  {| ac_network := ac_network c; ac_datadir := ac_datadir c; ac_default_wallet := ac_default_wallet c;
     ac_wallets := ac_wallets c;
     ac_backend := {| bk_server := token; bk_tls := bk_tls b; bk_tls_roots := bk_tls_roots b;
                      bk_tls_insecure_skip_verify := bk_tls_insecure_skip_verify b; bk_tls_ca_pem := bk_tls_ca_pem b;
                      bk_tls_ca_file := bk_tls_ca_file b; bk_tls_pins := bk_tls_pins b;
                      bk_assume_transparent := bk_assume_transparent b;
                      bk_connect_timeout_secs := bk_connect_timeout_secs b;
                      bk_reconnect_base_secs := bk_reconnect_base_secs b; bk_reconnect_max_secs := bk_reconnect_max_secs b;
                      bk_rfc1918_is_local := bk_rfc1918_is_local b; bk_allow_remote_cleartext := bk_allow_remote_cleartext b;
                      bk_proxy := bk_proxy b |};
     ac_zebra := ac_zebra c; ac_rpc := ac_rpc c; ac_keys := ac_keys c; ac_sync := ac_sync c; ac_spend := ac_spend c;
     ac_pools := ac_pools c; ac_health := ac_health c; ac_log := ac_log c; ac_fleet := ac_fleet c |}.

(** What a probe concludes from the answers. *)
Definition conclude (server : string) (n : ZNetwork) (info : ServerInfo) (tip : Z * string) (elapsed_ms : Z) : ChainInfo :=
  let matches := (λ upstream_is_main, bool_decide (upstream_is_main = bool_decide (n = Main)))
                   <$> chain_name_is_main (chain_name info) in
  let found := unsupported info in
  {| ci_server := server; ci_network := n; ci_chain_name := chain_name info; ci_network_matches := matches;
     ci_tip_height := tip.1;
     ci_tip_hash := if (String.length tip.2 =? 32)%nat then Some (hex_encode (string_rev tip.2)) else None;
     ci_suggested_birthday := fresh_wallet_birthday tip.1; ci_tip_branch_id := tip_branch_id info;
     ci_unsupported := if bool_decide (matches = Some false)
                       then List.filter (λ u, bool_decide (uu_kind u = UnknownBranch)) found else found;
     ci_elapsed_ms := elapsed_ms |}.
Definition probe (dial : Server → result string Answers) (elapsed_ms : Z) (c : AppConfig)
    (server_override : option string) : result string ChainInfo :=
  let token := default (bk_server (ac_backend c)) server_override in
  let c := match server_override with None => c | Some token => with_server c token end in
  server ← context ("resolving backend server " +:+ quoted token)
             (resolve_configured (ac_backend c) (ac_zebra c) (ac_network c));
  _ ← preflight server;
  answers ← dial server;
  info ← context "fetching server info" (an_info answers);
  tip ← context "fetching chain tip" (an_latest answers);
  if negb (tip.1 <=? u32_max) then Err ("upstream reported an out-of-range tip height " +:+ dec tip.1)
  else Ok (conclude (describe server) (ac_network c) info tip elapsed_ms).

(** ** The verdict *)

Definition at_height (u : UnsupportedUpgrade) : string :=
  match uu_activation_height u with Some h => " at height " +:+ dec h | None => "" end.
Definition finding_line (u : UnsupportedUpgrade) : string :=
  let branch := hex_pad 8 (uu_branch_id u) in
  let tail verdict :=
    (if uu_active u then "error" else "warning") +:+ ": upstream reports network upgrade " +:+ uu_name u
    +:+ " (branch id " +:+ branch +:+ ")" +:+ at_height u +:+ " " +:+ verdict in
  match uu_kind u with
  | UnknownBranch => tail "that this zecd build does not know"
  | ActivationHeightMismatch (Some h) =>
      tail ("that this zecd build schedules at height " +:+ dec h +:+ "; transactions built across "
            +:+ "the difference would be rejected")
  | ActivationHeightMismatch None =>
      tail ("that this zecd build has not scheduled on this network; transactions "
            +:+ "built after it activates would be rejected")
  | UpstreamNotUpgraded =>
      if uu_active u then
        "error: this zecd build activates network upgrade " +:+ uu_name u +:+ " (branch id "
        +:+ branch +:+ ")" +:+ at_height u +:+ ", and the upstream node has not adopted it: its chain past "
        +:+ "that height follows the old rules and is a fork the network abandoned. " +:+ NODE_UPGRADE_GUIDANCE
      else
        "warning: this zecd build activates network upgrade " +:+ uu_name u +:+ " (branch id "
        +:+ branch +:+ ")" +:+ at_height u +:+ ", and the upstream node does not know it: the node will "
        +:+ "stay on the old rules and fork off there. " +:+ NODE_UPGRADE_GUIDANCE
  end.
Definition active_kind (p : UnsupportedKind → bool) (l : list UnsupportedUpgrade) : bool :=
  existsb (λ u, uu_active u && p (uu_kind u)) l.
(** What [run] prints on standard error, and whether it succeeds. *)
Definition verdict (i : ChainInfo) : list string * result string () :=
  if bool_decide (ci_network_matches i = Some false) then
    ([], Err ("upstream serves chain '" +:+ ci_chain_name i +:+ "' but this configuration is for '"
              +:+ network_name (ci_network i) +:+ "'"))
  else
    let unrecognised :=
      match ci_network_matches i with
      | None => ["warning: upstream reported unrecognized chain '" +:+ ci_chain_name i +:+ "'; cannot confirm it matches '"
                 +:+ network_name (ci_network i) +:+ "'"]
      | Some _ => []
      end in
    let notes := unrecognised ++ (finding_line <$> ci_unsupported i) in
    let is_behind k := bool_decide (k = UpstreamNotUpgraded) in
    if active_kind is_behind (ci_unsupported i) then
      (notes, Err ("the upstream node has not adopted a network upgrade this zecd build follows; "
                   +:+ "upgrade the node before syncing a wallet against it"))
    else if active_kind (λ k, negb (is_behind k)) (ci_unsupported i) then
      (notes, Err ("this zecd build cannot follow the upstream's current consensus rules; update "
                   +:+ "zecd before syncing a wallet against it"))
    else (notes ++ ["OK: reachable, chain matches, consensus rules understood"], Ok tt).

(** ** The report *)

Definition opt_json {A} (f : A → json) (o : option A) : json := match o with Some a => f a | None => JNull end.
Definition json_report (i : ChainInfo) : json :=
  JObject
    [("server", JString (ci_server i)); ("network", JString (network_name (ci_network i)));
     ("chain", JString (ci_chain_name i)); ("network_matches", opt_json JBool (ci_network_matches i));
     ("tip_height", json_num (ci_tip_height i)); ("tip_hash", opt_json JString (ci_tip_hash i));
     ("suggested_birthday", json_num (ci_suggested_birthday i));
     ("branch_id", opt_json (λ id, JString (hex_pad 8 id)) (ci_tip_branch_id i));
     ("unsupported_upgrades", JArray ((λ u,
        let '(kind, expected) := match uu_kind u with
                                 | UnknownBranch => ("unknown_branch", None)
                                 | ActivationHeightMismatch expected => ("activation_height_mismatch", expected)
                                 | UpstreamNotUpgraded => ("upstream_not_upgraded", uu_activation_height u)
                                 end in
        JObject [("name", JString (uu_name u)); ("branch_id", JString (hex_pad 8 (uu_branch_id u)));
                 ("activation_height", opt_json json_num (uu_activation_height u)); ("active", JBool (uu_active u));
                 ("kind", JString kind); ("expected_activation_height", opt_json json_num expected)])
        <$> ci_unsupported i));
     ("usable", JBool (is_usable i)); ("elapsed_ms", json_num (ci_elapsed_ms i))].
Definition text_report (i : ChainInfo) : list string :=
  ["server            " +:+ ci_server i; "network           " +:+ network_name (ci_network i);
   "chain             " +:+ ci_chain_name i; "tip height        " +:+ dec (ci_tip_height i);
   "tip hash          " +:+ default "(not reported)" (ci_tip_hash i);
   "birthday for new  " +:+ dec (ci_suggested_birthday i)]
  ++ match ci_tip_branch_id i with Some id => ["branch id         " +:+ hex_pad 8 id] | None => [] end
  ++ ["round trip        " +:+ dec (ci_elapsed_ms i) +:+ " ms"].
End probe.

(** ** Findings whose height the node has passed *)

(** A node that never adopted an upgrade its own tip has reached: the finding is active. *)
Definition reached_active (t : Z) (u : UnsupportedUpgrade) : Prop :=
  uu_kind u = UpstreamNotUpgraded → ∀ h, uu_activation_height u = Some h → h ≤ t → uu_active u = true.

Lemma promote_reached t id l l' :
  promote id l = Some l' → Forall (reached_active t) l → Forall (reached_active t) l'.
Proof.
  revert l'. induction l as [|u l IH]; intros l'; simpl; [done|]. rewrite Forall_cons. destruct (uu_branch_id u =? id).
  - intros [= <-] [_ H]. constructor; [by intros ???|done].
  - intros (x & Hx & ->)%fmap_Some [H1 H2]. constructor; auto.
Qed.

Lemma find_first_ext {A} (p q : A → bool) l :
  (∀ x, x ∈ l → p x = q x) → find_first p l = find_first q l.
Proof.
  induction l as [|x l IH]; simpl; [done|]. intros H. rewrite (H x) by set_solver.
  case_match; [done|]. apply IH. set_solver.
Qed.

Section findings.
Context (activation : NetworkUpgrade → option Z) (branch_code : BranchId → Z)
        (branch_of : Z → option BranchId) (for_height : Z → BranchId).
Abbreviation found := (unsupported activation branch_code branch_of for_height).

Lemma consensus_reached t l id :
  Forall (reached_active t) l → Forall (reached_active t) (promote_consensus branch_of l id).
Proof.
  intros H. unfold promote_consensus. destruct (promote id l) eqn:E; [by eapply promote_reached|].
  destruct (branch_known _ _); [done|]. apply Forall_app_2; [done|]. by repeat constructor.
Qed.
Lemma compare_reached t l c :
  Forall (reached_active t) l →
  Forall (reached_active t) (compare_branch activation branch_code branch_of for_height l c).
Proof.
  intros H. unfold compare_branch. destruct (_ ≫= _); [|done]. case_bool_decide; [done|].
  destruct (if (_ <? _)%nat then _ else _) as [behind k].
  destruct (promote _ l) eqn:E; [by eapply promote_reached|].
  apply Forall_app_2; [done|]. by repeat constructor.
Qed.
Lemma fold_reached {B} (f : list UnsupportedUpgrade → B → list UnsupportedUpgrade) t :
  (∀ l b, Forall (reached_active t) l → Forall (reached_active t) (f l b)) →
  ∀ bs l, Forall (reached_active t) l → Forall (reached_active t) (foldl f l bs).
Proof. intros Hf bs. induction bs; simpl; auto. Qed.

Lemma found_reached info t : tip_height info = Some t → Forall (reached_active t) (found info).
Proof.
  intros Ht. unfold unsupported, unsupported_upgrades. rewrite Ht.
  apply fold_reached; [intros; by apply compare_reached|].
  apply fold_reached; [intros; by apply consensus_reached|].
  rewrite !Forall_app. split_and!; apply Forall_forall; intros u Hu.
  - unfold unknown_branches in Hu. by apply list_elem_of_fmap in Hu as (v & -> & _).
  - unfold height_mismatches in Hu. apply list_elem_of_omap in Hu as (v & _ & E).
    unfold height_mismatch in E. destruct (branch_of _ ≫= _); [|done]. simpl in E.
    destruct (ui_activation_height v); [|done]. simpl in E. by case_bool_decide; simplify_eq/=.
  - unfold missing_upgrades in Hu. destruct (horizon info); [|by apply elem_of_nil in Hu].
    apply list_elem_of_omap in Hu as (s & _ & E). unfold beyond_horizon in E.
    case_match; simplify_eq/=. rewrite Ht. intros _ h [= <-] Hh. simpl. by apply Z.leb_le.
Qed.

(** The daemon's refusal at the node's own tip, or at an earlier one, is that a finding is active. *)
Lemma refusal_is_active info wt :
  (∀ w, wt = Some w → ∃ t, tip_height info = Some t ∧ w ≤ t) →
  is_some (upstream_not_upgraded (found info) wt)
  = active_kind (λ k, bool_decide (k = UpstreamNotUpgraded)) (found info).
Proof.
  intros Hw. unfold upstream_not_upgraded, active_kind.
  rewrite (find_first_ext _ (λ u, uu_active u && bool_decide (uu_kind u = UpstreamNotUpgraded))).
  { induction (found info) as [|u l IH]; simpl; [done|]. by destruct (_ && _). }
  intros u Hu. rewrite andb_comm. case_bool_decide as Ek; [|by rewrite !andb_false_r].
  rewrite !andb_true_r. unfold finding_in_force. destruct (uu_active u) eqn:Ea; [done|]. simpl.
  destruct (uu_activation_height u) as [h|] eqn:Eh; [|done]. destruct wt as [w|]; [|done].
  destruct (Hw w eq_refl) as (t & Ht & Hle). destruct (Z.leb_spec h w); [|done].
  pose proof (proj1 (Forall_forall _ _) (found_reached info t Ht) u Hu Ek h Eh ltac:(lia)). congruence.
Qed.
End findings.

(** ** The probe *)

Section probe.
Context `{HX : HexCodec}.
Context (activation : NetworkUpgrade → option Z) (branch_code : BranchId → Z)
        (branch_of : Z → option BranchId) (for_height : Z → BranchId).
Context {BL : BranchLaws branch_code branch_of}.
Abbreviation found := (unsupported activation branch_code branch_of for_height).
Abbreviation the_probe := (probe activation branch_code branch_of for_height).
Abbreviation concluded := (conclude activation branch_code branch_of for_height).

Lemma matches_is_verified server n info tip ms :
  ci_network_matches (concluded server n info tip ms) = Some false ↔
  verify_server_network (chain_name info) n ≠ None.
Proof.
  unfold conclude, verify_server_network. simpl. destruct (chain_name_is_main _) as [m|]; simpl; [|done].
  split.
  - intros [= H%bool_decide_eq_false]. by rewrite bool_decide_true.
  - case_bool_decide as H; [|done]. intros _. by rewrite bool_decide_false.
Qed.
Lemma matching_findings server n info tip ms :
  verify_server_network (chain_name info) n = None →
  ci_unsupported (concluded server n info tip ms) = found info.
Proof.
  intros H. pose proof (matches_is_verified server n info tip ms) as Hm. unfold conclude in *. simpl in *.
  rewrite bool_decide_false; [done|]. rewrite Hm. naive_solver.
Qed.

(** What a completed probe asked, and of whom. *)
Lemma probe_ok dial ms c override i :
  the_probe dial ms c override = Ok i →
  let c' := match override with None => c | Some t => with_server c t end in
  ∃ server a info tip,
    resolve_configured (ac_backend c') (ac_zebra c') (ac_network c') = Ok server ∧
    preflight server = Ok tt ∧ dial server = Ok a ∧ an_info a = Ok info ∧ an_latest a = Ok tip ∧
    i = concluded (describe server) (ac_network c') info tip ms.
Proof.
  unfold probe. set (c' := match override with None => c | Some t => with_server c t end).
  destruct (resolve_configured _ _ _) as [server|] eqn:E1; [|done]. simpl.
  destruct (preflight server) as [[]|] eqn:E2; [|done]. simpl.
  destruct (dial server) as [a|] eqn:E3; [|done]. simpl.
  destruct (an_info a) as [info|] eqn:E4; [|done]. simpl.
  destruct (an_latest a) as [tip|] eqn:E5; [|done]. simpl. destruct (negb _); [done|].
  intros [= <-]. exists server, a, info, tip. by split_and!.
Qed.

End probe.

(** ** A concrete probe *)

Module ProbeExample.
#[local] Instance hex : HexCodec := {| hex_encode s := s; hex_decode s := Some s |}.

(** A node that follows the demonstration schedule, and one that never adopted NU7. *)
Definition node (branch : NetworkUpgrade) : Answers :=
  {| an_info := Ok {| chain_name := "regtest"; tip_height := Some 250; upgrades := [];
                      tip_branch_id := Some (demo_code (BranchOf branch));
                      next_block_branch_id := Some (demo_code (BranchOf branch)) |};
     an_latest := Ok (250, "") |}.
Definition probed (branch : NetworkUpgrade) : result string ChainInfo :=
  probe demo_activation demo_code demo_branch_of demo_for_height (λ _, Ok (node branch)) 12 example_config None.
Definition seen (branch : NetworkUpgrade) : ChainInfo := Eval vm_compute in value_of (probed branch).

End ProbeExample.
