(* ===== verification/Window.v ===== *)
(** * Window: the transparent addresses a wallet watches ([src/src/wallet/actor.rs])

    Before it scans, a transparent wallet exposes the addresses of its restore window, a chunk per
    pass, and builds the set the block scan matches outputs against: every recorded receiver and a
    gap of addresses past the frontier. The mempool's transactions are matched against the same set.
    The address table and the databases are the library's. *)

From S2P Require Import Issue.
From S2P Require Export Engine.

Definition TRANSPARENT_PREEXPOSE_CHUNK : Z := 1000.

(** ** The window *)

(** A recorded receiver: whether it was handed out, and its index, if it was derived at one. *)
Record ReceiverMeta := { rm_exposed : bool; rm_index : option Z }.

(** The account's recorded receivers by address, with or without its change chain; its external
    viewing key and the address at a child index; and the unspent outpoints. *)
Class TransparentLibrary `{AddressTable} := {
  receivers : table → Z → bool → option (list (address * ReceiverMeta));
  ivk : Type;
  external_transparent_ivk : table → Z → option ivk;
  derive_address : ivk → Z → option address;
  unspent_transparent_outpoints : table → option (gset outpoint);
}.

Record Window `{AddressTable} := {
  wi_table : table;
  (** How many external indices are exposed, in a run that exposes them. *)
  wi_preexpose : option Z;
  wi_preexposed : bool; wi_set_dirty : bool; wi_unspent_dirty : bool;
  wi_frontier : option Z; wi_scripts : option (TransparentMatcher Z); wi_unspent : option (gset outpoint);
}.

Section window.
Context `{AT : AddressTable} `{TL : !TransparentLibrary}.
(** The configured depth of the restore window, and the gap past the frontier. *)
Context (initial_scan gap_limit : Z).

Definition with_progress (w : Window) (t : table) (done : Z) : Window :=
  {| wi_table := t; wi_preexpose := Some done; wi_preexposed := wi_preexposed w; wi_set_dirty := wi_set_dirty w;
     wi_unspent_dirty := wi_unspent_dirty w; wi_frontier := wi_frontier w; wi_scripts := wi_scripts w;
     wi_unspent := wi_unspent w |}.
Definition with_flags (w : Window) (preexposed dirty : bool) : Window :=
  {| wi_table := wi_table w; wi_preexpose := wi_preexpose w; wi_preexposed := preexposed; wi_set_dirty := dirty;
     wi_unspent_dirty := wi_unspent_dirty w; wi_frontier := wi_frontier w; wi_scripts := wi_scripts w;
     wi_unspent := wi_unspent w |}.

(** One past the highest recorded external index. *)
Definition next_unexposed_external_index (t : table) (account : Z) : Z :=
  match receivers t account false with
  | None => 0
  | Some rs => foldr Z.max 0 (omap (λ r : address * ReceiverMeta, (λ i, u32_sat_add i 1) <$> rm_index r.2) rs)
  end.
(** The derivations of a chunk, in one transaction. *)
Fixpoint expose_all (t : table) (account : Z) (indices : list Z) : result AtIndexError table :=
  match indices with
  | [] => Ok t
  | i :: indices =>
      match Issue.get_address_for_index t account i transparent_extraction_request with
      | (Ok _, t) => expose_all t account indices
      | (Err e, _) => Err e
      end
  end.
(** [preexpose_transparent_chunk]: whether more remain. *)
Definition preexpose_transparent_chunk (account : Z) (w : Window) : bool * Window :=
  let depth := initial_scan in
  if depth =? 0 then (false, w)
  else
    let start := match wi_preexpose w with
                 | Some done => done
                 | None => next_unexposed_external_index (wi_table w) account
                 end in
    if depth <=? start then (false, w)
    else
      let w := with_progress w (wi_table w) (default start (wi_preexpose w)) in
      let end_ := Z.min depth (u32_sat_add start TRANSPARENT_PREEXPOSE_CHUNK) in
      match expose_all (wi_table w) account (seqZ start (end_ - start)) with
      | Err _ => (false, w)
      | Ok t => (end_ <? depth, with_progress w t end_)
      end.

(** The set with the addresses of the lookahead's indices that have no row, and their indices. *)
Fixpoint lookahead_from (k : ivk) (recorded : list Z) (indices : list Z) (all : gset address)
    (lookahead : gmap address Z) : gset address * gmap address Z :=
  match indices with
  | [] => (all, lookahead)
  | index :: indices =>
      if bool_decide (index ∈ recorded) then lookahead_from k recorded indices all lookahead
      else if negb (index <? 2 ^ 31) then (all, lookahead)
      else
        match derive_address k index with
        | Some addr =>
            if bool_decide (addr ∈ all) then lookahead_from k recorded indices all lookahead
            else lookahead_from k recorded indices ({[addr]} ∪ all) (<[addr := index]> lookahead)
        | None => lookahead_from k recorded indices all lookahead
        end
  end.
(** The frontier: past every address handed out, and the restore window. *)
Definition frontier_of (external : list (address * ReceiverMeta)) : Z :=
  foldl (λ frontier (r : address * ReceiverMeta),
           match rm_index r.2 with
           | Some index => if rm_exposed r.2 then Z.max frontier (u32_sat_add index 1) else frontier
           | None => frontier
           end) initial_scan external.
Definition rebuild_transparent_set (account : Z) (w : Window) : Window :=
  match receivers (wi_table w) account true, receivers (wi_table w) account false with
  | Some rs, Some external =>
      let all := list_to_set rs.*1 in
      let recorded := omap (λ r : address * ReceiverMeta, rm_index r.2) external in
      let frontier := frontier_of external in
      let '(all, lookahead) :=
        match external_transparent_ivk (wi_table w) account with
        | Some k =>
            lookahead_from k recorded (seqZ frontier (u32_sat_add frontier gap_limit - frontier)) all ∅
        | None => (all, ∅)
        end in
      {| wi_table := wi_table w; wi_preexpose := wi_preexpose w; wi_preexposed := wi_preexposed w; wi_set_dirty := false;
         wi_unspent_dirty := wi_unspent_dirty w; wi_frontier := Some frontier;
         wi_scripts := Some {| tm_account := account; tm_all := all; tm_lookahead := lookahead |};
         wi_unspent := wi_unspent w |}
  | _, _ => w
  end.
Definition rebuild_transparent_unspent (w : Window) : Window :=
  match unspent_transparent_outpoints (wi_table w) with
  | Some set =>
      {| wi_table := wi_table w; wi_preexpose := wi_preexpose w; wi_preexposed := wi_preexposed w;
         wi_set_dirty := wi_set_dirty w; wi_unspent_dirty := false; wi_frontier := wi_frontier w;
         wi_scripts := wi_scripts w; wi_unspent := Some set |}
  | None => w
  end.

(** The transparent part of [sync_step]: whether the pass goes on to scan, and with what. *)
Definition prepare_transparent (account : Z) (w : Window) : bool * Window :=
  let '(more, w) :=
    if wi_preexposed w then (false, w)
    else
      let '(more, w) := preexpose_transparent_chunk account w in
      (more, with_flags w (negb more) true) in
  if (more : bool) then (false, w)
  else
    let w := if wi_set_dirty w then rebuild_transparent_set account w else w in
    let w := if wi_unspent_dirty w then rebuild_transparent_unspent w else w in
    (true, w).
(** What a batch that recorded receives or spends leaves to rebuild. *)
Definition after_batch (recorded spends : Z) (w : Window) : Window :=
  {| wi_table := wi_table w; wi_preexpose := wi_preexpose w; wi_preexposed := wi_preexposed w;
     wi_set_dirty := wi_set_dirty w || (0 <? recorded);
     wi_unspent_dirty := wi_unspent_dirty w || (0 <? recorded) || (0 <? spends);
     wi_frontier := wi_frontier w; wi_scripts := wi_scripts w; wi_unspent := wi_unspent w |}.
End window.

(** ** A transaction outside the scan *)

Section receives.
Context `{RangeOps} {client db error account chain_state : Type}
        `{B : !Backend client db error account chain_state}.

(** The outputs of a transaction that pay the set, each with its lookahead index. *)
Definition owned_outputs (m : TransparentMatcher account) (tx : txid) (vout : list (Z * string)) (height : option Z) :
    list (WalletOutput * option Z) :=
  omap id (imap (λ index (o : Z * string),
    out ← owned_transparent_output max_money recipient_of (tm_all m) tx (Z.of_nat index) o.1 o.2 height;
    Some (out, lookahead_index m (wo_recipient out))) vout).
(** One output: its address recorded first, if it is a lookahead. *)
Definition record_output (acct : account) (st : db * Z) (o : WalletOutput * option Z) : db * Z :=
  let put d := match put_received_transparent_utxo d o.1 with
               | (d, Ok _) => (d, wrap_usize (st.2 + 1))
               | (d, Err _) => (d, st.2)
               end in
  match o.2 with
  | Some index =>
      match get_address_for_index st.1 acct index with
      | (d, Ok _) => put d
      | (d, Err _) => (d, st.2)
      end
  | None => put st.1
  end.
(** [record_tx_transparent_receives]: how many were recorded. *)
Definition record_tx_transparent_receives (enabled : bool) (matcher : option (TransparentMatcher account)) (d : db)
    (tx : txid) (vout : option (list (Z * string))) (height : option Z) : db * Z :=
  if negb enabled then (d, 0)
  else
    match matcher, vout with
    | Some m, Some vout => foldl (record_output (tm_account m)) (d, 0) (owned_outputs m tx vout height)
    | _, _ => (d, 0)
    end.

(** *** The mempool *)

(** [tx_vout] is a transaction's transparent outputs, if it has a transparent part; [tx_exists]
    whether the database has a transaction; [unmined_txids] its unmined ones. *)
Context (tx_vout : txid → option (list (Z * string))) (tx_exists : db → txid → bool)
        (unmined_txids : db → option (list txid)).

Record RawMempoolTx := { rm_data : string; rm_height : Z }.
Record MempoolView := { mv_db : db; mv_first_seen : gmap txid Z; mv_set_dirty : bool; mv_unspent_dirty : bool }.

(** [store_mempool_tx], at the clock reading [now] in seconds. *)
Definition store_mempool_tx (tip : option Z) (enabled : bool) (matcher : option (TransparentMatcher account)) (now : Z)
    (raw : RawMempoolTx) (v : MempoolView) : MempoolView :=
  match tip with
  | None => v
  | Some tip =>
      let mined := if (0 <? rm_height raw) && (rm_height raw <=? u32_max) then Some (rm_height raw) else None in
      match read_transaction (rm_data raw) (default (u32_sat_add tip 1) mined) with
      | Err _ => v
      | Ok tx =>
          match decrypt_and_store_transaction (mv_db v) tx mined with
          | (d, Err _) =>
              {| mv_db := d; mv_first_seen := mv_first_seen v; mv_set_dirty := mv_set_dirty v;
                 mv_unspent_dirty := mv_unspent_dirty v |}
          | (d, Ok _) =>
              let '(d, recorded) := record_tx_transparent_receives enabled matcher d tx (tx_vout tx) mined in
              let ours := (0 <? recorded) || tx_exists d tx in
              {| mv_db := d;
                 mv_first_seen := if negb (is_some mined) && ours
                                  then <[tx := default now (mv_first_seen v !! tx)]> (mv_first_seen v)
                                  else mv_first_seen v;
                 mv_set_dirty := mv_set_dirty v || (0 <? recorded);
                 mv_unspent_dirty := mv_unspent_dirty v || (0 <? recorded) |}
          end
      end
  end.
(** [prune_first_seen]. *)
Definition prune_first_seen (v : MempoolView) : MempoolView :=
  if bool_decide (mv_first_seen v = ∅) then v
  else
    match unmined_txids (mv_db v) with
    | Some unmined =>
        {| mv_db := mv_db v; mv_first_seen := filter (λ e : txid * Z, e.1 ∈ unmined) (mv_first_seen v);
           mv_set_dirty := mv_set_dirty v; mv_unspent_dirty := mv_unspent_dirty v |}
    | None => v
    end.
End receives.
