(* ===== verification/WindowSpec.v ===== *)
(** * WindowSpec: what is handed out is watched

    Before it scans, a wallet has exposed its whole restore window, in boundedly many passes
    whatever is handed out between them, and watches every address below the frontier that the
    library recorded and the gap past it; and the mempool's receives are the block scan's. *)

From S2P Require Import Issue EngineSpec.
From S2P Require Export Window.

(** ** The library's behaviour *)

(** A row of a table: an external address, at an index. *)
Definition row_at `{TL : TransparentLibrary} (t : table) (account i : Z) : Prop :=
  ∃ rs addr m, receivers t account false = Some rs ∧ (addr, m) ∈ rs ∧ rm_index m = Some i.
Definition handed_out `{TL : TransparentLibrary} (t : table) (account i : Z) : Prop :=
  ∃ rs addr m, receivers t account false = Some rs ∧ (addr, m) ∈ rs ∧ rm_index m = Some i ∧ rm_exposed m = true.
(** Rows are only added, a key never changes, and an address handed out stays so. *)
Definition grows `{TL : TransparentLibrary} (account : Z) (t t' : table) : Prop :=
  (∀ i, row_at t account i → row_at t' account i) ∧ external_transparent_ivk t' account = external_transparent_ivk t account.

(** The library, for an account: its receivers can be read, those of the change chain besides the
    others; an address recorded at an index is the key's; deriving at an index records its address,
    and only ever adds rows. *)
Class TransparentLaws `{TL : TransparentLibrary} (account : Z) : Prop := {
  tl_reads t : ∃ all external, receivers t account true = Some all ∧ receivers t account false = Some external ∧
                               ∀ r, r ∈ external → r ∈ all;
  tl_key t rs addr m i : receivers t account false = Some rs → (addr, m) ∈ rs → rm_index m = Some i →
    0 ≤ i < 2 ^ 31 ∧ ∀ k, external_transparent_ivk t account = Some k → derive_address k i = Some addr;
  tl_expose t i : 0 ≤ i < 2 ^ 31 →
    match Issue.get_address_for_index t account i transparent_extraction_request with
    | (Ok (Some _), t') => grows account t t' ∧ handed_out t' account i
    | (Ok None, t') => grows account t t' ∧ ∀ k, external_transparent_ivk t account = Some k → derive_address k i = None
    | (Err _, _) => True
    end;
}.

Section window.
Context `{TL : TransparentLibrary} (account : Z) {LW : TransparentLaws account}.
Context (initial_scan gap_limit : Z).
Context (Hscan : 0 ≤ initial_scan < 2 ^ 31) (Hgap : 0 ≤ gap_limit ≤ u32_max).
Abbreviation chunk := (preexpose_transparent_chunk initial_scan account).
Abbreviation rebuild := (rebuild_transparent_set initial_scan gap_limit account).
Abbreviation prepare := (prepare_transparent initial_scan gap_limit account).

Lemma grows_refl t : grows account t t.
Proof. by split. Qed.
Lemma grows_trans t1 t2 t3 : grows account t1 t2 → grows account t2 t3 → grows account t1 t3.
Proof. intros [H1 H2] [H3 H4]. split; [auto|congruence]. Qed.

(** Every index of a stretch that has an address has a row. *)
Definition recorded (t : table) (from to_ : Z) : Prop :=
  ∀ k i, external_transparent_ivk t account = Some k → from ≤ i < to_ → is_Some (derive_address k i) → row_at t account i.

Lemma recorded_grows t t' a b : grows account t t' → recorded t a b → recorded t' a b.
Proof. intros [H1 H2] Hr k i Hk Hi Hd. apply H1. eapply Hr; [by rewrite <-H2|done|done]. Qed.

Lemma expose_all_spec indices t t' :
  Forall (λ i, 0 ≤ i < 2 ^ 31) indices → expose_all t account indices = Ok t' →
  grows account t t' ∧
  ∀ k i, external_transparent_ivk t account = Some k → i ∈ indices → is_Some (derive_address k i) → row_at t' account i.
Proof.
  revert t. induction indices as [|i indices IH]; intros t Hf; simpl.
  { intros [= <-]. split; [apply grows_refl|]. intros k i _ Hi. by apply elem_of_nil in Hi. }
  apply Forall_cons in Hf as [Hi Hf]. pose proof (tl_expose t i Hi) as Hx.
  destruct (Issue.get_address_for_index t account i transparent_extraction_request) as [[r|] t1] eqn:E; [|done].
  assert (grows account t t1 ∧ ∀ k, external_transparent_ivk t account = Some k → is_Some (derive_address k i) →
            row_at t1 account i) as [Hg Hrow].
  { destruct r; destruct Hx as [Hg Hh]; (split; [done|]); intros k Hk [a Ha].
    - destruct Hh as (rs & addr & m & ? & ? & ? & _). by exists rs, addr, m.
    - rewrite (Hh k Hk) in Ha. done. }
  intros (Hg2 & Hrows)%IH; [|done]. split; [by eapply grows_trans|].
  intros k j Hk Hj Hd. apply elem_of_cons in Hj as [->|Hj].
  - apply (proj1 Hg2). by eapply Hrow.
  - eapply Hrows; [|done|done]. by rewrite (proj2 Hg).
Qed.

(** ** The set *)

Lemma lookahead_spec k rec indices all la all' la' :
  lookahead_from k rec indices all la = (all', la') →
  (∀ a, a ∈ all → a ∈ all') ∧
  (∀ a i, la' !! a = Some i → la !! a = Some i ∨ i ∈ indices ∧ i ∉ rec ∧ derive_address k i = Some a ∧ a ∉ all).
Proof.
  revert all la. induction indices as [|i indices IH]; intros all la; simpl.
  { intros [= <- <-]. split; [done|by left]. }
  assert (∀ all la, lookahead_from k rec indices all la = (all', la') →
    (∀ a, a ∈ all → a ∈ all') ∧ (∀ a j, la' !! a = Some j → la !! a = Some j ∨ j ∈ i :: indices ∧ j ∉ rec ∧ derive_address k j = Some a ∧ a ∉ all)) as Hrest.
  { intros all1 la1 Hl. destruct (IH _ _ Hl) as [H1 H2]. split; [done|]. intros a j Hj.
    destruct (H2 a j Hj) as [?|(? & ?)]; [by left|right]. split; [by right|done]. }
  case_bool_decide as Hrec; [apply Hrest|]. destruct (negb (i <? 2 ^ 31)); [intros [= <- <-]; split; [done|by left]|].
  destruct (derive_address k i) as [addr|] eqn:Ed; [|apply Hrest]. case_bool_decide as Ha; [apply Hrest|].
  intros Hl. destruct (Hrest _ _ Hl) as [H1 H2]. split; [intros a Hin; apply H1; set_solver|].
  intros a j Hj. destruct (H2 a j Hj) as [Hla|(? & ? & ? & Hn)].
  - apply lookup_insert_Some in Hla as [[<- <-]|[_ Hla]]; [right|by left]. by split_and!; [left|..].
  - right. split_and!; [done..|]. set_solver.
Qed.
(** Every index of the lookahead that has an address has it watched. *)
Lemma lookahead_covers k rec indices all la i a :
  Sorted Z.lt indices → i ∈ indices → i < 2 ^ 31 → derive_address k i = Some a → (i ∈ rec → a ∈ all) →
  a ∈ (lookahead_from k rec indices all la).1.
Proof.
  revert all la. induction indices as [|j indices IH]; intros all la Hs Hi Hlt Hd Hrec; [by apply elem_of_nil in Hi|].
  assert (j ≤ i) as Hle.
  { apply elem_of_cons in Hi as [->|Hi]; [done|]. apply Sorted_StronglySorted in Hs; [|by intros ???; lia].
    apply StronglySorted_inv in Hs as [_ Hall]. rewrite Forall_forall in Hall. specialize (Hall i Hi). lia. }
  apply Sorted_inv in Hs as [Hs _]. simpl.
  assert (∀ all la, (i ∈ rec → a ∈ all) → (i = j → a ∈ all) → a ∈ (lookahead_from k rec indices all la).1) as Hrest.
  { intros all1 la1 Hr Hj. apply elem_of_cons in Hi as [->|Hi]; [|by apply IH].
    destruct (lookahead_from k rec indices all1 la1) as [al ll] eqn:E. apply (lookahead_spec _ _ _ _ _ _ _ E). by apply Hj. }
  case_bool_decide as Hjr; [apply Hrest; [done|by intros ->; apply Hrec]|].
  assert (negb (j <? 2 ^ 31) = false) as -> by lia.
  destruct (derive_address k j) as [addr|] eqn:Ej.
  2: { apply Hrest; [done|]. intros ->. congruence. }
  case_bool_decide as Hin; apply Hrest; try set_solver; intros ->; rewrite Hd in Ej; injection Ej as ->; set_solver.
Qed.

Lemma seqZ_sorted m n : Sorted Z.lt (seqZ m n).
Proof.
  destruct (Z_le_gt_dec 0 n) as [Hn|Hn]; [|rewrite seqZ_nil by lia; constructor].
  revert m. pattern n. apply natlike_ind; [intros m; rewrite seqZ_nil by lia; constructor| |done].
  intros x Hx IH m. rewrite seqZ_cons by lia. replace (Z.pred (Z.succ x)) with x by lia. constructor; [apply IH|].
  destruct (Z.eq_dec x 0) as [->|]; [rewrite seqZ_nil by lia; constructor|]. rewrite seqZ_cons by lia. constructor. lia.
Qed.

(** The frontier is past the window and every address handed out. *)
Lemma frontier_spec external :
  (∀ addr m i, (addr, m) ∈ external → rm_index m = Some i → 0 ≤ i < 2 ^ 31) →
  initial_scan ≤ frontier_of initial_scan external ≤ 2 ^ 31 ∧
  ∀ addr m i, (addr, m) ∈ external → rm_index m = Some i → rm_exposed m = true → i < frontier_of initial_scan external.
Proof.
  unfold frontier_of. intros Hb. set (f := λ (frontier : Z) (r : address * ReceiverMeta), _).
  assert (∀ l z, (∀ addr m i, (addr, m) ∈ l → rm_index m = Some i → 0 ≤ i < 2 ^ 31) → 0 ≤ z ≤ 2 ^ 31 →
    z ≤ foldl f z l ≤ 2 ^ 31 ∧
    ∀ addr m i, (addr, m) ∈ l → rm_index m = Some i → rm_exposed m = true → i < foldl f z l) as Hgen.
  { induction l as [|[addr m] l IH]; intros z Hl Hz; simpl; [split; [lia|]; intros ??? Hin; by apply elem_of_nil in Hin|].
    assert (z ≤ f z (addr, m) ≤ 2 ^ 31 ∧ ∀ i, rm_index m = Some i → rm_exposed m = true → i < f z (addr, m)) as [H1 H2].
    { unfold f. simpl. destruct (rm_index m) as [i|] eqn:Ei; [|split; [lia|done]].
      pose proof (Hl addr m i ltac:(by left) Ei). destruct (rm_exposed m); [|split; [lia|done]].
      assert (u32_sat_add i 1 = i + 1) as -> by (unfold u32_sat_add, u32_max; lia).
      split; [lia|]. intros ? [= <-] _. lia. }
    destruct (IH (f z (addr, m))) as [H3 H4]; [by intros ??? Hin; apply (Hl addr0); right|lia|].
    split; [lia|]. intros a' m' i Hin Hi He. apply elem_of_cons in Hin as [[= -> ->]|Hin]; [|by eapply H4].
    specialize (H2 i Hi He). lia. }
  destruct (Hgen external initial_scan Hb ltac:(lia)) as [H1 H2]. split; [lia|done].
Qed.

(** What a set that is up to date watches. *)
Definition watches (w : Window) (m : TransparentMatcher Z) (f : Z) : Prop :=
  wi_scripts w = Some m ∧ wi_frontier w = Some f ∧ wi_set_dirty w = false ∧ tm_account m = account ∧
  initial_scan ≤ f ≤ 2 ^ 31 ∧
  (∀ rs r, receivers (wi_table w) account true = Some rs → r ∈ rs → r.1 ∈ tm_all m) ∧
  (∀ rs addr meta i, receivers (wi_table w) account false = Some rs → (addr, meta) ∈ rs → rm_index meta = Some i →
     rm_exposed meta = true → i < f) ∧
  (∀ k i addr, external_transparent_ivk (wi_table w) account = Some k → derive_address k i = Some addr →
     row_at (wi_table w) account i ∨ f ≤ i < Z.min (f + gap_limit) (2 ^ 31) → addr ∈ tm_all m) ∧
  (∀ k i addr, external_transparent_ivk (wi_table w) account = Some k → tm_lookahead m !! addr = Some i →
     derive_address k i = Some addr ∧ f ≤ i < f + gap_limit ∧ ¬ row_at (wi_table w) account i).

Lemma recorded_rows t external i :
  receivers t account false = Some external →
  (i ∈ omap (λ r : address * ReceiverMeta, rm_index r.2) external ↔ row_at t account i).
Proof.
  intros He. rewrite list_elem_of_omap. split.
  - intros ([addr m] & Hin & Hi). by exists external, addr, m.
  - intros (rs & addr & m & Hrs & Hin & Hi). rewrite He in Hrs. injection Hrs as <-. by exists (addr, m).
Qed.

Lemma rebuild_watches w : ∃ m f, watches (rebuild w) m f ∧ wi_table (rebuild w) = wi_table w.
Proof.
  destruct (tl_reads (wi_table w)) as (all & external & Ha & He & Hsub). unfold rebuild_transparent_set. rewrite Ha, He.
  destruct (frontier_spec external) as [Hf1 Hf2]; [intros addr m i Hin Hi; by destruct (tl_key _ _ _ _ _ He Hin Hi)|].
  set (f := frontier_of initial_scan external) in *. set (n := u32_sat_add f gap_limit - f).
  assert (f + n = Z.min (f + gap_limit) u32_max) as Hn by (unfold n, u32_sat_add; lia).
  set (base := list_to_set all.*1 : gset address).
  assert (∀ r, r ∈ all → r.1 ∈ base) as Hbase by (intros r Hr; apply elem_of_list_to_set, list_elem_of_fmap; eauto).
  destruct (external_transparent_ivk (wi_table w) account) as [k|] eqn:Ek.
  2: { eexists _, f. split; [|done]. unfold watches. cbn. rewrite ?Ha, ?He, ?Ek. split_and!; try done; try lia.
       - intros rs r [= <-]. by auto.
       - intros rs addr meta i [= <-]. by eauto.
     }
  destruct (lookahead_from k _ (seqZ f n) base ∅) as [al la] eqn:El.
  destruct (lookahead_spec _ _ _ _ _ _ _ El) as [Hall Hla].
  eexists _, f. split; [|done]. unfold watches. cbn. rewrite ?Ha, ?He, ?Ek. split_and!; try done; try lia.
  - intros rs r [= <-] Hr. apply Hall. by auto.
  - intros rs addr meta i [= <-]. by eauto.
  - intros k' i addr [= <-] Hd Hi. pose proof (recorded_rows (wi_table w) external i He) as Hrec.
    assert (row_at (wi_table w) account i → addr ∈ base) as Hrow.
    { intros (rs & addr' & m' & Hrs & Hin & Hidx). rewrite He in Hrs. injection Hrs as <-.
      destruct (tl_key _ _ _ _ _ He Hin Hidx) as [_ Hk']. rewrite (Hk' _ Ek) in Hd. injection Hd as ->.
      by apply (Hbase (addr, m')), Hsub. }
    destruct Hi as [Hi|Hi]; [by apply Hall, Hrow|].
    pose proof (lookahead_covers k (omap (λ r : address * ReceiverMeta, rm_index r.2) external) (seqZ f n) base ∅ i addr
                  (seqZ_sorted _ _)) as Hcov. rewrite El in Hcov. apply Hcov; [apply elem_of_seqZ; unfold u32_max in *; lia|lia|done|].
    intros Hr. by apply Hrow, Hrec.
  - intros k' i addr [= <-] Hl. destruct (Hla _ _ Hl) as [Hem|(Hi & Hr & Hd & _)]; [by rewrite lookup_empty in Hem|].
    apply elem_of_seqZ in Hi. split_and!; [done|lia|lia|]. intros Hrow. by apply Hr, (recorded_rows _ _ _ He).
Qed.

(** ** The passes before the scan *)

Definition on_table (f : table → table) (w : Window) : Window :=
  {| wi_table := f (wi_table w); wi_preexpose := wi_preexpose w; wi_preexposed := wi_preexposed w;
     wi_set_dirty := wi_set_dirty w; wi_unspent_dirty := wi_unspent_dirty w; wi_frontier := wi_frontier w;
     wi_scripts := wi_scripts w; wi_unspent := wi_unspent w |}.
(** Passes until one goes on to scan, the table being changed between them. *)
Fixpoint passes (between : list (table → table)) (w : Window) : option Window :=
  match prepare w with
  | (true, w) => Some w
  | (false, w) => match between with [] => None | f :: between => passes between (on_table f w) end
  end.

Definition cursor (w : Window) : Z := default (next_unexposed_external_index (wi_table w) account) (wi_preexpose w).
(** What is below the cursor has its rows. *)
Definition gap_free (w : Window) : Prop := recorded (wi_table w) 0 (cursor w).

Lemma cursor_nonneg w : (∀ d, wi_preexpose w = Some d → 0 ≤ d) → 0 ≤ cursor w.
Proof.
  unfold cursor. destruct (wi_preexpose w) as [d|]; simpl; [auto|]. intros _.
  unfold next_unexposed_external_index. destruct (receivers _ _ _) as [rs|]; [|done].
  induction (omap _ rs); simpl; lia.
Qed.

Section exposing.
Context (Hexposes : ∀ t i, 0 ≤ i < initial_scan →
  ∃ r t', Issue.get_address_for_index t account i transparent_extraction_request = (Ok r, t')).

Lemma expose_all_ok indices t :
  Forall (λ i, 0 ≤ i < initial_scan) indices → ∃ t', expose_all t account indices = Ok t'.
Proof.
  revert t. induction indices as [|i l IH]; intros t; simpl; [eauto|]. intros [Hi Hl]%Forall_cons.
  destruct (Hexposes t i Hi) as (r & t' & ->). by apply IH.
Qed.

Lemma chunk_spec w more w' :
  0 ≤ cursor w → gap_free w → chunk w = (more, w') →
  grows account (wi_table w) (wi_table w') ∧ wi_preexposed w' = wi_preexposed w ∧ wi_set_dirty w' = wi_set_dirty w ∧
  if more then wi_preexpose w' = Some (cursor w + 1000) ∧ cursor w + 1000 < initial_scan ∧ gap_free w'
  else recorded (wi_table w') 0 initial_scan.
Proof.
  intros Hc Hg. unfold preexpose_transparent_chunk. fold (cursor w).
  assert (match wi_preexpose w with Some done => done | None => next_unexposed_external_index (wi_table w) account end = cursor w)
    as -> by (unfold cursor; by destruct (wi_preexpose w)).
  destruct (initial_scan =? 0) eqn:E0.
  { intros [= <- <-]. split_and!; try done. intros k i _ Hi. lia. }
  destruct (initial_scan <=? cursor w) eqn:E1.
  { intros [= <- <-]. split_and!; try done. intros k i Hk Hi. apply Hg; [done|lia]. }
  assert (u32_sat_add (cursor w) TRANSPARENT_PREEXPOSE_CHUNK = cursor w + 1000) as ->
    by (unfold u32_sat_add, u32_max, TRANSPARENT_PREEXPOSE_CHUNK; lia).
  set (e := Z.min initial_scan (cursor w + 1000)).
  assert (Forall (λ i, 0 ≤ i < initial_scan) (seqZ (cursor w) (e - cursor w))) as Hr
    by (apply Forall_forall; intros i Hi%elem_of_seqZ; lia).
  destruct (expose_all_ok _ (wi_table w) Hr) as [t Ht]. cbn [wi_table with_progress]. rewrite Ht.
  destruct (expose_all_spec (seqZ (cursor w) (e - cursor w)) (wi_table w) t) as [Hgr Hrows];
    [apply (Forall_impl _ _ _ Hr); simpl; intros; lia|done|].
  assert (recorded t 0 e) as Hrec.
  { intros k i Hk Hi Hd. rewrite (proj2 Hgr) in Hk. destruct (Z_lt_le_dec i (cursor w)).
    - apply (proj1 Hgr). eapply Hg; [done|lia|done].
    - eapply Hrows; [done|apply elem_of_seqZ; lia|done]. }
  intros [= <- <-]. cbn. split_and!; try done. destruct (e <? initial_scan) eqn:Ee.
  - unfold e in *. split_and!; [f_equal; lia|lia|]. unfold gap_free, cursor. cbn. done.
  - replace initial_scan with e by lia. done.
Qed.

Lemma prepare_spec w more w' :
  0 ≤ cursor w → gap_free w → wi_preexposed w = false → prepare w = (more, w') →
  grows account (wi_table w) (wi_table w') ∧
  if more then recorded (wi_table w') 0 initial_scan ∧ wi_preexposed w' = true ∧ ∃ m f, watches w' m f
  else wi_preexposed w' = false ∧ wi_preexpose w' = Some (cursor w + 1000) ∧ cursor w + 1000 < initial_scan ∧ gap_free w'.
Proof.
  intros Hc Hg Hp. unfold prepare_transparent. rewrite Hp. destruct (chunk w) as [b w1] eqn:E.
  destruct (chunk_spec w b w1 Hc Hg E) as (H1 & H2 & H3 & H4). destruct b.
  - intros [= <- <-]. cbn. destruct H4 as (? & ? & ?). by split_and!.
  - cbn [with_flags negb wi_set_dirty]. set (w2 := with_flags w1 true true).
    destruct (rebuild_watches w2) as (m & f & Hw & Ht).
    assert (∀ w3, wi_table (rebuild_transparent_unspent w3) = wi_table w3 ∧ wi_preexposed (rebuild_transparent_unspent w3) = wi_preexposed w3 ∧
      ∀ m f, watches w3 m f → watches (rebuild_transparent_unspent w3) m f) as Hu.
    { intros w3. unfold rebuild_transparent_unspent. by destruct (unspent_transparent_outpoints _). }
    assert (wi_preexposed (rebuild w2) = true) as Hpre.
    { unfold rebuild_transparent_set. destruct (receivers _ _ true); [|done]. destruct (receivers _ _ false); [|done].
      by destruct (match external_transparent_ivk _ _ with Some _ => _ | None => _ end). }
    intros [= <- <-]. destruct (wi_unspent_dirty (rebuild w2)).
    + destruct (Hu (rebuild w2)) as (Ht3 & Hp3 & Hw3). rewrite Ht3, Hp3, Ht. cbn. split_and!; [done|done|done|]. exists m, f. auto.
    + rewrite Ht. cbn. split_and!; [done|done|done|]. eauto.
Qed.

Lemma passes_end between w :
  0 ≤ cursor w → gap_free w → wi_preexposed w = false → Forall (λ f : table → table, ∀ t, grows account t (f t)) between →
  initial_scan - cursor w ≤ 1000 * (Z.of_nat (length between) + 1) →
  ∃ w', passes between w = Some w' ∧ grows account (wi_table w) (wi_table w') ∧ recorded (wi_table w') 0 initial_scan ∧
        wi_preexposed w' = true ∧ ∃ m f, watches w' m f.
Proof.
  revert w. induction between as [|g between IH]; intros w Hc Hg Hp Hb Hlen;
    (destruct (prepare w) as [[|] w'] eqn:E; destruct (prepare_spec w _ w' Hc Hg Hp E) as [H1 H2]; cbn; rewrite E).
  - destruct H2 as (? & ? & ?). exists w'. by split_and!.
  - cbn in Hlen. destruct H2 as (_ & _ & ? & _). lia.
  - destruct H2 as (? & ? & ?). exists w'. by split_and!.
  - destruct H2 as (Hp' & Hcur & Hlt & Hg'). apply Forall_cons in Hb as [Hgw Hb].
    assert (cursor (on_table g w') = cursor w + 1000) as Hc' by (unfold cursor, on_table; cbn; by rewrite Hcur).
    destruct (IH (on_table g w')) as (w'' & HP & Hgr & Hrest).
    + lia.
    + unfold gap_free. rewrite Hc'. cbn. eapply recorded_grows; [apply Hgw|].
      unfold gap_free, cursor in Hg'. by rewrite Hcur in Hg'.
    + done.
    + done.
    + rewrite length_cons in Hlen. lia.
    + exists w''. split; [done|]. split; [|done]. eapply grows_trans; [done|]. eapply grows_trans; [apply Hgw|done].
Qed.
End exposing.

(** Once the window is exposed, every pass scans with a set that is up to date. *)
Lemma pass_watches w :
  wi_preexposed w = true → wi_set_dirty w = true ∨ (∃ m f, watches w m f) →
  ∃ w' m f, prepare w = (true, w') ∧ wi_table w' = wi_table w ∧ watches w' m f.
Proof.
  intros Hp Hw. unfold prepare_transparent. rewrite Hp.
  assert (∃ w1 m f, (if wi_set_dirty w then rebuild w else w) = w1 ∧ wi_table w1 = wi_table w ∧ watches w1 m f)
    as (w1 & m & f & -> & Ht & Hm).
  { destruct (wi_set_dirty w) eqn:E.
    - destruct (rebuild_watches w) as (m & f & ? & ?). eauto 8.
    - destruct Hw as [?|(m & f & Hm)]; [done|]. eauto 8. }
  destruct (wi_unspent_dirty w1); [|by exists w1, m, f].
  exists (rebuild_transparent_unspent w1), m, f. unfold rebuild_transparent_unspent.
  by destruct (unspent_transparent_outpoints (wi_table w1)).
Qed.

(** C15. What a wallet hands out, it watches. When every index of the window derives an address and
    the table has no hole below where the exposing starts, whatever is recorded between the passes, at most one pass per thousand addresses comes
    before the one that scans; and that one matches blocks against every receiver recorded, every
    address of the restore window, every address ever handed out and the gap of addresses past the
    frontier, each of these with its index if it has no row yet. From then on every pass scans, and
    with such a set if the set was marked stale or was one; and handing out an address marks it
    stale, so the next pass watches it and has its frontier past it. *)
Theorem window_is_watched `{CD : AddressCodec} (w : Window) (between : list (table → table)) :
  (∀ t i, 0 ≤ i < initial_scan →
     ∃ r t', Issue.get_address_for_index t account i transparent_extraction_request = (Ok r, t')) →
  wi_preexposed w = false → (∀ d, wi_preexpose w = Some d → 0 ≤ d) → gap_free w →
  Forall (λ f : table → table, ∀ t, grows account t (f t)) between →
  initial_scan ≤ 1000 * (Z.of_nat (length between) + 1) →
  (∃ w' m f, passes between w = Some w' ∧ wi_preexposed w' = true ∧ watches w' m f ∧
     ∀ k i addr, external_transparent_ivk (wi_table w') account = Some k → derive_address k i = Some addr →
       0 ≤ i < initial_scan → addr ∈ tm_all m) ∧
  (∀ w1, wi_preexposed w1 = true → wi_set_dirty w1 = true ∨ (∃ m f, watches w1 m f) →
     ∃ w2 m f, prepare w1 = (true, w2) ∧ watches w2 m f) ∧
  (∀ a index s a' w1,
     expose_transparent_index a account index = (Ok s, a') → 0 ≤ index < 2 ^ 31 →
     wi_preexposed w1 = true → wi_table w1 = is_table a' → wi_set_dirty w1 = is_set_dirty a' →
     ∃ w2 m f addr, prepare w1 = (true, w2) ∧ watches w2 m f ∧ addr ∈ tm_all m ∧ index < f ∧
       ∀ k, external_transparent_ivk (wi_table w2) account = Some k → derive_address k index = Some addr).
Proof.
  intros Hx Hp Hd Hg Hb Hlen. split_and!.
  - pose proof (cursor_nonneg w Hd).
    destruct (passes_end Hx between w) as (w' & HP & _ & Hrec & Hp' & m & f & Hw); [done..|lia|].
    exists w', m, f. split_and!; [done..|]. intros k i addr Hk Ha Hi.
    destruct Hw as (_ & _ & _ & _ & _ & _ & _ & Hcov & _). eapply Hcov; [done|done|left]. eapply Hrec; eauto.
  - intros w1 Hp1 Hw1. destruct (pass_watches w1 Hp1 Hw1) as (w2 & m & f & ? & _ & ?). eauto.
  - intros a index s a' w1 He Hi Hp1 Ht Hs. unfold expose_transparent_index in He.
    case_match; [done|]. pose proof (tl_expose (is_table a) index Hi) as Hl.
    destruct (Issue.get_address_for_index (is_table a) account index _) as [[[ua|]|] t] eqn:E; simplify_eq/=.
    destruct Hl as [_ (rs & addr & meta & Hrs & Hin & Hidx & Hexp)].
    destruct (pass_watches w1 Hp1 ltac:(by left)) as (w2 & m & f & H3 & H4 & H5).
    pose proof H5 as (_ & _ & _ & _ & _ & G6 & G7 & _). rewrite H4 in G6, G7.
    exists w2, m, f, addr. split_and!; [done|done| |by eapply G7|].
    + destruct (tl_reads (wi_table w1)) as (all & ext & Ha & He' & Hsub). rewrite Hrs in He'. injection He' as <-.
      by apply (G6 all (addr, meta)); [|apply Hsub].
    + rewrite H4. by destruct (tl_key _ _ _ _ _ Hrs Hin Hidx).
Qed.
End window.

(** ** The mempool's receives are the block scan's *)

Section receives.
Context `{RangeOps} {client db error account chain_state : Type}
        `{B : !Backend client db error account chain_state}.

(** A transaction's outputs as a block carries them, the coinbase's apart. *)
Definition as_utxos (tx : txid) (vout : list (Z * string)) (height : option Z) : list BlockUtxo :=
  imap (λ index (o : Z * string),
    {| u_txid := tx; u_index := Z.of_nat index; u_value_zat := o.1; u_script := o.2; u_height := height;
       u_coinbase_tx := None; u_coinbase := false |}) vout.
Abbreviation matched all us := (dp_received (foldl (match_output max_money recipient_of all) (empty_progress None) us)).

Lemma matched_app all p us :
  dp_received (foldl (match_output max_money recipient_of all) p us)
  = dp_received p ++ dp_received (foldl (match_output max_money recipient_of all) (empty_progress None) us).
Proof.
  revert p. induction us as [|u us IH]; intros p; simpl; [by rewrite app_nil_r|].
  rewrite IH. rewrite (IH (match_output _ _ all (empty_progress None) u)).
  assert (dp_received (match_output max_money recipient_of all p u)
          = dp_received p ++ dp_received (match_output max_money recipient_of all (empty_progress None) u)) as ->.
  { unfold match_output. destruct (owned_transparent_output _ _ _ _ _ _ _ _); [done|]. by rewrite app_nil_r. }
  by rewrite app_assoc.
Qed.

Lemma record_output_receive (m : TransparentMatcher account) (st : Recording) mr o :
  mr_coinbase_tx mr = None → mr_coinbase mr = false → o = (mr_output mr, lookahead_index m (wo_recipient (mr_output mr))) →
  let st' := record_receive (Some m) st mr in
  record_output (tm_account m) (rec_db st, rec_count st) o = (rec_db st', rec_count st').
Proof.
  intros Hc1 Hc2 ->. unfold record_receive, record_output, record_coinbase. cbn.
  destruct (lookahead_index m _) as [i|].
  - destruct (get_address_for_index _ _ _) as [d [r|e]]; cbn; [|done].
    destruct (put_received_transparent_utxo d _) as [d' [r'|e']]; cbn; [|done]. by rewrite Hc1, Hc2.
  - destruct (put_received_transparent_utxo _ _) as [d' [r'|e']]; cbn; [|done]. by rewrite Hc1, Hc2.
Qed.

Lemma owned_are_matched (m : TransparentMatcher account) tx vout h n :
  omap id (imap (λ index (o : Z * string),
    out ← owned_transparent_output max_money recipient_of (tm_all m) tx (Z.of_nat (n + index)) o.1 o.2 h;
    Some (out, lookahead_index m (wo_recipient out))) vout)
  = (λ mr, (mr_output mr, lookahead_index m (wo_recipient (mr_output mr)))) <$>
      matched (tm_all m) (imap (λ index (o : Z * string),
        {| u_txid := tx; u_index := Z.of_nat (n + index); u_value_zat := o.1; u_script := o.2; u_height := h;
           u_coinbase_tx := None; u_coinbase := false |}) vout).
Proof.
  revert n. induction vout as [|o vout IH]; intros n; [done|]. cbn [imap foldl]. rewrite matched_app, fmap_app.
  specialize (IH (S n)). rewrite Nat.add_0_r.
  assert (∀ {A} (f : nat → Z * string → A), imap ((λ i, f (n + i)%nat) ∘ S) vout = imap (λ i, f (S n + i)%nat) vout) as Hs.
  { intros A f. apply imap_ext. intros i x _. cbn. f_equal. lia. }
  rewrite (Hs _ (λ index (o : Z * string),
    out ← owned_transparent_output max_money recipient_of (tm_all m) tx (Z.of_nat index) o.1 o.2 h;
    Some (out, lookahead_index m (wo_recipient out)))).
  rewrite (Hs _ (λ index (o : Z * string),
        {| u_txid := tx; u_index := Z.of_nat index; u_value_zat := o.1; u_script := o.2; u_height := h;
           u_coinbase_tx := None; u_coinbase := false |})).
  rewrite <- IH. unfold match_output at 1. cbn.
  destruct (owned_transparent_output _ _ _ _ _ _ _ _); done.
Qed.
Lemma matched_plain all tx vout h mr :
  mr ∈ matched all (as_utxos tx vout h) → mr_coinbase_tx mr = None ∧ mr_coinbase mr = false.
Proof.
  unfold as_utxos. generalize (λ i : nat, i). intros _. revert mr. generalize 0%nat.
  assert (∀ us, (∀ u, u ∈ us → u_coinbase_tx u = None ∧ u_coinbase u = false) →
    ∀ mr, mr ∈ matched all us → mr_coinbase_tx mr = None ∧ mr_coinbase mr = false) as Hg.
  { induction us as [|u us IH]; intros Hu mr; cbn [foldl]; [intros Hin; by apply elem_of_nil in Hin|].
    rewrite matched_app. intros [Hin|Hin]%elem_of_app; [|apply IH; [|done]; intros; apply Hu; by right].
    unfold match_output in Hin. destruct (owned_transparent_output _ _ _ _ _ _ _ _); cbn in Hin;
      [|by apply elem_of_nil in Hin]. apply list_elem_of_singleton in Hin as ->. cbn. apply Hu. by left. }
  intros _ mr. apply Hg. intros u Hu. apply elem_of_lookup_imap in Hu as (i & o & -> & _). done.
Qed.

(** A transparent payment seen in the mempool is recorded exactly as the block scan records it:
    the same outputs, matched against the same addresses, their rows first where they have none,
    leaving the same database and the same count. *)
Theorem mempool_matches_like_the_scan (m : TransparentMatcher account) (st : Recording) tx vout height :
  rec_count st = 0 →
  let st' := foldl (record_receive (Some m)) st (matched (tm_all m) (as_utxos tx vout height)) in
  record_tx_transparent_receives true (Some m) (rec_db st) tx (Some vout) height = (rec_db st', rec_count st').
Proof.
  intros H0. unfold record_tx_transparent_receives. cbn [negb].
  pose proof (owned_are_matched m tx vout height 0) as Ho. fold (as_utxos tx vout height) in Ho. cbn [Nat.add] in Ho.
  unfold owned_outputs. rewrite Ho, <- H0. fold (as_utxos tx vout height). pose proof (matched_plain (tm_all m) tx vout height) as Hp. revert Hp.
  generalize (matched (tm_all m) (as_utxos tx vout height)). clear H0 Ho. intros l. revert st.
  induction l as [|mr l IH]; intros st Hp; [done|]. cbn.
  destruct (Hp mr ltac:(by left)) as [Hc1 Hc2]. rewrite (record_output_receive m st mr _ Hc1 Hc2 eq_refl). apply IH.
  intros mr' Hin. apply Hp. by right.
Qed.
End receives.

(** A payment of 5 to an address of the lookahead, and one to a stranger: one is recorded, after its
    address; the database counts the calls. *)
Lemma mempool_matches_like_the_scan_witness :
  let B := {| compact_block_range := flaky; tree_state c h := (c, Ok tt); fetch_tx c _ := (c, Ok None);
              is_h2_load_shed _ := true; with_context e _ := e; suggest_scan_ranges d := Ok [];
              scan_cached_blocks d _ _ _ _ := (d, ScanContinuity 80); truncate_to_height := demo_trunc;
              put_received_transparent_utxo d _ := (d + 1, Ok tt);
              Engine.get_address_for_index d _ i := (d + 100 * i, Ok tt); read_transaction s _ := Ok s;
              decrypt_and_store_transaction d _ _ := (d, Ok tt); max_money := 21; recipient_of := Some |} in
  let m := {| tm_account := tt; tm_all := {["t1"]}; tm_lookahead := {["t1" := 7]} |} in
  record_tx_transparent_receives (B := B) true (Some m) 0 "aa" (Some [(5, "t1"); (4, "t9")]) None = (701, 1).
Proof.
  intros B m.
  rewrite (mempool_matches_like_the_scan (B := B) m
    {| rec_client := 0%nat; rec_db := 0; rec_count := 0; rec_coinbase_stored := ∅ |} "aa" [(5, "t1"); (4, "t9")] None
    eq_refl).
  vm_compute. reflexivity.
Defined.

(** ** A concrete table *)

Module WindowExample.

(** The rows, newest first; an address is its index's numeral. *)
Definition rows : Type := list (Z * bool).
Definition ua_at (i : Z) : UnifiedAddress :=
  {| ua_orchard := None; ua_sapling := None; ua_transparent := Some (Address.PublicKeyHash (dec i)) |}.
#[local] Instance toy_table : AddressTable := {|
  table := rows;
  get_next_available_address t a r := (Err (NextFailed "exhausted"), t);
  Issue.get_address_for_index t a i r := (Ok (Some (ua_at i)), (i, true) :: t);
  get_transparent_receivers t a := Some ((λ r : Z * bool, (r.2, Some r.1)) <$> t) |}.
Definition in_range (t : rows) : rows := List.filter (λ r : Z * bool, (0 <=? r.1) && (r.1 <? 2 ^ 31)) t.
#[local] Instance toy_library : TransparentLibrary := {|
  receivers t a change := Some ((λ r : Z * bool, (dec r.1, {| rm_exposed := r.2; rm_index := Some r.1 |})) <$> in_range t);
  ivk := ();
  external_transparent_ivk t a := Some tt;
  derive_address k i := Some (dec i);
  unspent_transparent_outpoints t := Some ∅ |}.
#[local] Instance window_codec : AddressCodec := {|
  from_receivers o s t := Some {| ua_orchard := o; ua_sapling := s; ua_transparent := t |};
  can_receive_as a p := true; decode_address n s := None; is_encoded_address s := true;
  encode_address n a := match a with AddrTransparent (Address.PublicKeyHash h) => h | _ => "" end; hash_hex s := s |}.

Lemma in_range_row (t : rows) i : row_at t 0 i ↔ i ∈ (in_range t).*1.
Proof.
  rewrite list_elem_of_fmap. split.
  - intros (rs & addr & m & [= <-] & Hin & Hi). apply list_elem_of_fmap in Hin as (r & [= -> ->] & Hr).
    injection Hi as <-. eauto.
  - intros (r & -> & Hr). eexists _, _, _. split; [reflexivity|]. split; [apply list_elem_of_fmap; eauto|done].
Qed.
Lemma in_range_bound t r : r ∈ in_range t → 0 ≤ r.1 < 2 ^ 31.
Proof. unfold in_range. rewrite elem_of_filter_bool. lia. Qed.
Lemma in_range_cons r t : 0 ≤ r.1 < 2 ^ 31 → in_range (r :: t) = r :: in_range t.
Proof. intros H. unfold in_range. cbn. by assert ((0 <=? r.1) && (r.1 <? 2 ^ 31) = true) as -> by lia. Qed.
Lemma adding_grows (t : rows) i : 0 ≤ i < 2 ^ 31 → grows 0 t ((i, true) :: t).
Proof. intros Hi. split; [|done]. intros j. rewrite !in_range_row.
  pose proof (in_range_cons (i, true) t Hi) as E. cbn in E |- *. rewrite E. cbn. set_solver.
Qed.

#[local] Instance window_laws : TransparentLaws 0.
Proof.
  split.
  - intros t. eexists _, _. split; [reflexivity|]. by split; [reflexivity|].
  - intros t rs addr m i [= <-] Hin Hi. apply list_elem_of_fmap in Hin as (r & [= -> ->] & Hr). injection Hi as <-.
    split; [by apply in_range_bound in Hr|]. by intros k _.
  - intros t i Hi. cbn. split; [by apply adding_grows|].
    eexists _, (dec i), {| rm_exposed := true; rm_index := Some i |}. cbn.
    split; [reflexivity|]. split; [|done]. pose proof (in_range_cons (i, true) t Hi) as E. cbn in E |- *. rewrite E. by left.
Qed.

(** A new wallet, and one whose index 5 was handed out before its first pass. *)
Definition start (t : rows) : Window :=
  {| wi_table := t; wi_preexpose := None; wi_preexposed := false; wi_set_dirty := true; wi_unspent_dirty := true;
     wi_frontier := None; wi_scripts := None; wi_unspent := None |}.
Lemma window_is_watched_witness :
  ∃ w m, passes 0 1500 20 [cons (40, true)] (start []) = Some w ∧ wi_scripts w = Some m ∧ "1499" ∈ tm_all m.
Proof.
  assert (∀ t : rows, grows 0 t ((40, true) :: t)) as Hadd by (intros t; by apply adding_grows).
  destruct (window_is_watched 0 1500 20 ltac:(done) ltac:(done) (start []) [cons (40, true)]) as ((w & m & f & H1 & _ & H2 & H3) & _).
  - intros t i _. cbn. eauto.
  - done.
  - done.
  - intros k i _ Hi. unfold cursor in Hi. cbn in Hi. lia.
  - by apply Forall_singleton.
  - cbn. lia.
  - exists w, m. split; [done|]. split; [by destruct H2|]. apply (H3 tt 1499 "1499"); [reflexivity|vm_compute; reflexivity|lia].
Defined.
Lemma early_issue_leaves_a_hole :
  match passes 0 8 2 [] (start [(5, true)]) with
  | Some w => match wi_scripts w with
              | Some m => bool_decide ("3" ∈ tm_all m) = false ∧ bool_decide ("5" ∈ tm_all m) = true
              | None => False
              end
  | None => False
  end.
Proof. vm_compute. done. Qed.
End WindowExample.
