(* ===== verification/Actor.v ===== *)
(** * Actor: a wallet's loop ([src/src/wallet/actor.rs])

    The task that owns a wallet database: it connects, refuses an upstream it cannot trust, follows
    the tip, scans a batch at a time, services commands between batches, and waits out a backoff
    after a failure. What it does in a batch is [Engine]'s, in the transparent window [Window]'s,
    in a command mostly other files'. The upstream's and the system's answers are a stream, one for
    each call, and the requests that use a connection are listed as the actor makes them. *)

From S2P Require Import Issue.
From S2P Require Export Window Upstream.
From S2P Require Import Pacing Spend Network ChainRpc.

(** In nanoseconds. *)
Definition SYNC_ERROR_RETRY_INTERVAL : Z := 2 * 1000000000.

(** ** The calls the actor makes *)

(** On a connection: an error is also a call's timeout. *)
Class ActorSource (conn error : Type) := {
  server_info : conn → conn * result error ServerInfo;
  refresh_server_info : conn → conn * result error ServerInfo;
  block_scan_covers_transparent : conn → bool;
  (** By pool, Sapling first: root hashes with the heights that complete them. *)
  subtree_roots : conn → bool → conn * result error (list (string * Z));
  latest_block : conn → conn * result error (Z * string);
  subscribe_mempool : conn → conn * result error ();
  broadcast_tx : conn → string → conn * result error BroadcastOutcome;
  (** [anyhow!] and [Display]. *)
  anyhow : string → error;
  display : error → string;
}.
(** On the wallet's database. *)
Class ActorDb (T error node : Type) := {
  read_node : bool → string → result error node;
  put_subtree_roots : T → bool → list (Z * node) → T * result error ();
  update_chain_tip : T → Z → T * result error ();
  block_fully_scanned : T → option Z;
  unmined_raw_txs : T → Z → option (list (txid * string));
  stored_transaction : T → txid → option (result string string);
  tx_vout : txid → option (list (Z * string));
  tx_exists : T → txid → bool;
  unmined_txids : T → option (list txid);
}.
(** The actor's other parts, as this one sees them: creating the account at a birthday with the tree
    state below it ([Keys.v]), one pass of the enhancement drain, with whether more is left and
    whether it lost the connection ([Enhance.v]), building and storing a send ([Spend.v]), and the
    commands that use nothing but the wallet's own state. *)
(** The account adopted, left unadopted for good, or still to be created. *)
Inductive Creation := Adopted (account : Z) | Disowned | NotCreated.
Class ActorParts (T conn chain_state : Type) := {
  create_account : T → Z → chain_state → Z → T * Creation;
  enhance : T → Z → conn → T * (bool * bool);
  build_send : T → T * rpc string;
  local_command : Type;
  run_local : local_command → T → T;
}.
(** What is read from outside, by the number of reads before: the clock, the backoff's draw, the
    hub's answer to [acquire], and what a finished download of a range left. *)
Record Outside `{RangeOps} (conn error : Type) := {
  clock : nat → Z; draw : nat → Z; acquire : nat → result error conn; finished : nat → ScanRange → option Prefetched;
}.
Arguments clock {_ conn error} _ _.
Arguments draw {_ conn error} _ _.
Arguments acquire {_ conn error} _ _.
Arguments finished {_ conn error} _ _ _.

Record ActorConfig := {
  wc_network : ZNetwork; wc_transparent_enabled : bool; wc_initial_scan : Z; wc_gap_limit : Z; wc_batch_size : Z;
  wc_sync_interval : Z; wc_rebroadcast_interval : Z; wc_max_send_catchup_blocks : Z;
}.

(** What a connection is used for once its node is trusted; and the record of it: the hub handing a
    client out, the server's answer that passed the guards, the subtree roots and the tip asked for,
    the answer read again at an activation height, a tip taken, each use with the height of the tip
    known then, and a transaction read from the mempool's stream. *)
Inductive Use := UseScan | UseTreeState | UseFetch (t : txid) | UseBroadcast (data : string) | UseMempool | UseEnhance.
Inductive Event :=
  | Dialed
  | Vetted (info : ServerInfo) (covers : bool)
  | SeededRoots
  | AskedTip
  | Reread (info : ServerInfo)
  | Refreshed (tip : Z)
  | Used (u : Use) (tip : option Z)
  | HeardMempool.

Section actor.
Context `{RangeOps} `{AT : AddressTable} `{TL : !TransparentLibrary} {conn error chain_state node : Type}
        `{B : !Backend conn table error Z chain_state}.

(** ** The state *)

(** The connection: the client the hub handed out, whether it was announced, whether the mempool is
    subscribed, when to dial again, and whether the subtree roots were fetched. *)
Record Link := {
  l_client : option conn; l_logged : bool; l_mempool : bool; l_reconnect_at : Z; l_backoff : Backoff.t; l_roots : bool;
}.
(** What the upstream last said: its tip, the findings about its upgrades and when they were made. *)
Record View := {
  v_tip_height : option Z; v_tip_hash : option string; v_unsupported : list UnsupportedUpgrade;
  v_refusal : option string; v_branch_checked_at : option Z;
}.
(** The last failure with its streak, whether sync is halted, and whether a pass was asked for. *)
Record Trouble := { t_last_sync_error : option string; t_streak : Z; t_halted : bool; t_force_sync : bool }.
(** The database with the transparent window, the account, the birthday of one still to be created
    and whether its key is at hand, and what a batch leaves for the next. *)
Record Scan := {
  s_window : Window; s_account : option Z; s_pending_bootstrap : option (Z * bool); s_reorg_margin : Z;
  s_prefetch : option ScanRange; s_last_rebroadcast : option Z; s_first_seen : gmap txid Z;
}.
Record WalletActor := {
  wa_link : Link; wa_view : View; wa_trouble : Trouble; wa_scan : Scan;
  (** How often the outside was read, and the record of the connections' uses, newest first. *)
  wa_reads : nat; wa_log : list Event;
}.
Definition on_link (f : Link → Link) (a : WalletActor) : WalletActor :=
  {| wa_link := f (wa_link a); wa_view := wa_view a; wa_trouble := wa_trouble a; wa_scan := wa_scan a;
     wa_reads := wa_reads a; wa_log := wa_log a |}.
Definition on_view (f : View → View) (a : WalletActor) : WalletActor :=
  {| wa_link := wa_link a; wa_view := f (wa_view a); wa_trouble := wa_trouble a; wa_scan := wa_scan a;
     wa_reads := wa_reads a; wa_log := wa_log a |}.
Definition on_trouble (f : Trouble → Trouble) (a : WalletActor) : WalletActor :=
  {| wa_link := wa_link a; wa_view := wa_view a; wa_trouble := f (wa_trouble a); wa_scan := wa_scan a;
     wa_reads := wa_reads a; wa_log := wa_log a |}.
Definition on_scan (f : Scan → Scan) (a : WalletActor) : WalletActor :=
  {| wa_link := wa_link a; wa_view := wa_view a; wa_trouble := wa_trouble a; wa_scan := f (wa_scan a);
     wa_reads := wa_reads a; wa_log := wa_log a |}.
Definition reading (a : WalletActor) : WalletActor :=
  {| wa_link := wa_link a; wa_view := wa_view a; wa_trouble := wa_trouble a; wa_scan := wa_scan a;
     wa_reads := S (wa_reads a); wa_log := wa_log a |}.
Definition note (e : Event) (a : WalletActor) : WalletActor :=
  {| wa_link := wa_link a; wa_view := wa_view a; wa_trouble := wa_trouble a; wa_scan := wa_scan a;
     wa_reads := wa_reads a; wa_log := e :: wa_log a |}.
Definition use_link (u : Use) (a : WalletActor) : WalletActor := note (Used u (v_tip_height (wa_view a))) a.

Definition set_client (c : option conn) (l : Link) : Link :=
  {| l_client := c; l_logged := l_logged l; l_mempool := l_mempool l; l_reconnect_at := l_reconnect_at l;
     l_backoff := l_backoff l; l_roots := l_roots l |}.
Definition set_mempool (m : bool) (l : Link) : Link :=
  {| l_client := l_client l; l_logged := l_logged l; l_mempool := m; l_reconnect_at := l_reconnect_at l;
     l_backoff := l_backoff l; l_roots := l_roots l |}.
Definition set_roots (r : bool) (l : Link) : Link :=
  {| l_client := l_client l; l_logged := l_logged l; l_mempool := l_mempool l; l_reconnect_at := l_reconnect_at l;
     l_backoff := l_backoff l; l_roots := r |}.
Definition set_reconnect_at (t : Z) (l : Link) : Link :=
  {| l_client := l_client l; l_logged := l_logged l; l_mempool := l_mempool l; l_reconnect_at := t;
     l_backoff := l_backoff l; l_roots := l_roots l |}.
Definition set_backoff (b : Backoff.t) (l : Link) : Link :=
  {| l_client := l_client l; l_logged := l_logged l; l_mempool := l_mempool l; l_reconnect_at := l_reconnect_at l;
     l_backoff := b; l_roots := l_roots l |}.
Definition set_logged (b : bool) (l : Link) : Link :=
  {| l_client := l_client l; l_logged := b; l_mempool := l_mempool l; l_reconnect_at := l_reconnect_at l;
     l_backoff := l_backoff l; l_roots := l_roots l |}.
Definition set_tip (t : Z) (v : View) : View :=
  {| v_tip_height := Some t; v_tip_hash := v_tip_hash v; v_unsupported := v_unsupported v; v_refusal := v_refusal v;
     v_branch_checked_at := v_branch_checked_at v |}.
Definition set_tip_hash (h : string) (v : View) : View :=
  {| v_tip_height := v_tip_height v; v_tip_hash := Some h; v_unsupported := v_unsupported v; v_refusal := v_refusal v;
     v_branch_checked_at := v_branch_checked_at v |}.
Definition set_findings (l : list UnsupportedUpgrade) (at_ : option Z) (v : View) : View :=
  {| v_tip_height := v_tip_height v; v_tip_hash := v_tip_hash v; v_unsupported := l; v_refusal := v_refusal v;
     v_branch_checked_at := at_ |}.
Definition set_refusal (r : option string) (v : View) : View :=
  {| v_tip_height := v_tip_height v; v_tip_hash := v_tip_hash v; v_unsupported := v_unsupported v; v_refusal := r;
     v_branch_checked_at := v_branch_checked_at v |}.
Definition set_failures (l : option string) (n : Z) (t : Trouble) : Trouble :=
  {| t_last_sync_error := l; t_streak := n; t_halted := t_halted t; t_force_sync := t_force_sync t |}.
Definition set_halted (b : bool) (t : Trouble) : Trouble :=
  {| t_last_sync_error := t_last_sync_error t; t_streak := t_streak t; t_halted := b; t_force_sync := t_force_sync t |}.
Definition set_force_sync (b : bool) (t : Trouble) : Trouble :=
  {| t_last_sync_error := t_last_sync_error t; t_streak := t_streak t; t_halted := t_halted t; t_force_sync := b |}.
Definition set_window (w : Window) (s : Scan) : Scan :=
  {| s_window := w; s_account := s_account s; s_pending_bootstrap := s_pending_bootstrap s; s_reorg_margin := s_reorg_margin s;
     s_prefetch := s_prefetch s; s_last_rebroadcast := s_last_rebroadcast s; s_first_seen := s_first_seen s |}.
Definition set_account (account : option Z) (pending : option (Z * bool)) (s : Scan) : Scan :=
  {| s_window := s_window s; s_account := account; s_pending_bootstrap := pending; s_reorg_margin := s_reorg_margin s;
     s_prefetch := s_prefetch s; s_last_rebroadcast := s_last_rebroadcast s; s_first_seen := s_first_seen s |}.
Definition set_pass (margin : Z) (prefetch : option ScanRange) (s : Scan) : Scan :=
  {| s_window := s_window s; s_account := s_account s; s_pending_bootstrap := s_pending_bootstrap s; s_reorg_margin := margin;
     s_prefetch := prefetch; s_last_rebroadcast := s_last_rebroadcast s; s_first_seen := s_first_seen s |}.
Definition set_mempool_seen (rebroadcast : option Z) (seen : gmap txid Z) (s : Scan) : Scan :=
  {| s_window := s_window s; s_account := s_account s; s_pending_bootstrap := s_pending_bootstrap s;
     s_reorg_margin := s_reorg_margin s; s_prefetch := s_prefetch s; s_last_rebroadcast := rebroadcast; s_first_seen := seen |}.
Definition set_table (t : table) (w : Window) : Window :=
  {| wi_table := t; wi_preexpose := wi_preexpose w; wi_preexposed := wi_preexposed w; wi_set_dirty := wi_set_dirty w;
     wi_unspent_dirty := wi_unspent_dirty w; wi_frontier := wi_frontier w; wi_scripts := wi_scripts w; wi_unspent := wi_unspent w |}.
Definition set_dirty (scripts unspent : bool) (w : Window) : Window :=
  {| wi_table := wi_table w; wi_preexpose := wi_preexpose w; wi_preexposed := wi_preexposed w; wi_set_dirty := scripts;
     wi_unspent_dirty := unspent; wi_frontier := wi_frontier w; wi_scripts := wi_scripts w; wi_unspent := wi_unspent w |}.
Definition database (a : WalletActor) : table := wi_table (s_window (wa_scan a)).
Definition set_database (t : table) : WalletActor → WalletActor := on_scan (λ s, set_window (set_table t (s_window s)) s).

(** ** The upstream *)

Context `{HC : HexCodec} `{SRC : !ActorSource conn error} `{DB : !ActorDb table error node} `{PT : !ActorParts table conn chain_state}.
Context (activation : NetworkUpgrade → option Z) (branch_code : BranchId → Z) (branch_of : Z → option BranchId)
        (for_height : Z → BranchId).
Context (cfg : ActorConfig) (W : Outside conn error).

Definition read_clock (a : WalletActor) : Z * WalletActor := (clock W (wa_reads a), reading a).
Definition has_account (a : WalletActor) : bool := is_some (s_account (wa_scan a)).
(** The connection after a call on it, and the database. *)
Definition called (c : conn) (a : WalletActor) : WalletActor := on_link (set_client (Some c)) a.

Definition mark_disconnected (a : WalletActor) : WalletActor :=
  let '(b, delay) := Backoff.next_delay (l_backoff (wa_link a)) (draw W (wa_reads a)) in
  let '(now, a) := read_clock (on_link (set_backoff b ∘ set_client None) a) in
  on_link (set_logged false ∘ set_reconnect_at (now + delay)) a.

Definition upstream_refusal_message (u : UnsupportedUpgrade) : string :=
  "the upstream node has not adopted network upgrade '" +:+ sanitize_upstream_msg (uu_name u) +:+ "' (consensus branch 0x"
  +:+ hex_pad 8 (uu_branch_id u) +:+ "), which this zecd build activates"
  +:+ match uu_activation_height u with Some h => " at height " +:+ dec h | None => "" end
  +:+ ": past that height the node follows the old rules on a chain the network abandoned, so this wallet will not sync "
  +:+ "against it. " +:+ NODE_UPGRADE_GUIDANCE.
Definition refuse_stale_upstream (a : WalletActor) : option string * WalletActor :=
  let v := wa_view a in
  let refusal := upstream_refusal_message <$> upstream_not_upgraded (v_unsupported v) (v_tip_height v) in
  (refusal, on_view (set_refusal refusal) a).
(** The findings of an answer. *)
Definition found (info : ServerInfo) : list UnsupportedUpgrade :=
  unsupported_upgrades activation branch_code branch_of for_height info.
Definition take_findings (info : ServerInfo) (a : WalletActor) : WalletActor :=
  let at_ := match tip_height info with Some t => Some t | None => v_tip_height (wa_view a) end in
  on_view (set_findings (found info) at_) a.

Fixpoint read_roots (pool : bool) (roots : list (string * Z)) : result error (list (Z * node)) :=
  match roots with
  | [] => Ok []
  | (hash, height) :: roots =>
      match read_node (T := table) pool hash with
      | Err e => Err e
      | Ok n => match read_roots pool roots with Ok rest => Ok ((height, n) :: rest) | Err e => Err e end
      end
  end.
(** The roots of one pool, in the database. *)
Definition update_pool_roots (pool : bool) (c : conn) (t : table) : conn * table * result error () :=
  match subtree_roots c pool with
  | (c, Err e) => (c, t, Err e)
  | (c, Ok roots) =>
      match read_roots pool roots with
      | Err e => (c, t, Err e)
      | Ok roots => let '(t, r) := put_subtree_roots t pool roots in (c, t, r)
      end
  end.
Definition update_subtree_roots (c : conn) (t : table) : conn * table * result error () :=
  match update_pool_roots true c t with
  | (c, t, Ok _) => update_pool_roots false c t
  | failed => failed
  end.

Definition capability_refusal : string :=
  "this wallet has transparent receiving enabled ([pools] transparent = true), but the upstream lightwalletd does not "
  +:+ "advertise that it serves transparent data in compact blocks. Transparent receives would never be discovered. "
  +:+ "lightwalletd 0.5.4 and later advertise it; 0.5.0-0.5.3 serve the data without saying so, and on those set [backend] "
  +:+ "assume_transparent_in_compact_blocks = true to assert the capability. Otherwise upgrade the server, point [backend] "
  +:+ "server at your own zebra, or disable [pools] transparent".
(** [prepare_client], on the client just set. *)
Definition prepare_client (c : conn) (a : WalletActor) : result error ServerInfo * WalletActor :=
  match server_info c with
  | (c, Err e) => (Err e, called c a)
  | (c, Ok info) =>
      let a := called c a in
      match verify_server_network (chain_name info) (wc_network cfg) with
      | Some why => (Err (anyhow why), a)
      | None =>
          let covers := block_scan_covers_transparent c in
          if transparent_capability_error (wc_transparent_enabled cfg) covers then (Err (anyhow capability_refusal), a)
          else
            let a := note (Vetted info covers) a in
            if l_roots (wa_link a) then (Ok info, a)
            else
              let '(c, t, r) := update_subtree_roots c (database a) in
              let a := set_database t (called c (note SeededRoots a)) in
              match r with
              | Err e => (Err e, a)
              | Ok _ => (Ok info, on_link (set_roots true) a)
              end
      end
  end.
Definition connect (a : WalletActor) : result error () * WalletActor :=
  let a := on_link (set_mempool false) a in
  match acquire W (wa_reads a) with
  | Err e => (Err e, reading a)
  | Ok c =>
      match prepare_client c (note Dialed (called c (reading a))) with
      | (Err e, a) => (Err e, on_link (set_client None) a)
      | (Ok info, a) =>
          match refuse_stale_upstream (take_findings info a) with
          | (Some why, a) => (Err (anyhow why), on_link (set_client None) a)
          | (None, a) => (Ok tt, a)
          end
      end
  end.
(** The connection an operation needs, dialed if there is none. *)
Definition connected (a : WalletActor) : result error () * WalletActor :=
  if is_some (l_client (wa_link a)) then (Ok tt, a) else connect a.

Definition fetch_chain_tip (c : conn) : conn * result error (Z * string) :=
  match latest_block c with
  | (c, Ok (h, hash)) => if h <=? u32_max then (c, Ok (h, hash)) else (c, Err (anyhow "chain tip height out of range"))
  | failed => failed
  end.
Definition fetch_and_store_chain_tip (c : conn) (t : table) : conn * table * result error (Z * string) :=
  match fetch_chain_tip c with
  | (c, Err e) => (c, t, Err e)
  | (c, Ok tip) => match update_chain_tip t tip.1 with
                   | (t, Ok _) => (c, t, Ok tip)
                   | (t, Err e) => (c, t, Err e)
                   end
  end.
(** The findings again, if the tip has reached an activation height they were not made at. *)
Definition recheck_branch (tip : Z) (a : WalletActor) : result error () * WalletActor :=
  if branch_check_due activation branch_code (v_branch_checked_at (wa_view a)) tip then
    match l_client (wa_link a) with
    | None => (Err (anyhow "not connected"), a)
    | Some c =>
        match refresh_server_info c with
        | (c, Err e) => (Err e, called c a)
        | (c, Ok info) => (Ok tt, take_findings info (note (Reread info) (called c a)))
        end
    end
  else (Ok tt, a).
Definition refresh_tip (a : WalletActor) : result error () * WalletActor :=
  match l_client (wa_link a) with
  | None => (Err (anyhow "not connected"), a)
  | Some c =>
      let '(c, t, r) := if has_account a then fetch_and_store_chain_tip c (database a)
                        else let '(c, r) := fetch_chain_tip c in (c, database a, r) in
      let a := set_database t (called c (note AskedTip a)) in
      match r with
      | Err e => (Err e, a)
      | Ok (tip, hash) =>
          match recheck_branch tip (on_view (set_tip tip) a) with
          | (Err e, a) => (Err e, a)
          | (Ok _, a) =>
              match refuse_stale_upstream a with
              | (Some why, a) => (Err (anyhow why), on_link (set_client None) a)
              | (None, a) =>
                  let a := on_link (λ l, set_logged true (set_backoff (Backoff.reset (l_backoff l)) l)) (note (Refreshed tip) a) in
                  (Ok tt, if (String.length hash =? 32)%nat then on_view (set_tip_hash (hex_encode (string_rev hash))) a else a)
              end
          end
      end
  end.
(** What a caller of [refresh_tip] does with its failure. *)
Definition refresh_or_drop (a : WalletActor) : bool * WalletActor :=
  match refresh_tip a with (Ok _, a) => (true, a) | (Err _, a) => (false, mark_disconnected a) end.

(** ** A sync pass *)

(** [maybe_bootstrap_account]: the tree state is asked of the upstream, the rest is [Keys]'. *)
Definition maybe_bootstrap_account (a : WalletActor) : WalletActor :=
  match s_pending_bootstrap (wa_scan a) with
  | None => a
  | Some (birthday, key_at_hand) =>
      if has_account a then on_scan (set_account (s_account (wa_scan a)) None) a
      else if negb key_at_hand then a
      else
        match v_tip_height (wa_view a), l_client (wa_link a) with
        | Some tip, Some c =>
            match tree_state c (Z.max (sat_sub birthday 1) 1) with
            | (c, Err e) => on_link (set_client None) (use_link UseTreeState a)
            | (c, Ok cs) =>
                let '(t, created) := create_account (database a) birthday cs tip in
                let a := set_database t (called c (use_link UseTreeState a)) in
                match created with
                | Adopted account => on_scan (set_account (Some account) None) a
                | Disowned => on_scan (set_account None None) a
                | NotCreated => a
                end
            end
        | _, _ => a
        end
  end.

(** How a pass ends: whether it worked, or it failed; or its download has not ended. *)
Inductive PassEnd := Worked | CaughtUp | PassFailed (e : SyncError) | Downloading.
Definition unrecoverable_text (at_height requested : Z) (safe : option Z) : string :=
  "unrecoverable reorg at " +:+ dec at_height +:+ ": no note-commitment-tree checkpoint with a scanned block exists below "
  +:+ "the conflict (requested rewind to " +:+ dec requested
  +:+ match safe with Some h => "; storage reported " +:+ dec h +:+ " as its lowest safe target" | None => "" end +:+ ")".
(** The kinds of error the actor tells apart. *)
Definition sync_error_of (e : BatchError error) : SyncError :=
  match e with
  | UpstreamOrStorage e | Reorg (RewindStorage e) => OtherFailure (display e)
  | WalletApplyError debug => ApplyFailed debug
  | Reorg (UnrecoverableReorg at_height requested safe) => Unrecoverable (unrecoverable_text at_height requested safe)
  end.

(** The download the previous batch started, if any. *)
Definition take_prefetched (a : WalletActor) : option Prefetched * WalletActor :=
  match s_prefetch (wa_scan a) with
  | None => (None, a)
  | Some r => (finished W (wa_reads a) r, reading (on_scan (λ s, set_pass (s_reorg_margin s) None s) a))
  end.
Definition after_scan (bo : BatchOutcome) (a : WalletActor) : WalletActor :=
  on_scan (λ s, set_pass (next_reorg_margin (s_reorg_margin s) (bo_reorged bo)) (next_prefetch bo)
                  (set_window (after_batch (transparent_recorded bo) (transparent_spends_recorded bo) (s_window s)) s)) a.
(** The batch itself. *)
Definition scan_batch (a : WalletActor) : PassEnd * WalletActor :=
  let '(prefetched, a) := take_prefetched a in
  match l_client (wa_link a) with
  | None => (PassFailed (OtherFailure "not connected"), a)
  | Some c =>
      let a := use_link UseScan a in
      let w := s_window (wa_scan a) in
      match sync_one_batch c (wi_table w)
              {| bp_transparent := wi_scripts w; bp_unspent := wi_unspent w; bp_reorg_margin := s_reorg_margin (wa_scan a);
                 bp_batch_size := wc_batch_size cfg; bp_prefetched := prefetched;
                 bp_prefetch := negb (wc_transparent_enabled cfg) |} with
      | None => (Downloading, a)
      | Some (c, t, o) =>
          let a := set_database t (called c a) in
          match o with
          | Failed_ e => (PassFailed (sync_error_of e), a)
          | Panicked => (PassFailed (OtherFailure "sync batch panicked"), a)
          | Done bo => (if worked bo then Worked else CaughtUp, after_scan bo a)
          end
      end
  end.
(** [sync_step], and [sync_step_caught]. *)
Definition sync_step (a : WalletActor) : PassEnd * WalletActor :=
  match connected a with
  | (Err e, a) => (PassFailed (OtherFailure (display e)), a)
  | (Ok _, a) =>
      let a := maybe_bootstrap_account a in
      match s_account (wa_scan a) with
      | None => (CaughtUp, a)
      | Some account =>
          if wc_transparent_enabled cfg then
            let '(go, w) := prepare_transparent (wc_initial_scan cfg) (wc_gap_limit cfg) account (s_window (wa_scan a)) in
            let a := on_scan (set_window w) a in
            if (go : bool) then scan_batch a else (Worked, a)
          else scan_batch a
      end
  end.

(** ** Requests on the connection *)

(** A request dials first if it must, and drops the connection when it fails in transport. *)
Definition fetch_tx_from_upstream (t : txid) (a : WalletActor) : rpc (option FetchedTx) * WalletActor :=
  match connected a with
  | (Err e, a) => (Err (upstream_error (display e) "could not connect to the upstream node"), a)
  | (Ok _, a) =>
      match l_client (wa_link a) with
      | None => (Err (RpcError.misc "not connected to upstream"), a)
      | Some c =>
          match fetch_tx c t with
          | (c, Ok found) => (Ok found, called c (use_link (UseFetch t) a))
          | (c, Err e) => (Err (RpcError.misc "transaction fetch from the upstream node failed"),
                           mark_disconnected (called c (use_link (UseFetch t) a)))
          end
      end
  end.
(** One transaction sent, on the connection there is: the node's verdict, if it answered. *)
Definition send_raw (data : string) (c : conn) (a : WalletActor) : option BroadcastOutcome * WalletActor :=
  match broadcast_tx c data with
  | (c, Ok o) => (Some o, called c (use_link (UseBroadcast data) a))
  | (c, Err e) => (None, mark_disconnected (called c (use_link (UseBroadcast data) a)))
  end.
(** [do_broadcast] and [broadcast_committed]: their answers are [Upstream]'s. *)
Definition do_broadcast (data : string) (a : WalletActor) : rpc () * WalletActor :=
  match connected a with
  | (Err e, a) => ((Upstream.do_broadcast false (Some (display e)) None).1, a)
  | (Ok _, a) =>
      match l_client (wa_link a) with
      | None => (Err (RpcError.misc "not connected to upstream"), a)
      | Some c => let '(reply, a) := send_raw data c a in ((Upstream.do_broadcast true None reply).1, a)
      end
  end.
Definition broadcast_committed (data : string) (a : WalletActor) : rpc () * WalletActor :=
  match connected a with
  | (Err e, a) => ((Upstream.broadcast_committed false false None).1, a)
  | (Ok _, a) =>
      match l_client (wa_link a) with
      | None => (Ok tt, a)
      | Some c => let '(reply, a) := send_raw data c a in ((Upstream.broadcast_committed true true reply).1, a)
      end
  end.
(** The unmined transactions, until one fails in transport. *)
Fixpoint rebroadcast_all (txs : list (txid * string)) (a : WalletActor) : WalletActor :=
  match txs with
  | [] => a
  | (_, data) :: txs =>
      match l_client (wa_link a) with
      | None => a
      | Some c => match send_raw data c a with (Some _, a) => rebroadcast_all txs a | (None, a) => a end
      end
  end.
Definition mempool_view (a : WalletActor) : MempoolView :=
  let w := s_window (wa_scan a) in
  {| mv_db := wi_table w; mv_first_seen := s_first_seen (wa_scan a); mv_set_dirty := wi_set_dirty w;
     mv_unspent_dirty := wi_unspent_dirty w |}.
Definition set_view (v : MempoolView) (a : WalletActor) : WalletActor :=
  on_scan (λ s, set_mempool_seen (s_last_rebroadcast s) (mv_first_seen v)
    (set_window (set_dirty (mv_set_dirty v) (mv_unspent_dirty v) (set_table (mv_db v) (s_window s))) s)) a.
Definition maybe_rebroadcast (a : WalletActor) : WalletActor :=
  match v_tip_height (wa_view a) with
  | None => a
  | Some tip =>
      if negb (is_some (l_client (wa_link a))) then a
      else
        let '(now, a) := read_clock a in
        if match s_last_rebroadcast (wa_scan a) with
           | Some t => Z.max 0 (now - t) <? wc_rebroadcast_interval cfg
           | None => false
           end then a
        else
          let '(now, a) := read_clock a in
          let a := on_scan (λ s, set_mempool_seen (Some now) (s_first_seen s) s) a in
          let a := set_view (prune_first_seen unmined_txids (mempool_view a)) a in
          match unmined_raw_txs (database a) tip with
          | Some txs => rebroadcast_all txs a
          | None => a
          end
  end.
Definition ensure_mempool_stream (a : WalletActor) : WalletActor :=
  if l_mempool (wa_link a) || negb (is_some (v_tip_height (wa_view a))) then a
  else
    match l_client (wa_link a) with
    | None => a
    | Some c =>
        let '(c, r) := subscribe_mempool c in
        let a := called c (use_link UseMempool a) in
        match r with Ok _ => on_link (set_mempool true) a | Err _ => a end
    end.
(** [enhance_step_caught]: whether more is left to drain. *)
Definition enhance_step (a : WalletActor) : bool * WalletActor :=
  match v_tip_height (wa_view a), l_client (wa_link a) with
  | Some tip, Some c =>
      let '(t, (more, lost)) := enhance (database a) tip c in
      let a := set_database t (use_link UseEnhance a) in
      if (lost : bool) then (false, mark_disconnected a) else (more, a)
  | _, _ => (false, a)
  end.

(** ** Commands *)

(** [sync_to_tip_for_send], with the passes it makes bounded: an error, or whether it is done. *)
Fixpoint catch_up (passes : nat) (a : WalletActor) : bool * WalletActor :=
  match passes with
  | O => (false, a)
  | S passes =>
      match sync_step a with
      | (Worked, a) => catch_up passes a
      | (CaughtUp, a) => (true, a)
      | (PassFailed _, a) => (true, mark_disconnected a)
      | (Downloading, a) => (false, a)
      end
  end.
Definition halted_for_send : RpcError :=
  RpcError.wallet ("sync is halted for this wallet, so a send cannot be built against the current chain; run `zecd rescan` "
                   +:+ "to rebuild it").
Definition behind_for_send (scanned : option Z) (tip lag : Z) : RpcError :=
  RpcError.new RPC_CLIENT_IN_INITIAL_DOWNLOAD
    ("Wallet is still syncing: it has scanned to height " +:+ match scanned with Some h => dec h | None => "none" end
     +:+ " of " +:+ dec tip +:+ " (" +:+ dec lag +:+ " blocks behind), more than [spend] max_send_catchup_blocks = "
     +:+ dec (wc_max_send_catchup_blocks cfg)
     +:+ " allows a send to catch up. Retry once `waitforsync` reports the wallet caught up.").
Definition sync_to_tip_for_send (passes : nat) (a : WalletActor) : rpc bool * WalletActor :=
  if t_halted (wa_trouble a) then (Err halted_for_send, a)
  else
    match connected a with
    | (Err _, a) => (Ok true, a)
    | (Ok _, a) =>
        match refresh_or_drop a with
        | (false, a) => (Ok true, a)
        | (true, a) =>
            let scanned := block_fully_scanned (database a) in
            match (tip ← v_tip_height (wa_view a); lag ← send_catchup_exceeded tip scanned (wc_max_send_catchup_blocks cfg);
                   Some (behind_for_send scanned tip lag)) with
            | Some e => (Err e, a)
            | None => let '(done, a) := catch_up passes a in (Ok done, a)
            end
        end
    end.

Inductive WalletCommand :=
  | GetRawTx (t : txid)
  | Broadcast (data : string)
  | SyncNow
  | Send
  | Local (c : local_command (T := table) (conn := conn)).
Inductive Reply := RawTxReply (r : rpc (option FetchedTx)) | UnitReply (r : rpc ()) | NoReply.
Definition halted_nudge : RpcError :=
  RpcError.misc "sync is halted for this wallet; run `zecd rescan` to rebuild it".
Definition do_get_raw_tx (t : txid) (a : WalletActor) : rpc (option FetchedTx) * WalletActor :=
  match stored_transaction (database a) t with
  | Some (Ok data) => (Ok (Some {| ft_data := data; ft_mined_height := None |}), a)
  | Some (Err e) => (Err (RpcError.misc ("failed to serialize transaction: " +:+ e)), a)
  | None => fetch_tx_from_upstream t a
  end.
(** A send: the sync before it, its transaction built and stored, and its broadcast. *)
Definition do_send (passes : nat) (a : WalletActor) : Reply * WalletActor :=
  match sync_to_tip_for_send passes a with
  | (Err e, a) => (UnitReply (Err e), a)
  | (Ok false, a) => (NoReply, a)
  | (Ok true, a) =>
      match build_send (conn := conn) (database a) with
      | (t, Err e) => (UnitReply (Err e), set_database t a)
      | (t, Ok data) => let '(r, a) := broadcast_committed data (set_database t a) in (UnitReply r, a)
      end
  end.
Definition handle_command (passes : nat) (c : WalletCommand) (a : WalletActor) : Reply * WalletActor :=
  match c with
  | GetRawTx t => let '(r, a) := do_get_raw_tx t a in (RawTxReply r, a)
  | Broadcast data => let '(r, a) := do_broadcast data a in (UnitReply r, a)
  | SyncNow =>
      if t_halted (wa_trouble a) then (UnitReply (Err halted_nudge), a)
      else (UnitReply (Ok tt), on_trouble (set_force_sync true) a)
  | Send => do_send passes a
  | Local c => (NoReply, set_database (run_local c (database a)) a)
  end.
Definition handle_commands (passes : nat) (cs : list WalletCommand) (a : WalletActor) : WalletActor :=
  foldl (λ a c, (handle_command passes c a).2) a cs.

(** ** The loop *)

(** [note_sync_error]. *)
Definition note_sync_error (e : SyncError) (a : WalletActor) : WalletActor :=
  let '((last, streak), _) :=
    Upstream.note_sync_error (t_last_sync_error (wa_trouble a)) (t_streak (wa_trouble a)) (v_unsupported (wa_view a))
      (v_tip_height (wa_view a)) e in
  on_trouble (set_failures last streak) a.
Definition sync_failed (e : SyncError) (a : WalletActor) : WalletActor :=
  let a := if negb (t_halted (wa_trouble a)) && sync_failure_is_terminal e then on_trouble (set_halted true) a else a in
  let '(now, a) := read_clock (mark_disconnected (note_sync_error e a)) in
  on_link (λ l, set_reconnect_at (Z.max (l_reconnect_at l) (now + SYNC_ERROR_RETRY_INTERVAL)) l) a.
(** A pass of the busy loop: whether more work is left, if the pass ends. *)
Definition busy_pass (a : WalletActor) : option bool * WalletActor :=
  match sync_step a with
  | (Worked, a) => (Some true, on_trouble (set_failures None 0) a)
  | (CaughtUp, a) =>
      let '(more, a) := enhance_step (maybe_rebroadcast (on_trouble (set_failures None 0) a)) in
      (Some more, ensure_mempool_stream a)
  | (PassFailed e, a) => (Some false, sync_failed e a)
  | (Downloading, a) => (None, a)
  end.

Inductive IdleEvent :=
  | Cmd (c : WalletCommand)
  | Tick
  | MempoolTx (raw : RawMempoolTx)
  | MempoolClosed
  | MempoolError.
(** How long the idle loop waits, from a reading of the clock. *)
Definition idle_wait (now : Z) (a : WalletActor) : Z :=
  if is_some (l_client (wa_link a)) then wc_sync_interval cfg else Z.max 0 (l_reconnect_at (wa_link a) - now).
Definition tick (a : WalletActor) : bool * WalletActor :=
  let a := if is_some (l_client (wa_link a)) then a
           else
             match connect a with
             | (Ok _, a) => a
             | (Err _, a) =>
                 let '(b, delay) := Backoff.next_delay (l_backoff (wa_link a)) (draw W (wa_reads a)) in
                 let '(now, a) := read_clock (on_link (set_backoff b) a) in
                 on_link (set_reconnect_at (now + delay)) a
             end in
  if is_some (l_client (wa_link a)) then refresh_or_drop a else (false, a).
(** Whether the wait can end so: a stream's events come while there is one. *)
Definition can_happen (e : IdleEvent) (a : WalletActor) : bool :=
  match e with MempoolTx _ | MempoolClosed | MempoolError => l_mempool (wa_link a) | _ => true end.
Definition store_mempool (raw : RawMempoolTx) (a : WalletActor) : WalletActor :=
  let '(now, a) := read_clock a in
  set_view (store_mempool_tx tx_vout tx_exists (v_tip_height (wa_view a)) (wc_transparent_enabled cfg)
              (wi_scripts (s_window (wa_scan a))) (now / 1000000000) raw (mempool_view a)) (note HeardMempool a).
Definition idle_event (passes : nat) (e : IdleEvent) (a : WalletActor) : bool * WalletActor :=
  if negb (can_happen e a) then (false, a)
  else
    match e with
    | Cmd c => (false, (handle_command passes c a).2)
    | Tick => tick a
    | MempoolTx raw => (false, store_mempool raw a)
    | MempoolClosed => refresh_or_drop (on_link (set_mempool false) a)
    | MempoolError => (false, on_link (set_mempool false) a)
    end.

(** One turn of the loop: the commands queued, and the event that ends the wait if it idles. *)
Record Turn := { tn_commands : list WalletCommand; tn_event : IdleEvent; tn_passes : nat }.
Definition turn (t : Turn) (st : option bool * WalletActor) : option bool * WalletActor :=
  match st with
  | (None, a) => st
  | (Some more_work, a) =>
      let more_work := (more_work || t_force_sync (wa_trouble a)) && negb (t_halted (wa_trouble a)) in
      let a := on_trouble (set_force_sync false) a in
      if more_work then busy_pass (handle_commands (tn_passes t) (tn_commands t) a)
      else let '(more, a) := idle_event (tn_passes t) (tn_event t) a in (Some more, a)
  end.
(** [run]: the first connection, and the turns. *)
Definition start (a : WalletActor) : option bool * WalletActor :=
  let '(_, a) := connect a in
  (Some true,
   if is_some (l_client (wa_link a)) then
     match refresh_tip a with (Ok _, a) => a | (Err _, a) => on_link (set_client None) a end
   else a).
Definition run (turns : list Turn) (a : WalletActor) : option bool * WalletActor :=
  foldl (λ st t, turn t st) (start a) turns.
End actor.
Arguments Link _ : clear implicits.
Arguments WalletActor {_ _} _.
