(* ===== verification/ActorSpec.v ===== *)
(** * ActorSpec: the upstream is trusted before it is used, and a wedged wallet stops

    Whatever the turns of the loop, the hub and the upstream do, a connection is put to use only
    once its server passed the guards and no upgrade it never adopted is in force; a wallet that
    meets a reorg it cannot rewind past never scans again; and a failed pass is paced. *)

From S2P Require Import Issue EngineSpec WindowSpec Pacing Spend Network.
From S2P Require Export Actor.

Section actor.
Context `{RangeOps} `{AT : AddressTable} `{TL : !TransparentLibrary} {conn error chain_state node : Type}
        `{B : !Backend conn table error Z chain_state}.
Context `{HC : HexCodec} `{SRC : !ActorSource conn error} `{DB : !ActorDb table error node} `{PT : !ActorParts table conn chain_state}.
Context (activation : NetworkUpgrade → option Z) (branch_code : BranchId → Z) (branch_of : Z → option BranchId)
        (for_height : Z → BranchId).
Context (cfg : ActorConfig) (W : Outside conn error).
#[local] Abbreviation actor := (WalletActor conn).
#[local] Abbreviation found_in := (found activation branch_code branch_of for_height).
#[local] Abbreviation connect := (connect activation branch_code branch_of for_height cfg W).
#[local] Abbreviation connected := (connected activation branch_code branch_of for_height cfg W).
#[local] Abbreviation refresh_tip := (refresh_tip activation branch_code branch_of for_height).
#[local] Abbreviation refresh_or_drop := (refresh_or_drop activation branch_code branch_of for_height W).
#[local] Abbreviation sync_step := (sync_step activation branch_code branch_of for_height cfg W).
#[local] Abbreviation handle_commands := (handle_commands activation branch_code branch_of for_height cfg W).
#[local] Abbreviation handle_command := (handle_command activation branch_code branch_of for_height cfg W).
#[local] Abbreviation busy_pass := (busy_pass activation branch_code branch_of for_height cfg W).
#[local] Abbreviation idle_event := (idle_event activation branch_code branch_of for_height cfg W).
#[local] Abbreviation turn := (turn activation branch_code branch_of for_height cfg W).
#[local] Abbreviation run := (run activation branch_code branch_of for_height cfg W).

(** ** What a connection may be used for

    A specification of the connection's life: the hub hands out a client nobody has looked at; its
    answer must be of the wallet's network and serve what the wallet scans, and only then may the
    subtree roots and the tip be asked of it; it is used, and its tip taken, only while no upgrade
    that build follows and the node never adopted is in force at the tip; and a mempool transaction
    is read only from a stream such a use opened since the client was handed out. *)

Inductive Standing := Down | Unvetted | Serving (info : ServerInfo).
(** How the client stands, and whether its mempool was subscribed. *)
Definition LinkState : Type := Standing * bool.
Definition if_adopted (info : ServerInfo) (tip : option Z) (s : LinkState) : option LinkState :=
  match upstream_not_upgraded (found_in info) tip with None => Some s | Some _ => None end.
Definition link_step (s : LinkState) (e : Event) : option LinkState :=
  match e, s with
  | Dialed, _ => Some (Unvetted, false)
  | Vetted info covers, (Unvetted, m) =>
      if bool_decide (verify_server_network (chain_name info) (wc_network cfg) = None)
         && negb (transparent_capability_error (wc_transparent_enabled cfg) covers)
      then Some (Serving info, m) else None
  | Reread info, (Serving _, m) => Some (Serving info, m)
  | SeededRoots, (Serving _, _) | AskedTip, (Serving _, _) => Some s
  | Refreshed tip, (Serving info, _) => if_adopted info (Some tip) s
  | Used u tip, (Serving info, m) =>
      if_adopted info tip (Serving info, match u with UseMempool => true | _ => m end)
  | HeardMempool, (_, true) => Some s
  | _, _ => None
  end.
(** The state after a record, newest first, if every step of it is allowed. *)
Fixpoint link_state (log : list Event) : option LinkState :=
  match log with [] => Some (Down, false) | e :: log => link_state log ≫= λ s, link_step s e end.

(** The record so far is allowed; and a client held serves, with the findings of its answer. *)
Definition heard (a : actor) (m : bool) : Prop := l_mempool (wa_link a) = true → m = true.
Definition allowed (a : actor) : Prop := ∃ s m, link_state (wa_log a) = Some (s, m) ∧ heard a m.
Definition serving (a : actor) : Prop :=
  ∃ info m, link_state (wa_log a) = Some (Serving info, m) ∧ heard a m ∧ v_unsupported (wa_view a) = found_in info.
Definition vouched (a : actor) : Prop :=
  serving a ∧ upstream_not_upgraded (v_unsupported (wa_view a)) (v_tip_height (wa_view a)) = None ∧
  v_refusal (wa_view a) = None.
Definition trusted (a : actor) : Prop := allowed a ∧ (is_Some (l_client (wa_link a)) → vouched a).

Lemma serving_allowed a : serving a → allowed a.
Proof. intros (info & m & Hs & Hm & _). by exists (Serving info), m. Qed.
Lemma vouched_trusted a : vouched a → trusted a.
Proof. intros Hv. split; [by apply serving_allowed, Hv|done]. Qed.
Lemma held_vouched a c : trusted a → l_client (wa_link a) = Some c → vouched a.
Proof. intros [_ Ht] Hc. apply Ht. by rewrite Hc. Qed.

(** What does not touch the record, the view or whether there is a client keeps trust. *)
Definition same_face (a a' : actor) : Prop :=
  wa_log a' = wa_log a ∧ wa_view a' = wa_view a ∧ (l_mempool (wa_link a') = true → l_mempool (wa_link a) = true) ∧
  (is_Some (l_client (wa_link a')) → is_Some (l_client (wa_link a))).
Lemma same_face_trusted a a' : same_face a a' → trusted a → trusted a'.
Proof.
  intros (H1 & H2 & H3 & H4) [(s & m & Hs & Hm) Ht]. unfold trusted, allowed, vouched, serving, heard in *. rewrite H1, H2.
  split; [naive_solver|]. intros (info & m' & ?)%H4%Ht. naive_solver.
Qed.
Lemma dropped_trusted a a' :
  allowed a → wa_log a' = wa_log a → (l_mempool (wa_link a') = true → l_mempool (wa_link a) = true) →
  l_client (wa_link a') = None → trusted a'.
Proof.
  intros (s & m & Hs & Hm) Hl Hm' Hc. split; [|rewrite Hc; by intros [? ?]]. exists s, m. rewrite Hl. unfold heard in *. auto.
Qed.
Lemma mark_disconnected_trusted a : allowed a → trusted (mark_disconnected W a).
Proof. intros Ha. by eapply dropped_trusted. Qed.
Lemma called_vouched c a : vouched a → vouched (called c a).
Proof. done. Qed.
Lemma used_vouched u a : vouched a → vouched (use_link u a).
Proof.
  intros ((info & m & Hs & Hm & Hf) & Hu & Hr). split; [|done].
  exists info, (match u with UseMempool => true | _ => m end). cbn. rewrite Hs. cbn. unfold if_adopted.
  rewrite <- Hf, Hu. split_and!; [done| |done]. destruct u; [exact Hm..|done|exact Hm].
Qed.
(** A note that leaves the state as it is. *)
Lemma noted_serving e a :
  (∀ info m, link_state (wa_log a) = Some (Serving info, m) → heard a m → v_unsupported (wa_view a) = found_in info →
     link_step (Serving info, m) e = Some (Serving info, m)) →
  serving a → serving (note e a).
Proof.
  intros He (info & m & Hs & Hm & Hf). exists info, m. cbn. rewrite Hs. cbn. by rewrite (He info m).
Qed.

(** ** Connecting *)

Lemma prepare_client_vets c a r a' :
  link_state (wa_log a) = Some (Unvetted, false) → l_mempool (wa_link a) = false → prepare_client cfg c a = (r, a') →
  allowed a' ∧ l_mempool (wa_link a') = false ∧
  match r with
  | Ok info => link_state (wa_log a') = Some (Serving info, false) ∧ is_Some (l_client (wa_link a'))
  | Err _ => True
  end.
Proof.
  unfold prepare_client. intros Hs Hm.
  assert (∀ a2 s, link_state (wa_log a2) = Some (s, false) → l_mempool (wa_link a2) = false → allowed a2) as Hend.
  { intros a2 s0 H1 H2. exists s0, false. split; [done|]. unfold heard. congruence. }
  destruct (server_info c) as [c1 [info|e]]; [|intros [= <- <-]; split_and!; by eauto].
  destruct (verify_server_network _ _) eqn:Hv; [intros [= <- <-]; split_and!; by eauto|].
  destruct (transparent_capability_error _ _) eqn:Hc; [intros [= <- <-]; split_and!; by eauto|].
  set (a1 := note _ (called c1 a)). assert (link_state (wa_log a1) = Some (Serving info, false)) as H1.
  { cbn. rewrite Hs. cbn. by rewrite Hv, Hc, bool_decide_eq_true_2. }
  destruct (l_roots _); [intros [= <- <-]; split_and!; by eauto|].
  assert (link_state (wa_log (note SeededRoots a1)) = Some (Serving info, false)) as H2.
  { revert H1. generalize a1. intros a2 H1. cbn. by rewrite H1. }
  destruct (update_subtree_roots c1 _) as [[c2 t] [|e]]; intros [= <- <-]; split_and!; by eauto.
Qed.

Lemma refuse_stale_spec a :
  serving a → is_Some (l_client (wa_link a)) →
  match refuse_stale_upstream a with
  | (None, a') => vouched a' ∧ is_Some (l_client (wa_link a')) ∧ v_tip_height (wa_view a') = v_tip_height (wa_view a)
  | (Some _, a') => allowed a'
  end.
Proof.
  intros Hv Hc. unfold refuse_stale_upstream. destruct (upstream_not_upgraded _ _) eqn:Hu; cbn; [by apply serving_allowed|].
  destruct Hv as (info & m & Hs & Hm & Hf).
  split_and!; [|done|done]. split; [by exists info, m|]. by split.
Qed.

Lemma connect_trusted a r a' :
  trusted a → l_client (wa_link a) = None → connect a = (r, a') →
  trusted a' ∧ match r with Ok _ => is_Some (l_client (wa_link a')) | Err _ => l_client (wa_link a') = None end.
Proof.
  intros [Ha _] Hn. unfold Actor.connect. destruct (acquire W _) as [c|e].
  2: { intros [= <- <-]. split; [|done]. by apply (dropped_trusted a). }
  set (a1 := note Dialed _). assert (link_state (wa_log a1) = Some (Unvetted, false)) as H1.
  { destruct Ha as (s & m & Hs & _). cbn. by rewrite Hs. }
  destruct (prepare_client cfg c a1) as [[info|e] a2] eqn:Ep;
    destruct (prepare_client_vets _ _ _ _ H1 eq_refl Ep) as (Hp0 & Hm & Hp).
  2: { intros [= <- <-]. split; [|done]. by apply (dropped_trusted a2). }
  destruct Hp as [Hp Hc]. set (a3 := take_findings _ _ _ _ info a2).
  assert (serving a3) as H3.
  { exists info, false. split_and!; [done| |done]. unfold heard. cbn. congruence. }
  pose proof (refuse_stale_spec a3 H3 Hc) as Hr. destruct (refuse_stale_upstream a3) as [[why|] a4]; intros [= <- <-].
  - split; [|done]. by apply (dropped_trusted a4).
  - destruct Hr as (Hv & ? & _). split; [by apply vouched_trusted|done].
Qed.
Lemma connected_trusted a r a' :
  trusted a → connected a = (r, a') →
  trusted a' ∧ match r with Ok _ => is_Some (l_client (wa_link a')) | Err _ => l_client (wa_link a') = None end.
Proof.
  intros Ht. unfold Actor.connected. destruct (l_client (wa_link a)) eqn:Hc; cbn; [|by apply connect_trusted].
  intros [= <- <-]. by rewrite Hc.
Qed.

(** A tip is taken if the node adopted what is in force at it. *)
Lemma taken_tip_trusted a tip hash r a' :
  serving a → is_Some (l_client (wa_link a)) → v_tip_height (wa_view a) = Some tip →
  match refuse_stale_upstream a with
  | (Some why, a) => (Err (anyhow why), on_link (set_client None) a)
  | (None, a) =>
      let a := on_link (λ l, set_logged true (set_backoff (Backoff.reset (l_backoff l)) l)) (note (Refreshed tip) a) in
      (Ok tt, if (String.length hash =? 32)%nat then on_view (set_tip_hash (hex_encode (string_rev hash))) a else a)
  end = (r, a') →
  match r : result error () with Ok _ => trusted a' ∧ is_Some (l_client (wa_link a')) | Err _ => allowed a' end.
Proof.
  intros Hs Hc Ht. pose proof (refuse_stale_spec a Hs Hc) as Hr.
  destruct (refuse_stale_upstream a) as [[why|] a3]; intros [= <- <-]; [done|]. destruct Hr as (Hv & Hc' & Ht').
  assert (vouched (note (Refreshed tip) a3)) as Hn.
  { destruct Hv as (Hs3 & Hu & Hw). split; [|done]. apply noted_serving; [|done]. intros info m _ _ Hf.
    cbn. unfold if_adopted. by rewrite <- Hf, <- Ht, <- Ht', Hu. }
  split; [apply vouched_trusted|]; by destruct (_ =? 32)%nat.
Qed.
(** A refresh leaves a trusted client, or fails with a record that is allowed. *)
Lemma refresh_tip_trusted a r a' :
  trusted a → refresh_tip a = (r, a') →
  match r with Ok _ => trusted a' ∧ is_Some (l_client (wa_link a')) | Err _ => allowed a' end.
Proof.
  intros Ht. unfold Actor.refresh_tip. destruct (l_client (wa_link a)) as [c|] eqn:Hc; [|intros [= <- <-]; exact (proj1 Ht)].
  destruct (held_vouched _ _ Ht Hc) as (Hs & _).
  assert (serving (note AskedTip a)) as H0 by by apply noted_serving.
  destruct (if has_account a then _ else _) as [[c1 t] [[tip hash]|e]];
    [|intros [= <- <-]; exact (serving_allowed _ H0)].
  set (a1 := on_view _ _). assert (serving a1) as H1 by exact H0.
  unfold recheck_branch. destruct (branch_check_due _ _ _ _); [|by apply taken_tip_trusted].
  cbn [l_client wa_link a1 on_view on_link set_database on_scan called set_client].
  destruct (refresh_server_info c1) as [c2 [info|e]]; [|by intros [= <- <-]; apply serving_allowed].
  apply taken_tip_trusted; [|by eexists|done]. destruct H1 as (i & m & Hi & Hm & _).
  exists info, m. split_and!; [|exact Hm|done]. cbn. cbn in Hi. by rewrite Hi.
Qed.
Lemma refresh_or_drop_trusted a b a' :
  trusted a → refresh_or_drop a = (b, a') → trusted a' ∧ (b = true → is_Some (l_client (wa_link a'))).
Proof.
  intros Ht. unfold Actor.refresh_or_drop. destruct (refresh_tip a) as [[|e] a1] eqn:E;
    pose proof (refresh_tip_trusted _ _ _ Ht E) as Hr; intros [= <- <-].
  - by destruct Hr.
  - split; [by apply mark_disconnected_trusted|done].
Qed.

(** ** Passes and requests *)

Definition client_held (a : actor) : Prop := is_Some (l_client (wa_link a)).
(** A request made on the client there is. *)
Lemma request_trusted u c c' a : trusted a → l_client (wa_link a) = Some c → trusted (called c' (use_link u a)).
Proof. intros Ht Hc. by apply vouched_trusted, (used_vouched u a), (held_vouched a c). Qed.
Lemma request_allowed u c c' a : trusted a → l_client (wa_link a) = Some c → allowed (called c' (use_link u a)).
Proof. intros Ht Hc. by apply (request_trusted u c c' a). Qed.

Lemma bootstrap_trusted a : trusted a → trusted (maybe_bootstrap_account a).
Proof.
  intros Ht. unfold maybe_bootstrap_account. destruct (s_pending_bootstrap _) as [[b k]|]; [|done].
  destruct (has_account a); [done|]. destruct (negb k); [done|].
  destruct (v_tip_height _) as [tip|]; [|done]. destruct (l_client (wa_link a)) as [c|] eqn:Hc; [|done].
  destruct (tree_state c _) as [c1 [cs|e]].
  - pose proof (request_trusted UseTreeState c c1 a Ht Hc) as H1. destruct (create_account _ _ _ _) as [t [id| |]]; exact H1.
  - apply (dropped_trusted (use_link UseTreeState a)); [|done..]. by apply (request_allowed UseTreeState c c a).
Qed.
Lemma take_prefetched_face a p a' : take_prefetched W a = (p, a') → same_face a a'.
Proof. unfold take_prefetched. by destruct (s_prefetch _); intros [= <- <-]. Qed.
Lemma scan_batch_trusted a e a' : trusted a → scan_batch cfg W a = (e, a') → trusted a'.
Proof.
  intros Ht. unfold scan_batch. destruct (take_prefetched W a) as [p a1] eqn:Ep.
  pose proof (same_face_trusted _ _ (take_prefetched_face _ _ _ Ep) Ht) as H1.
  destruct (l_client (wa_link a1)) as [c|] eqn:Hc; [|by intros [= <- <-]].
  destruct (sync_one_batch c _ _) as [[[c1 t] o]|].
  - pose proof (request_trusted UseScan c c1 a1 H1 Hc) as H2. by destruct o; intros [= <- <-].
  - intros [= <- <-]. by apply vouched_trusted, used_vouched, (held_vouched a1 c).
Qed.
Lemma sync_step_trusted a e a' : trusted a → sync_step a = (e, a') → trusted a'.
Proof.
  intros Ht. unfold Actor.sync_step. destruct (connected a) as [[|err] a1] eqn:Ec;
    destruct (connected_trusted _ _ _ Ht Ec) as [H1 _]; [|by intros [= <- <-]].
  pose proof (bootstrap_trusted a1 H1) as H2. destruct (s_account _) as [account|]; [|by intros [= <- <-]].
  destruct (wc_transparent_enabled cfg); [|by apply scan_batch_trusted].
  destruct (prepare_transparent _ _ _ _) as [[|] w]; [|by intros [= <- <-]]. by apply scan_batch_trusted.
Qed.
Lemma fetch_trusted t a : trusted a → trusted (fetch_tx_from_upstream activation branch_code branch_of for_height cfg W t a).2.
Proof.
  intros Ht. unfold fetch_tx_from_upstream. destruct (connected a) as [[|err] a1] eqn:Ec;
    destruct (connected_trusted _ _ _ Ht Ec) as [H1 _]; [|done].
  destruct (l_client (wa_link a1)) as [c|] eqn:Hc; [|done].
  destruct (fetch_tx c t) as [c1 [f|e]]; [by apply (request_trusted _ c)|].
  apply mark_disconnected_trusted. by apply (request_allowed _ c).
Qed.
Lemma send_raw_trusted data c a o a' :
  trusted a → l_client (wa_link a) = Some c → send_raw W data c a = (o, a') → trusted a'.
Proof.
  intros Ht Hc. unfold send_raw. destruct (broadcast_tx c data) as [c1 [o1|e]]; intros [= <- <-].
  - by apply (request_trusted _ c).
  - apply mark_disconnected_trusted. by apply (request_allowed _ c).
Qed.
Lemma do_broadcast_trusted data a :
  trusted a → trusted (do_broadcast activation branch_code branch_of for_height cfg W data a).2.
Proof.
  intros Ht. unfold do_broadcast. destruct (connected a) as [[|err] a1] eqn:Ec;
    destruct (connected_trusted _ _ _ Ht Ec) as [H1 _]; [|done].
  destruct (l_client (wa_link a1)) as [c|] eqn:Hc; [|done].
  destruct (send_raw W data c a1) as [o a2] eqn:E. by eapply send_raw_trusted.
Qed.
Lemma broadcast_committed_trusted data a :
  trusted a → trusted (broadcast_committed activation branch_code branch_of for_height cfg W data a).2.
Proof.
  intros Ht. unfold broadcast_committed. destruct (connected a) as [[|err] a1] eqn:Ec;
    destruct (connected_trusted _ _ _ Ht Ec) as [H1 _]; [|done].
  destruct (l_client (wa_link a1)) as [c|] eqn:Hc; [|done].
  destruct (send_raw W data c a1) as [o a2] eqn:E. by eapply send_raw_trusted.
Qed.
Lemma rebroadcast_all_trusted txs a : trusted a → trusted (rebroadcast_all W txs a).
Proof.
  revert a. induction txs as [|[t data] txs IH]; intros a Ht; [done|]. cbn.
  destruct (l_client (wa_link a)) as [c|] eqn:Hc; [|done].
  destruct (send_raw W data c a) as [[o|] a1] eqn:E; pose proof (send_raw_trusted _ _ _ _ _ Ht Hc E); auto.
Qed.
Lemma maybe_rebroadcast_trusted a : trusted a → trusted (maybe_rebroadcast cfg W a).
Proof.
  intros Ht. unfold maybe_rebroadcast. destruct (v_tip_height _) as [tip|]; [|done].
  destruct (negb _); [done|]. cbn [read_clock]. case_match; [done|].
  match goal with |- context [unmined_raw_txs ?d tip] => destruct (unmined_raw_txs d tip) end;
    [apply rebroadcast_all_trusted|]; exact Ht.
Qed.
Lemma ensure_mempool_trusted a : trusted a → trusted (ensure_mempool_stream a).
Proof.
  intros Ht. unfold ensure_mempool_stream. destruct (_ || _); [done|].
  destruct (l_client (wa_link a)) as [c|] eqn:Hc; [|done]. destruct (subscribe_mempool c) as [c1 r].
  pose proof (request_trusted UseMempool c c1 a Ht Hc) as Hu. destruct r; [|done].
  apply vouched_trusted. destruct (proj2 Hu) as ((info & m & Hs & _ & Hf) & Hx); [by eexists|]. split; [|exact Hx].
  exists info, m. split_and!; [exact Hs| |exact Hf]. intros _. revert Hs. cbn.
  destruct (link_state (wa_log a)) as [[[| |i] m0]|]; [done|done| |done]. cbn. unfold if_adopted.
  case_match; [done|]. by intros [= _ <-].
Qed.
Lemma enhance_step_trusted a : trusted a → trusted (enhance_step W a).2.
Proof.
  intros Ht. unfold enhance_step. destruct (v_tip_height _) as [tip|]; [|done].
  destruct (l_client (wa_link a)) as [c|] eqn:Hc; [|done]. destruct (enhance _ tip c) as [t [more lost]].
  destruct lost; cbn [snd].
  - apply mark_disconnected_trusted. exact (request_allowed UseEnhance c c a Ht Hc).
  - apply vouched_trusted. exact (used_vouched UseEnhance a (held_vouched a c Ht Hc)).
Qed.

Lemma catch_up_trusted n a : trusted a → trusted (catch_up activation branch_code branch_of for_height cfg W n a).2.
Proof.
  revert a. induction n as [|n IH]; intros a Ht; [done|]. cbn.
  destruct (sync_step a) as [e a1] eqn:E. pose proof (sync_step_trusted _ _ _ Ht E) as H1.
  destruct e; [by apply IH|done| |done]. apply mark_disconnected_trusted, H1.
Qed.
Lemma sync_to_tip_trusted n a :
  trusted a → trusted (sync_to_tip_for_send activation branch_code branch_of for_height cfg W n a).2.
Proof.
  intros Ht. unfold sync_to_tip_for_send. destruct (t_halted _); [done|].
  destruct (connected a) as [[|err] a1] eqn:Ec; destruct (connected_trusted _ _ _ Ht Ec) as [H1 _]; [|done].
  destruct (refresh_or_drop a1) as [[|] a2] eqn:Er; destruct (refresh_or_drop_trusted _ _ _ H1 Er) as [H2 _]; [|done].
  destruct (v_tip_height _ ≫= _); [done|]. pose proof (catch_up_trusted n a2 H2). by destruct (catch_up _ _ _ _ _ _ n a2).
Qed.
Lemma handle_command_trusted n c a : trusted a → trusted (handle_command n c a).2.
Proof.
  intros Ht. destruct c as [t|data| | |c]; cbn.
  - unfold do_get_raw_tx. destruct (stored_transaction _ t) as [[d|e]|]; [done..|].
    pose proof (fetch_trusted t a Ht). by destruct (fetch_tx_from_upstream _ _ _ _ _ _ t a).
  - pose proof (do_broadcast_trusted data a Ht). by destruct (do_broadcast _ _ _ _ _ _ data a).
  - by destruct (t_halted _).
  - unfold do_send. pose proof (sync_to_tip_trusted n a Ht) as H1.
    destruct (sync_to_tip_for_send _ _ _ _ _ _ n a) as [[[|]|e] a1]; [|done..].
    destruct (build_send _) as [t [data|e]]; [|done].
    pose proof (broadcast_committed_trusted data (set_database t a1) H1).
    by destruct (broadcast_committed _ _ _ _ _ _ data _).
  - done.
Qed.
Lemma handle_commands_trusted n cs a : trusted a → trusted (handle_commands n cs a).
Proof.
  unfold Actor.handle_commands. revert a. induction cs as [|c cs IH]; intros a Ht; [done|]. cbn.
  apply IH. by apply handle_command_trusted.
Qed.
(** What a failed pass leaves. *)
Lemma sync_failed_spec e a :
  let a' := sync_failed W e a in
  wa_log a' = wa_log a ∧ l_client (wa_link a') = None ∧
  t_halted (wa_trouble a') = t_halted (wa_trouble a) || sync_failure_is_terminal e ∧
  wa_reads a' = S (S (wa_reads a)) ∧
  l_reconnect_at (wa_link a') =
    Z.max (clock W (wa_reads a) + draw W (wa_reads a) * 1000000) (clock W (S (wa_reads a)) + SYNC_ERROR_RETRY_INTERVAL) ∧
  l_backoff (wa_link a') = (Backoff.next_delay (l_backoff (wa_link a)) (draw W (wa_reads a))).1.
Proof.
  cbv zeta. unfold sync_failed, note_sync_error.
  destruct (t_halted (wa_trouble a)) eqn:Hh, (sync_failure_is_terminal e) eqn:He; cbn [negb andb];
    match goal with |- context [Upstream.note_sync_error ?a ?b ?c ?d ?e] =>
      destruct (Upstream.note_sync_error a b c d e) as [[last streak] hint] end; by cbn; rewrite ?Hh.
Qed.
Lemma sync_failed_mempool e a : l_mempool (wa_link (sync_failed W e a)) = l_mempool (wa_link a).
Proof.
  unfold sync_failed, note_sync_error. destruct (negb _ && _);
    match goal with |- context [Upstream.note_sync_error ?a ?b ?c ?d ?e] =>
      by destruct (Upstream.note_sync_error a b c d e) as [[last streak] hint] end.
Qed.
Lemma busy_pass_trusted a : trusted a → trusted (busy_pass a).2.
Proof.
  intros Ht. unfold Actor.busy_pass. destruct (sync_step a) as [e a1] eqn:E. pose proof (sync_step_trusted _ _ _ Ht E) as H1.
  destruct e; [done| | |done].
  - pose proof (enhance_step_trusted _ (maybe_rebroadcast_trusted (on_trouble (set_failures None 0) a1) H1)) as H2.
    destruct (enhance_step W _) as [more a2]. by apply ensure_mempool_trusted.
  - destruct (sync_failed_spec e a1) as (H2 & H3 & _). cbn [snd]. by apply (dropped_trusted a1); [apply H1| |rewrite sync_failed_mempool|].
Qed.
Lemma tick_trusted a : trusted a → trusted (tick activation branch_code branch_of for_height cfg W a).2.
Proof.
  intros Ht. unfold tick.
  set (a1 := if is_some (l_client (wa_link a)) then a else _). assert (trusted a1) as H1.
  { unfold a1. destruct (l_client (wa_link a)) eqn:Hc; cbn; [done|].
    destruct (connect a) as [[|e] a2] eqn:E; destruct (connect_trusted _ _ _ Ht Hc E) as [H2 H3]; done. }
  clearbody a1. destruct (is_some (l_client (wa_link a1))); [|done].
  destruct (refresh_or_drop a1) as [b a2] eqn:Er. by destruct (refresh_or_drop_trusted _ _ _ H1 Er).
Qed.
Lemma store_mempool_trusted raw a : l_mempool (wa_link a) = true → trusted a → trusted (store_mempool cfg W raw a).
Proof.
  intros Hm [(s & m & Hs & Hh) Ht]. specialize (Hh Hm) as ->.
  assert (∀ x, link_state (wa_log a) = Some (x, true) → link_state (wa_log (note HeardMempool a)) = Some (x, true)) as Hn
    by by intros x; cbn; intros ->; destruct x.
  split; [by exists s, true; split; [apply Hn|]|]. intros ((info & m & H1 & H2 & H3) & Hx)%Ht. split; [|exact Hx].
  specialize (H2 Hm) as ->. exists info, true. split; [apply Hn, H1|]. by split; [|exact H3].
Qed.
Lemma idle_event_trusted n e a : trusted a → trusted (idle_event n e a).2.
Proof.
  intros Ht. unfold Actor.idle_event. destruct (negb _) eqn:Hn; [done|].
  destruct e as [c| |raw| |]; [by apply handle_command_trusted|by apply tick_trusted| | |].
  2,3: assert (trusted (on_link (set_mempool false) a)) as Hm by (apply (same_face_trusted a); [by split_and!|done]).
  1: by apply store_mempool_trusted; [apply negb_false_iff in Hn|].
  2: done.
  destruct (refresh_or_drop _) as [b a2] eqn:Er. by destruct (refresh_or_drop_trusted _ _ _ Hm Er).
Qed.
Lemma turn_trusted t st : trusted st.2 → trusted (turn t st).2.
Proof.
  destruct st as [[more|] a]; cbn; [|done]. intros Ht. destruct (_ && _).
  - apply busy_pass_trusted, handle_commands_trusted. exact Ht.
  - pose proof (idle_event_trusted (tn_passes t) (tn_event t) (on_trouble (set_force_sync false) a) Ht).
    by destruct (idle_event _ _ _).
Qed.
Lemma start_trusted a : trusted a → l_client (wa_link a) = None → trusted (start activation branch_code branch_of for_height cfg W a).2.
Proof.
  intros Ht Hc. unfold start. destruct (connect a) as [r a1] eqn:E. destruct (connect_trusted _ _ _ Ht Hc E) as [H1 _].
  cbn. destruct (is_some _); [|done]. destruct (refresh_tip a1) as [[|e] a2] eqn:Er; pose proof (refresh_tip_trusted _ _ _ H1 Er) as H2.
  - apply H2.
  - by apply (dropped_trusted a2).
Qed.

Lemma link_state_app newer older : is_Some (link_state (newer ++ older)) → is_Some (link_state older).
Proof.
  induction newer as [|e newer IH]; [done|]. intros [s Hs]. apply IH. cbn in Hs.
  destruct (link_state (newer ++ older)); [by eexists|done].
Qed.
(** In a record: the client was handed out and passed the guards since; and the last the node said
    of itself shows every upgrade this build has in force at a tip adopted. *)
Definition vetted (log : list Event) : Prop :=
  ∃ past before first covers, log = past ++ Dialed :: before ∧ Dialed ∉ past ∧ Vetted first covers ∈ past ∧
    verify_server_network (chain_name first) (wc_network cfg) = None ∧
    transparent_capability_error (wc_transparent_enabled cfg) covers = false.
Fixpoint last_answer (log : list Event) : option ServerInfo :=
  match log with [] => None | Vetted info _ :: _ | Reread info :: _ => Some info | _ :: log => last_answer log end.
Definition adopted (log : list Event) (tip : option Z) : Prop :=
  ∃ info, last_answer log = Some info ∧ upstream_not_upgraded (found_in info) tip = None.
Definition subscribed (log : list Event) : Prop :=
  ∃ past tip before, log = past ++ Used UseMempool tip :: before ∧ Dialed ∉ past.

Lemma vetted_cons e log : e ≠ Dialed → vetted log → vetted (e :: log).
Proof.
  intros He (past & before & first & covers & -> & Hn & Hin & Hv). exists (e :: past), before, first, covers.
  split_and!; [done|set_solver|by right|apply Hv|apply Hv].
Qed.
Lemma subscribed_cons e log : e ≠ Dialed → subscribed log → subscribed (e :: log).
Proof. intros He (past & tip & before & -> & Hn). exists (e :: past), tip, before. split; [done|set_solver]. Qed.
(** What the steps of a record change. *)
Lemma unvetted_dialed log m : link_state log = Some (Unvetted, m) → ∃ past older, log = past ++ Dialed :: older ∧ Dialed ∉ past.
Proof.
  revert m. induction log as [|e log IH]; intros m; [done|]. cbn. destruct (link_state log) as [[s m']|]; [|done]. cbn.
  assert (e ≠ Dialed → s = Unvetted → ∃ past older, e :: log = past ++ Dialed :: older ∧ Dialed ∉ past) as Hc.
  { intros He ->. destruct (IH m' eq_refl) as (past & older & -> & Hn). exists (e :: past), older. split; [done|set_solver]. }
  destruct e; cbn; unfold if_adopted; [intros _; exists [], log; split; [done|set_solver]|..];
    repeat case_match; intros; simplify_eq; by apply Hc.
Qed.
Lemma serving_history log info m : link_state log = Some (Serving info, m) → vetted log ∧ last_answer log = Some info.
Proof.
  revert info m. induction log as [|e log IH]; intros info m; [done|]. cbn [link_state].
  destruct (link_state log) as [[s m']|] eqn:Hs; [|done]. cbn [mbind option_bind].
  assert (∀ i, e ≠ Dialed → s = Serving i → vetted (e :: log) ∧ last_answer log = Some i) as Hc.
  { intros i He ->. destruct (IH i m' eq_refl). split; [by apply vetted_cons|done]. }
  destruct e as [|i covers| | |i|t|u t|]; cbn [link_step]; unfold if_adopted.
  2: { destruct s; [done| |done]. destruct (_ && _) eqn:Hv; [|done]. intros [= <- <-]. split; [|done].
       apply andb_true_iff in Hv as [Hv%bool_decide_eq_true Hc'%negb_true_iff].
       destruct (unvetted_dialed _ _ Hs) as (past & older & -> & Hn). exists (Vetted i covers :: past), older, i, covers.
       split_and!; [done|set_solver|by left|done|done]. }
  all: repeat case_match; intros; simplify_eq; try done.
  all: destruct (Hc _ ltac:(done) eq_refl); by split.
Qed.
Lemma subscribed_history log s : link_state log = Some (s, true) → subscribed log.
Proof.
  revert s. induction log as [|e log IH]; intros s; [done|]. cbn [link_state].
  destruct (link_state log) as [[s' m]|]; [|done]. cbn [mbind option_bind].
  assert (m = true → e ≠ Dialed → subscribed (e :: log)) as Hc by (intros -> ?; by eapply subscribed_cons, IH).
  destruct e as [| | | | | |u t|]; cbn [link_step]; unfold if_adopted; [done|..].
  6: destruct u.
  all: repeat case_match; intros; simplify_eq; try by apply Hc.
  exists [], t, log. split; [done|set_solver].
Qed.
(** What an event of a record that is allowed had before it. *)
Definition earned (e : Event) (older : list Event) : Prop :=
  match e with
  | Dialed | Vetted _ _ => True
  | SeededRoots | AskedTip | Reread _ => vetted older
  | Refreshed tip => vetted older ∧ adopted older (Some tip)
  | Used _ tip => vetted older ∧ adopted older tip
  | HeardMempool => subscribed older
  end.
Lemma link_step_earned e older s : link_state older ≫= (λ s, link_step s e) = Some s → earned e older.
Proof.
  destruct (link_state older) as [[s' m]|] eqn:Ho; [|done]. cbn [mbind option_bind].
  destruct e as [| | | | | |u t|]; cbn [link_step earned]; unfold if_adopted; try done.
  6: { destruct m; [|by destruct s']. intros _. by eapply subscribed_history. }
  all: destruct s' as [| |answer]; try done; destruct (serving_history _ _ _ Ho) as [Hv Hl]; try done.
  all: case_match eqn:Hu; [done|]; intros _; split; [done|]; by exists answer.
Qed.
Lemma foldl_turn_trusted turns st : trusted st.2 → trusted (foldl (λ st t, turn t st) st turns).2.
Proof. revert st. induction turns as [|t turns IH]; intros st Ht; [done|]. cbn. by apply IH, turn_trusted. Qed.


(** ** A halted wallet *)

(** How many batches were begun. *)
Fixpoint scans (log : list Event) : nat :=
  match log with [] => 0 | Used UseScan _ :: log => S (scans log) | _ :: log => scans log end.
Definition quiet (a a' : actor) : Prop :=
  t_halted (wa_trouble a') = t_halted (wa_trouble a) ∧ scans (wa_log a') = scans (wa_log a).
#[local] Instance quiet_preorder : PreOrder quiet.
Proof. split; [by intros a|]. intros a b c [H1 H2] [H3 H4]. split; congruence. Qed.

Lemma prepare_client_quiet c a : quiet a (prepare_client cfg c a).2.
Proof.
  unfold prepare_client. destruct (server_info c) as [c1 [info|e]]; [|done].
  destruct (verify_server_network _ _); [done|]. destruct (transparent_capability_error _ _); [done|].
  destruct (l_roots _); [done|]. by destruct (update_subtree_roots c1 _) as [[c2 t] [|e]].
Qed.
Lemma refuse_quiet a : quiet a (refuse_stale_upstream a).2.
Proof. done. Qed.
Lemma connect_quiet a : quiet a (connect a).2.
Proof.
  unfold Actor.connect. destruct (acquire W _) as [c|e]; [|done]. set (a1 := note Dialed _).
  trans (prepare_client cfg c a1).2; [by trans a1; [|apply prepare_client_quiet]|].
  destruct (prepare_client cfg c a1) as [[info|e] a2]; [|done]. cbn [snd].
  pose proof (refuse_quiet (take_findings activation branch_code branch_of for_height info a2)) as Hq.
  by destruct (refuse_stale_upstream _) as [[why|] a3].
Qed.
Lemma connected_quiet a : quiet a (connected a).2.
Proof. unfold Actor.connected. destruct (is_some _); [done|apply connect_quiet]. Qed.
Lemma refresh_tip_quiet a : quiet a (refresh_tip a).2.
Proof.
  unfold Actor.refresh_tip. destruct (l_client (wa_link a)) as [c|]; [|done].
  destruct (if has_account a then _ else _) as [[c1 t] [[tip hash]|e]]; [|done].
  set (a1 := on_view _ _). trans a1; [done|]. unfold recheck_branch. cbn [l_client wa_link a1 on_view on_link set_database on_scan called set_client].
  destruct (branch_check_due _ _ _ _); [destruct (refresh_server_info c1) as [c2 [info|e]]; [|done]|].
  all: match goal with |- context [refuse_stale_upstream ?b] =>
         trans b; [done|]; pose proof (refuse_quiet b) as Hq; destruct (refuse_stale_upstream b) as [[why|] a3] end;
       [done|]; by destruct (_ =? 32)%nat.
Qed.
Lemma refresh_or_drop_quiet a : quiet a (refresh_or_drop a).2.
Proof.
  unfold Actor.refresh_or_drop. pose proof (refresh_tip_quiet a) as Hq. by destruct (refresh_tip a) as [[|e] a1].
Qed.
Lemma fetch_quiet t a : quiet a (fetch_tx_from_upstream activation branch_code branch_of for_height cfg W t a).2.
Proof.
  unfold fetch_tx_from_upstream. pose proof (connected_quiet a) as Hq. destruct (connected a) as [[|e] a1]; [|done].
  destruct (l_client (wa_link a1)) as [c|]; [|done]. by destruct (fetch_tx c t) as [c1 [f|e]].
Qed.
Lemma do_broadcast_quiet data a : quiet a (do_broadcast activation branch_code branch_of for_height cfg W data a).2.
Proof.
  unfold do_broadcast. pose proof (connected_quiet a) as Hq. destruct (connected a) as [[|e] a1]; [|done].
  destruct (l_client (wa_link a1)) as [c|]; [|done]. unfold send_raw. by destruct (broadcast_tx c data) as [c1 [o|e]].
Qed.
Lemma handle_command_quiet n c a : t_halted (wa_trouble a) = true → quiet a (handle_command n c a).2.
Proof.
  intros Hh. destruct c as [t|data| | |c]; cbn.
  - unfold do_get_raw_tx. destruct (stored_transaction _ t) as [[d|e]|]; [done..|].
    pose proof (fetch_quiet t a). by destruct (fetch_tx_from_upstream _ _ _ _ _ _ t a).
  - pose proof (do_broadcast_quiet data a). by destruct (do_broadcast _ _ _ _ _ _ data a).
  - by rewrite Hh.
  - unfold do_send, sync_to_tip_for_send. by rewrite Hh.
  - done.
Qed.
Lemma tick_quiet a : quiet a (tick activation branch_code branch_of for_height cfg W a).2.
Proof.
  unfold tick. set (a1 := if is_some (l_client (wa_link a)) then a else _). trans a1.
  - unfold a1. destruct (is_some _); [done|]. pose proof (connect_quiet a) as Hq.
    by destruct (connect a) as [[|e] a2].
  - clearbody a1. destruct (is_some _); [apply refresh_or_drop_quiet|done].
Qed.
Lemma store_mempool_quiet raw a : quiet a (store_mempool cfg W raw a).
Proof. done. Qed.
Lemma idle_event_quiet n e a : t_halted (wa_trouble a) = true → quiet a (idle_event n e a).2.
Proof.
  intros Hh. unfold Actor.idle_event. destruct (negb _); [done|].
  destruct e as [c| |raw| |]; [by apply handle_command_quiet|apply tick_quiet|apply store_mempool_quiet| |done].
  trans (on_link (set_mempool false) a); [done|apply refresh_or_drop_quiet].
Qed.
Lemma turn_quiet t st : t_halted (wa_trouble st.2) = true → quiet st.2 (turn t st).2.
Proof.
  destruct st as [[more|] a]; cbn; [|done]. intros Hh. rewrite Hh, andb_false_r.
  pose proof (idle_event_quiet (tn_passes t) (tn_event t) (on_trouble (set_force_sync false) a) Hh) as Hq.
  by destruct (idle_event _ _ _).
Qed.
Lemma turns_quiet turns st : t_halted (wa_trouble st.2) = true → quiet st.2 (foldl (λ st t, turn t st) st turns).2.
Proof.
  revert st. induction turns as [|t turns IH]; intros st Hh; [done|]. cbn.
  pose proof (turn_quiet t st Hh) as Hq. trans (turn t st).2; [done|]. apply IH. by rewrite (proj1 Hq).
Qed.

(** *** Nothing else halts one *)

Definition kept (a a' : actor) : Prop := t_halted (wa_trouble a') = t_halted (wa_trouble a).
#[local] Instance kept_preorder : PreOrder kept.
Proof. split; [by intros a|]. intros a b c H1 H2. unfold kept in *. congruence. Qed.
Lemma quiet_kept a a' : quiet a a' → kept a a'.
Proof. by intros [? _]. Qed.

Lemma bootstrap_kept a : kept a (maybe_bootstrap_account a).
Proof.
  unfold maybe_bootstrap_account. destruct (s_pending_bootstrap _) as [[b k]|]; [|done].
  destruct (has_account a); [done|]. destruct (negb k); [done|].
  destruct (v_tip_height _) as [tip|]; [|done]. destruct (l_client (wa_link a)) as [c|]; [|done].
  destruct (tree_state c _) as [c1 [cs|e]]; [|done]. by destruct (create_account _ _ _ _) as [t [id| |]].
Qed.
Lemma scan_batch_kept a :
  kept a (scan_batch cfg W a).2 ∧
  ∀ text, (scan_batch cfg W a).1 = PassFailed (Unrecoverable text) →
    ∃ c c' d d' batch at_height requested safe,
      sync_one_batch c d batch = Some (c', d', Failed_ (Reorg (UnrecoverableReorg at_height requested safe))) ∧
      text = unrecoverable_text at_height requested safe.
Proof.
  unfold scan_batch. assert (kept a (take_prefetched W a).2) as Hk by (unfold take_prefetched; by destruct (s_prefetch _)).
  destruct (take_prefetched W a) as [p a1]. destruct (l_client (wa_link a1)) as [c|]; [|done].
  destruct (sync_one_batch c _ _) as [[[c1 t] o]|] eqn:Eb; [|done].
  destruct o as [bo|e|]; cbn [fst snd]; split; try done; intros text; cbn [fst].
  - by destruct (worked bo).
  - destruct e as [e|d|[at_height requested safe|e]]; cbn; intros [= <-]. eauto 12.
Qed.
Lemma sync_step_kept a :
  kept a (sync_step a).2 ∧
  ∀ text, (sync_step a).1 = PassFailed (Unrecoverable text) →
    ∃ c c' d d' batch at_height requested safe,
      sync_one_batch c d batch = Some (c', d', Failed_ (Reorg (UnrecoverableReorg at_height requested safe))) ∧
      text = unrecoverable_text at_height requested safe.
Proof.
  unfold Actor.sync_step. pose proof (quiet_kept _ _ (connected_quiet a)) as Hk.
  destruct (connected a) as [[|e] a1]; [|done]. cbn [snd] in Hk.
  assert (kept a (maybe_bootstrap_account a1)) as Hk2 by (trans a1; [done|apply bootstrap_kept]).
  destruct (s_account _) as [account|]; [|done].
  destruct (wc_transparent_enabled cfg).
  - destruct (prepare_transparent _ _ _ _) as [[|] w]; [|done].
    destruct (scan_batch_kept (on_scan (set_window w) (maybe_bootstrap_account a1))) as [H1 H2]. split; [|done].
    etrans; [exact Hk2|exact H1].
  - destruct (scan_batch_kept (maybe_bootstrap_account a1)) as [H1 H2]. split; [|done]. by etrans.
Qed.
Lemma catch_up_kept n a : kept a (catch_up activation branch_code branch_of for_height cfg W n a).2.
Proof.
  revert a. induction n as [|n IH]; intros a; [done|]. cbn. destruct (sync_step_kept a) as [Hk _].
  destruct (sync_step a) as [e a1]. destruct e; [|done..]. trans a1; [done|apply IH].
Qed.
Lemma broadcast_committed_kept data a :
  kept a (broadcast_committed activation branch_code branch_of for_height cfg W data a).2.
Proof.
  unfold broadcast_committed. pose proof (quiet_kept _ _ (connected_quiet a)) as Hq. destruct (connected a) as [[|e] a1]; [|done].
  destruct (l_client (wa_link a1)) as [c|]; [|done]. unfold send_raw. by destruct (broadcast_tx c data) as [c1 [o|e]].
Qed.
Lemma handle_command_kept n c a : kept a (handle_command n c a).2.
Proof.
  destruct (t_halted (wa_trouble a)) eqn:Hh; [by apply quiet_kept, handle_command_quiet|].
  destruct c as [t|data| | |c]; cbn.
  - unfold do_get_raw_tx. destruct (stored_transaction _ t) as [[d|e]|]; [done..|].
    pose proof (quiet_kept _ _ (fetch_quiet t a)). by destruct (fetch_tx_from_upstream _ _ _ _ _ _ t a).
  - pose proof (quiet_kept _ _ (do_broadcast_quiet data a)). by destruct (do_broadcast _ _ _ _ _ _ data a).
  - by rewrite Hh.
  - unfold do_send. assert (kept a (sync_to_tip_for_send activation branch_code branch_of for_height cfg W n a).2) as Hk.
    { unfold sync_to_tip_for_send. rewrite Hh. pose proof (quiet_kept _ _ (connected_quiet a)) as H1.
      destruct (connected a) as [[|e] a1]; [|done]. pose proof (quiet_kept _ _ (refresh_or_drop_quiet a1)) as H2.
      destruct (refresh_or_drop a1) as [[|] a2]; cbn [snd] in *; [|by trans a1].
      assert (kept a a2) as H3 by by trans a1. destruct (v_tip_height _ ≫= _); [done|].
      pose proof (catch_up_kept n a2) as H4. destruct (catch_up _ _ _ _ _ _ n a2) as [b a3]. by trans a2. }
    destruct (sync_to_tip_for_send _ _ _ _ _ _ n a) as [[[|]|e] a1]; [|done..].
    destruct (build_send _) as [t [data|e]]; [|done].
    pose proof (broadcast_committed_kept data (set_database t a1)) as H2.
    destruct (broadcast_committed _ _ _ _ _ _ data _). by trans (set_database t a1).
  - done.
Qed.
Lemma handle_commands_kept n cs a : kept a (handle_commands n cs a).
Proof.
  unfold Actor.handle_commands. revert a. induction cs as [|c cs IH]; intros a; [done|]. cbn.
  etrans; [apply handle_command_kept|apply IH].
Qed.
Lemma rebroadcast_all_kept txs a : kept a (rebroadcast_all W txs a).
Proof.
  revert a. induction txs as [|[t data] txs IH]; intros a; [done|]. cbn. destruct (l_client _) as [c|]; [|done].
  unfold send_raw. destruct (broadcast_tx c data) as [c1 [o|e]]; [|done]. etrans; [|apply IH]. done.
Qed.
Lemma caught_up_kept a :
  kept a (ensure_mempool_stream (enhance_step W (maybe_rebroadcast cfg W a)).2).
Proof.
  assert (kept a (maybe_rebroadcast cfg W a)) as H1.
  { unfold maybe_rebroadcast. destruct (v_tip_height _) as [tip|]; [|done].
    destruct (negb _); [done|]. cbn [read_clock]. case_match; [done|].
    match goal with |- context [unmined_raw_txs ?d tip] => destruct (unmined_raw_txs d tip) end; [|done].
    etrans; [|apply rebroadcast_all_kept]. done. }
  etrans; [exact H1|]. generalize (maybe_rebroadcast cfg W a). clear. intros a.
  assert (kept a (enhance_step W a).2) as H2.
  { unfold enhance_step. destruct (v_tip_height _); [|done]. destruct (l_client _) as [c|]; [|done].
    by destruct (enhance _ _ c) as [t [more [|]]]. }
  etrans; [exact H2|]. generalize (enhance_step W a).2. clear. intros a.
  unfold ensure_mempool_stream. destruct (_ || _); [done|]. destruct (l_client _) as [c|]; [|done].
  by destruct (subscribe_mempool c) as [c1 [|]].
Qed.
Lemma busy_pass_halts a :
  t_halted (wa_trouble a) = false → t_halted (wa_trouble (busy_pass a).2) = true →
  ∃ text a1, sync_step a = (PassFailed (Unrecoverable text), a1).
Proof.
  intros Hh. destruct (sync_step_kept a) as [Hk _]. unfold kept in Hk. rewrite Hh in Hk. unfold Actor.busy_pass.
  destruct (sync_step a) as [e a1]. cbn [snd] in Hk. destruct e as [| |e|]; [cbn; congruence| | |cbn; congruence].
  - pose proof (caught_up_kept (on_trouble (set_failures None 0) a1)) as H2.
    destruct (enhance_step W _) as [more a2]. unfold kept in H2. cbn in H2 |- *. congruence.
  - cbn [snd]. destruct (sync_failed_spec e a1) as (_ & _ & -> & _). rewrite Hk. destruct e; cbn; [done| |done]. eauto.
Qed.
Lemma turn_halts t st :
  t_halted (wa_trouble st.2) = false → t_halted (wa_trouble (turn t st).2) = true →
  ∃ a text a1, sync_step a = (PassFailed (Unrecoverable text), a1).
Proof.
  destruct st as [[more|] a]; cbn; [|congruence]. intros Hh. rewrite Hh, andb_true_r. destruct (_ || _).
  - intros H2. eexists. eapply busy_pass_halts; [|exact H2]. by rewrite handle_commands_kept.
  - unfold Actor.idle_event. destruct (negb _); [cbn; congruence|].
    set (a1 := on_trouble _ a). destruct (tn_event t) as [c| |raw| |]; cbn [snd]; try (cbn; congruence).
    + rewrite handle_command_kept. cbn. congruence.
    + pose proof (quiet_kept _ _ (tick_quiet a1)) as Hq. destruct (tick _ _ _ _ _ _ a1) as [b a2].
      unfold kept in Hq. cbn in Hq |- *. congruence.
    + pose proof (quiet_kept _ _ (refresh_or_drop_quiet (on_link (set_mempool false) a1))) as Hq.
      destruct (refresh_or_drop _) as [b a2]. unfold kept in Hq. cbn in Hq |- *. congruence.
Qed.

(** C14. A wallet that meets a reorg it cannot rewind past stops scanning for good, and only such a
    wallet does. A pass that fails so ends with no work left and the wallet halted; whatever turns
    follow, no batch is begun again and the wallet stays halted, a nudge and a send are refused
    without touching anything, and stored transactions are still served. And a turn halts a
    wallet only when a batch of its own found every truncation target below the conflict refused. *)
Theorem unrecoverable_reorg_stops_scanning :
  (∀ (a a1 : actor) text turns, sync_step a = (PassFailed (Unrecoverable text), a1) →
     let '(more, a2) := busy_pass a in
     let '(_, a3) := foldl (λ st t, turn t st) (more, a2) turns in
     more = Some false ∧ l_client (wa_link a2) = None ∧ t_halted (wa_trouble a3) = true ∧
     scans (wa_log a3) = scans (wa_log a1) ∧
     ∀ n, handle_command n SyncNow a3 = (UnitReply (Err halted_nudge), a3) ∧
          handle_command n Send a3 = (UnitReply (Err halted_for_send), a3) ∧
          ∀ t data, stored_transaction (database a3) t = Some (Ok data) →
            handle_command n (GetRawTx t) a3 = (RawTxReply (Ok (Some {| ft_data := data; ft_mined_height := None |})), a3)) ∧
  (∀ t (st : option bool * actor),
     t_halted (wa_trouble st.2) = false → t_halted (wa_trouble (turn t st).2) = true →
     ∃ c c' d d' batch at_height requested safe,
       sync_one_batch c d batch = Some (c', d', Failed_ (Reorg (UnrecoverableReorg at_height requested safe)))).
Proof.
  split.
  - intros a a1 text turns E. unfold Actor.busy_pass. rewrite E.
    destruct (sync_failed_spec (Unrecoverable text) a1) as (Hl & Hc & Hh & _). rewrite orb_true_r in Hh.
    set (a2 := sync_failed W _ a1) in *. pose proof (turns_quiet turns (Some false, a2) Hh) as [Hq1 Hq2].
    destruct (foldl _ _ turns) as [m a3]. cbn [snd] in Hq1, Hq2. rewrite Hh in Hq1. rewrite Hl in Hq2.
    split_and!; [done..|]. intros n. split_and!.
    + cbn. by rewrite Hq1.
    + cbn. unfold do_send, sync_to_tip_for_send. by rewrite Hq1.
    + intros t data Hs. cbn. unfold do_get_raw_tx. by rewrite Hs.
  - intros t st H1 H2. destruct (turn_halts t st H1 H2) as (a & text & a1 & E).
    destruct (sync_step_kept a) as [_ Hu]. rewrite E in Hu.
    destruct (Hu text eq_refl) as (c & c' & d & d' & batch & at_height & requested & safe & Hb & _). eauto 12.
Qed.

(** ** Pacing *)

Abbreviation attempt_of a := (Backoff.attempt (l_backoff (wa_link a))).
Lemma refresh_tip_resets a a' : refresh_tip a = (Ok tt, a') → attempt_of a' = 0.
Proof.
  unfold Actor.refresh_tip. destruct (l_client (wa_link a)) as [c|]; [|done].
  destruct (if has_account a then _ else _) as [[c1 t] [[tip hash]|e]]; [|done].
  destruct (recheck_branch _ _ _ _ tip _) as [[|e] a1]; [|done].
  destruct (refuse_stale_upstream a1) as [[why|] a2]; [done|]. by destruct (_ =? 32)%nat; intros [= <-].
Qed.

(** The record grows, and the attempts drop only if a tip was taken. *)
Definition paced (a a' : actor) : Prop :=
  ∃ newer, wa_log a' = newer ++ wa_log a ∧
    ((∃ tip, Refreshed tip ∈ newer) ∨ Z.min (attempt_of a) u32_max ≤ attempt_of a').
#[local] Instance paced_preorder : PreOrder paced.
Proof.
  split.
  - intros a. exists []. split; [done|right; lia].
  - intros a b c (n1 & H1 & H2) (n2 & H3 & H4). exists (n2 ++ n1). rewrite H3, H1, app_assoc. split; [done|].
    destruct H2 as [[t Ht]|H2]; [left; exists t; set_solver|]. destruct H4 as [[t Ht]|H4]; [left; exists t; set_solver|right; lia].
Qed.
Lemma paced_logs newer a a' : wa_log a' = newer ++ wa_log a → l_backoff (wa_link a') = l_backoff (wa_link a) → paced a a'.
Proof. intros Hl Hb. exists newer. split; [done|]. right. rewrite Hb. lia. Qed.
Ltac paces := first [reflexivity | by apply (paced_logs [])| by eapply (paced_logs [_]) | by eapply (paced_logs [_; _])].
Lemma backed_off a a' d :
  wa_log a' = wa_log a → l_backoff (wa_link a') = (Backoff.next_delay (l_backoff (wa_link a)) d).1 → paced a a'.
Proof. intros Hl Hb. exists []. split; [done|]. right. rewrite Hb. cbn. lia. Qed.
Lemma mark_disconnected_paced a : paced a (mark_disconnected W a).
Proof. by apply (backed_off _ _ (draw W (wa_reads a))). Qed.
(** Whoever gives a failed request's connection up. *)
Lemma gave_up a b : paced a b → paced a (mark_disconnected W b).
Proof. intros ->. apply mark_disconnected_paced. Qed.

Lemma connect_paced a : paced a (connect a).2.
Proof.
  unfold Actor.connect. destruct (acquire W _) as [c|e]; [|paces]. set (a1 := note Dialed _).
  assert (paced a (prepare_client cfg c a1).2) as Hp.
  { trans a1; [paces|]. unfold prepare_client. destruct (server_info c) as [c1 [info|e]]; [|paces].
    destruct (verify_server_network _ _); [paces|]. destruct (transparent_capability_error _ _); [paces|].
    destruct (l_roots _); [paces|]. destruct (update_subtree_roots c1 _) as [[c2 t] [|e]]; paces. }
  destruct (prepare_client cfg c a1) as [[info|e] a2]; cbn [snd] in Hp; (etrans; [exact Hp|]); [|paces].
  unfold refuse_stale_upstream. destruct (upstream_not_upgraded _ _); paces.
Qed.
Lemma connected_paced a : paced a (connected a).2.
Proof. unfold Actor.connected. destruct (is_some _); [done|apply connect_paced]. Qed.
Lemma refresh_tip_paced a : paced a (refresh_tip a).2.
Proof.
  unfold Actor.refresh_tip. destruct (l_client (wa_link a)) as [c|]; [|done].
  destruct (if has_account a then _ else _) as [[c1 t] [[tip hash]|e]]; [|paces].
  set (a1 := on_view _ _). trans a1; [paces|]. assert (paced a1 (recheck_branch activation branch_code branch_of for_height tip a1).2) as Hr.
  { unfold recheck_branch. destruct (branch_check_due _ _ _ _); [|done]. destruct (l_client (wa_link a1)) as [c2|]; [|done].
    destruct (refresh_server_info c2) as [c3 [info|e]]; paces. }
  destruct (recheck_branch _ _ _ _ tip a1) as [[|e] a2]; [|done]. trans a2; [exact Hr|].
  unfold refuse_stale_upstream. destruct (upstream_not_upgraded _ _); [paces|]. cbn [snd fmap option_fmap option_map].
  exists [Refreshed tip]. split; [by destruct (_ =? 32)%nat|]. left. exists tip. by left.
Qed.
Lemma refresh_or_drop_paced a : paced a (refresh_or_drop a).2.
Proof.
  unfold Actor.refresh_or_drop. pose proof (refresh_tip_paced a) as Hq. destruct (refresh_tip a) as [[|e] a1]; [done|].
  by apply gave_up.
Qed.
Lemma sync_step_paced a : paced a (sync_step a).2.
Proof.
  unfold Actor.sync_step. pose proof (connected_paced a) as Hk. destruct (connected a) as [[|e] a1]; [|done]. cbn [snd] in Hk.
  assert (paced a (maybe_bootstrap_account a1)) as Hb.
  { etrans; [exact Hk|]. unfold maybe_bootstrap_account. destruct (s_pending_bootstrap _) as [[b k]|]; [|done].
    destruct (has_account a1); [paces|]. destruct (negb k); [done|].
    destruct (v_tip_height _) as [tip|]; [|done]. destruct (l_client (wa_link a1)) as [c|]; [|done].
    destruct (tree_state c _) as [c1 [cs|e]]; [|paces]. destruct (create_account _ _ _ _) as [t [id| |]]; paces. }
  assert (∀ b, paced b (scan_batch cfg W b).2) as Hs.
  { intros b. unfold scan_batch. assert (paced b (take_prefetched W b).2) as Hp.
    { unfold take_prefetched. destruct (s_prefetch _); paces. }
    destruct (take_prefetched W b) as [p b1]. etrans; [exact Hp|]. cbn [snd]. destruct (l_client (wa_link b1)) as [c|]; [|done].
    destruct (sync_one_batch c _ _) as [[[c1 t] o]|]; [destruct o|]; paces. }
  destruct (s_account _) as [account|]; [|done]. destruct (wc_transparent_enabled cfg); [|by etrans].
  destruct (prepare_transparent _ _ _ _) as [[|] w]; (etrans; [exact Hb|]); [etrans; [|apply Hs]|]; paces.
Qed.
Lemma send_raw_paced data c a : paced a (send_raw W data c a).2.
Proof. unfold send_raw. destruct (broadcast_tx c data) as [c1 [o|e]]; [|apply gave_up]; paces. Qed.
Lemma do_broadcast_paced data a : paced a (do_broadcast activation branch_code branch_of for_height cfg W data a).2.
Proof.
  unfold do_broadcast. pose proof (connected_paced a) as Hq. destruct (connected a) as [[|e] a1]; [|done].
  destruct (l_client (wa_link a1)) as [c|]; [|done]. pose proof (send_raw_paced data c a1).
  destruct (send_raw W data c a1). by etrans.
Qed.
Lemma broadcast_committed_paced data a :
  paced a (broadcast_committed activation branch_code branch_of for_height cfg W data a).2.
Proof.
  unfold broadcast_committed. pose proof (connected_paced a) as Hq. destruct (connected a) as [[|e] a1]; [|done].
  destruct (l_client (wa_link a1)) as [c|]; [|done]. pose proof (send_raw_paced data c a1).
  destruct (send_raw W data c a1). by etrans.
Qed.
Lemma handle_command_paced n c a : paced a (handle_command n c a).2.
Proof.
  destruct c as [t|data| | |c]; cbn [Actor.handle_command].
  - unfold do_get_raw_tx. destruct (stored_transaction _ t) as [[d|e]|]; [done..|]. unfold fetch_tx_from_upstream.
    pose proof (connected_paced a) as Hq. destruct (connected a) as [[|e] a1]; [|done]. cbn [snd] in Hq.
    destruct (l_client (wa_link a1)) as [c|]; [|done].
    destruct (fetch_tx c t) as [c1 [f|e]]; [|apply gave_up]; (etrans; [exact Hq|]); paces.
  - pose proof (do_broadcast_paced data a). by destruct (do_broadcast _ _ _ _ _ _ data a).
  - destruct (t_halted _); paces.
  - unfold do_send. assert (∀ m b, paced b (catch_up activation branch_code branch_of for_height cfg W m b).2) as Hc.
    { intros m. induction m as [|m IH]; intros b; [done|]. cbn. pose proof (sync_step_paced b) as Hk.
      destruct (sync_step b) as [e b1]. destruct e; [by etrans|done|by apply gave_up|done]. }
    assert (paced a (sync_to_tip_for_send activation branch_code branch_of for_height cfg W n a).2) as Hk.
    { unfold sync_to_tip_for_send. destruct (t_halted _); [done|]. pose proof (connected_paced a) as H1.
      destruct (connected a) as [[|e] a1]; [|done]. pose proof (refresh_or_drop_paced a1) as H2.
      destruct (refresh_or_drop a1) as [[|] a2]; cbn [snd] in *; [|by trans a1].
      assert (paced a a2) as H3 by by trans a1. destruct (v_tip_height _ ≫= _); [done|].
      pose proof (Hc n a2) as H4. destruct (catch_up _ _ _ _ _ _ n a2) as [b a3]. by trans a2. }
    destruct (sync_to_tip_for_send _ _ _ _ _ _ n a) as [[[|]|e] a1]; [|done..]. cbn [snd] in Hk.
    destruct (build_send _) as [t [data|e]]; (etrans; [exact Hk|]); [|paces].
    pose proof (broadcast_committed_paced data (set_database t a1)) as H2.
    destruct (broadcast_committed _ _ _ _ _ _ data _). trans (set_database t a1); [paces|done].
  - paces.
Qed.
Lemma handle_commands_paced n cs a : paced a (handle_commands n cs a).
Proof.
  unfold Actor.handle_commands. revert a. induction cs as [|c cs IH]; intros a; [done|]. cbn.
  etrans; [apply handle_command_paced|apply IH].
Qed.
Lemma caught_up_paced a : paced a (ensure_mempool_stream (enhance_step W (maybe_rebroadcast cfg W a)).2).
Proof.
  assert (∀ txs b, paced b (rebroadcast_all W txs b)) as Hall.
  { intros txs. induction txs as [|[t data] txs IH]; intros b; [done|]. cbn. destruct (l_client _) as [c|]; [|done].
    pose proof (send_raw_paced data c b) as Hs. destruct (send_raw W data c b) as [[o|] b1]; [|done]. by etrans. }
  assert (paced a (maybe_rebroadcast cfg W a)) as H1.
  { unfold maybe_rebroadcast. destruct (v_tip_height _) as [tip|]; [|done]. destruct (negb _); [done|].
    cbn [read_clock]. case_match; [paces|].
    match goal with |- context [unmined_raw_txs ?d tip] => destruct (unmined_raw_txs d tip) end; [|paces].
    etrans; [|apply Hall]. paces. }
  etrans; [exact H1|]. generalize (maybe_rebroadcast cfg W a). intros b. trans (enhance_step W b).2.
  - unfold enhance_step. destruct (v_tip_height _); [|done]. destruct (l_client _) as [c|]; [|done].
    destruct (enhance _ _ c) as [t [more [|]]]; [apply gave_up|]; paces.
  - generalize (enhance_step W b).2. intros d. unfold ensure_mempool_stream. destruct (_ || _); [done|].
    destruct (l_client _) as [c|]; [|done]. destruct (subscribe_mempool c) as [c1 [|]]; paces.
Qed.
Lemma tick_paced a : paced a (tick activation branch_code branch_of for_height cfg W a).2.
Proof.
  unfold tick. set (a1 := if is_some (l_client (wa_link a)) then a else _). trans a1.
  - unfold a1. destruct (is_some _); [done|]. pose proof (connect_paced a) as Hq.
    destruct (connect a) as [[|e] a2]; [done|]. trans a2; [done|]. by apply (backed_off _ _ (draw W (wa_reads a2))).
  - clearbody a1. destruct (is_some _); [apply refresh_or_drop_paced|done].
Qed.
Lemma turn_paced t st : paced st.2 (turn t st).2.
Proof.
  destruct st as [[more|] a]; cbn [Actor.turn snd]; [|done]. destruct (_ && _).
  - trans (on_trouble (set_force_sync false) a); [paces|].
    etrans; [apply (handle_commands_paced (tn_passes t) (tn_commands t))|].
    generalize (handle_commands (tn_passes t) (tn_commands t) (on_trouble (set_force_sync false) a)). intros b.
    unfold Actor.busy_pass. pose proof (sync_step_paced b) as Hs. destruct (sync_step b) as [e a1]. cbn [snd] in Hs.
    etrans; [exact Hs|]. destruct e as [| |e|]; [paces| | |done].
    + pose proof (caught_up_paced (on_trouble (set_failures None 0) a1)) as Hc. destruct (enhance_step W _) as [left a2].
      etrans; [|exact Hc]. paces.
    + destruct (sync_failed_spec e a1) as (Hl & _ & _ & _ & _ & Hb). by eapply backed_off.
  - unfold Actor.idle_event. destruct (negb _); [paces|]. set (a1 := on_trouble _ a). trans a1; [paces|].
    destruct (tn_event t) as [c| |raw| |]; [apply handle_command_paced| |paces| |paces].
    + pose proof (tick_paced a1). by destruct (tick _ _ _ _ _ _ a1).
    + pose proof (refresh_or_drop_paced (on_link (set_mempool false) a1)). destruct (refresh_or_drop _) as [b a2].
      etrans; [|done]. paces.
Qed.


(** An account's creation that cannot read the tree state drops the client and nothing else: the
    pass counts as caught up, and a deadline already past is still past, so the loop dials again at
    once. *)
Lemma failed_bootstrap_is_not_paced (a : actor) c c' tip birthday e now :
  l_client (wa_link a) = Some c → v_tip_height (wa_view a) = Some tip → has_account a = false →
  s_pending_bootstrap (wa_scan a) = Some (birthday, true) → tree_state c (Z.max (sat_sub birthday 1) 1) = (c', Err e) →
  l_reconnect_at (wa_link a) ≤ now →
  let '(more, a') := busy_pass a in
  more = Some false ∧ l_client (wa_link a') = None ∧ attempt_of a' = attempt_of a ∧ idle_wait cfg now a' = 0.
Proof.
  intros Hc Ht Ha Hp He Hr. unfold Actor.busy_pass, Actor.sync_step, Actor.connected. rewrite Hc. cbn [is_some].
  unfold maybe_bootstrap_account. rewrite Hp, Ha, Ht, Hc. cbn [negb]. rewrite He.
  unfold has_account in Ha. destruct (s_account (wa_scan a)) eqn:Hs; [done|]. cbn [s_account wa_scan on_link use_link note].
  rewrite Hs. unfold maybe_rebroadcast, enhance_step, ensure_mempool_stream, idle_wait. cbn. rewrite Ht. cbn. rewrite Ht. cbn.
  destruct (l_mempool (wa_link a) || _); cbn; split_and!; (done || lia).
Qed.

(** The catch-up before a send: passes past its end change nothing, and if every pass that works
    leaves less to do and every download ends, there are enough of them. *)
Abbreviation catch_up := (catch_up activation branch_code branch_of for_height cfg W).
Lemma catch_up_more n m a a' : catch_up n a = (true, a') → (n ≤ m)%nat → catch_up m a = (true, a').
Proof.
  revert m a. induction n as [|n IH]; intros m a; cbn; [done|]. intros E Hle. destruct m as [|m]; [lia|]. cbn.
  destruct (sync_step a) as [e a1]. destruct e; [|done..]. apply IH; [done|lia].
Qed.
Lemma catch_up_ends (left : actor → nat) a :
  (∀ a a', sync_step a = (Worked, a') → (left a' < left a)%nat) → (∀ a a', sync_step a ≠ (Downloading, a')) →
  ∃ a', catch_up (S (left a)) a = (true, a').
Proof.
  intros Hw Hd. remember (left a) as n eqn:Hn. assert (left a ≤ n)%nat as Hle by lia. clear Hn. revert a Hle.
  induction n as [|n IH]; intros a Hle; cbn [Actor.catch_up]; destruct (sync_step a) as [[| |e|] a1] eqn:E; try by eexists.
  - apply Hw in E. lia.
  - by apply Hd in E.
  - apply IH. apply Hw in E. lia.
  - by apply Hd in E.
Qed.
(** A refused node's mempool is still read, until the next dial. *)
Lemma refused_mempool_is_still_read (a a' : actor) e why :
  refresh_tip a = (Err e, a') → l_mempool (wa_link a) = true → v_refusal (wa_view a') = Some why →
  let a2 := mark_disconnected W a' in
  l_client (wa_link a2) = None ∧ v_refusal (wa_view a2) = Some why ∧
  ∀ raw n, idle_event n (MempoolTx raw) a2 = (false, store_mempool cfg W raw a2).
Proof.
  intros E Hm Hw a2. assert (l_mempool (wa_link a') = true) as H1.
  { revert E. unfold Actor.refresh_tip. destruct (l_client (wa_link a)) as [c|]; [|by intros [= <- <-]].
    destruct (if has_account a then _ else _) as [[c1 t] [[tip hash]|err]]; [|by intros [= <- <-]].
    unfold recheck_branch. destruct (branch_check_due _ _ _ _);
      cbn [l_client wa_link on_view on_link set_database on_scan called set_client];
      [destruct (refresh_server_info c1) as [c2 [info|err]]; [|by intros [= <- <-]]|];
      (destruct (refuse_stale_upstream _) as [[y|] a3] eqn:Hr; [|done]);
      unfold refuse_stale_upstream in Hr; injection Hr as _ <-; by intros [= <- <-]. }
  split_and!; [done..|]. intros raw n. unfold Actor.idle_event. cbn. by rewrite H1.
Qed.
End actor.

(** ** A concrete wallet *)

Module ActorExample.
Import WindowExample.
#[local] Existing Instances WindowExample.toy_table WindowExample.toy_library.

(** A node whose tip is one higher each time it is asked, and which schedules nothing past height 5;
    a build that activates an upgrade at 8. In the wedged database no truncation is accepted. *)
Definition backend (wedged : bool) : Backend Z rows string Z () := {|
  compact_block_range c n e t := (c, (demo_chain <$> seqZ n (e - n + 1), None));
  tree_state c h := (c, Ok tt);
  fetch_tx c _ := (c, Ok None);
  is_h2_load_shed _ := false;
  with_context e _ := e;
  suggest_scan_ranges d := Ok (if wedged then [{| range_start := 5; range_end := 6; priority := 20 |}] else []);
  scan_cached_blocks d _ _ _ _ := (d, ScanContinuity 5);
  truncate_to_height d _ := (d, Err (RequestedRewindInvalid None));
  put_received_transparent_utxo d _ := (d, Ok tt);
  Engine.get_address_for_index d _ _ := (d, Ok tt);
  read_transaction s _ := Ok s;
  decrypt_and_store_transaction d _ _ := (d, Ok tt);
  max_money := 21;
  recipient_of := Some;
|}.
Definition info_at (tip : Z) : ServerInfo :=
  {| chain_name := "test"; tip_height := Some tip;
     upgrades := [{| ui_branch_id := 5; ui_name := "NU5"; ui_activation_height := Some 5; ui_status := US_Active |}];
     tip_branch_id := Some 5; next_block_branch_id := Some 5 |}.
#[local] Instance source : ActorSource Z string := {|
  server_info c := (c, Ok (info_at c)); refresh_server_info c := (c, Ok (info_at c));
  block_scan_covers_transparent _ := false; subtree_roots c _ := (c, Ok []);
  latest_block c := (c + 1, Ok (c + 1, "")); subscribe_mempool c := (c, Ok tt);
  broadcast_tx c _ := (c, Ok {| error_code := 0; error_message := "" |}); anyhow s := s; display s := s |}.
#[local] Instance wallet_db : ActorDb rows string () := {|
  read_node _ _ := Ok tt; put_subtree_roots t _ _ := (t, Ok tt); update_chain_tip t _ := (t, Ok tt);
  block_fully_scanned _ := Some 1; unmined_raw_txs _ _ := Some []; stored_transaction _ t := Some (Ok t);
  tx_vout _ := None; tx_exists _ _ := false; unmined_txids _ := Some [] |}.
#[local] Instance parts : ActorParts rows Z () := {|
  create_account t _ _ _ := (t, NotCreated); enhance t _ _ := (t, (false, false)); build_send t := (t, Ok "tx");
  local_command := (); run_local _ t := t |}.
#[local] Instance hex : HexCodec := {| hex_encode s := s; hex_decode s := Some s |}.
Definition activation (nu : NetworkUpgrade) : option Z :=
  match nu with Nu5 => Some 5 | Nu6 => Some 8 | _ => None end.
Definition branch_code (b : BranchId) : Z := match b with BranchOf Nu5 => 5 | BranchOf Nu6 => 6 | _ => 0 end.
Definition branch_of (id : Z) : option BranchId :=
  if id =? 5 then Some (BranchOf Nu5) else if id =? 6 then Some (BranchOf Nu6) else None.
Definition for_height (h : Z) : BranchId := BranchOf (if h <? 8 then Nu5 else Nu6).
Definition cfg : ActorConfig :=
  {| wc_network := Test; wc_transparent_enabled := false; wc_initial_scan := 0; wc_gap_limit := 10; wc_batch_size := 100;
     wc_sync_interval := 20; wc_rebroadcast_interval := 60; wc_max_send_catchup_blocks := 0 |}.
Definition outside : Outside Z string :=
  {| clock n := Z.of_nat n; draw n := 3; acquire n := Ok 5; finished n r := None |}.
Definition opened : WalletActor Z :=
  {| wa_link := {| l_client := None; l_logged := false; l_mempool := false; l_reconnect_at := 0;
                   l_backoff := Backoff.new 1000000000 60000000000; l_roots := false |};
     wa_view := {| v_tip_height := None; v_tip_hash := None; v_unsupported := []; v_refusal := None;
                   v_branch_checked_at := None |};
     wa_trouble := {| t_last_sync_error := None; t_streak := 0; t_halted := false; t_force_sync := false |};
     wa_scan := {| s_window := WindowExample.start []; s_account := Some 0; s_pending_bootstrap := None;
                   s_reorg_margin := 10; s_prefetch := None; s_last_rebroadcast := None; s_first_seen := ∅ |};
     wa_reads := 0; wa_log := [] |}.
Definition ticking : Turn := {| tn_commands := [Broadcast "aa"]; tn_event := Tick; tn_passes := 1 |}.
Definition ran (turns : list Turn) : option bool * WalletActor Z :=
  run (B := backend false) activation branch_code branch_of for_height cfg outside turns opened.


(** A database that refuses every truncation: the first pass halts the wallet. *)
Definition wedged : WalletActor Z :=
  (Actor.start (error := string) activation branch_code branch_of for_height cfg outside opened).2.
Lemma wedged_fails :
  ∃ a1, sync_step (B := backend true) activation branch_code branch_of for_height cfg outside wedged
          = (PassFailed (Unrecoverable (unrecoverable_text 5 0 None)), a1) ∧
    t_last_sync_error (wa_trouble a1) = None ∧ 0 ≤ clock outside (S (wa_reads a1)).
Proof. eexists. split; [vm_compute; reflexivity|]. split; [reflexivity|]. by vm_compute. Qed.
Lemma unrecoverable_reorg_stops_scanning_witness :
  ∃ a1, sync_step (B := backend true) activation branch_code branch_of for_height cfg outside wedged
          = (PassFailed (Unrecoverable (unrecoverable_text 5 0 None)), a1) ∧
  let '(more, a2) := busy_pass (B := backend true) activation branch_code branch_of for_height cfg outside wedged in
  let '(_, a3) := foldl (λ st t, turn (B := backend true) activation branch_code branch_of for_height cfg outside t st)
                    (more, a2) [ticking; ticking] in
  t_halted (wa_trouble a3) = true ∧ scans (wa_log a3) = scans (wa_log a1).
Proof.
  destruct wedged_fails as (a1 & E & _). exists a1. split; [exact E|].
  pose proof (proj1 (unrecoverable_reorg_stops_scanning (B := backend true) activation branch_code branch_of for_height
    cfg outside) wedged a1 _ [ticking; ticking] E) as H.
  destruct (busy_pass _ _ _ _ _ _ wedged) as [more a2]. destruct (foldl _ _ _) as [m a3].
  split; [exact (proj1 (proj2 (proj2 H)))|exact (proj1 (proj2 (proj2 (proj2 H))))].
Defined.
End ActorExample.
